(* ===== verification/_CoqProject ===== *)
-Q . S2P
Prelude.v
Net.v
Checksum.v
Protocol.v
Ip.v
Query.v
Membership.v
State.v
Relay.v
Ecn.v
Gateway.v
Session.v
Mtu.v
LocalMembership.v
Desired.v
Pmtu.v
Effects.v
Udp.v
Text.v
Dns.v
QueryLimiter.v
Candidates.v
Driad.v
Forward.v
Upstream.v
Downstream.v
Worker.v
Metrics.v
RelayDaemon.v
RelayControl.v
RelayData.v
RelayLoop.v
Asked.v
GatewayPlane.v
GatewayDaemon.v
GatewayLoop.v
GatewayRun.v
DriadTunnel.v
DriadRun.v
DriadDaemon.v
DriadDaemonRun.v
AddrText.v
Config.v
Resolvers.v
Options.v
RelayCommand.v
GatewayCommand.v
CommandLine.v
