(* ===== verification/Prelude.v ===== *)
(** * A verified model of [quicast-amt]: Automatic Multicast Tunneling (RFC 7450)

    The program carries multicast over a unicast tunnel.  A gateway discovers a
    relay, asks it for a membership query, answers with IGMPv3 or MLDv2 reports
    of what its hosts want, and gets the matching multicast packets wrapped in
    UDP.  The relay authenticates every report with a MAC it handed out before,
    keeps the gateways' memberships, subscribes upstream to their union and
    forwards each packet to the gateways that asked for it.  A gateway may also
    find a relay for each source by DNS (DRIAD, RFC 8777), and then keeps one
    tunnel per source.

    ** Files

    Foundations:
    - [Prelude]: outcomes of Rust code ([res]: value, error, panic, fuel used up)
      with their weakest precondition [wp], machine-width integers, slices and
      indexing as Rust does them, bytes, the shared tactics and hints.
    - [Net]: [std::net] addresses with the order of the Rust types, the iteration
      order of [BTreeMap] and [BTreeSet] over [gmap] and [gset], instants and
      durations (in nanoseconds).
    - [Effects]: code that acts on its surroundings, a state and error monad [M]
      with its weakest precondition [mwp].
    - [Text], [AddrText]: strings as bytes, and what the standard library parses.

    The protocol, without sockets or clocks:
    - [Checksum] ([src/checksum.rs]), [Protocol] ([src/protocol.rs]), [Ip]
      ([src/ip.rs]), [Query] ([src/query.rs]), [Membership]
      ([src/membership.rs]): the codecs.
    - [State] ([src/state.rs]): memberships of all endpoints and the indexes
      derived from them.  [Relay] ([src/relay.rs]) and [Gateway]
      ([src/gateway.rs]): the two protocol engines.  [Session]: the two engines
      talking to each other.
    - [Ecn] ([src/ecn.rs]), [Mtu] ([src/mtu.rs]), [Pmtu] ([src/pmtu.rs]): what
      happens to a packet at the ends of the tunnel.  [LocalMembership]
      ([src/local_membership.rs]): the reports of the hosts behind a gateway.

    Relay discovery ([src/driad.rs]): [Dns] the messages, [QueryLimiter] the rate
    of queries, [Candidates] the order of the relays, [Driad] the resolver,
    [Resolvers] the resolvers of the system.

    The ends of the tunnel: [Forward] and [Upstream] ([src/upstream.rs]) the
    captured packets and the native subscriptions, [Worker]
    ([src/upstream_worker.rs]) the capture thread beside the relay thread,
    [Downstream] ([src/downstream.rs]) the transmission of what comes out.
    [Metrics] ([src/metrics.rs]): counters and the rows written of them.  [Udp]
    ([src/udp.rs]): the socket of a tunnel.

    The daemons ([src/daemon.rs]):
    - [RelayDaemon], [RelayControl], [RelayData], [RelayLoop]: the relay's data,
      its control plane, its data plane and the loop of [run_relay].
    - [Desired], [Asked], [GatewayPlane], [GatewayDaemon], [GatewayLoop],
      [GatewayRun]: the memberships a gateway wants, what the datagrams it has sent
      ask of a relay (a specification, no code), what it does with packets, its
      configuration and timers, the loop of [run_static_gateway] and what holds of
      it.
    - [DriadTunnel], [DriadRun], [DriadDaemon], [DriadDaemonRun]: the tunnel of one
      source, what holds of it, the loop of [run_driad_gateway] over all of them and
      what holds of that.

    The command line: [Config] ([src/config.rs]) the configuration file,
    [Options], [RelayCommand], [GatewayCommand] and [CommandLine] ([src/main.rs])
    the arguments, the two commands and the choice between them.

    ** How the code is modelled

    A [Result]-returning function is a function into [res]; an index or slice out
    of range, an underflowing [usize] subtraction and a reached [unreachable!]
    are [Panic], so a safety theorem ([wp], [returns]) says that none is
    reachable.  [&mut self] methods take the state and return the new one with
    the result.  Integers are [Z], with the wrap-around of casts and of [u32]
    sums written out and checked arithmetic as in the source.  [BTreeMap]s are
    [gmap]s; where the source iterates, the model iterates in key order.

    In the engines the clock is an argument: each handler reads one instant [now]
    (the source reads [Instant::now] where it needs it; within one call the model
    takes these readings to be equal).  The daemons and the resolver ask their
    surroundings through a type class of operations ([RelayWorld], [GatewayWorld],
    [DriadWorld] and the like: clock, sockets, random source, shutdown flag), and
    the laws that the theorems use of it are a second class ([RelayWorldOk], ...),
    which each witness instantiates; now and then one reading serves where the
    source takes two in a row.  What the theorems say was sent is read off the world: its laws
    say which calls add to the log of a socket ([sent] of a gateway, [logs] of the
    sockets of the tunnels, [trace] of the relay), and with what.  The capture and
    raw-socket libraries ([mcrx-core], [mctx-core]) are such classes too.  HMAC-SHA256 is a parameter of [Relay] and
    [Session], of which only the length of the digest is assumed; random draws are
    arguments.  The two threads of [Worker] are step functions over the shared
    memory, and a schedule is any interleaving of their accesses.

    An [Instant] has 63 bits of seconds, and adding a configured duration to it
    panics where that does not suffice ([instant_add] of [DriadTunnel]): the
    theorems on the tunnels assume durations that leave an instant on a clock below
    [CLOCK_MAX], and [hold_down_unbounded] shows that the command line does not
    check this.  All other durations that are added to a clock's reading are
    constants or come from 64 bits of milliseconds, which always fit.  The [u64]
    counters of the metrics are unbounded integers outside of [Worker].

    ** Loops and fuel

    Loops over data are structural.  A loop bounded by the length of its input
    takes fuel of that length ([Diverge] when it runs out, which the theorems
    exclude), a [for] loop with a constant bound takes that constant: 128 steps in
    a DNS name, 8 aliases, 16 packets skipped by a receive, 128 control datagrams,
    513 packets and 64 local reports in a turn of a daemon.  Waiting for the query
    budget takes two rounds more than the clones of the resolver, which share its
    limiter, have queries to send, ordering the candidates one round more than
    there are candidates, and a pass over the probes one more than there are
    probes; a command to the capture thread is answered within 2575 of its
    accesses.  The daemons' loops take the number of turns as an argument: what is
    proved of them holds for every number.

    ** What is proved

    - Codecs: decoding inverts encoding for messages, queries and reports; the
      parsers come back from every byte sequence, accept what they should and
      reject with the right error; the checksum loop computes the ones'
      complement sum, whatever the slicing.
    - Membership state: the indexed state refines the source-set semantics of
      RFC 3376 and RFC 3810; forwarding, aggregate and subscriptions are exactly
      those the interests call for; limited reports are atomic and the limits
      hold in every reachable state.
    - Relay: membership changes only by authenticated messages and only for the
      endpoint they speak for; MACs live as long as they must; no datagram makes
      it panic.
    - Gateway: its phase machine, what off-path senders cannot do, what is
      delivered, what a membership update does, how it fails over.
    - Session: the handshake completes, reports keep both sides in step, what is
      forwarded is delivered, a teardown clears the relay.
    - Tunnel ends: RFC 6040 decapsulation, fragmentation, ICMP feedback and its
      rate limit, delta reports and expiry of local memberships, normalisation of
      captured packets, publications.
    - Upstream: reconciliation reaches the wanted subscriptions or rolls back; the
      two threads account for every packet, lose no wake-up, and answer commands.
    - Discovery: responses are read exactly, the limiter refines a sliding window,
      and a resolution yields the relays the records name, in their order.
    - Daemons: each runs for any number of turns without a panic or a hang and
      keeps its parts consistent; idle gateways expire, a stalled gateway fails
      over, captured packets reach the gateways that want them, the datagrams that
      a gateway has sent ask its relay for exactly what the joins and the hosts
      want (with DRIAD, each source's relay for what is desired of the source),
      probes and hold-downs follow the candidates.
    - Command line: whatever the arguments and the file, a configuration that is
      accepted has every value in its range and is one the daemons run with;
      arguments override the file.

    ** Not modelled

    The set-up of the poller and of the threads in [src/daemon.rs]; the variants of
    the socket options for systems other than Linux; the rate limiter of control
    datagrams and the rates in metrics rows, which the source computes in floating
    point (the limiter is a parameter, a rate its count and interval); signal
    handlers; the build flags in metrics headers; the [TOML] reader (a parameter
    with the types of its result); [Display] texts, the usage text and the lines
    printed on the terminal; the arguments of the process before they are strings
    ([env::args] panics on one that is not Unicode, before [run] is called). *)

From stdpp Require Export base tactics decidable list gmap strings sorting.
From Stdlib Require Export ZArith Lia.

#[global] Open Scope Z_scope.

(** * Outcomes of Rust code

    [res E A] is the outcome of a Rust expression of type [Result<A, E>]
    (or of plain type [A], when [E] plays no role): a value, an error
    returned to the caller, a panic (slice index out of range, slice length
    mismatch, arithmetic underflow of a [usize]) or a loop that used up its
    fuel.  The last two never happen in the verified code: the safety
    theorems say so. *)

Inductive res (E A : Type) : Type :=
| Ok (a : A)
| Err (e : E)
| Panic
| Diverge.
Arguments Ok {E A} a.
Arguments Err {E A} e.
Arguments Panic {E A}.
Arguments Diverge {E A}.

#[global] Instance res_eq_dec `{EqDecision E, EqDecision A} : EqDecision (res E A).
Proof. solve_decision. Defined.

#[global] Instance res_ret {E} : MRet (res E) := λ A a, Ok a.

#[global] Instance res_bind {E} : MBind (res E) := λ A B f m,
  match m with
  | Ok a => f a
  | Err e => Err e
  | Panic => Panic
  | Diverge => Diverge
  end.

(** [map_err f m]: the error conversion of [?] through [From], and of
    [Result::map_err]. *)
Definition map_err {E F A} (f : E → F) (m : res E A) : res F A :=
  match m with
  | Ok a => Ok a
  | Err e => Err (f e)
  | Panic => Panic
  | Diverge => Diverge
  end.

(** [ok_or e o]: [Option::ok_or]. *)
Definition ok_or {E A} (e : E) (o : option A) : res E A :=
  match o with Some a => Ok a | None => Err e end.

(** A value computed without any error type at hand. *)
Definition lift_option {E A} (o : option A) : res E A :=
  match o with Some a => Ok a | None => Panic end.

(** ** Weakest preconditions

    [wp m Q R] holds when [m] neither panics nor runs out of fuel, its value
    satisfies [Q] and its error satisfies [R]. *)
Definition wp {E A} (m : res E A) (Q : A → Prop) (R : E → Prop) : Prop :=
  match m with
  | Ok a => Q a
  | Err e => R e
  | Panic | Diverge => False
  end.

(** [returns m]: [m] comes back with a value or an error. *)
Definition returns {E A} (m : res E A) : Prop := wp m (λ _, True) (λ _, True).

Section wp.
Context {E A : Type}.
Implicit Types (m : res E A) (Q : A → Prop) (R : E → Prop).

Lemma wp_ok (a : A) Q R : Q a → wp (Ok a) Q R.
Proof. done. Qed.

Lemma wp_err (e : E) Q R : R e → wp (Err e : res E A) Q R.
Proof. done. Qed.

Lemma wp_bind {B} m (f : A → res E B) (Q : B → Prop) R :
  wp m (λ a, wp (f a) Q R) R → wp (m ≫= f) Q R.
Proof. destruct m; auto. Qed.

Lemma wp_mono m Q Q' R R' :
  wp m Q R → (∀ a, Q a → Q' a) → (∀ e, R e → R' e) → wp m Q' R'.
Proof. destruct m; simpl; auto. Qed.

Lemma wp_map_err {F} (f : F → E) (m : res F A) Q R :
  wp m Q (λ e, R (f e)) → wp (map_err f m) Q R.
Proof. destruct m; auto. Qed.

Lemma wp_ok_inv m Q R a : wp m Q R → m = Ok a → Q a.
Proof. by intros ? ->. Qed.

Lemma wp_returns m Q R : wp m Q R → returns m.
Proof. destruct m; simpl; auto. Qed.

Lemma bind_ok_inv {B} m (f : A → res E B) b :
  m ≫= f = Ok b → ∃ a, m = Ok a ∧ f a = Ok b.
Proof. destruct m; simpl; naive_solver. Qed.

Lemma map_err_ok_inv {F} (f : F → E) (m : res F A) a :
  map_err f m = Ok a → m = Ok a.
Proof. by destruct m; intros; simplify_eq/=. Qed.
End wp.

(** * Machine integers and bytes

    Rust's unsigned integers are [Z]s in range; a byte string is a list of
    [Z]s each in [0, 256). *)

Definition u8 (x : Z) : Prop := 0 <= x < 256.
Definition u16 (x : Z) : Prop := 0 <= x < 65536.
Definition u32 (x : Z) : Prop := 0 <= x < 4294967296.
Definition bytes (l : list Z) : Prop := Forall u8 l.

#[global] Instance u8_dec x : Decision (u8 x).
Proof. unfold u8. apply _. Defined.
#[global] Instance u16_dec x : Decision (u16 x).
Proof. unfold u16. apply _. Defined.
#[global] Instance u32_dec x : Decision (u32 x).
Proof. unfold u32. apply _. Defined.
#[global] Instance bytes_dec l : Decision (bytes l).
Proof. unfold bytes. apply _. Defined.

Definition U16_MAX : Z := 65535.
Definition USIZE_MAX : Z := 18446744073709551615.

(** [as u8], [as u16]: truncating casts. *)
Definition as_u8 (x : Z) : Z := x mod 256.
Definition as_u16 (x : Z) : Z := x mod 65536.
(** [u8::from(bool)]. *)
Definition u8_of_bool (b : bool) : Z := if b then 1 else 0.

Definition u16_from_be (hi lo : Z) : Z := hi * 256 + lo.
Definition u16_to_be (v : Z) : list Z := [v / 256; v mod 256].
Definition u32_from_be (a b c d : Z) : Z := a * 16777216 + b * 65536 + c * 256 + d.
Definition u32_to_be (v : Z) : list Z :=
  [v / 16777216; (v / 65536) mod 256; (v / 256) mod 256; v mod 256].

(** [a - b] on [usize]: underflow panics. *)
Definition usize_sub {E} (a b : Z) : res E Z := if b <=? a then Ok (a - b) else Panic.
(** [a.checked_add(b)] on [usize]. *)
Definition checked_add (a b : Z) : option Z :=
  if a + b <=? USIZE_MAX then Some (a + b) else None.
(** [a.checked_mul(b)] on [usize]. *)
Definition checked_mul (a b : Z) : option Z :=
  if a * b <=? USIZE_MAX then Some (a * b) else None.
(** [a.saturating_sub(b)] on [usize]. *)
Definition saturating_sub (a b : Z) : Z := Z.max 0 (a - b).
(** [a.saturating_mul(b)] on [usize]. *)
Definition saturating_mul (a b : Z) : Z := Z.min USIZE_MAX (a * b).

(** * Slices *)

Definition len {A} (l : list A) : Z := Z.of_nat (length l).
Arguments len : simpl never.

(** [l[i]]: panics out of range. *)
Definition idx {E A} (l : list A) (i : Z) : res E A :=
  if i <? 0 then Panic else lift_option (l !! Z.to_nat i).

(** [l.get(i)]. *)
Definition get {A} (l : list A) (i : Z) : option A :=
  if i <? 0 then None else l !! Z.to_nat i.

Fixpoint take_exact {A} (n : nat) (l : list A) : option (list A) :=
  match n, l with
  | O, _ => Some []
  | S n, x :: l => cons x <$> take_exact n l
  | S _, [] => None
  end.

Fixpoint drop_exact {A} (n : nat) (l : list A) : option (list A) :=
  match n, l with
  | O, _ => Some l
  | S n, _ :: l => drop_exact n l
  | S _, [] => None
  end.

(** [&l[..b]], [&l[a..]] and [&l[a..b]]: panic out of range. *)
Definition slice_to {E A} (l : list A) (b : Z) : res E (list A) :=
  if b <? 0 then Panic else lift_option (take_exact (Z.to_nat b) l).
Definition slice_from {E A} (l : list A) (a : Z) : res E (list A) :=
  if a <? 0 then Panic else lift_option (drop_exact (Z.to_nat a) l).
Definition slice {E A} (l : list A) (a b : Z) : res E (list A) :=
  p ← slice_to l b; slice_from p a.

(** Overwrite a prefix, or [length src] elements from position [n]. *)
Fixpoint overwrite {A} (l src : list A) {struct src} : option (list A) :=
  match src, l with
  | [], _ => Some l
  | s :: src, _ :: l => cons s <$> overwrite l src
  | _ :: _, [] => None
  end.

Fixpoint write_at {A} (n : nat) (l src : list A) : option (list A) :=
  match n, l with
  | O, _ => overwrite l src
  | S n, x :: l => cons x <$> write_at n l src
  | S _, [] => None
  end.

(** [l[i] = v]. *)
Definition set_idx {E A} (l : list A) (i : Z) (v : A) : res E (list A) :=
  if i <? 0 then Panic else lift_option (write_at (Z.to_nat i) l [v]).

(** [l[a..b].copy_from_slice(src)]: panics when the range is out of bounds or
    the lengths differ. *)
Definition copy_at {E A} (l : list A) (a b : Z) (src : list A) : res E (list A) :=
  if (a <? 0) || negb (len src =? b - a) then Panic
  else lift_option (write_at (Z.to_nat a) l src).

(** [{ let tail = &mut l[a..]; f(tail) }]: run [f] on the mutable borrow of
    the slice from [a] and put the result back in place. *)
Definition with_tail {E A} (l : list A) (a : Z)
    (f : list A → res E (list A)) : res E (list A) :=
  h ← slice_to l a; t ← slice_from l a; t' ← f t; Ok (h ++ t').

(** ** Lengths *)

Lemma len_nonneg {A} (l : list A) : 0 <= len l.
Proof. unfold len. lia. Qed.
Lemma len_nil {A} : len (@nil A) = 0.
Proof. done. Qed.
Lemma len_cons {A} (x : A) l : len (x :: l) = 1 + len l.
Proof. unfold len. simpl length. lia. Qed.
Lemma len_app {A} (l k : list A) : len (l ++ k) = len l + len k.
Proof. unfold len. rewrite length_app. lia. Qed.
Lemma len_replicate {A} n (x : A) : len (replicate n x) = Z.of_nat n.
Proof. unfold len. by rewrite length_replicate. Qed.
Lemma len_map {A B} (f : A → B) l : len (map f l) = len l.
Proof. unfold len. by rewrite length_map. Qed.
Lemma len_fmap {A B} (f : A → B) l : len (f <$> l) = len l.
Proof. unfold len. by rewrite length_fmap. Qed.
Lemma len_take {A} n (l : list A) : len (take n l) = Z.min (Z.of_nat n) (len l).
Proof. unfold len. rewrite length_take. lia. Qed.
Lemma len_drop {A} n (l : list A) : len (drop n l) = Z.max 0 (len l - Z.of_nat n).
Proof. unfold len. rewrite length_drop. lia. Qed.
Lemma len_u16_to_be v : len (u16_to_be v) = 2.
Proof. done. Qed.
Lemma len_u32_to_be v : len (u32_to_be v) = 4.
Proof. done. Qed.
Lemma len_zero_nil {A} (l : list A) : len l = 0 → l = [].
Proof. destruct l; [done|]. rewrite len_cons. pose proof (len_nonneg l). lia. Qed.

Create Rewrite HintDb amt_len.
#[export] Hint Rewrite @len_nil @len_cons @len_app @len_replicate @len_map @len_fmap
  @len_take @len_drop len_u16_to_be len_u32_to_be : amt_len.

Ltac pose_len_nonneg :=
  repeat match goal with
  | |- context [len ?l] =>
      lazymatch goal with H : 0 <= len l |- _ => fail | _ => pose proof (len_nonneg l) end
  | _ : context [len ?l] |- _ =>
      lazymatch goal with H : 0 <= len l |- _ => fail | _ => pose proof (len_nonneg l) end
  end.

(** [len_lia]: linear arithmetic over list lengths. *)
Ltac len_lia := autorewrite with amt_len in *; pose_len_nonneg; lia.

(** ** Reading *)

Lemma take_exact_spec {A} n (l : list A) :
  take_exact n l = if decide (n ≤ length l)%nat then Some (take n l) else None.
Proof.
  revert l; induction n as [|n IH]; intros [|x l]; simpl; try done.
  rewrite IH. repeat case_decide; simpl; try done; lia.
Qed.

Lemma drop_exact_spec {A} n (l : list A) :
  drop_exact n l = if decide (n ≤ length l)%nat then Some (drop n l) else None.
Proof.
  revert l; induction n as [|n IH]; intros [|x l]; simpl; try done.
  rewrite IH. repeat case_decide; simpl; try done; lia.
Qed.

Lemma slice_to_ok {E A} (l : list A) b :
  0 <= b <= len l → slice_to (E:=E) l b = Ok (take (Z.to_nat b) l).
Proof.
  unfold slice_to, len. intros. rewrite (proj2 (Z.ltb_ge b 0)) by lia.
  rewrite take_exact_spec. case_decide; [done|lia].
Qed.

Lemma slice_from_ok {E A} (l : list A) a :
  0 <= a <= len l → slice_from (E:=E) l a = Ok (drop (Z.to_nat a) l).
Proof.
  unfold slice_from, len. intros. rewrite (proj2 (Z.ltb_ge a 0)) by lia.
  rewrite drop_exact_spec. case_decide; [done|lia].
Qed.

(** The bytes of [l[a..b]]. *)
Definition sub {A} (l : list A) (a b : Z) : list A :=
  drop (Z.to_nat a) (take (Z.to_nat b) l).

Lemma slice_ok {E A} (l : list A) a b :
  0 <= a <= b → b <= len l → slice (E:=E) l a b = Ok (sub l a b).
Proof.
  intros. unfold slice. rewrite slice_to_ok by lia. simpl.
  rewrite slice_from_ok; [done|]. len_lia.
Qed.

Lemma len_sub {A} (l : list A) a b : 0 <= a <= b → b <= len l → len (sub l a b) = b - a.
Proof. intros. unfold sub. len_lia. Qed.

Lemma slice_from_app {E A} (l k : list A) a :
  a = len l → slice_from (E:=E) (l ++ k) a = Ok k.
Proof.
  intros ->. rewrite slice_from_ok by len_lia. unfold len.
  by rewrite Nat2Z.id, drop_app_length.
Qed.

Lemma slice_app {E A} (l m k : list A) a b :
  a = len l → b = len l + len m → slice (E:=E) (l ++ m ++ k) a b = Ok m.
Proof.
  intros -> ->. rewrite slice_ok by len_lia. unfold sub, len.
  replace (Z.to_nat (Z.of_nat (length l) + Z.of_nat (length m))) with (length (l ++ m))
    by (rewrite length_app; lia).
  by rewrite (assoc_L (++)), take_app_length, Nat2Z.id, drop_app_length.
Qed.

Lemma idx_ok_inv {E A} (l : list A) i x :
  idx (E:=E) l i = Ok x → l !! Z.to_nat i = Some x ∧ 0 <= i < len l.
Proof.
  unfold idx, len. destruct (Z.ltb_spec i 0); [done|].
  destruct (l !! Z.to_nat i) eqn:Hl; intros; simplify_eq/=.
  split; [done|]. apply lookup_lt_Some in Hl. lia.
Qed.

Lemma idx_lookup {E A} (l : list A) i x :
  0 <= i → l !! Z.to_nat i = Some x → idx (E:=E) l i = Ok x.
Proof. intros ? Hl. unfold idx. rewrite (proj2 (Z.ltb_ge i 0)) by lia. by rewrite Hl. Qed.

Lemma idx_is_ok {E A} (l : list A) i :
  0 <= i < len l → ∃ x, idx (E:=E) l i = Ok x ∧ l !! Z.to_nat i = Some x.
Proof.
  intros. destruct (lookup_lt_is_Some_2 l (Z.to_nat i)) as [x Hx]; [unfold len in *; lia|].
  exists x. split; [|done]. by apply idx_lookup; [lia|].
Qed.

Lemma bytes_lookup l i x : bytes l → l !! i = Some x → u8 x.
Proof. apply Forall_lookup_1. Qed.

(** ** Writing *)

Lemma overwrite_app {A} (old src post : list A) :
  length old = length src → overwrite (old ++ post) src = Some (src ++ post).
Proof.
  revert old; induction src as [|s src IH]; intros [|o old]; simpl; intros; try lia; [done|].
  by rewrite IH by lia.
Qed.

Lemma write_at_app {A} (pre old src post : list A) :
  length old = length src →
  write_at (length pre) (pre ++ old ++ post) src = Some (pre ++ src ++ post).
Proof. intros. induction pre as [|p pre IH]; simpl; [by apply overwrite_app|by rewrite IH]. Qed.

Lemma copy_at_app {E A} (pre old src post : list A) a b :
  a = len pre → b = a + len src → len old = len src →
  copy_at (E:=E) (pre ++ old ++ post) a b src = Ok (pre ++ src ++ post).
Proof.
  intros -> -> Hl. unfold copy_at, len in *.
  rewrite (proj2 (Z.ltb_ge _ 0)) by lia.
  rewrite (proj2 (Z.eqb_eq _ _)) by lia. simpl.
  rewrite Nat2Z.id, write_at_app by lia. done.
Qed.

Lemma set_idx_app {E A} (pre post : list A) old v i :
  i = len pre → set_idx (E:=E) (pre ++ old :: post) i v = Ok (pre ++ v :: post).
Proof.
  intros ->. unfold set_idx, len. rewrite (proj2 (Z.ltb_ge _ 0)) by lia.
  rewrite Nat2Z.id. pose proof (write_at_app pre [old] [v] post eq_refl) as Hw.
  simpl in Hw. by rewrite Hw.
Qed.

Lemma overwrite_length {A} (l src l' : list A) :
  overwrite l src = Some l' → length l' = length l.
Proof.
  revert l l'; induction src as [|s src IH]; intros [|x l] l' H; simpl in H; simplify_eq; auto.
  destruct (overwrite l src) eqn:Ho; simplify_eq/=. f_equal. eauto.
Qed.

Lemma overwrite_is_Some {A} (l src : list A) :
  (length src ≤ length l)%nat → is_Some (overwrite l src).
Proof.
  revert l; induction src as [|s src IH]; intros [|x l] ?; simpl in *; try lia; eauto.
  destruct (IH l) as [? ->]; [lia|]. simpl; eauto.
Qed.

Lemma write_at_length {A} n (l src l' : list A) :
  write_at n l src = Some l' → length l' = length l.
Proof.
  revert l l'; induction n as [|n IH]; intros l l' H; simpl in H; eauto using overwrite_length.
  destruct l as [|x l]; [done|].
  destruct (write_at n l src) eqn:Ho; simplify_eq/=. f_equal. eauto.
Qed.

Lemma write_at_is_Some {A} n (l src : list A) :
  (n + length src ≤ length l)%nat → is_Some (write_at n l src).
Proof.
  revert l; induction n as [|n IH]; intros l ?; simpl in *; [by apply overwrite_is_Some|].
  destruct l as [|x l]; simpl in *; [lia|]. destruct (IH l) as [? ->]; [lia|]. simpl; eauto.
Qed.

Lemma copy_at_ok {E A} (l src : list A) a b :
  0 <= a → b = a + len src → b <= len l →
  ∃ l', copy_at (E:=E) l a b src = Ok l' ∧ len l' = len l.
Proof.
  unfold copy_at, len. intros. rewrite (proj2 (Z.ltb_ge _ 0)) by lia.
  rewrite (proj2 (Z.eqb_eq _ _)) by lia. simpl.
  destruct (write_at_is_Some (Z.to_nat a) l src) as [l' Hl']; [lia|].
  rewrite Hl'. exists l'. split; [done|]. by rewrite (write_at_length _ _ _ _ Hl').
Qed.

Lemma set_idx_ok {E A} (l : list A) i v :
  0 <= i < len l → ∃ l', set_idx (E:=E) l i v = Ok l' ∧ len l' = len l.
Proof.
  unfold set_idx, len. intros. rewrite (proj2 (Z.ltb_ge _ 0)) by lia.
  destruct (write_at_is_Some (Z.to_nat i) l [v]) as [l' Hl']; [simpl; lia|].
  rewrite Hl'. exists l'. split; [done|]. by rewrite (write_at_length _ _ _ _ Hl').
Qed.

(** ** Weakest preconditions of the slice operations *)

Lemma wp_idx {E A} (l : list A) i (Q : A → Prop) (R : E → Prop) :
  0 <= i < len l → (∀ x, l !! Z.to_nat i = Some x → Q x) → wp (idx l i) Q R.
Proof. intros Hi HQ. destruct (idx_is_ok (E:=E) l i Hi) as (x & -> & Hx). simpl; auto. Qed.

Lemma wp_slice {E A} (l : list A) a b (Q : list A → Prop) (R : E → Prop) :
  0 <= a <= b → b <= len l → (len (sub l a b) = b - a → Q (sub l a b)) → wp (slice l a b) Q R.
Proof. intros. rewrite slice_ok by done. simpl. auto using len_sub. Qed.

Lemma wp_slice_from {E A} (l : list A) a (Q : list A → Prop) (R : E → Prop) :
  0 <= a <= len l → (len (drop (Z.to_nat a) l) = len l - a → Q (drop (Z.to_nat a) l)) →
  wp (slice_from l a) Q R.
Proof. intros ? HQ. rewrite slice_from_ok by done. apply HQ. len_lia. Qed.

Lemma wp_slice_to {E A} (l : list A) b (Q : list A → Prop) (R : E → Prop) :
  0 <= b <= len l → (len (take (Z.to_nat b) l) = b → Q (take (Z.to_nat b) l)) →
  wp (slice_to l b) Q R.
Proof. intros ? HQ. rewrite slice_to_ok by done. apply HQ. len_lia. Qed.

Lemma wp_usize_sub {E} a b (Q : Z → Prop) (R : E → Prop) :
  b <= a → Q (a - b) → wp (usize_sub a b) Q R.
Proof. intros. unfold usize_sub. by rewrite (proj2 (Z.leb_le _ _)). Qed.

Lemma wp_set_idx {E A} (l : list A) i v (Q : list A → Prop) (R : E → Prop) :
  0 <= i < len l → (∀ l', set_idx (E:=E) l i v = Ok l' → len l' = len l → Q l') →
  wp (set_idx l i v) Q R.
Proof. intros ? HQ. destruct (set_idx_ok (E:=E) l i v) as (l' & Hl & ?); [done|]. rewrite Hl. simpl; auto. Qed.

Lemma wp_copy_at {E A} (l src : list A) a b (Q : list A → Prop) (R : E → Prop) :
  0 <= a → b = a + len src → b <= len l →
  (∀ l', copy_at (E:=E) l a b src = Ok l' → len l' = len l → Q l') →
  wp (copy_at l a b src) Q R.
Proof.
  intros ??? HQ. destruct (copy_at_ok (E:=E) l src a b) as (l' & Hl & ?); try done.
  rewrite Hl. simpl; auto.
Qed.

(** [wp_step] performs one step of symbolic execution, [wp_run] as many as
    possible; bounds are discharged by [len_lia]. *)
Ltac wp_step :=
  lazymatch goal with
  | |- wp (Ok _) _ _ => apply wp_ok
  | |- wp (Err _) _ _ => apply wp_err
  | |- wp (mbind _ _) _ _ => apply wp_bind
  | |- wp (map_err _ _) _ _ => apply wp_map_err
  | |- wp (idx _ _) _ _ => apply wp_idx; [try solve [len_lia] | intros ? ?]
  | |- wp (slice _ _ _) _ _ => apply wp_slice; [try solve [len_lia] | try solve [len_lia] | intros ?]
  | |- wp (slice_from _ _) _ _ => apply wp_slice_from; [try solve [len_lia] | intros ?]
  | |- wp (slice_to _ _) _ _ => apply wp_slice_to; [try solve [len_lia] | intros ?]
  | |- wp (usize_sub _ _) _ _ => apply wp_usize_sub; [try solve [len_lia] | ]
  | |- wp (set_idx _ _ _) _ _ => apply wp_set_idx; [try solve [len_lia] | intros ? ? ?]
  | |- wp (copy_at _ _ _ _) _ _ =>
      apply wp_copy_at; [try solve [len_lia] | try solve [len_lia] | try solve [len_lia] | intros ? ? ?]
  | |- wp (if ?b then _ else _) _ _ => destruct b eqn:?
  | |- wp (match ?x with _ => _ end) _ _ => destruct x eqn:?
  | |- wp (let '(_, _) := ?x in _) _ _ => destruct x eqn:?
  end; cbv beta.
Ltac wp_run := repeat wp_step.

(** Evaluates the comparisons of the goal whose arguments are numerals, and
    the binds and conditionals they decide. *)
Ltac ground_test a :=
  let r := eval vm_compute in a in
  lazymatch r with
  | true => change a with true
  | false => change a with false
  end.
Ltac res_simpl :=
  repeat match goal with
  | |- context [?a =? ?b] => ground_test (a =? b)
  | |- context [?a <=? ?b] => ground_test (a <=? b)
  | |- context [?a <? ?b] => ground_test (a <? b)
  end;
  cbn [mbind res_bind negb orb andb map_err ok_or].

(** Turns boolean comparisons of [Z] in the context into propositions. *)
Ltac zbool :=
  repeat match goal with
  | H : (_ <? _) = true |- _ => apply Z.ltb_lt in H
  | H : (_ <? _) = false |- _ => apply Z.ltb_ge in H
  | H : (_ <=? _) = true |- _ => apply Z.leb_le in H
  | H : (_ <=? _) = false |- _ => apply Z.leb_gt in H
  | H : (_ =? _) = true |- _ => apply Z.eqb_eq in H
  | H : (_ =? _) = false |- _ => apply Z.eqb_neq in H
  | H : negb _ = true |- _ => apply negb_true_iff in H
  | H : negb _ = false |- _ => apply negb_false_iff in H
  | H : _ || _ = false |- _ => apply orb_false_iff in H; destruct H
  | H : _ && _ = true |- _ => apply andb_true_iff in H; destruct H
  | H : bool_decide _ = true |- _ => apply bool_decide_eq_true in H
  | H : bool_decide _ = false |- _ => apply bool_decide_eq_false in H
  end.

(** ** Bytes *)

Lemma bytes_app l k : bytes (l ++ k) ↔ bytes l ∧ bytes k.
Proof. apply Forall_app. Qed.
Lemma bytes_cons x l : bytes (x :: l) ↔ u8 x ∧ bytes l.
Proof. apply Forall_cons. Qed.
Lemma bytes_take n l : bytes l → bytes (take n l).
Proof. apply Forall_take. Qed.
Lemma bytes_drop n l : bytes l → bytes (drop n l).
Proof. apply Forall_drop. Qed.
Lemma bytes_sub l a b : bytes l → bytes (sub l a b).
Proof. intros. unfold sub. auto using bytes_take, bytes_drop. Qed.
Lemma bytes_zeros n : bytes (replicate n 0).
Proof. apply Forall_replicate. unfold u8. lia. Qed.

Lemma u16_from_be_to_be v :
  u16 v → u16_from_be (v / 256) (v mod 256) = v.
Proof. unfold u16, u16_from_be. intros. pose proof (Z.div_mod v 256). lia. Qed.

Lemma u16_from_be_range a b : u8 a → u8 b → u16 (u16_from_be a b).
Proof. unfold u8, u16, u16_from_be. lia. Qed.

Lemma u16_to_be_from_be a b : u8 a → u8 b → u16_to_be (u16_from_be a b) = [a; b].
Proof.
  unfold u8, u16_to_be, u16_from_be. intros.
  rewrite (Z.add_comm (a * 256)), Z.div_add, Z_mod_plus_full by lia.
  by rewrite Z.div_small, Z.mod_small by lia.
Qed.

Lemma bytes_u16_to_be v : u16 v → bytes (u16_to_be v).
Proof.
  unfold u16, bytes, u16_to_be, u8. intros.
  repeat constructor; try apply Z.mod_pos_bound; try lia.
  - apply Z.div_pos; lia.
  - apply Z.div_lt_upper_bound; lia.
Qed.

Lemma bytes_u32_to_be v : u32 v → bytes (u32_to_be v).
Proof.
  unfold u32, bytes, u32_to_be, u8. intros.
  repeat constructor; try apply Z.mod_pos_bound; try lia.
  - apply Z.div_pos; lia.
  - apply Z.div_lt_upper_bound; lia.
Qed.

Lemma u32_from_be_to_be v :
  u32 v →
  u32_from_be (v / 16777216) ((v / 65536) mod 256) ((v / 256) mod 256) (v mod 256) = v.
Proof.
  unfold u32, u32_from_be. intros.
  pose proof (Z.div_mod v 256 ltac:(lia)). pose proof (Z.div_mod (v / 256) 256 ltac:(lia)).
  pose proof (Z.div_mod (v / 65536) 256 ltac:(lia)).
  replace 65536 with (256 * 256) in * by lia. replace 16777216 with (256 * 256 * 256) by lia.
  rewrite <- !Z.div_div in * by lia. lia.
Qed.

Lemma u32_from_be_range a b c d :
  u8 a → u8 b → u8 c → u8 d → u32 (u32_from_be a b c d).
Proof. unfold u8, u32, u32_from_be. lia. Qed.

Lemma u32_to_be_from_be a b c d :
  u8 a → u8 b → u8 c → u8 d → u32_to_be (u32_from_be a b c d) = [a; b; c; d].
Proof.
  unfold u8, u32_from_be, u32_to_be. intros Ha Hb Hc Hd.
  assert (∀ n q r k, 0 < k → n = k * q + r → 0 <= r < k → n / k = q ∧ n mod k = r) as H.
  { intros n q r k ? -> ?. split; [symmetry; by apply (Z.div_unique _ _ _ r); [left|]|
      symmetry; by apply (Z.mod_unique _ _ q); [left|]]. }
  repeat f_equal.
  - apply (H _ a (b * 65536 + c * 256 + d)); lia.
  - destruct (H (a * 16777216 + b * 65536 + c * 256 + d) (a * 256 + b) (c * 256 + d) 65536) as [-> _]; [lia..|]. apply (H _ a b); lia.
  - destruct (H (a * 16777216 + b * 65536 + c * 256 + d) (a * 65536 + b * 256 + c) d 256) as [-> _]; [lia..|]. apply (H _ (a * 256 + b) c); lia.
  - apply (H _ (a * 65536 + b * 256 + c) d); lia.
Qed.

Lemma u16_to_be_inj v w : u16 v → u16 w → u16_to_be v = u16_to_be w → v = w.
Proof. intros Hv Hw [= H1 H2]. by rewrite <- (u16_from_be_to_be v), <- (u16_from_be_to_be w), H1, H2. Qed.

Lemma sub4 {A} (l : list A) i a b c d :
  0 <= i → l !! Z.to_nat i = Some a → l !! Z.to_nat (i + 1) = Some b →
  l !! Z.to_nat (i + 2) = Some c → l !! Z.to_nat (i + 3) = Some d →
  sub l i (i + 4) = [a; b; c; d].
Proof.
  intros Hi Ha Hb Hc Hd. unfold sub. replace (Z.to_nat (i + 4)) with (Z.to_nat i + 4)%nat by lia.
  replace (Z.to_nat (i + 1)) with (S (Z.to_nat i)) in Hb by lia.
  replace (Z.to_nat (i + 2)) with (S (S (Z.to_nat i))) in Hc by lia.
  replace (Z.to_nat (i + 3)) with (S (S (S (Z.to_nat i)))) in Hd by lia.
  rewrite <- take_drop_commute.
  by rewrite (drop_S l a), (drop_S l b), (drop_S l c), (drop_S l d).
Qed.

Lemma list_filter_all {A} (P : A → Prop) `{∀ x, Decision (P x)} l : Forall P l → filter P l = l.
Proof. induction 1; [done|]. by rewrite filter_cons_True, IHForall. Qed.
Lemma list_filter_none {A} (P : A → Prop) `{∀ x, Decision (P x)} l : Forall (λ x, ¬ P x) l → filter P l = [].
Proof. induction 1; [done|]. by rewrite filter_cons_False. Qed.

(** A boolean property of bytes is checked by computation. *)
Lemma u8_check (P : Z → bool) :
  forallb P (seqZ 0 256) = true → ∀ b, u8 b → P b = true.
Proof.
  rewrite forallb_forall. intros H b Hb. apply H. apply list_elem_of_In, elem_of_seqZ.
  unfold u8 in Hb. lia.
Qed.

#[export] Hint Resolve bytes_take bytes_drop bytes_sub bytes_zeros bytes_u16_to_be
  bytes_u32_to_be u16_from_be_range u32_from_be_range : core.

Lemma land7_u8 r : u8 r → u8 (Z.land r 7).
Proof.
  unfold u8. intros. change 7 with (Z.ones 3). rewrite Z.land_ones by lia.
  pose proof (Z.mod_pos_bound r (2 ^ 3)). lia.
Qed.

(** [bytes_solve]: a concrete byte string, or one assembled from byte strings. *)
Ltac bytes_solve :=
  repeat match goal with
  | |- bytes (_ ++ _) => apply bytes_app; split
  | |- bytes (_ :: _) => apply bytes_cons; split
  | |- bytes [] => constructor
  | |- u8 (Z.land _ 7) => apply land7_u8
  | |- u8 _ => first [done | unfold u8 in *; lia]
  end; try done; auto.

(** Decide a closed proposition by evaluation. *)
Ltac decide_ok := apply (bool_decide_unpack _); by vm_compute.

(** The byte at an offset, for specifications (0 past the end). *)
Definition byte_at (packet : list Z) (i : nat) : Z := default 0 (packet !! i).
