(* ===== verification/Net.v ===== *)
(** The part of Rust's standard library the program is written against: the
    [Ord] trait, [BTreeMap]/[BTreeSet] iteration order, and [std::net]'s IP and
    socket addresses.

    A [BTreeMap<K, V>] is a stdpp [gmap K V] and a [BTreeSet<T>] a [gset T];
    what the code observes of the tree beyond its contents is that iteration
    visits keys in increasing order, which [btree_iter] and [bset_iter] do. *)

From S2P Require Import Prelude.

(** * [Ord] *)

Class RustOrd (A : Type) := {
  cmp : A → A → comparison;
  cmp_eq : ∀ x y, cmp x y = Eq ↔ x = y;
  cmp_flip : ∀ x y, cmp y x = CompOpp (cmp x y);
  cmp_lt_trans : ∀ x y z, cmp x y = Lt → cmp y z = Lt → cmp x z = Lt
}.

Lemma cmp_refl `{RustOrd A} (x : A) : cmp x x = Eq.
Proof. by apply cmp_eq. Qed.

#[export] Program Instance Z_ord : RustOrd Z := {| cmp := Z.compare |}.
Next Obligation. apply Z.compare_eq_iff. Qed.
Next Obligation. intros. apply Z.compare_antisym. Qed.
Next Obligation. intros x y z. rewrite !Z.compare_lt_iff. lia. Qed.

(** [then_with]: lexicographic composition. *)
Definition then_with (c d : comparison) : comparison :=
  match c with Eq => d | _ => c end.

#[export] Program Instance prod_ord `{RustOrd A, RustOrd B} : RustOrd (A * B) :=
  {| cmp x y := then_with (cmp x.1 y.1) (cmp x.2 y.2) |}.
Next Obligation.
  intros A ? B ? [a b] [c d]; simpl. destruct (cmp a c) eqn:Ha; simpl.
  - apply cmp_eq in Ha as ->. rewrite cmp_eq. naive_solver.
  - split; [done|]. intros [= -> ->]. by rewrite cmp_refl in Ha.
  - split; [done|]. intros [= -> ->]. by rewrite cmp_refl in Ha.
Qed.
Next Obligation.
  intros A ? B ? [a b] [c d]; simpl. rewrite (cmp_flip a c), (cmp_flip b d).
  by destruct (cmp a c).
Qed.
Next Obligation.
  intros A ? B ? [a b] [c d] [e f]; simpl.
  destruct (cmp a c) eqn:H1; simpl; try done; destruct (cmp c e) eqn:H2; simpl; try done; intros.
  - apply cmp_eq in H1 as ->, H2 as ->. rewrite cmp_refl. simpl. by eapply cmp_lt_trans.
  - apply cmp_eq in H1 as ->. by rewrite H2.
  - apply cmp_eq in H2 as ->. by rewrite H1.
  - by rewrite (cmp_lt_trans _ _ _ H1 H2).
Qed.

Fixpoint list_cmp `{RustOrd A} (l k : list A) : comparison :=
  match l, k with
  | [], [] => Eq
  | [], _ :: _ => Lt
  | _ :: _, [] => Gt
  | x :: l, y :: k => then_with (cmp x y) (list_cmp l k)
  end.

#[export] Program Instance list_ord `{RustOrd A} : RustOrd (list A) := {| cmp := list_cmp |}.
Next Obligation.
  intros A ? l. induction l as [|x l IHl]; intros [|y k]; simpl; try done.
  destruct (cmp x y) eqn:Hc; simpl.
  - apply cmp_eq in Hc as ->. rewrite IHl. split; [by intros ->|by intros [= ->]].
  - split; [done|]. intros [= -> ->]. by rewrite cmp_refl in Hc.
  - split; [done|]. intros [= -> ->]. by rewrite cmp_refl in Hc.
Qed.
Next Obligation.
  intros A ? l. induction l as [|x l IHl]; intros [|y k]; simpl; try done.
  rewrite (cmp_flip x y), IHl. by destruct (cmp x y).
Qed.
Next Obligation.
  intros A ? l. induction l as [|x l IHl]; intros [|y k] [|z m]; simpl; try done.
  destruct (cmp x y) eqn:H1; simpl; try done; destruct (cmp y z) eqn:H2; simpl; try done; intros.
  - apply cmp_eq in H1 as ->, H2 as ->. rewrite cmp_refl. simpl. eauto.
  - apply cmp_eq in H1 as ->. by rewrite H2.
  - apply cmp_eq in H2 as ->. by rewrite H1.
  - by rewrite (cmp_lt_trans _ _ _ H1 H2).
Qed.

(** An [Ord] pulled back along an injective key. *)
Program Definition inj_ord `{RustOrd B} {A} (key : A → B)
    (Hinj : ∀ x y, key x = key y → x = y) : RustOrd A :=
  {| cmp x y := cmp (key x) (key y) |}.
Next Obligation. intros B ? A key Hinj x y. rewrite cmp_eq. split; [apply Hinj|by intros ->]. Qed.
Next Obligation. intros. apply cmp_flip. Qed.
Next Obligation. intros B ? A key Hinj x y z. apply cmp_lt_trans. Qed.

Definition ord_le `{RustOrd A} (x y : A) : Prop := cmp x y ≠ Gt.
#[export] Instance ord_le_dec `{RustOrd A} (x y : A) : Decision (ord_le x y).
Proof. unfold ord_le. apply _. Defined.

Section ord_le.
Context `{RustOrd A}.

#[export] Instance ord_le_total : Total (ord_le (A:=A)).
Proof. intros x y. unfold ord_le. rewrite (cmp_flip x y). by destruct (cmp x y); [left|left|right]. Qed.

#[export] Instance ord_le_trans : Transitive (ord_le (A:=A)).
Proof.
  intros x y z. unfold ord_le. destruct (cmp x y) eqn:H1; try done; intros _ H2.
  - apply cmp_eq in H1 as ->. done.
  - destruct (cmp y z) eqn:H3; try done.
    + apply cmp_eq in H3 as ->. by rewrite H1.
    + by rewrite (cmp_lt_trans _ _ _ H1 H3).
Qed.

#[export] Instance ord_le_antisymm : AntiSymm (=) (ord_le (A:=A)).
Proof.
  intros x y. unfold ord_le. rewrite (cmp_flip x y).
  destruct (cmp x y) eqn:H1; simpl; try done. by apply cmp_eq in H1.
Qed.
End ord_le.

(** * [BTreeMap] and [BTreeSet] *)

Section btree.
Context `{Countable K, !RustOrd K}.

Definition entry_le {V} (p q : K * V) : Prop := ord_le p.1 q.1.
#[export] Instance entry_le_dec {V} (p q : K * V) : Decision (entry_le p q).
Proof. unfold entry_le. apply _. Defined.

(** [m.iter()]. *)
Definition btree_iter {V} (m : gmap K V) : list (K * V) :=
  merge_sort entry_le (map_to_list m).

(** [m.keys()]. *)
Definition btree_keys {V} (m : gmap K V) : list K := (btree_iter m).*1.

(** [s.iter()]. *)
Definition bset_iter (s : gset K) : list K := merge_sort ord_le (elements s).

Lemma btree_iter_perm {V} (m : gmap K V) : btree_iter m ≡ₚ map_to_list m.
Proof. apply merge_sort_Permutation. Qed.

Lemma elem_of_btree_iter {V} (m : gmap K V) k v :
  (k, v) ∈ btree_iter m ↔ m !! k = Some v.
Proof. rewrite btree_iter_perm. apply elem_of_map_to_list. Qed.

Lemma NoDup_btree_keys {V} (m : gmap K V) : NoDup (btree_keys m).
Proof. unfold btree_keys. rewrite btree_iter_perm. apply NoDup_fst_map_to_list. Qed.

Lemma elem_of_btree_keys {V} (m : gmap K V) k : k ∈ btree_keys m ↔ is_Some (m !! k).
Proof.
  unfold btree_keys. rewrite list_elem_of_fmap. split.
  - intros ([k' v] & -> & Hk). apply elem_of_btree_iter in Hk. eauto.
  - intros [v Hv]. exists (k, v). by rewrite elem_of_btree_iter.
Qed.

Lemma bset_iter_perm (s : gset K) : bset_iter s ≡ₚ elements s.
Proof. apply merge_sort_Permutation. Qed.

Lemma elem_of_bset_iter (s : gset K) x : x ∈ bset_iter s ↔ x ∈ s.
Proof. rewrite bset_iter_perm. apply elem_of_elements. Qed.

Lemma NoDup_bset_iter (s : gset K) : NoDup (bset_iter s).
Proof. rewrite bset_iter_perm. apply NoDup_elements. Qed.

Lemma Sorted_bset_iter (s : gset K) : Sorted ord_le (bset_iter s).
Proof. apply Sorted_merge_sort. apply _. Qed.

Lemma length_bset_iter (s : gset K) : length (bset_iter s) = size s.
Proof. by rewrite bset_iter_perm. Qed.
End btree.

(** * IP addresses *)

Lemma foldl_delete_lookup `{Countable K} {V} (l : list K) (m : gmap K V) r :
  foldl (λ m k, delete k m) m l !! r = if decide (r ∈ l) then None else m !! r.
Proof.
  revert m. induction l as [|x l IH]; intros m; [done|]. cbn [foldl]. rewrite IH.
  destruct (decide (r ∈ l)) as [Hin|Hni]; [by rewrite decide_True by by right|].
  destruct (decide (r = x)) as [->|Hne].
  - rewrite decide_True by by left. apply lookup_delete_eq.
  - rewrite decide_False by (rewrite elem_of_cons; tauto). by rewrite lookup_delete_ne.
Qed.


Record Ipv4Addr := mkIpv4 { v4_a : Z; v4_b : Z; v4_c : Z; v4_d : Z }.
Record Ipv6Addr := mkIpv6 { v6_octets : list Z }.

Inductive IpAddr :=
| V4 (addr : Ipv4Addr)
| V6 (addr : Ipv6Addr).

(** [SocketAddrV6] carries a flow label and a scope id besides the port; both
    take part in equality and order. *)
Inductive SocketAddr :=
| SocketAddrV4 (ip : Ipv4Addr) (port : Z)
| SocketAddrV6 (ip : Ipv6Addr) (port flowinfo scope_id : Z).

#[export] Instance Ipv4Addr_eq_dec : EqDecision Ipv4Addr.
Proof. solve_decision. Defined.
#[export] Instance Ipv6Addr_eq_dec : EqDecision Ipv6Addr.
Proof. solve_decision. Defined.
#[export] Instance IpAddr_eq_dec : EqDecision IpAddr.
Proof. solve_decision. Defined.
#[export] Instance SocketAddr_eq_dec : EqDecision SocketAddr.
Proof. solve_decision. Defined.

Definition v4_octets (a : Ipv4Addr) : list Z := [v4_a a; v4_b a; v4_c a; v4_d a].

(** The family tag and the octets: [Ord] on addresses is the order of this key. *)
Definition ip_key (ip : IpAddr) : Z * list Z :=
  match ip with
  | V4 a => (0, v4_octets a)
  | V6 a => (1, v6_octets a)
  end.

Definition sock_key (s : SocketAddr) : (Z * list Z) * list Z :=
  match s with
  | SocketAddrV4 ip port => ((0, v4_octets ip), [port])
  | SocketAddrV6 ip port flow scope => ((1, v6_octets ip), [port; flow; scope])
  end.

Lemma v4_octets_inj a b : v4_octets a = v4_octets b → a = b.
Proof. destruct a, b. unfold v4_octets; simpl. congruence. Qed.

Lemma ip_key_inj a b : ip_key a = ip_key b → a = b.
Proof.
  destruct a as [[]|[]], b as [[]|[]]; unfold ip_key, v4_octets; simpl; congruence.
Qed.

Lemma sock_key_inj a b : sock_key a = sock_key b → a = b.
Proof.
  destruct a as [[] ?|[] ? ? ?], b as [[] ?|[] ? ? ?]; unfold sock_key, v4_octets; simpl; congruence.
Qed.

#[export] Instance IpAddr_ord : RustOrd IpAddr := inj_ord ip_key ip_key_inj.
#[export] Instance SocketAddr_ord : RustOrd SocketAddr := inj_ord sock_key sock_key_inj.

#[export] Instance IpAddr_countable : Countable IpAddr.
Proof.
  refine (inj_countable ip_key
    (λ k, match k with
          | (0, [a; b; c; d]) => Some (V4 (mkIpv4 a b c d))
          | (1, o) => Some (V6 (mkIpv6 o))
          | _ => None end) _).
  by intros [[]|[]].
Defined.

#[export] Instance SocketAddr_countable : Countable SocketAddr.
Proof.
  refine (inj_countable sock_key
    (λ k, match k with
          | ((0, [a; b; c; d]), [p]) => Some (SocketAddrV4 (mkIpv4 a b c d) p)
          | ((1, o), [p; f; s]) => Some (SocketAddrV6 (mkIpv6 o) p f s)
          | _ => None end) _).
  by intros [[] ?|[] ? ? ?].
Defined.

(** ** Constants and predicates of [std::net] *)

Definition Ipv4_UNSPECIFIED : Ipv4Addr := mkIpv4 0 0 0 0.
Definition Ipv4_LOCALHOST : Ipv4Addr := mkIpv4 127 0 0 1.
Definition Ipv6_UNSPECIFIED : Ipv6Addr := mkIpv6 (replicate 16 0).
Definition Ipv6_LOCALHOST : Ipv6Addr := mkIpv6 (replicate 15 0 ++ [1]).

(** [Ipv6Addr::new(s0, .., s7)]. *)
Definition ipv6_from_segments (segments : list Z) : Ipv6Addr :=
  mkIpv6 (segments ≫= u16_to_be).

Definition v4_is_unspecified (a : Ipv4Addr) : bool := bool_decide (a = Ipv4_UNSPECIFIED).
Definition v4_is_multicast (a : Ipv4Addr) : bool := (224 <=? v4_a a) && (v4_a a <=? 239).
Definition v4_is_broadcast (a : Ipv4Addr) : bool := bool_decide (a = mkIpv4 255 255 255 255).
Definition v6_is_unspecified (a : Ipv6Addr) : bool := bool_decide (a = Ipv6_UNSPECIFIED).
Definition v6_is_multicast (a : Ipv6Addr) : bool :=
  match v6_octets a with o :: _ => o =? 255 | [] => false end.
(** [segments()[0]]. *)
Definition v6_segment0 (a : Ipv6Addr) : Z :=
  match v6_octets a with hi :: lo :: _ => u16_from_be hi lo | _ => 0 end.

Definition ip_is_multicast (ip : IpAddr) : bool :=
  match ip with V4 a => v4_is_multicast a | V6 a => v6_is_multicast a end.
Definition ip_is_unspecified (ip : IpAddr) : bool :=
  match ip with V4 a => v4_is_unspecified a | V6 a => v6_is_unspecified a end.

(** [SocketAddr::new], [.ip()], [.port()]. *)
Definition sock_new (ip : IpAddr) (port : Z) : SocketAddr :=
  match ip with
  | V4 a => SocketAddrV4 a port
  | V6 a => SocketAddrV6 a port 0 0
  end.
Definition sock_ip (s : SocketAddr) : IpAddr :=
  match s with SocketAddrV4 a _ => V4 a | SocketAddrV6 a _ _ _ => V6 a end.
Definition sock_port (s : SocketAddr) : Z :=
  match s with SocketAddrV4 _ p => p | SocketAddrV6 _ p _ _ => p end.

(** Values of the fixed-size array types: [[u8; 4]] and [[u8; 16]]. *)
Definition ipv4_wf (a : Ipv4Addr) : Prop := bytes (v4_octets a).
Definition ipv6_wf (a : Ipv6Addr) : Prop := len (v6_octets a) = 16 ∧ bytes (v6_octets a).
Definition ip_wf (ip : IpAddr) : Prop :=
  match ip with V4 a => ipv4_wf a | V6 a => ipv6_wf a end.
Definition sock_wf (s : SocketAddr) : Prop := ip_wf (sock_ip s) ∧ u16 (sock_port s).

#[export] Instance ipv4_wf_dec a : Decision (ipv4_wf a).
Proof. unfold ipv4_wf. apply _. Defined.
#[export] Instance ipv6_wf_dec a : Decision (ipv6_wf a).
Proof. unfold ipv6_wf. apply _. Defined.
#[export] Instance ip_wf_dec a : Decision (ip_wf a).
Proof. destruct a; simpl; apply _. Defined.
#[export] Instance sock_wf_dec a : Decision (sock_wf a).
Proof. unfold sock_wf. apply _. Defined.

Lemma sock_ip_new ip port : sock_ip (sock_new ip port) = ip.
Proof. by destruct ip. Qed.
Lemma sock_port_new ip port : sock_port (sock_new ip port) = port.
Proof. by destruct ip. Qed.
Lemma sock_new_wf ip port : ip_wf ip → u16 port → sock_wf (sock_new ip port).
Proof. unfold sock_wf. by rewrite sock_ip_new, sock_port_new. Qed.
Lemma len_v4_octets a : len (v4_octets a) = 4.
Proof. done. Qed.
#[export] Hint Rewrite len_v4_octets : amt_len.

(** Case analysis on a list of sixteen octets. *)
Ltac destruct_octets o Hl :=
  unfold len in Hl;
  destruct o as [|?o [|?o [|?o [|?o [|?o [|?o [|?o [|?o [|?o [|?o [|?o [|?o [|?o [|?o
    [|?o [|?o [|?o o]]]]]]]]]]]]]]]]]; simpl in Hl; try lia.

(** * [std::time]

    A [Duration] is its number of nanoseconds, an [Instant] the nanoseconds
    since some fixed origin of the monotonic clock. *)

Definition NANOS_PER_SEC : Z := 1000000000.
Definition from_secs (s : Z) : Z := s * NANOS_PER_SEC.
Definition as_secs (d : Z) : Z := d / NANOS_PER_SEC.
(** [earlier.elapsed()] and [now.duration_since(earlier)]: saturating. *)
Definition elapsed (now earlier : Z) : Z := Z.max 0 (now - earlier).
(** [now.checked_duration_since(earlier)]. *)
Definition checked_duration_since (now earlier : Z) : option Z :=
  if earlier <=? now then Some (now - earlier) else None.
