(* ===== verification/Checksum.v ===== *)
(** [src/checksum.rs]: the Internet checksum, computed incrementally over a
    list of slices.

    The theorems relate the byte-at-a-time loop with deferred high byte to the
    plain sum of 16-bit words, show that splitting the input into slices does
    not matter, and that a packet whose checksum field was filled in verifies. *)

From S2P Require Import Prelude Net.

(** * The code *)

(** [a + b] on [u32], wrapping; [fold_word_bound] shows it never wraps here. *)
Definition u32_add (a b : Z) : Z := (a + b) mod 4294967296.

(** [!x] on [u16]. *)
Definition u16_not (x : Z) : Z := Z.land (Z.lnot x) 65535.

(** [sum += w; sum = (sum & 0xffff) + (sum >> 16)]. *)
Definition fold_word (sum word : Z) : Z :=
  let sum := u32_add sum word in
  u32_add (Z.land sum 65535) (Z.shiftr sum 16).

(** One iteration of the loop over the bytes of a part; the state is [sum] and
    [high_byte]. *)
Definition sum_byte (st : Z * option Z) (byte : Z) : Z * option Z :=
  match st with
  | (sum, Some high) => (fold_word sum (u16_from_be high byte), None)
  | (sum, None) => (sum, Some byte)
  end.

Definition finish_sum (st : Z * option Z) : Z :=
  match st with
  | (sum, Some high) => as_u16 (fold_word sum (u16_from_be high 0))
  | (sum, None) => as_u16 sum
  end.

Definition ones_complement_sum_parts (parts : list (list Z)) : Z :=
  finish_sum (fold_left (λ st part, fold_left sum_byte part st) parts (0, None)).

Definition ones_complement_sum (bs : list Z) : Z := ones_complement_sum_parts [bs].

Definition checksum_parts (parts : list (list Z)) : Z :=
  u16_not (ones_complement_sum_parts parts).

Definition checksum (bs : list Z) : Z := checksum_parts [bs].

Definition icmpv6_checksum (source destination : list Z) (next_header : Z) (payload : list Z) : Z :=
  let length := u32_to_be (len payload mod 4294967296) in
  let next_header := [0; 0; 0; next_header] in
  checksum_parts [source; destination; length; next_header; payload].

(** * Specification: the sum of big-endian 16-bit words *)

Fixpoint word_sum (l : list Z) : Z :=
  match l with
  | [] => 0
  | [a] => u16_from_be a 0
  | a :: b :: l => u16_from_be a b + word_sum l
  end.

(** The representative of [w] modulo 65535 that end-around carry computes. *)
Definition ones_norm (w : Z) : Z := if w =? 0 then 0 else (w - 1) mod 65535 + 1.

Lemma ones_norm_range w : 0 <= ones_norm w <= 65535.
Proof.
  unfold ones_norm. destruct (Z.eqb_spec w 0); [lia|].
  pose proof (Z.mod_pos_bound (w - 1) 65535). lia.
Qed.

Lemma fold_word_bound s w :
  0 <= s <= 65535 → 0 <= w <= 65535 →
  fold_word s w = if s + w <=? 65535 then s + w else s + w - 65535.
Proof.
  intros. unfold fold_word, u32_add. rewrite (Z.mod_small (s + w)) by lia.
  change 65535 with (Z.ones 16). rewrite Z.land_ones, Z.shiftr_div_pow2 by lia.
  change (2 ^ 16) with 65536. change (Z.ones 16) with 65535.
  pose proof (Z.mod_pos_bound (s + w) 65536). pose proof (Z.div_mod (s + w) 65536).
  destruct (Z.leb_spec (s + w) 65535).
  - rewrite (Z.div_small (s + w)), (Z.mod_small (s + w)) by lia. rewrite Z.mod_small; lia.
  - assert ((s + w) / 65536 = 1) as Hd by (symmetry; apply (Z.div_unique _ _ _ (s + w - 65536)); lia).
    rewrite Hd in *. rewrite Z.mod_small; lia.
Qed.

Lemma fold_word_norm t w :
  0 <= t → 0 <= w <= 65535 → fold_word (ones_norm t) w = ones_norm (t + w).
Proof.
  intros. rewrite fold_word_bound by (auto using ones_norm_range).
  unfold ones_norm. destruct (Z.eqb_spec t 0) as [->|Ht].
  - rewrite Z.add_0_l. rewrite (proj2 (Z.leb_le _ _)) by lia.
    destruct (Z.eqb_spec w 0); [done|]. rewrite Z.mod_small; lia.
  - rewrite (proj2 (Z.eqb_neq _ _)) by lia.
    replace (t + w - 1) with ((t - 1) + w) by lia.
    pose proof (Z.mod_pos_bound (t - 1) 65535). pose proof (Z.div_mod (t - 1) 65535).
    set (r := (t - 1) mod 65535) in *. set (q := (t - 1) / 65535) in *.
    destruct (Z.leb_spec (r + 1 + w) 65535).
    + rewrite <- (Z.mod_unique (t - 1 + w) 65535 q (r + w)); lia.
    + rewrite <- (Z.mod_unique (t - 1 + w) 65535 (q + 1) (r + w - 65535)); lia.
Qed.

Lemma word_sum_nonneg l : bytes l → 0 <= word_sum l.
Proof.
  revert l. fix IH 1. intros [|a [|b l]] Hl; simpl; [lia| |].
  - apply bytes_cons in Hl as [Ha _]. unfold u8, u16_from_be in *. lia.
  - apply bytes_cons in Hl as [Ha Hl]. apply bytes_cons in Hl as [Hb Hl].
    specialize (IH l Hl). unfold u8, u16_from_be in *. lia.
Qed.

Lemma finish_sum_spec l t :
  bytes l → 0 <= t →
  finish_sum (fold_left sum_byte l (ones_norm t, None)) = ones_norm (t + word_sum l).
Proof.
  revert l t. fix IH 1. intros [|a [|b l]] t Hl Ht; simpl.
  - unfold as_u16. rewrite Z.add_0_r. pose proof (ones_norm_range t). by rewrite Z.mod_small by lia.
  - apply bytes_cons in Hl as [Ha _]. unfold as_u16, u8 in *.
    rewrite fold_word_norm by (unfold u16_from_be; lia).
    pose proof (ones_norm_range (t + u16_from_be a 0)). by rewrite Z.mod_small by lia.
  - apply bytes_cons in Hl as [Ha Hl]. apply bytes_cons in Hl as [Hb Hl]. unfold u8 in *.
    rewrite fold_word_norm by (unfold u16_from_be; lia).
    rewrite IH by (unfold u16_from_be; auto; lia). f_equal. lia.
Qed.

Lemma sum_parts_concat parts :
  ones_complement_sum_parts parts = ones_complement_sum (concat parts).
Proof.
  unfold ones_complement_sum, ones_complement_sum_parts. simpl. f_equal.
  generalize (0, @None Z). induction parts as [|p parts IH]; intros st; simpl; [done|].
  by rewrite IH, fold_left_app.
Qed.

Lemma ones_complement_sum_norm l :
  bytes l → ones_complement_sum l = ones_norm (word_sum l).
Proof. intros. apply (finish_sum_spec l 0); [done|lia]. Qed.

Lemma u16_not_sub x : u16 x → u16_not x = 65535 - x.
Proof.
  unfold u16, u16_not. intros. change 65535 with (Z.ones 16) at 1.
  rewrite Z.land_ones by lia. unfold Z.lnot. change (2 ^ 16) with 65536.
  symmetry. apply (Z.mod_unique _ _ (-1)); lia.
Qed.

Lemma checksum_norm l : bytes l → checksum l = 65535 - ones_norm (word_sum l).
Proof.
  intros. unfold checksum, checksum_parts.
  change (ones_complement_sum_parts [l]) with (ones_complement_sum l).
  rewrite ones_complement_sum_norm by done. pose proof (ones_norm_range (word_sum l)).
  rewrite u16_not_sub; unfold u16; lia.
Qed.

Lemma checksum_u16 l : bytes l → u16 (checksum l).
Proof.
  intros. rewrite checksum_norm by done. pose proof (ones_norm_range (word_sum l)). unfold u16; lia.
Qed.

Lemma checksum_parts_concat parts : checksum_parts parts = checksum (concat parts).
Proof. unfold checksum, checksum_parts. by rewrite !sum_parts_concat; simpl; rewrite app_nil_r. Qed.

Lemma word_sum_app l k : Z.even (len l) = true → word_sum (l ++ k) = word_sum l + word_sum k.
Proof.
  revert l. fix IH 1. intros [|a [|b l]] He; simpl; [lia|done|].
  rewrite IH; [lia|]. rewrite !len_cons in He.
  replace (1 + (1 + len l)) with (len l + 2 * 1) in He by lia.
  by rewrite Z.even_add_mul_2 in He.
Qed.

(** Filling in the complement makes the words sum to a positive multiple of 65535. *)
Lemma ones_norm_fill t : 0 <= t → ones_norm (t + (65535 - ones_norm t)) = 65535.
Proof.
  intros. unfold ones_norm at 2. destruct (Z.eqb_spec t 0) as [->|]; [done|].
  unfold ones_norm. pose proof (Z.mod_pos_bound (t - 1) 65535). pose proof (Z.div_mod (t - 1) 65535).
  rewrite (proj2 (Z.eqb_neq _ _)) by lia.
  rewrite <- (Z.mod_unique _ 65535 ((t - 1) / 65535) 65534); lia.
Qed.

Lemma word_sum_u16_to_be v : u16 v → word_sum (u16_to_be v) = v.
Proof. intros. unfold u16_to_be. cbn [word_sum]. rewrite u16_from_be_to_be by done. lia. Qed.

Lemma checksum_verifies a b :
  bytes a → bytes b → Z.even (len a) = true →
  ones_complement_sum (a ++ u16_to_be (checksum (a ++ [0; 0] ++ b)) ++ b) = 65535.
Proof.
  intros Ha Hb He.
  assert (bytes (a ++ [0; 0] ++ b)) as Hz.
  { apply bytes_app; split; [done|]. apply bytes_app; split; [|done]. apply (bytes_zeros 2). }
  pose proof (checksum_u16 _ Hz) as Hc.
  rewrite ones_complement_sum_norm
    by (apply bytes_app; split; [done|]; apply bytes_app; split; [by apply bytes_u16_to_be|done]).
  rewrite word_sum_app, (word_sum_app (u16_to_be _) b), word_sum_u16_to_be by done.
  rewrite checksum_norm, word_sum_app, (word_sum_app [0; 0] b) by done.
  change (word_sum [0; 0]) with 0. rewrite Z.add_0_l.
  etransitivity; [|apply (ones_norm_fill (word_sum a + word_sum b))]; [f_equal; lia|].
  pose proof (word_sum_nonneg a Ha). pose proof (word_sum_nonneg b Hb). lia.
Qed.

Lemma checksum_zero_iff l : bytes l → checksum l = 0 ↔ ones_complement_sum l = 65535.
Proof. intros. rewrite checksum_norm, ones_complement_sum_norm by done. lia. Qed.

(** The ICMPv6 checksum over the pseudo-header verifies after being filled in. *)
Lemma icmpv6_checksum_verifies src dst nh a b :
  bytes src → bytes dst → len src = 16 → len dst = 16 → u8 nh →
  bytes a → bytes b → Z.even (len a) = true →
  icmpv6_checksum src dst nh
    (a ++ u16_to_be (icmpv6_checksum src dst nh (a ++ [0; 0] ++ b)) ++ b) = 0.
Proof.
  intros Hs Hd Ls Ld Hn Ha Hb He. unfold icmpv6_checksum. rewrite !checksum_parts_concat.
  cbn [concat]. rewrite !(right_id_L [] (++)).
  assert (∀ v, len (a ++ u16_to_be v ++ b) = len (a ++ [0; 0] ++ b)) as Hlen by (intros; len_lia).
  rewrite Hlen. set (l := u32_to_be _).
  assert (bytes l) as Hl by (apply bytes_u32_to_be; unfold u32; apply Z.mod_pos_bound; lia).
  set (pre := src ++ dst ++ l ++ [0; 0; 0; nh] ++ a).
  assert (∀ m, src ++ dst ++ l ++ [0; 0; 0; nh] ++ a ++ m ++ b = pre ++ m ++ b) as Hpre.
  { intros m. unfold pre. by rewrite <- !(assoc_L (++)). }
  rewrite !Hpre.
  assert (bytes pre) by (unfold pre; repeat (apply bytes_app; split; [done|]); done || (bytes_solve)).
  assert (Z.even (len pre) = true).
  { unfold pre. rewrite !len_app, Ls, Ld. change (len l) with 4. change (len [0; 0; 0; nh]) with 4.
    replace (16 + (16 + (4 + (4 + len a)))) with (len a + 2 * 20) by lia.
    by rewrite Z.even_add_mul_2. }
  apply checksum_zero_iff; [|by apply checksum_verifies].
  apply bytes_app; split; [done|]. apply bytes_app; split; [|done].
  apply bytes_u16_to_be, checksum_u16. apply bytes_app; split; [done|].
  apply bytes_app; split; [apply (bytes_zeros 2)|done].
Qed.

Lemma icmpv6_checksum_u16 src dst nh payload :
  bytes src → bytes dst → u8 nh → bytes payload → u16 (icmpv6_checksum src dst nh payload).
Proof.
  intros Hs Hd Hn Hp. unfold icmpv6_checksum. rewrite checksum_parts_concat. apply checksum_u16.
  cbn [concat]. bytes_solve. apply bytes_u32_to_be. unfold u32. apply Z.mod_pos_bound. lia.
Qed.

Arguments checksum : simpl never.
Arguments ones_complement_sum : simpl never.
Arguments icmpv6_checksum : simpl never.

(** * Properties *)

(** C27: The checksum loop, which carries a byte over from one slice to the next
    and folds after every word, computes the ones' complement of the sum of the
    16-bit big-endian words of the concatenated slices (padded with a zero byte),
    for any split into slices; and a message whose checksum field (at an even
    offset) holds the checksum computed with the field zeroed sums to 0xffff,
    which is what a receiver checks. *)
Theorem internet_checksum_correct parts a b :
  bytes (concat parts) → bytes a → bytes b → Z.even (len a) = true →
  checksum_parts parts = 65535 - ones_norm (word_sum (concat parts)) ∧
  ones_complement_sum_parts parts = ones_norm (word_sum (concat parts)) ∧
  ones_complement_sum (a ++ u16_to_be (checksum (a ++ [0; 0] ++ b)) ++ b) = 65535.
Proof.
  intros Hp Ha Hb He. split_and!; [|rewrite sum_parts_concat; by apply ones_complement_sum_norm|by apply checksum_verifies].
  rewrite checksum_parts_concat. by apply checksum_norm.
Qed.

Lemma internet_checksum_correct_witness :
  checksum_parts [[1]; [2; 3; 4]; [5]] = 65535 - ones_norm (0x0102 + 0x0304 + 0x0500).
Proof.
  apply (internet_checksum_correct [[1]; [2; 3; 4]; [5]] [] []); [decide_ok|decide_ok|decide_ok|reflexivity].
Defined.
