(* ===== verification/Protocol.v ===== *)
(** [src/protocol.rs]: the AMT (RFC 7450) message codec.

    Messages are decoded from and encoded to byte strings; every slice access
    of the source is an [idx] or [slice] that panics out of range, so that
    panic freedom of the decoder on arbitrary datagrams is a theorem. *)

From S2P Require Import Prelude Net.

Definition AMT_PORT : Z := 2268.
Definition VERSION : Z := 0.
Definition VERSION_MASK : Z := 0xf0.
Definition TYPE_MASK : Z := 0x0f.
Definition RESPONSE_MAC_LEN : Z := 6.
Definition GATEWAY_ADDRESS_LEN : Z := 16.
Definition GATEWAY_FIELDS_LEN : Z := 2 + GATEWAY_ADDRESS_LEN.

(** * Data *)

Inductive MessageType :=
| TRelayDiscovery
| TRelayAdvertisement
| TRequest
| TMembershipQuery
| TMembershipUpdate
| TMulticastData
| TTeardown.

Definition message_type_u8 (t : MessageType) : Z :=
  match t with
  | TRelayDiscovery => 1
  | TRelayAdvertisement => 2
  | TRequest => 3
  | TMembershipQuery => 4
  | TMembershipUpdate => 5
  | TMulticastData => 6
  | TTeardown => 7
  end.

Inductive DecodeError :=
| UnsupportedVersion (version : Z)
| UnknownMessageType (message_type : Z)
| Truncated (message_type : option MessageType) (expected_at_least actual : Z)
| InvalidLength (message_type : MessageType) (expected : string) (actual : Z).

Definition from_nibble (value : Z) : res DecodeError MessageType :=
  match value with
  | 1 => Ok TRelayDiscovery
  | 2 => Ok TRelayAdvertisement
  | 3 => Ok TRequest
  | 4 => Ok TMembershipQuery
  | 5 => Ok TMembershipUpdate
  | 6 => Ok TMulticastData
  | 7 => Ok TTeardown
  | other => Err (UnknownMessageType other)
  end.

Inductive MembershipProtocol := Igmpv3 | Mldv2.

Definition from_p_flag (p_flag : bool) : MembershipProtocol :=
  if p_flag then Mldv2 else Igmpv3.

Definition p_flag (p : MembershipProtocol) : bool :=
  match p with Mldv2 => true | Igmpv3 => false end.

(** [ResponseMac([u8; 6])]. *)
Record ResponseMac := mkMac { mac_bytes : list Z }.

Definition ResponseMac_ZERO : ResponseMac := mkMac (replicate 6 0).

(** The fold of [left ^ right] under [|]. *)
Definition constant_time_eq (a b : ResponseMac) : bool :=
  fold_left (λ difference lr, Z.lor difference (Z.lxor lr.1 lr.2))
    (zip (mac_bytes a) (mac_bytes b)) 0 =? 0.

(** [GatewayAddress([u8; 16])]. *)
Record GatewayAddress := mkGatewayAddress { ga_octets : list Z }.

Definition from_ip_addr (addr : IpAddr) : GatewayAddress :=
  match addr with
  | V4 a => mkGatewayAddress (replicate 12 0 ++ v4_octets a)
  | V6 a => mkGatewayAddress (v6_octets a)
  end.

Definition as_ipv6 (a : GatewayAddress) : Ipv6Addr := mkIpv6 (ga_octets a).

Definition as_ipv4_compatible (a : GatewayAddress) : option Ipv4Addr :=
  match ga_octets a with
  | [0; 0; 0; 0; 0; 0; 0; 0; 0; 0; 0; 0; a; b; c; d] => Some (mkIpv4 a b c d)
  | _ => None
  end.

Record GatewayEndpoint := mkGatewayEndpoint { ge_port : Z; ge_address : GatewayAddress }.

Inductive Message :=
| RelayDiscovery (discovery_nonce : Z)
| RelayAdvertisement (discovery_nonce : Z) (relay_address : IpAddr)
| Request (request_nonce : Z) (protocol : MembershipProtocol) (ecn_capable : bool)
| MembershipQuery (response_mac : ResponseMac) (request_nonce : Z) (limit : bool)
    (gateway : option GatewayEndpoint) (general_query : list Z)
| MembershipUpdate (response_mac : ResponseMac) (request_nonce : Z)
    (membership_update : list Z)
| MulticastData (packet : list Z)
| Teardown (response_mac : ResponseMac) (request_nonce : Z) (gateway : GatewayEndpoint).

#[export] Instance MessageType_eq_dec : EqDecision MessageType.
Proof. solve_decision. Defined.
#[export] Instance DecodeError_eq_dec : EqDecision DecodeError.
Proof. solve_decision. Defined.
#[export] Instance MembershipProtocol_eq_dec : EqDecision MembershipProtocol.
Proof. solve_decision. Defined.
#[export] Instance ResponseMac_eq_dec : EqDecision ResponseMac.
Proof. solve_decision. Defined.
#[export] Instance GatewayAddress_eq_dec : EqDecision GatewayAddress.
Proof. solve_decision. Defined.
#[export] Instance GatewayEndpoint_eq_dec : EqDecision GatewayEndpoint.
Proof. solve_decision. Defined.
#[export] Instance Message_eq_dec : EqDecision Message.
Proof. solve_decision. Defined.

(** * Encoding *)

Definition header (t : MessageType) : Z := Z.lor (Z.shiftl VERSION 4) (message_type_u8 t).

Definition put_u32 (out : list Z) (value : Z) : list Z := out ++ u32_to_be value.

Definition put_gateway_endpoint (out : list Z) (gateway : GatewayEndpoint) : list Z :=
  (out ++ u16_to_be (ge_port gateway)) ++ ga_octets (ge_address gateway).

(** [Message::encode]: appends to [out]. *)
Definition encode_into (m : Message) (out : list Z) : list Z :=
  match m with
  | RelayDiscovery discovery_nonce =>
      put_u32 (out ++ [header TRelayDiscovery; 0; 0; 0]) discovery_nonce
  | RelayAdvertisement discovery_nonce relay_address =>
      put_u32 (out ++ [header TRelayAdvertisement; 0; 0; 0]) discovery_nonce ++
      match relay_address with
      | V4 addr => v4_octets addr
      | V6 addr => v6_octets addr
      end
  | Request request_nonce protocol ecn_capable =>
      put_u32 (((out ++ [header TRequest])
        ++ [Z.lor (Z.shiftl (u8_of_bool ecn_capable) 1) (u8_of_bool (p_flag protocol))])
        ++ [0; 0]) request_nonce
  | MembershipQuery response_mac request_nonce limit gateway general_query =>
      let out := ((out ++ [header TMembershipQuery])
        ++ [Z.lor (Z.shiftl (u8_of_bool limit) 1)
                  (u8_of_bool (bool_decide (is_Some gateway)))])
        ++ mac_bytes response_mac in
      let out := put_u32 out request_nonce ++ general_query in
      match gateway with
      | Some gateway => put_gateway_endpoint out gateway
      | None => out
      end
  | MembershipUpdate response_mac request_nonce membership_update =>
      put_u32 (((out ++ [header TMembershipUpdate]) ++ [0]) ++ mac_bytes response_mac)
        request_nonce ++ membership_update
  | MulticastData packet => (out ++ [header TMulticastData; 0]) ++ packet
  | Teardown response_mac request_nonce gateway =>
      put_gateway_endpoint
        (put_u32 (((out ++ [header TTeardown]) ++ [0]) ++ mac_bytes response_mac) request_nonce)
        gateway
  end.

Definition encode (m : Message) : list Z := encode_into m [].

Definition encoded_len (m : Message) : Z :=
  match m with
  | RelayDiscovery _ => 8
  | RelayAdvertisement _ relay_address =>
      8 + match relay_address with V4 _ => 4 | V6 _ => 16 end
  | Request _ _ _ => 8
  | MembershipQuery _ _ _ gateway general_query =>
      12 + len general_query + match gateway with Some _ => GATEWAY_FIELDS_LEN | None => 0 end
  | MembershipUpdate _ _ membership_update => 12 + len membership_update
  | MulticastData packet => 2 + len packet
  | Teardown _ _ _ => 12 + GATEWAY_FIELDS_LEN
  end.

(** * Decoding *)

Definition require_exact (t : MessageType) (input : list Z) (expected : Z) : res DecodeError unit :=
  if len input =? expected then Ok tt
  else if len input <? expected then Err (Truncated (Some t) expected (len input))
  else Err (InvalidLength t "the fixed RFC 7450 message length" (len input)).

Definition require_at_least (t : MessageType) (input : list Z) (expected_at_least : Z) :
    res DecodeError unit :=
  if expected_at_least <=? len input then Ok tt
  else Err (Truncated (Some t) expected_at_least (len input)).

Definition read_u32 {E} (input : list Z) (offset : Z) : res E Z :=
  a ← idx input offset;
  b ← idx input (offset + 1);
  c ← idx input (offset + 2);
  d ← idx input (offset + 3);
  Ok (u32_from_be a b c d).

Definition read_response_mac {E} (input : list Z) : res E ResponseMac :=
  mac ← slice input 2 8;
  Ok (mkMac mac).

Definition read_gateway_endpoint (input : list Z) : res DecodeError GatewayEndpoint :=
  if negb (len input =? GATEWAY_FIELDS_LEN)
  then Err (InvalidLength TTeardown "18 gateway endpoint bytes" (len input))
  else
    address ← slice input 2 18;
    p0 ← idx input 0;
    p1 ← idx input 1;
    Ok (mkGatewayEndpoint (u16_from_be p0 p1) (mkGatewayAddress address)).

Definition decode_relay_discovery (input : list Z) : res DecodeError Message :=
  _ ← require_exact TRelayDiscovery input 8;
  discovery_nonce ← read_u32 input 4;
  Ok (RelayDiscovery discovery_nonce).

Definition decode_relay_advertisement (input : list Z) : res DecodeError Message :=
  _ ← require_at_least TRelayAdvertisement input 8;
  discovery_nonce ← read_u32 input 4;
  n ← usize_sub (len input) 8;
  relay_address ←
    (if n =? 4 then
       a ← idx input 8; b ← idx input 9; c ← idx input 10; d ← idx input 11;
       Ok (V4 (mkIpv4 a b c d))
     else if n =? 16 then
       octets ← slice input 8 24;
       Ok (V6 (mkIpv6 octets))
     else Err (InvalidLength TRelayAdvertisement
                 "12 bytes for IPv4 or 24 bytes for IPv6" (len input)));
  Ok (RelayAdvertisement discovery_nonce relay_address).

Definition decode_request (input : list Z) : res DecodeError Message :=
  _ ← require_exact TRequest input 8;
  request_nonce ← read_u32 input 4;
  flags ← idx input 1;
  Ok (Request request_nonce (from_p_flag (negb (Z.land flags 1 =? 0)))
        (negb (Z.land flags 2 =? 0))).

Definition decode_membership_query (input : list Z) : res DecodeError Message :=
  _ ← require_at_least TMembershipQuery input 12;
  flags ← idx input 1;
  let has_gateway := negb (Z.land flags 1 =? 0) in
  gateway_offset ←
    (if has_gateway then
       if len input <? 12 + GATEWAY_FIELDS_LEN
       then Err (Truncated (Some TMembershipQuery) (12 + GATEWAY_FIELDS_LEN) (len input))
       else usize_sub (len input) GATEWAY_FIELDS_LEN
     else Ok (len input));
  response_mac ← read_response_mac input;
  request_nonce ← read_u32 input 8;
  gateway ←
    (if has_gateway then
       tail ← slice_from input gateway_offset;
       endpoint ← read_gateway_endpoint tail;
       Ok (Some endpoint)
     else Ok None);
  general_query ← slice input 12 gateway_offset;
  Ok (MembershipQuery response_mac request_nonce (negb (Z.land flags 2 =? 0))
        gateway general_query).

Definition decode_membership_update (input : list Z) : res DecodeError Message :=
  _ ← require_at_least TMembershipUpdate input 12;
  response_mac ← read_response_mac input;
  request_nonce ← read_u32 input 8;
  membership_update ← slice_from input 12;
  Ok (MembershipUpdate response_mac request_nonce membership_update).

Definition decode_multicast_data (input : list Z) : res DecodeError Message :=
  _ ← require_at_least TMulticastData input 2;
  packet ← slice_from input 2;
  Ok (MulticastData packet).

Definition decode_teardown (input : list Z) : res DecodeError Message :=
  _ ← require_exact TTeardown input (12 + GATEWAY_FIELDS_LEN);
  response_mac ← read_response_mac input;
  request_nonce ← read_u32 input 8;
  tail ← slice_from input 12;
  gateway ← read_gateway_endpoint tail;
  Ok (Teardown response_mac request_nonce gateway).

Definition decode (input : list Z) : res DecodeError Message :=
  match input with
  | [] => Err (Truncated None 1 0)
  | first :: _ =>
      let version := Z.shiftr (Z.land first VERSION_MASK) 4 in
      if negb (version =? VERSION) then Err (UnsupportedVersion version)
      else
        message_type ← from_nibble (Z.land first TYPE_MASK);
        match message_type with
        | TRelayDiscovery => decode_relay_discovery input
        | TRelayAdvertisement => decode_relay_advertisement input
        | TRequest => decode_request input
        | TMembershipQuery => decode_membership_query input
        | TMembershipUpdate => decode_membership_update input
        | TMulticastData => decode_multicast_data input
        | TTeardown => decode_teardown input
        end
  end.

(** * Well-formed values: the ranges of the Rust types *)

Definition mac_wf (m : ResponseMac) : Prop := len (mac_bytes m) = 6 ∧ bytes (mac_bytes m).
Definition ga_wf (a : GatewayAddress) : Prop := len (ga_octets a) = 16 ∧ bytes (ga_octets a).
Definition ge_wf (g : GatewayEndpoint) : Prop := u16 (ge_port g) ∧ ga_wf (ge_address g).
Definition gateway_wf (g : option GatewayEndpoint) : Prop :=
  match g with Some g => ge_wf g | None => True end.

Definition message_wf (m : Message) : Prop :=
  match m with
  | RelayDiscovery n => u32 n
  | RelayAdvertisement n a => u32 n ∧ ip_wf a
  | Request n _ _ => u32 n
  | MembershipQuery mac n _ g q => mac_wf mac ∧ u32 n ∧ gateway_wf g ∧ bytes q
  | MembershipUpdate mac n u => mac_wf mac ∧ u32 n ∧ bytes u
  | MulticastData p => bytes p
  | Teardown mac n g => mac_wf mac ∧ u32 n ∧ ge_wf g
  end.

#[export] Instance mac_wf_dec m : Decision (mac_wf m).
Proof. unfold mac_wf. apply _. Defined.
#[export] Instance ga_wf_dec m : Decision (ga_wf m).
Proof. unfold ga_wf. apply _. Defined.
#[export] Instance ge_wf_dec m : Decision (ge_wf m).
Proof. unfold ge_wf. apply _. Defined.
#[export] Instance gateway_wf_dec m : Decision (gateway_wf m).
Proof. destruct m; simpl; apply _. Defined.
#[export] Instance message_wf_dec m : Decision (message_wf m).
Proof. destruct m; simpl; apply _. Defined.

(** * Proofs *)

Lemma len6_inv {A} (l : list A) : len l = 6 → ∃ a b c d e f, l = [a; b; c; d; e; f].
Proof.
  unfold len. intros H.
  destruct l as [|a [|b [|c [|d [|e [|f [|g l]]]]]]]; simpl in H; try lia. naive_solver.
Qed.

Lemma encode_into_app m out : encode_into m out = out ++ encode m.
Proof.
  unfold encode. destruct m as [| | |? ? ? [] ?| | |];
    simpl; unfold put_u32, put_gateway_endpoint; simpl; by rewrite <- ?(assoc_L (++)).
Qed.

Lemma encode_len m : message_wf m → len (encode m) = encoded_len m.
Proof.
  unfold encode. destruct m as [|? []| |? ? ? [] ?| | |]; simpl;
    unfold mac_wf, ge_wf, ga_wf, ipv6_wf, put_u32, put_gateway_endpoint, GATEWAY_FIELDS_LEN,
      GATEWAY_ADDRESS_LEN; intros; destruct_and?; len_lia.
Qed.

(** ** Decoding returns on every input *)

Lemma wp_read_u32 {E} input offset (Q : Z → Prop) (R : E → Prop) :
  0 <= offset → offset + 4 <= len input →
  (∀ v, (bytes input → u32 v) → Q v) → wp (read_u32 input offset) Q R.
Proof.
  intros ?? HQ. unfold read_u32. wp_run. apply HQ. intros Hb.
  apply u32_from_be_range; by eapply bytes_lookup.
Qed.

Lemma wp_read_response_mac {E} input (Q : ResponseMac → Prop) (R : E → Prop) :
  8 <= len input → (∀ m, (bytes input → mac_wf m) → Q m) → wp (read_response_mac input) Q R.
Proof. intros ? HQ. unfold read_response_mac. wp_run. apply HQ. split; simpl; auto. Qed.

Lemma wp_read_gateway_endpoint input (Q : GatewayEndpoint → Prop) R :
  len input = 18 → (∀ g, (bytes input → ge_wf g) → Q g) → wp (read_gateway_endpoint input) Q R.
Proof.
  intros Hl HQ. unfold read_gateway_endpoint. rewrite Hl. simpl. wp_run.
  apply HQ. intros Hb. split; simpl.
  - apply u16_from_be_range; by eapply bytes_lookup.
  - split; simpl; auto.
Qed.

Ltac decode_step :=
  lazymatch goal with
  | |- wp (read_u32 _ _) _ _ => apply wp_read_u32; [len_lia | len_lia | intros ? ?]
  | |- wp (read_response_mac _) _ _ => apply wp_read_response_mac; [len_lia | intros ? ?]
  | |- wp (read_gateway_endpoint _) _ _ => apply wp_read_gateway_endpoint; [len_lia | intros ? ?]
  | |- wp (require_exact _ _ _) _ _ => unfold require_exact
  | |- wp (require_at_least _ _ _) _ _ => unfold require_at_least
  | |- _ => wp_step
  end; zbool.

Lemma decode_wp input :
  wp (decode input) (λ m, (bytes input → message_wf m) ∧ encoded_len m = len input) (λ _, True).
Proof.
  destruct input as [|first rest]; [done|]. unfold decode.
  remember (first :: rest) as input eqn:Hin. clear Hin.
  decode_step; [done|]. decode_step.
  unfold from_nibble, decode_relay_discovery, decode_relay_advertisement, decode_request,
    decode_membership_query, decode_membership_update, decode_multicast_data, decode_teardown,
    GATEWAY_FIELDS_LEN, GATEWAY_ADDRESS_LEN.
  repeat decode_step; try done.
  all: simpl; unfold GATEWAY_FIELDS_LEN, GATEWAY_ADDRESS_LEN; split; [intros Hb|len_lia].
  all: repeat match goal with |- _ ∧ _ => split end; eauto 6 using bytes_drop.
  - unfold ipv4_wf, bytes, v4_octets; simpl. repeat constructor; by eapply bytes_lookup.
  - split; simpl; [by rewrite len_sub by len_lia|auto].
Qed.

(** ** Round trip *)

Lemma read_u32_app {E} (pre : list Z) v post :
  u32 v → read_u32 (E:=E) (pre ++ u32_to_be v ++ post) (len pre) = Ok v.
Proof.
  intros Hv. unfold read_u32, idx.
  repeat rewrite (proj2 (Z.ltb_ge _ 0)) by len_lia.
  rewrite <- (Z.add_0_r (len pre)) at 1.
  assert (∀ k, 0 <= k → (pre ++ u32_to_be v ++ post) !! Z.to_nat (len pre + k)
            = (u32_to_be v ++ post) !! Z.to_nat k) as Hl.
  { intros k Hk. rewrite lookup_app_r by (unfold len; lia). f_equal. unfold len. lia. }
  rewrite !Hl by lia. simpl. by rewrite u32_from_be_to_be.
Qed.

Lemma read_gateway_endpoint_put g :
  ge_wf g → read_gateway_endpoint (put_gateway_endpoint [] g) = Ok g.
Proof.
  destruct g as [port [octets]]. unfold ge_wf, ga_wf, read_gateway_endpoint, put_gateway_endpoint.
  cbn [ge_port ge_address ga_octets app]. intros (Hp & Hl & _).
  autorewrite with amt_len. rewrite Hl, slice_ok by len_lia. unfold sub. simpl. rewrite u16_from_be_to_be by done. by rewrite drop_0, take_ge by (unfold len in Hl; lia).
Qed.

Lemma put_gateway_endpoint_app out g :
  put_gateway_endpoint out g = out ++ put_gateway_endpoint [] g.
Proof. unfold put_gateway_endpoint. simpl. by rewrite <- (assoc_L (++)). Qed.

Lemma put_gateway_endpoint_len g : ge_wf g → len (put_gateway_endpoint [] g) = 18.
Proof. intros (_ & Hl & _). unfold put_gateway_endpoint. simpl. len_lia. Qed.

(** The fixed prefix of the messages that carry a Response MAC. *)
Lemma read_mac_prefix {E} h f mac n tail :
  mac_wf mac → u32 n →
  let input := h :: f :: mac_bytes mac ++ u32_to_be n ++ tail in
  read_response_mac (E:=E) input = Ok mac ∧ read_u32 (E:=E) input 8 = Ok n
  ∧ len input = 12 + len tail.
Proof.
  intros [Hm _] Hn input. destruct mac as [mac]; simpl in *. split_and!.
  - unfold read_response_mac, input. change (h :: f :: ?l) with ([h; f] ++ l).
    by rewrite (slice_app [h; f] mac) by len_lia.
  - unfold input. pose proof (read_u32_app (E:=E) (h :: f :: mac) n tail Hn) as Hr.
    simpl in Hr. rewrite !len_cons, Hm in Hr. done.
  - unfold input. len_lia.
Qed.

(** [decode] dispatches on the header written by [encode]. *)
Lemma decode_header t rest :
  decode (header t :: rest) =
  match t with
  | TRelayDiscovery => decode_relay_discovery
  | TRelayAdvertisement => decode_relay_advertisement
  | TRequest => decode_request
  | TMembershipQuery => decode_membership_query
  | TMembershipUpdate => decode_membership_update
  | TMulticastData => decode_multicast_data
  | TTeardown => decode_teardown
  end (header t :: rest).
Proof. by destruct t. Qed.

Lemma decode_encode_advertisement n a :
  u32 n → ip_wf a → decode (encode (RelayAdvertisement n a)) = Ok (RelayAdvertisement n a).
Proof.
  intros Hn Ha. unfold encode, encode_into, put_u32. cbn [app]. rewrite decode_header.
  unfold decode_relay_advertisement, require_at_least, usize_sub.
  pose proof (read_u32_app (E:=DecodeError) [header TRelayAdvertisement; 0; 0; 0] n
    match a with V4 addr => v4_octets addr | V6 addr => v6_octets addr end Hn) as Hr.
  cbn [app] in Hr. change (len [header TRelayAdvertisement; 0; 0; 0]) with 4 in Hr.
  destruct a as [[a b c d]|[o]].
  - rewrite Hr. done.
  - destruct Ha as [Hl _]. cbn [v6_octets] in *.
    set (input := header _ :: _) in *.
    assert (len input = 24) as Hin by (unfold input; len_lia).
    rewrite Hr, Hin. res_simpl. change (24 - 8) with 16. res_simpl.
    rewrite slice_ok by lia. unfold sub, input. simpl.
    by rewrite drop_0, take_ge by (unfold len in Hl; lia).
Qed.

Lemma decode_encode_query mac n l g q :
  mac_wf mac → u32 n → gateway_wf g →
  decode (encode (MembershipQuery mac n l g q)) = Ok (MembershipQuery mac n l g q).
Proof.
  intros Hm Hn Hg. unfold encode. cbn [encode_into app].
  set (f := Z.lor _ _).
  set (tail := q ++ match g with Some g => put_gateway_endpoint [] g | None => [] end).
  assert (match g with Some _ => _ | None => _ end =
          header TMembershipQuery :: f :: mac_bytes mac ++ u32_to_be n ++ tail) as ->.
  { unfold tail, put_u32. destruct g as [g|]; [rewrite put_gateway_endpoint_app|];
      cbn [app]; rewrite <- ?(assoc_L (++)), ?(right_id_L [] (++)); done. }
  destruct (read_mac_prefix (E:=DecodeError) (header TMembershipQuery) f mac n tail Hm Hn)
    as (Hmac & Hnonce & Hlen).
  rewrite decode_header. cbv iota. unfold decode_membership_query, require_at_least.
  set (input := header _ :: _) in *. rewrite Hmac, Hnonce, Hlen.
  rewrite (proj2 (Z.leb_le _ _)) by len_lia. cbn [mbind res_bind].
  change (idx input 1) with (Ok f : res DecodeError Z). cbn [mbind res_bind].
  assert (input = (header TMembershipQuery :: f :: mac_bytes mac ++ u32_to_be n) ++ tail) as Hin
    by (unfold input; cbn [app]; by rewrite <- (assoc_L (++))).
  assert (len (header TMembershipQuery :: f :: mac_bytes mac ++ u32_to_be n) = 12) as Hpre
    by (destruct Hm; len_lia).
  destruct g as [g|].
  - pose proof (put_gateway_endpoint_len g Hg) as Hgl.
    replace (Z.land f 1 =? 0) with false by (unfold f; by destruct l).
    replace (Z.land f 2 =? 0) with (negb l) by (unfold f; by destruct l). cbn [negb].
    unfold GATEWAY_FIELDS_LEN, GATEWAY_ADDRESS_LEN, usize_sub.
    rewrite (proj2 (Z.ltb_ge _ _)), (proj2 (Z.leb_le _ _)) by (unfold tail; len_lia).
    cbn [mbind res_bind]. rewrite Hin. unfold tail. rewrite (assoc_L (++)).
    rewrite slice_from_app by (unfold tail; len_lia). cbn [mbind res_bind].
    rewrite read_gateway_endpoint_put by done. cbn [mbind res_bind].
    rewrite <- (assoc_L (++)), slice_app by (unfold tail; len_lia).
    cbn [mbind res_bind]. by rewrite negb_involutive.
  - replace (Z.land f 1 =? 0) with true by (unfold f; by destruct l).
    replace (Z.land f 2 =? 0) with (negb l) by (unfold f; by destruct l). cbn.
    rewrite Hin. unfold tail. rewrite slice_app by (unfold tail; len_lia).
    cbn. by rewrite negb_involutive.
Qed.

Lemma decode_encode m : message_wf m → decode (encode m) = Ok m.
Proof.
  destruct m as [n|n a|n p e|mac n l g q|mac n u|p|mac n g]; intros Hwf;
    cbn in Hwf; destruct_and?.
  - unfold encode. cbn [encode_into app]. unfold put_u32. cbn [app]. rewrite decode_header.
    cbv iota. unfold decode_relay_discovery, require_exact, u32_to_be. simpl.
    by rewrite u32_from_be_to_be.
  - by apply decode_encode_advertisement.
  - unfold encode. cbn [encode_into app]. unfold put_u32. cbn [app]. rewrite decode_header.
    cbv iota. unfold decode_request, require_exact, u32_to_be. simpl.
    rewrite u32_from_be_to_be by done. by destruct p, e.
  - by apply decode_encode_query.
  - unfold encode. cbn [encode_into app]. unfold put_u32. cbn [app]. rewrite <- (assoc_L (++)), decode_header.
    destruct (read_mac_prefix (E:=DecodeError) (header TMembershipUpdate) 0 mac n u) as (Hm & Hn & Hl); try done.
    cbv iota. unfold decode_membership_update, require_at_least.
    rewrite Hm, Hn, Hl, (proj2 (Z.leb_le _ _)) by len_lia. cbn [mbind res_bind].
    rewrite (assoc_L (++)), !app_comm_cons, slice_from_app; [done|].
    unfold mac_wf in *; destruct_and?; len_lia.
  - unfold encode. cbn [encode_into app]. rewrite decode_header. cbv iota.
    unfold decode_multicast_data, require_at_least.
    by rewrite (proj2 (Z.leb_le _ _)) by len_lia.
  - unfold encode. cbn [encode_into app]. unfold put_u32. cbn [app]. rewrite put_gateway_endpoint_app.
    cbn [app]. rewrite <- (assoc_L (++)), decode_header.
    pose proof (put_gateway_endpoint_len g ltac:(done)) as Hgl.
    destruct (read_mac_prefix (E:=DecodeError) (header TTeardown) 0 mac n (put_gateway_endpoint [] g)) as (Hm & Hn & Hl); try done.
    cbv iota. unfold decode_teardown, require_exact, GATEWAY_FIELDS_LEN, GATEWAY_ADDRESS_LEN.
    rewrite Hm, Hn, Hl, Hgl. cbn [mbind res_bind].
    rewrite (assoc_L (++)), !app_comm_cons, slice_from_app
      by (unfold mac_wf in *; destruct_and?; len_lia).
    cbn [mbind res_bind]. by rewrite read_gateway_endpoint_put.
Qed.

(** ** Response MACs and gateway addresses *)

Lemma fold_lor_zero (ps : list (Z * Z)) acc :
  fold_left (λ d lr, Z.lor d (Z.lxor lr.1 lr.2)) ps acc = 0 ↔
  acc = 0 ∧ Forall (λ p, p.1 = p.2) ps.
Proof.
  revert acc; induction ps as [|[a b] ps IH]; intros acc; simpl.
  - rewrite Forall_nil. tauto.
  - rewrite IH, Z.lor_eq_0_iff, Z.lxor_eq_0_iff, Forall_cons. simpl. tauto.
Qed.

Lemma constant_time_eq_spec a b :
  mac_wf a → mac_wf b → constant_time_eq a b = true ↔ a = b.
Proof.
  destruct a as [a], b as [b]. intros [Ha _] [Hb _]. unfold constant_time_eq. simpl in *.
  rewrite Z.eqb_eq, fold_lor_zero.
  assert (length a = length b) as Hl by (unfold len in *; lia). clear Ha Hb.
  split.
  - intros [_ Hf]. f_equal. revert b Hl Hf.
    induction a as [|x a IH]; intros [|y b] Hl Hf; simpl in *; try lia; [done|].
    inversion Hf; simplify_eq/=. f_equal. auto.
  - intros [= ->]. split; [done|]. clear Hl. induction b; constructor; auto.
Qed.

Lemma from_ip_addr_wf ip : ip_wf ip → ga_wf (from_ip_addr ip).
Proof.
  destruct ip as [a|a]; simpl; [|done]. intros Ha. split; [done|].
  apply (bytes_app (replicate 12 0)). split; [apply bytes_zeros|done].
Qed.

Lemma as_ipv4_compatible_from_v4 a : as_ipv4_compatible (from_ip_addr (V4 a)) = Some a.
Proof. by destruct a. Qed.

(** * Properties *)

(** The datagrams RFC 7450 allows: the version nibble is 0, the type is known
    and the length fits it. Reserved bits are ignored. *)
Definition acceptable (input : list Z) : bool :=
  match input with
  | [] => false
  | first :: rest =>
      let n := len input in
      (Z.shiftr (Z.land first VERSION_MASK) 4 =? 0) &&
      match Z.land first TYPE_MASK with
      | 1 | 3 => n =? 8
      | 2 => (n =? 12) || (n =? 24)
      | 4 => (if Z.land (default 0 (rest !! 0%nat)) 1 =? 0 then 12 else 30) <=? n
      | 5 => 12 <=? n
      | 6 => 2 <=? n
      | 7 => n =? 30
      | _ => false
      end
  end.

Lemma decode_accepts input :
  wp (decode input) (λ _, acceptable input = true) (λ _, acceptable input = false).
Proof.
  destruct input as [|first rest]; [done|]. unfold decode, acceptable.
  destruct (_ =? VERSION) eqn:Hv; cbn [negb]; unfold VERSION in Hv; rewrite Hv; [|done]. cbn [andb].
  remember (first :: rest) as input eqn:Hin. 
  destruct (Z.land first TYPE_MASK) as [|[[[]|[]|]|[[]|[]|]|]|]; cbn [from_nibble mbind res_bind wp]; try done.
  all: unfold decode_relay_discovery, decode_relay_advertisement, decode_request,
    decode_membership_query, decode_membership_update, decode_multicast_data, decode_teardown,
    GATEWAY_FIELDS_LEN, GATEWAY_ADDRESS_LEN.
  all: repeat decode_step; try done; try lia.
  4: destruct (_ =? 0); lia.
  all: rewrite Hin in H; change ((first :: rest) !! Z.to_nat 1) with (rest !! 0%nat) in H; rewrite H; cbn [default id];
    destruct (Z.eqb_spec (Z.land x 1) 0); lia || done.
Qed.

(** C25: Encoding a message and decoding the bytes gives the message back, for
    every well-formed message of the seven types (fields in the ranges of their
    Rust types), and the encoding has the length [encoded_len] announces. *)
Theorem message_roundtrip m :
  message_wf m → decode (encode m) = Ok m ∧ len (encode m) = encoded_len m.
Proof. intros Hm. split; [by apply decode_encode|by apply encode_len]. Qed.

Definition demo_message : Message :=
  MembershipQuery (mkMac [1; 2; 3; 4; 5; 6]) 77 true
    (Some (mkGatewayEndpoint 40000 (from_ip_addr (V4 (mkIpv4 192 0 2 1))))) [1; 2; 3].

Lemma message_roundtrip_witness : decode (encode demo_message) = Ok demo_message ∧ len (encode demo_message) = 33.
Proof. apply (message_roundtrip demo_message). decide_ok. Defined.

(** [Message::decode] comes back from every input, without an out-of-bounds
    access: it accepts exactly the datagrams with version 0, a known type and a
    length that fits the type, and what it then returns is well-formed and
    accounts for every byte of the datagram. *)
Theorem decode_exact input :
  bytes input →
  returns (decode input) ∧ ((∃ m, decode input = Ok m) ↔ acceptable input = true) ∧
  ∀ m, decode input = Ok m → message_wf m ∧ encoded_len m = len input.
Proof.
  intros Hb. pose proof (decode_accepts input) as Ha. pose proof (decode_wp input) as Hw.
  destruct (decode input) as [m|e| |]; try done; cbn [wp] in *.
  - split_and!; [done|split; [done|by eexists]|]. intros m' [= <-]. split; [by apply Hw|apply Hw].
  - split_and!; [done|split; [by intros [? ?]|congruence]|done].
Qed.

Lemma decode_exact_witness : returns (decode [0x05; 0; 0]).
Proof. apply (decode_exact [0x05; 0; 0]). decide_ok. Defined.
