(* ===== verification/Ip.v ===== *)
(** [src/ip.rs]: validation of the multicast IP packets carried by AMT, the
    scope filter for multicast groups, and the Router Alert option scanners. *)

From S2P Require Import Prelude Net Checksum.

Definition IPV4_MIN_HEADER_LEN : Z := 20.
Definition IPV6_HEADER_LEN : Z := 40.
Definition IPV4_FRAGMENT_OFFSET_MASK : Z := 0x1fff.
Definition IPV4_MORE_FRAGMENTS : Z := 0x2000.

(** * Data *)

Record MulticastPacket := mkMulticastPacket {
  mp_source : IpAddr;
  mp_group : IpAddr;
  mp_ip_protocol : Z;
  mp_datagram_len : Z;
  mp_fragmented : bool
}.

Inductive IpPacketError :=
| IpTruncated
| IpUnsupportedVersion (version : Z)
| IpInvalidHeader
| IpInvalidLength
| IpInvalidChecksum
| IpInvalidSource (source : IpAddr)
| NonMulticastDestination (destination : IpAddr).

#[export] Instance MulticastPacket_eq_dec : EqDecision MulticastPacket.
Proof. solve_decision. Defined.
#[export] Instance IpPacketError_eq_dec : EqDecision IpPacketError.
Proof. solve_decision. Defined.

(** * Group scope *)

Definition is_amt_forwardable_group (group : IpAddr) : bool :=
  match group with
  | V4 group =>
      v4_is_multicast group && negb (bool_decide (take 3 (v4_octets group) = [224; 0; 0]))
  | V6 group =>
      let scope := Z.land (v6_segment0 group) 0x000f in
      v6_is_multicast group && ((3 <=? scope) && (scope <? 15))
  end.

(** * Router Alert *)

(** One iteration of the [while offset < options.len()] loop per unit of fuel. *)
Fixpoint ipv4_router_alert_loop {E} (fuel : nat) (options : list Z) (offset : Z) : res E bool :=
  match fuel with
  | O => Diverge
  | S fuel =>
      if negb (offset <? len options) then Ok false
      else
        kind ← idx options offset;
        if kind =? 0 then Ok false
        else if kind =? 1 then ipv4_router_alert_loop fuel options (offset + 1)
        else
          match get options (offset + 1) with
          | None => Ok false
          | Some length =>
              if (length <? 2) || (len options <? offset + length) then Ok false
              else
                alert ←
                  (if (kind =? 0x94) && (length =? 4) then
                     data ← slice options (offset + 2) (offset + 4);
                     Ok (bool_decide (data = [0; 0]))
                   else Ok false);
                if (alert : bool) then Ok true
                else ipv4_router_alert_loop fuel options (offset + length)
          end
  end.

Definition has_ipv4_router_alert {E} (options : list Z) : res E bool :=
  ipv4_router_alert_loop (S (length options)) options 0.

Fixpoint ipv6_router_alert_loop {E} (fuel : nat) (options : list Z) (offset : Z) : res E bool :=
  match fuel with
  | O => Diverge
  | S fuel =>
      if negb (offset <? len options) then Ok false
      else
        kind ← idx options offset;
        if kind =? 0 then ipv6_router_alert_loop fuel options (offset + 1)
        else
          match get options (offset + 1) with
          | None => Ok false
          | Some length =>
              let option_end := offset + 2 + length in
              if len options <? option_end then Ok false
              else
                kind' ← idx options offset;
                alert ←
                  (if (kind' =? 5) && (length =? 2) then
                     data ← slice options (offset + 2) option_end;
                     Ok (bool_decide (data = [0; 0]))
                   else Ok false);
                if (alert : bool) then Ok true
                else ipv6_router_alert_loop fuel options option_end
          end
  end.

Definition has_ipv6_router_alert {E} (options : list Z) : res E bool :=
  ipv6_router_alert_loop (S (length options)) options 0.

(** * Packet validation *)

Definition validate_addresses (source group : IpAddr) : res IpPacketError unit :=
  let invalid_source :=
    match source with
    | V4 s => v4_is_unspecified s || v4_is_multicast s || v4_is_broadcast s
    | V6 s => v6_is_unspecified s || v6_is_multicast s
    end in
  if invalid_source then Err (IpInvalidSource source)
  else if negb (ip_is_multicast group) then Err (NonMulticastDestination group)
  else Ok tt.

(** [Ipv4Addr::new(b[i], b[i + 1], b[i + 2], b[i + 3])]. *)
Definition ipv4_at {E} (b : list Z) (i : Z) : res E Ipv4Addr :=
  o0 ← idx b i; o1 ← idx b (i + 1); o2 ← idx b (i + 2); o3 ← idx b (i + 3);
  Ok (mkIpv4 o0 o1 o2 o3).

(** [u16::from_be_bytes([b[i], b[i + 1]])]. *)
Definition be16_at {E} (b : list Z) (i : Z) : res E Z :=
  hi ← idx b i; lo ← idx b (i + 1); Ok (u16_from_be hi lo).

Definition parse_ipv4 (datagram : list Z) : res IpPacketError MulticastPacket :=
  if len datagram <? IPV4_MIN_HEADER_LEN then Err IpTruncated
  else
    d0 ← idx datagram 0;
    let ihl := Z.land d0 0x0f * 4 in
    if (ihl <? IPV4_MIN_HEADER_LEN) || (len datagram <? ihl) then Err IpInvalidHeader
    else
      total_len ← be16_at datagram 2;
      if (total_len <? ihl) || negb (total_len =? len datagram) then Err IpInvalidLength
      else
        hdr ← slice_to datagram ihl;
        if negb (ones_complement_sum hdr =? 0xffff) then Err IpInvalidChecksum
        else
          source ← ipv4_at datagram 12;
          group ← ipv4_at datagram 16;
          _ ← validate_addresses (V4 source) (V4 group);
          fragment ← be16_at datagram 6;
          ip_protocol ← idx datagram 9;
          Ok (mkMulticastPacket (V4 source) (V4 group) ip_protocol total_len
                (negb (Z.land fragment
                         (Z.lor IPV4_MORE_FRAGMENTS IPV4_FRAGMENT_OFFSET_MASK) =? 0))).

Definition parse_ipv6 (datagram : list Z) : res IpPacketError MulticastPacket :=
  if len datagram <? IPV6_HEADER_LEN then Err IpTruncated
  else
    payload_len ← be16_at datagram 4;
    total_len ← ok_or IpInvalidLength (checked_add IPV6_HEADER_LEN payload_len);
    if negb (total_len =? len datagram) then Err IpInvalidLength
    else
      source ← slice datagram 8 24;
      group ← slice datagram 24 40;
      let source := V6 (mkIpv6 source) in
      let group := V6 (mkIpv6 group) in
      _ ← validate_addresses source group;
      ip_protocol ← idx datagram 6;
      Ok (mkMulticastPacket source group ip_protocol total_len (ip_protocol =? 44)).

Definition parse_multicast_packet (datagram : list Z) : res IpPacketError MulticastPacket :=
  match datagram with
  | [] => Err IpTruncated
  | first :: _ =>
      let version := Z.shiftr first 4 in
      if version =? 4 then parse_ipv4 datagram
      else if version =? 6 then parse_ipv6 datagram
      else Err (IpUnsupportedVersion version)
  end.

(** * The Router Alert scanners recognise exactly the options at option
    boundaries *)

(** An IPv4 option list (RFC 791) holds a Router Alert with value 0 (RFC 2113)
    before any End of Option List. *)
Inductive RouterAlert4 : list Z → Prop :=
| ra4_here rest : RouterAlert4 (0x94 :: 4 :: 0 :: 0 :: rest)
| ra4_nop rest : RouterAlert4 rest → RouterAlert4 (1 :: rest)
| ra4_skip kind data rest :
    kind ≠ 0 → kind ≠ 1 → RouterAlert4 rest →
    RouterAlert4 (kind :: (2 + len data) :: data ++ rest).

(** An IPv6 hop-by-hop option list (RFC 8200) holds a Router Alert for MLD (RFC 2711). *)
Inductive RouterAlert6 : list Z → Prop :=
| ra6_here rest : RouterAlert6 (5 :: 2 :: 0 :: 0 :: rest)
| ra6_pad1 rest : RouterAlert6 rest → RouterAlert6 (0 :: rest)
| ra6_skip kind data rest :
    kind ≠ 0 → RouterAlert6 rest → RouterAlert6 (kind :: len data :: data ++ rest).

Lemma idx_app_0 {E} (pre : list Z) x suf i :
  i = len pre → idx (E:=E) (pre ++ x :: suf) i = Ok x.
Proof.
  intros ->. apply idx_lookup; [len_lia|]. unfold len. rewrite Nat2Z.id. by apply list_lookup_middle.
Qed.

Lemma get_app_1 (pre : list Z) x suf i :
  i = len pre + 1 → get (pre ++ x :: suf) i = head suf.
Proof.
  intros ->. unfold get. rewrite (proj2 (Z.ltb_ge _ _)) by len_lia.
  replace (Z.to_nat (len pre + 1)) with (length pre + 1)%nat by (unfold len; lia).
  rewrite lookup_app_r by lia. replace (_ - _)%nat with 1%nat by lia. by destruct suf.
Qed.

(** A suffix of an option list splits after a declared option length. *)
Lemma split_option {A} (suf : list A) n :
  0 <= n <= len suf → ∃ data rest, suf = data ++ rest ∧ len data = n.
Proof.
  intros. exists (take (Z.to_nat n) suf), (drop (Z.to_nat n) suf).
  rewrite take_drop. split; [done|]. len_lia.
Qed.

Lemma RouterAlert4_option kind data rest :
  kind ≠ 0 → kind ≠ 1 →
  RouterAlert4 (kind :: (2 + len data) :: data ++ rest) ↔
  (kind = 0x94 ∧ data = [0; 0]) ∨ RouterAlert4 rest.
Proof.
  intros H0 H1. split.
  - inversion 1 as [r| |? data' rest']; simplify_eq.
    + left. destruct data as [|a [|b [|c data]]]; [| | |]; autorewrite with amt_len in *;
        pose_len_nonneg; simplify_list_eq; try lia; done.
    + right. destruct (app_inj_1 data' data rest' rest) as [-> ->]; [unfold len in *; lia|done|done].
  - intros [[-> ->]|?]; [apply ra4_here|by apply ra4_skip].
Qed.

Lemma RouterAlert6_option kind data rest :
  kind ≠ 0 →
  RouterAlert6 (kind :: len data :: data ++ rest) ↔
  (kind = 5 ∧ data = [0; 0]) ∨ RouterAlert6 rest.
Proof.
  intros H0. split.
  - inversion 1 as [r| |? data' rest']; simplify_eq.
    + left. destruct data as [|a [|b [|c data]]]; [| | |]; autorewrite with amt_len in *;
        pose_len_nonneg; simplify_list_eq; try lia; done.
    + right. destruct (app_inj_1 data' data rest' rest) as [-> ->]; [unfold len in *; lia|done|done].
  - intros [[-> ->]|?]; [apply ra6_here|by apply ra6_skip].
Qed.

Lemma ipv4_router_alert_loop_spec {E} fuel pre suf :
  (length suf < fuel)%nat →
  ∃ b, ipv4_router_alert_loop (E:=E) fuel (pre ++ suf) (len pre) = Ok b ∧
       (b = true ↔ RouterAlert4 suf).
Proof.
  revert pre suf; induction fuel as [|fuel IH]; intros pre suf Hf; [lia|]. cbn.
  destruct suf as [|kind suf].
  { rewrite (proj2 (Z.ltb_ge _ _)) by len_lia. exists false. split; [done|].
    split; [done|inversion 1]. }
  rewrite (proj2 (Z.ltb_lt _ _)) by len_lia. cbn [negb].
  rewrite idx_app_0 by done. cbn [mbind res_bind].
  destruct (Z.eqb_spec kind 0) as [->|H0].
  { exists false. split; [done|]. split; [done|by inversion 1]. }
  destruct (Z.eqb_spec kind 1) as [->|H1].
  { destruct (IH (pre ++ [1]) suf) as (b & Hb & Hs); [simpl in Hf; lia|].
    exists b. rewrite <- (assoc_L (++)), len_app in Hb. split; [done|]. rewrite Hs.
    split; [apply ra4_nop|]. by inversion 1. }
  rewrite get_app_1 by done. destruct suf as [|n suf]; cbn [head].
  { exists false. split; [done|]. split; [done|]. by inversion 1. }
  destruct (_ || _) eqn:Hbad.
  { exists false. split; [done|]. split; [done|]. intros HR.
    apply orb_true_iff in Hbad. rewrite !Z.ltb_lt in Hbad.
    inversion HR as [? Hk| |]; simplify_eq; destruct Hbad; len_lia. }
  zbool. destruct (split_option suf (n - 2)) as (data & rest & -> & Hd); [len_lia|].
  replace n with (2 + len data) in * by lia.
  setoid_rewrite RouterAlert4_option; [|done..].
  assert (∀ b, (∃ b', ipv4_router_alert_loop (E:=E) fuel (pre ++ kind :: 2 + len data :: data ++ rest)
                 (len pre + (2 + len data)) = Ok b' ∧ (b' = true ↔ b = true ∨ RouterAlert4 rest))
               ∨ b = true) as Hrec.
  { intros [|]; [by right|left].
    destruct (IH (pre ++ kind :: 2 + len data :: data) rest) as (b & Hb & Hs).
    { simpl in Hf. rewrite length_app in Hf. lia. }
    exists b. rewrite <- (assoc_L (++)) in Hb. cbn [app] in Hb.
    replace (len pre + (2 + len data)) with (len (pre ++ kind :: 2 + len data :: data)) by len_lia.
    split; [done|]. rewrite Hs. naive_solver. }
  destruct ((kind =? 0x94) && (2 + len data =? 4)) eqn:Hk.
  - zbool. subst kind. replace (len pre + 2) with (len (pre ++ [0x94; 2 + len data])) by len_lia.
    change (pre ++ ?k :: ?n :: data ++ rest) with (pre ++ [k; n] ++ data ++ rest).
    rewrite (assoc_L (++) pre), slice_app by len_lia. cbn [mbind res_bind].
    rewrite <- (assoc_L (++) pre). cbn [app].
    destruct (Hrec (bool_decide (data = [0; 0]))) as [(b & Hb & Hs)|Ht].
    + case_bool_decide; [exists true; split; [done|naive_solver]|].
      exists b. split; [done|]. rewrite Hs. naive_solver.
    + rewrite Ht. exists true. apply bool_decide_eq_true in Ht. split; [done|]. naive_solver.
  - cbn [mbind res_bind]. destruct (Hrec false) as [(b & Hb & Hs)|]; [|done].
    exists b. split; [done|]. rewrite Hs. split; [naive_solver|].
    intros [[-> ->]|]; [done|by right].
Qed.

Lemma ipv6_router_alert_loop_spec {E} fuel pre suf :
  bytes suf → (length suf < fuel)%nat →
  ∃ b, ipv6_router_alert_loop (E:=E) fuel (pre ++ suf) (len pre) = Ok b ∧
       (b = true ↔ RouterAlert6 suf).
Proof.
  revert pre suf; induction fuel as [|fuel IH]; intros pre suf Hby Hf; [lia|]. cbn.
  destruct suf as [|kind suf].
  { rewrite (proj2 (Z.ltb_ge _ _)) by len_lia. exists false. split; [done|].
    split; [done|inversion 1]. }
  rewrite (proj2 (Z.ltb_lt _ _)) by len_lia. cbn [negb].
  rewrite idx_app_0 by done. cbn [mbind res_bind]. apply bytes_cons in Hby as [_ Hby].
  destruct (Z.eqb_spec kind 0) as [->|H0].
  { destruct (IH (pre ++ [0]) suf) as (b & Hb & Hs); [done|simpl in Hf; lia|].
    exists b. rewrite <- (assoc_L (++)), len_app in Hb. split; [done|]. rewrite Hs.
    split; [apply ra6_pad1|]. by inversion 1. }
  rewrite get_app_1 by done. destruct suf as [|n suf]; cbn [head].
  { exists false. split; [done|]. split; [done|]. by inversion 1. }
  apply bytes_cons in Hby as [Hn Hby]. unfold u8 in Hn.
  destruct (_ <? _) eqn:Hbad.
  { exists false. split; [done|]. split; [done|]. intros HR. zbool.
    inversion HR as [? Hk| |]; simplify_eq; len_lia. }
  zbool. destruct (split_option suf n) as (data & rest & -> & Hd); [len_lia|].
  replace n with (len data) in * by lia. apply bytes_app in Hby as [_ Hby].
  setoid_rewrite RouterAlert6_option; [|done..].
  destruct (IH (pre ++ kind :: len data :: data) rest) as (b & Hb & Hs); [done| |].
  { simpl in Hf. rewrite length_app in Hf. lia. }
  rewrite <- (assoc_L (++)) in Hb. cbn [app] in Hb.
  replace (len (pre ++ _)) with (len pre + 2 + len data) in Hb by len_lia.
  assert ((kind =? 5) && (len data =? 2) = true → slice (E:=E) (pre ++ kind :: len data :: data ++ rest)
            (len pre + 2) (len pre + 2 + len data) = Ok data) as Hsl.
  { intros _. change (pre ++ ?k :: ?n :: data ++ rest) with (pre ++ [k; n] ++ data ++ rest).
    rewrite (assoc_L (++) pre), slice_app by len_lia. done. }
  destruct ((kind =? 5) && (len data =? 2)) eqn:Hk; cbn [mbind res_bind].
  - rewrite Hsl by done. cbn [mbind res_bind]. zbool. case_bool_decide.
    + exists true. naive_solver.
    + exists b. split; [done|]. rewrite Hs. naive_solver.
  - exists b. split; [done|]. rewrite Hs. split; [naive_solver|].
    intros [[-> ->]|]; [done|done].
Qed.

Lemma has_ipv4_router_alert_spec {E} options :
  ∃ b, has_ipv4_router_alert (E:=E) options = Ok b ∧ (b = true ↔ RouterAlert4 options).
Proof. apply (ipv4_router_alert_loop_spec (S (length options)) [] options). lia. Qed.

Lemma has_ipv6_router_alert_spec {E} options :
  bytes options →
  ∃ b, has_ipv6_router_alert (E:=E) options = Ok b ∧ (b = true ↔ RouterAlert6 options).
Proof. intros. apply (ipv6_router_alert_loop_spec (S (length options)) [] options); [done|lia]. Qed.

Lemma wp_has_ipv4_router_alert {E} options (Q : bool → Prop) (R : E → Prop) :
  (∀ b, (b = true ↔ RouterAlert4 options) → Q b) → wp (has_ipv4_router_alert options) Q R.
Proof. intros HQ. destruct (has_ipv4_router_alert_spec (E:=E) options) as (b & -> & Hb). by apply HQ. Qed.

Lemma wp_has_ipv6_router_alert {E} options (Q : bool → Prop) (R : E → Prop) :
  bytes options →
  (∀ b, (b = true ↔ RouterAlert6 options) → Q b) → wp (has_ipv6_router_alert options) Q R.
Proof.
  intros Hb HQ. destruct (has_ipv6_router_alert_spec (E:=E) options Hb) as (b & -> & Hb'). by apply HQ.
Qed.

(** * Packet validation *)

Lemma wp_be16_at {E} b i (Q : Z → Prop) (R : E → Prop) :
  0 <= i → i + 2 <= len b → (∀ v, be16_at (E:=E) b i = Ok v → (bytes b → u16 v) → Q v) →
  wp (be16_at b i) Q R.
Proof.
  intros ?? HQ.
  destruct (idx_is_ok (E:=E) b i) as (x & Hx & ?); [lia|].
  destruct (idx_is_ok (E:=E) b (i + 1)) as (y & Hy & ?); [lia|].
  assert (be16_at (E:=E) b i = Ok (u16_from_be x y)) as Hv.
  { unfold be16_at. rewrite Hx. cbn [mbind res_bind]. by rewrite Hy. }
  rewrite Hv. simpl. apply HQ; [done|]. intros. apply u16_from_be_range; by eapply bytes_lookup.
Qed.

Lemma wp_ipv4_at {E} b i (Q : Ipv4Addr → Prop) (R : E → Prop) :
  0 <= i → i + 4 <= len b →
  (∀ a, (bytes b → ipv4_wf a) → v4_octets a = sub b i (i + 4) → Q a) → wp (ipv4_at b i) Q R.
Proof.
  intros ?? HQ. unfold ipv4_at. wp_run. apply HQ.
  - intros. unfold ipv4_wf, bytes, v4_octets; simpl. repeat constructor; by eapply bytes_lookup.
  - symmetry. by apply sub4.
Qed.

Lemma wp_ok_or {E A} (e : E) (o : option A) (Q : A → Prop) (R : E → Prop) :
  (∀ a, o = Some a → Q a) → (o = None → R e) → wp (ok_or e o) Q R.
Proof. destruct o; simpl; auto. Qed.

Ltac ip_step :=
  lazymatch goal with
  | |- wp (be16_at _ _) _ _ => apply wp_be16_at; [len_lia | len_lia | intros ? ? ?]
  | |- wp (ipv4_at _ _) _ _ => apply wp_ipv4_at; [len_lia | len_lia | intros ? ? ?]
  | |- wp (ok_or _ _) _ _ => apply wp_ok_or; [intros ? ? | intros ?]
  | |- wp (has_ipv4_router_alert _) _ _ => apply wp_has_ipv4_router_alert; intros ? ?
  | |- _ => wp_step
  end; zbool.

(** What a packet accepted by [parse_multicast_packet] satisfies: the fields
    are the packet's own bytes, the source is a unicast address, the group a
    multicast one, and the declared length is the length of the datagram. *)
Definition packet_ok (datagram : list Z) (p : MulticastPacket) : Prop :=
  ip_wf (mp_source p) ∧ ip_wf (mp_group p) ∧ ip_is_multicast (mp_group p) = true ∧
  ip_is_multicast (mp_source p) = false ∧ ip_is_unspecified (mp_source p) = false ∧
  mp_datagram_len p = len datagram ∧
  match mp_source p, mp_group p with
  | V4 s, V4 g => v4_octets s = sub datagram 12 16 ∧ v4_octets g = sub datagram 16 20
  | V6 s, V6 g => v6_octets s = sub datagram 8 24 ∧ v6_octets g = sub datagram 24 40
  | _, _ => False
  end.

(** The source and the group as the header of the datagram's version names them. *)
Definition source_field (d : list Z) : list Z := if Z.shiftr (byte_at d 0) 4 =? 4 then sub d 12 16 else sub d 8 24.
Definition group_field (d : list Z) : list Z := if Z.shiftr (byte_at d 0) 4 =? 4 then sub d 16 20 else sub d 24 40.
Definition ip_octets (ip : IpAddr) : list Z := match ip with V4 a => v4_octets a | V6 a => v6_octets a end.
Definition bad_ip_source (ip : IpAddr) : bool :=
  ip_is_unspecified ip || ip_is_multicast ip || bool_decide (ip_octets ip = [255; 255; 255; 255]).

(** Why a datagram is refused. *)
Definition refused (d : list Z) (e : IpPacketError) : Prop :=
  let version := Z.shiftr (byte_at d 0) 4 in
  let header_len := Z.land (byte_at d 0) 15 * 4 in
  match e with
  | IpTruncated => len d < 20 ∨ version = 6 ∧ len d < 40
  | IpUnsupportedVersion v => v = version ∧ v ≠ 4 ∧ v ≠ 6
  | IpInvalidHeader => version = 4 ∧ (header_len < 20 ∨ len d < header_len)
  | IpInvalidLength =>
      version = 4 ∧ u16_from_be (byte_at d 2) (byte_at d 3) ≠ len d ∨
      version = 6 ∧ 40 + u16_from_be (byte_at d 4) (byte_at d 5) ≠ len d
  | IpInvalidChecksum => version = 4 ∧ ones_complement_sum (take (Z.to_nat header_len) d) ≠ 65535
  | IpInvalidSource source => ip_octets source = source_field d ∧ bad_ip_source source = true
  | NonMulticastDestination group => ip_octets group = group_field d ∧ ip_is_multicast group = false
  end.

Lemma validate_addresses_wp source group (Q : unit → Prop) (R : IpPacketError → Prop) :
  (ip_is_multicast group = true → ip_is_multicast source = false → ip_is_unspecified source = false → Q tt) →
  (bad_ip_source source = true → R (IpInvalidSource source)) →
  (ip_is_multicast group = false → R (NonMulticastDestination group)) →
  wp (validate_addresses source group) Q R.
Proof.
  intros HQ Hs Hg. unfold validate_addresses.
  destruct (match source with V4 _ => _ | V6 _ => _ end) eqn:Hsrc.
  - apply Hs. unfold bad_ip_source. destruct source as [a|a]; simpl in *.
    + destruct (v4_is_unspecified a), (v4_is_multicast a); try done. simpl in *.
      apply bool_decide_eq_true. unfold v4_is_broadcast in Hsrc. zbool. by subst.
    + by rewrite Hsrc.
  - destruct (ip_is_multicast group) eqn:?; simpl; [|by apply Hg].
    apply HQ; [done|destruct source; simpl in *; zbool; done..].
Qed.

Lemma be16_at_bytes {E} d i v :
  0 <= i → be16_at (E:=E) d i = Ok v → v = u16_from_be (byte_at d (Z.to_nat i)) (byte_at d (Z.to_nat (i + 1))).
Proof.
  intros Hi. unfold be16_at, idx, byte_at. rewrite !(proj2 (Z.ltb_ge _ _)) by lia.
  destruct (d !! Z.to_nat i); [|done]. destruct (d !! Z.to_nat (i + 1)); [|done]. by intros [= <-].
Qed.

Lemma parse_ipv4_wp d :
  bytes d → Z.shiftr (byte_at d 0) 4 = 4 → wp (parse_ipv4 d) (packet_ok d) (refused d).
Proof.
  intros Hb Hv. unfold parse_ipv4, IPV4_MIN_HEADER_LEN, refused, source_field, group_field. rewrite Hv. cbn [Z.eqb Pos.eqb].
  repeat lazymatch goal with
  | |- wp (validate_addresses _ _) _ _ => apply validate_addresses_wp; [intros ? ? ?|intros ?|intros ?]
  | H : d !! Z.to_nat 0 = Some ?d0 |- wp (if _ then _ else _) _ _ =>
      assert (byte_at d 0 = d0) as -> by (unfold byte_at; change (Z.to_nat 0) with 0%nat in H; by rewrite H); clear H
  | |- _ => ip_step
  end; try done.
  - by left.
  - split; [done|]. lia.
  - left. split; [done|].
    match goal with H : be16_at _ 2 = Ok _ |- _ => apply be16_at_bytes in H; [|done]; subst end.
    change (Z.to_nat 2) with 2%nat in *. change (Z.to_nat (2 + 1)) with 3%nat in *. lia.
  - split_and!; simpl; auto.
Qed.

Lemma parse_ipv6_wp d :
  bytes d → Z.shiftr (byte_at d 0) 4 = 6 → wp (parse_ipv6 d) (packet_ok d) (refused d).
Proof.
  intros Hb Hv. unfold parse_ipv6, IPV6_HEADER_LEN, refused, source_field, group_field. rewrite Hv. cbn [Z.eqb Pos.eqb].
  repeat lazymatch goal with
  | |- wp (validate_addresses _ _) _ _ => apply validate_addresses_wp; [intros ? ? ?|intros ?|intros ?]
  | |- _ => ip_step
  end; try done; try (by right).
  all: match goal with H : be16_at _ 4 = Ok _ |- _ => apply be16_at_bytes in H; [|done]; subst end.
  all: unfold checked_add in *; try destruct (_ <=? _) eqn:?; simplify_eq.
  - right. by split.
  - split_and!; simpl; auto; split; simpl; auto.
  - exfalso. match goal with H : bytes d → u16 _ |- _ => specialize (H Hb); unfold u16 in H end.
    unfold USIZE_MAX in *. zbool. change (Z.to_nat 4) with 4%nat in *. change (Z.to_nat (4 + 1)) with 5%nat in *. lia.
Qed.

Lemma parse_multicast_packet_wp datagram :
  bytes datagram → wp (parse_multicast_packet datagram) (packet_ok datagram) (refused datagram).
Proof.
  intros Hb. destruct datagram as [|first rest]; [by left|]. unfold parse_multicast_packet.
  destruct (Z.eqb_spec (Z.shiftr first 4) 4); [by apply parse_ipv4_wp|].
  destruct (Z.eqb_spec (Z.shiftr first 4) 6); [by apply parse_ipv6_wp|]. done.
Qed.

(** * Properties *)

(** [parse_multicast_packet] comes back from every input without an
    out-of-bounds access. What it accepts is a multicast packet: the source is a
    specified unicast address and the group a multicast one, both read from the
    header of the family the version nibble names, and the total length the
    header declares is exactly the length of the datagram. What it refuses has
    the defect the error names. *)
Theorem multicast_packet_validated datagram :
  bytes datagram →
  wp (parse_multicast_packet datagram) (packet_ok datagram) (refused datagram).
Proof. apply parse_multicast_packet_wp. Qed.

(** A UDP packet from 198.51.100.1 to 232.1.1.1. *)
Definition demo_packet_header (ck : list Z) : list Z :=
  [0x45; 0; 0; 20; 0; 0; 0; 0; 7; 17] ++ ck ++ [198; 51; 100; 1; 232; 1; 1; 1].
Definition demo_packet : list Z := demo_packet_header (u16_to_be (checksum (demo_packet_header [0; 0]))).

Lemma demo_packet_bytes : bytes demo_packet.
Proof. decide_ok. Qed.

Lemma multicast_packet_validated_witness : returns (parse_multicast_packet demo_packet).
Proof. exact (wp_returns _ _ _ (multicast_packet_validated demo_packet demo_packet_bytes)). Defined.

(** The Router Alert scanners, which reports must carry, come back from
    every option list and answer yes exactly when a Router Alert option with
    value 0 is at an option boundary before the end of the list (RFC 2113, RFC
    2711). *)
Theorem router_alert_exact {E} options :
  bytes options →
  (∃ b, has_ipv4_router_alert (E:=E) options = Ok b ∧ (b = true ↔ RouterAlert4 options)) ∧
  (∃ b, has_ipv6_router_alert (E:=E) options = Ok b ∧ (b = true ↔ RouterAlert6 options)).
Proof. intros Hb. split; [apply has_ipv4_router_alert_spec|by apply has_ipv6_router_alert_spec]. Qed.

Lemma router_alert_exact_witness :
  ∃ b, has_ipv4_router_alert (E:=IpPacketError) [1; 0x44; 3; 9; 0x94; 4; 0; 0] = Ok b ∧
       (b = true ↔ RouterAlert4 [1; 0x44; 3; 9; 0x94; 4; 0; 0]).
Proof. apply (router_alert_exact [1; 0x44; 3; 9; 0x94; 4; 0; 0]). decide_ok. Defined.
