(* ===== verification/Query.v ===== *)
(** [src/query.rs]: IGMPv3 and MLDv2 General Query construction and
    validation, and the floating-point query interval code (RFC 3376, 4.1.7). *)

From S2P Require Import Prelude Net Checksum Protocol Ip.

Definition QIPV4_HEADER_LEN : Z := 24.
Definition IGMPV3_QUERY_LEN : Z := 12.
Definition IPV6_HOP_BY_HOP_LEN : Z := 8.
Definition MLDV2_QUERY_LEN : Z := 28.
Definition IGMP_PROTOCOL : Z := 2.
Definition ICMPV6_NEXT_HEADER : Z := 58.
Definition HOP_BY_HOP_NEXT_HEADER : Z := 0.
Definition IGMP_MEMBERSHIP_QUERY : Z := 0x11.
Definition MLD_LISTENER_QUERY : Z := 130.
Definition ALL_SYSTEMS_V4 : Ipv4Addr := mkIpv4 224 0 0 1.
Definition ALL_NODES_V6 : Ipv6Addr := ipv6_from_segments [0xff02; 0; 0; 0; 0; 0; 0; 1].
Definition IPV4_FRAGMENT_MASK : Z := 0x3fff.

Record GeneralQueryConfig := mkGeneralQueryConfig {
  igmp_source : Ipv4Addr;
  mld_source : Ipv6Addr;
  igmp_max_response_code : Z;
  mld_max_response_code : Z;
  robustness_variable : Z;
  query_interval_code : Z
}.

Inductive QueryValidationError :=
| QTruncated
| QWrongAddressFamily
| QInvalidLength
| QInvalidHeader
| QInvalidChecksum
| QInvalidSource
| QNotGeneralQuery.

#[export] Instance GeneralQueryConfig_eq_dec : EqDecision GeneralQueryConfig.
Proof. solve_decision. Defined.
#[export] Instance QueryValidationError_eq_dec : EqDecision QueryValidationError.
Proof. solve_decision. Defined.

Definition for_amt : GeneralQueryConfig :=
  mkGeneralQueryConfig Ipv4_UNSPECIFIED Ipv6_UNSPECIFIED 1 1 2 125.

Definition for_local_network : GeneralQueryConfig :=
  mkGeneralQueryConfig Ipv4_UNSPECIFIED Ipv6_UNSPECIFIED 100 10000 2 125.

(** * The query interval code *)

Definition query_interval_secs (code : Z) : Z :=
  if code <? 128 then code
  else
    let mantissa := Z.lor (Z.land code 0x0f) 0x10 in
    let exponent := Z.land (Z.shiftr code 4) 0x07 + 3 in
    Z.shiftl mantissa exponent.

Definition query_interval (code : Z) : Z := from_secs (query_interval_secs code).

(** The nested loops [for exponent in 0..=7 { for mantissa in 0..=15 { .. } }],
    flattened to the sequence of pairs they visit. *)
Definition interval_codes : list (Z * Z) :=
  exponent ← seqZ 0 8; mantissa ← seqZ 0 16; [(exponent, mantissa)].

(** [0x80 | (exponent << 4) | mantissa]. *)
Definition interval_code (em : Z * Z) : Z := Z.lor (Z.lor 0x80 (Z.shiftl em.1 4)) em.2.

Fixpoint first_covering_code (seconds : Z) (codes : list (Z * Z)) : Z :=
  match codes with
  | [] => 255
  | em :: codes =>
      let code := interval_code em in
      if seconds <=? as_secs (query_interval code) then code
      else first_covering_code seconds codes
  end.

Definition encode_query_interval (interval : Z) : Z :=
  let seconds := as_secs interval in
  if seconds <? 128 then as_u8 seconds
  else first_covering_code seconds interval_codes.

(** * Validation *)

Definition validate_igmpv3_general_query (packet : list Z) : res QueryValidationError (Z * Z) :=
  first ← ok_or QTruncated (head packet);
  if negb (Z.shiftr first 4 =? 4) then Err QWrongAddressFamily
  else if len packet <? QIPV4_HEADER_LEN + IGMPV3_QUERY_LEN then Err QTruncated
  else
    p0 ← idx packet 0;
    let ihl := Z.land p0 0x0f * 4 in
    if (ihl <? QIPV4_HEADER_LEN) || (len packet <? ihl) then Err QInvalidHeader
    else
      total_len ← be16_at packet 2;
      if (len packet <? total_len) || negb (total_len =? ihl + IGMPV3_QUERY_LEN)
      then Err QInvalidLength
      else
        p8 ← idx packet 8;
        p9 ← idx packet 9;
        fragment ← be16_at packet 6;
        destination ← slice packet 16 20;
        options ← slice packet 20 ihl;
        router_alert ← has_ipv4_router_alert options;
        if negb (p8 =? 1) || negb (p9 =? IGMP_PROTOCOL)
           || negb (Z.land fragment IPV4_FRAGMENT_MASK =? 0)
           || negb (bool_decide (destination = v4_octets ALL_SYSTEMS_V4))
           || negb router_alert
        then Err QInvalidHeader
        else
          source ← ipv4_at packet 12;
          if v4_is_multicast source || v4_is_broadcast source then Err QInvalidSource
          else
            hdr ← slice_to packet ihl;
            if negb (ones_complement_sum hdr =? 0xffff) then Err QInvalidChecksum
            else
              igmp ← slice packet ihl total_len;
              i0 ← idx igmp 0;
              group ← slice igmp 4 8;
              sources ← be16_at igmp 10;
              if negb (i0 =? IGMP_MEMBERSHIP_QUERY) || negb (bool_decide (group = [0; 0; 0; 0]))
                 || negb (sources =? 0)
              then Err QNotGeneralQuery
              else if negb (ones_complement_sum igmp =? 0xffff) then Err QInvalidChecksum
              else
                code ← idx igmp 9;
                Ok (code, total_len).

Definition validate_mldv2_general_query (packet : list Z) : res QueryValidationError (Z * Z) :=
  first ← ok_or QTruncated (head packet);
  if negb (Z.shiftr first 4 =? 6) then Err QWrongAddressFamily
  else if len packet <? IPV6_HEADER_LEN + IPV6_HOP_BY_HOP_LEN + MLDV2_QUERY_LEN
  then Err QTruncated
  else
    payload_len ← be16_at packet 4;
    let total_len := IPV6_HEADER_LEN + payload_len in
    if (len packet <? total_len) || negb (payload_len =? IPV6_HOP_BY_HOP_LEN + MLDV2_QUERY_LEN)
    then Err QInvalidLength
    else
      p6 ← idx packet 6;
      p7 ← idx packet 7;
      destination ← slice packet 24 40;
      p40 ← idx packet 40;
      options ← slice packet 42 48;
      router_alert ← has_ipv6_router_alert options;
      if negb (p6 =? HOP_BY_HOP_NEXT_HEADER) || negb (p7 =? 1)
         || negb (bool_decide (destination = v6_octets ALL_NODES_V6))
         || negb (p40 =? ICMPV6_NEXT_HEADER) || negb router_alert
      then Err QInvalidHeader
      else
        source ← slice packet 8 24;
        let source := mkIpv6 source in
        if v6_is_multicast source then Err QInvalidSource
        else
          mld ← slice packet (IPV6_HEADER_LEN + IPV6_HOP_BY_HOP_LEN) total_len;
          m0 ← idx mld 0;
          m1 ← idx mld 1;
          group ← slice mld 8 24;
          sources ← be16_at mld 26;
          if negb (m0 =? MLD_LISTENER_QUERY) || negb (m1 =? 0)
             || negb (bool_decide (group = replicate 16 0)) || negb (sources =? 0)
          then Err QNotGeneralQuery
          else
            let destination := v6_octets ALL_NODES_V6 in
            if negb (icmpv6_checksum (v6_octets source) destination ICMPV6_NEXT_HEADER mld =? 0)
            then Err QInvalidChecksum
            else
              code ← idx mld 25;
              Ok (code, total_len).

Definition validated_general_query (protocol : MembershipProtocol) (packet : list Z) :
    res QueryValidationError (Z * list Z) :=
  '(interval_code, datagram_len) ←
    match protocol with
    | Igmpv3 => validate_igmpv3_general_query packet
    | Mldv2 => validate_mldv2_general_query packet
    end;
  datagram ← slice_to packet datagram_len;
  Ok (query_interval interval_code, datagram).

Definition general_query_interval (protocol : MembershipProtocol) (packet : list Z) :
    res QueryValidationError Z :=
  '(interval, _) ← validated_general_query protocol packet;
  Ok interval.

Definition validate_general_query (protocol : MembershipProtocol) (packet : list Z) :
    res QueryValidationError unit :=
  _ ← general_query_interval protocol packet;
  Ok tt.

(** * Construction *)

Definition build_igmpv3_general_query {E} (config : GeneralQueryConfig) : res E (list Z) :=
  let total_len := QIPV4_HEADER_LEN + IGMPV3_QUERY_LEN in
  let packet := replicate (Z.to_nat total_len) 0 in
  packet ← set_idx packet 0 0x46;
  packet ← set_idx packet 1 0xc0;
  packet ← copy_at packet 2 4 (u16_to_be (as_u16 total_len));
  packet ← set_idx packet 8 1;
  packet ← set_idx packet 9 IGMP_PROTOCOL;
  packet ← copy_at packet 12 16 (v4_octets (igmp_source config));
  packet ← copy_at packet 16 20 (v4_octets ALL_SYSTEMS_V4);
  packet ← copy_at packet 20 24 [0x94; 0x04; 0x00; 0x00];
  packet ← with_tail packet QIPV4_HEADER_LEN (λ igmp,
    igmp ← set_idx igmp 0 IGMP_MEMBERSHIP_QUERY;
    igmp ← set_idx igmp 1 (igmp_max_response_code config);
    igmp ← set_idx igmp 8 (Z.land (robustness_variable config) 0x07);
    igmp ← set_idx igmp 9 (query_interval_code config);
    copy_at igmp 2 4 (u16_to_be (checksum igmp)));
  hdr ← slice_to packet QIPV4_HEADER_LEN;
  copy_at packet 10 12 (u16_to_be (checksum hdr)).

Definition build_mldv2_general_query {E} (config : GeneralQueryConfig) : res E (list Z) :=
  let payload_len := IPV6_HOP_BY_HOP_LEN + MLDV2_QUERY_LEN in
  let total_len := IPV6_HEADER_LEN + payload_len in
  let packet := replicate (Z.to_nat total_len) 0 in
  packet ← set_idx packet 0 0x60;
  packet ← copy_at packet 4 6 (u16_to_be (as_u16 payload_len));
  packet ← set_idx packet 6 HOP_BY_HOP_NEXT_HEADER;
  packet ← set_idx packet 7 1;
  packet ← copy_at packet 8 24 (v6_octets (mld_source config));
  packet ← copy_at packet 24 40 (v6_octets ALL_NODES_V6);
  packet ← copy_at packet IPV6_HEADER_LEN (IPV6_HEADER_LEN + IPV6_HOP_BY_HOP_LEN)
             [ICMPV6_NEXT_HEADER; 0; 5; 2; 0; 0; 1; 0];
  let mld_offset := IPV6_HEADER_LEN + IPV6_HOP_BY_HOP_LEN in
  packet ← with_tail packet mld_offset (λ mld,
    mld ← set_idx mld 0 MLD_LISTENER_QUERY;
    mld ← copy_at mld 4 6 (u16_to_be (mld_max_response_code config));
    mld ← set_idx mld 24 (Z.land (robustness_variable config) 0x07);
    set_idx mld 25 (query_interval_code config));
  mld ← slice_from packet mld_offset;
  let mld_checksum := icmpv6_checksum (v6_octets (mld_source config)) (v6_octets ALL_NODES_V6)
                        ICMPV6_NEXT_HEADER mld in
  copy_at packet (mld_offset + 2) (mld_offset + 4) (u16_to_be mld_checksum).

Definition build_general_query {E} (protocol : MembershipProtocol) (config : GeneralQueryConfig) :
    res E (list Z) :=
  match protocol with
  | Igmpv3 => build_igmpv3_general_query config
  | Mldv2 => build_mldv2_general_query config
  end.

(** * Well-formed configurations *)

Definition query_config_wf (c : GeneralQueryConfig) : Prop :=
  ipv4_wf (igmp_source c) ∧ ipv6_wf (mld_source c) ∧ u8 (igmp_max_response_code c) ∧
  u16 (mld_max_response_code c) ∧ u8 (robustness_variable c) ∧ u8 (query_interval_code c).

#[export] Instance query_config_wf_dec c : Decision (query_config_wf c).
Proof. unfold query_config_wf. apply _. Defined.

(** * The packets built, written out *)

Definition igmp_query_body (c : GeneralQueryConfig) (ck : list Z) : list Z :=
  [0x11; igmp_max_response_code c] ++ ck ++
  [0; 0; 0; 0; Z.land (robustness_variable c) 7; query_interval_code c; 0; 0].

Definition igmp_query_header (c : GeneralQueryConfig) (ck : list Z) : list Z :=
  [0x46; 0xc0; 0; 36; 0; 0; 0; 0; 1; 2] ++ ck ++
  v4_octets (igmp_source c) ++ [224; 0; 0; 1; 0x94; 4; 0; 0].

Definition igmp_query_packet (c : GeneralQueryConfig) : list Z :=
  igmp_query_header c (u16_to_be (checksum (igmp_query_header c [0; 0]))) ++
  igmp_query_body c (u16_to_be (checksum (igmp_query_body c [0; 0]))).

Lemma build_igmpv3_general_query_eq {E} c :
  build_igmpv3_general_query (E:=E) c = Ok (igmp_query_packet c).
Proof. reflexivity. Qed.

Definition mld_query_body (c : GeneralQueryConfig) (ck : list Z) : list Z :=
  [130; 0] ++ ck ++ u16_to_be (mld_max_response_code c) ++ [0; 0] ++ replicate 16 0 ++
  [Z.land (robustness_variable c) 7; query_interval_code c; 0; 0].

Definition mld_query_checksum (c : GeneralQueryConfig) : Z :=
  icmpv6_checksum (v6_octets (mld_source c)) (v6_octets ALL_NODES_V6) 58 (mld_query_body c [0; 0]).

Definition mld_query_packet (c : GeneralQueryConfig) : list Z :=
  [0x60; 0; 0; 0; 0; 36; 0; 1] ++ v6_octets (mld_source c) ++ v6_octets ALL_NODES_V6 ++
  [58; 0; 5; 2; 0; 0; 1; 0] ++ mld_query_body c (u16_to_be (mld_query_checksum c)).

Lemma build_mldv2_general_query_eq {E} c :
  ipv6_wf (mld_source c) → build_mldv2_general_query (E:=E) c = Ok (mld_query_packet c).
Proof.
  destruct c as [s4 [o] mr4 mr6 rv qi]. intros [Hl _]. simpl in Hl.
  destruct_octets o Hl.
  unfold build_mldv2_general_query, mld_query_packet, mld_query_checksum.
  generalize icmpv6_checksum as cks. reflexivity.
Qed.

Lemma bytes_igmp_query_header c ck :
  query_config_wf c → bytes ck → bytes (igmp_query_header c ck).
Proof. intros (?&?&?&?&?&?) ?. unfold igmp_query_header. bytes_solve. Qed.

Lemma bytes_igmp_query_body c ck :
  query_config_wf c → bytes ck → bytes (igmp_query_body c ck).
Proof. intros (?&?&?&?&?&?) ?. unfold igmp_query_body. bytes_solve. Qed.

Lemma bytes_mld_query_body c ck :
  query_config_wf c → bytes ck → bytes (mld_query_body c ck).
Proof. intros (?&?&?&?&?&?) ?. unfold mld_query_body. bytes_solve. Qed.

Lemma igmp_query_header_verifies c :
  query_config_wf c →
  ones_complement_sum (igmp_query_header c (u16_to_be (checksum (igmp_query_header c [0; 0])))) = 65535.
Proof.
  intros Hc. unfold igmp_query_header. apply checksum_verifies; [| |done].
  - bytes_solve.
  - destruct Hc as (?&_). bytes_solve.
Qed.

Lemma igmp_query_body_verifies c :
  query_config_wf c →
  ones_complement_sum (igmp_query_body c (u16_to_be (checksum (igmp_query_body c [0; 0])))) = 65535.
Proof.
  intros (?&?&?&?&?&?). unfold igmp_query_body. apply checksum_verifies; [| |done]; bytes_solve.
Qed.

(** The relay's and the local querier's sources: not multicast, not broadcast. *)
Definition query_source_ok (protocol : MembershipProtocol) (c : GeneralQueryConfig) : bool :=
  match protocol with
  | Igmpv3 => negb (v4_is_multicast (igmp_source c) || v4_is_broadcast (igmp_source c))
  | Mldv2 => negb (v6_is_multicast (mld_source c))
  end.

Lemma validate_igmpv3_built c pad :
  query_config_wf c → query_source_ok Igmpv3 c = true →
  validate_igmpv3_general_query (igmp_query_packet c ++ pad) = Ok (query_interval_code c, 36).
Proof.
  intros Hc Hs.
  pose proof (igmp_query_header_verifies c Hc) as Hh.
  pose proof (igmp_query_body_verifies c Hc) as Hb.
  unfold igmp_query_packet. set (h := igmp_query_header c _) in *. set (b := igmp_query_body c _) in *.
  assert (len ((h ++ b) ++ pad) = 36 + len pad) as Hl by (rewrite !len_app; done).
  unfold validate_igmpv3_general_query. set (packet := (h ++ b) ++ pad) in *.
  change (head packet) with (Some 0x46). change (idx packet 0) with (Ok 0x46 : res QueryValidationError Z).
  cbn [ok_or mbind res_bind]. change (negb (Z.shiftr 0x46 4 =? 4)) with false. cbv iota.
  rewrite Hl. change (QIPV4_HEADER_LEN + IGMPV3_QUERY_LEN) with 36.
  rewrite (proj2 (Z.ltb_ge _ _)) by len_lia. change (Z.land 0x46 0x0f * 4) with 24.
  rewrite (proj2 (Z.ltb_ge (36 + _) _)) by len_lia. cbn [orb]. 
  change (be16_at packet 2) with (Ok 36 : res QueryValidationError Z). cbn [ok_or mbind res_bind].
  rewrite (proj2 (Z.ltb_ge (36 + _) _)) by len_lia.
  transitivity (if v4_is_multicast (igmp_source c) || v4_is_broadcast (igmp_source c)
                then Err QInvalidSource
                else if negb (ones_complement_sum h =? 65535) then Err QInvalidChecksum
                else if negb (ones_complement_sum b =? 65535) then Err QInvalidChecksum
                else Ok (query_interval_code c, 36)).
  { generalize ones_complement_sum as sum. intros sum. unfold packet, h, b.
    generalize checksum as cks. intros cks. clear.
    destruct c as [[]]. reflexivity. }
  simpl in Hs. apply negb_true_iff in Hs. by rewrite Hs, Hh, Hb.
Qed.

Lemma ALL_NODES_V6_wf : ipv6_wf ALL_NODES_V6.
Proof. split; [done|]. decide_ok. Qed.

Lemma validate_mldv2_built c pad :
  query_config_wf c → query_source_ok Mldv2 c = true →
  validate_mldv2_general_query (mld_query_packet c ++ pad) = Ok (query_interval_code c, 76).
Proof.
  intros Hc Hs. pose proof Hc as (_ & [Hl16 Ho] & _ & ? & ? & ?).
  assert (icmpv6_checksum (v6_octets (mld_source c)) (v6_octets ALL_NODES_V6) 58
            (mld_query_body c (u16_to_be (mld_query_checksum c))) = 0) as Hck.
  { unfold mld_query_checksum, mld_query_body.
    apply icmpv6_checksum_verifies; [done|apply ALL_NODES_V6_wf|done|apply ALL_NODES_V6_wf
                                    |done|bytes_solve|bytes_solve|done]. }
  unfold validate_mldv2_general_query.
  assert (len (mld_query_packet c ++ pad) = 76 + len pad) as Hl.
  { unfold mld_query_packet. rewrite !len_app, Hl16. done. }
  set (packet := mld_query_packet c ++ pad) in *.
  change (head packet) with (Some 0x60). cbn [ok_or mbind res_bind].
  change (negb (Z.shiftr 0x60 4 =? 6)) with false. cbv iota.
  rewrite Hl. change (IPV6_HEADER_LEN + IPV6_HOP_BY_HOP_LEN + MLDV2_QUERY_LEN) with 76.
  rewrite (proj2 (Z.ltb_ge _ _)) by len_lia.
  change (be16_at packet 4) with (Ok 36 : res QueryValidationError Z). cbn [ok_or mbind res_bind].
  change (IPV6_HEADER_LEN + 36) with 76. rewrite (proj2 (Z.ltb_ge (76 + _) _)) by len_lia.
  transitivity (if v6_is_multicast (mld_source c) then Err QInvalidSource
                else if negb (icmpv6_checksum (v6_octets (mld_source c)) (v6_octets ALL_NODES_V6) 58
                          (mld_query_body c (u16_to_be (mld_query_checksum c))) =? 0)
                then Err QInvalidChecksum else Ok (query_interval_code c, 76)).
  { unfold packet, mld_query_packet. clear - Hl16. generalize icmpv6_checksum as cks. intros cks.
    generalize (mld_query_checksum c). intros ck.
    destruct c as [s4 [o] mr4 mr6 rv qi]. simpl in Hl16.
    destruct_octets o Hl16. reflexivity. }
  simpl in Hs. apply negb_true_iff in Hs. by rewrite Hs, Hck.
Qed.

Ltac query_step :=
  lazymatch goal with
  | |- wp (has_ipv6_router_alert _) _ _ => apply wp_has_ipv6_router_alert; [auto | intros ? ?]
  | |- _ => ip_step
  end.

Lemma validate_igmpv3_wp packet :
  bytes packet →
  wp (validate_igmpv3_general_query packet)
    (λ r, 36 <= r.2 <= len packet ∧ u8 r.1) (λ _, True).
Proof.
  intros Hb. unfold validate_igmpv3_general_query, QIPV4_HEADER_LEN, IGMPV3_QUERY_LEN.
  repeat query_step; try done.
  simpl. split; [lia|]. by eapply bytes_lookup; [|done]; auto.
Qed.

Lemma validate_mldv2_wp packet :
  bytes packet →
  wp (validate_mldv2_general_query packet)
    (λ r, 76 <= r.2 <= len packet ∧ u8 r.1) (λ _, True).
Proof.
  intros Hb. unfold validate_mldv2_general_query, IPV6_HEADER_LEN, IPV6_HOP_BY_HOP_LEN, MLDV2_QUERY_LEN.
  repeat query_step; try done.
  simpl. split; [lia|]. by eapply bytes_lookup; [|done]; auto.
Qed.

Lemma validated_general_query_wp protocol packet :
  bytes packet →
  wp (validated_general_query protocol packet)
    (λ r, ∃ tail, packet = r.2 ++ tail ∧ ∃ code, u8 code ∧ r.1 = query_interval code) (λ _, True).
Proof.
  intros Hb. unfold validated_general_query. apply wp_bind.
  assert (wp match protocol with Igmpv3 => validate_igmpv3_general_query packet
                               | Mldv2 => validate_mldv2_general_query packet end
            (λ r, 0 <= r.2 <= len packet ∧ u8 r.1) (λ _, True)) as H.
  { destruct protocol; eapply wp_mono; [by apply validate_igmpv3_wp| | |by apply validate_mldv2_wp| |];
      try done; intros [] [? ?]; simpl in *; split; try done; lia. }
  eapply wp_mono; [exact H| |done]. intros [code n] [? ?]. simpl in *.
  apply wp_bind, wp_slice_to; [lia|]. intros _. apply wp_ok.
  exists (drop (Z.to_nat n) packet). simpl. rewrite take_drop. split; [done|]. by exists code.
Qed.

Definition general_query_packet (protocol : MembershipProtocol) (c : GeneralQueryConfig) : list Z :=
  match protocol with Igmpv3 => igmp_query_packet c | Mldv2 => mld_query_packet c end.

Lemma build_general_query_eq {E} protocol c :
  query_config_wf c → build_general_query (E:=E) protocol c = Ok (general_query_packet protocol c).
Proof.
  intros (? & ? & _). destruct protocol; [apply build_igmpv3_general_query_eq|].
  by apply build_mldv2_general_query_eq.
Qed.

Lemma bytes_general_query_packet protocol c :
  query_config_wf c → bytes (general_query_packet protocol c).
Proof.
  intros Hc. pose proof Hc as (? & Hv6 & _). destruct protocol; simpl.
  - unfold igmp_query_packet. apply bytes_app. split;
      [apply bytes_igmp_query_header|apply bytes_igmp_query_body]; try done;
      apply bytes_u16_to_be, checksum_u16;
      [apply bytes_igmp_query_header|apply bytes_igmp_query_body]; try done; apply (bytes_zeros 2).
  - unfold mld_query_packet. destruct Hv6. bytes_solve; try apply ALL_NODES_V6_wf.
    apply bytes_mld_query_body; [done|]. apply bytes_u16_to_be.
    apply icmpv6_checksum_u16; [done|apply ALL_NODES_V6_wf|done|].
    apply (bytes_mld_query_body c [0; 0]); [done|apply (bytes_zeros 2)].
Qed.

Lemma validated_built protocol c pad :
  query_config_wf c → query_source_ok protocol c = true →
  validated_general_query protocol (general_query_packet protocol c ++ pad) =
  Ok (query_interval (query_interval_code c), general_query_packet protocol c).
Proof.
  intros Hc Hs. pose proof Hc as (? & [Hv6 _] & _).
  destruct protocol; unfold validated_general_query, general_query_packet.
  - rewrite validate_igmpv3_built by done. reflexivity.
  - rewrite validate_mldv2_built by done.
    cbn [mbind res_bind]. assert (len (mld_query_packet c) = 76) as Hl
      by (unfold mld_query_packet; rewrite !len_app, Hv6; done).
    rewrite slice_to_ok by len_lia. cbn [mbind res_bind]. do 2 f_equal.
    rewrite take_app_length'; [done|]. unfold len in Hl. lia.
Qed.

(** ** The query interval code *)

Lemma first_covering_code_spec seconds codes :
  (∃ pre em post, codes = pre ++ em :: post ∧ first_covering_code seconds codes = interval_code em ∧
     seconds <= query_interval_secs (interval_code em) ∧
     Forall (λ em, query_interval_secs (interval_code em) < seconds) pre) ∨
  (first_covering_code seconds codes = 255 ∧
   Forall (λ em, query_interval_secs (interval_code em) < seconds) codes).
Proof.
  induction codes as [|em0 codes IH]; cbn [first_covering_code]; [by right|].
  unfold query_interval, as_secs, from_secs, NANOS_PER_SEC.
  rewrite Z.div_mul by lia. destruct (Z.leb_spec seconds (query_interval_secs (interval_code em0))).
  - left. exists [], em0, codes. split_and!; auto.
  - destruct IH as [(pre & em & post & -> & Hf & Hc & Hp)|[Hf Hp]].
    + left. exists (em0 :: pre), em, post. split_and!; auto.
    + right. auto.
Qed.

Lemma interval_codes_enumerate :
  interval_code <$> interval_codes = seqZ 128 128.
Proof. by vm_compute. Qed.

Lemma query_interval_secs_255 : ∀ c, u8 c → query_interval_secs c <= 31744.
Proof. intros c Hc. apply Z.leb_le. revert c Hc. apply u8_check. by vm_compute. Qed.

Lemma encode_query_interval_least interval :
  0 <= interval →
  let c := encode_query_interval interval in
  u8 c ∧ (as_secs interval <= 31744 → as_secs interval <= query_interval_secs c) ∧
  (∀ c', u8 c' → c' < c → query_interval_secs c' < as_secs interval).
Proof.
  intros Hi. unfold encode_query_interval. set (s := as_secs interval).
  assert (0 <= s) by (apply Z.div_pos; unfold NANOS_PER_SEC; lia).
  destruct (Z.ltb_spec s 128).
  { unfold as_u8. rewrite Z.mod_small by lia. unfold u8, query_interval_secs. split_and!; [lia|lia| |].
    - intros. by rewrite (proj2 (Z.ltb_lt _ _)) by lia.
    - intros c' ? ?. rewrite (proj2 (Z.ltb_lt c' 128)) by lia. lia. }
  pose proof interval_codes_enumerate as He.
  assert (∀ k c', (interval_code <$> interval_codes) !! k = Some c' ↔ c' = 128 + Z.of_nat k ∧ (k < 128)%nat) as Hk.
  { intros. rewrite He, lookup_seqZ. naive_solver lia. }
  destruct (first_covering_code_spec s interval_codes)
    as [(pre & em & post & Hcs & -> & Hge & Hlt)|[-> Hlt]].
  - assert (interval_code em = 128 + len pre ∧ (length pre < 128)%nat) as [Hem Hpre].
    { apply Hk. rewrite Hcs, list_lookup_fmap, list_lookup_middle by done. done. }
    unfold len in Hem. rewrite Hem in *. split_and!; [unfold u8; lia|done|].
    intros c' Hu Hc'. destruct (Z.ltb_spec c' 128) as [Hs|].
    { unfold query_interval_secs. rewrite (proj2 (Z.ltb_lt c' 128)) by lia. lia. }
    assert ((interval_code <$> interval_codes) !! Z.to_nat (c' - 128) = Some c') as Hc by (apply Hk; lia).
    rewrite Hcs, list_lookup_fmap, lookup_app_l in Hc by lia.
    apply fmap_Some in Hc as (x & Hx & ->). by apply (Forall_lookup_1 _ _ _ _ Hlt Hx).
  - assert (∀ c', 128 <= c' <= 255 → query_interval_secs c' < s) as Hall.
    { intros c' ?. assert ((interval_code <$> interval_codes) !! Z.to_nat (c' - 128) = Some c') as Hc by (apply Hk; lia).
      rewrite list_lookup_fmap in Hc. apply fmap_Some in Hc as (x & Hx & ->).
      by apply (Forall_lookup_1 _ _ _ _ Hlt Hx). }
    split_and!; [unfold u8; lia| |].
    + intros. specialize (Hall 255 ltac:(lia)). change (query_interval_secs 255) with 31744 in *. lia.
    + intros c' Hu ?. unfold u8 in Hu. destruct (Z.ltb_spec c' 128); [|apply Hall; lia].
      unfold query_interval_secs. rewrite (proj2 (Z.ltb_lt c' 128)) by lia. lia.
Qed.

(** * Properties *)

(** A General Query built for a well-formed configuration, whose source the
    validator accepts, validates: with any trailing bytes behind it, the
    validator returns the query itself and the interval of its code. *)
Theorem general_query_roundtrip protocol c pad :
  query_config_wf c → query_source_ok protocol c = true →
  ∃ packet, build_general_query (E:=QueryValidationError) protocol c = Ok packet ∧
    validated_general_query protocol (packet ++ pad) = Ok (query_interval (query_interval_code c), packet).
Proof.
  intros Hc Hs. exists (general_query_packet protocol c).
  split; [by apply build_general_query_eq|by apply validated_built].
Qed.

Lemma for_amt_wf : query_config_wf for_amt.
Proof. decide_ok. Qed.

Lemma general_query_roundtrip_witness :
  ∃ packet, build_general_query (E:=QueryValidationError) Mldv2 for_amt = Ok packet ∧
    validated_general_query Mldv2 (packet ++ [7]) = Ok (query_interval (query_interval_code for_amt), packet).
Proof. apply (general_query_roundtrip Mldv2 for_amt [7] for_amt_wf). by vm_compute. Defined.

(** [encode_query_interval] picks the least code (RFC 3376 section 4.1.7)
    whose interval is not shorter than the one asked for, and the largest code
    when none is. *)
Theorem query_interval_code_least interval :
  0 <= interval →
  let c := encode_query_interval interval in
  u8 c ∧ (as_secs interval <= 31744 → as_secs interval <= query_interval_secs c) ∧
  (∀ c', u8 c' → c' < c → query_interval_secs c' < as_secs interval).
Proof. apply encode_query_interval_least. Qed.

Lemma query_interval_code_least_witness : as_secs (from_secs 200) <= query_interval_secs (encode_query_interval (from_secs 200)).
Proof. apply (query_interval_code_least (from_secs 200)); [decide_ok|]. by vm_compute. Defined.
