(* ===== verification/Membership.v ===== *)
(** [src/membership.rs]: parsing and construction of IGMPv2/IGMPv3 and
    MLDv1/MLDv2 membership reports.

    The two families are handled by twin functions in the source whose record
    loops differ only in the address length (4 or 16) and the names reported in
    errors; the loops are modelled once, over an address [family]. *)

From S2P Require Import Prelude Net Checksum Protocol Ip.

Definition MIGMP_PROTOCOL : Z := 2.
Definition IPV6_HOP_BY_HOP : Z := 0.
Definition ICMPV6_PROTOCOL : Z := 58.
Definition IGMPV2_MEMBERSHIP_REPORT : Z := 0x16.
Definition IGMPV2_LEAVE_GROUP : Z := 0x17.
Definition IGMPV3_MEMBERSHIP_REPORT : Z := 0x22.
Definition MLDV1_LISTENER_REPORT : Z := 131.
Definition MLDV1_LISTENER_DONE : Z := 132.
Definition MLDV2_LISTENER_REPORT : Z := 143.
Definition IGMPV3_REPORT_DESTINATION : Ipv4Addr := mkIpv4 224 0 0 22.
Definition IGMPV2_ALL_ROUTERS : Ipv4Addr := mkIpv4 224 0 0 2.
Definition MLDV2_REPORT_DESTINATION : Ipv6Addr :=
  ipv6_from_segments [0xff02; 0; 0; 0; 0; 0; 0; 0x16].
Definition MLDV1_ALL_ROUTERS : Ipv6Addr := ipv6_from_segments [0xff02; 0; 0; 0; 0; 0; 0; 2].
Definition IPV4_ROUTER_ALERT_HEADER_LEN : Z := 24.
Definition MIPV6_HOP_BY_HOP_LEN : Z := 8.

(** * Data *)

Inductive MembershipRecordKind :=
| ModeIsInclude
| ModeIsExclude
| ChangeToInclude
| ChangeToExclude
| AllowNewSources
| BlockOldSources
| LegacyReport
| LegacyLeave.

Record MembershipRecord := mkRecord {
  rec_kind : MembershipRecordKind;
  rec_group : IpAddr;
  rec_sources : list IpAddr
}.

Record MembershipReport := mkReport {
  rep_protocol : MembershipProtocol;
  rep_records : list MembershipRecord
}.

Record MembershipParseLimits := mkParseLimits {
  max_records : Z;
  max_sources_per_record : Z
}.

Definition default_parse_limits : MembershipParseLimits := mkParseLimits 512 128.

Inductive MembershipParseError :=
| MTruncated (context : string) (expected_at_least actual : Z)
| InvalidIpVersion (version : Z)
| InvalidIpv4HeaderLength (n : Z)
| InvalidTotalLength (total_length available : Z)
| InvalidMessageLength (context : string) (expected actual : Z)
| InvalidProtocol (expected actual : Z)
| InvalidChecksum (context : string)
| InvalidHopLimit (actual : Z)
| FragmentedPacket
| MissingIpv4RouterAlert
| MissingIpv6RouterAlert
| InvalidDestination (destination : IpAddr)
| InvalidSourceAddress (source : IpAddr)
| MResourceLimit (resource : string) (requested limit : Z)
| UnsupportedMembershipMessage (kind : Z)
| UnknownRecordType (kind : Z)
| InvalidMulticastGroup (group : IpAddr)
| MixedAddressFamilies.

Inductive MembershipBuildError :=
| EmptyReport
| TooManyRecords (count : Z)
| TooManySources (count : Z)
| PacketTooLong (n : Z)
| UnsupportedRecordKind (kind : MembershipRecordKind)
| BInvalidMulticastGroup (group : IpAddr)
| BMixedAddressFamilies
| ProtocolAddressFamilyMismatch (protocol : MembershipProtocol) (group : IpAddr).

#[export] Instance MembershipRecordKind_eq_dec : EqDecision MembershipRecordKind.
Proof. solve_decision. Defined.
#[export] Instance MembershipRecord_eq_dec : EqDecision MembershipRecord.
Proof. solve_decision. Defined.
#[export] Instance MembershipReport_eq_dec : EqDecision MembershipReport.
Proof. solve_decision. Defined.
#[export] Instance MembershipParseError_eq_dec : EqDecision MembershipParseError.
Proof. solve_decision. Defined.
#[export] Instance MembershipBuildError_eq_dec : EqDecision MembershipBuildError.
Proof. solve_decision. Defined.

(** * Helpers *)

Definition same_family (left right : IpAddr) : bool :=
  match left, right with
  | V4 _, V4 _ | V6 _, V6 _ => true
  | _, _ => false
  end.

Definition is_valid_source (source : IpAddr) : bool :=
  match source with
  | V4 s => negb (v4_is_unspecified s) && negb (v4_is_multicast s) && negb (v4_is_broadcast s)
  | V6 s => negb (v6_is_unspecified s) && negb (v6_is_multicast s)
  end.

Definition check_parse_limit (resource : string) (requested limit : Z) :
    res MembershipParseError unit :=
  if requested <=? limit then Ok tt else Err (MResourceLimit resource requested limit).

Definition require_len (context : string) (bs : list Z) (expected_at_least : Z) :
    res MembershipParseError unit :=
  if len bs <? expected_at_least
  then Err (MTruncated context expected_at_least (len bs)) else Ok tt.

Definition require_exact_len (context : string) (bs : list Z) (expected : Z) :
    res MembershipParseError unit :=
  if len bs =? expected then Ok tt
  else Err (InvalidMessageLength context expected (len bs)).

Definition read_ipv4 {E} (bs : list Z) (offset : Z) : res E Ipv4Addr := ipv4_at bs offset.

Definition read_ipv6 {E} (bs : list Z) (offset : Z) : res E Ipv6Addr :=
  octets ← slice bs offset (offset + 16); Ok (mkIpv6 octets).

Definition record_kind (value : Z) : res MembershipParseError MembershipRecordKind :=
  match value with
  | 1 => Ok ModeIsInclude
  | 2 => Ok ModeIsExclude
  | 3 => Ok ChangeToInclude
  | 4 => Ok ChangeToExclude
  | 5 => Ok AllowNewSources
  | 6 => Ok BlockOldSources
  | other => Err (UnknownRecordType other)
  end.

Definition encode_record_kind (kind : MembershipRecordKind) : res MembershipBuildError Z :=
  match kind with
  | ModeIsInclude => Ok 1
  | ModeIsExclude => Ok 2
  | ChangeToInclude => Ok 3
  | ChangeToExclude => Ok 4
  | AllowNewSources => Ok 5
  | BlockOldSources => Ok 6
  | LegacyReport | LegacyLeave => Err (UnsupportedRecordKind kind)
  end.

Definition legacy_record (kind : MembershipRecordKind) (group : IpAddr) : MembershipRecord :=
  mkRecord kind group [].

Definition bad_source (group source : IpAddr) : bool :=
  negb (same_family group source) || negb (is_valid_source source).

Definition validate_record (group : IpAddr) (sources : list IpAddr) :
    res MembershipParseError unit :=
  if negb (ip_is_multicast group) then Err (InvalidMulticastGroup group)
  else if existsb (bad_source group) sources then
    match find (λ source, negb (is_valid_source source)) sources with
    | Some source => Err (InvalidSourceAddress source)
    | None => Err MixedAddressFamilies
    end
  else Ok tt.

Fixpoint validate_records (records : list MembershipRecord) : res MembershipParseError unit :=
  match records with
  | [] => Ok tt
  | record :: records =>
      _ ← validate_record (rec_group record) (rec_sources record);
      validate_records records
  end.

(** The loop of [validate_build_records]. *)
Fixpoint validate_build_loop (protocol : MembershipProtocol) (records : list MembershipRecord) :
    res MembershipBuildError unit :=
  match records with
  | [] => Ok tt
  | record :: records =>
      _ ← encode_record_kind (rec_kind record);
      if negb (is_amt_forwardable_group (rec_group record))
      then Err (BInvalidMulticastGroup (rec_group record))
      else
        _ ← match protocol, rec_group record with
            | Igmpv3, V4 _ | Mldv2, V6 _ => Ok tt
            | _, _ => Err (ProtocolAddressFamilyMismatch protocol (rec_group record))
            end;
        if U16_MAX <? len (rec_sources record) then Err (TooManySources (len (rec_sources record)))
        else if existsb (bad_source (rec_group record)) (rec_sources record)
        then Err BMixedAddressFamilies
        else validate_build_loop protocol records
  end.

Definition validate_build_records (protocol : MembershipProtocol)
    (records : list MembershipRecord) : res MembershipBuildError unit :=
  if bool_decide (records = []) then Err EmptyReport
  else if U16_MAX <? len records then Err (TooManyRecords (len records))
  else validate_build_loop protocol records.

Definition checked_mul_sources (source_count source_len : Z) : res MembershipBuildError Z :=
  if U16_MAX <? source_count then Err (TooManySources source_count)
  else ok_or (PacketTooLong USIZE_MAX) (checked_mul source_count source_len).

(** * Address families *)

(** What the IGMPv3 and MLDv2 halves of the source differ in: the address
    length, how an address is read, the [match] that extracts the octets (its
    other arm is [unreachable!]), and the contexts of length errors. *)
Record family := mkFamily {
  f_addr_len : Z;
  f_read : ∀ E, list Z → Z → res E IpAddr;
  f_octets : IpAddr → option (list Z);
  f_report_context : string;
  f_records_context : string;
  f_record_context : string
}.

Definition family_v4 : family := {|
  f_addr_len := 4;
  f_read := λ E bs o, a ← read_ipv4 bs o; Ok (V4 a);
  f_octets := λ ip, match ip with V4 a => Some (v4_octets a) | V6 _ => None end;
  f_report_context := "IGMPv3 Membership Report";
  f_records_context := "IGMPv3 group records";
  f_record_context := "IGMPv3 group record"
|}.

Definition family_v6 : family := {|
  f_addr_len := 16;
  f_read := λ E bs o, a ← read_ipv6 bs o; Ok (V6 a);
  f_octets := λ ip, match ip with V6 a => Some (v6_octets a) | V4 _ => None end;
  f_report_context := "MLDv2 Listener Report";
  f_records_context := "MLDv2 multicast address records";
  f_record_context := "MLDv2 multicast address record"
|}.

(** * Parsing *)

(** [for i in 0..source_count]: [n] sources remain, the next at [offset]. *)
Fixpoint read_sources {E} (f : family) (bs : list Z) (offset : Z) (n : nat) : res E (list IpAddr) :=
  match n with
  | O => Ok []
  | S n =>
      source ← f_read f E bs offset;
      sources ← read_sources f bs (offset + f_addr_len f) n;
      Ok (source :: sources)
  end.

(** One iteration of the record loop: the record at [offset] and its length. *)
Definition parse_record (f : family) (limits : MembershipParseLimits) (bs : list Z) (offset : Z) :
    res MembershipParseError (MembershipRecord * Z) :=
  let header_len := 4 + f_addr_len f in
  rest ← slice_from bs offset;
  _ ← require_len (f_record_context f) rest header_len;
  k ← idx bs offset;
  kind ← record_kind k;
  aux ← idx bs (offset + 1);
  let aux_len := aux * 4 in
  source_count ← be16_at bs (offset + 2);
  _ ← check_parse_limit "sources per record" source_count (max_sources_per_record limits);
  group ← f_read f _ bs (offset + 4);
  let sources_offset := offset + header_len in
  let record_len := header_len + source_count * f_addr_len f + aux_len in
  rest ← slice_from bs offset;
  _ ← require_len (f_record_context f) rest record_len;
  sources ← read_sources f bs sources_offset (Z.to_nat source_count);
  _ ← validate_record group sources;
  Ok (mkRecord kind group sources, record_len).

(** [for _ in 0..count]: the records read and the final offset. *)
Fixpoint parse_record_loop (f : family) (limits : MembershipParseLimits) (bs : list Z)
    (count : nat) (offset : Z) (records : list MembershipRecord) :
    res MembershipParseError (list MembershipRecord * Z) :=
  match count with
  | O => Ok (records, offset)
  | S count =>
      '(record, record_len) ← parse_record f limits bs offset;
      parse_record_loop f limits bs count (offset + record_len) (records ++ [record])
  end.

(** [parse_igmpv3_records] and [parse_mldv2_records]. *)
Definition parse_records (f : family) (bs : list Z) (limits : MembershipParseLimits) :
    res MembershipParseError (list MembershipRecord) :=
  _ ← require_len (f_report_context f) bs 8;
  count ← be16_at bs 6;
  _ ← check_parse_limit "records" count (max_records limits);
  let header_len := 4 + f_addr_len f in
  if saturating_sub (len bs) 8 / header_len <? count
  then Err (MTruncated (f_records_context f) (8 + saturating_mul count header_len) (len bs))
  else
    '(records, offset) ← parse_record_loop f limits bs (Z.to_nat count) 8 [];
    _ ← require_exact_len (f_report_context f) bs offset;
    Ok records.

Definition parse_igmpv3_records := parse_records family_v4.
Definition parse_mldv2_records := parse_records family_v6.

(** The [match igmp[0]] that yields the records of an IGMP message. *)
Definition igmp_message_records (igmp : list Z) (destination : Ipv4Addr)
    (limits : MembershipParseLimits) : res MembershipParseError (list MembershipRecord) :=
  kind ← idx igmp 0;
  if kind =? IGMPV2_MEMBERSHIP_REPORT then
    _ ← require_exact_len "IGMPv2 Membership Report" igmp 8;
    group ← read_ipv4 igmp 4;
    if negb (bool_decide (destination = group))
    then Err (InvalidDestination (V4 destination))
    else Ok [legacy_record LegacyReport (V4 group)]
  else if kind =? IGMPV2_LEAVE_GROUP then
    _ ← require_exact_len "IGMPv2 Leave Group" igmp 8;
    if negb (bool_decide (destination = IGMPV2_ALL_ROUTERS))
    then Err (InvalidDestination (V4 destination))
    else
      group ← read_ipv4 igmp 4;
      Ok [legacy_record LegacyLeave (V4 group)]
  else if kind =? IGMPV3_MEMBERSHIP_REPORT then
    if negb (bool_decide (destination = IGMPV3_REPORT_DESTINATION))
    then Err (InvalidDestination (V4 destination))
    else parse_igmpv3_records igmp limits
  else Err (UnsupportedMembershipMessage kind).

(** The [match icmp[0]] that yields the records of an MLD message. *)
Definition mld_message_records (icmp : list Z) (destination : Ipv6Addr)
    (limits : MembershipParseLimits) : res MembershipParseError (list MembershipRecord) :=
  kind ← idx icmp 0;
  if kind =? MLDV1_LISTENER_REPORT then
    _ ← require_exact_len "MLDv1 Listener Report" icmp 24;
    group ← read_ipv6 icmp 8;
    if negb (bool_decide (destination = group))
    then Err (InvalidDestination (V6 destination))
    else Ok [legacy_record LegacyReport (V6 group)]
  else if kind =? MLDV1_LISTENER_DONE then
    _ ← require_exact_len "MLDv1 Listener Done" icmp 24;
    if negb (bool_decide (destination = MLDV1_ALL_ROUTERS))
    then Err (InvalidDestination (V6 destination))
    else
      group ← read_ipv6 icmp 8;
      Ok [legacy_record LegacyLeave (V6 group)]
  else if kind =? MLDV2_LISTENER_REPORT then
    if negb (bool_decide (destination = MLDV2_REPORT_DESTINATION))
    then Err (InvalidDestination (V6 destination))
    else parse_mldv2_records icmp limits
  else Err (UnsupportedMembershipMessage kind).

Definition parse_ipv4_membership_report (packet : list Z) (limits : MembershipParseLimits) :
    res MembershipParseError MembershipReport :=
  _ ← require_len "IPv4 header" packet IPV4_MIN_HEADER_LEN;
  p0 ← idx packet 0;
  let ihl := Z.land p0 0x0f * 4 in
  if ihl <? IPV4_MIN_HEADER_LEN then Err (InvalidIpv4HeaderLength ihl)
  else
    _ ← require_len "IPv4 header" packet ihl;
    total_len ← be16_at packet 2;
    if (total_len <? ihl) || (len packet <? total_len)
    then Err (InvalidTotalLength total_len (len packet))
    else
      p9 ← idx packet 9;
      if negb (p9 =? MIGMP_PROTOCOL) then Err (InvalidProtocol MIGMP_PROTOCOL p9)
      else
        p8 ← idx packet 8;
        if negb (p8 =? 1) then Err (InvalidHopLimit p8)
        else
          fragment ← be16_at packet 6;
          if negb (Z.land fragment 0x3fff =? 0) then Err FragmentedPacket
          else
            source ← read_ipv4 packet 12;
            if v4_is_multicast source || v4_is_broadcast source
            then Err (InvalidSourceAddress (V4 source))
            else
              router_alert ←
                (if ihl =? IPV4_MIN_HEADER_LEN then Ok false
                 else options ← slice packet IPV4_MIN_HEADER_LEN ihl;
                      has_ipv4_router_alert options);
              if negb router_alert then Err MissingIpv4RouterAlert
              else
                hdr ← slice_to packet ihl;
                if negb (ones_complement_sum hdr =? 0xffff) then Err (InvalidChecksum "IPv4 header")
                else
                  igmp ← slice packet ihl total_len;
                  _ ← require_len "IGMP message" igmp 8;
                  if negb (ones_complement_sum igmp =? 0xffff) then Err (InvalidChecksum "IGMP")
                  else
                    destination ← read_ipv4 packet 16;
                    records ← igmp_message_records igmp destination limits;
                    _ ← validate_records records;
                    Ok (mkReport Igmpv3 records).

Definition parse_ipv6_membership_report (packet : list Z) (limits : MembershipParseLimits) :
    res MembershipParseError MembershipReport :=
  _ ← require_len "IPv6 header" packet IPV6_HEADER_LEN;
  payload_len ← be16_at packet 4;
  let total_len := IPV6_HEADER_LEN + payload_len in
  if len packet <? total_len then Err (InvalidTotalLength total_len (len packet))
  else
    p7 ← idx packet 7;
    if negb (p7 =? 1) then Err (InvalidProtocol 1 p7)
    else
      source ← read_ipv6 packet 8;
      if v6_is_multicast source then Err (InvalidSourceAddress (V6 source))
      else
        destination ← read_ipv6 packet 24;
        next_header ← idx packet 6;
        '(next_header, offset, saw_router_alert) ←
          (if next_header =? IPV6_HOP_BY_HOP then
             ext ← slice packet IPV6_HEADER_LEN total_len;
             _ ← require_len "IPv6 hop-by-hop header" ext 8;
             next_header ← idx packet IPV6_HEADER_LEN;
             n ← idx packet (IPV6_HEADER_LEN + 1);
             let extension_len := (n + 1) * 8 in
             ext ← slice packet IPV6_HEADER_LEN total_len;
             _ ← require_len "IPv6 hop-by-hop header" ext extension_len;
             options ← slice packet (IPV6_HEADER_LEN + 2) (IPV6_HEADER_LEN + extension_len);
             saw_router_alert ← has_ipv6_router_alert options;
             Ok (next_header, IPV6_HEADER_LEN + extension_len, saw_router_alert)
           else Ok (next_header, IPV6_HEADER_LEN, false));
        if negb saw_router_alert then Err MissingIpv6RouterAlert
        else if negb (next_header =? ICMPV6_PROTOCOL)
        then Err (InvalidProtocol ICMPV6_PROTOCOL next_header)
        else
          icmp ← slice packet offset total_len;
          _ ← require_len "MLD message" icmp 8;
          if negb (icmpv6_checksum (v6_octets source) (v6_octets destination) ICMPV6_PROTOCOL icmp =? 0)
          then Err (InvalidChecksum "ICMPv6")
          else
            records ← mld_message_records icmp destination limits;
            _ ← validate_records records;
            Ok (mkReport Mldv2 records).

Definition parse_membership_report_with_limits (packet : list Z) (limits : MembershipParseLimits) :
    res MembershipParseError MembershipReport :=
  first ← ok_or (MTruncated "IP packet" 1 0) (head packet);
  let version := Z.shiftr first 4 in
  if version =? 4 then parse_ipv4_membership_report packet limits
  else if version =? 6 then parse_ipv6_membership_report packet limits
  else Err (InvalidIpVersion version).

Definition parse_membership_report (packet : list Z) : res MembershipParseError MembershipReport :=
  parse_membership_report_with_limits packet default_parse_limits.

(** * Construction *)

(** The [try_fold] that adds up the record lengths. *)
Fixpoint records_len (f : family) (acc : Z) (records : list MembershipRecord) :
    res MembershipBuildError Z :=
  match records with
  | [] => Ok acc
  | record :: records =>
      source_len ← checked_mul_sources (len (rec_sources record)) (f_addr_len f);
      acc ← ok_or (PacketTooLong USIZE_MAX) (checked_add acc (4 + f_addr_len f + source_len));
      records_len f acc records
  end.

(** [for source in &record.sources]: the buffer and the offset after it. *)
Fixpoint write_sources {E} (f : family) (bs : list Z) (offset : Z) (sources : list IpAddr) :
    res E (list Z * Z) :=
  match sources with
  | [] => Ok (bs, offset)
  | source :: sources =>
      octets ← lift_option (f_octets f source);
      bs ← copy_at bs offset (offset + f_addr_len f) octets;
      write_sources f bs (offset + f_addr_len f) sources
  end.

(** [for record in records]. *)
Fixpoint write_records (f : family) (bs : list Z) (offset : Z) (records : list MembershipRecord) :
    res MembershipBuildError (list Z) :=
  match records with
  | [] => Ok bs
  | record :: records =>
      group ← lift_option (f_octets f (rec_group record));
      kind ← encode_record_kind (rec_kind record);
      bs ← set_idx bs offset kind;
      bs ← copy_at bs (offset + 2) (offset + 4) (u16_to_be (as_u16 (len (rec_sources record))));
      bs ← copy_at bs (offset + 4) (offset + 4 + f_addr_len f) group;
      '(bs, offset) ← write_sources f bs (offset + (4 + f_addr_len f)) (rec_sources record);
      write_records f bs offset records
  end.

Definition build_igmpv3_membership_report (records : list MembershipRecord) :
    res MembershipBuildError (list Z) :=
  _ ← validate_build_records Igmpv3 records;
  records_len ← records_len family_v4 0 records;
  let igmp_len := 8 + records_len in
  let total_len := IPV4_ROUTER_ALERT_HEADER_LEN + igmp_len in
  if U16_MAX <? total_len then Err (PacketTooLong total_len)
  else
    let packet := replicate (Z.to_nat total_len) 0 in
    packet ← set_idx packet 0 0x46;
    packet ← set_idx packet 1 0xc0;
    packet ← copy_at packet 2 4 (u16_to_be (as_u16 total_len));
    packet ← set_idx packet 8 1;
    packet ← set_idx packet 9 MIGMP_PROTOCOL;
    packet ← copy_at packet 12 16 (v4_octets Ipv4_UNSPECIFIED);
    packet ← copy_at packet 16 20 (v4_octets IGMPV3_REPORT_DESTINATION);
    packet ← copy_at packet 20 24 [0x94; 0x04; 0; 0];
    packet ← with_tail packet IPV4_ROUTER_ALERT_HEADER_LEN (λ igmp,
      igmp ← set_idx igmp 0 IGMPV3_MEMBERSHIP_REPORT;
      igmp ← copy_at igmp 6 8 (u16_to_be (as_u16 (len records)));
      igmp ← write_records family_v4 igmp 8 records;
      copy_at igmp 2 4 (u16_to_be (checksum igmp)));
    hdr ← slice_to packet IPV4_ROUTER_ALERT_HEADER_LEN;
    copy_at packet 10 12 (u16_to_be (checksum hdr)).

Definition build_mldv2_membership_report (records : list MembershipRecord) :
    res MembershipBuildError (list Z) :=
  _ ← validate_build_records Mldv2 records;
  records_len ← records_len family_v6 0 records;
  let mld_len := 8 + records_len in
  let payload_len := MIPV6_HOP_BY_HOP_LEN + mld_len in
  if U16_MAX <? payload_len then Err (PacketTooLong (IPV6_HEADER_LEN + payload_len))
  else
    let total_len := IPV6_HEADER_LEN + payload_len in
    let packet := replicate (Z.to_nat total_len) 0 in
    packet ← set_idx packet 0 0x60;
    packet ← copy_at packet 4 6 (u16_to_be (as_u16 payload_len));
    packet ← set_idx packet 6 IPV6_HOP_BY_HOP;
    packet ← set_idx packet 7 1;
    let source := v6_octets Ipv6_UNSPECIFIED in
    let destination := v6_octets MLDV2_REPORT_DESTINATION in
    packet ← copy_at packet 8 24 source;
    packet ← copy_at packet 24 40 destination;
    packet ← copy_at packet 40 48 [ICMPV6_PROTOCOL; 0; 5; 2; 0; 0; 1; 0];
    let mld_offset := IPV6_HEADER_LEN + MIPV6_HOP_BY_HOP_LEN in
    with_tail packet mld_offset (λ mld,
      mld ← set_idx mld 0 MLDV2_LISTENER_REPORT;
      mld ← copy_at mld 6 8 (u16_to_be (as_u16 (len records)));
      mld ← write_records family_v6 mld 8 records;
      let mld_checksum := icmpv6_checksum source destination ICMPV6_PROTOCOL mld in
      copy_at mld 2 4 (u16_to_be mld_checksum)).

Definition build_membership_report (report : MembershipReport) : res MembershipBuildError (list Z) :=
  match rep_protocol report with
  | Igmpv3 => build_igmpv3_membership_report (rep_records report)
  | Mldv2 => build_mldv2_membership_report (rep_records report)
  end.

(** * Well-formed reports: the ranges of the Rust types *)

Definition record_wf (r : MembershipRecord) : Prop :=
  ip_wf (rec_group r) ∧ Forall ip_wf (rec_sources r).
Definition report_wf (r : MembershipReport) : Prop := Forall record_wf (rep_records r).

#[export] Instance record_wf_dec r : Decision (record_wf r).
Proof. unfold record_wf. apply _. Defined.
#[export] Instance report_wf_dec r : Decision (report_wf r).
Proof. unfold report_wf. apply _. Defined.

(** * What the builders write *)

(** [family_ok f ip o]: [ip] belongs to the family and its octets are [o]. *)
Class FamilyLaws (f : family) := {
  f_addr_pos : 0 < f_addr_len f;
  f_octets_len ip o : ip_wf ip → f_octets f ip = Some o → len o = f_addr_len f;
  f_octets_bytes ip o : ip_wf ip → f_octets f ip = Some o → bytes o;
  f_read_octets E ip o pre post :
    ip_wf ip → f_octets f ip = Some o → f_read f E (pre ++ o ++ post) (len pre) = Ok ip;
  f_read_wp E bs offset (Q : IpAddr → Prop) (R : E → Prop) :
    0 <= offset → offset + f_addr_len f <= len bs →
    (∀ ip, (bytes bs → ip_wf ip) → is_Some (f_octets f ip) → Q ip) → wp (f_read f E bs offset) Q R
}.

Lemma idx_app_k {E} (pre suf : list Z) i k :
  0 <= k → i = len pre + k → idx (E:=E) (pre ++ suf) i = idx suf k.
Proof.
  intros Hk ->. unfold idx. rewrite !(proj2 (Z.ltb_ge _ 0)) by len_lia.
  rewrite lookup_app_r by (unfold len; lia). do 2 f_equal. unfold len. lia.
Qed.

#[export] Instance family_v4_laws : FamilyLaws family_v4.
Proof.
  split.
  - done.
  - intros [a|a] o _ [= <-]. done.
  - intros [a|a] o Hw [= <-]. done.
  - intros E [a|a] o pre post _ [= <-]. cbn. unfold read_ipv4, ipv4_at.
    rewrite (idx_app_k pre _ (len pre) 0), (idx_app_k pre _ (len pre + 1) 1),
      (idx_app_k pre _ (len pre + 2) 2), (idx_app_k pre _ (len pre + 3) 3) by lia.
    by destruct a.
  - intros E bs offset Q R ? ? HQ. cbn in *. apply wp_bind. unfold read_ipv4.
    apply wp_ipv4_at; [lia|lia|]. intros a Ha _. apply wp_ok, HQ; [done|by eexists].
Qed.

#[export] Instance family_v6_laws : FamilyLaws family_v6.
Proof.
  split.
  - done.
  - intros [a|a] o Hw [= <-]. apply Hw.
  - intros [a|a] o Hw [= <-]. apply Hw.
  - intros E [a|a] o pre post Hw [= <-]. destruct Hw as [Hl _]. cbn. unfold read_ipv6.
    rewrite slice_app by len_lia. by destruct a.
  - intros E bs offset Q R ? ? HQ. cbn in *. apply wp_bind. unfold read_ipv6.
    apply wp_bind, wp_slice; [lia|lia|]. intros Hl. apply wp_ok, wp_ok, HQ; [|by eexists].
    intros Hb. split; simpl; [lia|auto].
Qed.

(** * Parsing returns, and what it accepts *)

Definition in_family (f : family) (ip : IpAddr) : Prop := is_Some (f_octets f ip).

Definition family_of (p : MembershipProtocol) : family :=
  match p with Igmpv3 => family_v4 | Mldv2 => family_v6 end.

(** A record the parser lets through. *)
Definition record_ok (f : family) (limits : MembershipParseLimits) (r : MembershipRecord) : Prop :=
  record_wf r ∧ in_family f (rec_group r) ∧ ip_is_multicast (rec_group r) = true ∧
  Forall (λ s, same_family (rec_group r) s = true ∧ is_valid_source s = true) (rec_sources r) ∧
  len (rec_sources r) <= Z.max 0 (max_sources_per_record limits).

Lemma wp_read_sources {E} f `{!FamilyLaws f} bs offset n (Q : list IpAddr → Prop) (R : E → Prop) :
  0 <= offset → offset + Z.of_nat n * f_addr_len f <= len bs →
  (∀ l, (bytes bs → Forall ip_wf l) → length l = n → Q l) → wp (read_sources f bs offset n) Q R.
Proof.
  pose proof f_addr_pos as Hpos.
  revert offset Q; induction n as [|n IH]; intros offset Q Ho Hl HQ; cbn [read_sources].
  { apply wp_ok, HQ; [by constructor|done]. }
  apply wp_bind, f_read_wp; [lia|lia|]. intros ip Hip _.
  apply wp_bind, IH; [lia|lia|]. intros l Hl' Hn. apply wp_ok, HQ; [|simpl; lia].
  intros. constructor; auto.
Qed.

Lemma validate_record_ok group sources (Q : unit → Prop) :
  (ip_is_multicast group = true →
   Forall (λ s, same_family group s = true ∧ is_valid_source s = true) sources → Q tt) →
  wp (validate_record group sources) Q (λ _, True).
Proof.
  intros HQ. unfold validate_record. destruct (ip_is_multicast group) eqn:Hm; simpl; [|done].
  destruct (existsb _ _) eqn:He; [by destruct (find _ _)|]. simpl. apply HQ; [done|].
  apply Forall_forall. intros s Hs. destruct (bad_source group s) eqn:Hb.
  - assert (existsb (bad_source group) sources = true); [|congruence].
    apply existsb_exists. exists s. by rewrite <- list_elem_of_In.
  - unfold bad_source in Hb. zbool. done.
Qed.

Lemma wp_record_kind v (Q : MembershipRecordKind → Prop) :
  (∀ k, Q k) → wp (record_kind v) Q (λ _, True).
Proof. intros. unfold record_kind. repeat case_match; simpl; auto. Qed.

Lemma wp_parse_record f `{!FamilyLaws f} limits bs offset (Q : MembershipRecord * Z → Prop) :
  bytes bs → 0 <= offset <= len bs →
  (∀ r n, record_ok f limits r → 0 < n → offset + n <= len bs → Q (r, n)) →
  wp (parse_record f limits bs offset) Q (λ _, True).
Proof.
  intros Hb Ho HQ. pose proof f_addr_pos as Hpos. unfold parse_record, require_len, check_parse_limit.
  repeat lazymatch goal with
  | |- wp (f_read _ _ _ _) _ _ => apply f_read_wp; [len_lia | len_lia | intros ? ? ?]
  | |- wp (record_kind _) _ _ => apply wp_record_kind; intros ?
  | |- wp (read_sources _ _ _ _) _ _ => fail
  | |- _ => ip_step
  end; try done.
  assert (u8 x0) as Hx0 by (by eapply bytes_lookup). assert (u16 v) as Hv by auto.
  unfold u8, u16 in *. apply (wp_read_sources _); [len_lia|len_lia|]. intros l Hl Hn.
  apply wp_bind, validate_record_ok. intros Hm Hs. apply wp_ok, HQ; [|lia|len_lia].
  unfold record_ok, record_wf, in_family; simpl. unfold len. split_and!; auto; lia.
Qed.

Lemma wp_parse_record_loop f `{!FamilyLaws f} limits bs count offset acc
    (Q : list MembershipRecord * Z → Prop) :
  bytes bs → 0 <= offset <= len bs → Forall (record_ok f limits) acc →
  (∀ rs o, Forall (record_ok f limits) rs → length rs = (length acc + count)%nat → Q (rs, o)) →
  wp (parse_record_loop f limits bs count offset acc) Q (λ _, True).
Proof.
  intros Hb. revert offset acc; induction count as [|count IH]; intros offset acc Ho Hacc HQ; cbn.
  { apply HQ; [done|lia]. }
  apply wp_bind, (wp_parse_record f); [done|done|]. intros r n Hr ? ?.
  apply IH; [lia|apply Forall_app; auto|]. intros rs o Hrs Hn. apply HQ; [done|].
  rewrite length_app in Hn. simpl in Hn. lia.
Qed.

Lemma wp_parse_records f `{!FamilyLaws f} bs limits (Q : list MembershipRecord → Prop) :
  bytes bs →
  (∀ rs, Forall (record_ok f limits) rs → len rs <= max_records limits → Q rs) →
  wp (parse_records f bs limits) Q (λ _, True).
Proof.
  intros Hb HQ. unfold parse_records, require_len, check_parse_limit, require_exact_len.
  repeat lazymatch goal with
  | |- wp (parse_record_loop _ _ _ _ _ _) _ _ => fail
  | |- _ => ip_step
  end; try done.
  assert (u16 v) as Hv by auto. unfold u16 in Hv.
  apply (wp_parse_record_loop f); [done|len_lia|by constructor|]. intros rs o Hrs Hn.
  cbv beta iota. ip_step. ip_step; [|done]. simpl. apply HQ; [done|]. unfold len. simpl in Hn. lia.
Qed.

(** Every record of an accepted report is well-formed, of the report's address
    family, for a multicast group, with valid unicast sources, within limits. *)
Definition report_ok (limits : MembershipParseLimits) (r : MembershipReport) : Prop :=
  Forall (record_ok (family_of (rep_protocol r)) limits) (rep_records r) ∧
  len (rep_records r) <= Z.max 1 (max_records limits).

Lemma wp_validate_records rs (Q : unit → Prop) :
  (Forall (λ r, ip_is_multicast (rec_group r) = true) rs → Q tt) →
  wp (validate_records rs) Q (λ _, True).
Proof.
  revert Q; induction rs as [|r rs IH]; intros Q HQ; cbn; [by apply HQ|].
  apply wp_bind, validate_record_ok. intros Hm _. apply IH. intros. apply HQ. by constructor.
Qed.

Lemma legacy_record_ok f limits k ip :
  ip_wf ip → in_family f ip → ip_is_multicast ip = true →
  record_ok f limits (legacy_record k ip).
Proof.
  intros. unfold record_ok, record_wf; simpl. rewrite len_nil. split_and!; auto; lia.
Qed.

Lemma legacy_report_ok p limits k ip :
  ip_wf ip → in_family (family_of p) ip →
  Forall (λ r, ip_is_multicast (rec_group r) = true) [legacy_record k ip] →
  report_ok limits (mkReport p [legacy_record k ip]).
Proof.
  intros ? ? Hm. apply Forall_cons in Hm as [Hm _]. split; simpl.
  - constructor; [by apply legacy_record_ok|done].
  - rewrite len_cons, len_nil. lia.
Qed.

Lemma wp_read_ipv6 {E} bs offset (Q : Ipv6Addr → Prop) (R : E → Prop) :
  0 <= offset → offset + 16 <= len bs →
  (∀ a, (bytes bs → ipv6_wf a) → Q a) → wp (read_ipv6 bs offset) Q R.
Proof.
  intros ? ? HQ. unfold read_ipv6. apply wp_bind, wp_slice; [lia|lia|]. intros Hl.
  apply wp_ok, HQ. intros Hb. split; simpl; [lia|auto].
Qed.

Ltac report_step :=
  lazymatch goal with
  | |- wp (parse_records ?f _ _) _ _ => apply (wp_parse_records f); [by auto|intros ? ? ?]
  | |- wp (validate_records _) _ _ => apply wp_validate_records; intros ?
  | |- wp (read_ipv6 _ _) _ _ => apply wp_read_ipv6; [len_lia | len_lia | intros ? ?]
  | |- wp (has_ipv6_router_alert _) _ _ => apply wp_has_ipv6_router_alert; [by auto | intros ? ?]
  | |- _ => ip_step
  end.

Lemma parse_ipv4_membership_report_wp packet limits :
  bytes packet →
  wp (parse_ipv4_membership_report packet limits) (report_ok limits) (λ _, True).
Proof.
  intros Hb. unfold parse_ipv4_membership_report, igmp_message_records, require_len, require_exact_len, IPV4_MIN_HEADER_LEN,
    parse_igmpv3_records, read_ipv4.
  repeat report_step; try done.
  - apply legacy_report_ok; [simpl; auto|by eexists|done].
  - apply legacy_report_ok; [simpl; auto|by eexists|done].
  - split; simpl; [done|lia].
Qed.

Lemma parse_ipv6_membership_report_wp packet limits :
  bytes packet →
  wp (parse_ipv6_membership_report packet limits) (report_ok limits) (λ _, True).
Proof.
  intros Hb. unfold parse_ipv6_membership_report, mld_message_records, require_len, require_exact_len, IPV6_HEADER_LEN,
    parse_mldv2_records.
  assert (∀ b, b ∈ packet → 0 <= b) as Hnn.
  { intros b Hin. assert (u8 b) as [? _]; [|done]. revert b Hin. by apply Forall_forall. }
  repeat (report_step; try match goal with
    H : packet !! Z.to_nat (40 + 1) = Some ?n |- _ =>
      lazymatch goal with _ : 0 <= n |- _ => fail | _ =>
        assert (0 <= n) by (eapply Hnn, list_elem_of_lookup_2, H) end end); try done.
  - assert (u16 v) as Hv by auto. unfold u16 in Hv. lia.
  - apply legacy_report_ok; [simpl; auto|by eexists|done].
  - apply legacy_report_ok; [simpl; auto|by eexists|done].
  - split; simpl; [done|lia].
Qed.

Lemma parse_membership_report_with_limits_wp packet limits :
  bytes packet →
  wp (parse_membership_report_with_limits packet limits) (report_ok limits) (λ _, True).
Proof.
  intros Hb. unfold parse_membership_report_with_limits.
  apply wp_bind, wp_ok_or; [intros first Hf|done].
  destruct (_ =? 4); [by apply parse_ipv4_membership_report_wp|].
  destruct (_ =? 6); [by apply parse_ipv6_membership_report_wp|done].
Qed.

(** * Build and parse agree *)

Definition kind_byte (k : MembershipRecordKind) : Z :=
  match encode_record_kind k with Ok b => b | _ => 0 end.

Definition is_Ok_kind (k : MembershipRecordKind) : bool :=
  match encode_record_kind k with Ok _ => true | _ => false end.

(** The bytes of a record and of the record section. *)
Definition octets_of (f : family) (ip : IpAddr) : list Z := default [] (f_octets f ip).
Definition record_bytes (f : family) (r : MembershipRecord) : list Z :=
  [kind_byte (rec_kind r); 0] ++ u16_to_be (len (rec_sources r)) ++
  octets_of f (rec_group r) ++ (rec_sources r ≫= octets_of f).

(** A record the builder lets through. *)
Definition buildable (f : family) (r : MembershipRecord) : Prop :=
  record_wf r ∧ in_family f (rec_group r) ∧ Forall (in_family f) (rec_sources r) ∧
  is_Ok_kind (rec_kind r) = true ∧ len (rec_sources r) <= U16_MAX ∧
  ip_is_multicast (rec_group r) = true ∧
  existsb (bad_source (rec_group r)) (rec_sources r) = false.

Section build.
Context (f : family) `{!FamilyLaws f}.

Lemma octets_of_some ip : in_family f ip → f_octets f ip = Some (octets_of f ip).
Proof. intros [o Ho]. unfold octets_of. by rewrite Ho. Qed.

Lemma octets_of_len ip : ip_wf ip → in_family f ip → len (octets_of f ip) = f_addr_len f.
Proof. intros ? Hf. eapply f_octets_len; [done|by apply octets_of_some]. Qed.

Lemma len_bind_octets ss :
  Forall ip_wf ss → Forall (in_family f) ss → len (ss ≫= octets_of f) = len ss * f_addr_len f.
Proof.
  induction ss as [|s ss IH]; intros Hw Hf; [done|]. inversion Hw; inversion Hf; subst.
  rewrite bind_cons, len_app, len_cons, IH, octets_of_len by done. lia.
Qed.

Lemma len_record_bytes r :
  buildable f r → len (record_bytes f r) = 4 + f_addr_len f + len (rec_sources r) * f_addr_len f.
Proof.
  intros ([Hg Hs] & Hfg & Hfs & _). unfold record_bytes.
  rewrite !len_app, len_u16_to_be, octets_of_len, len_bind_octets by done.
  change (len [kind_byte (rec_kind r); 0]) with 2. lia.
Qed.

(** ** Writing *)

Lemma write_sources_spec E (pre zeros post : list Z) ss :
  Forall ip_wf ss → Forall (in_family f) ss → len zeros = len ss * f_addr_len f →
  write_sources (E:=E) f (pre ++ zeros ++ post) (len pre) ss =
  Ok (pre ++ (ss ≫= octets_of f) ++ post, len pre + len ss * f_addr_len f).
Proof.
  revert pre zeros; induction ss as [|s ss IH]; intros pre zeros Hw Hf Hz; cbn [write_sources].
  { rewrite (len_zero_nil zeros) by len_lia. do 2 f_equal. len_lia. }
  inversion Hw; inversion Hf; subst. pose proof f_addr_pos.
  rewrite octets_of_some by done. cbn [lift_option mbind res_bind].
  rewrite len_cons in Hz. destruct (split_option zeros (f_addr_len f)) as (z1 & z2 & -> & Hz1).
  { pose_len_nonneg. nia. }
  pose proof (octets_of_len s ltac:(done) ltac:(done)) as Ho. rewrite <- (assoc_L (++)).
  rewrite copy_at_app by (done || lia). cbn [mbind res_bind].
  replace (len pre + f_addr_len f) with (len (pre ++ octets_of f s)) by len_lia.
  rewrite (assoc_L (++) pre), IH by (try done; len_lia).
  rewrite bind_cons, <- !(assoc_L (++)). do 2 f_equal. len_lia.
Qed.

Lemma write_records_spec (pre zeros : list Z) rs :
  Forall (buildable f) rs → len zeros = len (rs ≫= record_bytes f) → Forall (eq 0) zeros →
  write_records f (pre ++ zeros) (len pre) rs = Ok (pre ++ (rs ≫= record_bytes f)).
Proof.
  revert pre zeros; induction rs as [|r rs IH]; intros pre zeros Hb Hz H0; cbn [write_records].
  { rewrite (len_zero_nil zeros) by len_lia. done. }
  inversion Hb as [|? ? Hr Hrs]; subst. rewrite bind_cons, len_app, (len_record_bytes r) in Hz by done.
  pose proof Hr as ([Hg Hs] & Hfg & Hfs & Hk & Hc & _). pose proof f_addr_pos.
  rewrite octets_of_some by done. cbn [lift_option mbind res_bind].
  unfold is_Ok_kind in Hk. destruct (encode_record_kind (rec_kind r)) as [kb| | |] eqn:Hkb; try done.
  cbn [mbind res_bind].
  destruct (split_option zeros 4) as (z1 & zeros' & -> & Hz1); [pose_len_nonneg; nia|].
  rewrite len_app in Hz.
  destruct (split_option zeros' (f_addr_len f)) as (z2 & zeros'' & -> & Hz2); [pose_len_nonneg; nia|].
  rewrite len_app in Hz.
  destruct (split_option zeros'' (len (rec_sources r) * f_addr_len f)) as (z3 & z4 & -> & Hz3);
    [pose_len_nonneg; nia|]. rewrite len_app in Hz.
  assert (∃ a c d, z1 = [a; 0; c; d]) as (a & c & d & ->).
  { destruct z1 as [|a [|b [|c [|d [|e z1]]]]]; unfold len in Hz1; simpl in Hz1; try lia.
    apply Forall_app in H0 as [H0 _]. inversion H0 as [|? ? ? H1]; inversion H1; subst. eauto. }
  cbn [app]. rewrite set_idx_app by done. cbn [mbind res_bind].
  change (pre ++ kb :: 0 :: c :: d :: ?l) with (pre ++ [kb; 0] ++ [c; d] ++ l).
  rewrite (assoc_L (++) pre), copy_at_app by (rewrite ?len_u16_to_be; len_lia).
  cbn [mbind res_bind]. set (n := u16_to_be _). rewrite (assoc_L (++) (pre ++ _)).
  pose proof (octets_of_len _ Hg Hfg) as Hog.
  rewrite copy_at_app by (subst n; rewrite ?len_app, ?len_u16_to_be; len_lia).
  cbn [mbind res_bind]. rewrite (assoc_L (++) _ (octets_of f (rec_group r))).
  set (pre' := (((pre ++ [kb; 0]) ++ n) ++ octets_of f (rec_group r))).
  replace (len pre + (4 + f_addr_len f)) with (len pre').
  2:{ unfold pre', n. rewrite !len_app, len_u16_to_be, Hog. change (len [kb; 0]) with 2. lia. }
  rewrite write_sources_spec by (done || lia). cbn [mbind res_bind].
  rewrite (assoc_L (++) pre').
  replace (len pre' + _) with (len (pre' ++ (rec_sources r ≫= octets_of f)))
    by (rewrite len_app, len_bind_octets by done; done).
  rewrite IH; [|done|len_lia|by repeat apply Forall_app in H0 as [_ H0]].
  rewrite bind_cons. unfold record_bytes, kind_byte, pre', n, as_u16. rewrite Hkb.
  rewrite Z.mod_small by (unfold U16_MAX in Hc; len_lia).
  by rewrite <- !(assoc_L (++)).
Qed.
(** ** Reading back *)

Lemma read_sources_spec E (pre post : list Z) ss :
  Forall ip_wf ss → Forall (in_family f) ss →
  read_sources (E:=E) f (pre ++ (ss ≫= octets_of f) ++ post) (len pre) (length ss) = Ok ss.
Proof.
  revert pre; induction ss as [|s ss IH]; intros pre Hw Hf; cbn [read_sources length]; [done|].
  inversion Hw; inversion Hf; subst. rewrite bind_cons, <- (assoc_L (++)).
  rewrite (f_read_octets E s) by (done || by apply octets_of_some). cbn [mbind res_bind].
  replace (len pre + f_addr_len f) with (len (pre ++ octets_of f s))
    by (rewrite len_app, octets_of_len by done; done).
  rewrite (assoc_L (++) pre), IH by done. done.
Qed.

Lemma validate_record_pass group ss :
  ip_is_multicast group = true → existsb (bad_source group) ss = false →
  validate_record group ss = Ok tt.
Proof. intros Hm He. unfold validate_record. by rewrite Hm, He. Qed.

Lemma record_kind_byte k : is_Ok_kind k = true → record_kind (kind_byte k) = Ok k.
Proof. by destruct k. Qed.

Lemma be16_at_app E (pre post : list Z) v i :
  u16 v → i = len pre → be16_at (E:=E) (pre ++ u16_to_be v ++ post) i = Ok v.
Proof.
  intros Hv ->. unfold be16_at. rewrite (idx_app_k pre _ (len pre) 0), (idx_app_k pre _ (len pre + 1) 1) by lia.
  simpl. by rewrite u16_from_be_to_be.
Qed.

Lemma parse_record_spec limits (pre post : list Z) r :
  buildable f r → len (rec_sources r) <= max_sources_per_record limits →
  parse_record f limits (pre ++ record_bytes f r ++ post) (len pre) =
  Ok (r, len (record_bytes f r)).
Proof.
  intros Hr Hlim. pose proof Hr as ([Hg Hs] & Hfg & Hfs & Hk & Hc & Hm & He).
  pose proof (len_record_bytes r Hr) as Hlr. pose proof f_addr_pos. pose_len_nonneg.
  set (bs := pre ++ record_bytes f r ++ post). unfold parse_record.
  assert (slice_from (E:=MembershipParseError) bs (len pre) = Ok (record_bytes f r ++ post)) as Hsf
    by (apply slice_from_app; done).
  assert (∀ n, n <= len (record_bytes f r) →
    require_len (f_record_context f) (record_bytes f r ++ post) n = Ok tt) as Hrl.
  { intros n Hn. unfold require_len. by rewrite (proj2 (Z.ltb_ge _ _)) by len_lia. }
  assert (be16_at (E:=MembershipParseError) bs (len pre + 2) = Ok (len (rec_sources r))) as Hbe.
  { unfold bs, record_bytes. rewrite <- !(assoc_L (++)), (assoc_L (++) pre).
    apply be16_at_app; [unfold u16, U16_MAX in *; len_lia|len_lia]. }
  assert (f_read f MembershipParseError bs (len pre + 4) = Ok (rec_group r)) as Hgr.
  { unfold bs, record_bytes. rewrite <- !(assoc_L (++)), !(assoc_L (++) pre), (assoc_L (++) (pre ++ _)).
    replace (len pre + 4) with
      (len ((pre ++ [kind_byte (rec_kind r); 0]) ++ u16_to_be (len (rec_sources r)))) by len_lia.
    apply f_read_octets; [done|by apply octets_of_some]. }
  assert (read_sources (E:=MembershipParseError) f bs (len pre + (4 + f_addr_len f))
            (Z.to_nat (len (rec_sources r))) = Ok (rec_sources r)) as Hrs.
  { replace (Z.to_nat _) with (length (rec_sources r)) by (unfold len; lia).
    unfold bs, record_bytes. rewrite <- !(assoc_L (++)), !(assoc_L (++) pre), !(assoc_L (++) (pre ++ _)),
      (assoc_L (++) ((pre ++ _) ++ _)).
    replace (len pre + _) with (len (((pre ++ [kind_byte (rec_kind r); 0])
       ++ u16_to_be (len (rec_sources r))) ++ octets_of f (rec_group r)))
      by (rewrite !len_app, octets_of_len, len_u16_to_be by done; change (len [_; _]) with 2; lia).
    by apply read_sources_spec. }
  assert (idx (E:=MembershipParseError) bs (len pre) = Ok (kind_byte (rec_kind r))) as Hi0
    by (unfold bs; by rewrite (idx_app_k pre _ _ 0) by lia).
  assert (idx (E:=MembershipParseError) bs (len pre + 1) = Ok 0) as Hi1
    by (unfold bs; by rewrite (idx_app_k pre _ _ 1) by lia).
  rewrite Hsf. cbn [mbind res_bind]. rewrite Hrl by nia. cbn [mbind res_bind].
  rewrite Hi0. cbn [mbind res_bind]. rewrite record_kind_byte by done. cbn [mbind res_bind].
  rewrite Hi1.
  cbn [mbind res_bind]. rewrite Hbe. cbn [mbind res_bind]. unfold check_parse_limit.
  rewrite (proj2 (Z.leb_le _ _)) by done. cbn [mbind res_bind]. rewrite Hgr.
  cbn [mbind res_bind]. rewrite Hrl by lia. cbn [mbind res_bind]. rewrite Hrs.
  cbn [mbind res_bind]. rewrite validate_record_pass by done. cbn [mbind res_bind].
  rewrite Hlr. destruct r; simpl. do 2 f_equal. lia.
Qed.

Lemma parse_record_loop_spec limits (pre : list Z) rs acc :
  Forall (buildable f) rs →
  Forall (λ r, len (rec_sources r) <= max_sources_per_record limits) rs →
  parse_record_loop f limits (pre ++ (rs ≫= record_bytes f)) (length rs) (len pre) acc =
  Ok (acc ++ rs, len (pre ++ (rs ≫= record_bytes f))).
Proof.
  revert pre acc; induction rs as [|r rs IH]; intros pre acc Hb Hl; cbn [parse_record_loop length].
  { simpl. by rewrite !(right_id_L [] (++)). }
  inversion Hb; inversion Hl; subst. rewrite bind_cons, parse_record_spec by done.
  cbn [mbind res_bind]. rewrite <- len_app, (assoc_L (++) pre), IH by done.
  by rewrite <- !(assoc_L (++)).
Qed.

Lemma len_records_ge rs :
  Forall (buildable f) rs → len rs * (4 + f_addr_len f) <= len (rs ≫= record_bytes f).
Proof.
  pose proof f_addr_pos. induction 1 as [|r rs Hr Hrs IH]; [done|].
  rewrite bind_cons, len_app, len_cons, (len_record_bytes r Hr). pose_len_nonneg. nia.
Qed.

Lemma parse_records_spec limits (pre : list Z) rs :
  len pre = 6 → Forall (buildable f) rs → len rs <= U16_MAX → len rs <= max_records limits →
  Forall (λ r, len (rec_sources r) <= max_sources_per_record limits) rs →
  parse_records f (pre ++ u16_to_be (len rs) ++ (rs ≫= record_bytes f)) limits = Ok rs.
Proof.
  intros Hpre Hb Hu Hm Hs. pose proof (len_records_ge rs Hb). pose proof f_addr_pos. pose_len_nonneg.
  unfold parse_records, require_len, check_parse_limit, require_exact_len, saturating_sub.
  rewrite be16_at_app by (try done; unfold u16, U16_MAX in *; lia).
  rewrite !len_app, len_u16_to_be, Hpre. rewrite (proj2 (Z.ltb_ge _ 8)) by lia. cbn [mbind res_bind].
  rewrite (proj2 (Z.leb_le _ _)) by lia. cbn [mbind res_bind].
  rewrite (proj2 (Z.ltb_ge _ _)) by (apply Z.div_le_lower_bound; lia).
  replace (Z.to_nat (len rs)) with (length rs) by (unfold len; lia).
  rewrite (assoc_L (++) pre). replace 8 with (len (pre ++ u16_to_be (len rs))) by len_lia.
  rewrite parse_record_loop_spec by done. cbn [mbind res_bind].
  rewrite (proj2 (Z.eqb_eq _ _)) by len_lia. done.
Qed.

Lemma validate_records_pass rs : Forall (buildable f) rs → validate_records rs = Ok tt.
Proof.
  induction 1 as [|r rs (?&?&?&?&?&Hm&He) Hrs IH]; cbn; [done|].
  by rewrite validate_record_pass.
Qed.
End build.

Lemma existsb_bad_source group ss :
  existsb (bad_source group) ss = false → Forall (λ s, same_family group s = true) ss.
Proof.
  intros He. apply Forall_forall. intros s Hs. destruct (bad_source group s) eqn:Hb.
  - assert (existsb (bad_source group) ss = true); [|congruence].
    apply existsb_exists. exists s. by rewrite <- list_elem_of_In.
  - unfold bad_source in Hb. zbool. done.
Qed.

(** What [validate_build_records] demands of a record, and of the report. *)
Definition record_fits (p : MembershipProtocol) (r : MembershipRecord) : bool :=
  is_Ok_kind (rec_kind r) && is_amt_forwardable_group (rec_group r) &&
  bool_decide (is_Some (f_octets (family_of p) (rec_group r))) &&
  (len (rec_sources r) <=? U16_MAX) && negb (existsb (bad_source (rec_group r)) (rec_sources r)).

Definition fixed_len (p : MembershipProtocol) : Z := match p with Igmpv3 => 32 | Mldv2 => 16 end.

Definition report_fits (p : MembershipProtocol) (rs : list MembershipRecord) : bool :=
  bool_decide (rs ≠ []) && (len rs <=? U16_MAX) && forallb (record_fits p) rs &&
  (fixed_len p + len (rs ≫= record_bytes (family_of p)) <=? U16_MAX).

Lemma family_match p ip :
  match p, ip with Igmpv3, V4 _ | Mldv2, V6 _ => Ok tt
  | _, _ => Err (ProtocolAddressFamilyMismatch p ip) end =
  if bool_decide (is_Some (f_octets (family_of p) ip)) then Ok tt else Err (ProtocolAddressFamilyMismatch p ip).
Proof. by destruct p, ip. Qed.

Lemma record_fits_buildable p r : record_wf r → record_fits p r = true → buildable (family_of p) r.
Proof.
  intros [Hg Hs] Hf. unfold record_fits in Hf.
  rewrite !andb_true_iff, negb_true_iff, Z.leb_le, bool_decide_eq_true in Hf. destruct Hf as ((((Hk & Hfw) & Hin) & Hn) & Hbad).
  assert (ip_is_multicast (rec_group r) = true) as Hmc by (destruct (rec_group r); simpl in *; zbool; done).
  pose proof (existsb_bad_source _ _ Hbad) as Hsame. unfold buildable, record_wf, in_family. split_and!; auto.
  eapply Forall_impl; [exact Hsame|]. intros s Hsf. destruct p, (rec_group r), s, Hin; simplify_eq/=; eauto.
Qed.

Lemma validate_build_loop_fits p rs :
  if forallb (record_fits p) rs then validate_build_loop p rs = Ok tt
  else ∃ e, validate_build_loop p rs = Err e.
Proof.
  induction rs as [|r rs IH]; cbn [validate_build_loop forallb]; [done|].
  rewrite family_match. unfold record_fits at 1, is_Ok_kind.
  destruct (encode_record_kind (rec_kind r)) as [kb| | |] eqn:Hk; cbn [mbind res_bind andb];
    [|by eexists|by destruct (rec_kind r)..].
  destruct (is_amt_forwardable_group _); cbn [negb andb]; [|by eexists].
  destruct (bool_decide _); cbn [mbind res_bind andb]; [|by eexists].
  rewrite Z.leb_antisym. destruct (_ <? _); cbn [negb andb]; [by eexists|].
  destruct (existsb _ _); cbn [negb andb]; [by eexists|done].
Qed.

Lemma wp_validate_build_records p rs (Q : unit → Prop) :
  Forall record_wf rs →
  (Forall (buildable (family_of p)) rs → 0 < len rs <= U16_MAX → Q tt) →
  wp (validate_build_records p rs) Q (λ _, report_fits p rs = false).
Proof.
  intros Hw HQ. unfold validate_build_records, report_fits. rewrite bool_decide_not.
  destruct (bool_decide (rs = [])) eqn:Hne; cbn [negb andb]; [done|]. apply bool_decide_eq_false in Hne.
  rewrite Z.leb_antisym. destruct (_ <? _) eqn:Hl; cbn [negb andb]; [done|]. zbool.
  pose proof (validate_build_loop_fits p rs) as Hv. destruct (forallb (record_fits p) rs) eqn:Hf.
  - rewrite Hv. apply HQ; [|destruct rs; [done|len_lia]]. apply Forall_forall. intros r Hr.
    rewrite Forall_forall in Hw. apply record_fits_buildable; [by apply Hw|].
    rewrite forallb_forall in Hf. by apply Hf, list_elem_of_In.
  - destruct Hv as [e ->]. done.
Qed.

Lemma wp_records_len f `{!FamilyLaws f} acc rs (Q : Z → Prop) :
  0 <= acc → Forall (buildable f) rs → (Q (acc + len (rs ≫= record_bytes f))) →
  wp (records_len f acc rs) Q (λ _, USIZE_MAX < acc + len (rs ≫= record_bytes f)).
Proof.
  intros Hacc Hb. revert acc Hacc; induction Hb as [|r rs Hr Hrs IH]; intros acc Hacc HQ; cbn [records_len].
  { simpl in *. by rewrite Z.add_0_r in HQ. }
  rewrite bind_cons, len_app, (len_record_bytes f r Hr) in HQ |- *. pose proof (f_addr_pos (f:=f)).
  assert (0 <= len (rec_sources r) * f_addr_len f) by (pose proof (len_nonneg (rec_sources r)); nia).
  pose proof (len_nonneg (rs ≫= record_bytes f)). destruct Hr as (_ & _ & _ & _ & Hcount & _).
  unfold checked_mul_sources, checked_mul, checked_add. rewrite (proj2 (Z.ltb_ge _ _)) by done.
  destruct (Z.leb_spec (len (rec_sources r) * f_addr_len f) USIZE_MAX); cbn [ok_or mbind res_bind wp]; [|lia].
  destruct (Z.leb_spec (acc + (4 + f_addr_len f + len (rec_sources r) * f_addr_len f)) USIZE_MAX);
    cbn [ok_or mbind res_bind wp]; [|lia].
  eapply wp_mono; [apply IH; [lia|]|done|intros; simpl in *; lia]. by rewrite <- Z.add_assoc.
Qed.

Lemma report_too_long p rs :
  U16_MAX < fixed_len p + len (rs ≫= record_bytes (family_of p)) → report_fits p rs = false.
Proof. intros H. unfold report_fits. by rewrite (proj2 (Z.leb_gt _ _) H), andb_false_r. Qed.

(** ** The packets built, written out *)

Definition igmp_report_body (rs : list MembershipRecord) (ck : list Z) : list Z :=
  [0x22; 0] ++ ck ++ [0; 0] ++ u16_to_be (len rs) ++ (rs ≫= record_bytes family_v4).

Definition igmp_report_header (total_len : Z) (ck : list Z) : list Z :=
  [0x46; 0xc0] ++ u16_to_be total_len ++ [0; 0; 0; 0; 1; 2] ++ ck ++
  [0; 0; 0; 0; 224; 0; 0; 22; 0x94; 4; 0; 0].

Definition igmp_report_packet (rs : list MembershipRecord) : list Z :=
  let body := igmp_report_body rs (u16_to_be (checksum (igmp_report_body rs [0; 0]))) in
  let total_len := 24 + len body in
  igmp_report_header total_len (u16_to_be (checksum (igmp_report_header total_len [0; 0]))) ++ body.

Lemma build_igmpv3_membership_report_wp rs :
  Forall record_wf rs →
  wp (build_igmpv3_membership_report rs)
    (λ packet, packet = igmp_report_packet rs ∧ len packet <= U16_MAX ∧
       Forall (buildable family_v4) rs ∧ 0 < len rs <= U16_MAX) (λ _, report_fits Igmpv3 rs = false).
Proof.
  intros Hw. unfold build_igmpv3_membership_report.
  apply wp_bind, wp_validate_build_records; [done|]. cbn [family_of]. intros Hb Hlen.
  apply wp_bind. eapply wp_mono; [apply (wp_records_len family_v4 0 rs (eq (0 + len (rs ≫= record_bytes family_v4)))); [lia|done|reflexivity]| |];
    [|intros e He; apply report_too_long; cbn [family_of fixed_len]; unfold USIZE_MAX, U16_MAX in *; lia].
  intros ? <-. rewrite Z.add_0_l. set (n := len _). assert (0 <= n) by (unfold n; len_lia). unfold IPV4_ROUTER_ALERT_HEADER_LEN.
  destruct (U16_MAX <? _) eqn:Hu; [apply report_too_long; cbn [family_of fixed_len]; zbool; fold n; unfold U16_MAX in *; lia|].
  zbool. unfold U16_MAX in *.
  replace (Z.to_nat (24 + (8 + n))) with (32 + Z.to_nat n)%nat by lia. rewrite replicate_add.
  assert (len (replicate (Z.to_nat n) 0) = n) as Hz by len_lia.
  assert (Forall (eq 0) (replicate (Z.to_nat n) 0)) as Hz0 by by apply Forall_replicate.
  set (zeros := replicate (Z.to_nat n) 0) in *. clearbody zeros. simpl.
  unfold with_tail. simpl. unfold as_u16.
  rewrite (Z.mod_small (24 + (8 + n))), (Z.mod_small (len rs)) by lia.
  set (pre := [34; 0; 0; 0; 0; 0; len rs / 256; len rs mod 256]).
  change (write_records family_v4 _ 8 rs) with (write_records family_v4 (pre ++ zeros) (len pre) rs).
  rewrite (write_records_spec family_v4 pre zeros rs) by done. simpl.
  split; [|split; [|done]].
  - unfold igmp_report_packet.
    replace (24 + len (igmp_report_body rs _)) with (24 + (8 + n))
      by (unfold igmp_report_body, n; len_lia). reflexivity.
  - unfold n in *. len_lia.
Qed.

Definition mld_report_body (rs : list MembershipRecord) (ck : list Z) : list Z :=
  [143; 0] ++ ck ++ [0; 0] ++ u16_to_be (len rs) ++ (rs ≫= record_bytes family_v6).

Definition mld_report_checksum (rs : list MembershipRecord) : Z :=
  icmpv6_checksum (v6_octets Ipv6_UNSPECIFIED) (v6_octets MLDV2_REPORT_DESTINATION) 58
    (mld_report_body rs [0; 0]).

Definition mld_report_header (payload_len : Z) : list Z :=
  [0x60; 0; 0; 0] ++ u16_to_be payload_len ++ [0; 1] ++ v6_octets Ipv6_UNSPECIFIED ++
  v6_octets MLDV2_REPORT_DESTINATION ++ [58; 0; 5; 2; 0; 0; 1; 0].

Definition mld_report_packet (rs : list MembershipRecord) : list Z :=
  let body := mld_report_body rs (u16_to_be (mld_report_checksum rs)) in
  mld_report_header (8 + len body) ++ body.

Lemma build_mldv2_membership_report_wp rs :
  Forall record_wf rs →
  wp (build_mldv2_membership_report rs)
    (λ packet, packet = mld_report_packet rs ∧ len packet <= 40 + U16_MAX ∧
       Forall (buildable family_v6) rs ∧ 0 < len rs <= U16_MAX) (λ _, report_fits Mldv2 rs = false).
Proof.
  intros Hw. unfold build_mldv2_membership_report.
  apply wp_bind, wp_validate_build_records; [done|]. cbn [family_of]. intros Hb Hlen.
  apply wp_bind. eapply wp_mono; [apply (wp_records_len family_v6 0 rs (eq (0 + len (rs ≫= record_bytes family_v6)))); [lia|done|reflexivity]| |];
    [|intros e He; apply report_too_long; cbn [family_of fixed_len]; unfold USIZE_MAX, U16_MAX in *; lia].
  intros ? <-. rewrite Z.add_0_l. set (n := len _). assert (0 <= n) by (unfold n; len_lia). unfold IPV6_HEADER_LEN, MIPV6_HOP_BY_HOP_LEN.
  destruct (U16_MAX <? _) eqn:Hu; [apply report_too_long; cbn [family_of fixed_len]; zbool; fold n; unfold U16_MAX in *; lia|].
  zbool. unfold U16_MAX in *.
  replace (Z.to_nat (40 + (8 + (8 + n)))) with (56 + Z.to_nat n)%nat by lia. rewrite replicate_add.
  assert (len (replicate (Z.to_nat n) 0) = n) as Hz by len_lia.
  assert (Forall (eq 0) (replicate (Z.to_nat n) 0)) as Hz0 by by apply Forall_replicate.
  set (zeros := replicate (Z.to_nat n) 0) in *. clearbody zeros. simpl.
  unfold with_tail. simpl. unfold as_u16.
  rewrite (Z.mod_small (8 + (8 + n))), (Z.mod_small (len rs)) by lia.
  set (pre := [143; 0; 0; 0; 0; 0; len rs / 256; len rs mod 256]).
  change (write_records family_v6 _ 8 rs) with (write_records family_v6 (pre ++ zeros) (len pre) rs).
  rewrite (write_records_spec family_v6 pre zeros rs) by done. simpl.
  split; [|split; [|done]].
  - unfold mld_report_packet, mld_report_checksum.
    replace (8 + len (mld_report_body rs _)) with (8 + (8 + n))
      by (unfold mld_report_body, n; len_lia).
    generalize icmpv6_checksum as cks. reflexivity.
  - unfold n in *. len_lia.
Qed.

Lemma bytes_records f `{!FamilyLaws f} rs :
  Forall (buildable f) rs → bytes (rs ≫= record_bytes f).
Proof.
  induction 1 as [|r rs ([Hg Hs] & Hfg & Hfs & Hk & Hc & _) Hrs IH]; [constructor|].
  rewrite bind_cons. apply bytes_app; split; [|done].
  assert (∀ ip, ip_wf ip → in_family f ip → bytes (octets_of f ip)) as Ho
    by (intros; eapply f_octets_bytes; [done|by apply octets_of_some]).
  unfold record_bytes. repeat (apply bytes_app; split).
  - apply bytes_cons; split; [|apply (bytes_zeros 1)]. destruct (rec_kind r); unfold u8; cbn; lia.
  - apply bytes_u16_to_be. unfold u16, U16_MAX in *. len_lia.
  - auto.
  - clear - Hs Hfs Ho. induction Hs; inversion Hfs; subst; [constructor|].
    rewrite bind_cons. apply bytes_app; auto.
Qed.

Lemma bytes_igmp_report_body rs ck :
  Forall (buildable family_v4) rs → len rs <= U16_MAX → bytes ck → bytes (igmp_report_body rs ck).
Proof.
  intros Hb ? ?. pose proof (bytes_records family_v4 rs Hb). unfold igmp_report_body.
  assert (u16 (len rs)) by (unfold u16, U16_MAX in *; len_lia). bytes_solve.
Qed.

Lemma bytes_mld_report_body rs ck :
  Forall (buildable family_v6) rs → len rs <= U16_MAX → bytes ck → bytes (mld_report_body rs ck).
Proof.
  intros Hb ? ?. pose proof (bytes_records family_v6 rs Hb). unfold mld_report_body.
  assert (u16 (len rs)) by (unfold u16, U16_MAX in *; len_lia). bytes_solve.
Qed.

Lemma igmp_report_body_verifies rs :
  Forall (buildable family_v4) rs → len rs <= U16_MAX →
  ones_complement_sum (igmp_report_body rs (u16_to_be (checksum (igmp_report_body rs [0; 0])))) = 65535.
Proof.
  intros Hb Hl. pose proof (bytes_igmp_report_body rs [] Hb Hl ltac:(constructor)) as Hby.
  unfold igmp_report_body in *. apply bytes_app in Hby as [_ Hby].
  apply checksum_verifies; [bytes_solve|done|done].
Qed.

Lemma igmp_report_header_verifies n :
  u16 n →
  ones_complement_sum (igmp_report_header n (u16_to_be (checksum (igmp_report_header n [0; 0])))) = 65535.
Proof.
  intros Hn. unfold igmp_report_header.
  apply (checksum_verifies ([0x46; 0xc0] ++ u16_to_be n ++ [0; 0; 0; 0; 1; 2])
    [0; 0; 0; 0; 224; 0; 0; 22; 0x94; 4; 0; 0]); [bytes_solve|bytes_solve|done].
Qed.

Lemma parse_igmp_report_packet limits rs pad :
  Forall (buildable family_v4) rs → 0 < len rs <= U16_MAX →
  len (igmp_report_packet rs) <= U16_MAX → len rs <= max_records limits →
  Forall (λ r, len (rec_sources r) <= max_sources_per_record limits) rs →
  parse_membership_report_with_limits (igmp_report_packet rs ++ pad) limits = Ok (mkReport Igmpv3 rs).
Proof.
  intros Hb Hl Hp Hm Hs. pose proof (igmp_report_body_verifies rs Hb ltac:(lia)) as Hvb.
  unfold igmp_report_packet in *. set (b := igmp_report_body rs _) in *.
  assert (len (igmp_report_header (24 + len b) (u16_to_be (checksum (igmp_report_header (24 + len b) [0; 0])))) = 24)
    as Hlh by done.
  assert (8 <= len b) as Hlb by (unfold b, igmp_report_body; len_lia).
  rewrite len_app, Hlh in Hp.
  pose proof (igmp_report_header_verifies (24 + len b) ltac:(unfold u16, U16_MAX in *; lia)) as Hvh.
  set (h := igmp_report_header _ _) in *. set (packet := (h ++ b) ++ pad).
  assert (len packet = 24 + len b + len pad) as Hlp by (unfold packet; len_lia).
  unfold parse_membership_report_with_limits.
  change (head packet) with (Some 0x46). cbn [ok_or mbind res_bind].
  change (Z.shiftr 0x46 4 =? 4) with true. cbv iota.
  unfold parse_ipv4_membership_report, require_len. rewrite Hlp.
  rewrite (proj2 (Z.ltb_ge _ IPV4_MIN_HEADER_LEN)) by (unfold IPV4_MIN_HEADER_LEN; len_lia).
  cbn [mbind res_bind]. change (idx packet 0) with (Ok 0x46 : res MembershipParseError Z).
  cbn [mbind res_bind]. change (Z.land 0x46 0x0f * 4) with 24. res_simpl.
  rewrite (proj2 (Z.ltb_ge _ 24)) by len_lia. cbn [mbind res_bind].
  assert (be16_at (E:=MembershipParseError) packet 2 = Ok (24 + len b)) as ->.
  { unfold packet, h, igmp_report_header. rewrite <- !(assoc_L (++)).
    apply be16_at_app; [unfold u16, U16_MAX in *; lia|done]. }
  cbn [mbind res_bind]. rewrite (proj2 (Z.ltb_ge (24 + len b) 24)), (proj2 (Z.ltb_ge (24 + len b + len pad) _))
    by len_lia. cbn [orb].
  assert (slice (E:=MembershipParseError) packet 24 (24 + len b) = Ok b) as Hslb.
  { unfold packet. rewrite <- (assoc_L (++)). apply slice_app; lia. }
  assert (igmp_message_records b IGMPV3_REPORT_DESTINATION limits = Ok rs) as Hrec.
  { transitivity (parse_igmpv3_records b limits); [reflexivity|].
    unfold b, igmp_report_body. rewrite (assoc_L (++)), (assoc_L (++) (_ ++ _)).
    apply (parse_records_spec family_v4); (done || lia). }
  transitivity (if negb (ones_complement_sum h =? 0xffff) then Err (InvalidChecksum "IPv4 header") else
    igmp ← slice packet 24 (24 + len b);
    _ ← require_len "IGMP message" igmp 8;
    if negb (ones_complement_sum igmp =? 0xffff) then Err (InvalidChecksum "IGMP") else
    records ← igmp_message_records igmp IGMPV3_REPORT_DESTINATION limits;
    _ ← validate_records records;
    Ok (mkReport Igmpv3 records)); [reflexivity|].
  rewrite Hvh, Hslb. cbn [mbind res_bind]. unfold require_len. rewrite (proj2 (Z.ltb_ge (len b) 8)) by lia.
  cbn [mbind res_bind]. rewrite Hvb. cbn [Z.eqb Pos.eqb negb]. rewrite Hrec. cbn [mbind res_bind].
  by rewrite (validate_records_pass family_v4).
Qed.

Lemma MLDV2_REPORT_DESTINATION_wf : ipv6_wf MLDV2_REPORT_DESTINATION.
Proof. split; [done|]. decide_ok. Qed.

(** The ICMPv6 checksum over the pseudo-header verifies after being filled in. *)
Lemma mld_report_body_verifies rs :
  Forall (buildable family_v6) rs → len rs <= U16_MAX →
  icmpv6_checksum (v6_octets Ipv6_UNSPECIFIED) (v6_octets MLDV2_REPORT_DESTINATION) 58
    (mld_report_body rs (u16_to_be (mld_report_checksum rs))) = 0.
Proof.
  intros Hb Hl. pose proof (bytes_mld_report_body rs [] Hb Hl ltac:(constructor)) as Hby.
  unfold mld_report_checksum, mld_report_body in *. apply bytes_app in Hby as [_ Hby].
  apply icmpv6_checksum_verifies; try done; [apply bytes_zeros|apply MLDV2_REPORT_DESTINATION_wf|bytes_solve].
Qed.

Lemma parse_mld_report_packet limits rs pad :
  Forall (buildable family_v6) rs → 0 < len rs <= U16_MAX →
  len (mld_report_packet rs) <= 40 + U16_MAX → len rs <= max_records limits →
  Forall (λ r, len (rec_sources r) <= max_sources_per_record limits) rs →
  parse_membership_report_with_limits (mld_report_packet rs ++ pad) limits = Ok (mkReport Mldv2 rs).
Proof.
  intros Hb Hl Hp Hm Hs. pose proof (mld_report_body_verifies rs Hb ltac:(lia)) as Hvb.
  unfold mld_report_packet in *. set (b := mld_report_body rs _) in *.
  assert (8 <= len b) as Hlb by (unfold b, mld_report_body; len_lia).
  rewrite len_app in Hp. change (len (mld_report_header _)) with 48 in Hp.
  set (h := mld_report_header _) in *. set (packet := (h ++ b) ++ pad).
  assert (len h = 48) as Hlh by done.
  assert (len packet = 48 + len b + len pad) as Hlp by (unfold packet; len_lia).
  unfold parse_membership_report_with_limits.
  change (head packet) with (Some 0x60). cbn [ok_or mbind res_bind].
  change (Z.shiftr 0x60 4 =? 4) with false. change (Z.shiftr 0x60 4 =? 6) with true. cbv iota.
  unfold parse_ipv6_membership_report, require_len, IPV6_HEADER_LEN. rewrite Hlp.
  rewrite (proj2 (Z.ltb_ge _ 40)) by len_lia. cbn [mbind res_bind].
  assert (be16_at (E:=MembershipParseError) packet 4 = Ok (8 + len b)) as ->.
  { unfold packet, h, mld_report_header. rewrite <- !(assoc_L (++)).
    apply be16_at_app; [unfold u16, U16_MAX in *; lia|done]. }
  cbn [mbind res_bind]. rewrite (proj2 (Z.ltb_ge (48 + len b + len pad) _)) by len_lia.
  assert (slice (E:=MembershipParseError) packet 40 (40 + (8 + len b)) =
          Ok ([58; 0; 5; 2; 0; 0; 1; 0] ++ b)) as Hext.
  { transitivity (slice (E:=MembershipParseError) (take 40 h ++ ([58; 0; 5; 2; 0; 0; 1; 0] ++ b) ++ pad)
                    40 (40 + (8 + len b))); [|by apply slice_app; [done|len_lia]].
    unfold packet. by rewrite <- !(assoc_L (++)). }
  assert (slice (E:=MembershipParseError) packet 48 (40 + (8 + len b)) = Ok b) as Hslb.
  { unfold packet. rewrite <- (assoc_L (++)). apply slice_app; lia. }
  assert (mld_message_records b MLDV2_REPORT_DESTINATION limits = Ok rs) as Hrec.
  { transitivity (parse_mldv2_records b limits); [reflexivity|].
    unfold b, mld_report_body. rewrite (assoc_L (++)), (assoc_L (++) (_ ++ _)).
    apply (parse_records_spec family_v6); (done || lia). }
  transitivity (
    ext ← slice packet 40 (40 + (8 + len b));
    _ ← (if len ext <? 8 then Err (MTruncated "IPv6 hop-by-hop header" 8 (len ext)) else Ok tt);
    ext ← slice packet 40 (40 + (8 + len b));
    _ ← (if len ext <? 8 then Err (MTruncated "IPv6 hop-by-hop header" 8 (len ext)) else Ok tt);
    icmp ← slice packet 48 (40 + (8 + len b));
    _ ← require_len "MLD message" icmp 8;
    if negb (icmpv6_checksum (v6_octets Ipv6_UNSPECIFIED) (v6_octets MLDV2_REPORT_DESTINATION) 58 icmp =? 0)
    then Err (InvalidChecksum "ICMPv6") else
    records ← mld_message_records icmp MLDV2_REPORT_DESTINATION limits;
    _ ← validate_records records;
    Ok (mkReport Mldv2 records)).
  { change (idx packet 7) with (Ok 1 : res MembershipParseError Z). cbn [mbind res_bind Z.eqb Pos.eqb negb].
    change (read_ipv6 (E:=MembershipParseError) packet 8) with (Ok Ipv6_UNSPECIFIED : res MembershipParseError Ipv6Addr).
    change (read_ipv6 (E:=MembershipParseError) packet 24) with (Ok MLDV2_REPORT_DESTINATION : res MembershipParseError Ipv6Addr).
    cbn [mbind res_bind]. change (idx packet 6) with (Ok 0 : res MembershipParseError Z). cbn [mbind res_bind].
    change (v6_is_multicast Ipv6_UNSPECIFIED) with false. cbv iota.
    change (0 =? IPV6_HOP_BY_HOP) with true. cbv iota.
    change (idx packet 40) with (Ok 58 : res MembershipParseError Z).
    change (idx packet (40 + 1)) with (Ok 0 : res MembershipParseError Z).
    rewrite Hext. cbn [mbind res_bind]. rewrite (proj2 (Z.ltb_ge (len (_ ++ b)) 8)) by len_lia.
    cbn [mbind res_bind]. change ((0 + 1) * 8) with 8. rewrite (proj2 (Z.ltb_ge (len (_ ++ b)) 8)) by len_lia.
    cbn [mbind res_bind]. generalize icmpv6_checksum as cks. reflexivity. }
  rewrite Hext. cbn [mbind res_bind]. rewrite (len_app _ b). change (len [58; 0; 5; 2; 0; 0; 1; 0]) with 8.
  rewrite (proj2 (Z.ltb_ge (8 + len b) 8)) by lia. cbn [mbind res_bind].
  rewrite Hslb. cbn [mbind res_bind]. unfold require_len. rewrite (proj2 (Z.ltb_ge (len b) 8)) by lia.
  cbn [mbind res_bind]. rewrite Hvb. cbn [Z.eqb negb]. rewrite Hrec. cbn [mbind res_bind].
  by rewrite (validate_records_pass family_v6).
Qed.

Lemma bytes_igmp_report_packet rs :
  Forall (buildable family_v4) rs → len rs <= U16_MAX → len (igmp_report_packet rs) <= U16_MAX →
  bytes (igmp_report_packet rs).
Proof.
  intros Hb Hl Hp. assert (∀ n ck, u16 n → bytes ck → bytes (igmp_report_header n ck)) as Hh
    by (intros; unfold igmp_report_header; bytes_solve).
  unfold igmp_report_packet in *. set (b := igmp_report_body rs _) in *.
  rewrite len_app in Hp. change (len (igmp_report_header _ _)) with 24 in Hp. pose proof (len_nonneg b).
  assert (u16 (24 + len b)) as Hn by (unfold u16, U16_MAX in *; lia).
  apply bytes_app. split.
  - apply Hh; [done|]. apply bytes_u16_to_be, checksum_u16, Hh; [done|apply (bytes_zeros 2)].
  - apply bytes_igmp_report_body; try done. apply bytes_u16_to_be, checksum_u16, bytes_igmp_report_body; try done.
    apply (bytes_zeros 2).
Qed.

Lemma bytes_mld_report_packet rs :
  Forall (buildable family_v6) rs → len rs <= U16_MAX → len (mld_report_packet rs) <= 40 + U16_MAX →
  bytes (mld_report_packet rs).
Proof.
  intros Hb Hl Hp. unfold mld_report_packet in *. set (b := mld_report_body rs _) in *.
  rewrite len_app in Hp. change (len (mld_report_header _)) with 48 in Hp. pose proof (len_nonneg b).
  assert (bytes (v6_octets MLDV2_REPORT_DESTINATION)) as Hd by apply MLDV2_REPORT_DESTINATION_wf.
  assert (bytes (v6_octets Ipv6_UNSPECIFIED)) as Hu by apply (bytes_zeros 16).
  apply bytes_app. split.
  - unfold mld_report_header. assert (u16 (8 + len b)) by (unfold u16, U16_MAX in *; lia). bytes_solve.
  - apply bytes_mld_report_body; try done. apply bytes_u16_to_be, icmpv6_checksum_u16; try done.
    apply bytes_mld_report_body; try done. apply (bytes_zeros 2).
Qed.

(** The outcome of a successful build, for both protocols. *)
Lemma build_membership_report_wp report :
  report_wf report →
  wp (build_membership_report report)
    (λ packet, bytes packet ∧ ∀ limits pad,
       len (rep_records report) <= max_records limits →
       Forall (λ r, len (rec_sources r) <= max_sources_per_record limits) (rep_records report) →
       parse_membership_report_with_limits (packet ++ pad) limits = Ok report)
    (λ _, report_fits (rep_protocol report) (rep_records report) = false).
Proof.
  destruct report as [[] rs]; unfold report_wf, build_membership_report; simpl; intros Hw.
  - eapply wp_mono; [by apply build_igmpv3_membership_report_wp| |done].
    intros packet (-> & ? & ? & ? & ?). split; [by apply bytes_igmp_report_packet|].
    intros limits pad ? ?. by apply parse_igmp_report_packet.
  - eapply wp_mono; [by apply build_mldv2_membership_report_wp| |done].
    intros packet (-> & ? & ? & ? & ?). split; [by apply bytes_mld_report_packet|].
    intros limits pad ? ?. by apply parse_mld_report_packet.
Qed.

(** * Properties *)

(** Parsing a membership report (IGMPv2/v3 or MLDv1/v2 in an IP packet)
    comes back from every input without an out-of-bounds access, and a report
    that is accepted respects the limits: at most [max_records] records with at
    most [max_sources_per_record] sources each, every group a multicast address
    and every source a valid one of the report's family. *)
Theorem report_parse_safe packet limits :
  bytes packet →
  returns (parse_membership_report_with_limits packet limits) ∧
  ∀ report, parse_membership_report_with_limits packet limits = Ok report → report_ok limits report.
Proof.
  intros Hb. pose proof (parse_membership_report_with_limits_wp packet limits Hb) as H.
  split; [by eapply wp_returns|]. intros report. by apply wp_ok_inv with (1 := H).
Qed.

Lemma report_parse_safe_witness : returns (parse_membership_report_with_limits [0x46; 0; 0; 40; 0] default_parse_limits).
Proof. apply (report_parse_safe [0x46; 0; 0; 40; 0] default_parse_limits). decide_ok. Defined.

(** C26: Building the packet of a membership report never panics; it is refused
    only when the report does not fit the wire format (no record or more than
    65535, a legacy record kind, a group that may not be forwarded or of the
    other family, a source that is not a unicast address of the family, more
    than 65535 bytes); and the packet parses back to the report, whatever bytes
    follow it, under every limit the report respects. *)
Theorem report_roundtrip report :
  report_wf report →
  wp (build_membership_report report)
    (λ packet, bytes packet ∧ ∀ limits pad,
       len (rep_records report) <= max_records limits →
       Forall (λ r, len (rec_sources r) <= max_sources_per_record limits) (rep_records report) →
       parse_membership_report_with_limits (packet ++ pad) limits = Ok report)
    (λ _, report_fits (rep_protocol report) (rep_records report) = false).
Proof. apply build_membership_report_wp. Qed.

Definition sample_report : MembershipReport :=
  mkReport Igmpv3
    [mkRecord AllowNewSources (V4 (mkIpv4 232 1 1 1)) [V4 (mkIpv4 198 51 100 1); V4 (mkIpv4 198 51 100 2)];
     mkRecord ChangeToExclude (V4 (mkIpv4 233 252 0 1)) []].

Lemma report_roundtrip_witness :
  ∃ packet, build_membership_report sample_report = Ok packet ∧
    parse_membership_report_with_limits (packet ++ [0; 0]) default_parse_limits = Ok sample_report.
Proof.
  assert (report_wf sample_report) as Hw by decide_ok.
  destruct (build_membership_report sample_report) as [packet|e| |] eqn:Hb; [|vm_compute in Hb; discriminate..].
  exists packet. split; [done|]. pose proof (report_roundtrip sample_report Hw) as H. rewrite Hb in H.
  apply H; decide_ok.
Defined.
