(* ===== verification/State.v ===== *)
(** [src/state.rs]: the relay's membership state.

    [RelayState] keeps the per-endpoint interests (what each gateway asked for)
    and four indexes derived from them: the forwarding table, the aggregate
    interest per group, the upstream subscriptions and the resource totals.
    Every mutation ends in [rebuild_indexes]; the invariant [state_ok] says the
    indexes are always the ones derived from the endpoints. *)

From S2P Require Import Prelude Net Protocol Membership.

(** * Data *)

Inductive FilterMode := Include | Exclude.

Record GroupInterest := mkInterest { gi_mode : FilterMode; gi_sources : gset IpAddr }.

Definition include (sources : list IpAddr) : GroupInterest :=
  mkInterest Include (list_to_set sources).
Definition exclude (sources : list IpAddr) : GroupInterest :=
  mkInterest Exclude (list_to_set sources).

Definition wants_source (interest : GroupInterest) (source : IpAddr) : bool :=
  match gi_mode interest with
  | Include => bool_decide (source ∈ gi_sources interest)
  | Exclude => negb (bool_decide (source ∈ gi_sources interest))
  end.

Record UpstreamSubscription := mkSubscription {
  us_group : IpAddr;
  us_source : option IpAddr
}.

Definition asm (group : IpAddr) : UpstreamSubscription := mkSubscription group None.
Definition ssm (group source : IpAddr) : UpstreamSubscription := mkSubscription group (Some source).

Record RelayLimits := mkRelayLimits {
  max_endpoints : Z;
  max_endpoints_per_ip : Z;
  max_groups_per_endpoint : Z;
  max_sources_per_group : Z;
  max_total_endpoint_groups : Z;
  max_total_sources : Z;
  max_upstream_subscriptions : Z;
  max_records_per_report : Z
}.

Definition default_relay_limits : RelayLimits :=
  mkRelayLimits 4096 256 128 128 16384 65536 256 512.

Record StateLimitError := mkLimitError {
  le_resource : string;
  le_requested : Z;
  le_limit : Z
}.

Record EndpointState := mkEndpoint { es_groups : gmap IpAddr GroupInterest }.

Record GroupSummary := mkSummary {
  include_sources : gset IpAddr;
  exclude_sources : option (gset IpAddr)
}.

#[export] Instance FilterMode_eq_dec : EqDecision FilterMode.
Proof. solve_decision. Defined.
#[export] Instance GroupInterest_eq_dec : EqDecision GroupInterest.
Proof. solve_decision. Defined.
#[export] Instance UpstreamSubscription_eq_dec : EqDecision UpstreamSubscription.
Proof. solve_decision. Defined.
#[export] Instance StateLimitError_eq_dec : EqDecision StateLimitError.
Proof. solve_decision. Defined.
#[export] Instance EndpointState_eq_dec : EqDecision EndpointState.
Proof. solve_decision. Defined.

(** The derived order of [UpstreamSubscription]: group first, [None] before
    [Some]. *)
Definition subscription_key (s : UpstreamSubscription) : IpAddr * list IpAddr :=
  (us_group s, match us_source s with None => [] | Some source => [source] end).

Lemma subscription_key_inj a b : subscription_key a = subscription_key b → a = b.
Proof. destruct a as [? []], b as [? []]; unfold subscription_key; simpl; congruence. Qed.

#[export] Instance UpstreamSubscription_ord : RustOrd UpstreamSubscription :=
  inj_ord subscription_key subscription_key_inj.
#[export] Instance UpstreamSubscription_countable : Countable UpstreamSubscription.
Proof.
  refine (inj_countable' (λ s, (us_group s, us_source s)) (λ '(g, s), mkSubscription g s) _).
  by intros [].
Defined.

Record RelayState := mkState {
  endpoints : gmap SocketAddr EndpointState;
  forwarding : gmap IpAddr (gset SocketAddr);
  aggregate : gmap IpAddr GroupInterest;
  subscriptions : gset UpstreamSubscription;
  total_endpoint_groups : Z;
  total_sources : Z
}.

#[export] Instance RelayState_eq_dec : EqDecision RelayState.
Proof. solve_decision. Defined.

(** [RelayState::default()]. *)
Definition empty_state : RelayState := mkState ∅ ∅ ∅ ∅ 0 0.

(** [.len()] of a map and of a set. *)
Definition map_len `{Countable K} {V} (m : gmap K V) : Z := Z.of_nat (size m).
Definition set_len `{Countable K} (s : gset K) : Z := Z.of_nat (size s).

(** * Applying a membership record to one endpoint *)

(** [for source in &record.sources { set.remove(source); }]. *)
Definition remove_all (sources : list IpAddr) (set : gset IpAddr) : gset IpAddr :=
  foldl (λ set source, set ∖ {[source]}) set sources.

(** [set.extend(sources)]. *)
Definition extend (set : gset IpAddr) (sources : list IpAddr) : gset IpAddr :=
  foldl (λ set source, {[source]} ∪ set) set sources.

Definition is_empty {A} (l : list A) : bool := match l with [] => true | _ => false end.

(** The groups after [record], or [None] on the early [return false]. *)
Definition updated_groups (gs : gmap IpAddr GroupInterest) (record : MembershipRecord) :
    option (gmap IpAddr GroupInterest) :=
  let group := rec_group record in
  let sources := rec_sources record in
  match rec_kind record with
  | LegacyReport => Some (<[group := exclude []]> gs)
  | LegacyLeave => Some (delete group gs)
  | ModeIsInclude | ChangeToInclude =>
      Some (if is_empty sources then delete group gs else <[group := include sources]> gs)
  | ModeIsExclude | ChangeToExclude => Some (<[group := exclude sources]> gs)
  | AllowNewSources =>
      if is_empty sources then None
      else
        let interest := default (include []) (gs !! group) in
        Some (<[group :=
          match gi_mode interest with
          | Include => mkInterest Include (extend (gi_sources interest) sources)
          | Exclude => mkInterest Exclude (remove_all sources (gi_sources interest))
          end]> gs)
  | BlockOldSources =>
      if is_empty sources then None
      else
        match gs !! group with
        | None => Some gs
        | Some interest =>
            match gi_mode interest with
            | Include =>
                let rest := remove_all sources (gi_sources interest) in
                Some (if bool_decide (rest = ∅) then delete group gs
                      else <[group := mkInterest Include rest]> gs)
            | Exclude =>
                Some (<[group := mkInterest Exclude (extend (gi_sources interest) sources)]> gs)
            end
        end
  end.

Definition apply_record (st : EndpointState) (record : MembershipRecord) : EndpointState * bool :=
  let before := es_groups st !! rec_group record in
  match updated_groups (es_groups st) record with
  | None => (st, false)
  | Some gs => (mkEndpoint gs, negb (bool_decide (before = gs !! rec_group record)))
  end.

(** The loop over [report.records], counting the records that took effect. *)
Fixpoint apply_records (st : EndpointState) (applied : Z) (records : list MembershipRecord) :
    EndpointState * Z :=
  match records with
  | [] => (st, applied)
  | record :: records =>
      let '(st, changed) := apply_record st record in
      apply_records st (if changed then applied + 1 else applied) records
  end.

(** * Derived indexes *)

(** [GroupSummary::apply]. *)
Definition summary_apply (summary : GroupSummary) (interest : GroupInterest) : GroupSummary :=
  match gi_mode interest with
  | Include => mkSummary (include_sources summary ∪ gi_sources interest) (exclude_sources summary)
  | Exclude =>
      mkSummary (include_sources summary)
        (match exclude_sources summary with
         | Some ex => Some (filter (λ source, source ∈ gi_sources interest) ex)
         | None => Some (gi_sources interest)
         end)
  end.

Definition into_interest (summary : GroupSummary) : option GroupInterest :=
  match exclude_sources summary with
  | Some ex => Some (mkInterest Exclude (remove_all (bset_iter (include_sources summary)) ex))
  | None =>
      if negb (bool_decide (include_sources summary = ∅))
      then Some (mkInterest Include (include_sources summary)) else None
  end.

Definition default_summary : GroupSummary := mkSummary ∅ None.

(** [f(m.entry(k).or_insert(d))]. *)
Definition entry_update `{Countable K} {V} (d : V) (k : K) (f : V → V) (m : gmap K V) : gmap K V :=
  <[k := f (default d (m !! k))]> m.

(** The variables the loops of [rebuild_indexes] update. *)
Record Indexes := mkIndexes {
  ix_forwarding : gmap IpAddr (gset SocketAddr);
  ix_endpoint_groups : Z;
  ix_sources : Z;
  ix_groups : gmap IpAddr GroupSummary
}.

(** [for (group, interest) in &state.groups]. *)
Definition index_group (endpoint : SocketAddr) (ix : Indexes) (entry : IpAddr * GroupInterest) :
    Indexes :=
  mkIndexes
    (entry_update ∅ entry.1 (λ es, {[endpoint]} ∪ es) (ix_forwarding ix))
    (ix_endpoint_groups ix)
    (ix_sources ix + set_len (gi_sources entry.2))
    (entry_update default_summary entry.1 (λ s, summary_apply s entry.2) (ix_groups ix)).

(** [for (endpoint, state) in &self.endpoints]. *)
Definition index_endpoint (ix : Indexes) (entry : SocketAddr * EndpointState) : Indexes :=
  foldl (index_group entry.1)
    (mkIndexes (ix_forwarding ix) (ix_endpoint_groups ix + map_len (es_groups entry.2))
       (ix_sources ix) (ix_groups ix))
    (btree_iter (es_groups entry.2)).

(** [for (group, interest) in &self.aggregate]. *)
Definition subscribe (subs : gset UpstreamSubscription) (entry : IpAddr * GroupInterest) :
    gset UpstreamSubscription :=
  match gi_mode entry.2 with
  | Exclude => {[asm entry.1]} ∪ subs
  | Include => foldl (λ subs source, {[ssm entry.1 source]} ∪ subs) subs (bset_iter (gi_sources entry.2))
  end.

Definition rebuild_indexes (st : RelayState) : RelayState :=
  let ix := foldl index_endpoint (mkIndexes ∅ 0 0 ∅) (btree_iter (endpoints st)) in
  let aggregate : gmap IpAddr GroupInterest :=
    list_to_map (omap (λ '(group, summary), pair group <$> into_interest summary)
                   (btree_iter (ix_groups ix))) in
  mkState (endpoints st) (ix_forwarding ix) aggregate
    (foldl subscribe ∅ (btree_iter aggregate))
    (ix_endpoint_groups ix) (ix_sources ix).

(** * Operations *)

Definition with_endpoints (st : RelayState) (es : gmap SocketAddr EndpointState) : RelayState :=
  mkState es (forwarding st) (aggregate st) (subscriptions st)
    (total_endpoint_groups st) (total_sources st).

Definition default_endpoint : EndpointState := mkEndpoint ∅.

Definition preview_report (st : RelayState) (endpoint : SocketAddr) (report : MembershipReport) :
    Z * bool :=
  if is_empty (rep_records report) then (0, false)
  else
    let current := endpoints st !! endpoint in
    let '(candidate, applied) :=
      apply_records (default default_endpoint current) 0 (rep_records report) in
    let changed :=
      if bool_decide (es_groups candidate = ∅) then bool_decide (is_Some current)
      else negb (bool_decide (current = Some candidate)) in
    (applied, changed).

Definition apply_report (st : RelayState) (endpoint : SocketAddr) (report : MembershipReport) :
    RelayState * Z :=
  if is_empty (rep_records report) then (st, 0)
  else
    let '(endpoint_state, applied) :=
      apply_records (default default_endpoint (endpoints st !! endpoint)) 0 (rep_records report) in
    let es := <[endpoint := endpoint_state]> (endpoints st) in
    let es := if bool_decide (es_groups endpoint_state = ∅) then delete endpoint es else es in
    (rebuild_indexes (with_endpoints st es), applied).

Definition check_limit (resource : string) (requested limit : Z) : res StateLimitError unit :=
  if requested <=? limit then Ok tt else Err (mkLimitError resource requested limit).

Fixpoint check_record_sources (records : list MembershipRecord) (limit : Z) :
    res StateLimitError unit :=
  match records with
  | [] => Ok tt
  | record :: records =>
      _ ← check_limit "sources per group" (len (rec_sources record)) limit;
      check_record_sources records limit
  end.

Definition endpoint_count_for_ip (st : RelayState) (address : IpAddr) : Z :=
  len (filter (λ endpoint, sock_ip endpoint = address) (btree_keys (endpoints st))).

(** The largest source set of an endpoint's groups, 0 when there is none. *)
Definition max_group_sources (endpoint_state : option EndpointState) : Z :=
  match endpoint_state with
  | None => 0
  | Some state => foldr Z.max 0 ((λ entry, set_len (gi_sources entry.2)) <$> btree_iter (es_groups state))
  end.

(** The limits checked on the state after the report was applied. *)
Definition check_state_limits (st : RelayState) (endpoint : SocketAddr) (limits : RelayLimits) :
    res StateLimitError unit :=
  let endpoint_state := endpoints st !! endpoint in
  _ ← check_limit "endpoints" (map_len (endpoints st)) (max_endpoints limits);
  _ ← check_limit "endpoints per source IP" (endpoint_count_for_ip st (sock_ip endpoint))
        (max_endpoints_per_ip limits);
  _ ← check_limit "groups per endpoint"
        (match endpoint_state with None => 0 | Some state => map_len (es_groups state) end)
        (max_groups_per_endpoint limits);
  _ ← check_limit "sources per endpoint group" (max_group_sources endpoint_state)
        (max_sources_per_group limits);
  _ ← check_limit "total endpoint groups" (total_endpoint_groups st)
        (max_total_endpoint_groups limits);
  _ ← check_limit "total sources" (total_sources st) (max_total_sources limits);
  check_limit "upstream subscriptions" (set_len (subscriptions st))
    (max_upstream_subscriptions limits).

(** Returns the state together with the result: the error path leaves a state
    behind as well. *)
Definition apply_report_limited (st : RelayState) (endpoint : SocketAddr)
    (report : MembershipReport) (limits : RelayLimits) : RelayState * res StateLimitError Z :=
  match (_ ← check_limit "records per report" (len (rep_records report)) (max_records_per_report limits);
         check_record_sources (rep_records report) (max_sources_per_group limits)) with
  | Ok _ =>
      let previous := endpoints st !! endpoint in
      let '(st', applied) := apply_report st endpoint report in
      match check_state_limits st' endpoint limits with
      | Err error =>
          let es :=
            match previous with
            | Some previous => <[endpoint := previous]> (endpoints st')
            | None => delete endpoint (endpoints st')
            end in
          (rebuild_indexes (with_endpoints st' es), Err error)
      | Ok _ => (st', Ok applied)
      | Panic => (st', Panic)
      | Diverge => (st', Diverge)
      end
  | Err error => (st, Err error)
  | Panic => (st, Panic)
  | Diverge => (st, Diverge)
  end.

Definition remove_endpoint (st : RelayState) (endpoint : SocketAddr) : RelayState * bool :=
  let removed := bool_decide (is_Some (endpoints st !! endpoint)) in
  let st := with_endpoints st (delete endpoint (endpoints st)) in
  (if removed then rebuild_indexes st else st, removed).

Definition contains_endpoint (st : RelayState) (endpoint : SocketAddr) : bool :=
  bool_decide (is_Some (endpoints st !! endpoint)).

Definition endpoint_count (st : RelayState) : Z := map_len (endpoints st).

Definition near_limit (value limit : Z) : bool :=
  negb (limit =? 0) && (limit - limit / 10 <=? value).

Definition is_ip_near_endpoint_limit (st : RelayState) (address : IpAddr) (limit : Z) : bool :=
  near_limit (endpoint_count_for_ip st address) limit.

Definition endpoint_interest (st : RelayState) (endpoint : SocketAddr) (group : IpAddr) :
    option GroupInterest :=
  state ← endpoints st !! endpoint; es_groups state !! group.

Definition endpoint_has_interests (st : RelayState) (endpoint : SocketAddr) : bool :=
  match endpoints st !! endpoint with
  | Some state => negb (bool_decide (es_groups state = ∅))
  | None => false
  end.

(** [o.is_some_and(f)]. *)
Definition is_some_and {A} (f : A → bool) (o : option A) : bool :=
  match o with Some a => f a | None => false end.

Definition matching_endpoints (st : RelayState) (source group : IpAddr) : list SocketAddr :=
  match forwarding st !! group with
  | None => []
  | Some es =>
      omap (λ endpoint,
        if is_some_and (λ interest, wants_source interest source) (endpoint_interest st endpoint group)
        then Some endpoint else None) (bset_iter es)
  end.

Definition endpoints_for_packet (st : RelayState) (source group : IpAddr) : list SocketAddr :=
  matching_endpoints st source group.

Definition upstream_subscriptions (st : RelayState) : list UpstreamSubscription :=
  bset_iter (subscriptions st).

Definition has_ssm_interest (st : RelayState) (source group : IpAddr) : bool :=
  is_some_and (λ es,
    existsb (λ endpoint,
      is_some_and (λ interest,
          bool_decide (gi_mode interest = Include) && bool_decide (source ∈ gi_sources interest))
        (endpoint_interest st endpoint group)) (bset_iter es))
    (forwarding st !! group).

Definition aggregate_interests (st : RelayState) : gmap IpAddr GroupInterest := aggregate st.

Definition is_near_limits (st : RelayState) (limits : RelayLimits) : bool :=
  near_limit (map_len (endpoints st)) (max_endpoints limits)
  || near_limit (total_endpoint_groups st) (max_total_endpoint_groups limits)
  || near_limit (total_sources st) (max_total_sources limits)
  || near_limit (set_len (subscriptions st)) (max_upstream_subscriptions limits).

(** * Source-set semantics of a record

    The meaning of an endpoint's state for one group is the set of sources it
    wants; RFC 3376 section 5.1 / RFC 3810 section 6.1 give each record kind as
    an operation on that set. *)

Definition wants_group (gs : gmap IpAddr GroupInterest) (group source : IpAddr) : bool :=
  is_some_and (λ interest, wants_source interest source) (gs !! group).

Definition record_effect (kind : MembershipRecordKind) (sources : list IpAddr)
    (wanted : IpAddr → bool) (source : IpAddr) : bool :=
  match kind with
  | LegacyReport => true
  | LegacyLeave => false
  | ModeIsInclude | ChangeToInclude => bool_decide (source ∈ sources)
  | ModeIsExclude | ChangeToExclude => negb (bool_decide (source ∈ sources))
  | AllowNewSources => wanted source || bool_decide (source ∈ sources)
  | BlockOldSources => wanted source && negb (bool_decide (source ∈ sources))
  end.

(** ** Sets built by loops *)

Lemma remove_all_spec sources (X : gset IpAddr) : remove_all sources X = X ∖ list_to_set sources.
Proof. unfold remove_all. revert X. induction sources; intros X; simpl; [|rewrite IHsources]; set_solver. Qed.

Lemma extend_spec sources (X : gset IpAddr) : extend X sources = X ∪ list_to_set sources.
Proof. unfold extend. revert X. induction sources; intros X; simpl; [|rewrite IHsources]; set_solver. Qed.

Lemma is_empty_true {A} (l : list A) : is_empty l = true ↔ l = [].
Proof. by destruct l. Qed.
Lemma is_empty_false {A} (l : list A) : is_empty l = false ↔ l ≠ [].
Proof. by destruct l. Qed.

Lemma wants_source_include X s : wants_source (mkInterest Include X) s = bool_decide (s ∈ X).
Proof. done. Qed.
Lemma wants_source_exclude X s : wants_source (mkInterest Exclude X) s = bool_decide (s ∉ X).
Proof. unfold wants_source; simpl. by rewrite bool_decide_not. Qed.

Create Rewrite HintDb amt_sets.
#[export] Hint Rewrite remove_all_spec extend_spec wants_source_include wants_source_exclude : amt_sets.

(** Decide a boolean equation between membership tests. *)
Ltac set_bool :=
  autorewrite with amt_sets;
  repeat case_bool_decide; simpl; try done; exfalso; set_solver.

(** ** The endpoint invariant: an INCLUDE interest names at least one source. *)

Definition interest_ok (interest : GroupInterest) : Prop :=
  gi_mode interest = Include → gi_sources interest ≠ ∅.
Definition groups_ok (gs : gmap IpAddr GroupInterest) : Prop := map_Forall (λ _, interest_ok) gs.

#[export] Instance interest_ok_dec i : Decision (interest_ok i).
Proof. unfold interest_ok. apply _. Defined.
#[export] Instance groups_ok_dec gs : Decision (groups_ok gs).
Proof. unfold groups_ok. apply _. Defined.

Lemma list_to_set_nonempty (l : list IpAddr) : l ≠ [] → (list_to_set l : gset IpAddr) ≠ ∅.
Proof. destruct l; [done|]. set_solver. Qed.

Lemma updated_groups_ok gs record gs' :
  groups_ok gs → updated_groups gs record = Some gs' → groups_ok gs'.
Proof.
  intros Hok. assert (∀ g, groups_ok (delete g gs)) as Hdel by (intros; by apply map_Forall_delete).
  assert (∀ g i, interest_ok i → groups_ok (<[g := i]> gs)) as Hins
    by (intros; by apply map_Forall_insert_2).
  destruct record as [kind group sources]; unfold updated_groups; simpl.
  destruct kind; intros; simplify_eq; auto; try (by apply Hins).
  - destruct (is_empty sources) eqn:He; auto. apply Hins. intros _. by apply list_to_set_nonempty, is_empty_false.
  - destruct (is_empty sources) eqn:He; auto. apply Hins. intros _. by apply list_to_set_nonempty, is_empty_false.
  - destruct (is_empty sources) eqn:He; simplify_eq. apply is_empty_false, list_to_set_nonempty in He.
    apply Hins. destruct (gi_mode _); [|done]. intros _; simpl. rewrite extend_spec. set_solver.
  - destruct (is_empty sources) eqn:He; simplify_eq. destruct (gs !! group) as [i|]; simplify_eq; [|done].
    destruct (gi_mode i); simplify_eq; [|by apply Hins]. case_bool_decide; [by apply Hdel|]. apply Hins. by intros _.
Qed.

(** What a record does to the interest in its own group. *)
Lemma updated_groups_same gs record gs' source :
  updated_groups gs record = Some gs' →
  wants_group gs' (rec_group record) source =
  record_effect (rec_kind record) (rec_sources record)
    (wants_group gs (rec_group record)) source.
Proof.
  destruct record as [kind group sources]; unfold updated_groups, wants_group; simpl.
  destruct kind; simpl; intros; simplify_eq.
  - destruct (is_empty sources) eqn:He.
    + apply is_empty_true in He as ->. rewrite lookup_delete_eq. simpl. set_bool.
    + rewrite lookup_insert_eq. unfold include. simpl. set_bool.
  - rewrite lookup_insert_eq. unfold exclude. simpl. set_bool.
  - destruct (is_empty sources) eqn:He.
    + apply is_empty_true in He as ->. rewrite lookup_delete_eq. simpl. set_bool.
    + rewrite lookup_insert_eq. unfold include. simpl. set_bool.
  - rewrite lookup_insert_eq. unfold exclude. simpl. set_bool.
  - destruct (is_empty sources); simplify_eq. rewrite lookup_insert_eq.
    destruct (gs !! group) as [[[] X]|]; simpl; set_bool.
  - destruct (is_empty sources); simplify_eq. destruct (gs !! group) as [[[] X]|] eqn:Hg; simplify_eq/=.
    + autorewrite with amt_sets. case_bool_decide.
      * rewrite lookup_delete_eq. simpl. set_bool.
      * rewrite lookup_insert_eq. simpl. set_bool.
    + rewrite lookup_insert_eq. simpl. set_bool.
    + by rewrite Hg.
  - rewrite lookup_insert_eq. simpl. unfold exclude. set_bool.
  - by rewrite lookup_delete_eq.
Qed.

(** A record leaves the other groups alone. *)
Lemma updated_groups_other gs record gs' group :
  updated_groups gs record = Some gs' → group ≠ rec_group record → gs' !! group = gs !! group.
Proof.
  destruct record as [kind rgroup sources]; unfold updated_groups; simpl; intros Hu Hne.
  destruct kind, (is_empty sources); simplify_eq;
    try (by rewrite lookup_delete_ne); try (by rewrite lookup_insert_ne).
  destruct (gs !! rgroup) as [i|]; simplify_eq; [|done].
  destruct (gi_mode i); simplify_eq; [|by rewrite lookup_insert_ne].
  case_bool_decide; [by rewrite lookup_delete_ne|by rewrite lookup_insert_ne].
Qed.

(** The early return of ALLOW and BLOCK records without sources is what the
    record means. *)
Lemma updated_groups_none gs record wanted source :
  updated_groups gs record = None →
  record_effect (rec_kind record) (rec_sources record) wanted source = wanted source.
Proof.
  destruct record as [kind group [|s sources]]; unfold updated_groups; simpl;
    destruct kind; try done; simpl.
  - intros _. by rewrite orb_false_r.
  - intros _. by rewrite andb_true_r.
  - by destruct (gs !! group) as [[[] ?]|].
Qed.

Lemma apply_record_ok st record : groups_ok (es_groups st) → groups_ok (es_groups (apply_record st record).1).
Proof.
  intros Hok. unfold apply_record. destruct (updated_groups _ _) eqn:Hu; [|done]. simpl.
  by eapply updated_groups_ok.
Qed.

Lemma apply_record_wants st record group source :
  wants_group (es_groups (apply_record st record).1) group source =
  if decide (group = rec_group record)
  then record_effect (rec_kind record) (rec_sources record) (wants_group (es_groups st) group) source
  else wants_group (es_groups st) group source.
Proof.
  unfold apply_record. destruct (updated_groups _ _) eqn:Hu; simpl; case_decide as Hg; subst.
  - by apply updated_groups_same.
  - unfold wants_group. by erewrite updated_groups_other.
  - by erewrite updated_groups_none.
  - done.
Qed.

Lemma apply_record_flag st record :
  (apply_record st record).2 = negb (bool_decide ((apply_record st record).1 = st)).
Proof.
  destruct st as [gs]. unfold apply_record; simpl. destruct (updated_groups gs record) as [gs'|] eqn:Hu; simpl;
    [|by rewrite bool_decide_eq_true_2].
  f_equal. apply bool_decide_ext. split; [|by intros [= ->]].
  intros Heq. f_equal. apply map_eq. intros g.
  destruct (decide (g = rec_group record)) as [->|Hne]; [done|]. by eapply updated_groups_other.
Qed.

(** * What [rebuild_indexes] computes *)

Lemma foldl_proj {A B X} (p : A → B) (f : A → X → A) (h : B → X → B) l a :
  (∀ a x, p (f a x) = h (p a) x) → p (foldl f a l) = foldl h (p a) l.
Proof. intros Hp. revert a. induction l as [|x l IH]; intros a; simpl; [done|]. by rewrite IH, Hp. Qed.

Lemma list_to_map_btree_iter `{Countable K, !RustOrd K} {V} (m : gmap K V) :
  list_to_map (btree_iter m) = m.
Proof.
  rewrite <- (list_to_map_to_list m) at 2. apply list_to_map_proper, btree_iter_perm.
  apply NoDup_btree_keys.
Qed.

(** A loop of [entry(k).or_default()] updates over the entries of a map. *)
Lemma foldl_entry_btree `{Countable K, !RustOrd K} {V X} (d : V) (f : V → X → V) (gs : gmap K X) m k :
  foldl (λ m e, entry_update d e.1 (λ v, f v e.2) m) m (btree_iter gs) !! k =
  match gs !! k with None => m !! k | Some x => Some (f (default d (m !! k)) x) end.
Proof.
  rewrite <- (list_to_map_btree_iter gs) at 2. pose proof (NoDup_btree_keys gs) as Hnd.
  unfold btree_keys in Hnd. revert m. induction (btree_iter gs) as [|[k' x] l IH]; intros m; simpl; [done|].
  inversion Hnd as [|?? Hni Hnd']; subst. rewrite IH by done. unfold entry_update; simpl.
  destruct (decide (k = k')) as [->|Hne].
  - rewrite lookup_insert_eq, not_elem_of_list_to_map_1 by done. by rewrite lookup_insert_eq.
  - by rewrite !lookup_insert_ne.
Qed.

(** The interests in [group] and the endpoints that hold them, in the order
    the loop meets them. *)
Definition interests (group : IpAddr) (L : list (SocketAddr * EndpointState)) : list GroupInterest :=
  omap (λ p, es_groups p.2 !! group) L.
Definition members (group : IpAddr) (L : list (SocketAddr * EndpointState)) : list SocketAddr :=
  omap (λ p, match es_groups p.2 !! group with Some _ => Some p.1 | None => None end) L.

Lemma ix_groups_index_endpoint ix p g :
  ix_groups (index_endpoint ix p) !! g =
  match es_groups p.2 !! g with
  | None => ix_groups ix !! g
  | Some i => Some (summary_apply (default default_summary (ix_groups ix !! g)) i)
  end.
Proof.
  unfold index_endpoint.
  erewrite (foldl_proj ix_groups _ (λ m e, entry_update default_summary e.1 (λ v, summary_apply v e.2) m)) by done.
  apply (foldl_entry_btree default_summary summary_apply).
Qed.

Lemma ix_forwarding_index_endpoint ix p g :
  ix_forwarding (index_endpoint ix p) !! g =
  match es_groups p.2 !! g with
  | None => ix_forwarding ix !! g
  | Some _ => Some ({[p.1]} ∪ default ∅ (ix_forwarding ix !! g))
  end.
Proof.
  unfold index_endpoint.
  erewrite (foldl_proj ix_forwarding _ (λ m e, entry_update ∅ e.1 (λ v, {[p.1]} ∪ v) m)) by done.
  apply (foldl_entry_btree ∅ (λ v (_ : GroupInterest), {[p.1]} ∪ v)).
Qed.

Lemma ix_groups_spec L ix g :
  ix_groups (foldl index_endpoint ix L) !! g =
  match interests g L with
  | [] => ix_groups ix !! g
  | ints => Some (foldl summary_apply (default default_summary (ix_groups ix !! g)) ints)
  end.
Proof.
  revert ix. induction L as [|p L IH]; intros ix; simpl; [done|].
  rewrite IH, ix_groups_index_endpoint. fold (interests g L).
  destruct (es_groups p.2 !! g); simpl; [|done]. by destruct (interests g L).
Qed.

Lemma ix_forwarding_spec L ix g :
  ix_forwarding (foldl index_endpoint ix L) !! g =
  match members g L with
  | [] => ix_forwarding ix !! g
  | es => Some (list_to_set es ∪ default ∅ (ix_forwarding ix !! g))
  end.
Proof.
  revert ix. induction L as [|p L IH]; intros ix; simpl; [done|].
  rewrite IH, ix_forwarding_index_endpoint. fold (members g L).
  destruct (es_groups p.2 !! g); simpl; [|done].
  destruct (members g L); simpl; f_equal; set_solver.
Qed.

(** ** Summaries *)

Lemma summary_include_spec ints x :
  x ∈ include_sources (foldl summary_apply default_summary ints) ↔
  ∃ i, i ∈ ints ∧ gi_mode i = Include ∧ x ∈ gi_sources i.
Proof.
  induction ints as [|i ints IH] using rev_ind; simpl; [set_solver|].
  rewrite foldl_app; simpl. unfold summary_apply at 1. setoid_rewrite elem_of_app.
  setoid_rewrite list_elem_of_singleton.
  destruct (gi_mode i) eqn:Hm; simpl; rewrite ?elem_of_union, IH; naive_solver congruence.
Qed.

Lemma summary_exclude_spec ints :
  match exclude_sources (foldl summary_apply default_summary ints) with
  | None => ∀ i, i ∈ ints → gi_mode i = Include
  | Some X => (∃ i, i ∈ ints ∧ gi_mode i = Exclude) ∧
              (∀ x, x ∈ X ↔ ∀ i, i ∈ ints → gi_mode i = Exclude → x ∈ gi_sources i)
  end.
Proof.
  induction ints as [|i ints IH] using rev_ind; simpl; [set_solver|].
  rewrite foldl_app; simpl. unfold summary_apply at 1.
  destruct (gi_mode i) eqn:Hm; simpl; destruct (exclude_sources _) as [X|];
    setoid_rewrite elem_of_app; setoid_rewrite list_elem_of_singleton.
  - destruct IH as [(j & ? & ?) IH]. split; [eauto|]. intros x. rewrite IH. naive_solver congruence.
  - naive_solver.
  - destruct IH as [(j & ? & ?) IH]. split; [eauto|]. intros x. rewrite elem_of_filter, IH. naive_solver.
  - split; [eauto|]. intros x. split; [|naive_solver]. intros Hx j [Hj| ->] Hmj; [|done].
    apply IH in Hj. congruence.
Qed.

(** Merging interests is taking the union of the wanted sources. *)
Lemma into_interest_wants ints source :
  is_some_and (λ i, wants_source i source) (into_interest (foldl summary_apply default_summary ints)) = true ↔
  ∃ i, i ∈ ints ∧ wants_source i source = true.
Proof.
  pose proof (summary_include_spec ints) as Hin. pose proof (summary_exclude_spec ints) as Hex.
  destruct (foldl _ _ _) as [inc [X|]]; simpl in *; unfold into_interest; simpl.
  - rewrite wants_source_exclude, bool_decide_eq_true, remove_all_spec, elem_of_difference, elem_of_list_to_set,
      elem_of_bset_iter, Hin. destruct Hex as [_ Hex]. rewrite Hex. split.
    + intros Hn. destruct (decide (Exists (λ i, wants_source i source = true) ints)) as [He|He].
      { by apply Exists_exists in He. }
      apply not_Exists_Forall in He; [|solve_decision]. rewrite Forall_forall in He. destruct Hn. split.
      * intros [m Y] Hi Hm; simpl in *; subst. apply He in Hi. unfold wants_source in Hi; simpl in Hi.
        by case_bool_decide.
      * intros ([m Y] & Hi & Hm & Hs); simpl in *; subst. apply He in Hi. unfold wants_source in Hi; simpl in Hi.
        by rewrite bool_decide_eq_true_2 in Hi.
    + intros ([[] Y] & Hi & Hw) [Hall Hno]; unfold wants_source in Hw; simpl in Hw.
      * apply bool_decide_eq_true in Hw. apply Hno. eauto.
      * specialize (Hall _ Hi eq_refl). simpl in Hall. by rewrite bool_decide_eq_true_2 in Hw.
  - transitivity (source ∈ inc).
    { case_bool_decide; simpl; [|by rewrite wants_source_include, bool_decide_eq_true]. set_solver. }
    rewrite Hin. split; intros ([m Y] & Hi & H); exists (mkInterest m Y); (split; [done|]); simpl in *.
    + destruct H as [-> ?]. by rewrite wants_source_include, bool_decide_eq_true.
    + specialize (Hex _ Hi). simpl in Hex; subst. split; [done|].
      by rewrite wants_source_include, bool_decide_eq_true in H.
Qed.

(** The merged mode is EXCLUDE as soon as one interest is. *)
Lemma into_interest_mode ints i :
  into_interest (foldl summary_apply default_summary ints) = Some i →
  (gi_mode i = Exclude ↔ ∃ j, j ∈ ints ∧ gi_mode j = Exclude) ∧ interest_ok i.
Proof.
  pose proof (summary_exclude_spec ints) as Hex. unfold into_interest.
  destruct (exclude_sources _) as [X|]; intros; simplify_eq/=.
  - split; [|by intros ?]. naive_solver.
  - case_bool_decide; simplify_eq/=. split; [|by intros _]. split; [done|].
    intros (j & Hj & Hm). apply Hex in Hj. congruence.
Qed.

Lemma into_interest_some ints :
  ints ≠ [] → Forall interest_ok ints → is_Some (into_interest (foldl summary_apply default_summary ints)).
Proof.
  intros Hne Hok. pose proof (summary_include_spec ints) as Hin. pose proof (summary_exclude_spec ints) as Hex.
  unfold into_interest. destruct (exclude_sources _) as [X|]; [eauto|].
  case_bool_decide as He; simpl; [|eauto]. destruct ints as [|i ints]; [done|].
  apply Forall_cons in Hok as [Hi _]. assert (gi_mode i = Include) as Hm by (apply Hex; set_solver).
  destruct (set_choose_L _ (Hi Hm)) as [x Hx]. exfalso. assert (x ∈ (∅ : gset IpAddr)); [|set_solver].
  rewrite <- He. apply Hin. exists i. set_solver.
Qed.

(** ** The indexes of a rebuilt state *)

Definition wants (st : RelayState) (endpoint : SocketAddr) (group source : IpAddr) : bool :=
  is_some_and (λ interest, wants_source interest source) (endpoint_interest st endpoint group).

Definition aggregate_wants (st : RelayState) (group source : IpAddr) : bool :=
  wants_group (aggregate st) group source.

Lemma endpoint_interest_some st e g i :
  endpoint_interest st e g = Some i ↔ ∃ es, endpoints st !! e = Some es ∧ es_groups es !! g = Some i.
Proof. unfold endpoint_interest. by rewrite bind_Some. Qed.

Lemma elem_of_interests st g i :
  i ∈ interests g (btree_iter (endpoints st)) ↔ ∃ e, endpoint_interest st e g = Some i.
Proof.
  unfold interests. rewrite list_elem_of_omap. setoid_rewrite endpoint_interest_some. split.
  - intros ([e es] & Hin & Hg). apply elem_of_btree_iter in Hin. eauto.
  - intros (e & es & He & Hg). exists (e, es). by rewrite elem_of_btree_iter.
Qed.

Lemma elem_of_members st g e :
  e ∈ members g (btree_iter (endpoints st)) ↔ is_Some (endpoint_interest st e g).
Proof.
  unfold members, is_Some. rewrite list_elem_of_omap. setoid_rewrite endpoint_interest_some. split.
  - intros ([e' es] & Hin & Hg). apply elem_of_btree_iter in Hin. simpl in Hg.
    destruct (es_groups es !! g) eqn:?; simplify_eq. eauto.
  - intros (i & es & He & Hg). exists (e, es). rewrite elem_of_btree_iter. simpl. by rewrite Hg.
Qed.

Lemma forwarding_rebuild st g e :
  e ∈ default ∅ (forwarding (rebuild_indexes st) !! g) ↔ is_Some (endpoint_interest st e g).
Proof.
  unfold rebuild_indexes; simpl. rewrite <- elem_of_members, ix_forwarding_spec. simpl. rewrite lookup_empty.
  destruct (members _ _) eqn:Hm; simpl; set_solver.
Qed.

Lemma list_to_map_omap_btree `{Countable K, !RustOrd K} {V W} (f : V → option W) (m : gmap K V) k :
  (list_to_map (omap (λ '(k, v), pair k <$> f v) (btree_iter m)) : gmap K W) !! k = m !! k ≫= f.
Proof.
  transitivity ((list_to_map (btree_iter m) : gmap K V) !! k ≫= f); [|by rewrite list_to_map_btree_iter]. pose proof (NoDup_btree_keys m) as Hnd. unfold btree_keys in Hnd.
  induction (btree_iter m) as [|[k' v] l IH]; simpl; [by rewrite !lookup_empty|].
  inversion Hnd as [|?? Hni Hnd']; subst. specialize (IH Hnd'). destruct (decide (k = k')) as [->|Hne].
  - rewrite lookup_insert_eq; simpl. destruct (f v); simpl; [by rewrite lookup_insert_eq|].
    etransitivity; [apply IH|]. by rewrite not_elem_of_list_to_map_1.
  - rewrite lookup_insert_ne by done. destruct (f v); simpl; [|done]. by rewrite lookup_insert_ne.
Qed.

Lemma aggregate_rebuild st g :
  aggregate (rebuild_indexes st) !! g =
  match interests g (btree_iter (endpoints st)) with
  | [] => None
  | ints => into_interest (foldl summary_apply default_summary ints)
  end.
Proof.
  unfold rebuild_indexes; simpl. rewrite list_to_map_omap_btree, ix_groups_spec; simpl. rewrite lookup_empty.
  by destruct (interests _ _).
Qed.

Lemma aggregate_wants_rebuild st g source :
  aggregate_wants (rebuild_indexes st) g source = true ↔ ∃ e, wants st e g source = true.
Proof.
  unfold aggregate_wants, wants_group. rewrite aggregate_rebuild.
  transitivity (∃ i, i ∈ interests g (btree_iter (endpoints st)) ∧ wants_source i source = true).
  - destruct (interests _ _) as [|i ints] eqn:Hi; [set_solver|]. apply into_interest_wants.
  - setoid_rewrite elem_of_interests. unfold wants. split.
    + intros (i & (e & He) & Hw). exists e. by rewrite He.
    + intros (e & He). destruct (endpoint_interest st e g) eqn:?; [|done]. eauto.
Qed.

Lemma aggregate_mode_rebuild st g i :
  aggregate (rebuild_indexes st) !! g = Some i →
  interest_ok i ∧
  (gi_mode i = Exclude ↔ ∃ e j, endpoint_interest st e g = Some j ∧ gi_mode j = Exclude).
Proof.
  rewrite aggregate_rebuild. intros Hi.
  assert (∀ j, j ∈ interests g (btree_iter (endpoints st)) ↔ ∃ e, endpoint_interest st e g = Some j) as He
    by apply elem_of_interests.
  destruct (interests _ _) as [|j ints]; [done|]. apply into_interest_mode in Hi as [-> Hok].
  split; [done|]. setoid_rewrite He. naive_solver.
Qed.

Lemma elem_of_subscribe subs p s :
  s ∈ subscribe subs p ↔
  s ∈ subs ∨ us_group s = p.1 ∧
    match us_source s with
    | None => gi_mode p.2 = Exclude
    | Some source => gi_mode p.2 = Include ∧ source ∈ gi_sources p.2
    end.
Proof.
  destruct p as [g [m X]]. unfold subscribe; simpl. destruct m.
  - assert (∀ l (subs : gset UpstreamSubscription), s ∈ foldl (λ subs source, {[ssm g source]} ∪ subs) subs l ↔
      s ∈ subs ∨ us_group s = g ∧ from_option (λ source, source ∈ l) False (us_source s)) as Hl.
    { clear. intros l. induction l as [|x l IH]; intros subs; simpl; [destruct s as [? []]; set_solver|].
      rewrite IH, elem_of_union, elem_of_singleton. destruct s as [g' [y|]]; unfold ssm; simpl; [|naive_solver].
      rewrite elem_of_cons. naive_solver. }
    rewrite Hl. destruct s as [g' [y|]]; simpl; [|naive_solver]. rewrite elem_of_bset_iter. naive_solver.
  - rewrite elem_of_union, elem_of_singleton. unfold asm. destruct s as [g' [y|]]; simpl; naive_solver.
Qed.

Lemma elem_of_foldl_subscribe l subs s :
  s ∈ foldl subscribe subs l ↔ s ∈ subs ∨ ∃ p, p ∈ l ∧ us_group s = p.1 ∧
    match us_source s with
    | None => gi_mode p.2 = Exclude
    | Some source => gi_mode p.2 = Include ∧ source ∈ gi_sources p.2
    end.
Proof.
  revert subs. induction l as [|p l IH]; intros subs; simpl; [set_solver|].
  rewrite IH, elem_of_subscribe. setoid_rewrite elem_of_cons. naive_solver.
Qed.

Lemma subscriptions_rebuild st s :
  s ∈ subscriptions (rebuild_indexes st) ↔
  ∃ i, aggregate (rebuild_indexes st) !! us_group s = Some i ∧
    match us_source s with
    | None => gi_mode i = Exclude
    | Some source => gi_mode i = Include ∧ source ∈ gi_sources i
    end.
Proof.
  unfold rebuild_indexes; simpl. rewrite elem_of_foldl_subscribe. split.
  - intros [?|([g i] & Hp & Hg & Hm)]; [set_solver|]. simpl in *; subst. apply elem_of_btree_iter in Hp. eauto.
  - intros (i & Hi & Hm). right. exists (us_group s, i). by rewrite elem_of_btree_iter.
Qed.

(** ** Resource totals *)

Definition zsum {A} (f : A → Z) (l : list A) : Z := foldr (λ x acc, f x + acc) 0 l.

Lemma zsum_perm {A} (f : A → Z) l k : l ≡ₚ k → zsum f l = zsum f k.
Proof. induction 1; simpl; lia. Qed.

Lemma foldl_add {A} (f : A → Z) l a : foldl (λ a x, a + f x) a l = a + zsum f l.
Proof. revert a. induction l as [|x l IH]; intros a; simpl; [lia|]. rewrite IH. lia. Qed.

Definition endpoint_group_total (es : gmap SocketAddr EndpointState) : Z :=
  zsum (λ p, map_len (es_groups p.2)) (map_to_list es).
Definition endpoint_sources (st : EndpointState) : Z :=
  zsum (λ q, set_len (gi_sources q.2)) (map_to_list (es_groups st)).
Definition endpoint_source_total (es : gmap SocketAddr EndpointState) : Z :=
  zsum (λ p, endpoint_sources p.2) (map_to_list es).

Lemma total_endpoint_groups_rebuild st :
  total_endpoint_groups (rebuild_indexes st) = endpoint_group_total (endpoints st).
Proof.
  unfold rebuild_indexes, endpoint_group_total; simpl.
  rewrite (foldl_proj ix_endpoint_groups _ (λ a p, a + map_len (es_groups p.2))).
  - rewrite foldl_add. simpl. by rewrite (zsum_perm _ _ _ (btree_iter_perm _)).
  - intros ix p. unfold index_endpoint. rewrite (foldl_proj ix_endpoint_groups _ (λ a _, a)) by done.
    simpl. clear. by induction (btree_iter _).
Qed.

Lemma total_sources_rebuild st :
  total_sources (rebuild_indexes st) = endpoint_source_total (endpoints st).
Proof.
  unfold rebuild_indexes, endpoint_source_total; simpl.
  rewrite (foldl_proj ix_sources _ (λ a p, a + endpoint_sources p.2)).
  - rewrite foldl_add. simpl. by rewrite (zsum_perm _ _ _ (btree_iter_perm _)).
  - intros ix p. unfold index_endpoint.
    rewrite (foldl_proj ix_sources _ (λ a q, a + set_len (gi_sources q.2))) by done.
    rewrite foldl_add. simpl. unfold endpoint_sources. by rewrite (zsum_perm _ _ _ (btree_iter_perm _)).
Qed.

Lemma zsum_nonneg {A} (f : A → Z) l : (∀ x, 0 <= f x) → 0 <= zsum f l.
Proof. intros Hf. induction l as [|x l IH]; simpl; [lia|]. specialize (Hf x). lia. Qed.

Lemma zsum_delete_le `{Countable K} {V} (f : K * V → Z) (m : gmap K V) k :
  (∀ p, 0 <= f p) → zsum f (map_to_list (delete k m)) <= zsum f (map_to_list m).
Proof.
  intros Hf. destruct (m !! k) as [v|] eqn:Hk; [|by rewrite delete_id].
  rewrite (zsum_perm f (map_to_list m) ((k, v) :: map_to_list (delete k m))).
  - simpl. specialize (Hf (k, v)). lia.
  - symmetry. by apply map_to_list_delete.
Qed.

Lemma length_filter_fst {A B} (P : A → Prop) `{!∀ x, Decision (P x)} (l : list (A * B)) :
  length (filter P l.*1) = length (filter (λ p, P p.1) l).
Proof.
  induction l as [|[x y] l IH]; [done|].
  rewrite fmap_cons, !filter_cons. cbn [fst]. case_decide; cbn [length]; by rewrite IH.
Qed.

Lemma endpoint_count_for_ip_filter st ip :
  endpoint_count_for_ip st ip = map_len (filter (λ p, sock_ip p.1 = ip) (endpoints st)).
Proof.
  unfold endpoint_count_for_ip, map_len, len, btree_keys. f_equal.
  rewrite length_filter_fst, btree_iter_perm, <- length_map_to_list, map_filter_alt, map_to_list_to_map; [done|].
  eapply sublist_NoDup; [apply (NoDup_fst_map_to_list (endpoints st))|].
  apply fmap_sublist, sublist_filter.
Qed.

(** * The state invariant *)

Definition endpoint_ok (es : EndpointState) : Prop := es_groups es ≠ ∅ ∧ groups_ok (es_groups es).

Definition state_ok (st : RelayState) : Prop :=
  rebuild_indexes st = st ∧ map_Forall (λ _, endpoint_ok) (endpoints st).

#[export] Instance endpoint_ok_dec es : Decision (endpoint_ok es).
Proof. unfold endpoint_ok. apply _. Defined.
#[export] Instance state_ok_dec st : Decision (state_ok st).
Proof. unfold state_ok. apply _. Defined.

Lemma empty_state_ok : state_ok empty_state.
Proof. by apply (bool_decide_unpack _). Qed.

Lemma rebuild_ok st : map_Forall (λ _, endpoint_ok) (endpoints st) → state_ok (rebuild_indexes st).
Proof. by split. Qed.

Lemma endpoints_rebuild st : endpoints (rebuild_indexes st) = endpoints st.
Proof. done. Qed.

Lemma rebuild_with_endpoints st es :
  state_ok st → es = endpoints st → rebuild_indexes (with_endpoints st es) = st.
Proof. intros [Hr _] ->. by destruct st. Qed.

(** ** The operations on an invariant state *)

Lemma apply_records_groups_ok records st n :
  groups_ok (es_groups st) → groups_ok (es_groups (apply_records st n records).1).
Proof.
  revert st n. induction records as [|r records IH]; intros st n Hok; simpl; [done|].
  pose proof (apply_record_ok st r Hok). destruct (apply_record st r). by apply IH.
Qed.

(** The endpoint's state before and after a report. *)
Definition endpoint_before (st : RelayState) (endpoint : SocketAddr) : EndpointState :=
  default default_endpoint (endpoints st !! endpoint).
Definition endpoint_after (st : RelayState) (endpoint : SocketAddr) (report : MembershipReport) :
    EndpointState :=
  (apply_records (endpoint_before st endpoint) 0 (rep_records report)).1.

Lemma endpoint_before_ok st e : state_ok st → groups_ok (es_groups (endpoint_before st e)).
Proof.
  intros [_ Hok]. unfold endpoint_before. destruct (endpoints st !! e) eqn:He; simpl.
  - apply Hok in He. apply He.
  - apply map_Forall_empty.
Qed.

(** Every endpoint of an invariant state has a group, so reporting nothing and
    the general path agree on what the endpoint map becomes. *)
Lemma endpoints_apply_report st e report :
  state_ok st →
  endpoints (apply_report st e report).1 =
  if bool_decide (es_groups (endpoint_after st e report) = ∅)
  then delete e (endpoints st) else <[e := endpoint_after st e report]> (endpoints st).
Proof.
  intros [_ Hok]. unfold apply_report, endpoint_after, endpoint_before.
  destruct (rep_records report) as [|r records]; simpl is_empty; cbv iota.
  - simpl. destruct (endpoints st !! e) as [es|] eqn:He; simpl.
    + rewrite bool_decide_eq_false_2 by apply (Hok _ _ He). by rewrite insert_id.
    + by rewrite delete_id.
  - destruct (apply_records _ _ _) as [es n]; simpl. case_bool_decide; [|done]. apply delete_insert_eq.
Qed.

Lemma apply_report_rebuilt st e report :
  state_ok st → rebuild_indexes (apply_report st e report).1 = (apply_report st e report).1.
Proof.
  intros [Hr _]. unfold apply_report. destruct (is_empty _); [done|]. by destruct (apply_records _ _ _).
Qed.

Lemma apply_report_ok st e report : state_ok st → state_ok (apply_report st e report).1.
Proof.
  intros Hst. split; [by apply apply_report_rebuilt|]. rewrite endpoints_apply_report by done.
  pose proof (apply_records_groups_ok (rep_records report) _ 0 (endpoint_before_ok _ e Hst)) as Hg.
  fold (endpoint_after st e report) in Hg. destruct Hst as [_ Hok].
  case_bool_decide; [by apply map_Forall_delete|]. by apply map_Forall_insert_2.
Qed.

Lemma remove_endpoint_ok st e : state_ok st → state_ok (remove_endpoint st e).1.
Proof.
  intros [Hr Hok]. unfold remove_endpoint; simpl. case_bool_decide as Hs.
  - apply rebuild_ok. simpl. by apply map_Forall_delete.
  - rewrite <- eq_None_not_Some in Hs. split; [|simpl; by apply map_Forall_delete].
    unfold with_endpoints. rewrite delete_id by done. by destruct st.
Qed.

Lemma endpoints_remove_endpoint st e : endpoints (remove_endpoint st e).1 = delete e (endpoints st).
Proof. unfold remove_endpoint; simpl. by case_bool_decide. Qed.

(** ** Rollback and the resource limits *)

Lemma check_limit_wp resource requested limit :
  wp (check_limit resource requested limit) (λ _, requested <= limit)
    (λ e, e = mkLimitError resource requested limit ∧ limit < requested).
Proof. unfold check_limit. destruct (Z.leb_spec requested limit); simpl; [lia|]. split; [done|lia]. Qed.

Lemma check_record_sources_wp records limit :
  wp (check_record_sources records limit)
    (λ _, Forall (λ r, len (rec_sources r) <= limit) records) (λ _, True).
Proof.
  induction records as [|r records IH]; simpl; [done|]. apply wp_bind.
  eapply wp_mono; [apply check_limit_wp| |done]. simpl. intros _ Hr.
  eapply wp_mono; [apply IH| |done]. simpl. by constructor.
Qed.

(** What holds of the state when [check_state_limits] passes. *)
Definition endpoint_within (limits : RelayLimits) (es : EndpointState) : Prop :=
  map_len (es_groups es) <= max_groups_per_endpoint limits ∧
  map_Forall (λ _ i, set_len (gi_sources i) <= max_sources_per_group limits) (es_groups es).

Definition checked_limits (st : RelayState) (endpoint : SocketAddr) (limits : RelayLimits) : Prop :=
  map_len (endpoints st) <= max_endpoints limits ∧
  endpoint_count_for_ip st (sock_ip endpoint) <= max_endpoints_per_ip limits ∧
  (∀ es, endpoints st !! endpoint = Some es → endpoint_within limits es) ∧
  total_endpoint_groups st <= max_total_endpoint_groups limits ∧
  total_sources st <= max_total_sources limits ∧
  set_len (subscriptions st) <= max_upstream_subscriptions limits.

Lemma foldr_max_le l n : foldr Z.max 0 l <= n → Forall (λ x, x <= n) l.
Proof. induction l as [|x l IH]; simpl; constructor; [lia|]. apply IH. lia. Qed.

Lemma max_group_sources_le es n :
  max_group_sources (Some es) <= n → map_Forall (λ _ i, set_len (gi_sources i) <= n) (es_groups es).
Proof.
  simpl. intros Hm g i Hi. apply foldr_max_le in Hm. rewrite Forall_fmap, Forall_forall in Hm.
  apply (Hm (g, i)). by apply elem_of_btree_iter.
Qed.

Lemma check_state_limits_wp st endpoint limits :
  wp (check_state_limits st endpoint limits) (λ _, checked_limits st endpoint limits) (λ _, True).
Proof.
  unfold check_state_limits, checked_limits.
  repeat (apply wp_bind; eapply wp_mono; [apply check_limit_wp|simpl; intros _ ?|done]).
  eapply wp_mono; [apply check_limit_wp|simpl; intros _ ?|done].
  repeat split; try done; destruct (endpoints st !! endpoint); simplify_eq; try done.
  by apply max_group_sources_le.
Qed.

(** The three outcomes of a limited report. *)
Lemma apply_report_limited_spec st e report limits :
  state_ok st →
  match (apply_report_limited st e report limits).2 with
  | Ok applied =>
      (apply_report_limited st e report limits).1 = (apply_report st e report).1 ∧
      applied = (apply_report st e report).2 ∧
      checked_limits (apply_report st e report).1 e limits ∧
      len (rep_records report) <= max_records_per_report limits ∧
      Forall (λ r, len (rec_sources r) <= max_sources_per_group limits) (rep_records report)
  | Err _ => (apply_report_limited st e report limits).1 = st
  | Panic | Diverge => False
  end.
Proof.
  intros Hst. unfold apply_report_limited. assert (wp (
    _ ← check_limit "records per report" (len (rep_records report)) (max_records_per_report limits);
    check_record_sources (rep_records report) (max_sources_per_group limits))
    (λ _, len (rep_records report) <= max_records_per_report limits ∧
          Forall (λ r, len (rec_sources r) <= max_sources_per_group limits) (rep_records report))
    (λ _, True)) as Hpre.
  { apply wp_bind. eapply wp_mono; [apply check_limit_wp|simpl; intros _ ?|done].
    eapply wp_mono; [apply check_record_sources_wp|done|done]. }
  destruct (_ ≫= _); try done; simpl in Hpre. pose proof (endpoints_apply_report st e report Hst) as Hes.
  destruct (apply_report st e report) as [st' applied]; simpl in Hes |- *.
  pose proof (check_state_limits_wp st' e limits) as Hpost.
  destruct (check_state_limits st' e limits); simpl in *; try done.
  apply (rebuild_with_endpoints st); [done|]. rewrite Hes.
  destruct (endpoints st !! e) eqn:He; case_bool_decide.
  - by rewrite insert_delete_eq, insert_id.
  - by rewrite insert_insert_eq, insert_id.
  - by rewrite delete_delete_eq, delete_id.
  - by rewrite delete_insert_eq, delete_id.
Qed.

Lemma apply_report_limited_ok st e report limits :
  state_ok st → state_ok (apply_report_limited st e report limits).1.
Proof.
  intros Hst. pose proof (apply_report_limited_spec st e report limits Hst) as Hs.
  pose proof (apply_report_ok st e report Hst).
  destruct (apply_report_limited st e report limits).2; [by destruct Hs as [-> _]|by rewrite Hs|done|done].
Qed.

(** The limits on what the relay stores, over all endpoints. *)
Definition stored_within (limits : RelayLimits) (st : RelayState) : Prop :=
  map_len (endpoints st) <= max_endpoints limits ∧
  (∀ ip, endpoint_count_for_ip st ip <= max_endpoints_per_ip limits) ∧
  map_Forall (λ _, endpoint_within limits) (endpoints st) ∧
  total_endpoint_groups st <= max_total_endpoint_groups limits ∧
  total_sources st <= max_total_sources limits.

Lemma apply_report_other_ip st e report ip :
  state_ok st → ip ≠ sock_ip e →
  endpoint_count_for_ip (apply_report st e report).1 ip = endpoint_count_for_ip st ip.
Proof.
  intros Hst Hip. rewrite !endpoint_count_for_ip_filter, endpoints_apply_report by done. f_equal.
  apply map_eq. intros e'. apply option_eq. intros x. rewrite !map_lookup_filter_Some. simpl.
  destruct (decide (e' = e)) as [->|Hne]; [naive_solver|].
  case_bool_decide; [by rewrite lookup_delete_ne|by rewrite lookup_insert_ne].
Qed.

Lemma stored_within_limited st e report limits :
  state_ok st → stored_within limits st → stored_within limits (apply_report_limited st e report limits).1.
Proof.
  intros Hst Hw. pose proof (apply_report_limited_spec st e report limits Hst) as Hs.
  destruct (apply_report_limited st e report limits).2 as [n|err| |]; [|by rewrite Hs|done|done].
  destruct Hs as (-> & _ & (He & Hip & Hend & Hg & Hso & _) & _). destruct Hw as (_ & Hips & Hall & _).
  unfold stored_within. split_and!; try done.
  - intros ip. destruct (decide (ip = sock_ip e)) as [->|]; [done|]. by rewrite apply_report_other_ip.
  - intros e' es He'. destruct (decide (e' = e)) as [->|Hne]; [by apply Hend|]. apply (Hall e').
    rewrite endpoints_apply_report in He' by done.
    case_bool_decide; [by rewrite lookup_delete_ne in He'|by rewrite lookup_insert_ne in He'].
Qed.

Lemma map_len_nonneg `{Countable K} {V} (m : gmap K V) : 0 <= map_len m.
Proof. unfold map_len. lia. Qed.
Lemma set_len_nonneg `{Countable K} (s : gset K) : 0 <= set_len s.
Proof. unfold set_len. lia. Qed.
Lemma endpoint_sources_nonneg es : 0 <= endpoint_sources es.
Proof. apply zsum_nonneg. intros. apply set_len_nonneg. Qed.

Lemma map_len_mono `{Countable K} {V} (m m' : gmap K V) : m ⊆ m' → map_len m <= map_len m'.
Proof. intros Hs. unfold map_len. apply Nat2Z.inj_le. by apply map_subseteq_size. Qed.

Lemma stored_within_remove st e limits :
  state_ok st → stored_within limits st → stored_within limits (remove_endpoint st e).1.
Proof.
  intros Hst (He & Hip & Hall & Hg & Hso). pose proof (remove_endpoint_ok st e Hst) as [Hr _].
  destruct Hst as [Hr0 _]. rewrite <- Hr0, total_endpoint_groups_rebuild in Hg.
  rewrite <- Hr0, total_sources_rebuild in Hso.
  pose proof (delete_subseteq (endpoints st) e) as Hsub.
  rewrite <- Hr. unfold stored_within. split_and!.
  - rewrite endpoints_rebuild, endpoints_remove_endpoint. etransitivity; [|done]. by apply map_len_mono.
  - intros ip. etransitivity; [|apply (Hip ip)]. rewrite !endpoint_count_for_ip_filter.
    rewrite endpoints_rebuild, endpoints_remove_endpoint. by apply map_len_mono, map_filter_subseteq_mono.
  - rewrite endpoints_rebuild, endpoints_remove_endpoint. by apply map_Forall_delete.
  - rewrite total_endpoint_groups_rebuild, endpoints_remove_endpoint. etransitivity; [|done].
    apply zsum_delete_le. intros. apply map_len_nonneg.
  - rewrite total_sources_rebuild, endpoints_remove_endpoint. etransitivity; [|done].
    apply zsum_delete_le. intros. apply endpoint_sources_nonneg.
Qed.

(** * Refinement of the source-set specification *)

(** The abstract state: which sources of which groups each endpoint wants. *)
Definition Interests : Type := SocketAddr → IpAddr → IpAddr → bool.

(** The records of a report take effect in order. *)
Definition report_effect (records : list MembershipRecord) (group : IpAddr) (wanted : IpAddr → bool) :
    IpAddr → bool :=
  foldl (λ wanted r, if decide (group = rec_group r)
                     then record_effect (rec_kind r) (rec_sources r) wanted else wanted) wanted records.

Definition spec_report (m : Interests) (endpoint : SocketAddr) (report : MembershipReport) : Interests :=
  λ e g s, if decide (e = endpoint) then report_effect (rep_records report) g (m e g) s else m e g s.

Definition spec_remove (m : Interests) (endpoint : SocketAddr) : Interests :=
  λ e g s, if decide (e = endpoint) then false else m e g s.

Lemma record_effect_ext kind sources w w' s :
  (∀ s, w s = w' s) → record_effect kind sources w s = record_effect kind sources w' s.
Proof. intros Hw. destruct kind; simpl; by rewrite ?Hw. Qed.

Lemma report_effect_ext records g w w' s :
  (∀ s, w s = w' s) → report_effect records g w s = report_effect records g w' s.
Proof.
  unfold report_effect. revert w w'. induction records as [|r records IH]; intros w w' Hw; simpl; [done|].
  apply IH. intros s'. case_decide; [by apply record_effect_ext|done].
Qed.

Lemma apply_records_wants records st n g s :
  wants_group (es_groups (apply_records st n records).1) g s =
  report_effect records g (wants_group (es_groups st) g) s.
Proof.
  revert st n. induction records as [|r records IH]; intros st n; simpl; [done|].
  pose proof (apply_record_wants st r g) as Hr. destruct (apply_record st r) as [st' b]; simpl in *.
  rewrite IH. unfold report_effect at 2; simpl. fold (report_effect records g).
  apply report_effect_ext. intros s'. rewrite Hr. by case_decide.
Qed.

Lemma wants_endpoint_before st e g s : wants st e g s = wants_group (es_groups (endpoint_before st e)) g s.
Proof.
  unfold wants, endpoint_interest, wants_group, endpoint_before. destruct (endpoints st !! e); simpl; [done|].
  by rewrite lookup_empty.
Qed.

Lemma wants_apply_report st e report e' g s :
  state_ok st → wants (apply_report st e report).1 e' g s = spec_report (wants st) e report e' g s.
Proof.
  intros Hst. unfold spec_report. rewrite wants_endpoint_before. unfold endpoint_before at 1.
  rewrite endpoints_apply_report by done. case_decide as He; [subst e'|].
  - rewrite (report_effect_ext _ _ _ (wants_group (es_groups (endpoint_before st e)) g))
      by (intros; apply wants_endpoint_before).
    rewrite <- (apply_records_wants _ _ 0). fold (endpoint_after st e report). case_bool_decide as Hem.
    + rewrite lookup_delete_eq. by rewrite Hem.
    + by rewrite lookup_insert_eq.
  - rewrite wants_endpoint_before. unfold endpoint_before.
    case_bool_decide; [by rewrite lookup_delete_ne|by rewrite lookup_insert_ne].
Qed.

Lemma wants_remove_endpoint st e e' g s :
  wants (remove_endpoint st e).1 e' g s = spec_remove (wants st) e e' g s.
Proof.
  unfold spec_remove. rewrite !wants_endpoint_before. unfold endpoint_before at 1.
  rewrite endpoints_remove_endpoint. case_decide as He; [subst e'|].
  - by rewrite lookup_delete_eq.
  - by rewrite lookup_delete_ne.
Qed.

(** ** Where groups come from *)

Lemma apply_records_groups records st n g :
  g ∉ rec_group <$> records → es_groups (apply_records st n records).1 !! g = es_groups st !! g.
Proof.
  revert st n. induction records as [|r records IH]; intros st n; simpl; [done|].
  intros Hg. apply not_elem_of_cons in Hg as [Hne Hg].
  assert (es_groups (apply_record st r).1 !! g = es_groups st !! g) as Hr.
  { unfold apply_record. destruct (updated_groups _ _) eqn:Hu; [|done]. by eapply updated_groups_other. }
  destruct (apply_record st r) as [st' b]. rewrite IH by done. done.
Qed.

(** An endpoint's groups after a report were there before or are named in it. *)
Lemma apply_report_groups st e report e' g :
  state_ok st → is_Some (endpoint_interest (apply_report st e report).1 e' g) →
  is_Some (endpoint_interest st e' g) ∨ g ∈ rec_group <$> rep_records report.
Proof.
  intros Hst [i Hi]. apply endpoint_interest_some in Hi as (es & He & Hg).
  rewrite endpoints_apply_report in He by done.
  destruct (decide (g ∈ rec_group <$> rep_records report)) as [|Hn]; [by right|left].
  assert (e' ≠ e → endpoints st !! e' = Some es) as Hother
    by (intros; case_bool_decide; [by rewrite lookup_delete_ne in He|by rewrite lookup_insert_ne in He]).
  exists i. apply endpoint_interest_some. destruct (decide (e' = e)) as [->|]; [|eauto].
  case_bool_decide; [by rewrite lookup_delete_eq in He|]. rewrite lookup_insert_eq in He. simplify_eq.
  unfold endpoint_after in Hg. rewrite apply_records_groups in Hg by done. unfold endpoint_before in Hg.
  destruct (endpoints st !! e) as [es|]; simpl in Hg; [eauto|by rewrite lookup_empty in Hg].
Qed.

Lemma aggregate_key_interest st g :
  state_ok st → g ∈ btree_keys (aggregate st) → ∃ e, is_Some (endpoint_interest st e g).
Proof.
  intros [Hr _] Hg. apply elem_of_btree_keys in Hg. rewrite <- Hr, aggregate_rebuild in Hg.
  assert (∀ j, j ∈ interests g (btree_iter (endpoints st)) ↔ ∃ e, endpoint_interest st e g = Some j) as He
    by apply elem_of_interests.
  destruct (interests _ _) as [|j ints]; [by destruct Hg|].
  destruct (proj1 (He j)) as [e Hj]; [set_solver|]. eauto.
Qed.

(** ** The preview of a report *)

Lemma state_ok_eq st st' : state_ok st → state_ok st' → endpoints st = endpoints st' → st = st'.
Proof. intros [Hr _] [Hr' _] He. rewrite <- Hr, <- Hr'. unfold rebuild_indexes. by rewrite He. Qed.

Lemma apply_report_unchanged st e report :
  state_ok st →
  (apply_report st e report).1 = st ↔
  (if bool_decide (es_groups (endpoint_after st e report) = ∅) then endpoints st !! e = None
   else endpoints st !! e = Some (endpoint_after st e report)).
Proof.
  intros Hst. transitivity (endpoints (apply_report st e report).1 = endpoints st).
  { split; [by intros ->|]. apply state_ok_eq; [by apply apply_report_ok|done]. }
  rewrite endpoints_apply_report by done. case_bool_decide.
  - split; [|apply delete_id]. intros <-. apply lookup_delete_eq.
  - split; [|apply insert_id]. intros <-. apply lookup_insert_eq.
Qed.

Lemma preview_report_spec st e report :
  state_ok st →
  preview_report st e report =
  ((apply_report st e report).2, negb (bool_decide ((apply_report st e report).1 = st))).
Proof.
  intros Hst. assert (bool_decide ((apply_report st e report).1 = st) =
    if bool_decide (es_groups (endpoint_after st e report) = ∅) then bool_decide (endpoints st !! e = None)
    else bool_decide (endpoints st !! e = Some (endpoint_after st e report))) as ->.
  { pose proof (apply_report_unchanged st e report Hst) as Hu.
    destruct (bool_decide (es_groups _ = ∅)); by apply bool_decide_ext. }
  destruct Hst as [_ Hok].
  unfold preview_report, apply_report, endpoint_after, endpoint_before.
  destruct (rep_records report) as [|r records]; simpl is_empty; cbv iota; simpl.
  - destruct (endpoints st !! e) as [es|] eqn:He; simpl; [|done].
    rewrite (bool_decide_eq_false_2 (es_groups es = ∅)) by apply (Hok _ _ He).
    by rewrite bool_decide_eq_true_2.
  - destruct (let '(_, _) := apply_record _ _ in _) as [es n]. simpl.
    case_bool_decide; [|done]. destruct (endpoints st !! e); done.
Qed.

(** ** Lookups *)

Lemma elem_of_matching_endpoints st source group e :
  state_ok st → e ∈ matching_endpoints st source group ↔ wants st e group source = true.
Proof.
  intros [Hr _]. pose proof (forwarding_rebuild st group e) as Hf. rewrite Hr in Hf.
  unfold matching_endpoints. transitivity (e ∈ default ∅ (forwarding st !! group) ∧ wants st e group source = true).
  - destruct (forwarding st !! group) as [es|]; simpl; [|set_solver].
    rewrite list_elem_of_omap. setoid_rewrite elem_of_bset_iter. split.
    + intros (e' & He' & Hw). fold (wants st e' group source) in Hw.
      destruct (wants st e' group source) eqn:?; by simplify_eq.
    + intros [He Hw]. exists e. split; [done|]. fold (wants st e group source). by rewrite Hw.
  - rewrite Hf. unfold wants. destruct (endpoint_interest st e group) eqn:Hi; simpl.
    + split; [tauto|]. intros ?. split; [|done]. eauto.
    + split; [tauto|done].
Qed.

(** [omap] with a guard is a filter. *)
Lemma omap_guard {A} (f : A → bool) (l : list A) :
  omap (λ x, if f x then Some x else None) l = filter (λ x, f x = true) l.
Proof. induction l as [|x l IH]; simpl; [done|]. rewrite filter_cons, <- IH. by destruct (f x). Qed.

Lemma Sorted_filter {A} (R : relation A) `{!Transitive R} (P : A → Prop) `{!∀ x, Decision (P x)} l :
  Sorted R l → Sorted R (filter P l).
Proof.
  intros Hs. apply Sorted_StronglySorted in Hs; [|done]. apply StronglySorted_Sorted.
  induction Hs as [|x l Hs IH Hx]; [constructor|]. rewrite filter_cons. case_decide; [|done].
  constructor; [done|]. rewrite Forall_forall in *. intros y Hy. apply list_elem_of_filter in Hy as [_ Hy]. auto.
Qed.

Lemma matching_endpoints_sorted st source group :
  Sorted ord_le (matching_endpoints st source group) ∧ NoDup (matching_endpoints st source group).
Proof.
  unfold matching_endpoints. destruct (forwarding st !! group) as [es|]; [|by repeat constructor].
  rewrite omap_guard. split; [|apply NoDup_filter, NoDup_bset_iter].
  apply Sorted_filter; [apply _|]. apply Sorted_bset_iter.
Qed.

Lemma has_ssm_interest_spec st source group :
  state_ok st →
  has_ssm_interest st source group = true ↔
  ∃ e i, endpoint_interest st e group = Some i ∧ gi_mode i = Include ∧ source ∈ gi_sources i.
Proof.
  intros [Hr _]. pose proof (forwarding_rebuild st group) as Hf. rewrite Hr in Hf.
  unfold has_ssm_interest. destruct (forwarding st !! group) as [es|]; simpl in *.
  - rewrite existsb_exists. setoid_rewrite <- list_elem_of_In. setoid_rewrite elem_of_bset_iter. split.
    + intros (e & He & Hi). apply Hf in He as [i Hei]. rewrite Hei in Hi. simpl in Hi.
      apply andb_true_iff in Hi as [?%bool_decide_eq_true ?%bool_decide_eq_true]. eauto.
    + intros (e & i & Hei & Hm & Hs). exists e. rewrite Hf, Hei. split; [eauto|]. simpl.
      by rewrite Hm, !bool_decide_eq_true_2.
  - split; [done|]. intros (e & i & Hei & _). specialize (Hf e). set_solver.
Qed.

(** * Properties *)

(** A membership record changes what one endpoint wants exactly as RFC 3376
    section 5.1 and RFC 3810 section 6.1 prescribe for its kind, leaves every
    other group alone, keeps INCLUDE interests non-empty, and is reported as
    applied exactly when the endpoint's state changed. *)
Theorem record_semantics st record :
  groups_ok (es_groups st) →
  groups_ok (es_groups (apply_record st record).1) ∧
  (∀ group source,
     wants_group (es_groups (apply_record st record).1) group source =
     if decide (group = rec_group record)
     then record_effect (rec_kind record) (rec_sources record) (wants_group (es_groups st) group) source
     else wants_group (es_groups st) group source) ∧
  (apply_record st record).2 = negb (bool_decide ((apply_record st record).1 = st)).
Proof.
  intros Hok. split; [by apply apply_record_ok|]. split; [|apply apply_record_flag].
  intros. apply apply_record_wants.
Qed.

(** C1: The relay's state refines the source-set specification: in a state that
    satisfies the invariant, a report, a limited report and a removal lead to a
    state that satisfies it again and in which every endpoint wants exactly the
    sources the specification gives it. *)
Theorem state_refines_spec st endpoint report limits :
  state_ok st →
  (state_ok (apply_report st endpoint report).1 ∧
   ∀ e g s, wants (apply_report st endpoint report).1 e g s = spec_report (wants st) endpoint report e g s) ∧
  (state_ok (apply_report_limited st endpoint report limits).1 ∧
   ∀ e g s, wants (apply_report_limited st endpoint report limits).1 e g s =
     match (apply_report_limited st endpoint report limits).2 with
     | Ok _ => spec_report (wants st) endpoint report e g s
     | _ => wants st e g s
     end) ∧
  (state_ok (remove_endpoint st endpoint).1 ∧
   ∀ e g s, wants (remove_endpoint st endpoint).1 e g s = spec_remove (wants st) endpoint e g s).
Proof.
  intros Hst. split_and!.
  - by apply apply_report_ok.
  - intros. by apply wants_apply_report.
  - by apply apply_report_limited_ok.
  - intros e g s. pose proof (apply_report_limited_spec st endpoint report limits Hst) as Hs.
    destruct (apply_report_limited st endpoint report limits).2; [|by rewrite Hs|done|done].
    destruct Hs as [-> _]. by apply wants_apply_report.
  - by apply remove_endpoint_ok.
  - intros. apply wants_remove_endpoint.
Qed.

(** C19: A multicast packet (source, group) is forwarded to exactly the endpoints
    that want it, each once and in address order; and [has_ssm_interest] holds
    exactly when some endpoint's INCLUDE interest names the source. *)
Theorem forwarding_exact st source group :
  state_ok st →
  (∀ e, e ∈ endpoints_for_packet st source group ↔ wants st e group source = true) ∧
  NoDup (endpoints_for_packet st source group) ∧
  Sorted ord_le (endpoints_for_packet st source group) ∧
  (has_ssm_interest st source group = true ↔
   ∃ e i, endpoint_interest st e group = Some i ∧ gi_mode i = Include ∧ source ∈ gi_sources i).
Proof.
  intros Hst. destruct (matching_endpoints_sorted st source group).
  split_and!; try done; [intros; by apply elem_of_matching_endpoints|by apply has_ssm_interest_spec].
Qed.

(** The aggregate interest the relay announces upstream is the union of its
    endpoints' interests: a source of a group is wanted by the aggregate exactly
    when some endpoint wants it, and the mode is EXCLUDE exactly when some
    endpoint's interest in the group is. *)
Theorem aggregate_exact st group :
  state_ok st →
  (∀ source, aggregate_wants st group source = true ↔ ∃ e, wants st e group source = true) ∧
  (∀ i, aggregate_interests st !! group = Some i →
     interest_ok i ∧
     (gi_mode i = Exclude ↔ ∃ e j, endpoint_interest st e group = Some j ∧ gi_mode j = Exclude)).
Proof.
  intros [Hr _]. pose proof (aggregate_wants_rebuild st group) as Hw.
  pose proof (aggregate_mode_rebuild st group) as Hm. by rewrite Hr in Hw, Hm.
Qed.

(** The upstream subscriptions cover the demand and nothing else: every wanted
    (source, group) is covered by the group's any-source subscription or by its
    own source-specific one, a source-specific subscription exists only for a
    source some endpoint wants, an any-source subscription only for a group some
    endpoint has an EXCLUDE interest in, and no group has both kinds. *)
Theorem subscriptions_exact st :
  state_ok st →
  (∀ e g s, wants st e g s = true → asm g ∈ upstream_subscriptions st ∨ ssm g s ∈ upstream_subscriptions st) ∧
  (∀ g s, ssm g s ∈ upstream_subscriptions st → ∃ e, wants st e g s = true) ∧
  (∀ g, asm g ∈ upstream_subscriptions st →
     ∃ e i, endpoint_interest st e g = Some i ∧ gi_mode i = Exclude) ∧
  (∀ g s, ssm g s ∈ upstream_subscriptions st → asm g ∉ upstream_subscriptions st).
Proof.
  intros [Hr _]. unfold upstream_subscriptions. setoid_rewrite elem_of_bset_iter.
  pose proof (subscriptions_rebuild st) as Hsub. pose proof (aggregate_mode_rebuild st) as Hmode.
  pose proof (aggregate_wants_rebuild st) as Hagg. rewrite Hr in Hsub, Hmode, Hagg.
  setoid_rewrite Hsub. simpl us_group. simpl us_source. cbv iota.
  unfold aggregate_wants, wants_group in Hagg. split_and!.
  - intros e g s Hw. assert (∃ e, wants st e g s = true) as Hex by eauto. apply Hagg in Hex.
    destruct (aggregate _ !! g) as [[[] X]|]; try done; simpl in Hex; [|eauto].
    right. eexists. split_and!; [done..|]. by apply bool_decide_eq_true in Hex.
  - intros g s ([m X] & Hi & Hm & Hs). simpl in *; subst. apply Hagg. rewrite Hi. simpl.
    by apply bool_decide_eq_true_2.
  - intros g (i & Hi & Hm). apply Hmode in Hi as [_ Hi]. by apply Hi.
  - intros g s (i & Hi & Hm & _) (j & Hj & Hm'). congruence.
Qed.

(** C20: A limited report is atomic: an error leaves the state exactly as it was;
    a success has the effect of the unlimited report and leaves a state within
    every limit that was checked. *)
Theorem limited_report_atomic st endpoint report limits :
  state_ok st →
  match apply_report_limited st endpoint report limits with
  | (st', Ok applied) =>
      (st', applied) = apply_report st endpoint report ∧ checked_limits st' endpoint limits
  | (st', Err _) => st' = st
  | (_, Panic) | (_, Diverge) => False
  end.
Proof.
  intros Hst. pose proof (apply_report_limited_spec st endpoint report limits Hst) as Hs.
  destruct (apply_report_limited st endpoint report limits) as [st' [n|e| |]]; simpl in *; try done.
  destruct Hs as (-> & -> & Hl & _). by destruct (apply_report st endpoint report).
Qed.

(** The state changes the relay makes under its configured limits. *)
Inductive state_step (limits : RelayLimits) (st : RelayState) : RelayState → Prop :=
| step_report endpoint report :
    state_step limits st (apply_report_limited st endpoint report limits).1
| step_remove endpoint : state_step limits st (remove_endpoint st endpoint).1.

Definition reachable (limits : RelayLimits) : RelayState → Prop := rtc (state_step limits) empty_state.

Lemma reachable_invariant limits st :
  0 <= max_endpoints limits → 0 <= max_endpoints_per_ip limits →
  0 <= max_total_endpoint_groups limits → 0 <= max_total_sources limits →
  reachable limits st → state_ok st ∧ stored_within limits st.
Proof.
  intros He Hip Hg Hs. unfold reachable. assert (state_ok empty_state ∧ stored_within limits empty_state) as H0.
  { split; [apply empty_state_ok|]. by repeat split. }
  revert H0. generalize empty_state as st0. intros st0 Hst0 Hr.
  induction Hr as [|x y z Hstep Hr IH]; [done|]. apply IH. destruct Hst0 as [Hok Hw].
  destruct Hstep.
  - split; [by apply apply_report_limited_ok|by apply stored_within_limited].
  - split; [by apply remove_endpoint_ok|by apply stored_within_remove].
Qed.

(** C21: Whatever sequence of reports and removals the relay handles, starting
    from the empty state and under fixed limits, the indexes always match the
    endpoints and the stored state never exceeds the limits on endpoints,
    endpoints per address, groups and sources per endpoint, and their totals. *)
Theorem reachable_states_bounded limits st :
  0 <= max_endpoints limits → 0 <= max_endpoints_per_ip limits →
  0 <= max_total_endpoint_groups limits → 0 <= max_total_sources limits →
  reachable limits st →
  state_ok st ∧ stored_within limits st ∧
  total_endpoint_groups st = endpoint_group_total (endpoints st) ∧
  total_sources st = endpoint_source_total (endpoints st).
Proof.
  intros He Hip Hg Hs Hr. destruct (reachable_invariant _ _ He Hip Hg Hs Hr) as [Hok Hw].
  split_and!; try done; destruct Hok as [Hrb _].
  - by rewrite <- total_endpoint_groups_rebuild, Hrb.
  - by rewrite <- total_sources_rebuild, Hrb.
Qed.

(** The preview the daemon uses before committing a report predicts it: the
    number of records that take effect, and whether the state changes. *)
Theorem preview_exact st endpoint report :
  state_ok st →
  preview_report st endpoint report =
  ((apply_report st endpoint report).2, negb (bool_decide ((apply_report st endpoint report).1 = st))).
Proof. apply preview_report_spec. Qed.

(** ** Concrete states *)

Definition demo_gateway (n : Z) : SocketAddr := SocketAddrV4 (mkIpv4 192 0 2 n) 40000.
Definition demo_source (n : Z) : IpAddr := V4 (mkIpv4 198 51 100 n).
Definition demo_group : IpAddr := V4 (mkIpv4 232 1 1 1).
Definition demo_report (kind : MembershipRecordKind) (sources : list IpAddr) : MembershipReport :=
  mkReport Igmpv3 [mkRecord kind demo_group sources].

(** One gateway wants two sources, another wants all but one of them. *)
Definition demo_state : RelayState :=
  (apply_report
    (apply_report empty_state (demo_gateway 1)
       (demo_report AllowNewSources [demo_source 1; demo_source 2])).1
    (demo_gateway 2) (demo_report ModeIsExclude [demo_source 1])).1.

Lemma demo_state_ok : state_ok demo_state.
Proof. repeat apply apply_report_ok. apply empty_state_ok. Qed.

(** The limit on upstream subscriptions is not an invariant: when a gateway
    with an EXCLUDE interest is removed, the group's single any-source
    subscription is replaced by one source-specific subscription per source the
    remaining gateways asked for, and no limit is checked; the same departure
    made by a report is refused, so the gateway stays subscribed. *)
Theorem subscription_limit_not_invariant :
  let limits := mkRelayLimits 8 8 8 8 8 8 1 8 in
  let leave := demo_report ChangeToInclude [] in
  ∃ st, reachable limits st ∧
    set_len (subscriptions st) = 1 ∧
    set_len (subscriptions (remove_endpoint st (demo_gateway 2)).1) = 2 ∧
    (apply_report_limited st (demo_gateway 2) leave limits).2 =
      Err (mkLimitError "upstream subscriptions" 2 1).
Proof.
  intros limits leave. exists demo_state. split_and!; [|by vm_compute..].
  eapply rtc_l; [apply (step_report limits _ (demo_gateway 2) (demo_report ModeIsExclude []))|].
  eapply rtc_l; [apply (step_report limits _ (demo_gateway 1)
                   (demo_report AllowNewSources [demo_source 1; demo_source 2]))|].
  eapply rtc_l; [apply (step_report limits _ (demo_gateway 2) (demo_report BlockOldSources [demo_source 1]))|].
  match goal with |- rtc _ ?x ?y => assert (x = y) as ->; [|constructor] end.
  decide_ok.
Qed.

Lemma record_semantics_witness :
  (apply_record (mkEndpoint ∅) (mkRecord AllowNewSources demo_group [demo_source 1])).2 =
  negb (bool_decide ((apply_record (mkEndpoint ∅) (mkRecord AllowNewSources demo_group [demo_source 1])).1 =
                     mkEndpoint ∅)).
Proof. apply (record_semantics (mkEndpoint ∅)). apply map_Forall_empty. Defined.

Lemma state_refines_spec_witness :
  state_ok (remove_endpoint demo_state (demo_gateway 1)).1.
Proof.
  apply (state_refines_spec demo_state (demo_gateway 1) (demo_report LegacyReport []) default_relay_limits).
  apply demo_state_ok.
Defined.

Lemma forwarding_exact_witness :
  endpoints_for_packet demo_state (demo_source 1) demo_group = [demo_gateway 1] ∧
  NoDup (endpoints_for_packet demo_state (demo_source 1) demo_group).
Proof.
  split; [by vm_compute|]. apply (forwarding_exact demo_state (demo_source 1) demo_group). apply demo_state_ok.
Defined.

Lemma aggregate_exact_witness :
  aggregate_wants demo_state demo_group (demo_source 1) = true ∧
  ∃ e, wants demo_state e demo_group (demo_source 1) = true.
Proof.
  assert (aggregate_wants demo_state demo_group (demo_source 1) = true) as Hw by by vm_compute.
  split; [done|]. by apply (aggregate_exact demo_state demo_group demo_state_ok).
Defined.

Lemma subscriptions_exact_witness :
  asm demo_group ∈ upstream_subscriptions demo_state ∧
  ∃ e i, endpoint_interest demo_state e demo_group = Some i ∧ gi_mode i = Exclude.
Proof.
  assert (asm demo_group ∈ upstream_subscriptions demo_state) as Hin
    by decide_ok.
  split; [done|]. by apply (subscriptions_exact demo_state demo_state_ok).
Defined.

Lemma limited_report_atomic_witness :
  (apply_report_limited demo_state (demo_gateway 3) (demo_report LegacyReport [])
     (mkRelayLimits 2 8 8 8 8 8 8 8)).1 = demo_state.
Proof.
  pose proof (limited_report_atomic demo_state (demo_gateway 3) (demo_report LegacyReport [])
    (mkRelayLimits 2 8 8 8 8 8 8 8) demo_state_ok) as H.
  destruct (apply_report_limited _ _ _ _) as [st' r] eqn:He.
  assert (r = Err (mkLimitError "endpoints" 3 2)) as ->.
  { apply (f_equal snd) in He. cbn [snd] in He. rewrite <- He. by vm_compute. }
  exact H.
Defined.

Lemma reachable_states_bounded_witness :
  stored_within default_relay_limits
    (apply_report_limited empty_state (demo_gateway 1) (demo_report LegacyReport []) default_relay_limits).1.
Proof.
  apply (reachable_states_bounded default_relay_limits); [done..|].
  apply rtc_once, step_report.
Defined.

Lemma preview_exact_witness :
  preview_report demo_state (demo_gateway 1) (demo_report BlockOldSources [demo_source 9]) = (0, false).
Proof.
  rewrite (preview_exact demo_state) by apply demo_state_ok. by vm_compute.
Defined.
