(* ===== verification/Relay.v ===== *)
(** [src/relay.rs]: the relay's protocol engine.

    [Relay] answers discoveries and requests, authenticates membership updates
    and teardowns with the Response MAC, and commits the resulting membership
    state.  HMAC-SHA256 (the [hmac] and [sha2] crates) is the parameter [hmac] of
    every definition that computes a MAC; what the proofs use of it is that a
    digest is 32 bytes ([hmac_digest]).  A handler call reads the clock at one
    instant [now]; [fresh] is what [RelaySecret::try_generate] returns when the
    handler asks for randomness. *)

From S2P Require Import Prelude Net Protocol Ip Query Membership State.

(** * Data *)

(** [RelaySecret([u8; 32])]. *)
Record RelaySecret := mkSecret { expose_bytes : list Z }.

#[export] Instance RelaySecret_eq_dec : EqDecision RelaySecret.
Proof. solve_decision. Defined.

Record RelayConfig := mkRelayConfig {
  rc_bind : SocketAddr;
  rc_advertise_ipv4 : Ipv4Addr;
  rc_advertise_ipv6 : Ipv6Addr;
  rc_secret : RelaySecret;
  rc_include_gateway_address : bool;
  rc_ecn : bool;
  rc_limit : bool;
  rc_limits : RelayLimits;
  rc_secret_rotation_interval : option Z;
  rc_general_query : GeneralQueryConfig
}.

(** [RelayConfig::default()], given the generated secret. *)
Definition default_relay_config (secret : RelaySecret) : RelayConfig :=
  mkRelayConfig (SocketAddrV4 (mkIpv4 0 0 0 0) AMT_PORT) Ipv4_LOCALHOST Ipv6_LOCALHOST secret
    true false false default_relay_limits (Some (from_secs (2 * 60 * 60))) for_amt.

Definition with_advertise_addr (c : RelayConfig) (addr : IpAddr) : RelayConfig :=
  mkRelayConfig (rc_bind c)
    (match addr with V4 a => a | V6 _ => rc_advertise_ipv4 c end)
    (match addr with V6 a => a | V4 _ => rc_advertise_ipv6 c end)
    (rc_secret c) (rc_include_gateway_address c) (rc_ecn c) (rc_limit c) (rc_limits c)
    (rc_secret_rotation_interval c) (rc_general_query c).

Definition for_bind (secret : RelaySecret) (bind : SocketAddr) : RelayConfig :=
  let c := default_relay_config secret in
  let c := mkRelayConfig bind (rc_advertise_ipv4 c) (rc_advertise_ipv6 c) (rc_secret c)
    (rc_include_gateway_address c) (rc_ecn c) (rc_limit c) (rc_limits c)
    (rc_secret_rotation_interval c) (rc_general_query c) in
  if ip_is_unspecified (sock_ip bind) then c else with_advertise_addr c (sock_ip bind).

Definition advertised_addr_for (c : RelayConfig) (peer : SocketAddr) : IpAddr :=
  match peer with
  | SocketAddrV4 _ _ => V4 (rc_advertise_ipv4 c)
  | SocketAddrV6 _ _ _ _ => V6 (rc_advertise_ipv6 c)
  end.

Record PreviousSecret := mkPrevious { ps_secret : RelaySecret; ps_rotated_at : Z }.

Record Relay := mkRelay {
  relay_config : RelayConfig;
  relay_state : RelayState;
  relay_previous_secret : option PreviousSecret;
  relay_secret_rotated_at : Z;
  relay_gateway_ecn_capabilities : gmap SocketAddr Z
}.

Definition new_relay (now : Z) (config : RelayConfig) : Relay :=
  mkRelay config empty_state None now ∅.

Inductive RelayAction :=
| Send (datagram : list Z)
| AcceptedMembershipUpdate (protocol : MembershipProtocol) (bytes : Z) (records_applied : Z)
    (upstream_subscriptions : list UpstreamSubscription)
| AcceptedTeardown (gateway : GatewayEndpoint) (removed : bool)
| RejectedAuth
| Ignored.

Inductive RelayError :=
| RDecode (error : DecodeError)
| RMembership (error : MembershipParseError)
| RResourceLimit (error : StateLimitError)
| RZeroNonce.

#[export] Instance RelayAction_eq_dec : EqDecision RelayAction.
Proof. solve_decision. Defined.
#[export] Instance RelayError_eq_dec : EqDecision RelayError.
Proof. solve_decision. Defined.

(** Assignments to single fields of [self]. *)
Definition set_state (r : Relay) (st : RelayState) : Relay :=
  mkRelay (relay_config r) st (relay_previous_secret r) (relay_secret_rotated_at r)
    (relay_gateway_ecn_capabilities r).
Definition set_capabilities (r : Relay) (caps : gmap SocketAddr Z) : Relay :=
  mkRelay (relay_config r) (relay_state r) (relay_previous_secret r) (relay_secret_rotated_at r) caps.
Definition set_secret (c : RelayConfig) (secret : RelaySecret) : RelayConfig :=
  mkRelayConfig (rc_bind c) (rc_advertise_ipv4 c) (rc_advertise_ipv6 c) secret
    (rc_include_gateway_address c) (rc_ecn c) (rc_limit c) (rc_limits c)
    (rc_secret_rotation_interval c) (rc_general_query c).

(** * ECN capabilities and secret rotation *)

(** [query_interval(self.config.general_query.query_interval_code) * 2]. *)
Definition grace_period (c : RelayConfig) : Z := query_interval (query_interval_code (rc_general_query c)) * 2.

Definition gateway_capability_lifetime (r : Relay) : Z := grace_period (relay_config r).

Definition gateway_ecn_capable (now : Z) (r : Relay) (endpoint : SocketAddr) : bool :=
  rc_ecn (relay_config r) &&
  is_some_and (λ observed, elapsed now observed <=? gateway_capability_lifetime r)
    (relay_gateway_ecn_capabilities r !! endpoint).

Definition ecn_capable_gateway_count (now : Z) (r : Relay) : Z :=
  len (filter (λ endpoint, gateway_ecn_capable now r endpoint = true)
         (btree_keys (relay_gateway_ecn_capabilities r))).

Definition remember_gateway_ecn_capability (now : Z) (r : Relay) (endpoint : SocketAddr)
    (capable : bool) : Relay :=
  let caps := filter (λ p, elapsed now p.2 <= gateway_capability_lifetime r)
                (relay_gateway_ecn_capabilities r) in
  if negb (rc_ecn (relay_config r)) || negb capable
  then set_capabilities r (delete endpoint caps)
  else if bool_decide (is_Some (caps !! endpoint))
          || (map_len caps <? max_endpoints (rc_limits (relay_config r)))
  then set_capabilities r (<[endpoint := now]> caps)
  else set_capabilities r caps.

Definition rotate_secret_if_due (now : Z) (fresh : option RelaySecret) (r : Relay) : Relay :=
  match rc_secret_rotation_interval (relay_config r) with
  | None => r
  | Some interval =>
      if elapsed now (relay_secret_rotated_at r) <? interval then r
      else if is_some_and (λ previous, elapsed now (ps_rotated_at previous) <=? grace_period (relay_config r))
                (relay_previous_secret r) then r
      else
        match fresh with
        | None => r
        | Some next_secret =>
            mkRelay (set_secret (relay_config r) next_secret) (relay_state r)
              (Some (mkPrevious (rc_secret (relay_config r)) now)) now
              (relay_gateway_ecn_capabilities r)
        end
  end.

Definition refusing_new_endpoint (r : Relay) (address : IpAddr) : bool :=
  rc_limit (relay_config r)
  || is_near_limits (relay_state r) (rc_limits (relay_config r))
  || is_ip_near_endpoint_limit (relay_state r) address (max_endpoints_per_ip (rc_limits (relay_config r))).

Definition remove_gateway (r : Relay) (endpoint : SocketAddr) : Relay * bool :=
  let r := set_capabilities r (delete endpoint (relay_gateway_ecn_capabilities r)) in
  let '(st, removed) := remove_endpoint (relay_state r) endpoint in
  (set_state r st, removed).

Definition commit_state (r : Relay) (st : RelayState) : Relay := set_state r st.

(** * Message handling *)

Section hmac.
(** The 32-byte HMAC-SHA256 of a message under a key. *)
Variable hmac : list Z → list Z → list Z.

(** [digest[0] .. digest[5]]. *)
Definition response_mac_with_secret (secret : RelaySecret) (gateway_ip : IpAddr)
    (gateway_port request_nonce : Z) : ResponseMac :=
  let message :=
    ga_octets (from_ip_addr gateway_ip) ++ u16_to_be gateway_port ++ u32_to_be request_nonce in
  mkMac (take 6 (hmac (expose_bytes secret) message)).

Definition response_mac (r : Relay) (gateway_ip : IpAddr) (gateway_port request_nonce : Z) :
    ResponseMac :=
  response_mac_with_secret (rc_secret (relay_config r)) gateway_ip gateway_port request_nonce.

Definition valid_response_mac (now : Z) (r : Relay) (actual : ResponseMac) (gateway_ip : IpAddr)
    (gateway_port request_nonce : Z) : bool :=
  constant_time_eq actual (response_mac r gateway_ip gateway_port request_nonce)
  || is_some_and (λ previous,
       if grace_period (relay_config r) <? elapsed now (ps_rotated_at previous) then false
       else constant_time_eq actual
              (response_mac_with_secret (ps_secret previous) gateway_ip gateway_port request_nonce))
       (relay_previous_secret r).

(** [Message::Request]: the membership query sent back. *)
Definition query_response (r : Relay) (peer : SocketAddr) (request_nonce : Z)
    (protocol : MembershipProtocol) : res RelayError Message :=
  general_query ← build_general_query protocol (rc_general_query (relay_config r));
  Ok (MembershipQuery
        (response_mac r (sock_ip peer) (sock_port peer) request_nonce)
        request_nonce (refusing_new_endpoint r (sock_ip peer))
        (if rc_include_gateway_address (relay_config r)
         then Some (mkGatewayEndpoint (sock_port peer) (from_ip_addr (sock_ip peer))) else None)
        general_query).

(** [Message::MembershipUpdate]. *)
Definition prepare_update (now : Z) (r : Relay) (peer : SocketAddr) (mac : ResponseMac)
    (request_nonce : Z) (membership_update : list Z) :
    res RelayError (RelayAction * option RelayState) :=
  if valid_response_mac now r mac (sock_ip peer) (sock_port peer) request_nonce then
    if negb (contains_endpoint (relay_state r) peer) && refusing_new_endpoint r (sock_ip peer)
    then Ok (Ignored, None)
    else
      let limits := rc_limits (relay_config r) in
      report ← map_err RMembership
        (parse_membership_report_with_limits membership_update
           (mkParseLimits (max_records_per_report limits) (max_sources_per_group limits)));
      match head (filter (λ group, is_amt_forwardable_group group = false)
                    (rec_group <$> rep_records report)) with
      | Some group => Err (RMembership (InvalidMulticastGroup group))
      | None =>
          let '(records_applied, changed) := preview_report (relay_state r) peer report in
          if negb changed then
            Ok (AcceptedMembershipUpdate (rep_protocol report) (len membership_update)
                  records_applied (upstream_subscriptions (relay_state r)), None)
          else
            let '(next_state, result) := apply_report_limited (relay_state r) peer report limits in
            _ ← map_err RResourceLimit result;
            Ok (AcceptedMembershipUpdate (rep_protocol report) (len membership_update)
                  records_applied (upstream_subscriptions next_state), Some next_state)
      end
  else Ok (RejectedAuth, None).

(** The endpoint a teardown names. *)
Definition teardown_ip (gateway : GatewayEndpoint) : IpAddr :=
  match as_ipv4_compatible (ge_address gateway) with
  | Some a => V4 a
  | None => V6 (as_ipv6 (ge_address gateway))
  end.
Definition teardown_endpoint (gateway : GatewayEndpoint) : SocketAddr :=
  sock_new (teardown_ip gateway) (ge_port gateway).

(** [Message::Teardown]. *)
Definition prepare_teardown (now : Z) (r : Relay) (mac : ResponseMac) (request_nonce : Z)
    (gateway : GatewayEndpoint) : Relay * (RelayAction * option RelayState) :=
  let endpoint := teardown_endpoint gateway in
  if valid_response_mac now r mac (teardown_ip gateway) (ge_port gateway) request_nonce then
    let r := set_capabilities r (delete endpoint (relay_gateway_ecn_capabilities r)) in
    if negb (contains_endpoint (relay_state r) endpoint)
    then (r, (AcceptedTeardown gateway false, None))
    else
      let '(next_state, removed) := remove_endpoint (relay_state r) endpoint in
      (r, (AcceptedTeardown gateway removed, if removed then Some next_state else None))
  else (r, (RejectedAuth, None)).

(** The [match message]: the relay after it, and the result. *)
Definition prepare_message (now : Z) (r : Relay) (peer : SocketAddr) (message : Message) :
    Relay * res RelayError (RelayAction * option RelayState) :=
  match message with
  | RelayDiscovery discovery_nonce =>
      (r, if discovery_nonce =? 0 then Err RZeroNonce
          else Ok (Send (encode (RelayAdvertisement discovery_nonce
                                   (advertised_addr_for (relay_config r) peer))), None))
  | Request request_nonce protocol ecn_capable =>
      let r := remember_gateway_ecn_capability now r peer ecn_capable in
      (r, response ← query_response r peer request_nonce protocol;
          Ok (Send (encode response), None))
  | MembershipUpdate mac request_nonce membership_update =>
      (r, prepare_update now r peer mac request_nonce membership_update)
  | Teardown mac request_nonce gateway =>
      let '(r, result) := prepare_teardown now r mac request_nonce gateway in (r, Ok result)
  | RelayAdvertisement _ _ | MembershipQuery _ _ _ _ _ | MulticastData _ => (r, Ok (Ignored, None))
  end.

Definition prepare_datagram (now : Z) (fresh : option RelaySecret) (r : Relay) (peer : SocketAddr)
    (datagram : list Z) : Relay * res RelayError (RelayAction * option RelayState) :=
  let r := rotate_secret_if_due now fresh r in
  match map_err RDecode (decode datagram) with
  | Ok message => prepare_message now r peer message
  | Err e => (r, Err e)
  | Panic => (r, Panic)
  | Diverge => (r, Diverge)
  end.

Definition handle_datagram (now : Z) (fresh : option RelaySecret) (r : Relay) (peer : SocketAddr)
    (datagram : list Z) : Relay * res RelayError RelayAction :=
  let '(r, result) := prepare_datagram now fresh r peer datagram in
  match result with
  | Ok (action, Some next_state) => (commit_state r next_state, Ok action)
  | Ok (action, None) => (r, Ok action)
  | Err e => (r, Err e)
  | Panic => (r, Panic)
  | Diverge => (r, Diverge)
  end.

(** * Invariant *)

(** The 32-byte digest. *)
Hypothesis hmac_digest : ∀ key message, len (hmac key message) = 32 ∧ bytes (hmac key message).

Lemma response_mac_wf secret ip port nonce :
  mac_wf (response_mac_with_secret secret ip port nonce).
Proof.
  destruct (hmac_digest (expose_bytes secret)
    (ga_octets (from_ip_addr ip) ++ u16_to_be port ++ u32_to_be nonce)) as [Hl Hb].
  split; unfold response_mac_with_secret; cbn [mac_bytes]; [rewrite len_take, Hl; lia|by apply bytes_take].
Qed.

(** The secrets the relay accepts at [now]. *)
Definition accepted_secret (now : Z) (r : Relay) (secret : RelaySecret) : Prop :=
  secret = rc_secret (relay_config r) ∨
  ∃ previous, relay_previous_secret r = Some previous ∧ ps_secret previous = secret ∧
    elapsed now (ps_rotated_at previous) <= grace_period (relay_config r).

Lemma valid_response_mac_spec now r mac ip port nonce :
  mac_wf mac →
  valid_response_mac now r mac ip port nonce = true ↔
  ∃ secret, accepted_secret now r secret ∧ mac = response_mac_with_secret secret ip port nonce.
Proof.
  intros Hm. unfold valid_response_mac, accepted_secret.
  rewrite orb_true_iff, constant_time_eq_spec by (done || apply response_mac_wf). split.
  - intros [->|Hp]; [eauto|]. destruct (relay_previous_secret r) as [previous|]; [|done]. simpl in Hp.
    destruct (Z.ltb_spec (grace_period (relay_config r)) (elapsed now (ps_rotated_at previous))); [done|].
    apply constant_time_eq_spec in Hp as ->; [|done|apply response_mac_wf]. eauto 10.
  - intros (secret & [->|(previous & Hp & <- & He)] & ->); [by left|right]. rewrite Hp. simpl.
    rewrite (proj2 (Z.ltb_ge _ _)) by done. apply constant_time_eq_spec; (done || apply response_mac_wf).
Qed.

(** What the handlers never change: the configuration but for the secret. *)
Definition same_settings (c c' : RelayConfig) : Prop := set_secret c (rc_secret c') = c'.

Lemma same_settings_refl c : same_settings c c.
Proof. by destruct c. Qed.
Lemma same_settings_trans c1 c2 c3 : same_settings c1 c2 → same_settings c2 c3 → same_settings c1 c3.
Proof. unfold same_settings, set_secret. by intros <- <-. Qed.

Definition limits_wf (l : RelayLimits) : Prop :=
  0 <= max_endpoints l ∧ 0 <= max_endpoints_per_ip l ∧ 0 <= max_total_endpoint_groups l ∧
  0 <= max_total_sources l.

Definition relay_ok (r : Relay) : Prop :=
  state_ok (relay_state r) ∧ stored_within (rc_limits (relay_config r)) (relay_state r) ∧
  map_len (relay_gateway_ecn_capabilities r) <= max_endpoints (rc_limits (relay_config r)) ∧
  query_config_wf (rc_general_query (relay_config r)).

Lemma new_relay_ok now c :
  limits_wf (rc_limits c) → query_config_wf (rc_general_query c) → relay_ok (new_relay now c).
Proof.
  intros (He & Hi & Hg & Hs) Hq. split; [apply empty_state_ok|]. split; [|done]. by repeat split.
Qed.

Lemma rotate_secret_ok now fresh r : relay_ok r → relay_ok (rotate_secret_if_due now fresh r).
Proof.
  intros Hr. unfold rotate_secret_if_due. destruct (rc_secret_rotation_interval _); [|done].
  repeat case_match; done.
Qed.

Lemma rotate_secret_settings now fresh r :
  same_settings (relay_config r) (relay_config (rotate_secret_if_due now fresh r)) ∧
  relay_state (rotate_secret_if_due now fresh r) = relay_state r.
Proof.
  unfold rotate_secret_if_due. destruct (rc_secret_rotation_interval _);
    [|by split; [apply same_settings_refl|]].
  repeat case_match; (split; [|done]); try apply same_settings_refl. done.
Qed.

Lemma map_len_insert `{Countable K} {V} (m : gmap K V) k v :
  map_len (<[k := v]> m) = if decide (is_Some (m !! k)) then map_len m else map_len m + 1.
Proof. unfold map_len. rewrite map_size_insert. repeat case_match; lia || done. Qed.

Lemma remember_ecn_ok now r peer capable :
  relay_ok r → relay_ok (remember_gateway_ecn_capability now r peer capable).
Proof.
  intros (Hs & Hw & Hc & Hq). unfold remember_gateway_ecn_capability.
  set (caps := filter _ (relay_gateway_ecn_capabilities r)).
  assert (map_len caps <= max_endpoints (rc_limits (relay_config r))) as Hcaps
    by (etransitivity; [apply map_len_mono, map_filter_subseteq|done]).
  repeat case_match; (split_and!; try done); simpl.
  - etransitivity; [|done]. apply map_len_mono, delete_subseteq.
  - rewrite map_len_insert. case_decide as Hs'; [done|].
    rewrite bool_decide_eq_false_2 in H0 by done. simpl in H0. apply Z.ltb_lt in H0. lia.
Qed.

(** * What a datagram can do *)

(** The state a handler hands back for commit: the effect of an accepted
    report of [peer], or the removal of the endpoint of a valid teardown. *)
Inductive justified (now : Z) (r : Relay) (peer : SocketAddr) (next : RelayState) : Message → Prop :=
| justified_update mac nonce update report applied :
    valid_response_mac now r mac (sock_ip peer) (sock_port peer) nonce = true →
    parse_membership_report_with_limits update
      (mkParseLimits (max_records_per_report (rc_limits (relay_config r)))
         (max_sources_per_group (rc_limits (relay_config r)))) = Ok report →
    Forall (λ record, is_amt_forwardable_group (rec_group record) = true) (rep_records report) →
    apply_report_limited (relay_state r) peer report (rc_limits (relay_config r)) = (next, Ok applied) →
    justified now r peer next (MembershipUpdate mac nonce update)
| justified_teardown mac nonce gateway :
    valid_response_mac now r mac (teardown_ip gateway) (ge_port gateway) nonce = true →
    next = (remove_endpoint (relay_state r) (teardown_endpoint gateway)).1 →
    justified now r peer next (Teardown mac nonce gateway).

Lemma apply_report_limited_returns st e report limits :
  state_ok st → returns (apply_report_limited st e report limits).2.
Proof.
  intros Hst. pose proof (apply_report_limited_spec st e report limits Hst) as H.
  by destruct (apply_report_limited st e report limits).2.
Qed.

Lemma forwardable_groups records :
  head (filter (λ group, is_amt_forwardable_group group = false) (rec_group <$> records)) = None →
  Forall (λ record, is_amt_forwardable_group (rec_group record) = true) records.
Proof.
  induction records as [|r records IH]; [constructor|]. rewrite fmap_cons, filter_cons.
  destruct (is_amt_forwardable_group (rec_group r)) eqn:Hf; simpl; [|done]. intros. constructor; auto.
Qed.

Lemma prepare_update_wp now r peer mac nonce update :
  state_ok (relay_state r) → bytes update →
  wp (prepare_update now r peer mac nonce update)
    (λ result, match result.2 with
               | Some next => justified now r peer next (MembershipUpdate mac nonce update)
               | None => True
               end) (λ _, True).
Proof.
  intros Hst Hb. unfold prepare_update. destruct (valid_response_mac _ _ _ _ _ _) eqn:Hv; [|done].
  destruct (_ && _); [done|]. apply wp_bind, wp_map_err.
  set (limits := mkParseLimits _ _).
  pose proof (parse_membership_report_with_limits_wp update limits Hb) as Hp.
  destruct (parse_membership_report_with_limits update limits) as [report|e| |] eqn:Hparse; try done.
  cbn [wp]. destruct (head _) eqn:Hh; [done|]. apply forwardable_groups in Hh.
  destruct (preview_report _ _ _) as [applied changed]. destruct changed; [|done]. cbn [negb].
  pose proof (apply_report_limited_returns (relay_state r) peer report (rc_limits (relay_config r)) Hst) as Hr.
  destruct (apply_report_limited _ _ _ _) as [next [n|e| |]] eqn:Ha; try done.
  cbn. by eapply justified_update.
Qed.

Lemma query_response_ok r peer nonce protocol :
  query_config_wf (rc_general_query (relay_config r)) →
  query_response r peer nonce protocol =
  Ok (MembershipQuery (response_mac r (sock_ip peer) (sock_port peer) nonce) nonce
        (refusing_new_endpoint r (sock_ip peer))
        (if rc_include_gateway_address (relay_config r)
         then Some (mkGatewayEndpoint (sock_port peer) (from_ip_addr (sock_ip peer))) else None)
        (general_query_packet protocol (rc_general_query (relay_config r)))).
Proof. intros Hq. unfold query_response. by rewrite build_general_query_eq. Qed.

Lemma remember_ecn_fields now r peer capable :
  let r' := remember_gateway_ecn_capability now r peer capable in
  relay_config r' = relay_config r ∧ relay_state r' = relay_state r ∧
  relay_previous_secret r' = relay_previous_secret r ∧
  relay_secret_rotated_at r' = relay_secret_rotated_at r.
Proof. unfold remember_gateway_ecn_capability. by repeat case_match. Qed.

Lemma prepare_message_spec now r peer message r' result :
  relay_ok r → message_wf message → prepare_message now r peer message = (r', result) →
  relay_ok r' ∧ relay_config r' = relay_config r ∧ relay_state r' = relay_state r ∧
  relay_previous_secret r' = relay_previous_secret r ∧
  relay_secret_rotated_at r' = relay_secret_rotated_at r ∧
  wp result (λ p, match p.2 with Some next => justified now r peer next message | None => True end) (λ _, True).
Proof.
  intros Hok Hwf Hp. destruct message as [n|n a|n p e|mac n l g q|mac n u|p|mac n g]; simpl in Hp; simplify_eq.
  - split_and!; try done. by destruct (n =? 0).
  - by split_and!.
  - destruct (remember_ecn_fields now r peer e) as (Hc & Hs & Hps & Hat).
    pose proof (remember_ecn_ok now r peer e Hok) as Hok'. split_and!; try done.
    rewrite query_response_ok by apply Hok'. done.
  - by split_and!.
  - destruct Hok as (Hst & ?). split_and!; try done. apply prepare_update_wp; [done|apply Hwf].
  - by split_and!.
  - unfold prepare_teardown in Hp. destruct (valid_response_mac _ _ _ _ _ _) eqn:Hv;
      [|simplify_eq; by split_and!].
    assert (relay_ok (set_capabilities r (delete (teardown_endpoint g) (relay_gateway_ecn_capabilities r))))
      as Hok'.
    { destruct Hok as (? & ? & Hc & ?). split_and!; try done. simpl. etransitivity; [|exact Hc].
      apply map_len_mono, delete_subseteq. }
    destruct (contains_endpoint _ _); cbn [negb] in Hp; [|simplify_eq; by split_and!].
    destruct (remove_endpoint _ _) as [next removed] eqn:Hrm. simplify_eq. split_and!; try done.
    cbn. destruct removed; [|done]. eapply justified_teardown; [done|].
    change (relay_state (set_capabilities r _)) with (relay_state r) in Hrm. by rewrite Hrm.
Qed.

(** The endpoint a message speaks for. *)
Definition speaks_for (peer : SocketAddr) (message : Message) : SocketAddr :=
  match message with Teardown _ _ gateway => teardown_endpoint gateway | _ => peer end.

(** The MAC and nonce a message is authenticated by. *)
Definition credentials (message : Message) : option (ResponseMac * Z) :=
  match message with
  | MembershipUpdate mac nonce _ | Teardown mac nonce _ => Some (mac, nonce)
  | _ => None
  end.

Lemma justified_ok now r peer next message :
  relay_ok r → justified now r peer next message →
  state_ok next ∧ stored_within (rc_limits (relay_config r)) next.
Proof.
  intros (Hst & Hw & _) [mac nonce update report applied _ _ _ Ha|mac nonce gateway _ ->].
  - pose proof (apply_report_limited_ok _ peer report (rc_limits (relay_config r)) Hst) as H1.
    pose proof (stored_within_limited _ peer report _ Hst Hw) as H2. by rewrite Ha in H1, H2.
  - split; [by apply remove_endpoint_ok|by apply stored_within_remove].
Qed.

Lemma justified_isolated now r peer next message e group source :
  state_ok (relay_state r) → justified now r peer next message → e ≠ speaks_for peer message →
  wants next e group source = wants (relay_state r) e group source.
Proof.
  intros Hst [mac nonce update report applied _ _ _ Ha|mac nonce gateway _ ->]; cbn [speaks_for]; intros He.
  - pose proof (apply_report_limited_spec _ peer report (rc_limits (relay_config r)) Hst) as Hs.
    rewrite Ha in Hs. simpl in Hs. destruct Hs as [-> _]. rewrite wants_apply_report by done.
    unfold spec_report. by rewrite decide_False.
  - rewrite wants_remove_endpoint. unfold spec_remove. by rewrite decide_False.
Qed.

Lemma justified_credentials now r peer next message :
  justified now r peer next message →
  ∃ mac nonce, credentials message = Some (mac, nonce) ∧
    valid_response_mac now r mac (sock_ip (speaks_for peer message))
      (sock_port (speaks_for peer message)) nonce = true.
Proof.
  intros [mac nonce update report applied Hv _ _ _|mac nonce gateway Hv _]; simpl; exists mac, nonce.
  - done.
  - unfold teardown_endpoint. by rewrite sock_ip_new, sock_port_new.
Qed.

Lemma decode_bytes_wf datagram message : bytes datagram → decode datagram = Ok message → message_wf message.
Proof. intros Hb Hd. pose proof (decode_wp datagram) as H. rewrite Hd in H. by apply H. Qed.

Lemma handle_datagram_spec now fresh r peer datagram r' result :
  relay_ok r → bytes datagram → handle_datagram now fresh r peer datagram = (r', result) →
  relay_ok r' ∧ returns result ∧ same_settings (relay_config r) (relay_config r') ∧
  relay_config r' = relay_config (rotate_secret_if_due now fresh r) ∧
  relay_previous_secret r' = relay_previous_secret (rotate_secret_if_due now fresh r) ∧
  (relay_state r' = relay_state r ∨
   ∃ message, decode datagram = Ok message ∧
     justified now (rotate_secret_if_due now fresh r) peer (relay_state r') message).
Proof.
  intros Hok Hb. unfold handle_datagram, prepare_datagram.
  pose proof (rotate_secret_ok now fresh r Hok) as Hok0.
  destruct (rotate_secret_settings now fresh r) as [Hset Hst].
  set (r0 := rotate_secret_if_due now fresh r) in *. pose proof (decode_wp datagram) as Hd.
  destruct (decode datagram) as [message|e| |] eqn:Hdec; try done; cbn [map_err].
  2: { intros ?; simplify_eq. split_and!; try done. by left. }
  assert (message_wf message) as Hwf by by apply Hd.
  destruct (prepare_message now r0 peer message) as [r1 res1] eqn:Hm.
  destruct (prepare_message_spec now r0 peer message r1 res1 Hok0 Hwf Hm) as (Hok1 & Hc1 & Hs1 & Hp1 & _ & Hres).
  rewrite <- Hc1, <- Hp1 in *. destruct res1 as [[action [next|]]|e| |]; try done; intros ?; simplify_eq.
  - cbn in Hres. split_and!; try done; [|right; eauto].
    destruct (justified_ok _ _ _ _ _ Hok0 Hres). rewrite <- Hc1 in *. destruct Hok1 as (_ & _ & ? & ?).
    by split_and!.
  - split_and!; try done. left. congruence.
  - split_and!; try done. left. congruence.
Qed.

(** ** Runs of the relay *)

(** One call of [handle_datagram]: clock, randomness, sender, datagram. *)
Record RelayEvent := mkEvent {
  ev_now : Z;
  ev_fresh : option RelaySecret;
  ev_peer : SocketAddr;
  ev_datagram : list Z
}.

Definition relay_event (r : Relay) (ev : RelayEvent) : Relay :=
  (handle_datagram (ev_now ev) (ev_fresh ev) r (ev_peer ev) (ev_datagram ev)).1.
Definition run_relay (r : Relay) (events : list RelayEvent) : Relay := foldl relay_event r events.

(** [secret] was the relay's secret at [t0] and has not been discarded. *)
Definition secret_alive (t0 : Z) (secret : RelaySecret) (r : Relay) : Prop :=
  rc_secret (relay_config r) = secret ∨
  ∃ previous, relay_previous_secret r = Some previous ∧ ps_secret previous = secret ∧
    t0 <= ps_rotated_at previous.

Lemma secret_alive_accepted t0 now secret r :
  secret_alive t0 secret r → t0 <= now <= t0 + grace_period (relay_config r) →
  accepted_secret now r secret.
Proof.
  intros [<-|(previous & Hp & Hs & Ht)] Hnow; [by left|right]. exists previous. split_and!; try done.
  unfold elapsed. lia.
Qed.

Lemma rotate_alive t0 now fresh secret r :
  secret_alive t0 secret r → t0 <= now <= t0 + grace_period (relay_config r) →
  secret_alive t0 secret (rotate_secret_if_due now fresh r).
Proof.
  intros Ha Hnow. unfold rotate_secret_if_due. destruct (rc_secret_rotation_interval _); [|done].
  destruct (elapsed now _ <? _); [done|]. destruct (is_some_and _ _) eqn:Hg; [done|].
  destruct fresh as [next|]; [|done]. destruct Ha as [<-|(previous & Hp & _ & Ht)].
  - right. eexists. split_and!; [done|done|]. simpl. lia.
  - rewrite Hp in Hg. simpl in Hg. apply Z.leb_gt in Hg. unfold elapsed in Hg. lia.
Qed.

Lemma grace_same_settings c c' : same_settings c c' → grace_period c' = grace_period c.
Proof. by intros <-. Qed.

Lemma run_relay_alive events : ∀ t0 secret r,
  relay_ok r → secret_alive t0 secret r →
  Forall (λ ev, bytes (ev_datagram ev) ∧ t0 <= ev_now ev <= t0 + grace_period (relay_config r)) events →
  relay_ok (run_relay r events) ∧ secret_alive t0 secret (run_relay r events) ∧
  same_settings (relay_config r) (relay_config (run_relay r events)).
Proof.
  induction events as [|ev events IH]; intros t0 secret r Hok Ha Hev;
    [split_and!; [done..|apply same_settings_refl]|].
  apply Forall_cons in Hev as [[Hb Ht] Hev]. simpl.
  destruct (handle_datagram (ev_now ev) (ev_fresh ev) r (ev_peer ev) (ev_datagram ev)) as [r' result] eqn:Hh.
  destruct (handle_datagram_spec _ _ _ _ _ _ _ Hok Hb Hh) as (Hok' & _ & Hset & Hc & Hp & _).
  assert (relay_event r ev = r') as -> by (unfold relay_event; by rewrite Hh).
  destruct (IH t0 secret r') as (? & ? & Hset'); try done.
  - pose proof (rotate_alive t0 (ev_now ev) (ev_fresh ev) secret r Ha Ht) as Ha'.
    unfold secret_alive in *. by rewrite Hc, Hp.
  - by rewrite (grace_same_settings _ _ Hset).
  - split_and!; try done. by eapply same_settings_trans.
Qed.

(** ** Teardowns *)

(** The endpoint fields a relay puts into a query for [peer]. *)
Definition gateway_of (peer : SocketAddr) : GatewayEndpoint :=
  mkGatewayEndpoint (sock_port peer) (from_ip_addr (sock_ip peer)).

(** Peers the 18-byte endpoint fields identify: IPv4, or IPv6 without flow
    label and scope and outside [::/96]. *)
Definition identifiable (peer : SocketAddr) : Prop :=
  match peer with
  | SocketAddrV4 _ _ => True
  | SocketAddrV6 ip _ flow scope =>
      flow = 0 ∧ scope = 0 ∧ as_ipv4_compatible (from_ip_addr (V6 ip)) = None
  end.

Lemma teardown_endpoint_gateway_of peer : identifiable peer → teardown_endpoint (gateway_of peer) = peer.
Proof.
  destruct peer as [ip port|[o] port flow scope]; unfold teardown_endpoint, teardown_ip, gateway_of;
    cbn [ge_address ge_port sock_ip sock_port].
  - intros _. by rewrite as_ipv4_compatible_from_v4.
  - simpl. by intros (-> & -> & ->).
Qed.

Lemma teardown_endpoint_not_scoped gateway ip port flow scope :
  flow ≠ 0 ∨ scope ≠ 0 → teardown_endpoint gateway ≠ SocketAddrV6 ip port flow scope.
Proof. clear hmac_digest. unfold teardown_endpoint, sock_new. destruct (teardown_ip gateway); naive_solver. Qed.

(** The relay after a datagram that decodes to a teardown. *)
Lemma handle_teardown now fresh r peer mac nonce gateway :
  relay_ok r → mac_wf mac → u32 nonce → ge_wf gateway →
  let r0 := rotate_secret_if_due now fresh r in
  let valid := valid_response_mac now r0 mac (teardown_ip gateway) (ge_port gateway) nonce in
  let endpoint := teardown_endpoint gateway in
  handle_datagram now fresh r peer (encode (Teardown mac nonce gateway)) =
  if valid then
    (set_state (set_capabilities r0 (delete endpoint (relay_gateway_ecn_capabilities r0)))
       (remove_endpoint (relay_state r) endpoint).1,
     Ok (AcceptedTeardown gateway (contains_endpoint (relay_state r) endpoint)))
  else (r0, Ok RejectedAuth).
Proof.
  clear hmac_digest. intros Hok Hm Hn Hg r0 valid endpoint. unfold handle_datagram, prepare_datagram.
  rewrite decode_encode by done. cbn [map_err prepare_message]. unfold prepare_teardown. fold r0 valid endpoint.
  destruct valid; [|done]. destruct (rotate_secret_settings now fresh r) as [_ Hst]. fold r0 in Hst.
  destruct r0 as [c st ps at0 caps]; cbn in Hst; subst st. cbn [relay_state set_capabilities].
  unfold remove_endpoint. fold (contains_endpoint (relay_state r) endpoint).
  destruct (contains_endpoint (relay_state r) endpoint) eqn:Hc; [done|].
  unfold contains_endpoint in Hc. rewrite bool_decide_eq_false, <- eq_None_not_Some in Hc.
  assert (with_endpoints (relay_state r) (delete endpoint (endpoints (relay_state r))) = relay_state r) as ->; [|done].
  rewrite delete_id by done. by destruct (relay_state r).
Qed.

(** * Properties *)

(** The relay handles every datagram from every peer: no input makes it
    panic or loop, its invariant (coherent indexes, bounded state, bounded ECN
    table) holds again afterwards, and of the configuration only the secret
    can have changed. *)
Theorem relay_handles_every_datagram now fresh r peer datagram :
  relay_ok r → bytes datagram →
  returns (handle_datagram now fresh r peer datagram).2 ∧
  relay_ok (handle_datagram now fresh r peer datagram).1 ∧
  same_settings (relay_config r) (relay_config (handle_datagram now fresh r peer datagram).1).
Proof.
  intros Hok Hb. destruct (handle_datagram now fresh r peer datagram) as [r' result] eqn:Hh.
  by destruct (handle_datagram_spec _ _ _ _ _ _ _ Hok Hb Hh) as (? & ? & ? & _).
Qed.

(** C2: Membership state changes only on authenticated messages, and only for the
    endpoint they speak for: if a datagram changes the relay's membership
    state, it is an update or a teardown whose MAC is the HMAC of that
    endpoint's address, port and nonce under the current secret or the
    previous one within its grace period, and no other endpoint's interests
    change. *)
Theorem state_change_authenticated now fresh r peer datagram :
  relay_ok r → bytes datagram →
  relay_state (handle_datagram now fresh r peer datagram).1 ≠ relay_state r →
  ∃ message mac nonce secret,
    let endpoint := speaks_for peer message in
    decode datagram = Ok message ∧ credentials message = Some (mac, nonce) ∧
    accepted_secret now (rotate_secret_if_due now fresh r) secret ∧
    mac = response_mac_with_secret secret (sock_ip endpoint) (sock_port endpoint) nonce ∧
    ∀ e group source, e ≠ endpoint →
      wants (relay_state (handle_datagram now fresh r peer datagram).1) e group source =
      wants (relay_state r) e group source.
Proof.
  intros Hok Hb Hne. destruct (handle_datagram now fresh r peer datagram) as [r' result] eqn:Hh.
  destruct (handle_datagram_spec _ _ _ _ _ _ _ Hok Hb Hh) as (_ & _ & _ & _ & _ & [|(message & Hd & Hj)]);
    [done|].
  pose proof (decode_bytes_wf _ _ Hb Hd) as Hwf.
  destruct (justified_credentials _ _ _ _ _ Hj) as (mac & nonce & Hc & Hv).
  assert (mac_wf mac) as Hm by (destruct message; simplify_eq/=; apply Hwf).
  apply valid_response_mac_spec in Hv as (secret & Hs & Hmac); [|done].
  destruct (rotate_secret_settings now fresh r) as [_ Hst].
  exists message, mac, nonce, secret. split_and!; try done. intros e g s He.
  rewrite <- Hst. eapply justified_isolated; [rewrite Hst; apply Hok|done|done].
Qed.

(** C22: A response MAC lives for two query intervals: the reply to a request
    carries a MAC for the requester and its nonce, and whatever datagrams the
    relay handles in the next two query intervals, with secrets rotating in
    between, an update or teardown presenting that MAC is still accepted as
    authentic. *)
Theorem response_mac_lifetime t0 now fresh fresh' r peer nonce protocol ecn events :
  relay_ok r → sock_wf peer → u32 nonce →
  Forall (λ ev, bytes (ev_datagram ev) ∧ t0 <= ev_now ev <= t0 + grace_period (relay_config r)) events →
  t0 <= now <= t0 + grace_period (relay_config r) →
  ∃ r1 mac limit gateway query,
    handle_datagram t0 fresh r peer (encode (Request nonce protocol ecn)) =
      (r1, Ok (Send (encode (MembershipQuery mac nonce limit gateway query)))) ∧
    valid_response_mac now (rotate_secret_if_due now fresh' (run_relay r1 events)) mac
      (sock_ip peer) (sock_port peer) nonce = true.
Proof.
  intros Hok Hp Hn Hev Hnow. unfold handle_datagram, prepare_datagram. rewrite decode_encode by done.
  cbn [map_err prepare_message].
  pose proof (rotate_secret_ok t0 fresh r Hok) as Hok0.
  destruct (rotate_secret_settings t0 fresh r) as [Hset0 _].
  set (r0 := rotate_secret_if_due t0 fresh r) in *.
  pose proof (remember_ecn_ok t0 r0 peer ecn Hok0) as Hok1.
  destruct (remember_ecn_fields t0 r0 peer ecn) as (Hc & _ & _ & _).
  set (r1 := remember_gateway_ecn_capability t0 r0 peer ecn) in *.
  rewrite query_response_ok by apply Hok1. cbn [mbind res_bind]. do 5 eexists. split; [done|].
  assert (grace_period (relay_config r1) = grace_period (relay_config r)) as Hg
    by (rewrite Hc; by apply grace_same_settings).
  destruct (run_relay_alive events t0 (rc_secret (relay_config r1)) r1) as (_ & Ha & Hs); [done|by left|by rewrite Hg|].
  apply valid_response_mac_spec; [apply response_mac_wf|]. exists (rc_secret (relay_config r1)). split; [|done].
  eapply secret_alive_accepted.
  - apply rotate_alive; [done|]. by rewrite (grace_same_settings _ _ Hs), Hg.
  - rewrite (grace_same_settings _ _ (proj1 (rotate_secret_settings _ _ _))).
    by rewrite (grace_same_settings _ _ Hs), Hg.
Qed.

(** An authentic teardown for an identifiable peer takes effect wherever it is
    sent from: the endpoint is gone from the relay's state and from its ECN
    table, and the action reports whether it was there. *)
Theorem teardown_removes_endpoint now fresh r sender peer nonce :
  relay_ok r → sock_wf peer → u32 nonce → identifiable peer →
  let r0 := rotate_secret_if_due now fresh r in
  let mac := response_mac r0 (sock_ip peer) (sock_port peer) nonce in
  ∃ r', handle_datagram now fresh r sender (encode (Teardown mac nonce (gateway_of peer))) =
      (r', Ok (AcceptedTeardown (gateway_of peer) (contains_endpoint (relay_state r) peer))) ∧
    contains_endpoint (relay_state r') peer = false ∧
    relay_gateway_ecn_capabilities r' !! peer = None ∧
    ∀ group source, wants (relay_state r') peer group source = false.
Proof.
  intros Hok [Hip Hport] Hn Hid r0 mac.
  assert (teardown_endpoint (gateway_of peer) = peer) as Hte by by apply teardown_endpoint_gateway_of.
  rewrite handle_teardown; [|done|apply response_mac_wf|done|by split; [|apply from_ip_addr_wf]].
  assert (teardown_ip (gateway_of peer) = sock_ip peer) as Hti
    by (rewrite <- Hte at 2; unfold teardown_endpoint; by rewrite sock_ip_new).
  assert (valid_response_mac now r0 mac (teardown_ip (gateway_of peer)) (ge_port (gateway_of peer)) nonce = true)
    as Hv.
  { rewrite Hti. apply valid_response_mac_spec; [apply response_mac_wf|]. eexists. split; [by left|done]. }
  fold r0. rewrite Hv, Hte. eexists. split; [done|]. cbn [relay_state set_state relay_gateway_ecn_capabilities].
  split_and!.
  - unfold contains_endpoint. by rewrite endpoints_remove_endpoint, lookup_delete_eq.
  - apply lookup_delete_eq.
  - intros. rewrite wants_remove_endpoint. unfold spec_remove. by rewrite decide_True.
Qed.

(** A teardown cannot reach an IPv6 peer whose socket address has a flow label
    or a scope id (every link-local peer): the relay rebuilds the endpoint from
    address and port alone, so no teardown, authentic or not, changes what that
    peer is subscribed to. *)
Theorem teardown_misses_scoped_peer now fresh r sender ip port flow scope mac nonce gateway :
  relay_ok r → mac_wf mac → u32 nonce → ge_wf gateway → flow ≠ 0 ∨ scope ≠ 0 →
  let peer := SocketAddrV6 ip port flow scope in
  let r' := (handle_datagram now fresh r sender (encode (Teardown mac nonce gateway))).1 in
  contains_endpoint (relay_state r') peer = contains_endpoint (relay_state r) peer ∧
  ∀ group source, wants (relay_state r') peer group source = wants (relay_state r) peer group source.
Proof.
  clear hmac_digest. intros Hok Hm Hn Hg Hs peer r'. unfold r'. rewrite handle_teardown by done.
  pose proof (teardown_endpoint_not_scoped gateway ip port flow scope Hs) as Hne. fold peer in Hne.
  destruct (valid_response_mac _ _ _ _ _ _).
  - cbn [fst relay_state set_state]. split.
    + unfold contains_endpoint. rewrite endpoints_remove_endpoint, lookup_delete_ne by done. done.
    + intros. rewrite wants_remove_endpoint. unfold spec_remove. by rewrite decide_False.
  - cbn [fst]. destruct (rotate_secret_settings now fresh r) as [_ Hst]. by rewrite Hst.
Qed.

Lemma head_filter_none {A} (P : A → Prop) `{!∀ x, Decision (P x)} l :
  Forall (λ x, ¬ P x) l → head (filter P l) = None.
Proof. induction 1; [done|]. rewrite filter_cons. by case_decide. Qed.

Lemma prepare_update_authentic now r peer mac nonce update report :
  state_ok (relay_state r) →
  valid_response_mac now r mac (sock_ip peer) (sock_port peer) nonce = true →
  contains_endpoint (relay_state r) peer = true ∨ refusing_new_endpoint r (sock_ip peer) = false →
  parse_membership_report_with_limits update
    (mkParseLimits (max_records_per_report (rc_limits (relay_config r)))
       (max_sources_per_group (rc_limits (relay_config r)))) = Ok report →
  Forall (λ record, is_amt_forwardable_group (rec_group record) = true) (rep_records report) →
  let '(st', applied) := apply_report (relay_state r) peer report in
  let accepted := AcceptedMembershipUpdate (rep_protocol report) (len update) applied
                    (upstream_subscriptions st') in
  prepare_update now r peer mac nonce update =
  if bool_decide (st' = relay_state r) then Ok (accepted, None)
  else match (apply_report_limited (relay_state r) peer report (rc_limits (relay_config r))).2 with
       | Ok _ => Ok (accepted, Some st')
       | Err e => Err (RResourceLimit e)
       | Panic => Panic
       | Diverge => Diverge
       end.
Proof.
  intros Hst Hv Hknown Hparse Hfwd. unfold prepare_update. rewrite Hv.
  assert (negb (contains_endpoint (relay_state r) peer) && refusing_new_endpoint r (sock_ip peer) = false) as ->
    by (destruct Hknown as [-> | ->]; [done|apply andb_false_r]).
  rewrite Hparse. cbn [map_err mbind res_bind]. rewrite head_filter_none.
  2: { rewrite Forall_fmap. eapply Forall_impl; [exact Hfwd|]. simpl. congruence. }
  pose proof (apply_report_limited_spec (relay_state r) peer report (rc_limits (relay_config r)) Hst) as Hl.
  rewrite preview_report_spec by done.
  destruct (apply_report (relay_state r) peer report) as [st' applied]; cbn [fst snd] in *.
  case_bool_decide as Hsame; [by subst|]. cbn [negb].
  destruct (apply_report_limited _ _ _ _) as [next [n|e| |]]; cbn in *; [|done..].
  by destruct Hl as (-> & -> & _).
Qed.

(** The same for the whole datagram handler. *)
Lemma handle_update_authentic now fresh r peer mac nonce update report :
  let r0 := rotate_secret_if_due now fresh r in
  relay_ok r → mac_wf mac → u32 nonce → bytes update →
  valid_response_mac now r0 mac (sock_ip peer) (sock_port peer) nonce = true →
  contains_endpoint (relay_state r) peer = true ∨ refusing_new_endpoint r0 (sock_ip peer) = false →
  parse_membership_report_with_limits update
    (mkParseLimits (max_records_per_report (rc_limits (relay_config r)))
       (max_sources_per_group (rc_limits (relay_config r)))) = Ok report →
  Forall (λ record, is_amt_forwardable_group (rec_group record) = true) (rep_records report) →
  let '(st', applied) := apply_report (relay_state r) peer report in
  let accepted := AcceptedMembershipUpdate (rep_protocol report) (len update) applied
                    (upstream_subscriptions st') in
  handle_datagram now fresh r peer (encode (MembershipUpdate mac nonce update)) =
  if bool_decide (st' = relay_state r) then (r0, Ok accepted)
  else match (apply_report_limited (relay_state r) peer report (rc_limits (relay_config r))).2 with
       | Ok _ => (set_state r0 st', Ok accepted)
       | Err e => (r0, Err (RResourceLimit e))
       | Panic => (r0, Panic)
       | Diverge => (r0, Diverge)
       end.
Proof.
  intros r0 Hok Hm Hn Hb Hv Hknown Hparse Hfwd.
  destruct (rotate_secret_settings now fresh r) as [Hset Hst]. fold r0 in Hset, Hst.
  assert (rc_limits (relay_config r0) = rc_limits (relay_config r)) as Hlim by by rewrite <- Hset.
  destruct (rotate_secret_ok now fresh r Hok) as (Hsok & _). fold r0 in Hsok.
  unfold handle_datagram, prepare_datagram. rewrite decode_encode by done. cbn [map_err prepare_message]. fold r0.
  rewrite <- Hlim, <- Hst in *.
  pose proof (prepare_update_authentic now r0 peer mac nonce update report Hsok Hv Hknown Hparse Hfwd) as Hp.
  destruct (apply_report (relay_state r0) peer report) as [st' applied]. rewrite Hp.
  case_bool_decide; [done|]. by destruct (apply_report_limited _ _ _ _).2.
Qed.

(** An authentic update from a known peer, or from a new one the relay is not
    refusing, whose report parses and names forwardable groups, is accepted
    exactly when it changes nothing or stays within the limits; the committed
    state and the reported counts are those of [apply_report], and a report
    over a limit leaves the membership state as it was. *)
Theorem authentic_update_commits now fresh r peer mac nonce update report :
  let r0 := rotate_secret_if_due now fresh r in
  relay_ok r → mac_wf mac → u32 nonce → bytes update →
  valid_response_mac now r0 mac (sock_ip peer) (sock_port peer) nonce = true →
  contains_endpoint (relay_state r) peer = true ∨ refusing_new_endpoint r0 (sock_ip peer) = false →
  parse_membership_report_with_limits update
    (mkParseLimits (max_records_per_report (rc_limits (relay_config r)))
       (max_sources_per_group (rc_limits (relay_config r)))) = Ok report →
  Forall (λ record, is_amt_forwardable_group (rec_group record) = true) (rep_records report) →
  let '(st', applied) := apply_report (relay_state r) peer report in
  let '(r', result) := handle_datagram now fresh r peer (encode (MembershipUpdate mac nonce update)) in
  match result with
  | Ok action =>
      action = AcceptedMembershipUpdate (rep_protocol report) (len update) applied (upstream_subscriptions st') ∧
      relay_state r' = st' ∧ (st' = relay_state r ∨ checked_limits st' peer (rc_limits (relay_config r)))
  | Err e => relay_state r' = relay_state r ∧ ∃ e', e = RResourceLimit e'
  | Panic | Diverge => False
  end.
Proof.
  intros r0 Hok Hm Hn Hb Hv Hknown Hparse Hfwd.
  pose proof (handle_update_authentic now fresh r peer mac nonce update report Hok Hm Hn Hb Hv Hknown Hparse Hfwd)
    as Hp. destruct (rotate_secret_settings now fresh r) as [_ Hst]. fold r0 in Hst, Hp.
  pose proof (apply_report_limited_spec (relay_state r) peer report (rc_limits (relay_config r)) (proj1 Hok)) as Hl.
  destruct (apply_report (relay_state r) peer report) as [st' applied]; cbn [fst snd] in *. rewrite Hp. clear Hp.
  case_bool_decide as Hsame; [subst; by split_and!; [..|left]|].
  destruct (apply_report_limited _ _ _ _) as [next [n|e| |]]; cbn in *; [|eauto|done..].
  destruct Hl as (_ & _ & Hc & _). by split_and!; [..|right].
Qed.

(** ECN capability follows the gateway's latest request: a request without the
    flag revokes it, one with the flag grants it for two query intervals when
    ECN is configured and the table has room or already lists the gateway, and
    no other gateway's capability changes at that instant. *)
Theorem ecn_capability_tracking t0 now r peer capable :
  t0 <= now →
  let r' := remember_gateway_ecn_capability t0 r peer capable in
  let lifetime := grace_period (relay_config r) in
  (capable = false ∨ rc_ecn (relay_config r) = false → gateway_ecn_capable now r' peer = false) ∧
  (capable = true → rc_ecn (relay_config r) = true →
   gateway_ecn_capable t0 r peer = true ∨
     map_len (relay_gateway_ecn_capabilities r) < max_endpoints (rc_limits (relay_config r)) →
   gateway_ecn_capable now r' peer = (now - t0 <=? lifetime)) ∧
  (∀ e, e ≠ peer → gateway_ecn_capable t0 r' e = gateway_ecn_capable t0 r e).
Proof.
  intros Ht r' lifetime.
  assert (gateway_capability_lifetime r = lifetime) as Hlt by done.
  assert (relay_config r' = relay_config r) as Hc by apply remember_ecn_fields.
  unfold gateway_ecn_capable, gateway_capability_lifetime. rewrite Hc. fold lifetime.
  unfold r', remember_gateway_ecn_capability. rewrite Hlt.
  set (caps := filter _ (relay_gateway_ecn_capabilities r)). split_and!.
  - intros Hor. destruct (negb _ || negb capable) eqn:Hn.
    + simpl. rewrite lookup_delete_eq. apply andb_false_r.
    + destruct Hor as [-> | ->]; [by rewrite orb_true_r in Hn|done].
  - intros -> -> Hroom. cbn [negb orb andb].
    assert (bool_decide (is_Some (caps !! peer)) || (map_len caps <? max_endpoints (rc_limits (relay_config r))) = true)
      as ->.
    { destruct Hroom as [Hk|Hlt']; apply orb_true_iff; [left|right].
      - cbn [andb] in Hk. destruct (relay_gateway_ecn_capabilities r !! peer) as [t|] eqn:Hp; [|done].
        simpl in Hk. apply Z.leb_le in Hk. apply bool_decide_eq_true. exists t. by apply map_lookup_filter_Some.
      - apply Z.ltb_lt. eapply Z.le_lt_trans; [apply map_len_mono, map_filter_subseteq|done]. }
    simpl. rewrite lookup_insert_eq. simpl. unfold elapsed. by rewrite Z.max_r by lia.
  - intros e He. f_equal. assert (is_some_and (λ observed, elapsed t0 observed <=? lifetime) (caps !! e) =
      is_some_and (λ observed, elapsed t0 observed <=? lifetime) (relay_gateway_ecn_capabilities r !! e)) as Hcaps.
    { unfold caps. rewrite map_lookup_filter. destruct (relay_gateway_ecn_capabilities r !! e) as [t|]; simpl; [|done].
      case_guard as Hle; simpl; [done|]. symmetry. apply Z.leb_gt. simpl in Hle. lia. }
    repeat case_match; cbn [relay_gateway_ecn_capabilities set_capabilities];
      rewrite ?lookup_delete_ne, ?lookup_insert_ne by done; done.
Qed.
End hmac.

(** * Concrete runs *)

(** A stand-in for HMAC-SHA256: every digest byte is a rolling sum of key and
    message. *)
Definition toy_hmac (key message : list Z) : list Z :=
  replicate 32 (foldl (λ acc b, (acc * 31 + b) mod 256) 7 (key ++ message)).

Lemma toy_hmac_digest key message : len (toy_hmac key message) = 32 ∧ bytes (toy_hmac key message).
Proof.
  split; [done|]. apply Forall_replicate. generalize (key ++ message) as l. intros l.
  assert (u8 7) as H7 by (unfold u8; lia). revert H7. generalize 7 as a.
  induction l as [|x l IH]; intros a Ha; simpl; [done|]. apply IH. unfold u8. apply Z.mod_pos_bound. lia.
Qed.

Definition demo_relay : Relay := new_relay 0 (default_relay_config (mkSecret (replicate 32 1))).

Lemma demo_relay_ok : relay_ok demo_relay.
Proof.
  apply new_relay_ok; [by repeat split|]. decide_ok.
Qed.

Definition demo_peer : SocketAddr := demo_gateway 1.

(** The update in which the peer asks for one source. *)
Definition demo_update : list Z :=
  match build_membership_report (demo_report AllowNewSources [demo_source 1]) with
  | Ok packet => packet
  | _ => []
  end.
Definition demo_mac (r : Relay) : ResponseMac := response_mac toy_hmac r (sock_ip demo_peer) (sock_port demo_peer) 7.
Definition demo_join : list Z := encode (MembershipUpdate (demo_mac demo_relay) 7 demo_update).
Definition joined_relay : Relay := (handle_datagram toy_hmac 5 None demo_relay demo_peer demo_join).1.


Lemma demo_join_bytes : bytes demo_join.
Proof. decide_ok. Qed.

Lemma joined_relay_ok : relay_ok joined_relay.
Proof.
  unfold joined_relay. destruct (handle_datagram toy_hmac 5 None demo_relay demo_peer demo_join) eqn:Hh.
  by apply (handle_datagram_spec toy_hmac _ _ _ _ _ _ _ demo_relay_ok demo_join_bytes Hh).
Qed.

Lemma demo_peer_wf : sock_wf demo_peer.
Proof. decide_ok. Qed.

Lemma relay_handles_every_datagram_witness :
  returns (handle_datagram toy_hmac 5 None demo_relay demo_peer demo_join).2.
Proof.
  exact (proj1 (relay_handles_every_datagram toy_hmac 5 None demo_relay demo_peer demo_join
                  demo_relay_ok demo_join_bytes)).
Defined.

Lemma state_change_authenticated_witness :
  ∃ message, decode demo_join = Ok message ∧ is_Some (credentials message).
Proof.
  destruct (state_change_authenticated toy_hmac toy_hmac_digest 5 None demo_relay demo_peer demo_join
    demo_relay_ok demo_join_bytes) as (message & mac & nonce & secret & Hd & Hc & _).
  { decide_ok. }
  exists message. rewrite Hc. eauto.
Defined.

Lemma response_mac_lifetime_witness :
  ∃ r1 mac limit gateway query,
    handle_datagram toy_hmac 3 None demo_relay demo_peer (encode (Request 7 Igmpv3 false)) =
      (r1, Ok (Send (encode (MembershipQuery mac 7 limit gateway query)))) ∧
    valid_response_mac toy_hmac 9 (rotate_secret_if_due 9 None (run_relay toy_hmac r1
      [mkEvent 5 (Some (mkSecret (replicate 32 2))) demo_peer demo_join])) mac
      (sock_ip demo_peer) (sock_port demo_peer) 7 = true.
Proof.
  apply (response_mac_lifetime toy_hmac toy_hmac_digest 3 9 None None demo_relay demo_peer 7 Igmpv3 false);
    [apply demo_relay_ok|apply demo_peer_wf|done| |by vm_compute].
  constructor; [|constructor]. split; [apply demo_join_bytes|by vm_compute].
Defined.

Lemma teardown_removes_endpoint_witness :
  contains_endpoint (relay_state joined_relay) demo_peer = true ∧
  ∃ r', handle_datagram toy_hmac 6 None joined_relay demo_peer
          (encode (Teardown (demo_mac (rotate_secret_if_due 6 None joined_relay)) 7 (gateway_of demo_peer))) =
      (r', Ok (AcceptedTeardown (gateway_of demo_peer) (contains_endpoint (relay_state joined_relay) demo_peer))) ∧
    contains_endpoint (relay_state r') demo_peer = false.
Proof.
  split; [by vm_compute|].
  destruct (teardown_removes_endpoint toy_hmac toy_hmac_digest 6 None joined_relay demo_peer demo_peer 7
    joined_relay_ok demo_peer_wf ltac:(done) I) as (r' & Hh & Hc & _). eauto.
Defined.

(** The same join from a link-local peer with a scope. *)
Definition scoped_ip : Ipv6Addr := mkIpv6 ([254; 128] ++ replicate 13 0 ++ [9]).
Definition scoped_peer : SocketAddr := SocketAddrV6 scoped_ip 40000 0 2.
Definition scoped_mac : ResponseMac := response_mac toy_hmac demo_relay (V6 scoped_ip) 40000 7.
Definition scoped_relay : Relay :=
  (handle_datagram toy_hmac 5 None demo_relay scoped_peer (encode (MembershipUpdate scoped_mac 7 demo_update))).1.

Lemma scoped_relay_ok : relay_ok scoped_relay.
Proof.
  unfold scoped_relay. destruct (handle_datagram _ _ _ _ _ _) eqn:Hh.
  eapply (handle_datagram_spec toy_hmac); [apply demo_relay_ok| |exact Hh]. decide_ok.
Qed.

Lemma teardown_misses_scoped_peer_witness :
  contains_endpoint (relay_state scoped_relay) scoped_peer = true ∧
  contains_endpoint (relay_state
    (handle_datagram toy_hmac 6 None scoped_relay scoped_peer
       (encode (Teardown scoped_mac 7 (gateway_of scoped_peer)))).1) scoped_peer =
  contains_endpoint (relay_state scoped_relay) scoped_peer.
Proof.
  split; [by vm_compute|].
  assert (ge_wf (gateway_of scoped_peer)) as Hg by (split; [done|split; [done|decide_ok]]).
  assert (mac_wf scoped_mac) as Hm by apply (response_mac_wf _ toy_hmac_digest).
  exact (proj1 (teardown_misses_scoped_peer toy_hmac 6 None scoped_relay scoped_peer scoped_ip 40000 0 2
    scoped_mac 7 (gateway_of scoped_peer) scoped_relay_ok Hm ltac:(done) Hg ltac:(by right))).
Defined.

(** The premises of [authentic_update_commits] for the demo join. *)
Lemma demo_join_authentic :
  valid_response_mac toy_hmac 5 (rotate_secret_if_due 5 None demo_relay) (demo_mac demo_relay)
    (sock_ip demo_peer) (sock_port demo_peer) 7 = true.
Proof. by vm_compute. Qed.

Lemma demo_mac_wf r : mac_wf (demo_mac r).
Proof. unfold demo_mac, response_mac. apply (response_mac_wf _ toy_hmac_digest). Qed.

Lemma demo_nonce : u32 7.
Proof. done. Qed.

Lemma demo_update_bytes : bytes demo_update.
Proof. decide_ok. Qed.

Lemma demo_join_not_refused :
  refusing_new_endpoint (rotate_secret_if_due 5 None demo_relay) (sock_ip demo_peer) = false.
Proof. by vm_compute. Qed.

Lemma demo_join_parses :
  parse_membership_report_with_limits demo_update (mkParseLimits 512 128) =
  Ok (demo_report AllowNewSources [demo_source 1]).
Proof. by vm_compute. Qed.

Lemma demo_join_forwardable :
  Forall (λ record, is_amt_forwardable_group (rec_group record) = true)
    (rep_records (demo_report AllowNewSources [demo_source 1])).
Proof. by repeat constructor. Qed.

Lemma demo_join_accepted :
  (handle_datagram toy_hmac 5 None demo_relay demo_peer demo_join).2 =
  Ok (AcceptedMembershipUpdate Igmpv3 (len demo_update) 1 [ssm demo_group (demo_source 1)]).
Proof. by vm_compute. Qed.

Lemma authentic_update_commits_witness :
  relay_state joined_relay = (apply_report empty_state demo_peer (demo_report AllowNewSources [demo_source 1])).1.
Proof.
  pose proof (authentic_update_commits toy_hmac 5 None demo_relay demo_peer (demo_mac demo_relay) 7 demo_update
    (demo_report AllowNewSources [demo_source 1])) as H. cbv zeta in H.
  specialize (H demo_relay_ok (demo_mac_wf demo_relay) demo_nonce demo_update_bytes demo_join_authentic).
  specialize (H (or_intror demo_join_not_refused) demo_join_parses).
  specialize (H demo_join_forwardable). fold demo_join in H.
  pose proof demo_join_accepted as Ha. unfold joined_relay.
  destruct (handle_datagram toy_hmac 5 None demo_relay demo_peer demo_join) as [r' result].
  cbn [snd] in Ha. subst result. change (relay_state demo_relay) with empty_state in H.
  destruct (apply_report empty_state demo_peer _) as [st' n]. exact (proj1 (proj2 H)).
Defined.

Lemma ecn_capability_tracking_witness :
  gateway_ecn_capable 9 (remember_gateway_ecn_capability 5 demo_relay demo_peer false) demo_peer = false.
Proof. apply (ecn_capability_tracking 5 9 demo_relay demo_peer false ltac:(done)). by left. Defined.
