(* ===== verification/Ecn.v ===== *)
(** [src/ecn.rs]: ECN propagation through the tunnel (RFC 6040 as updated by
    RFC 9601). *)

From S2P Require Import Prelude Net Checksum Ip.

Inductive EcnCodepoint := NotEct | Ect1 | Ect0 | Ce.

#[export] Instance EcnCodepoint_eq_dec : EqDecision EcnCodepoint.
Proof. solve_decision. Defined.

Definition from_bits (bits : Z) : EcnCodepoint :=
  match Z.land bits 3 with
  | 1 => Ect1
  | 2 => Ect0
  | 3 => Ce
  | _ => NotEct
  end.

Definition ecn_bits (e : EcnCodepoint) : Z :=
  match e with NotEct => 0 | Ect1 => 1 | Ect0 => 2 | Ce => 3 end.

Record EcnDecapsulation := mkDecapsulation {
  ed_inner : EcnCodepoint;
  ed_outer : EcnCodepoint;
  ed_output : option EcnCodepoint;
  ed_currently_unused : bool
}.

Definition is_drop (d : EcnDecapsulation) : bool :=
  match ed_output d with None => true | Some _ => false end.

Definition ecn_changed (d : EcnDecapsulation) : bool :=
  match ed_output d with
  | Some output => negb (ecn_bits output =? ecn_bits (ed_inner d))
  | None => false
  end.

Definition propagated_ce (d : EcnDecapsulation) : bool :=
  bool_decide (ed_output d = Some Ce) && negb (ecn_bits (ed_inner d) =? ecn_bits Ce).

Inductive EcnError :=
| ETruncated
| EUnsupportedVersion (version : Z)
| EInvalidHeader
| EInvalidLength.

#[export] Instance EcnDecapsulation_eq_dec : EqDecision EcnDecapsulation.
Proof. solve_decision. Defined.
#[export] Instance EcnError_eq_dec : EqDecision EcnError.
Proof. solve_decision. Defined.

Definition ecn_validate_ipv4 (packet : list Z) : res EcnError Z :=
  if len packet <? IPV4_MIN_HEADER_LEN then Err ETruncated
  else
    p0 ← idx packet 0;
    let header_len := Z.land p0 0x0f * 4 in
    if (header_len <? IPV4_MIN_HEADER_LEN) || (len packet <? header_len) then Err EInvalidHeader
    else
      p2 ← idx packet 2;
      p3 ← idx packet 3;
      let total_len := u16_from_be p2 p3 in
      if (total_len <? header_len) || negb (total_len =? len packet) then Err EInvalidLength
      else Ok header_len.

Definition ecn_validate_ipv6 (packet : list Z) : res EcnError unit :=
  if len packet <? IPV6_HEADER_LEN then Err ETruncated
  else
    p4 ← idx packet 4;
    p5 ← idx packet 5;
    total ← ok_or EInvalidLength (checked_add IPV6_HEADER_LEN (u16_from_be p4 p5));
    if negb (total =? len packet) then Err EInvalidLength else Ok tt.

Definition ip_ecn (packet : list Z) : res EcnError EcnCodepoint :=
  first ← ok_or ETruncated (head packet);
  let version := Z.shiftr first 4 in
  if version =? 4 then
    _ ← ecn_validate_ipv4 packet;
    p1 ← idx packet 1;
    Ok (from_bits p1)
  else if version =? 6 then
    _ ← ecn_validate_ipv6 packet;
    p1 ← idx packet 1;
    Ok (from_bits (Z.shiftr p1 4))
  else Err (EUnsupportedVersion version).

Definition decapsulation_result (inner outer : EcnCodepoint) : option EcnCodepoint * bool :=
  match inner, outer with
  | NotEct, Ce => (None, true)
  | NotEct, NotEct => (Some NotEct, false)
  | NotEct, (Ect0 | Ect1) => (Some NotEct, true)
  | Ect0, (NotEct | Ect0) => (Some Ect0, false)
  | Ect0, Ect1 => (Some Ect1, false)
  | Ect0, Ce => (Some Ce, false)
  | Ect1, (NotEct | Ect1) => (Some Ect1, false)
  | Ect1, Ect0 => (Some Ect1, true)
  | Ect1, Ce => (Some Ce, false)
  | Ce, Ect1 => (Some Ce, true)
  | Ce, (NotEct | Ect0 | Ce) => (Some Ce, false)
  end.

(** [!0b11] and [!0b0011_0000] are [0xfc] and [0xcf] on [u8]. *)
Definition set_ip_ecn (packet : list Z) (ecn : EcnCodepoint) : res EcnError (list Z) :=
  first ← ok_or ETruncated (head packet);
  let version := Z.shiftr first 4 in
  if version =? 4 then
    header_len ← ecn_validate_ipv4 packet;
    p1 ← idx packet 1;
    packet ← set_idx packet 1 (Z.lor (Z.land p1 0xfc) (ecn_bits ecn));
    packet ← copy_at packet 10 12 [0; 0];
    hdr ← slice_to packet header_len;
    copy_at packet 10 12 (u16_to_be (checksum hdr))
  else if version =? 6 then
    _ ← ecn_validate_ipv6 packet;
    p1 ← idx packet 1;
    set_idx packet 1 (Z.lor (Z.land p1 0xcf) (Z.shiftl (ecn_bits ecn) 4))
  else Err (EUnsupportedVersion version).

(** The packet after the call, and the result.  Every error is raised before
    the packet is written to. *)
Definition decapsulate_ecn (packet : list Z) (outer : EcnCodepoint) :
    res EcnError (list Z * EcnDecapsulation) :=
  inner ← ip_ecn packet;
  let '(output, currently_unused) := decapsulation_result inner outer in
  let result := mkDecapsulation inner outer output currently_unused in
  packet ←
    match output with
    | Some output => if negb (bool_decide (output = inner)) then set_ip_ecn packet output else Ok packet
    | None => Ok packet
    end;
  Ok (packet, result).

(** * Specification *)

(** The octet that carries the ECN field, with that field replaced. *)
Definition ecn_octet (version p1 : Z) (ecn : EcnCodepoint) : Z :=
  if version =? 4 then Z.lor (Z.land p1 0xfc) (ecn_bits ecn)
  else Z.lor (Z.land p1 0xcf) (Z.shiftl (ecn_bits ecn) 4).

(** [packet'] is [packet] with its ECN field set to [ecn]: only the ECN bits
    and, for IPv4, the header checksum differ, and that checksum verifies. *)
Record ecn_rewrite (ecn : EcnCodepoint) (packet packet' : list Z) : Prop := {
  rw_len : len packet' = len packet;
  rw_bytes : bytes packet';
  rw_ecn : ip_ecn packet' = Ok ecn;
  rw_same : ∀ i, i ≠ 1%nat → (i ≠ 10%nat ∧ i ≠ 11%nat) ∨ Z.shiftr (default 0 (head packet)) 4 = 6 →
            packet' !! i = packet !! i;
  rw_octet : ∀ p1, packet !! 1%nat = Some p1 →
             packet' !! 1%nat = Some (ecn_octet (Z.shiftr (default 0 (head packet)) 4) p1 ecn);
  rw_checksum : Z.shiftr (default 0 (head packet)) 4 = 4 →
    ones_complement_sum (take (Z.to_nat (Z.land (default 0 (head packet)) 0x0f * 4)) packet') = 65535
}.

Lemma from_bits_v4 p1 ecn : u8 p1 →
  from_bits (ecn_octet 4 p1 ecn) = ecn ∧ u8 (ecn_octet 4 p1 ecn).
Proof.
  intros Hp. unfold ecn_octet; simpl.
  assert ((bool_decide (from_bits (Z.lor (Z.land p1 0xfc) (ecn_bits ecn)) = ecn) &&
           bool_decide (u8 (Z.lor (Z.land p1 0xfc) (ecn_bits ecn)))) = true) as H.
  { revert p1 Hp. apply u8_check. by destruct ecn; vm_compute. }
  by apply andb_true_iff in H as [?%bool_decide_eq_true ?%bool_decide_eq_true].
Qed.

Lemma from_bits_v6 p1 ecn : u8 p1 →
  from_bits (Z.shiftr (ecn_octet 6 p1 ecn) 4) = ecn ∧ u8 (ecn_octet 6 p1 ecn).
Proof.
  intros Hp. unfold ecn_octet; simpl (6 =? 4). cbv iota.
  assert ((bool_decide (from_bits (Z.shiftr (Z.lor (Z.land p1 0xcf) (Z.shiftl (ecn_bits ecn) 4)) 4) = ecn) &&
           bool_decide (u8 (Z.lor (Z.land p1 0xcf) (Z.shiftl (ecn_bits ecn) 4)))) = true) as H.
  { revert p1 Hp. apply u8_check. by destruct ecn; vm_compute. }
  by apply andb_true_iff in H as [?%bool_decide_eq_true ?%bool_decide_eq_true].
Qed.

Lemma ecn_validate_ipv4_wp packet :
  wp (ecn_validate_ipv4 packet)
    (λ hl, hl = Z.land (default 0 (head packet)) 0x0f * 4 ∧ 20 <= hl <= len packet) (λ _, True).
Proof.
  unfold ecn_validate_ipv4, IPV4_MIN_HEADER_LEN. destruct (Z.ltb_spec (len packet) 20); [done|].
  apply wp_bind, wp_idx; [len_lia|]. intros p0 Hp0.
  assert (head packet = Some p0) as -> by (destruct packet; [done|exact Hp0]). cbn [default from_option].
  destruct (Z.ltb_spec (Z.land p0 15 * 4) 20); [done|].
  destruct (Z.ltb_spec (len packet) (Z.land p0 15 * 4)); [done|]. cbn [orb].
  apply wp_bind, wp_idx; [len_lia|]. intros p2 _. apply wp_bind, wp_idx; [len_lia|]. intros p3 _.
  destruct (_ || _); [done|]. split; [done|lia].
Qed.

Lemma ecn_validate_ipv6_wp packet : wp (ecn_validate_ipv6 packet) (λ _, 40 <= len packet) (λ _, True).
Proof.
  unfold ecn_validate_ipv6, IPV6_HEADER_LEN. destruct (Z.ltb_spec (len packet) 40); [done|].
  apply wp_bind, wp_idx; [len_lia|]. intros p4 _. apply wp_bind, wp_idx; [len_lia|]. intros p5 _.
  apply wp_bind, wp_ok_or; [|done]. intros total _. by destruct (negb _).
Qed.

Lemma ip_ecn_wp packet :
  wp (ip_ecn packet) (λ _, ∃ first, head packet = Some first ∧
    (Z.shiftr first 4 = 4 ∧ (∃ hl, ecn_validate_ipv4 packet = Ok hl) ∨
     Z.shiftr first 4 = 6 ∧ ecn_validate_ipv6 packet = Ok tt)) (λ _, True).
Proof.
  unfold ip_ecn. apply wp_bind, wp_ok_or; [intros first Hf|done].
  destruct (Z.eqb_spec (Z.shiftr first 4) 4) as [H4|_].
  - pose proof (ecn_validate_ipv4_wp packet) as Hw.
    destruct (ecn_validate_ipv4 packet) as [hl|e| |] eqn:Hv; try done. cbn in Hw. cbn [mbind res_bind].
    apply wp_bind, wp_idx; [len_lia|]. intros p1 _. cbn. eauto 10.
  - destruct (Z.eqb_spec (Z.shiftr first 4) 6) as [H6|_]; [|done].
    pose proof (ecn_validate_ipv6_wp packet) as Hw.
    destruct (ecn_validate_ipv6 packet) as [[]|e| |] eqn:Hv; try done. cbn in Hw. cbn [mbind res_bind].
    apply wp_bind, wp_idx; [len_lia|]. intros p1 _. cbn. eauto 10.
Qed.

(** Rewriting the ECN field of a validated IPv4 packet. *)
Lemma set_ip_ecn_v4 packet first hl ecn :
  bytes packet → head packet = Some first → Z.shiftr first 4 = 4 → ecn_validate_ipv4 packet = Ok hl →
  ∃ packet', set_ip_ecn packet ecn = Ok packet' ∧ ecn_rewrite ecn packet packet'.
Proof.
  intros Hb Hf H4 Hv. pose proof (ecn_validate_ipv4_wp packet) as Hw. rewrite Hv in Hw. simpl in Hw.
  destruct Hw as [Hhl Hlen]. unfold set_ip_ecn. rewrite Hf. cbn [ok_or mbind res_bind]. rewrite H4.
  simpl (4 =? 4). cbv iota. rewrite Hv. cbn [mbind res_bind].
  destruct packet as [|p0 [|p1 [|p2 [|p3 [|p4 [|p5 [|p6 [|p7 [|p8 [|p9 [|p10 [|p11 rest]]]]]]]]]]]];
    try (exfalso; len_lia).
  injection Hf as ->. set (packet := first :: _) in *.
  change (idx packet 1) with (Ok p1 : res EcnError Z). cbn [mbind res_bind].
  set (o := Z.lor (Z.land p1 252) (ecn_bits ecn)).
  assert (Hpkt : bytes (first :: p1 :: p2 :: p3 :: p4 :: p5 :: p6 :: p7 :: p8 :: p9 :: p10 :: p11 :: rest)) by exact Hb.
  unfold bytes in Hpkt. repeat (apply Forall_cons in Hpkt as [? Hpkt]).
  destruct (from_bits_v4 p1 ecn) as [Hbits Ho]; [done|]. change (ecn_octet 4 p1 ecn) with o in Hbits, Ho.
  set (pre := [first; o; p2; p3; p4; p5; p6; p7; p8; p9]).
  change (set_idx packet 1 o) with (Ok (pre ++ [p10; p11] ++ rest) : res EcnError (list Z)). cbn [mbind res_bind].
  rewrite copy_at_app by done. cbn [mbind res_bind].
  rewrite slice_to_ok by (unfold packet, pre in *; len_lia). cbn [mbind res_bind].
  set (n := Z.to_nat (hl - 12)). assert (Z.to_nat hl = (12 + n)%nat) as Hn by (unfold n; lia).
  rewrite Hn. change (take (12 + n) (pre ++ [0; 0] ++ rest)) with (pre ++ [0; 0] ++ take n rest).
  set (ck := u16_to_be (checksum (pre ++ [0; 0] ++ take n rest))).
  rewrite copy_at_app by done. exists (pre ++ ck ++ rest). split; [done|].
  assert (bytes pre) as Hpre by (unfold pre; bytes_solve).
  assert (bytes rest) as Hrest by done.
  assert (bytes ck) as Hck by (apply bytes_u16_to_be, checksum_u16; bytes_solve).
  assert (len (pre ++ ck ++ rest) = len packet) as Hl by (unfold packet, pre, ck; len_lia).
  split.
  - done.
  - bytes_solve.
  - unfold ip_ecn. simpl (head _). cbn [ok_or mbind res_bind]. rewrite H4. simpl (4 =? 4). cbv iota.
    assert (ecn_validate_ipv4 (pre ++ ck ++ rest) = Ok hl) as ->.
    { rewrite <- Hv. unfold ecn_validate_ipv4. rewrite Hl. reflexivity. }
    cbn [mbind res_bind]. change (idx (pre ++ ck ++ rest) 1) with (Ok o : res EcnError Z).
    cbn [mbind res_bind]. by rewrite Hbits.
  - intros i Hi [[? ?]|H46]; [|simpl in H46; lia].
    do 10 (destruct i as [|i]; [done|]). do 2 (destruct i as [|i]; [done|]). done.
  - simpl. intros ? [= <-]. by rewrite H4.
  - intros _. simpl (default 0 _). simpl in Hhl. rewrite <- Hhl, Hn.
    change (take (12 + n) (pre ++ ck ++ rest)) with (pre ++ ck ++ take n rest).
    apply checksum_verifies; [done|by apply bytes_take|done].
Qed.

Lemma set_ip_ecn_v6 packet first ecn :
  bytes packet → head packet = Some first → Z.shiftr first 4 = 6 → ecn_validate_ipv6 packet = Ok tt →
  ∃ packet', set_ip_ecn packet ecn = Ok packet' ∧ ecn_rewrite ecn packet packet'.
Proof.
  intros Hb Hf H6 Hv. pose proof (ecn_validate_ipv6_wp packet) as Hw. rewrite Hv in Hw. simpl in Hw.
  unfold set_ip_ecn. rewrite Hf. cbn [ok_or mbind res_bind]. rewrite H6.
  simpl (6 =? 4). simpl (6 =? 6). cbv iota. rewrite Hv. cbn [mbind res_bind].
  destruct packet as [|p0 [|p1 [|p2 [|p3 [|p4 [|p5 rest]]]]]]; try (exfalso; len_lia).
  injection Hf as ->. set (packet := first :: _) in *.
  change (idx packet 1) with (Ok p1 : res EcnError Z). cbn [mbind res_bind].
  set (o := Z.lor (Z.land p1 0xcf) _).
  assert (Hpkt : bytes (first :: p1 :: p2 :: p3 :: p4 :: p5 :: rest)) by exact Hb.
  unfold bytes in Hpkt. repeat (apply Forall_cons in Hpkt as [? Hpkt]).
  destruct (from_bits_v6 p1 ecn) as [Hbits Ho]; [done|]. change (ecn_octet 6 p1 ecn) with o in Hbits, Ho.
  set (packet' := first :: o :: p2 :: p3 :: p4 :: p5 :: rest).
  change (set_idx packet 1 o) with (Ok packet' : res EcnError (list Z)). exists packet'. split; [done|].
  assert (len packet' = len packet) as Hl by (unfold packet', packet; len_lia).
  split.
  - done.
  - unfold packet'. bytes_solve.
  - unfold ip_ecn. simpl (head _). cbn [ok_or mbind res_bind]. rewrite H6.
    simpl (6 =? 4). simpl (6 =? 6). cbv iota.
    assert (ecn_validate_ipv6 packet' = Ok tt) as ->.
    { rewrite <- Hv. unfold ecn_validate_ipv6. rewrite Hl. reflexivity. }
    cbn [mbind res_bind]. change (idx packet' 1) with (Ok o : res EcnError Z).
    cbn [mbind res_bind]. by rewrite Hbits.
  - intros i Hi _. do 2 (destruct i as [|i]; [done|]). done.
  - simpl. intros ? [= <-]. by rewrite H6.
  - simpl. lia.
Qed.

Lemma set_ip_ecn_ok packet inner ecn :
  bytes packet → ip_ecn packet = Ok inner →
  ∃ packet', set_ip_ecn packet ecn = Ok packet' ∧ ecn_rewrite ecn packet packet'.
Proof.
  intros Hb Hi. pose proof (ip_ecn_wp packet) as Hw. rewrite Hi in Hw. cbn in Hw.
  destruct Hw as (first & Hf & [(H4 & hl & Hv)|(H6 & Hv)]);
    [by eapply set_ip_ecn_v4|by eapply set_ip_ecn_v6].
Qed.

Lemma decapsulate_ecn_wp packet outer :
  bytes packet →
  wp (decapsulate_ecn packet outer)
    (λ '(packet', d), ip_ecn packet = Ok (ed_inner d) ∧ ed_outer d = outer ∧
       (ed_output d, ed_currently_unused d) = decapsulation_result (ed_inner d) outer ∧
       bytes packet' ∧ len packet' = len packet ∧
       (packet' = packet ∨ ∃ o, ed_output d = Some o ∧ o ≠ ed_inner d ∧ ecn_rewrite o packet packet') ∧
       (∀ o, ed_output d = Some o → ip_ecn packet' = Ok o))
    (λ e, ip_ecn packet = Err e).
Proof.
  intros Hb. unfold decapsulate_ecn. pose proof (ip_ecn_wp packet) as Hw.
  destruct (ip_ecn packet) as [inner|e| |] eqn:Hi; try done. cbn [mbind res_bind]. clear Hw.
  destruct (decapsulation_result inner outer) as [[o|] unused] eqn:Hd.
  - case_bool_decide as Ho; cbn [negb].
    + subst o. cbn. split_and!; try done; [by left|]. congruence.
    + destruct (set_ip_ecn_ok packet inner o Hb Hi) as (p' & -> & Hrw). cbn.
      destruct Hrw as [Hl Hb' He]. split_and!; try done; [|congruence].
      right. exists o. split_and!; try done.
  - cbn. split_and!; try done. by left.
Qed.

(** * Properties *)

(** Decapsulation implements RFC 6040 on the packet itself: no packet makes it
    panic; a packet is dropped exactly when a congestion mark meets an inner
    header that does not support ECN, a congestion mark of either header is
    never lost, the returned packet's ECN field is the decided one, and nothing
    but that field (and the IPv4 header checksum, which then verifies) changes; it
    fails only on a packet that has no readable ECN field. *)
Theorem decapsulation_correct packet outer :
  bytes packet →
  wp (decapsulate_ecn packet outer)
    (λ '(packet', d),
       ip_ecn packet = Ok (ed_inner d) ∧
       (is_drop d = true ↔ ed_inner d = NotEct ∧ outer = Ce) ∧
       (ed_inner d = Ce ∨ outer = Ce → is_drop d = false → ed_output d = Some Ce) ∧
       (ed_output d = Some Ce → ed_inner d = Ce ∨ outer = Ce) ∧
       (∀ o, ed_output d = Some o → ip_ecn packet' = Ok o) ∧
       len packet' = len packet ∧
       (packet' = packet ∨ ∃ o, ed_output d = Some o ∧ ecn_rewrite o packet packet'))
    (λ e, ip_ecn packet = Err e).
Proof.
  intros Hb. eapply wp_mono; [by apply decapsulate_ecn_wp| |done].
  intros [packet' [inner outer' output unused]]. unfold is_drop. simpl.
  intros (Hi & -> & Hd & _ & Hl & Hrw & Ho). split_and!; try done.
  - destruct inner, outer; simpl in Hd; simplify_eq; naive_solver.
  - destruct inner, outer; simpl in Hd; simplify_eq; naive_solver.
  - destruct inner, outer; simpl in Hd; simplify_eq; naive_solver.
  - destruct Hrw as [|(o & ? & _ & ?)]; eauto.
Qed.

(** An IPv4 packet with an empty payload and ECT(0). *)
Definition ect0_packet : list Z :=
  [0x45; 2; 0; 20; 0; 0; 0; 0; 7; 17; 0; 0; 198; 51; 100; 1; 232; 1; 1; 1].

Lemma decapsulation_correct_witness :
  bytes ect0_packet ∧ returns (decapsulate_ecn ect0_packet Ce) ∧
  (p ← decapsulate_ecn ect0_packet Ce; ip_ecn p.1) = Ok Ce.
Proof.
  assert (bytes ect0_packet) as Hb by decide_ok.
  split; [done|]. split; [exact (wp_returns _ _ _ (decapsulation_correct ect0_packet Ce Hb))|by vm_compute].
Defined.
