(* ===== verification/Gateway.v ===== *)
(** [src/gateway.rs]: the gateway's protocol engine.

    A [Gateway] discovers a relay, obtains a session (nonce and Response MAC)
    from it, reports memberships under that session and filters the multicast
    data it receives back.  The operating system's randomness ([getrandom]) is a
    list of draws consumed from the front: [Some n] is a 32-bit draw, [None] a
    failing call.  Every error is raised before [self] is modified, so a handler
    returns the new gateway only on success. *)

From S2P Require Import Prelude Net Protocol Ip Query Membership State Ecn.

(** * Data *)

Record GatewayConfig := mkGatewayConfig {
  gc_relay : SocketAddr;
  gc_fallback_relays : list SocketAddr;
  gc_protocol : MembershipProtocol;
  gc_ecn : bool;
  gc_discovery_nonce : Z;
  gc_request_nonce : Z
}.

Inductive GatewayPhase := Discovering | AwaitingMembershipQuery | Established.

Record GatewaySession := mkSession {
  gs_response_mac : ResponseMac;
  gs_request_nonce : Z;
  gs_gateway_endpoint : option GatewayEndpoint;
  gs_reported_memberships : bool
}.

Record Gateway := mkGateway {
  gw_config : GatewayConfig;
  gw_relay_candidates : list SocketAddr;
  gw_phase : GatewayPhase;
  gw_relay_endpoint : option SocketAddr;
  gw_session : option GatewaySession;
  gw_reception_state : RelayState
}.

Record GatewaySend := mkSend { send_destination : SocketAddr; send_datagram : list Z }.

Inductive GatewayAction :=
| GSend (destination : SocketAddr) (datagram : list Z)
| GMembershipQuery (response_mac : ResponseMac) (limit : bool) (gateway : option GatewayEndpoint)
    (general_query : list Z) (query_interval : Z) (previous_teardown : option GatewaySend)
| GMulticastData (packet : list Z) (ecn : option EcnDecapsulation)
| GDroppedEcn (ecn : EcnDecapsulation) (packet_len : Z)
| GIgnored.

Inductive GatewayError :=
| GDecode (error : DecodeError)
| GMembershipBuild (error : MembershipBuildError)
| GInvalidGeneralQuery (error : QueryValidationError)
| GInvalidMulticastPacket (error : IpPacketError)
| GInvalidEcn (error : EcnError)
| UnexpectedDiscoveryNonce (expected actual : Z)
| UnexpectedRequestNonce (expected actual : Z)
| UnexpectedPeer (expected actual : SocketAddr)
| UnexpectedMessageForState (message : string) (phase : GatewayPhase)
| InvalidRelayAddress (address : IpAddr)
| MissingRelayEndpoint
| MissingMembershipQuery
| MissingGatewayEndpoint.

#[export] Instance GatewayPhase_eq_dec : EqDecision GatewayPhase.
Proof. solve_decision. Defined.
#[export] Instance GatewaySession_eq_dec : EqDecision GatewaySession.
Proof. solve_decision. Defined.
#[export] Instance GatewaySend_eq_dec : EqDecision GatewaySend.
Proof. solve_decision. Defined.
#[export] Instance GatewayConfig_eq_dec : EqDecision GatewayConfig.
Proof. solve_decision. Defined.
#[export] Instance Gateway_eq_dec : EqDecision Gateway.
Proof. solve_decision. Defined.

Definition RECEPTION_STATE_ENDPOINT : SocketAddr := SocketAddrV4 Ipv4_UNSPECIFIED 0.

(** * Nonces *)

Definition draws : Type := list (option Z).

(** The [loop] that retries on zero; [Diverge] when the draws run out. *)
Fixpoint random_nonce {E} (rng : draws) : res E (Z * draws) :=
  match rng with
  | [] => Diverge
  | None :: _ => Panic
  | Some nonce :: rng => if negb (nonce =? 0) then Ok (nonce, rng) else random_nonce rng
  end.

Definition nonzero_or_random {E} (nonce : Z) (rng : draws) : res E (Z * draws) :=
  if negb (nonce =? 0) then Ok (nonce, rng) else random_nonce rng.

(** * Configuration *)

Definition new_gateway_config (relay : SocketAddr) (protocol : MembershipProtocol) (rng : draws) :
    res GatewayError (GatewayConfig * draws) :=
  '(discovery_nonce, rng) ← random_nonce rng;
  '(request_nonce, rng) ← random_nonce rng;
  Ok (mkGatewayConfig relay [] protocol false discovery_nonce request_nonce, rng).

Definition with_nonces (c : GatewayConfig) (discovery_nonce request_nonce : Z) : GatewayConfig :=
  mkGatewayConfig (gc_relay c) (gc_fallback_relays c) (gc_protocol c) (gc_ecn c)
    discovery_nonce request_nonce.

Definition with_ecn (c : GatewayConfig) (enabled : bool) : GatewayConfig :=
  mkGatewayConfig (gc_relay c) (gc_fallback_relays c) (gc_protocol c) enabled
    (gc_discovery_nonce c) (gc_request_nonce c).

Definition set_relays (c : GatewayConfig) (relay : SocketAddr) (fallback_relays : list SocketAddr) :
    GatewayConfig :=
  mkGatewayConfig relay fallback_relays (gc_protocol c) (gc_ecn c)
    (gc_discovery_nonce c) (gc_request_nonce c).

(** [for relay in relays { if keep && !acc.contains(&relay) { acc.push(relay) } }]. *)
Definition collect_relays (keep : SocketAddr → bool) (relays : list SocketAddr) : list SocketAddr :=
  foldl (λ acc relay, if keep relay && negb (bool_decide (relay ∈ acc)) then acc ++ [relay] else acc)
    [] relays.

Definition with_fallback_relays (c : GatewayConfig) (relays : list SocketAddr) : GatewayConfig :=
  set_relays c (gc_relay c)
    (collect_relays (λ relay, negb (bool_decide (relay = gc_relay c))
                              && same_family (sock_ip relay) (sock_ip (gc_relay c))) relays).

Definition new_gateway (config : GatewayConfig) (rng : draws) : res GatewayError (Gateway * draws) :=
  '(discovery_nonce, rng) ← nonzero_or_random (gc_discovery_nonce config) rng;
  '(request_nonce, rng) ← nonzero_or_random (gc_request_nonce config) rng;
  Ok (mkGateway (with_nonces config discovery_nonce request_nonce)
        (gc_relay config :: gc_fallback_relays config) Discovering None None empty_state, rng).

(** * Observations *)

Definition is_established (g : Gateway) : bool :=
  bool_decide (gw_phase g = Established) && bool_decide (is_Some (gw_session g)).
Definition is_awaiting_query (g : Gateway) : bool := bool_decide (gw_phase g = AwaitingMembershipQuery).
Definition gw_response_mac (g : Gateway) : option ResponseMac := gs_response_mac <$> gw_session g.
Definition has_reported_memberships (g : Gateway) : bool :=
  is_some_and gs_reported_memberships (gw_session g).
Definition current_relay_is_retired (g : Gateway) : bool :=
  negb (bool_decide (gc_relay (gw_config g) ∈ gw_relay_candidates g)).

Definition is_usable_unicast (address : IpAddr) : bool :=
  match address with
  | V4 a => negb (v4_is_unspecified a) && negb (v4_is_multicast a) && negb (v4_is_broadcast a)
  | V6 a => negb (v6_is_unspecified a) && negb (v6_is_multicast a)
  end.

(** * Sending *)

Definition discovery (g : Gateway) : GatewayAction :=
  GSend (gc_relay (gw_config g)) (encode (RelayDiscovery (gc_discovery_nonce (gw_config g)))).

Definition request_datagram (g : Gateway) : list Z :=
  encode (Request (gc_request_nonce (gw_config g)) (gc_protocol (gw_config g)) (gc_ecn (gw_config g))).

Definition request (g : Gateway) : res GatewayError GatewayAction :=
  relay ← ok_or MissingRelayEndpoint (gw_relay_endpoint g);
  Ok (GSend relay (request_datagram g)).

Definition begin_query_cycle (g : Gateway) (rng : draws) : res GatewayError (Gateway * GatewayAction * draws) :=
  if bool_decide (gw_relay_endpoint g = None) then Err MissingRelayEndpoint
  else
    '(nonce, rng) ← random_nonce rng;
    let g := mkGateway (with_nonces (gw_config g) (gc_discovery_nonce (gw_config g)) nonce)
      (gw_relay_candidates g) AwaitingMembershipQuery (gw_relay_endpoint g) (gw_session g)
      (gw_reception_state g) in
    action ← request g;
    Ok (g, action, rng).

(** The relay and the fallback list after [restart_discovery]. *)
Definition next_relays (c : GatewayConfig) (candidates : list SocketAddr) : GatewayConfig :=
  match gc_fallback_relays c with
  | [] => c
  | next :: rest =>
      set_relays c next (if bool_decide (gc_relay c ∈ candidates) then rest ++ [gc_relay c] else rest)
  end.

Definition restart_discovery (g : Gateway) (rng : draws) : res GatewayError (Gateway * GatewayAction * draws) :=
  let c := next_relays (gw_config g) (gw_relay_candidates g) in
  '(discovery_nonce, rng) ← random_nonce rng;
  '(request_nonce, rng) ← random_nonce rng;
  let g := mkGateway (with_nonces c discovery_nonce request_nonce) (gw_relay_candidates g)
    Discovering None None (gw_reception_state g) in
  Ok (g, discovery g, rng).

Definition replace_relay_candidates (g : Gateway) (relays : list SocketAddr) : Gateway * bool :=
  let c := gw_config g in
  let candidates := collect_relays (λ relay, same_family (sock_ip relay) (sock_ip (gc_relay c))) relays in
  if is_empty candidates || bool_decide (candidates = gw_relay_candidates g) then (g, false)
  else
    (mkGateway (set_relays c (gc_relay c) (filter (λ candidate, candidate ≠ gc_relay c) candidates))
       candidates (gw_phase g) (gw_relay_endpoint g) (gw_session g) (gw_reception_state g), true).

(** * Receiving *)

Definition handle_advertisement (g : Gateway) (peer : SocketAddr) (discovery_nonce : Z)
    (relay_address : IpAddr) : res GatewayError (Gateway * GatewayAction) :=
  if negb (bool_decide (gw_phase g = Discovering))
  then Err (UnexpectedMessageForState "Relay Advertisement" (gw_phase g))
  else if negb (discovery_nonce =? gc_discovery_nonce (gw_config g))
  then Err (UnexpectedDiscoveryNonce (gc_discovery_nonce (gw_config g)) discovery_nonce)
  else if negb (is_usable_unicast relay_address) || negb (same_family relay_address (sock_ip peer))
  then Err (InvalidRelayAddress relay_address)
  else
    let relay_endpoint := sock_new relay_address (sock_port peer) in
    let g := mkGateway (gw_config g) (gw_relay_candidates g) AwaitingMembershipQuery
      (Some relay_endpoint) (gw_session g) (gw_reception_state g) in
    Ok (g, GSend relay_endpoint (request_datagram g)).

Definition handle_query (g : Gateway) (response_mac : ResponseMac) (request_nonce : Z) (limit : bool)
    (gateway : option GatewayEndpoint) (general_query : list Z) :
    res GatewayError (Gateway * GatewayAction) :=
  relay ← ok_or MissingRelayEndpoint (gw_relay_endpoint g);
  expected_nonce ←
    match gw_phase g, gw_session g with
    | AwaitingMembershipQuery, _ => Ok (gc_request_nonce (gw_config g))
    | Established, Some session => Ok (gs_request_nonce session)
    | phase, _ => Err (UnexpectedMessageForState "Membership Query" phase)
    end;
  if negb (request_nonce =? expected_nonce)
  then Err (UnexpectedRequestNonce expected_nonce request_nonce)
  else
    '(query_interval, general_query) ←
      map_err GInvalidGeneralQuery (validated_general_query (gc_protocol (gw_config g)) general_query);
    let previous_session := gw_session g in
    let previous_teardown :=
      session ← previous_session;
      if bool_decide (gs_gateway_endpoint session = gateway) then None
      else
        old_gateway ← gs_gateway_endpoint session;
        Some (mkSend relay
          (encode (Teardown (gs_response_mac session) (gs_request_nonce session) old_gateway))) in
    let session := mkSession response_mac request_nonce gateway
      (is_some_and (λ session,
         bool_decide (gs_gateway_endpoint session = gateway) && gs_reported_memberships session)
         previous_session) in
    Ok (mkGateway (gw_config g) (gw_relay_candidates g) Established (gw_relay_endpoint g)
          (Some session) (gw_reception_state g),
        GMembershipQuery response_mac limit gateway general_query query_interval previous_teardown).

Definition interested (g : Gateway) (source group : IpAddr) : bool :=
  is_some_and (λ interest, wants_source interest source)
    (endpoint_interest (gw_reception_state g) RECEPTION_STATE_ENDPOINT group).

Definition handle_multicast_data (g : Gateway) (packet : list Z) (outer_ecn : EcnCodepoint) :
    res GatewayError GatewayAction :=
  if bool_decide (gw_relay_endpoint g = None) then Err MissingRelayEndpoint
  else if bool_decide (gw_session g = None)
  then Err (UnexpectedMessageForState "Multicast Data" (gw_phase g))
  else
    parsed ← map_err GInvalidMulticastPacket (parse_multicast_packet packet);
    if negb (interested g (mp_source parsed) (mp_group parsed)) then Ok GIgnored
    else if gc_ecn (gw_config g) then
      '(packet, ecn) ← map_err GInvalidEcn (decapsulate_ecn packet outer_ecn);
      if is_drop ecn then Ok (GDroppedEcn ecn (len packet))
      else Ok (GMulticastData packet (Some ecn))
    else Ok (GMulticastData packet None).

Definition handle_message (g : Gateway) (peer : SocketAddr) (message : Message) (outer_ecn : EcnCodepoint) :
    res GatewayError (Gateway * GatewayAction) :=
  match message with
  | RelayAdvertisement discovery_nonce relay_address =>
      handle_advertisement g peer discovery_nonce relay_address
  | MembershipQuery response_mac request_nonce limit gateway general_query =>
      handle_query g response_mac request_nonce limit gateway general_query
  | MulticastData packet => action ← handle_multicast_data g packet outer_ecn; Ok (g, action)
  | RelayDiscovery _ | Request _ _ _ | MembershipUpdate _ _ _ | Teardown _ _ _ => Ok (g, GIgnored)
  end.

Definition expected_peer (g : Gateway) : SocketAddr :=
  default (gc_relay (gw_config g)) (gw_relay_endpoint g).

Definition handle_datagram_with_ecn (g : Gateway) (peer : SocketAddr) (datagram : list Z)
    (outer_ecn : EcnCodepoint) : res GatewayError (Gateway * GatewayAction) :=
  if negb (bool_decide (peer = expected_peer g)) then Err (UnexpectedPeer (expected_peer g) peer)
  else
    message ← map_err GDecode (decode datagram);
    handle_message g peer message outer_ecn.

Definition gw_handle_datagram (g : Gateway) (peer : SocketAddr) (datagram : list Z) :
    res GatewayError (Gateway * GatewayAction) :=
  handle_datagram_with_ecn g peer datagram NotEct.

(** * Reporting memberships *)

Definition membership_update (g : Gateway) (report : MembershipReport) :
    res GatewayError (Gateway * GatewayAction) :=
  relay ← ok_or MissingRelayEndpoint (gw_relay_endpoint g);
  session ← ok_or MissingMembershipQuery (gw_session g);
  membership_update ← map_err GMembershipBuild (build_membership_report report);
  let '(reception_state, _) := apply_report (gw_reception_state g) RECEPTION_STATE_ENDPOINT report in
  let session' := mkSession (gs_response_mac session) (gs_request_nonce session)
    (gs_gateway_endpoint session)
    (endpoint_has_interests reception_state RECEPTION_STATE_ENDPOINT) in
  Ok (mkGateway (gw_config g) (gw_relay_candidates g) (gw_phase g) (gw_relay_endpoint g)
        (Some session') reception_state,
      GSend relay (encode (MembershipUpdate (gs_response_mac session) (gs_request_nonce session)
                             membership_update))).

(** The records that withdraw the groups the report does not mention. *)
Definition withdrawals (g : Gateway) (report : MembershipReport) : list MembershipRecord :=
  let current : gset IpAddr := list_to_set (rec_group <$> rep_records report) in
  (λ group, mkRecord ChangeToInclude group []) <$>
    filter (λ group, group ∉ current) (btree_keys (aggregate (gw_reception_state g))).

Definition replace_memberships (g : Gateway) (report : MembershipReport) :
    res GatewayError (Gateway * option GatewayAction) :=
  let report := mkReport (rep_protocol report) (rep_records report ++ withdrawals g report) in
  if is_empty (rep_records report) then Ok (g, None)
  else
    '(g, action) ← membership_update g report;
    Ok (g, Some action).

Definition join_group (g : Gateway) (group : IpAddr) (source : option IpAddr) :
    res GatewayError (Gateway * GatewayAction) :=
  let record :=
    match source with
    | Some source => mkRecord AllowNewSources group [source]
    | None => mkRecord ModeIsExclude group []
    end in
  membership_update g (mkReport (gc_protocol (gw_config g)) [record]).

Definition teardown (g : Gateway) : res GatewayError GatewayAction :=
  relay ← ok_or MissingRelayEndpoint (gw_relay_endpoint g);
  session ← ok_or MissingMembershipQuery (gw_session g);
  gateway ← ok_or MissingGatewayEndpoint (gs_gateway_endpoint session);
  Ok (GSend relay (encode (Teardown (gs_response_mac session) (gs_request_nonce session) gateway))).

(** * Invariant *)

Definition session_wf (s : GatewaySession) : Prop :=
  mac_wf (gs_response_mac s) ∧ u32 (gs_request_nonce s) ∧ gateway_wf (gs_gateway_endpoint s).

Definition nonce_ok (n : Z) : Prop := u32 n ∧ n ≠ 0.

Record gateway_ok (g : Gateway) : Prop := {
  gok_discovering : gw_phase g = Discovering ↔ gw_relay_endpoint g = None;
  gok_session : gw_phase g = Discovering → gw_session g = None;
  gok_established : gw_phase g = Established → is_Some (gw_session g);
  gok_session_wf : ∀ s, gw_session g = Some s → session_wf s;
  gok_discovery_nonce : nonce_ok (gc_discovery_nonce (gw_config g));
  gok_request_nonce : nonce_ok (gc_request_nonce (gw_config g));
  gok_reception : state_ok (gw_reception_state g);
  gok_groups : ∀ e group, is_Some (endpoint_interest (gw_reception_state g) e group) → ip_wf group
}.

(** Draws of 32-bit values. *)
Definition draws_wf (rng : draws) : Prop := Forall (λ d, ∀ n, d = Some n → u32 n) rng.

Lemma random_nonce_ok {E} rng n rng' :
  draws_wf rng → random_nonce (E:=E) rng = Ok (n, rng') → nonce_ok n ∧ draws_wf rng'.
Proof.
  induction 1 as [|[m|] rng Hm Hrng IH]; simpl; [done| |done].
  destruct (Z.eqb_spec m 0); simpl; [auto|]. intros; simplify_eq. split; [|done]. split; [|done]. by apply Hm.
Qed.

(** The retry loop ends as soon as the source yields a non-zero draw. *)
Lemma random_nonce_total {E} zeros n rng :
  n ≠ 0 → Forall (eq (Some 0)) zeros → random_nonce (E:=E) (zeros ++ Some n :: rng) = Ok (n, rng).
Proof.
  intros Hn. induction 1 as [|? zeros <- _ IH]; simpl; [|done].
  by destruct (Z.eqb_spec n 0).
Qed.

Lemma new_gateway_ok config rng g rng' :
  draws_wf rng → u32 (gc_discovery_nonce config) → u32 (gc_request_nonce config) →
  new_gateway config rng = Ok (g, rng') → gateway_ok g ∧ draws_wf rng'.
Proof.
  intros Hrng Hd Hq. unfold new_gateway.
  assert (∀ n rng m rng', draws_wf rng → u32 n → nonzero_or_random (E:=GatewayError) n rng = Ok (m, rng') →
    nonce_ok m ∧ draws_wf rng') as Hnz.
  { intros n rng0 m rng1 Hr Hn. unfold nonzero_or_random. destruct (Z.eqb_spec n 0); cbn [negb].
    - by apply random_nonce_ok.
    - intros; simplify_eq. split; [|done]. by split. }
  intros ([n1 rng1] & H1 & H)%bind_ok_inv. apply bind_ok_inv in H as ([n2 rng2] & H2 & H). simplify_eq.
  apply Hnz in H1 as [? ?]; [|done..]. apply Hnz in H2 as [? ?]; [|done..].
  split; [|done]. split; simpl; try done. by intros e group [i Hi].
Qed.

Lemma begin_query_cycle_ok g rng g' action rng' :
  gateway_ok g → draws_wf rng → begin_query_cycle g rng = Ok (g', action, rng') →
  gateway_ok g' ∧ draws_wf rng' ∧ gw_phase g' = AwaitingMembershipQuery ∧ gw_session g' = gw_session g.
Proof.
  intros Hok Hrng. unfold begin_query_cycle. case_bool_decide as He; [done|].
  intros ([n rng1] & Hn & H)%bind_ok_inv. apply bind_ok_inv in H as (a & _ & H). simplify_eq.
  apply random_nonce_ok in Hn as [? ?]; [|done]. destruct Hok. split_and!; try done.
Qed.

Lemma restart_discovery_ok g rng g' action rng' :
  gateway_ok g → draws_wf rng → restart_discovery g rng = Ok (g', action, rng') →
  gateway_ok g' ∧ draws_wf rng' ∧ gw_phase g' = Discovering ∧
  gw_reception_state g' = gw_reception_state g ∧
  gc_relay (gw_config g') = gc_relay (next_relays (gw_config g) (gw_relay_candidates g)) ∧
  gc_fallback_relays (gw_config g') = gc_fallback_relays (next_relays (gw_config g) (gw_relay_candidates g)) ∧
  gw_relay_candidates g' = gw_relay_candidates g.
Proof.
  intros Hok Hrng. unfold restart_discovery.
  intros ([n1 rng1] & H1 & H)%bind_ok_inv. apply bind_ok_inv in H as ([n2 rng2] & H2 & H). simplify_eq.
  apply random_nonce_ok in H1 as [? ?]; [|done]. apply random_nonce_ok in H2 as [? ?]; [|done].
  destruct Hok. by split_and!.
Qed.

Lemma replace_relay_candidates_ok g relays :
  gateway_ok g → gateway_ok (replace_relay_candidates g relays).1.
Proof. unfold replace_relay_candidates. intros Hok. destruct (_ || _); [done|]. destruct Hok. by split. Qed.

(** ** Receiving *)

(** The nonce a membership query must carry. *)
Definition query_nonce (g : Gateway) : option Z :=
  match gw_phase g, gw_session g with
  | AwaitingMembershipQuery, _ => Some (gc_request_nonce (gw_config g))
  | Established, Some session => Some (gs_request_nonce session)
  | _, _ => None
  end.

Lemma handle_advertisement_wp g peer n a :
  gateway_ok g →
  wp (handle_advertisement g peer n a)
    (λ '(g', action), gateway_ok g' ∧ gw_phase g = Discovering ∧ n = gc_discovery_nonce (gw_config g) ∧
       is_usable_unicast a = true ∧ same_family a (sock_ip peer) = true ∧
       gw_phase g' = AwaitingMembershipQuery ∧ gw_session g' = gw_session g ∧
       gw_relay_endpoint g' = Some (sock_new a (sock_port peer)) ∧
       action = GSend (sock_new a (sock_port peer)) (request_datagram g) ∧
       gw_config g' = gw_config g ∧ gw_relay_candidates g' = gw_relay_candidates g ∧
       gw_reception_state g' = gw_reception_state g) (λ _, True).
Proof.
  intros []. unfold handle_advertisement. case_bool_decide; [|done]. cbn [negb].
  destruct (Z.eqb_spec n (gc_discovery_nonce (gw_config g))); [|done]. cbn [negb].
  destruct (is_usable_unicast a); [|done]. destruct (same_family a (sock_ip peer)); [|done]. cbn.
  split_and!; try done.
Qed.

Lemma handle_query_wp g mac n l gw q :
  gateway_ok g → message_wf (MembershipQuery mac n l gw q) →
  wp (handle_query g mac n l gw q)
    (λ '(g', action), gateway_ok g' ∧ query_nonce g = Some n ∧ gw_phase g' = Established ∧
       (∃ reported, gw_session g' = Some (mkSession mac n gw reported)) ∧
       gw_relay_endpoint g' = gw_relay_endpoint g ∧
       (∃ query interval previous, action = GMembershipQuery mac l gw query interval previous) ∧
       gw_config g' = gw_config g ∧ gw_relay_candidates g' = gw_relay_candidates g ∧
       gw_reception_state g' = gw_reception_state g) (λ _, True).
Proof.
  intros [] (Hm & Hn & Hg & Hq). unfold handle_query. apply wp_bind, wp_ok_or; [|done]. intros relay Hr.
  assert (match gw_phase g, gw_session g with
          | AwaitingMembershipQuery, _ => Ok (gc_request_nonce (gw_config g))
          | Established, Some session => Ok (gs_request_nonce session)
          | phase, _ => Err (UnexpectedMessageForState "Membership Query" phase)
          end = ok_or (UnexpectedMessageForState "Membership Query" (gw_phase g)) (query_nonce g)) as ->
    by (unfold query_nonce; by destruct (gw_phase g), (gw_session g)).
  apply wp_bind, wp_ok_or; [|done]. intros m Hqn.
  destruct (Z.eqb_spec n m) as [->|]; [|done]. cbn [negb]. apply wp_bind, wp_map_err.
  eapply wp_mono; [by apply validated_general_query_wp| |done]. intros [interval query] _. cbn.
  split_and!; try done; eauto.
  split; simpl; try done; [naive_solver|]. intros s [= <-]. by split_and!.
Qed.

Lemma handle_multicast_data_wp g packet ecn :
  bytes packet →
  wp (handle_multicast_data g packet ecn)
    (λ action, is_Some (gw_relay_endpoint g) ∧ is_Some (gw_session g) ∧
       ∃ parsed, parse_multicast_packet packet = Ok parsed ∧
         if interested g (mp_source parsed) (mp_group parsed) then
           if gc_ecn (gw_config g) then
             ∃ p' d, decapsulate_ecn packet ecn = Ok (p', d) ∧
               action = if is_drop d then GDroppedEcn d (len p') else GMulticastData p' (Some d)
           else action = GMulticastData packet None
         else action = GIgnored) (λ _, True).
Proof.
  intros Hb. unfold handle_multicast_data. case_bool_decide as Hr; [done|]. case_bool_decide as Hs; [done|].
  apply not_eq_None_Some in Hr, Hs. apply wp_bind, wp_map_err.
  pose proof (parse_multicast_packet_wp packet Hb) as Hp.
  destruct (parse_multicast_packet packet) as [parsed|e| |] eqn:Hparse; try done. cbn [wp].
  destruct (interested g _ _) eqn:Hi; cbn [negb].
  - destruct (gc_ecn (gw_config g)) eqn:He.
    + apply wp_bind, wp_map_err. pose proof (decapsulate_ecn_wp packet ecn Hb) as Hd.
      destruct (decapsulate_ecn packet ecn) as [[p' d]|e| |] eqn:Hdec; try done. cbn [wp].
      destruct (is_drop d) eqn:Hdrop; cbn [wp]; split_and!; try done; exists parsed; rewrite Hi; split; try done;
        exists p', d; by rewrite Hdrop.
    + cbn. split_and!; try done. exists parsed. by rewrite Hi.
  - cbn. split_and!; try done. exists parsed. by rewrite Hi.
Qed.

(** What an accepted datagram does. *)
Inductive gateway_event (g : Gateway) (peer : SocketAddr) (g' : Gateway) : GatewayAction → Message → Prop :=
| event_advertisement address :
    gw_phase g = Discovering → is_usable_unicast address = true →
    same_family address (sock_ip peer) = true →
    gw_phase g' = AwaitingMembershipQuery →
    gw_relay_endpoint g' = Some (sock_new address (sock_port peer)) → gw_session g' = gw_session g →
    gateway_event g peer g' (GSend (sock_new address (sock_port peer)) (request_datagram g))
      (RelayAdvertisement (gc_discovery_nonce (gw_config g)) address)
| event_query mac nonce limit gateway q query interval previous reported :
    query_nonce g = Some nonce → gw_phase g' = Established →
    gw_session g' = Some (mkSession mac nonce gateway reported) →
    gw_relay_endpoint g' = gw_relay_endpoint g →
    gateway_event g peer g' (GMembershipQuery mac limit gateway query interval previous)
      (MembershipQuery mac nonce limit gateway q)
| event_data action packet : g' = g → gateway_event g peer g' action (MulticastData packet)
| event_ignored message : g' = g → gateway_event g peer g' GIgnored message.

Lemma handle_datagram_wp g peer datagram ecn :
  gateway_ok g → bytes datagram →
  wp (handle_datagram_with_ecn g peer datagram ecn)
    (λ '(g', action), gateway_ok g' ∧ peer = expected_peer g ∧
       gw_config g' = gw_config g ∧ gw_relay_candidates g' = gw_relay_candidates g ∧
       gw_reception_state g' = gw_reception_state g ∧
       ∃ message, decode datagram = Ok message ∧ gateway_event g peer g' action message) (λ _, True).
Proof.
  intros Hok Hb. unfold handle_datagram_with_ecn. case_bool_decide as Hpeer; [|done]. cbn [negb].
  apply wp_bind, wp_map_err. pose proof (decode_wp datagram) as Hd.
  destruct (decode datagram) as [message|e| |] eqn:Hdec; try done. cbn [wp].
  assert (message_wf message) as Hwf by by apply Hd.
  destruct message as [n|n a|n p e|mac n l gw q|mac n u|p|mac n gw]; cbn [handle_message].
  - cbn. split_and!; try done. eexists. split; [done|]. by constructor.
  - eapply wp_mono; [by apply handle_advertisement_wp| |done].
    intros [g' action] (? & ? & -> & ? & ? & ? & ? & ? & -> & ? & ? & ?). split_and!; try done.
    eexists. split; [done|]. by constructor.
  - cbn. split_and!; try done. eexists. split; [done|]. by constructor.
  - eapply wp_mono; [by apply handle_query_wp| |done].
    intros [g' action] (? & ? & ? & [reported ?] & ? & (query & interval & previous & ->) & ? & ? & ?).
    split_and!; try done. eexists. split; [done|]. by econstructor.
  - cbn. split_and!; try done. eexists. split; [done|]. by constructor.
  - apply wp_bind. eapply wp_mono; [by apply handle_multicast_data_wp| |done].
    intros action _. cbn. split_and!; try done. eexists. split; [done|]. by constructor.
  - cbn. split_and!; try done. eexists. split; [done|]. by constructor.
Qed.

(** ** Reporting *)

Lemma interested_wants g s group :
  interested g s group = wants (gw_reception_state g) RECEPTION_STATE_ENDPOINT group s.
Proof. done. Qed.

(** Why a membership update can be refused; the gateway is then unchanged. *)
Definition update_refused (g : Gateway) (report : MembershipReport) (e : GatewayError) : Prop :=
  match e with
  | MissingRelayEndpoint => gw_relay_endpoint g = None
  | MissingMembershipQuery => gw_session g = None
  | GMembershipBuild _ => report_fits (rep_protocol report) (rep_records report) = false
  | _ => False
  end.

Lemma membership_update_wp g report :
  gateway_ok g → report_wf report →
  wp (membership_update g report)
    (λ '(g', action), gateway_ok g' ∧ gw_config g' = gw_config g ∧ gw_phase g' = gw_phase g ∧
       gw_relay_endpoint g' = gw_relay_endpoint g ∧ gw_relay_candidates g' = gw_relay_candidates g ∧
       gw_reception_state g' = (apply_report (gw_reception_state g) RECEPTION_STATE_ENDPOINT report).1 ∧
       ∃ relay session packet,
         gw_relay_endpoint g = Some relay ∧ gw_session g = Some session ∧
         build_membership_report report = Ok packet ∧
         gw_session g' = Some (mkSession (gs_response_mac session) (gs_request_nonce session)
           (gs_gateway_endpoint session)
           (endpoint_has_interests (gw_reception_state g') RECEPTION_STATE_ENDPOINT)) ∧
         action = GSend relay (encode (MembershipUpdate (gs_response_mac session)
                                         (gs_request_nonce session) packet))) (update_refused g report).
Proof.
  intros Hok Hwf. unfold membership_update. apply wp_bind, wp_ok_or; [|done]. intros relay Hr.
  apply wp_bind, wp_ok_or; [|done]. intros session Hs. apply wp_bind, wp_map_err.
  pose proof (build_membership_report_wp report Hwf) as Hb.
  destruct (build_membership_report report) as [packet|e| |]; try done. cbn [wp].
  pose proof (apply_report_ok (gw_reception_state g) RECEPTION_STATE_ENDPOINT report (gok_reception g Hok)) as Hst.
  pose proof (λ e group, apply_report_groups _ RECEPTION_STATE_ENDPOINT report e group (gok_reception g Hok)) as Hgr.
  destruct (apply_report _ _ _) as [st n]; cbn in *. split_and!; try done; [|by eauto 10].
  destruct Hok. split; simpl; try done; [naive_solver..| |].
  - intros s' [= <-]. by apply gok_session_wf0 in Hs.
  - intros e group Hi. apply Hgr in Hi as [Hi|Hi]; [by eapply gok_groups0|].
    apply list_elem_of_fmap in Hi as (r & -> & Hi). unfold report_wf in Hwf. rewrite Forall_forall in Hwf.
    by apply Hwf.
Qed.

Lemma report_effect_app rs rs' group wanted s :
  report_effect (rs ++ rs') group wanted s = report_effect rs' group (report_effect rs group wanted) s.
Proof. unfold report_effect. by rewrite foldl_app. Qed.

Lemma report_effect_other rs group wanted s :
  group ∉ rec_group <$> rs → report_effect rs group wanted s = wanted s.
Proof.
  unfold report_effect. revert wanted. induction rs as [|r rs IH]; intros wanted; simpl; [done|].
  intros Hg. apply not_elem_of_cons in Hg as [Hne Hg]. rewrite decide_False by done. by apply IH.
Qed.

(** Withdrawing a group leaves nothing wanted in it. *)
Lemma report_effect_withdraw groups group wanted s :
  group ∈ groups →
  report_effect ((λ group, mkRecord ChangeToInclude group []) <$> groups) group wanted s = false.
Proof.
  revert wanted. induction groups as [|x groups IH]; intros wanted Hg; [by apply elem_of_nil in Hg|].
  rewrite fmap_cons. change (?x :: ?l) with ([x] ++ l). rewrite report_effect_app.
  destruct (decide (group ∈ groups)) as [Hin|Hni]; [by apply IH|].
  rewrite report_effect_other.
  - apply elem_of_cons in Hg as [->|]; [|done]. unfold report_effect; simpl. by rewrite decide_True.
  - rewrite <- list_fmap_compose. unfold compose; simpl. by rewrite list_fmap_id.
Qed.

Lemma aggregate_key_wanted st e group s :
  state_ok st → wants st e group s = true → group ∈ btree_keys (aggregate st).
Proof.
  intros [Hr _] Hw. pose proof (proj2 (aggregate_wants_rebuild st group s) (ex_intro _ e Hw)) as Ha.
  rewrite Hr in Ha. unfold aggregate_wants, wants_group in Ha. apply elem_of_btree_keys.
  destruct (aggregate st !! group); [eauto|done].
Qed.

(** The extended report of [replace_memberships]: a group it mentions changes as
    the report says, every other group is withdrawn. *)
Lemma replace_effect g report group s :
  gateway_ok g →
  report_effect (rep_records report ++ withdrawals g report) group
    (wants (gw_reception_state g) RECEPTION_STATE_ENDPOINT group) s =
  if decide (group ∈ rec_group <$> rep_records report)
  then report_effect (rep_records report) group
         (wants (gw_reception_state g) RECEPTION_STATE_ENDPOINT group) s
  else false.
Proof.
  intros Hok. rewrite report_effect_app. unfold withdrawals. case_decide as Hg.
  - apply report_effect_other. rewrite <- list_fmap_compose. unfold compose; simpl. rewrite list_fmap_id.
    rewrite list_elem_of_filter, elem_of_list_to_set. tauto.
  - set (old := wants _ _ _). set (groups := filter _ _).
    rewrite (report_effect_ext _ _ _ old) by (intros; by apply report_effect_other).
    destruct (decide (group ∈ groups)) as [Hin|Hni]; [by apply report_effect_withdraw|].
    rewrite report_effect_other.
    + destruct (old s) eqn:Ho; [|done]. exfalso. apply Hni. unfold groups.
      rewrite list_elem_of_filter, elem_of_list_to_set. split; [done|].
      eapply aggregate_key_wanted; [apply Hok|exact Ho].
    + rewrite <- list_fmap_compose. unfold compose; simpl. by rewrite list_fmap_id.
Qed.

Lemma withdrawals_wf g report :
  gateway_ok g → report_wf report →
  report_wf (mkReport (rep_protocol report) (rep_records report ++ withdrawals g report)).
Proof.
  intros [] Hwf. apply Forall_app. split; [done|]. unfold withdrawals. rewrite Forall_fmap. apply Forall_forall.
  intros group [_ Hg]%list_elem_of_filter. apply aggregate_key_interest in Hg as [e Hg]; [|done].
  split; [by eapply gok_groups0|constructor].
Qed.

(** ** Failover *)

(** The relays in the order they will be tried. *)
Definition ring (g : Gateway) : list SocketAddr :=
  if bool_decide (gc_relay (gw_config g) ∈ gw_relay_candidates g)
  then gc_relay (gw_config g) :: gc_fallback_relays (gw_config g) else gc_fallback_relays (gw_config g).

Definition ring_ok (g : Gateway) : Prop :=
  NoDup (ring g) ∧ ring g ≠ [] ∧ ∀ relay, relay ∈ ring g ↔ relay ∈ gw_relay_candidates g.

Definition restart_step (g g' : Gateway) : Prop :=
  ∃ rng action rng', restart_discovery g rng = Ok (g', action, rng').

Definition rot {A} (l : list A) : list A := match l with [] => [] | x :: l => l ++ [x] end.

Lemma collect_relays_spec keep relays :
  NoDup (collect_relays keep relays) ∧
  ∀ r, r ∈ collect_relays keep relays ↔ r ∈ relays ∧ keep r = true.
Proof.
  unfold collect_relays. induction relays as [|x relays IH] using rev_ind; simpl; [set_solver by constructor|].
  rewrite foldl_app; simpl. destruct IH as [Hnd Hin].
  set (acc := foldl _ _ _) in *.
  destruct (keep x) eqn:Hk; simpl.
  - case_bool_decide as Hx; simpl.
    + split; [done|]. intros r. rewrite Hin, elem_of_app, list_elem_of_singleton. naive_solver.
    + split.
      * apply NoDup_app. split_and!; [done| |apply NoDup_singleton]. intros y Hy ->%list_elem_of_singleton. done.
      * intros r. rewrite !elem_of_app, !list_elem_of_singleton, Hin. naive_solver.
  - split; [done|]. intros r. rewrite Hin, elem_of_app, list_elem_of_singleton. naive_solver congruence.
Qed.

Lemma restart_step_ring g g' :
  ring_ok g → restart_step g g' →
  ring_ok g' ∧ gc_relay (gw_config g') ∈ gw_relay_candidates g' ∧
  ring g' = if bool_decide (gc_relay (gw_config g) ∈ gw_relay_candidates g) then rot (ring g) else ring g.
Proof.
  intros (Hnd & Hne & Hin) (rng & action & rng' & H). unfold restart_discovery in H.
  apply bind_ok_inv in H as ([n1 rng1] & _ & H). apply bind_ok_inv in H as ([n2 rng2] & _ & H). simplify_eq.
  unfold ring_ok, ring in *. cbn [gw_config gc_relay gc_fallback_relays gw_relay_candidates with_nonces].
  unfold next_relays. destruct (gw_config g) as [relay fallback p e dn rn]; simpl in *.
  destruct fallback as [|next rest]; simpl.
  - case_bool_decide as Hr; [|done]. by split_and!.
  - case_bool_decide as Hr; simpl.
    + assert (next ∈ gw_relay_candidates g) as Hn by (apply Hin; set_solver).
      rewrite !bool_decide_eq_true_2 by done. split_and!; try done.
      * revert Hnd. apply NoDup_Permutation_proper. change (next :: rest ++ [relay]) with ((next :: rest) ++ [relay]).
        rewrite (Permutation_app_comm (next :: rest)). done.
      * intros r. rewrite <- Hin. set_solver.
    + assert (next ∈ gw_relay_candidates g) as Hn by (apply Hin; set_solver).
      rewrite !bool_decide_eq_true_2 by done. by split_and!.
Qed.

Lemma iter_rot {A} k (l : list A) : (k ≤ length l)%nat → Nat.iter k rot l = drop k l ++ take k l.
Proof.
  induction k as [|k IH]; simpl; intros Hk; [by rewrite app_nil_r|]. rewrite IH by lia.
  destruct (lookup_lt_is_Some_2 l k) as [x Hx]; [lia|]. rewrite (drop_S _ _ _ Hx). simpl.
  rewrite (take_S_r _ _ _ Hx), (assoc_L (++)). done.
Qed.

Lemma restarts_ring k g g' :
  ring_ok g → gc_relay (gw_config g) ∈ gw_relay_candidates g → nsteps restart_step k g g' →
  ring_ok g' ∧ gc_relay (gw_config g') ∈ gw_relay_candidates g' ∧ ring g' = Nat.iter k rot (ring g).
Proof.
  intros Hok Hr. revert g'. induction k as [|k IH]; intros g' Hs.
  - inversion Hs; subst. done.
  - apply nsteps_inv_r in Hs as (g1 & Hs & Hstep). destruct (IH _ Hs) as (Hok1 & Hr1 & Hring).
    destruct (restart_step_ring _ _ Hok1 Hstep) as (Hok' & Hr' & Hring'). split_and!; try done.
    rewrite Hring'. rewrite bool_decide_eq_true_2 by done. by rewrite Hring.
Qed.

Lemma replace_relay_candidates_ring g relays :
  ring_ok g → ring_ok (replace_relay_candidates g relays).1.
Proof.
  intros Hok. unfold replace_relay_candidates. set (candidates := collect_relays _ relays).
  destruct (is_empty candidates) eqn:He; [done|]. apply is_empty_false in He. case_bool_decide; [done|].
  destruct (collect_relays_spec (λ relay, same_family (sock_ip relay) (sock_ip (gc_relay (gw_config g)))) relays)
    as [Hnd _]. fold candidates in Hnd.
  unfold ring_ok, ring; simpl. set (relay := gc_relay (gw_config g)). case_bool_decide as Hr.
  - split_and!; try done.
    + constructor; [rewrite list_elem_of_filter; tauto|by apply NoDup_filter].
    + intros r. rewrite elem_of_cons, list_elem_of_filter. destruct (decide (r = relay)); naive_solver.
  - assert (filter (λ candidate, candidate ≠ relay) candidates = candidates) as ->.
    { clear -Hr. induction candidates as [|x l IH]; [done|]. apply not_elem_of_cons in Hr as [? ?].
      rewrite filter_cons, decide_True by done. by rewrite IH. }
    by split_and!.
Qed.

Lemma new_gateway_ring config relays rng g rng' :
  new_gateway (with_fallback_relays config relays) rng = Ok (g, rng') → ring_ok g.
Proof.
  unfold new_gateway. intros ([n1 rng1] & _ & H)%bind_ok_inv. apply bind_ok_inv in H as ([n2 rng2] & _ & H).
  simplify_eq. unfold ring_ok, ring; simpl. rewrite bool_decide_eq_true_2 by set_solver.
  set (keep := λ relay, _ && _). destruct (collect_relays_spec keep relays) as [Hnd Hin].
  split_and!; try done. constructor; [|done]. rewrite Hin. unfold keep.
  rewrite bool_decide_eq_true_2 by done. naive_solver.
Qed.

(** ** The gateway as a transition system *)

Inductive gateway_step (g g' : Gateway) : Prop :=
| gstep_receive peer datagram ecn action :
    bytes datagram → handle_datagram_with_ecn g peer datagram ecn = Ok (g', action) → gateway_step g g'
| gstep_query_cycle rng action rng' :
    draws_wf rng → begin_query_cycle g rng = Ok (g', action, rng') → gateway_step g g'
| gstep_restart rng action rng' :
    draws_wf rng → restart_discovery g rng = Ok (g', action, rng') → gateway_step g g'
| gstep_candidates relays : (replace_relay_candidates g relays).1 = g' → gateway_step g g'
| gstep_update report action :
    report_wf report → membership_update g report = Ok (g', action) → gateway_step g g'
| gstep_replace report action :
    report_wf report → replace_memberships g report = Ok (g', action) → gateway_step g g'.

(** The order of the phases: every step but a restart keeps the phase or moves
    to the next one; a new query cycle moves from established to awaiting. *)
Definition phase_step (p p' : GatewayPhase) : Prop :=
  p' = p ∨ p' = Discovering ∨ (p = Discovering ∧ p' = AwaitingMembershipQuery) ∨
  (p = AwaitingMembershipQuery ∧ p' = Established) ∨ (p = Established ∧ p' = AwaitingMembershipQuery).

Lemma gateway_step_ok g g' : gateway_ok g → gateway_step g g' → gateway_ok g' ∧ phase_step (gw_phase g) (gw_phase g').
Proof.
  intros Hok Hstep. unfold phase_step.
  destruct Hstep as [peer datagram ecn action Hb H|rng a rng' Hr H|rng a rng' Hr H|relays <-|report a Hw H|report a Hw H].
  - pose proof (handle_datagram_wp g peer datagram ecn Hok Hb) as Hwp. rewrite H in Hwp. cbn in Hwp.
    destruct Hwp as (Hok' & _ & _ & _ & _ & message & _ & He). split; [done|].
    destruct He as [|mac nonce l gw q query i p rep Hn Hp| |]; subst; auto.
    unfold query_nonce in Hn. destruct (gw_phase g); naive_solver.
  - apply begin_query_cycle_ok in H as (Hok' & _ & Hp & _) ; [|done..]. split; [done|]. rewrite Hp.
    destruct (gw_phase g); auto 10.
  - apply restart_discovery_ok in H as (? & _ & ? & _); auto.
  - split; [by apply replace_relay_candidates_ok|]. left. unfold replace_relay_candidates. by destruct (_ || _).
  - pose proof (membership_update_wp g report Hok Hw) as Hwp. rewrite H in Hwp. cbn in Hwp. naive_solver.
  - unfold replace_memberships in H. destruct (is_empty _); [simplify_eq; auto|].
    apply bind_ok_inv in H as ([g1 a'] & H & ?). simplify_eq.
    pose proof (membership_update_wp g _ Hok (withdrawals_wf g report Hok Hw)) as Hwp. rewrite H in Hwp.
    cbn in Hwp. naive_solver.
Qed.

(** * Properties *)

(** C23: From its creation on, whatever datagrams arrive and whatever operations are
    called, the gateway keeps its invariant: it has a relay endpoint exactly when
    it is not discovering, a session whenever it is established and none while
    discovering, non-zero nonces, and a coherent reception state; and each step
    follows the phase order. *)
Theorem gateway_lifecycle config rng g0 rng0 g g' :
  draws_wf rng → u32 (gc_discovery_nonce config) → u32 (gc_request_nonce config) →
  new_gateway config rng = Ok (g0, rng0) → rtc gateway_step g0 g → gateway_step g g' →
  gateway_ok g ∧ gateway_ok g' ∧ phase_step (gw_phase g) (gw_phase g').
Proof.
  intros Hrng Hd Hq Hnew Hrtc Hstep.
  destruct (new_gateway_ok config rng g0 rng0 Hrng Hd Hq Hnew) as [Hok _].
  assert (gateway_ok g) as Hg.
  { clear Hnew Hstep. induction Hrtc as [|x y z Hxy _ IH]; [done|]. apply IH. by apply (gateway_step_ok x). }
  split; [done|]. by apply gateway_step_ok.
Qed.

(** C24: The gateway survives every datagram and cannot be steered by an off-path
    sender: no input makes it panic, and a datagram that changes it came from the
    expected peer and is either an advertisement answering the outstanding
    discovery nonce with a usable unicast address, or a membership query carrying
    the nonce of the outstanding request or of the session; memberships, relay
    candidates and configuration never change. *)
Theorem gateway_state_change_authentic g peer datagram ecn :
  gateway_ok g → bytes datagram →
  wp (handle_datagram_with_ecn g peer datagram ecn)
    (λ '(g', action), g' ≠ g →
       peer = expected_peer g ∧
       gw_config g' = gw_config g ∧ gw_relay_candidates g' = gw_relay_candidates g ∧
       gw_reception_state g' = gw_reception_state g ∧
       ((∃ address, decode datagram = Ok (RelayAdvertisement (gc_discovery_nonce (gw_config g)) address) ∧
           gw_phase g = Discovering ∧ is_usable_unicast address = true ∧
           gw_relay_endpoint g' = Some (sock_new address (sock_port peer)) ∧
           action = GSend (sock_new address (sock_port peer)) (request_datagram g)) ∨
        (∃ mac nonce limit gateway q reported,
           decode datagram = Ok (MembershipQuery mac nonce limit gateway q) ∧
           query_nonce g = Some nonce ∧ gw_phase g' = Established ∧
           gw_session g' = Some (mkSession mac nonce gateway reported))))
    (λ _, True).
Proof.
  intros Hok Hb. eapply wp_mono; [by apply handle_datagram_wp| |done].
  intros [g' action] (_ & ? & ? & ? & ? & message & Hd & He) Hne. split_and!; try done.
  destruct He; try done; [left|right]; naive_solver.
Qed.

(** Multicast data is delivered only within a session and only when the gateway's
    own memberships ask for the packet's source and group; without ECN the packet
    is delivered as it came, with ECN as [decapsulate_ecn] returns it, and it is
    dropped when RFC 6040 says so. *)
Theorem multicast_data_filtered g peer packet ecn action :
  gateway_ok g → bytes packet →
  handle_datagram_with_ecn g peer (encode (MulticastData packet)) ecn = Ok (g, action) →
  peer = expected_peer g ∧ is_Some (gw_session g) ∧
  ∃ parsed, parse_multicast_packet packet = Ok parsed ∧
    let wanted := wants (gw_reception_state g) RECEPTION_STATE_ENDPOINT (mp_group parsed) (mp_source parsed) in
    match action with
    | GMulticastData p d =>
        wanted = true ∧
        match d with
        | None => gc_ecn (gw_config g) = false ∧ p = packet
        | Some d => decapsulate_ecn packet ecn = Ok (p, d) ∧ is_drop d = false
        end
    | GDroppedEcn d _ => wanted = true ∧ is_drop d = true
    | GIgnored => wanted = false
    | _ => False
    end.
Proof.
  intros Hok Hb. unfold handle_datagram_with_ecn. case_bool_decide as Hp; [|done]. cbn [negb].
  rewrite decode_encode by done. cbn [map_err mbind res_bind handle_message].
  pose proof (handle_multicast_data_wp g packet ecn Hb) as Hw.
  destruct (handle_multicast_data g packet ecn) as [a|e| |]; try done; cbn. intros; simplify_eq. cbn in Hw.
  destruct Hw as (_ & Hs & parsed & Hparse & Hw). split_and!; try done. exists parsed. split; [done|].
  rewrite <- interested_wants.
  destruct (interested g _ _); [|by subst]. destruct (gc_ecn (gw_config g)); [|by subst].
  destruct Hw as (p' & d & Hd & ->). by destruct (is_drop d) eqn:?.
Qed.

(** A membership update of an established gateway carries the session's nonce and
    MAC and a packet that parses back to the report, and the gateway's own
    reception filter changes exactly as the report says; it is refused only
    without a relay endpoint or session, or when the report does not fit the wire
    format. *)
Theorem membership_update_reports g report :
  gateway_ok g → report_wf report →
  wp (membership_update g report)
    (λ '(g', action), gateway_ok g' ∧
       (∀ group source, interested g' source group =
          report_effect (rep_records report) group (λ s, interested g s group) source) ∧
       ∃ relay session packet,
         gw_relay_endpoint g = Some relay ∧ gw_session g = Some session ∧
         action = GSend relay
           (encode (MembershipUpdate (gs_response_mac session) (gs_request_nonce session) packet)) ∧
         ∀ limits,
           len (rep_records report) <= max_records limits →
           Forall (λ r, len (rec_sources r) <= max_sources_per_record limits) (rep_records report) →
           parse_membership_report_with_limits packet limits = Ok report)
    (update_refused g report).
Proof.
  intros Hok Hwf. pose proof (membership_update_wp g report Hok Hwf) as Hw.
  destruct (membership_update g report) as [[g' action]|e| |]; try done. cbn in *.
  destruct Hw as (Hok' & _ & _ & _ & _ & Hst & relay & session & packet & Hr & Hs & Hb & _ & ->).
  split_and!; try done.
  - intros group source. rewrite interested_wants, Hst, wants_apply_report by apply Hok.
    unfold spec_report. by rewrite decide_True.
  - exists relay, session, packet. split_and!; try done. intros limits Hl Hf.
    pose proof (build_membership_report_wp report Hwf) as Hbw. rewrite Hb in Hbw. cbn in Hbw.
    destruct Hbw as [_ Hbw]. specialize (Hbw limits [] Hl Hf). by rewrite app_nil_r in Hbw.
Qed.

(** Replacing the memberships leaves the gateway interested in what the report
    asks for and in nothing else: a group the report mentions changes as the
    report says, every other group is withdrawn; it is refused only as the update
    that carries report and withdrawals is. *)
Theorem replace_memberships_exact g report :
  gateway_ok g → report_wf report →
  wp (replace_memberships g report)
    (λ '(g', action),
       gateway_ok g' ∧
       ∀ group source, interested g' source group =
         if decide (group ∈ rec_group <$> rep_records report)
         then report_effect (rep_records report) group (λ s, interested g s group) source
         else false)
    (update_refused g (mkReport (rep_protocol report) (rep_records report ++ withdrawals g report))).
Proof.
  intros Hok Hwf. pose proof (withdrawals_wf g report Hok Hwf) as Hwf'.
  pose proof (λ group s, replace_effect g report group s Hok) as He.
  unfold replace_memberships. cbn [rep_records]. destruct (is_empty _) eqn:Hemp.
  - split; [done|]. apply is_empty_true in Hemp. intros group source.
    rewrite interested_wants. specialize (He group source). rewrite Hemp in He. exact He.
  - apply wp_bind. eapply wp_mono; [by apply membership_update_wp| |done]. intros [g1 a].
    intros (Hok' & _ & _ & _ & _ & Hst & _). split; [done|]. intros group source.
    rewrite interested_wants, Hst, wants_apply_report by apply Hok. unfold spec_report.
    rewrite decide_True by done. apply He.
Qed.

(** Failover is a round robin: as long as the candidate set is not replaced, the
    k-th restart of discovery tries the k-th relay of the list, so every candidate
    is tried once before any is tried again, and the list always holds exactly the
    candidates. *)
Theorem failover_round_robin g k g' :
  ring_ok g → gc_relay (gw_config g) ∈ gw_relay_candidates g → nsteps restart_step k g g' →
  (k < length (ring g))%nat →
  ring_ok g' ∧ ring g !! k = Some (gc_relay (gw_config g')) ∧
  (∀ relay, relay ∈ gw_relay_candidates g ↔ ∃ i, ring g !! i = Some relay).
Proof.
  intros Hok Hr Hs Hk. destruct (restarts_ring k g g' Hok Hr Hs) as (Hok' & Hr' & Hring).
  split_and!; try done.
  - rewrite iter_rot in Hring by lia. unfold ring at 1 in Hring. rewrite bool_decide_eq_true_2 in Hring by done.
    destruct (lookup_lt_is_Some_2 (ring g) k Hk) as [x Hx]. rewrite (drop_S _ _ _ Hx) in Hring. simpl in Hring.
    by simplify_eq.
  - intros relay. rewrite <- list_elem_of_lookup. destruct Hok as (_ & _ & ->). done.
Qed.

(** A candidate refresh keeps a healthy relay in place and keeps failover sound: the
    current relay, phase, endpoint, session and memberships do not change, and the
    relays still to be tried are exactly the new candidates, without repetition. *)
Theorem replace_candidates_sound g relays :
  ring_ok g →
  let g' := (replace_relay_candidates g relays).1 in
  ring_ok g' ∧ gc_relay (gw_config g') = gc_relay (gw_config g) ∧ gw_phase g' = gw_phase g ∧
  gw_relay_endpoint g' = gw_relay_endpoint g ∧ gw_session g' = gw_session g ∧
  gw_reception_state g' = gw_reception_state g.
Proof.
  intros Hok g'. split; [by apply replace_relay_candidates_ring|].
  unfold g', replace_relay_candidates. by destruct (_ || _).
Qed.

(** ** Concrete runs *)

Definition demo_relay_addr (n : Z) : SocketAddr := SocketAddrV4 (mkIpv4 203 0 113 n) AMT_PORT.

Definition demo_config : GatewayConfig :=
  with_fallback_relays (mkGatewayConfig (demo_relay_addr 1) [] Igmpv3 false 11 12)
    [demo_relay_addr 2; demo_relay_addr 1; demo_relay_addr 3; demo_relay_addr 2].

Definition demo_gw0 : Gateway :=
  mkGateway demo_config [demo_relay_addr 1; demo_relay_addr 2; demo_relay_addr 3] Discovering None None empty_state.

Lemma demo_gw0_new : new_gateway demo_config [] = Ok (demo_gw0, []).
Proof. by vm_compute. Qed.

Lemma demo_gw0_ok : gateway_ok demo_gw0.
Proof. by apply (new_gateway_ok demo_config [] demo_gw0 []); [constructor|done|done|apply demo_gw0_new]. Qed.

Lemma demo_gw0_ring : ring_ok demo_gw0.
Proof. eapply new_gateway_ring, demo_gw0_new. Qed.

(** The advertisement that answers its discovery. *)
Definition demo_advertisement : list Z := encode (RelayAdvertisement 11 (V4 (mkIpv4 203 0 113 1))).
Definition demo_gw1 : Gateway :=
  mkGateway demo_config (gw_relay_candidates demo_gw0) AwaitingMembershipQuery (Some (demo_relay_addr 1)) None empty_state.

(** The query that answers its request. *)
Definition demo_session_mac : ResponseMac := mkMac [1; 2; 3; 4; 5; 6].
Definition demo_query : list Z :=
  encode (MembershipQuery demo_session_mac 12 false None (general_query_packet Igmpv3 for_amt)).
Definition demo_gw2 : Gateway :=
  mkGateway demo_config (gw_relay_candidates demo_gw0) Established (Some (demo_relay_addr 1))
    (Some (mkSession demo_session_mac 12 None false)) empty_state.

Lemma demo_handshake :
  (gw_handle_datagram demo_gw0 (demo_relay_addr 1) demo_advertisement =
     Ok (demo_gw1, GSend (demo_relay_addr 1) (request_datagram demo_gw0))) ∧
  ∃ action, gw_handle_datagram demo_gw1 (demo_relay_addr 1) demo_query = Ok (demo_gw2, action).
Proof. split; [by vm_compute|]. eexists. vm_compute. reflexivity. Qed.


Lemma demo_advertisement_bytes : bytes demo_advertisement.
Proof. decide_ok. Qed.
Lemma demo_query_bytes : bytes demo_query.
Proof. decide_ok. Qed.

Lemma demo_step1 : gateway_step demo_gw0 demo_gw1.
Proof. eapply gstep_receive; [apply demo_advertisement_bytes|apply demo_handshake]. Qed.
Lemma demo_step2 : gateway_step demo_gw1 demo_gw2.
Proof. destruct demo_handshake as [_ [action H]]. eapply gstep_receive; [apply demo_query_bytes|exact H]. Qed.

Lemma demo_gw2_ok : gateway_ok demo_gw2.
Proof.
  apply (gateway_step_ok demo_gw1); [|apply demo_step2].
  apply (gateway_step_ok demo_gw0); [apply demo_gw0_ok|apply demo_step1].
Qed.

Lemma gateway_lifecycle_witness : gateway_ok demo_gw1 ∧ gateway_ok demo_gw2 ∧ phase_step (gw_phase demo_gw1) (gw_phase demo_gw2).
Proof.
  apply (gateway_lifecycle demo_config [] demo_gw0 []); [constructor|done|done|apply demo_gw0_new| |apply demo_step2].
  apply rtc_once, demo_step1.
Defined.

Lemma gateway_state_change_authentic_witness :
  demo_gw1 ≠ demo_gw0 ∧ demo_relay_addr 1 = expected_peer demo_gw0.
Proof.
  assert (demo_gw1 ≠ demo_gw0) as Hne by done. split; [done|].
  pose proof (gateway_state_change_authentic demo_gw0 (demo_relay_addr 1) demo_advertisement NotEct
    demo_gw0_ok demo_advertisement_bytes) as H.
  destruct demo_handshake as [Hd _]. unfold gw_handle_datagram in Hd. rewrite Hd in H. cbn in H.
  exact (proj1 (H Hne)).
Defined.

Definition demo_join_report : MembershipReport := demo_report AllowNewSources [demo_source 1].

Lemma demo_join_report_wf : report_wf demo_join_report.
Proof. decide_ok. Qed.

(** The gateway after joining (198.51.100.1, 232.1.1.1). *)
Definition demo_gw3 : Gateway :=
  match membership_update demo_gw2 demo_join_report with Ok (g, _) => g | _ => demo_gw2 end.

Lemma demo_gw3_ok : gateway_ok demo_gw3.
Proof.
  pose proof (membership_update_wp demo_gw2 demo_join_report demo_gw2_ok demo_join_report_wf) as H.
  unfold demo_gw3. destruct (membership_update demo_gw2 demo_join_report) as [[g a]|e| |]; [|apply demo_gw2_ok..].
  cbn in H. apply H.
Qed.

Lemma demo_delivery :
  handle_datagram_with_ecn demo_gw3 (demo_relay_addr 1) (encode (MulticastData demo_packet)) NotEct =
  Ok (demo_gw3, GMulticastData demo_packet None).
Proof. by vm_compute. Qed.

Lemma multicast_data_filtered_witness : demo_relay_addr 1 = expected_peer demo_gw3.
Proof.
  exact (proj1 (multicast_data_filtered demo_gw3 (demo_relay_addr 1) demo_packet NotEct
    (GMulticastData demo_packet None) demo_gw3_ok demo_packet_bytes demo_delivery)).
Defined.

Lemma membership_update_reports_witness :
  gateway_ok demo_gw2 ∧ returns (membership_update demo_gw2 demo_join_report).
Proof.
  split; [apply demo_gw2_ok|].
  exact (wp_returns _ _ _ (membership_update_reports demo_gw2 demo_join_report demo_gw2_ok demo_join_report_wf)).
Defined.

(** Replacing the membership by an empty list withdraws the group. *)
Definition demo_gw4 : Gateway :=
  match replace_memberships demo_gw3 (mkReport Igmpv3 []) with Ok (g, _) => g | _ => demo_gw3 end.

Lemma demo_replace : ∃ action, replace_memberships demo_gw3 (mkReport Igmpv3 []) = Ok (demo_gw4, action).
Proof. eexists. vm_compute. reflexivity. Qed.

Lemma replace_memberships_exact_witness :
  interested demo_gw3 (demo_source 1) demo_group = true ∧ interested demo_gw4 (demo_source 1) demo_group = false.
Proof.
  split; [by vm_compute|]. destruct demo_replace as [action H].
  pose proof (replace_memberships_exact demo_gw3 (mkReport Igmpv3 []) demo_gw3_ok ltac:(constructor)) as He.
  rewrite H in He. destruct He as [_ He].
  rewrite He. done.
Defined.

Lemma demo_restarts : ∃ g, nsteps restart_step 2 demo_gw0 g.
Proof.
  eexists. eapply nsteps_l; [exists [Some 0; Some 5; Some 6]; do 2 eexists; by vm_compute|].
  apply nsteps_once. exists [Some 7; Some 8]. do 2 eexists. by vm_compute.
Qed.

Lemma failover_round_robin_witness :
  ∃ g, nsteps restart_step 2 demo_gw0 g ∧ gc_relay (gw_config g) = demo_relay_addr 3.
Proof.
  destruct demo_restarts as [g Hg]. exists g. split; [done|].
  assert (gc_relay (gw_config demo_gw0) ∈ gw_relay_candidates demo_gw0) as Hin by decide_ok.
  assert (2 < length (ring demo_gw0))%nat as Hl by (vm_compute; lia).
  destruct (failover_round_robin demo_gw0 2 g demo_gw0_ring Hin Hg Hl) as (_ & H & _).
  assert (ring demo_gw0 !! 2%nat = Some (demo_relay_addr 3)) as H3 by by vm_compute.
  rewrite H3 in H. by simplify_eq.
Defined.

Lemma replace_candidates_sound_witness :
  ring_ok (replace_relay_candidates demo_gw0 [demo_relay_addr 4; demo_relay_addr 5]).1.
Proof. exact (proj1 (replace_candidates_sound demo_gw0 _ demo_gw0_ring)). Defined.
