(* ===== verification/Session.v ===== *)
(** A gateway and a relay together: the exchange of [src/gateway.rs] and
    [src/relay.rs] over the wire format of [src/protocol.rs], [src/query.rs] and
    [src/membership.rs].

    The two engines keep the gateway's memberships twice: the relay in the
    interests of the gateway's endpoint, the gateway in its reception filter.
    [in_sync] relates the two; the theorems show that the handshake completes,
    that reports keep the two in step, and that a teardown clears the relay. *)

From S2P Require Import Prelude Net Protocol Ip Query Membership State Relay Ecn Gateway.

Section session.
Variable hmac : list Z → list Z → list Z.
Hypothesis hmac_digest : ∀ key message, len (hmac key message) = 32 ∧ bytes (hmac key message).

(** The gateway's socket address as the relay sees it. *)
Variable gateway_addr : SocketAddr.
Hypothesis gateway_addr_wf : sock_wf gateway_addr.

Definition relay_handle := handle_datagram hmac.

(** The relay forwards to the gateway exactly what the gateway lets through. *)
Definition in_sync (r : Relay) (g : Gateway) : Prop :=
  ∀ group source, wants (relay_state r) gateway_addr group source = interested g source group.

(** The session's credentials are the relay's, under a secret it accepts. *)
Definition authentic_session (now : Z) (r : Relay) (s : GatewaySession) : Prop :=
  ∃ secret, accepted_secret now r secret ∧
    gs_response_mac s = response_mac_with_secret hmac secret (sock_ip gateway_addr)
                          (sock_port gateway_addr) (gs_request_nonce s).

Lemma authentic_session_valid now r s :
  session_wf s → authentic_session now r s →
  valid_response_mac hmac now r (gs_response_mac s) (sock_ip gateway_addr) (sock_port gateway_addr)
    (gs_request_nonce s) = true.
Proof. intros [Hm _] (secret & Ha & He). apply valid_response_mac_spec; eauto. Qed.

(** ** The relay's answers *)

Lemma relay_answers_discovery now fresh r n :
  relay_ok r → u32 n → n ≠ 0 →
  let r1 := rotate_secret_if_due now fresh r in
  relay_handle now fresh r gateway_addr (encode (RelayDiscovery n)) =
  (r1, Ok (Send (encode (RelayAdvertisement n (advertised_addr_for (relay_config r1) gateway_addr))))).
Proof.
  intros Hok Hn Hnz r1. unfold relay_handle, handle_datagram, prepare_datagram. rewrite decode_encode by done.
  cbn [map_err prepare_message]. by destruct (Z.eqb_spec n 0).
Qed.

Lemma relay_answers_request now fresh r n protocol ecn :
  relay_ok r → u32 n →
  let r1 := remember_gateway_ecn_capability now (rotate_secret_if_due now fresh r) gateway_addr ecn in
  relay_handle now fresh r gateway_addr (encode (Request n protocol ecn)) =
  (r1, Ok (Send (encode (MembershipQuery
    (response_mac hmac r1 (sock_ip gateway_addr) (sock_port gateway_addr) n) n
    (refusing_new_endpoint r1 (sock_ip gateway_addr))
    (if rc_include_gateway_address (relay_config r1) then Some (gateway_of gateway_addr) else None)
    (general_query_packet protocol (rc_general_query (relay_config r1))))))).
Proof.
  intros Hok Hn r1. unfold relay_handle, handle_datagram, prepare_datagram. rewrite decode_encode by done.
  cbn [map_err prepare_message]. fold r1. rewrite query_response_ok; [done|].
  apply remember_ecn_ok, rotate_secret_ok, Hok.
Qed.

(** ** The gateway's steps *)

Lemma gateway_takes_advertisement g address :
  gateway_ok g → gw_phase g = Discovering → ip_wf address →
  is_usable_unicast address = true → same_family address (sock_ip (gc_relay (gw_config g))) = true →
  let ep := sock_new address (sock_port (gc_relay (gw_config g))) in
  gw_handle_datagram g (gc_relay (gw_config g))
    (encode (RelayAdvertisement (gc_discovery_nonce (gw_config g)) address)) =
  Ok (mkGateway (gw_config g) (gw_relay_candidates g) AwaitingMembershipQuery (Some ep) (gw_session g)
        (gw_reception_state g), GSend ep (request_datagram g)).
Proof.
  intros Hok Hp Ha Hu Hf ep. unfold gw_handle_datagram, handle_datagram_with_ecn, expected_peer.
  rewrite (proj1 (gok_discovering g Hok) Hp). cbn [default from_option]. rewrite bool_decide_eq_true_2 by done. cbn [negb].
  rewrite decode_encode by (split; [apply Hok|done]). cbn [map_err mbind res_bind handle_message].
  unfold handle_advertisement. rewrite bool_decide_eq_true_2 by done. cbn [negb].
  by rewrite Z.eqb_refl, Hu, Hf.
Qed.

Lemma gateway_takes_query g ep mac limit gateway c :
  gateway_ok g → gw_phase g = AwaitingMembershipQuery → gw_relay_endpoint g = Some ep →
  gw_session g = None → mac_wf mac → gateway_wf gateway → query_config_wf c →
  query_source_ok (gc_protocol (gw_config g)) c = true →
  let n := gc_request_nonce (gw_config g) in
  let q := general_query_packet (gc_protocol (gw_config g)) c in
  gw_handle_datagram g ep (encode (MembershipQuery mac n limit gateway q)) =
  Ok (mkGateway (gw_config g) (gw_relay_candidates g) Established (Some ep)
        (Some (mkSession mac n gateway false)) (gw_reception_state g),
      GMembershipQuery mac limit gateway q (query_interval (query_interval_code c)) None).
Proof.
  intros Hok Hp Hep Hs Hm Hg Hc Hsrc n q. unfold gw_handle_datagram, handle_datagram_with_ecn, expected_peer.
  rewrite Hep. cbn [default from_option]. rewrite bool_decide_eq_true_2 by done. cbn [negb].
  rewrite decode_encode by (split_and!; [done|apply Hok|done|by apply bytes_general_query_packet]).
  cbn [map_err mbind res_bind handle_message]. unfold handle_query. rewrite Hep, Hp, Hs.
  cbn [ok_or mbind res_bind]. unfold n. rewrite Z.eqb_refl. cbn [negb].
  pose proof (validated_built (gc_protocol (gw_config g)) c [] Hc Hsrc) as Hv. rewrite app_nil_r in Hv.
  unfold q. by rewrite Hv.
Qed.

(** ** Handshake *)

Lemma discovery_exchange r g t fresh :
  relay_ok r → gateway_ok g → gw_phase g = Discovering →
  let address := advertised_addr_for (relay_config r) gateway_addr in
  let ep := sock_new address (sock_port (gc_relay (gw_config g))) in
  ip_wf address → is_usable_unicast address = true →
  same_family address (sock_ip (gc_relay (gw_config g))) = true →
  let g1 := mkGateway (gw_config g) (gw_relay_candidates g) AwaitingMembershipQuery (Some ep) (gw_session g)
              (gw_reception_state g) in
  ∃ d0 d1,
    discovery g = GSend (gc_relay (gw_config g)) d0 ∧
    relay_handle t fresh r gateway_addr d0 = (rotate_secret_if_due t fresh r, Ok (Send d1)) ∧
    gw_handle_datagram g (gc_relay (gw_config g)) d1 = Ok (g1, GSend ep (request_datagram g1)) ∧ gateway_ok g1.
Proof.
  intros Hr Hg Hp address ep Ha Hu Hf g1. destruct (rotate_secret_settings t fresh r) as [Hset _].
  pose proof (relay_answers_discovery t fresh r (gc_discovery_nonce (gw_config g)) Hr
    (proj1 (gok_discovery_nonce g Hg)) (proj2 (gok_discovery_nonce g Hg))) as H1. cbv zeta in H1.
  assert (advertised_addr_for (relay_config (rotate_secret_if_due t fresh r)) gateway_addr = address) as Haddr
    by (rewrite <- Hset; by destruct gateway_addr). rewrite Haddr in H1.
  do 2 eexists. split; [done|]. split; [exact H1|].
  split; [exact (gateway_takes_advertisement g address Hg Hp Ha Hu Hf)|].
  destruct Hg. split; simpl; try done; naive_solver.
Qed.

Lemma query_exchange r g t fresh ep :
  relay_ok r → gateway_ok g → gw_phase g = AwaitingMembershipQuery → gw_relay_endpoint g = Some ep →
  gw_session g = None →
  query_source_ok (gc_protocol (gw_config g)) (rc_general_query (relay_config r)) = true →
  ∃ r2 d g2 query,
    relay_handle t fresh r gateway_addr (request_datagram g) = (r2, Ok (Send d)) ∧
    gw_handle_datagram g ep d = Ok (g2, query) ∧
    is_established g2 = true ∧ gateway_ok g2 ∧ relay_ok r2 ∧
    relay_state r2 = relay_state r ∧ gw_reception_state g2 = gw_reception_state g ∧
    ∃ session, gw_session g2 = Some session ∧ authentic_session t r2 session.
Proof.
  intros Hr Hg Hp Hep Hs Hq. set (c := gw_config g) in *.
  pose proof (relay_answers_request t fresh r (gc_request_nonce c) (gc_protocol c) (gc_ecn c) Hr
    (proj1 (gok_request_nonce g Hg))) as H3. cbv zeta in H3.
  destruct (rotate_secret_settings t fresh r) as [Hset Hst].
  pose proof (remember_ecn_ok t _ gateway_addr (gc_ecn c) (rotate_secret_ok t fresh r Hr)) as Hr2.
  destruct (remember_ecn_fields t (rotate_secret_if_due t fresh r) gateway_addr (gc_ecn c)) as (Hc2 & Hs2 & _).
  set (r2 := remember_gateway_ecn_capability t _ gateway_addr _) in *.
  assert (rc_general_query (relay_config r2) = rc_general_query (relay_config r)) as Hgq
    by (rewrite Hc2, <- Hset; done).
  set (gateway := if rc_include_gateway_address (relay_config r2) then Some (gateway_of gateway_addr) else None) in *.
  assert (gateway_wf gateway) as Hgw.
  { unfold gateway. destruct (rc_include_gateway_address _); [|done]. destruct gateway_addr_wf.
    split; [done|by apply from_ip_addr_wf]. }
  pose proof (response_mac_wf hmac hmac_digest (rc_secret (relay_config r2)) (sock_ip gateway_addr)
    (sock_port gateway_addr) (gc_request_nonce c)) as Hm. rewrite <- Hgq in Hq.
  pose proof (gateway_takes_query g ep _ (refusing_new_endpoint r2 (sock_ip gateway_addr)) gateway _ Hg Hp Hep Hs Hm Hgw
    (proj2 (proj2 (proj2 Hr2))) Hq) as H4. cbv zeta in H4.
  do 4 eexists. split; [exact H3|]. split; [exact H4|]. split_and!; try done.
  - destruct Hg. split; simpl; try done. intros s [= <-]. split_and!; try done. exact (proj1 gok_request_nonce).
  - by rewrite Hs2, Hst.
  - eexists. split; [done|]. exists (rc_secret (relay_config r2)). split; [by left|done].
Qed.

(** C4: The handshake completes: started by a discovering gateway and a relay whose
    advertised address the gateway can use, the four datagrams (discovery,
    advertisement, request, query) are each accepted, the gateway ends up
    established with the relay's Response MAC for its address and nonce, and
    the relay's membership state has not changed. *)
Theorem handshake_completes r g t0 t1 fresh0 fresh1 :
  relay_ok r → gateway_ok g → gw_phase g = Discovering →
  let address := advertised_addr_for (relay_config r) gateway_addr in
  let ep := sock_new address (sock_port (gc_relay (gw_config g))) in
  ip_wf address → is_usable_unicast address = true →
  same_family address (sock_ip (gc_relay (gw_config g))) = true →
  query_source_ok (gc_protocol (gw_config g)) (rc_general_query (relay_config r)) = true →
  ∃ d0 r1 d1 g1 d2 r2 d3 g2 query,
    discovery g = GSend (gc_relay (gw_config g)) d0 ∧
    relay_handle t0 fresh0 r gateway_addr d0 = (r1, Ok (Send d1)) ∧
    gw_handle_datagram g (gc_relay (gw_config g)) d1 = Ok (g1, GSend ep d2) ∧
    relay_handle t1 fresh1 r1 gateway_addr d2 = (r2, Ok (Send d3)) ∧
    gw_handle_datagram g1 ep d3 = Ok (g2, query) ∧
    is_established g2 = true ∧ gateway_ok g2 ∧ relay_ok r2 ∧
    relay_state r2 = relay_state r ∧ gw_reception_state g2 = gw_reception_state g ∧
    ∃ session, gw_session g2 = Some session ∧ authentic_session t1 r2 session.
Proof.
  intros Hr Hg Hp address ep Ha Hu Hf Hq.
  destruct (discovery_exchange r g t0 fresh0 Hr Hg Hp Ha Hu Hf) as (d0 & d1 & H0 & H1 & H2 & Hg1).
  destruct (rotate_secret_settings t0 fresh0 r) as [Hset Hst].
  set (r1 := rotate_secret_if_due t0 fresh0 r) in *. set (g1 := mkGateway _ _ _ _ _ _) in *.
  assert (rc_general_query (relay_config r1) = rc_general_query (relay_config r)) as Hgq by (by rewrite <- Hset).
  destruct (query_exchange r1 g1 t1 fresh1 ep) as (r2 & d3 & g2 & query & H3 & H4 & He & Hg2 & Hr2 & Hs & Hrs & Hsess);
    [by apply rotate_secret_ok|done|done|done|exact (gok_session g Hg Hp)|by rewrite Hgq|].
  exists d0, r1, d1, g1, (request_datagram g1), r2, d3, g2, query. split_and!; try done. by rewrite Hs.
Qed.

(** ** Reports *)

(** C3: A report keeps gateway and relay in step: when an established gateway reports a
    change within the relay's limits, the datagram it sends is accepted, and
    afterwards the relay again forwards to the gateway exactly the (source,
    group) pairs the gateway lets through. *)
Theorem report_keeps_sync now fresh r g report ep session applied :
  relay_ok r → gateway_ok g → in_sync r g → report_wf report →
  gw_relay_endpoint g = Some ep → gw_session g = Some session →
  authentic_session now (rotate_secret_if_due now fresh r) session →
  is_Some (match build_membership_report report with Ok packet => Some packet | _ => None end) →
  Forall (λ record, is_amt_forwardable_group (rec_group record) = true) (rep_records report) →
  contains_endpoint (relay_state r) gateway_addr = true ∨
    refusing_new_endpoint (rotate_secret_if_due now fresh r) (sock_ip gateway_addr) = false →
  (apply_report_limited (relay_state r) gateway_addr report (rc_limits (relay_config r))).2 = Ok applied →
  ∃ g' d r' action,
    membership_update g report = Ok (g', GSend ep d) ∧
    relay_handle now fresh r gateway_addr d = (r', Ok action) ∧
    relay_ok r' ∧ gateway_ok g' ∧ in_sync r' g' ∧
    ∀ group source, gateway_addr ∈ endpoints_for_packet (relay_state r') source group ↔
      interested g' source group = true.
Proof.
  intros Hr Hg Hsync Hwf Hep Hs Hauth [packet Hpk] Hfwd Hknown Hlim.
  destruct (build_membership_report report) as [p|e| |] eqn:Hb; simplify_eq.
  pose proof (build_membership_report_wp report Hwf) as Hbw. rewrite Hb in Hbw. destruct Hbw as [Hbytes Hparse].
  pose proof (membership_update_wp g report Hg Hwf) as Hu.
  destruct (membership_update g report) as [[g' action]|e| |] eqn:Hmu; cbn [wp] in Hu; try done.
  2: { unfold membership_update in Hmu. rewrite Hep, Hs, Hb in Hmu. cbn in Hmu.
       by destruct (apply_report _ _ _). }
  destruct Hu as (Hg' & _ & _ & _ & _ & Hst' & ep' & s' & p' & Hep' & Hs' & Hb' & _ & ->).
  rewrite Hep in Hep'. rewrite Hs in Hs'. rewrite Hb in Hb'. injection Hep' as <-. injection Hs' as <-.
  injection Hb' as <-.
  pose proof (apply_report_limited_spec _ gateway_addr report (rc_limits (relay_config r)) (proj1 Hr)) as Hl.
  rewrite Hlim in Hl. destruct Hl as (_ & _ & _ & Hrec & Hsrc).
  specialize (Hparse (mkParseLimits (max_records_per_report (rc_limits (relay_config r)))
    (max_sources_per_group (rc_limits (relay_config r)))) [] Hrec Hsrc). rewrite app_nil_r in Hparse.
  pose proof (gok_session_wf g Hg _ Hs) as Hswf.
  pose proof (handle_update_authentic hmac now fresh r gateway_addr (gs_response_mac session)
    (gs_request_nonce session) packet report Hr (proj1 Hswf) (proj1 (proj2 Hswf)) Hbytes
    (authentic_session_valid _ _ _ Hswf Hauth) Hknown Hparse Hfwd) as Hh.
  pose proof (wants_apply_report (relay_state r) gateway_addr report gateway_addr) as Hw.
  destruct (rotate_secret_settings now fresh r) as [_ Hst].
  pose proof (apply_report_ok (relay_state r) gateway_addr report (proj1 Hr)) as Hok.
  assert (∃ r' action,
    relay_handle now fresh r gateway_addr (encode (MembershipUpdate (gs_response_mac session)
      (gs_request_nonce session) packet)) = (r', Ok action) ∧
    relay_state r' = (apply_report (relay_state r) gateway_addr report).1) as (r' & action & Hrel & Hst2).
  { unfold relay_handle. destruct (apply_report (relay_state r) gateway_addr report) as [st' n].
    rewrite Hh. cbn [fst]. case_bool_decide as Hsame; [subst; eauto|]. rewrite Hlim. eauto. }
  eexists g', _, r', action. split; [done|]. split; [exact Hrel|].
  assert (in_sync r' g') as Hsync'.
  { intros group source. rewrite Hst2, Hw by apply Hr. rewrite interested_wants, Hst', wants_apply_report by apply Hg.
    unfold spec_report. rewrite !decide_True by done. apply report_effect_ext. intros src. apply Hsync. }
  assert (bytes (encode (MembershipUpdate (gs_response_mac session) (gs_request_nonce session) packet))) as Henc.
  { unfold encode. cbn [encode_into app]. unfold put_u32. destruct Hswf as ([_ Hm] & Hn & _).
    change (header TMembershipUpdate) with 5. bytes_solve. }
  split_and!; try done.
  - by apply (handle_datagram_spec hmac _ _ _ _ _ _ _ Hr Henc Hrel).
  - intros group source. unfold endpoints_for_packet. rewrite elem_of_matching_endpoints by by rewrite Hst2.
    by rewrite Hsync'.
Qed.

(** ** Delivery *)

(** C5: What the relay forwards, the gateway delivers: when the two are in step and the
    relay's forwarding table selects the gateway for a packet, the multicast
    data message carrying it is accepted by the gateway and the packet handed
    over unchanged (ECN processing off). *)
Theorem forwarded_packet_delivered r g ep session packet parsed :
  relay_ok r → gateway_ok g → in_sync r g →
  gw_relay_endpoint g = Some ep → gw_session g = Some session → gc_ecn (gw_config g) = false →
  bytes packet → parse_multicast_packet packet = Ok parsed →
  gateway_addr ∈ endpoints_for_packet (relay_state r) (mp_source parsed) (mp_group parsed) →
  gw_handle_datagram g ep (encode (MulticastData packet)) = Ok (g, GMulticastData packet None).
Proof.
  intros Hr Hg Hsync Hep Hs Hecn Hb Hparse Hin. unfold endpoints_for_packet in Hin.
  rewrite elem_of_matching_endpoints in Hin by apply Hr. rewrite Hsync in Hin.
  unfold gw_handle_datagram, handle_datagram_with_ecn, expected_peer. rewrite Hep. cbn [default from_option].
  rewrite bool_decide_eq_true_2 by done. cbn [negb]. rewrite decode_encode by done.
  cbn [map_err mbind res_bind handle_message]. unfold handle_multicast_data. rewrite Hep, Hs, Hecn.
  rewrite !bool_decide_eq_false_2 by done. by rewrite Hparse; cbn [map_err mbind res_bind]; rewrite Hin.
Qed.

(** ** Teardown *)

(** A gateway's own teardown clears the relay: if the relay named the gateway's
    endpoint in its query and the endpoint is identifiable by address and port,
    the teardown the gateway sends, from whatever socket, removes all its state
    at the relay. *)
Theorem teardown_clears_relay now fresh r g ep session sender :
  relay_ok r → gateway_ok g → gw_relay_endpoint g = Some ep → gw_session g = Some session →
  gs_gateway_endpoint session = Some (gateway_of gateway_addr) → identifiable gateway_addr →
  authentic_session now (rotate_secret_if_due now fresh r) session →
  ∃ d r', teardown g = Ok (GSend ep d) ∧
    relay_handle now fresh r sender d =
      (r', Ok (AcceptedTeardown (gateway_of gateway_addr) (contains_endpoint (relay_state r) gateway_addr))) ∧
    contains_endpoint (relay_state r') gateway_addr = false ∧
    ∀ group source, gateway_addr ∉ endpoints_for_packet (relay_state r') source group.
Proof.
  intros Hr Hg Hep Hs Hge Hid Hauth. pose proof (gok_session_wf g Hg _ Hs) as Hswf.
  exists (encode (Teardown (gs_response_mac session) (gs_request_nonce session) (gateway_of gateway_addr))).
  unfold teardown. rewrite Hep, Hs. cbn [ok_or mbind res_bind]. rewrite Hge. cbn [ok_or mbind res_bind].
  pose proof Hswf as (Hm & Hn & Hgw). rewrite Hge in Hgw. unfold relay_handle.
  rewrite handle_teardown by done. rewrite (teardown_endpoint_gateway_of gateway_addr Hid).
  assert (teardown_ip (gateway_of gateway_addr) = sock_ip gateway_addr) as ->.
  { rewrite <- (teardown_endpoint_gateway_of gateway_addr Hid) at 2. unfold teardown_endpoint. by rewrite sock_ip_new. }
  change (ge_port (gateway_of gateway_addr)) with (sock_port gateway_addr).
  rewrite (authentic_session_valid _ _ _ Hswf Hauth). eexists. split; [done|]. split; [done|].
  cbn [relay_state set_state]. split.
  - unfold contains_endpoint. by rewrite endpoints_remove_endpoint, lookup_delete_eq.
  - intros group source. unfold endpoints_for_packet.
    rewrite elem_of_matching_endpoints by (apply remove_endpoint_ok, Hr).
    rewrite wants_remove_endpoint. unfold spec_remove. by rewrite decide_True.
Qed.
End session.

(** * A concrete session

    [demo_relay] advertises 127.0.0.1 by default, which a gateway may use. *)

Definition demo_client : SocketAddr := demo_gateway 1.

Definition loopback_config : GatewayConfig :=
  mkGatewayConfig (SocketAddrV4 Ipv4_LOCALHOST AMT_PORT) [] Igmpv3 false 11 12.
Definition loopback_gateway : Gateway :=
  mkGateway loopback_config [SocketAddrV4 Ipv4_LOCALHOST AMT_PORT] Discovering None None empty_state.

Lemma loopback_gateway_ok : gateway_ok loopback_gateway.
Proof.
  apply (new_gateway_ok loopback_config [] loopback_gateway []); [constructor|done|done|by vm_compute].
Qed.

Lemma handshake_completes_witness :
  ∃ d0 r1 d1 g1 d2 r2 d3 g2 query,
    discovery loopback_gateway = GSend (SocketAddrV4 Ipv4_LOCALHOST AMT_PORT) d0 ∧
    relay_handle toy_hmac 1 None demo_relay demo_client d0 = (r1, Ok (Send d1)) ∧
    gw_handle_datagram loopback_gateway (SocketAddrV4 Ipv4_LOCALHOST AMT_PORT) d1 =
      Ok (g1, GSend (SocketAddrV4 Ipv4_LOCALHOST AMT_PORT) d2) ∧
    relay_handle toy_hmac 2 None r1 demo_client d2 = (r2, Ok (Send d3)) ∧
    gw_handle_datagram g1 (SocketAddrV4 Ipv4_LOCALHOST AMT_PORT) d3 = Ok (g2, query) ∧
    is_established g2 = true.
Proof.
  destruct (handshake_completes toy_hmac toy_hmac_digest demo_client demo_peer_wf demo_relay loopback_gateway
    1 2 None None demo_relay_ok loopback_gateway_ok eq_refl) as (d0 & r1 & d1 & g1 & d2 & r2 & d3 & g2 & query & H).
  - decide_ok.
  - done.
  - done.
  - done.
  - exists d0, r1, d1, g1, d2, r2, d3, g2, query. destruct H as (? & ? & ? & ? & ? & ? & _). by split_and!.
Defined.

(** The gateway once established with [demo_relay]. *)
Definition established_session : GatewaySession :=
  mkSession (demo_mac demo_relay) 7 (Some (gateway_of demo_client)) false.
Definition established_gateway : Gateway :=
  mkGateway loopback_config [SocketAddrV4 Ipv4_LOCALHOST AMT_PORT] Established
    (Some (SocketAddrV4 Ipv4_LOCALHOST AMT_PORT)) (Some established_session) empty_state.

Lemma established_session_wf : session_wf established_session.
Proof. split_and!; [apply demo_mac_wf|done|]. decide_ok. Qed.

Lemma established_gateway_ok : gateway_ok established_gateway.
Proof.
  split; simpl; try done; [|by intros e group [i Hi]].
  intros s [= <-]. apply established_session_wf.
Qed.

Lemma established_authentic now :
  0 <= now < 7200 * NANOS_PER_SEC →
  authentic_session toy_hmac demo_client now (rotate_secret_if_due now None demo_relay) established_session.
Proof.
  intros Hnow. exists (rc_secret (relay_config demo_relay)). split; [|done]. left.
  unfold rotate_secret_if_due. simpl. unfold elapsed. by destruct (_ <? _).
Qed.

Lemma established_in_sync : in_sync demo_client demo_relay established_gateway.
Proof. done. Qed.

(** The state after the join of [demo_join_report]. *)
Definition joined_gateway : Gateway :=
  match membership_update established_gateway demo_join_report with Ok (g, _) => g | _ => established_gateway end.

Lemma demo_join_within :
  (apply_report_limited (relay_state demo_relay) demo_client demo_join_report
     (rc_limits (relay_config demo_relay))).2 = Ok 1.
Proof. by vm_compute. Qed.

Lemma demo_join_builds :
  is_Some (match build_membership_report demo_join_report with Ok packet => Some packet | _ => None end).
Proof. eexists. vm_compute. reflexivity. Qed.

Lemma report_keeps_sync_witness :
  ∃ g' d r' action,
    membership_update established_gateway demo_join_report = Ok (g', GSend (SocketAddrV4 Ipv4_LOCALHOST AMT_PORT) d) ∧
    relay_handle toy_hmac 5 None demo_relay demo_client d = (r', Ok action) ∧
    in_sync demo_client r' g'.
Proof.
  destruct (report_keeps_sync toy_hmac toy_hmac_digest demo_client 5 None demo_relay established_gateway
    demo_join_report (SocketAddrV4 Ipv4_LOCALHOST AMT_PORT) established_session 1 demo_relay_ok
    established_gateway_ok established_in_sync demo_join_report_wf eq_refl eq_refl
    (established_authentic 5 ltac:(done)) demo_join_builds demo_join_forwardable (or_intror demo_join_not_refused)
    demo_join_within) as (g' & d & r' & action & H1 & H2 & _ & _ & H3 & _).
  exists g', d, r', action. split_and!; [exact H1|exact H2|exact H3].
Defined.

Lemma joined_gateway_ok : gateway_ok joined_gateway.
Proof.
  pose proof (membership_update_wp established_gateway demo_join_report established_gateway_ok demo_join_report_wf) as H.
  unfold joined_gateway.
  destruct (membership_update established_gateway demo_join_report) as [[g a]|e| |]; [|apply established_gateway_ok..].
  cbn [wp] in H. apply H.
Qed.

Lemma joined_in_sync : in_sync demo_client joined_relay joined_gateway.
Proof.
  intros group source.
  assert (relay_state joined_relay = (apply_report empty_state demo_client demo_join_report).1) as ->
    by decide_ok.
  assert (gw_reception_state joined_gateway = (apply_report empty_state RECEPTION_STATE_ENDPOINT demo_join_report).1)
    as Hg by decide_ok.
  rewrite interested_wants, Hg, !wants_apply_report by apply empty_state_ok.
  unfold spec_report. by rewrite !decide_True by done.
Qed.

Lemma demo_packet_parses : ∃ parsed, parse_multicast_packet demo_packet = Ok parsed ∧
  mp_source parsed = demo_source 1 ∧ mp_group parsed = demo_group.
Proof. eexists. split_and!; [vm_compute; reflexivity|done|done]. Qed.

Lemma forwarded_packet_delivered_witness :
  gw_handle_datagram joined_gateway (SocketAddrV4 Ipv4_LOCALHOST AMT_PORT) (encode (MulticastData demo_packet)) =
  Ok (joined_gateway, GMulticastData demo_packet None).
Proof.
  destruct demo_packet_parses as (parsed & Hp & Hs & Hg).
  assert (∃ s, gw_session joined_gateway = Some s) as [s Hses] by (eexists; vm_compute; reflexivity).
  refine (forwarded_packet_delivered demo_client joined_relay joined_gateway _ s demo_packet parsed joined_relay_ok
    joined_gateway_ok joined_in_sync _ Hses _ demo_packet_bytes Hp _); [by vm_compute|by vm_compute|].
  rewrite Hs, Hg. decide_ok.
Defined.

Lemma teardown_clears_relay_witness :
  ∃ d r', teardown established_gateway = Ok (GSend (SocketAddrV4 Ipv4_LOCALHOST AMT_PORT) d) ∧
    relay_handle toy_hmac 6 None demo_relay demo_client d =
      (r', Ok (AcceptedTeardown (gateway_of demo_client) (contains_endpoint (relay_state demo_relay) demo_client))).
Proof.
  destruct (teardown_clears_relay toy_hmac toy_hmac_digest demo_client 6 None demo_relay established_gateway
    (SocketAddrV4 Ipv4_LOCALHOST AMT_PORT) established_session demo_client demo_relay_ok established_gateway_ok
    eq_refl eq_refl eq_refl I (established_authentic 6 ltac:(done))) as (d & r' & H1 & H2 & _).
  exists d, r'. split; [exact H1|exact H2].
Defined.
