(* ===== verification/Mtu.v ===== *)
(** [src/mtu.rs]: fragmentation of IPv4 packets to the tunnel MTU. *)

From S2P Require Import Prelude Net Checksum Ip.

Definition IPV4_HEADER_LEN : Z := 20.
Definition IPV4_DF : Z := 0x4000.
Definition IPV4_MF : Z := 0x2000.
Definition IPV4_RESERVED : Z := 0x8000.
Definition IPV4_OFFSET_MASK : Z := 0x1fff.

Inductive Ipv4FragmentError :=
| FInvalidPacket
| FDontFragment
| FHeaderOptions
| FMtuTooSmall
| FFragmentOffsetOverflow.

#[export] Instance Ipv4FragmentError_eq_dec : EqDecision Ipv4FragmentError.
Proof. solve_decision. Defined.

(** [o.filter(p)]. *)
Definition option_filter {A} (p : A → bool) (o : option A) : option A :=
  match o with Some a => if p a then Some a else None | None => None end.

(** [a.checked_sub(b)] on [usize]. *)
Definition checked_sub (a b : Z) : option Z := if b <=? a then Some (a - b) else None.

(** The body of the loop: the fragment for [payload[chunk_start..chunk_end]]. *)
Definition build_fragment (packet payload : list Z) (header_len max_payload base_offset reserved : Z)
    (preserve_more_fragments : bool) (chunk_start : Z) : res Ipv4FragmentError (list Z) :=
  let chunk_end := Z.min (chunk_start + max_payload) (len payload) in
  chunk ← slice payload chunk_start chunk_end;
  offset ← ok_or FFragmentOffsetOverflow
    (option_filter (λ offset, offset <=? IPV4_OFFSET_MASK) (checked_add base_offset (chunk_start / 8)));
  let more_fragments := preserve_more_fragments || (chunk_end <? len payload) in
  let fragment_len := header_len + len chunk in
  hdr ← slice_to packet header_len;
  let fragment := hdr ++ chunk in
  fragment ← copy_at fragment 2 4 (u16_to_be (as_u16 fragment_len));
  let flags_offset := Z.lor (Z.lor reserved (u8_of_bool more_fragments * IPV4_MF)) (as_u16 offset) in
  fragment ← copy_at fragment 6 8 (u16_to_be flags_offset);
  fragment ← copy_at fragment 10 12 [0; 0];
  hdr ← slice_to fragment header_len;
  copy_at fragment 10 12 (u16_to_be (checksum hdr)).

(** [for chunk_start in (0..payload.len()).step_by(max_payload)]; the fuel bounds
    the number of iterations. *)
Fixpoint fragment_loop (fuel : nat) (build : Z → res Ipv4FragmentError (list Z)) (payload_len max_payload : Z)
    (chunk_start : Z) : res Ipv4FragmentError (list (list Z)) :=
  if payload_len <=? chunk_start then Ok []
  else
    match fuel with
    | O => Diverge
    | S fuel =>
        fragment ← build chunk_start;
        fragments ← fragment_loop fuel build payload_len max_payload (chunk_start + max_payload);
        Ok (fragment :: fragments)
    end.

(** The part of [fragment_ipv4_for_tunnel] reached by a packet without options
    that exceeds the MTU. *)
Definition fragment_oversized (packet : list Z) (header_len tunnel_mtu : Z) : res Ipv4FragmentError (list (list Z)) :=
  p6 ← idx packet 6;
  p7 ← idx packet 7;
  let fragment_field := u16_from_be p6 p7 in
  if negb (Z.land fragment_field IPV4_DF =? 0) then Err FDontFragment
  else
    max_payload ← ok_or FMtuTooSmall
      (option_filter (λ size, 8 <=? size)
         ((λ size, size / 8 * 8) <$> checked_sub tunnel_mtu header_len));
    payload ← slice_from packet header_len;
    if (len payload =? 0)
       || (negb (Z.land fragment_field IPV4_MF =? 0) && negb (len payload mod 8 =? 0))
    then Err FInvalidPacket
    else
      let base_offset := Z.land fragment_field IPV4_OFFSET_MASK in
      _ ← ok_or FFragmentOffsetOverflow
        (option_filter (λ end_, end_ <=? U16_MAX - header_len)
           (offset ← checked_mul base_offset 8; checked_add offset (len payload)));
      let preserve_more_fragments := negb (Z.land fragment_field IPV4_MF =? 0) in
      let reserved := Z.land fragment_field IPV4_RESERVED in
      fragment_loop (length payload)
        (build_fragment packet payload header_len max_payload base_offset reserved
           preserve_more_fragments)
        (len payload) max_payload 0.

Definition fragment_ipv4_for_tunnel (packet : list Z) (tunnel_mtu : Z) :
    res Ipv4FragmentError (list (list Z)) :=
  if len packet <? IPV4_HEADER_LEN then Err FInvalidPacket
  else
    p0 ← idx packet 0;
    if negb (Z.shiftr p0 4 =? 4) then Err FInvalidPacket
    else
      let header_len := Z.land p0 0x0f * 4 in
      if (header_len <? IPV4_HEADER_LEN) || (len packet <? header_len) then Err FInvalidPacket
      else
        p2 ← idx packet 2;
        p3 ← idx packet 3;
        let total_len := u16_from_be p2 p3 in
        if negb (total_len =? len packet) || (total_len <? header_len) then Err FInvalidPacket
        else if total_len <=? tunnel_mtu then Ok [packet]
        else if negb (header_len =? IPV4_HEADER_LEN) then Err FHeaderOptions
        else fragment_oversized packet header_len tunnel_mtu.

(** * Specification *)

(** The fragment-offset field (in units of eight bytes) and the MF flag. *)
Definition flags_field (f : list Z) : Z :=
  match f with _ :: _ :: _ :: _ :: _ :: _ :: hi :: lo :: _ => u16_from_be hi lo | _ => 0 end.
Definition frag_offset (f : list Z) : Z := Z.land (flags_field f) IPV4_OFFSET_MASK.
Definition frag_more (f : list Z) : bool := negb (Z.land (flags_field f) IPV4_MF =? 0).

(** [f] is a fragment of [packet]: the same header but for total length,
    fragment field and checksum, all three correct, followed by [chunk]. *)
Record fragment_of (packet f chunk : list Z) (offset : Z) (more : bool) : Prop := {
  fo_payload : drop 20 f = chunk;
  fo_length : sub f 2 4 = u16_to_be (len f) ∧ len f = 20 + len chunk;
  fo_offset : frag_offset f = offset;
  fo_more : frag_more f = more;
  fo_same : ∀ i, (i < 20)%nat → i ∉ [2; 3; 6; 7; 10; 11]%nat → f !! i = packet !! i;
  fo_checksum : ones_complement_sum (take 20 f) = 65535;
  fo_bytes : bytes f
}.

(** [fragments packet mtu mf offset payload fs]: [fs] carries [payload] in order
    from [offset] on, each fragment within the MTU, full eight-byte units except in
    the last, which has MF exactly when the packet had it. *)
Inductive fragments (packet : list Z) (mtu : Z) (mf : bool) : Z → list Z → list (list Z) → Prop :=
| fragments_nil offset : fragments packet mtu mf offset [] []
| fragments_cons offset chunk rest f fs :
    chunk ≠ [] → len f <= mtu → (rest ≠ [] → len chunk mod 8 = 0) →
    fragment_of packet f chunk offset (mf || negb (bool_decide (rest = []))) →
    fragments packet mtu mf (offset + len chunk / 8) rest fs →
    fragments packet mtu mf offset (chunk ++ rest) (f :: fs).

Lemma fragments_reassemble packet mtu mf offset payload fs :
  fragments packet mtu mf offset payload fs → concat (drop 20 <$> fs) = payload.
Proof.
  induction 1 as [|offset chunk rest f fs _ _ _ Hf _ IH]; [done|].
  rewrite fmap_cons. cbn [concat]. by rewrite IH, (fo_payload _ _ _ _ _ Hf).
Qed.

Lemma fragments_within packet mtu mf offset payload fs :
  fragments packet mtu mf offset payload fs → Forall (λ f, len f <= mtu ∧ bytes f ∧ ones_complement_sum (take 20 f) = 65535) fs.
Proof. induction 1 as [|offset chunk rest f fs _ ? _ Hf _ IH]; constructor; [|done]. by destruct Hf. Qed.

(** ** The fragment field *)

Lemma lor_u16 a b : u16 a → u16 b → u16 (Z.lor a b).
Proof.
  unfold u16. intros Ha Hb. split; [apply Z.lor_nonneg; lia|].
  destruct (Z.eq_dec (Z.lor a b) 0) as [->|Hn]; [lia|].
  change 65536 with (2 ^ 16). apply Z.log2_lt_pow2; [pose proof (proj2 (Z.lor_nonneg a b)); lia|].
  rewrite Z.log2_lor by lia. assert (∀ x, 0 <= x < 65536 → Z.log2 x < 16) as Hl.
  { intros x Hx. destruct (Z.eq_dec x 0) as [->|]; [done|]. apply Z.log2_lt_pow2; lia. }
  pose proof (Hl a Ha). pose proof (Hl b Hb). lia.
Qed.

Lemma land_pow2 x n : 0 <= n → Z.land x (2 ^ n) = 0 ∨ Z.land x (2 ^ n) = 2 ^ n.
Proof.
  intros Hn. destruct (Z.testbit x n) eqn:Hb; [right|left]; apply Z.bits_inj'; intros i Hi;
    rewrite Z.land_spec, ?Z.bits_0, Z.pow2_bits_eqb by done; destruct (Z.eqb_spec n i) as [->|];
    by rewrite ?Hb, ?andb_false_r, ?andb_true_r.
Qed.

(** What [flags_offset] encodes. *)
Lemma flags_offset_spec reserved more offset :
  reserved = 0 ∨ reserved = IPV4_RESERVED → 0 <= offset <= IPV4_OFFSET_MASK →
  let flags := Z.lor (Z.lor reserved (u8_of_bool more * IPV4_MF)) offset in
  u16 flags ∧ Z.land flags IPV4_OFFSET_MASK = offset ∧ negb (Z.land flags IPV4_MF =? 0) = more.
Proof.
  intros Hr Ho flags. assert (u16 offset) as Ho16 by (unfold u16, IPV4_OFFSET_MASK in *; lia).
  assert (Z.land offset IPV4_OFFSET_MASK = offset) as Hm.
  { unfold IPV4_OFFSET_MASK in *. change 0x1fff with (Z.ones 13). rewrite Z.land_ones by lia. apply Z.mod_small. lia. }
  assert (Z.land offset IPV4_MF = 0) as Hmf.
  { rewrite <- Hm, <- Z.land_assoc. change (Z.land IPV4_OFFSET_MASK IPV4_MF) with 0. apply Z.land_0_r. }
  unfold flags. split_and!.
  - apply lor_u16; [|done]. destruct Hr as [-> | ->], more; done.
  - rewrite !Z.land_lor_distr_l, Hm. destruct Hr as [-> | ->], more; done.
  - rewrite !Z.land_lor_distr_l, Hmf. destruct Hr as [-> | ->], more; done.
Qed.

(** ** One fragment *)

Lemma build_fragment_spec packet payload header mp base reserved mf start :
  packet = header ++ payload → len header = 20 → bytes packet → len packet <= U16_MAX →
  0 <= start < len payload → 8 <= mp → start mod 8 = 0 →
  reserved = 0 ∨ reserved = IPV4_RESERVED → 0 <= base → base + start / 8 <= IPV4_OFFSET_MASK →
  let stop := Z.min (start + mp) (len payload) in
  ∃ f, build_fragment packet payload 20 mp base reserved mf start = Ok f ∧
    fragment_of packet f (sub payload start stop) (base + start / 8) (mf || (stop <? len payload)).
Proof.
  intros -> Hh Hb Hlen Hs Hmp Hmod Hr Hbase Hoff stop. unfold build_fragment. fold stop.
  rewrite slice_ok by (unfold stop; lia). cbn [mbind res_bind]. set (chunk := sub payload start stop).
  assert (len chunk = stop - start) as Hc by (apply len_sub; unfold stop; lia).
  assert (0 <= start / 8) as Hs8 by (apply Z.div_pos; lia).
  unfold checked_add. rewrite (proj2 (Z.leb_le _ _)) by (unfold USIZE_MAX, IPV4_OFFSET_MASK in *; lia).
  cbn [option_filter]. rewrite (proj2 (Z.leb_le _ _)) by done. cbn [ok_or mbind res_bind].
  rewrite slice_to_ok by len_lia. cbn [mbind res_bind].
  change (Z.to_nat 20) with 20%nat. rewrite take_app_length' by (unfold len in Hh; lia).
  set (more := mf || (stop <? len payload)). set (offset := base + start / 8) in *.
  assert (as_u16 offset = offset) as -> by (unfold as_u16, IPV4_OFFSET_MASK in *; apply Z.mod_small; lia).
  destruct (flags_offset_spec reserved more offset Hr ltac:(lia)) as (Hf16 & Hfo & Hfm).
  set (flags := Z.lor (Z.lor _ _) offset) in *.
  assert (len (header ++ payload) = 20 + len payload) as Hpl by len_lia. rewrite Hpl in Hlen.
  assert (as_u16 (20 + len chunk) = 20 + len chunk) as ->
    by (unfold as_u16; apply Z.mod_small; unfold U16_MAX, stop in *; lia).
  apply bytes_app in Hb as [Hbh Hbp].
  assert (bytes chunk) as Hbc by by apply bytes_sub.
  assert (u16 (20 + len chunk)) as Hl16 by (unfold u16, U16_MAX, stop in *; lia).
  unfold len in Hh. do 20 (destruct header as [|? header]; [simpl in Hh; lia|]).
  destruct header; [|simpl in Hh; lia]. clear Hh.
  repeat (apply bytes_cons in Hbh as [? Hbh]).
  match goal with |- context [copy_at (?l ++ chunk) 2 4 _] => set (hdr := l) end.
  change (hdr ++ chunk) with ([z; z0] ++ [z1; z2] ++ drop 4 hdr ++ chunk). rewrite copy_at_app by done. cbn [mbind res_bind].
  set (tl := u16_to_be (20 + len chunk)).
  change ([z; z0] ++ tl ++ drop 4 hdr ++ chunk) with (([z; z0] ++ tl ++ [z3; z4]) ++ [z5; z6] ++ drop 8 hdr ++ chunk).
  rewrite copy_at_app by done. cbn [mbind res_bind].
  set (fo := u16_to_be flags).
  change (([z; z0] ++ tl ++ [z3; z4]) ++ fo ++ drop 8 hdr ++ chunk) with
    (([z; z0] ++ tl ++ [z3; z4] ++ fo ++ [z7; z8]) ++ [z9; z10] ++ drop 12 hdr ++ chunk).
  rewrite copy_at_app by done. cbn [mbind res_bind].
  set (pre := [z; z0] ++ tl ++ [z3; z4] ++ fo ++ [z7; z8]). set (post := drop 12 hdr).
  rewrite slice_to_ok by (unfold pre, post, hdr, tl, fo; len_lia). cbn [mbind res_bind].
  change (take (Z.to_nat 20) (pre ++ [0; 0] ++ post ++ chunk)) with (pre ++ [0; 0] ++ post).
  set (ck := u16_to_be (checksum (pre ++ [0; 0] ++ post))). rewrite copy_at_app by done.
  eexists. split; [done|].
  assert (bytes pre) as Hbpre by (unfold pre, tl, fo; bytes_solve).
  assert (bytes post) as Hbpost by (unfold post, hdr; simpl; bytes_solve).
  assert (bytes ck) as Hbck by (unfold ck; apply bytes_u16_to_be, checksum_u16; bytes_solve).
  assert (len (pre ++ ck ++ post ++ chunk) = 20 + len chunk) as Hlf by (unfold pre, ck, post, hdr, tl, fo; len_lia).
  assert (flags_field (pre ++ ck ++ post ++ chunk) = flags) as Hff
    by (unfold flags_field; simpl; by apply u16_from_be_to_be).
  split.
  - done.
  - split; [|done]. rewrite Hlf. done.
  - unfold frag_offset. by rewrite Hff.
  - unfold frag_more. by rewrite Hff.
  - intros i Hi Hni. do 20 (destruct i as [|i]; [first [done|exfalso; apply Hni; set_solver]|]). lia.
  - change (take 20 (pre ++ ck ++ post ++ chunk)) with (pre ++ ck ++ post). by apply checksum_verifies.
  - bytes_solve.
Qed.

(** ** The loop *)

Lemma fragment_loop_spec packet payload header mp base reserved mf mtu :
  packet = header ++ payload → len header = 20 → bytes packet → len packet <= U16_MAX →
  8 <= mp → mp mod 8 = 0 → 20 + mp <= mtu → reserved = 0 ∨ reserved = IPV4_RESERVED →
  0 <= base → base * 8 + len payload <= U16_MAX - 20 →
  ∀ fuel start, 0 <= start → start mod 8 = 0 → len payload - start <= Z.of_nat fuel →
  ∃ fs, fragment_loop fuel (build_fragment packet payload 20 mp base reserved mf) (len payload) mp start = Ok fs ∧
    fragments packet mtu mf (base + start / 8) (drop (Z.to_nat start) payload) fs.
Proof.
  intros Hpk Hh Hb Hl Hmp Hmod Hmtu Hr Hbase Hend fuel.
  induction fuel as [|fuel IH]; intros start Hs Hs8 Hfuel; cbn [fragment_loop];
    destruct (Z.leb_spec (len payload) start) as [Hge|Hlt]; try (exfalso; lia).
  1,2: exists []; split; [done|]; rewrite drop_ge by (unfold len in *; lia); constructor.
  assert (base + start / 8 <= IPV4_OFFSET_MASK) as Hoff
    by (unfold IPV4_OFFSET_MASK, U16_MAX in *; pose proof (Z.div_mod start 8); lia).
  destruct (build_fragment_spec packet payload header mp base reserved mf start) as (f & Hbf & Hf); try done; try lia.
  rewrite Hbf. cbn [mbind res_bind]. set (stop := Z.min (start + mp) (len payload)) in *.
  destruct (IH (start + mp)) as (fs & Hfs & Hfrag); [lia| |lia|].
  { rewrite Z.add_mod, Hs8, Hmod by lia. done. }
  rewrite Hfs. cbn [mbind res_bind]. exists (f :: fs). split; [done|].
  assert (len (sub payload start stop) = stop - start) as Hlc by (apply len_sub; unfold stop; lia).
  assert (sub payload start stop ++ drop (Z.to_nat (start + mp)) payload = drop (Z.to_nat start) payload) as <-.
  { unfold sub. destruct (Z.le_gt_cases (start + mp) (len payload)) as [Hle|Hgt].
    - replace stop with (start + mp) by (unfold stop; lia).
      rewrite <- (take_drop (Z.to_nat (start + mp)) payload) at 3.
      rewrite drop_app_le by (rewrite length_take; unfold len in *; lia). done.
    - rewrite (drop_ge payload (Z.to_nat (start + mp))), app_nil_r by (unfold len in *; lia).
      assert (stop = len payload) as -> by (unfold stop; lia).
      rewrite take_ge by (unfold len; lia). done. }
  assert (bool_decide (drop (Z.to_nat (start + mp)) payload = []) = negb (stop <? len payload)) as Hrest.
  { destruct (Z.ltb_spec stop (len payload)); [apply bool_decide_eq_false_2|apply bool_decide_eq_true_2].
    - intros He%(f_equal len). rewrite len_drop in He. change (len []) with 0 in He. unfold stop in *. lia.
    - apply drop_ge. unfold len, stop in *. lia. }
  constructor.
  - intros He%(f_equal len). rewrite Hlc in He. change (len []) with 0 in He. unfold stop in *. lia.
  - rewrite (proj2 (fo_length _ _ _ _ _ Hf)), Hlc. unfold stop. lia.
  - intros Hne. rewrite Hlc. destruct (Z.ltb_spec stop (len payload)).
    + replace (stop - start) with mp; [done|]. unfold stop in *. lia.
    + apply bool_decide_eq_true in Hrest. done.
  - by rewrite Hrest, negb_involutive.
  - rewrite Hlc. destruct (Z.le_gt_cases (start + mp) (len payload)) as [Hle|Hgt].
    + replace (stop - start) with mp by (unfold stop; lia).
      replace (base + start / 8 + mp / 8) with (base + (start + mp) / 8); [done|].
      pose proof (Z.div_mod start 8). pose proof (Z.div_mod mp 8). pose proof (Z.div_mod (start + mp) 8).
      assert ((start + mp) mod 8 = 0) by (rewrite Z.add_mod, Hs8, Hmod by lia; done). lia.
    + rewrite drop_ge in * by (unfold len in *; lia). inversion Hfrag; [constructor|].
      match goal with H : _ ++ _ = [] |- _ => apply app_eq_nil in H as [? _] end. done.
Qed.

(** ** The whole function *)

Definition df_set (packet : list Z) : Prop := Z.land (flags_field packet) IPV4_DF ≠ 0.

(** A whole IPv4 packet: version 4, a header length that fits, a total length
    that is the packet's. *)
Definition header_length (packet : list Z) : Z := Z.land (byte_at packet 0) 15 * 4.
Definition whole_ipv4 (packet : list Z) : Prop :=
  20 <= len packet ∧ Z.shiftr (byte_at packet 0) 4 = 4 ∧ 20 <= header_length packet <= len packet ∧
  u16_from_be (byte_at packet 2) (byte_at packet 3) = len packet.

(** Why a packet is refused. *)
Definition unfragmentable (packet : list Z) (mtu : Z) (e : Ipv4FragmentError) : Prop :=
  match e with
  | FInvalidPacket =>
      ¬ whole_ipv4 packet ∨
      mtu < len packet ∧ (len packet = 20 ∨ frag_more packet = true ∧ (len packet - 20) mod 8 ≠ 0)
  | FHeaderOptions => mtu < len packet ∧ header_length packet ≠ 20
  | FDontFragment => mtu < len packet ∧ df_set packet
  | FMtuTooSmall => mtu < 28
  | FFragmentOffsetOverflow => U16_MAX < frag_offset packet * 8 + len packet
  end.

Lemma flags_field_at packet hi lo :
  packet !! 6%nat = Some hi → packet !! 7%nat = Some lo → flags_field packet = u16_from_be hi lo.
Proof. destruct packet as [|? [|? [|? [|? [|? [|? [|? [|? ?]]]]]]]]; intros; simplify_eq/=; done. Qed.

Definition oversized_fragments (packet : list Z) (mtu : Z) (fs : list (list Z)) : Prop :=
  mtu < len packet ∧ ¬ df_set packet ∧
  fragments packet mtu (frag_more packet) (frag_offset packet) (drop 20 packet) fs.

(** The largest payload of a fragment. *)
Lemma max_payload_bounds mtu :
  let mp := (mtu - 20) / 8 * 8 in mp mod 8 = 0 ∧ 20 + mp <= mtu ∧ (mp < 8 → mtu < 28).
Proof.
  intros mp. unfold mp. pose proof (Z.div_mod (mtu - 20) 8). pose proof (Z.mod_pos_bound (mtu - 20) 8).
  split_and!; [apply Z.mod_mul; lia|lia|lia].
Qed.

Lemma fragment_oversized_wp packet mtu :
  bytes packet → 20 <= len packet <= U16_MAX → mtu < len packet →
  wp (fragment_oversized packet 20 mtu) (oversized_fragments packet mtu) (unfragmentable packet mtu).
Proof.
  intros Hb Hlen Hmtu. unfold fragment_oversized.
  assert (packet = take 20 packet ++ drop 20 packet) as Hpk by by rewrite take_drop.
  assert (len (take 20 packet) = 20) as Hh by len_lia. assert (len (drop 20 packet) = len packet - 20) as Hlp by len_lia.
  apply wp_bind, wp_idx; [lia|]. intros p6 Hp6. apply wp_bind, wp_idx; [lia|]. intros p7 Hp7.
  pose proof (flags_field_at packet p6 p7 Hp6 Hp7) as Hff.
  unfold oversized_fragments, unfragmentable, df_set, frag_more, frag_offset. rewrite Hff.
  set (ff := u16_from_be p6 p7).
  destruct (Z.eqb_spec (Z.land ff IPV4_DF) 0) as [Hdf|Hdf]; cbn [negb]; [|by split].
  destruct (max_payload_bounds mtu) as (Hmod & Hmp20 & Hsmall). set (mp := (mtu - 20) / 8 * 8) in *.
  apply wp_bind. unfold checked_sub.
  destruct (Z.leb_spec 20 mtu) as [Hm20|Hm20]; cbn [fmap option_fmap option_map option_filter ok_or wp]; [|lia].
  fold mp. destruct (Z.leb_spec 8 mp) as [Hmp|Hmp]; cbn [option_filter ok_or wp]; [|auto].
  apply wp_bind. rewrite slice_from_ok by lia. cbn [wp]. change (Z.to_nat 20) with 20%nat.
  set (payload := drop 20 packet) in *.
  destruct (Z.eqb_spec (len payload) 0) as [Hz|Hne]; cbn [orb]; [right; lia|].
  destruct (negb _ && negb _) eqn:Hmf;
    [apply andb_true_iff in Hmf as [Hm1 Hm2]; right; rewrite <- Hlp; zbool; split; [lia|right];
     split; [by apply negb_true_iff, Z.eqb_neq|done]|].
  apply wp_bind. set (base := Z.land ff IPV4_OFFSET_MASK).
  assert (0 <= base) as Hbase by (unfold base; apply Z.land_nonneg; right; done).
  unfold checked_mul, checked_add, U16_MAX, USIZE_MAX in *.
  destruct (Z.leb_spec (base * 8) 18446744073709551615); cbn [mbind option_bind option_filter ok_or wp]; [|lia].
  destruct (Z.leb_spec (base * 8 + len payload) 18446744073709551615); cbn [option_filter ok_or wp]; [|lia].
  destruct (Z.leb_spec (base * 8 + len payload) (65535 - 20)) as [Hend|]; cbn [ok_or wp]; [|lia].
  destruct (fragment_loop_spec packet payload (take 20 packet) mp base (Z.land ff IPV4_RESERVED)
    (negb (Z.land ff IPV4_MF =? 0)) mtu Hpk Hh Hb (proj2 Hlen) Hmp Hmod Hmp20 (land_pow2 ff 15 ltac:(lia)) Hbase Hend
    (length payload) 0) as (fs & Hfs & Hfr); [lia|done|unfold len; lia|].
  rewrite Hfs. cbn [wp]. change (0 / 8) with 0 in Hfr. rewrite Z.add_0_r in Hfr. by split_and!; [| |exact Hfr]; [|tauto].
Qed.

Lemma fragment_ipv4_wp packet mtu :
  bytes packet →
  wp (fragment_ipv4_for_tunnel packet mtu)
    (λ fs, fs = [packet] ∧ len packet <= mtu ∨ oversized_fragments packet mtu fs)
    (unfragmentable packet mtu).
Proof.
  intros Hb. unfold fragment_ipv4_for_tunnel, IPV4_HEADER_LEN.
  destruct (Z.ltb_spec (len packet) 20) as [|Hlen]; [left; unfold whole_ipv4; lia|].
  apply wp_bind, wp_idx; [lia|]. intros p0 Hp0. change (Z.to_nat 0) with 0%nat in Hp0.
  assert (byte_at packet 0 = p0) as Hb0 by (unfold byte_at; by rewrite Hp0).
  assert (header_length packet = Z.land p0 15 * 4) as Hhl by (unfold header_length; by rewrite Hb0).
  destruct (Z.eqb_spec (Z.shiftr p0 4) 4) as [Hv|Hv]; cbn [negb]; [|left; unfold whole_ipv4; rewrite Hb0; tauto].
  destruct (_ || _) eqn:Hhdr; [left; unfold whole_ipv4; rewrite Hhl; lia|].
  apply wp_bind, wp_idx; [lia|]. intros p2 Hp2. apply wp_bind, wp_idx; [lia|]. intros p3 Hp3.
  change (Z.to_nat 2) with 2%nat in Hp2. change (Z.to_nat 3) with 3%nat in Hp3.
  assert (u16_from_be (byte_at packet 2) (byte_at packet 3) = u16_from_be p2 p3) as Hb23
    by (unfold byte_at; by rewrite Hp2, Hp3).
  pose proof (u16_from_be_range p2 p3 ltac:(by eapply bytes_lookup) ltac:(by eapply bytes_lookup)) as Hr.
  destruct (Z.eqb_spec (u16_from_be p2 p3) (len packet)) as [Htl|]; cbn [negb orb];
    [|left; unfold whole_ipv4; rewrite Hb23; tauto].
  destruct (Z.ltb_spec (u16_from_be p2 p3) (Z.land p0 15 * 4)); [lia|].
  destruct (Z.leb_spec (u16_from_be p2 p3) mtu); [left; split; [done|lia]|].
  destruct (Z.eqb_spec (Z.land p0 15 * 4) 20) as [->|]; cbn [negb]; [|split; [lia|by rewrite Hhl]].
  eapply wp_mono; [apply fragment_oversized_wp|by right|done]; [done|unfold u16, U16_MAX in *; lia|lia].
Qed.

(** * Properties *)

(** C28: Fragmentation for the tunnel is correct: no packet makes it panic or loop; a
    packet that fits is passed on as it is; otherwise the fragments' payloads
    concatenate to the packet's payload, each fragment fits the MTU, carries the
    packet's header with the right length, offset, MF flag and a verifying header
    checksum, and all but the last hold a multiple of eight bytes; a packet is
    refused only for one of five reasons: it is not a whole IPv4 packet (or an
    oversized one without payload, or a middle fragment of odd length), it does
    not fit and has DF set or header options, the MTU is below 28 bytes, or the
    fragments' offsets would exceed the 16-bit length. *)
Theorem fragmentation_correct packet mtu :
  bytes packet →
  wp (fragment_ipv4_for_tunnel packet mtu)
    (λ fs, (fs = [packet] ∧ len packet <= mtu ∨
            mtu < len packet ∧ ¬ df_set packet ∧
            fragments packet mtu (frag_more packet) (frag_offset packet) (drop 20 packet) fs ∧
            concat (drop 20 <$> fs) = drop 20 packet ∧
            Forall (λ f, len f <= mtu ∧ bytes f ∧ ones_complement_sum (take 20 f) = 65535) fs))
    (unfragmentable packet mtu).
Proof.
  intros Hb. eapply wp_mono; [by apply fragment_ipv4_wp| |done].
  intros fs [?|(? & ? & Hf)]; [by left|right].
  split_and!; try done; [by eapply fragments_reassemble|by eapply fragments_within].
Qed.

(** A 40-byte packet sent through a 28-byte tunnel. *)
Definition oversized_packet : list Z :=
  [0x45; 0; 0; 40; 0; 1; 0; 0; 7; 17; 0; 0; 198; 51; 100; 1; 232; 1; 1; 1] ++ seqZ 1 20.

Lemma fragmentation_correct_witness :
  bytes oversized_packet ∧ returns (fragment_ipv4_for_tunnel oversized_packet 28) ∧
  (fs ← fragment_ipv4_for_tunnel oversized_packet 28; Ok (length fs)) = Ok 3%nat.
Proof.
  assert (bytes oversized_packet) as Hb by decide_ok.
  split; [done|]. split; [exact (wp_returns _ _ _ (fragmentation_correct oversized_packet 28 Hb))|by vm_compute].
Defined.
