(* ===== verification/LocalMembership.v ===== *)
(** [src/local_membership.rs]: memberships of the hosts on a gateway's local
    network.

    The manager keeps one endpoint per reporting host in a [RelayState], expires
    silent reporters, and turns changes of the exportable aggregate into
    membership reports for the relay.  The raw socket ([mcrx_core]) is outside the
    repository: what its [try_recv_any] returns call by call is the list
    [incoming], its error type a parameter. *)

From S2P Require Import Prelude Net Protocol Ip Query Membership State.

Definition MAX_IRRELEVANT_PACKET_SKIP : nat := 16.

Record LocalMembershipConfig := mkLocalConfig {
  lc_protocol : MembershipProtocol;
  lc_interface : option IpAddr;
  lc_interface_index : option Z;
  lc_query_interval : option Z;
  lc_reporter_timeout : Z
}.

Definition new_local_config (protocol : MembershipProtocol) : LocalMembershipConfig :=
  mkLocalConfig protocol None None (Some (from_secs 30)) (from_secs 260).

Record LocalMembershipManager := mkManager {
  lm_config : LocalMembershipConfig;
  lm_state : RelayState;
  lm_advertised : gmap IpAddr GroupInterest;
  lm_reporter_last_seen : gmap IpAddr Z;
  lm_limits : RelayLimits
}.

(** [LocalMembershipManager::new], once the socket is subscribed. *)
Definition new_manager (config : LocalMembershipConfig) : LocalMembershipManager :=
  mkManager config empty_state ∅ ∅ default_relay_limits.

Record LocalMembershipEvent := mkLocalEvent {
  le_reporter : IpAddr;
  le_records_received : Z;
  le_active_subscriptions : list UpstreamSubscription
}.

Inductive LocalMembershipError (McrxError : Type) :=
| LMcrx (error : McrxError)
| LParse (error : MembershipParseError)
| LStateLimit (error : StateLimitError).
Arguments LMcrx {McrxError} error.
Arguments LParse {McrxError} error.
Arguments LStateLimit {McrxError} error.

Definition is_parse_error {M} (e : LocalMembershipError M) : bool :=
  match e with LParse _ | LStateLimit _ => true | LMcrx _ => false end.

Inductive ReportRecordMode := RState | RChange.

(** * Exportable interests and records *)

Definition group_matches_protocol (protocol : MembershipProtocol) (group : IpAddr) : bool :=
  match protocol, group with
  | Igmpv3, V4 _ | Mldv2, V6 _ => true
  | _, _ => false
  end.

Definition is_amt_exportable_ipv4_group (group : Ipv4Addr) : bool :=
  match v4_octets group with
  | [239; 255; 255; 250] | [239; 255; 255; 253] => false
  | _ => true
  end.

Definition is_amt_exportable_ipv6_group (group : Ipv6Addr) : bool := v6_is_multicast group.

Definition is_amt_exportable_group (group : IpAddr) : bool :=
  if negb (is_amt_forwardable_group group) then false
  else
    match group with
    | V4 g => is_amt_exportable_ipv4_group g
    | V6 g => is_amt_exportable_ipv6_group g
    end.

Definition filter_exportable_interests (protocol : MembershipProtocol)
    (interests : gmap IpAddr GroupInterest) : gmap IpAddr GroupInterest :=
  filter (λ p, is_amt_exportable_group p.1 = true)
    (filter (λ p, group_matches_protocol protocol p.1 = true) interests).

Definition record_for_interest (group : IpAddr) (interest : GroupInterest) (mode : ReportRecordMode) :
    MembershipRecord :=
  match gi_mode interest with
  | Include =>
      mkRecord (match mode with RState => ModeIsInclude | RChange => ChangeToInclude end)
        group (bset_iter (gi_sources interest))
  | Exclude =>
      mkRecord (match mode with RState => ModeIsExclude | RChange => ChangeToExclude end)
        group (bset_iter (gi_sources interest))
  end.

(** The record for one group, if any, in the loop of [delta_records]. *)
Definition delta_record (protocol : MembershipProtocol) (previous current : gmap IpAddr GroupInterest)
    (group : IpAddr) : option MembershipRecord :=
  if negb (group_matches_protocol protocol group) then None
  else if bool_decide (previous !! group = current !! group) then None
  else
    match current !! group with
    | Some interest => Some (record_for_interest group interest RChange)
    | None => Some (mkRecord ChangeToInclude group [])
    end.

Definition delta_records (protocol : MembershipProtocol) (previous current : gmap IpAddr GroupInterest) :
    list MembershipRecord :=
  let groups : gset IpAddr := list_to_set (btree_keys previous ++ btree_keys current) in
  omap (delta_record protocol previous current) (bset_iter groups).

Definition current_interests (m : LocalMembershipManager) : gmap IpAddr GroupInterest :=
  aggregate_interests (lm_state m).
Definition current_exportable_interests (m : LocalMembershipManager) : gmap IpAddr GroupInterest :=
  filter_exportable_interests (lc_protocol (lm_config m)) (current_interests m).
Definition current_subscriptions (m : LocalMembershipManager) : list UpstreamSubscription :=
  upstream_subscriptions (lm_state m).

Definition pending_report (m : LocalMembershipManager) : option MembershipReport :=
  let records := delta_records (lc_protocol (lm_config m)) (lm_advertised m) (current_exportable_interests m) in
  if is_empty records then None else Some (mkReport (lc_protocol (lm_config m)) records).

Definition current_report (m : LocalMembershipManager) : option MembershipReport :=
  let records :=
    (λ p, record_for_interest p.1 p.2 RState) <$>
      filter (λ p, group_matches_protocol (lc_protocol (lm_config m)) p.1 = true)
        (btree_iter (current_exportable_interests m)) in
  if is_empty records then None else Some (mkReport (lc_protocol (lm_config m)) records).

Definition mark_advertised (m : LocalMembershipManager) : LocalMembershipManager :=
  mkManager (lm_config m) (lm_state m) (current_exportable_interests m) (lm_reporter_last_seen m) (lm_limits m).

(** * Local queries *)

Definition query_config (m : LocalMembershipManager) : GeneralQueryConfig :=
  let c := for_local_network in
  let code :=
    match lc_query_interval (lm_config m) with
    | Some interval => encode_query_interval interval
    | None => query_interval_code c
    end in
  let igmp_source :=
    match lc_protocol (lm_config m), lc_interface (lm_config m) with
    | Igmpv3, Some (V4 interface) => interface
    | _, _ => igmp_source c
    end in
  let mld_source :=
    match lc_protocol (lm_config m), lc_interface (lm_config m) with
    | Mldv2, Some (V6 interface) => interface
    | _, _ => mld_source c
    end in
  mkGeneralQueryConfig igmp_source mld_source (igmp_max_response_code c) (mld_max_response_code c)
    (robustness_variable c) code.

Definition local_query {E} (m : LocalMembershipManager) : res E (list Z) :=
  build_general_query (lc_protocol (lm_config m)) (query_config m).

(** * Receiving reports *)

Definition parse_datagram_source {E} (datagram : list Z) : res E (option IpAddr) :=
  match datagram with
  | [] => Ok None
  | first :: _ =>
      if (Z.shiftr first 4 =? 4) && (20 <=? len datagram) then
        a ← ipv4_at datagram 12; Ok (Some (V4 a))
      else if (Z.shiftr first 4 =? 6) && (40 <=? len datagram) then
        octets ← slice datagram 8 24; Ok (Some (V6 (mkIpv6 octets)))
      else Ok None
  end.

Section recv.
Context {McrxError : Type}.

(** A datagram that parses to [report], from [reporter]: the manager and the
    result.  The state is returned in the error case as well. *)
Definition apply_local_report (now : Z) (m : LocalMembershipManager) (reporter : IpAddr)
    (report : MembershipReport) :
    LocalMembershipManager * res (LocalMembershipError McrxError) (option LocalMembershipEvent) :=
  let endpoint := sock_new reporter 0 in
  let '(st, result) := apply_report_limited (lm_state m) endpoint report (lm_limits m) in
  let m := mkManager (lm_config m) st (lm_advertised m) (lm_reporter_last_seen m) (lm_limits m) in
  match result with
  | Ok _ =>
      let seen :=
        if contains_endpoint st endpoint then <[reporter := now]> (lm_reporter_last_seen m)
        else delete reporter (lm_reporter_last_seen m) in
      let m := mkManager (lm_config m) st (lm_advertised m) seen (lm_limits m) in
      (m, Ok (Some (mkLocalEvent reporter (len (rep_records report)) (current_subscriptions m))))
  | Err e => (m, Err (LStateLimit e))
  | Panic => (m, Panic)
  | Diverge => (m, Diverge)
  end.

(** [for _ in 0..MAX_IRRELEVANT_PACKET_SKIP]. *)
Fixpoint recv_loop (n : nat) (now : Z) (m : LocalMembershipManager)
    (incoming : list (McrxError + option (list Z))) :
    LocalMembershipManager * res (LocalMembershipError McrxError) (option LocalMembershipEvent) :=
  match n, incoming with
  | O, _ => (m, Ok None)
  | S _, [] => (m, Ok None)
  | S _, inl error :: _ => (m, Err (LMcrx error))
  | S _, inr None :: _ => (m, Ok None)
  | S n, inr (Some datagram) :: incoming =>
      match parse_membership_report datagram with
      | Ok report =>
          if negb (bool_decide (rep_protocol report = lc_protocol (lm_config m)))
          then recv_loop n now m incoming
          else
            match parse_datagram_source datagram with
            | Ok (Some reporter) => apply_local_report now m reporter report
            | Ok None => recv_loop n now m incoming
            | Err e => (m, Err e)
            | Panic => (m, Panic)
            | Diverge => (m, Diverge)
            end
      | Err e => (m, Err (LParse e))
      | Panic => (m, Panic)
      | Diverge => (m, Diverge)
      end
  end.

Definition try_recv (now : Z) (m : LocalMembershipManager)
    (incoming : list (McrxError + option (list Z))) :
    LocalMembershipManager * res (LocalMembershipError McrxError) (option LocalMembershipEvent) :=
  recv_loop MAX_IRRELEVANT_PACKET_SKIP now m incoming.
End recv.

(** * Expiry *)

Definition prune_step (m : LocalMembershipManager) (reporter : IpAddr) : LocalMembershipManager :=
  mkManager (lm_config m) (remove_endpoint (lm_state m) (sock_new reporter 0)).1 (lm_advertised m)
    (delete reporter (lm_reporter_last_seen m)) (lm_limits m).

Definition is_stale (now timeout last_seen : Z) : bool :=
  is_some_and (λ elapsed, timeout <=? elapsed) (checked_duration_since now last_seen).

Definition prune_stale_reporters_at (m : LocalMembershipManager) (now : Z) : LocalMembershipManager * Z :=
  match lc_query_interval (lm_config m) with
  | None => (m, 0)
  | Some _ =>
      let stale :=
        omap (λ p, if is_stale now (lc_reporter_timeout (lm_config m)) p.2 then Some p.1 else None)
          (btree_iter (lm_reporter_last_seen m)) in
      (foldl prune_step m stale, len stale)
  end.

(** * Records that set a group *)

(** [r] makes the interest in its group that of [target], whatever it was. *)
Definition sets_to (target : gmap IpAddr GroupInterest) (r : MembershipRecord) : Prop :=
  ∀ gs, updated_groups gs r =
    Some (match target !! rec_group r with
          | Some i => <[rec_group r := i]> gs
          | None => delete (rec_group r) gs
          end).

Lemma apply_records_sets target records st n g :
  Forall (sets_to target) records →
  es_groups (apply_records st n records).1 !! g =
  if decide (g ∈ rec_group <$> records) then target !! g else es_groups st !! g.
Proof.
  intros Hs. revert st n. induction Hs as [|r records Hr Hs IH]; intros st n; [done|].
  cbn [apply_records]. unfold apply_record. rewrite Hr. rewrite IH. cbn [es_groups].
  rewrite fmap_cons. destruct (decide (g ∈ rec_group <$> records)) as [Hin|Hni];
    [by rewrite decide_True by by right|].
  destruct (decide (g = rec_group r)) as [->|Hne].
  - rewrite decide_True by by left.
    destruct (target !! rec_group r); [by rewrite lookup_insert_eq|by rewrite lookup_delete_eq].
  - rewrite decide_False by (rewrite elem_of_cons; tauto).
    destruct (target !! rec_group r); [by rewrite lookup_insert_ne|by rewrite lookup_delete_ne].
Qed.

Lemma list_to_set_bset_iter (X : gset IpAddr) : list_to_set (bset_iter X) = X.
Proof. apply set_eq. intros x. by rewrite elem_of_list_to_set, elem_of_bset_iter. Qed.

Lemma bset_iter_empty (X : gset IpAddr) : is_empty (bset_iter X) = true → X = ∅.
Proof. rewrite is_empty_true. intros He. by rewrite <- (list_to_set_bset_iter X), He. Qed.

Lemma record_for_interest_sets target g i mode :
  target !! g = Some i → interest_ok i → sets_to target (record_for_interest g i mode).
Proof.
  intros Hg Hok gs. destruct i as [m X]. unfold record_for_interest, updated_groups, include, exclude; simpl.
  destruct m; simpl.
  - assert (is_empty (bset_iter X) = false) as He.
    { destruct (is_empty (bset_iter X)) eqn:He; [|done]. apply bset_iter_empty in He. by destruct (Hok eq_refl). }
    destruct mode; simpl; by rewrite He, Hg, list_to_set_bset_iter.
  - destruct mode; simpl; by rewrite Hg, list_to_set_bset_iter.
Qed.

Lemma delta_record_sets protocol previous current g r :
  map_Forall (λ _, interest_ok) current → delta_record protocol previous current g = Some r →
  sets_to current r ∧ rec_group r = g.
Proof.
  intros Hok. unfold delta_record. destruct (negb _); [done|]. case_bool_decide; [done|].
  destruct (current !! g) as [i|] eqn:Hg; intros; simplify_eq.
  - split; [by apply record_for_interest_sets; [|eapply Hok]|]. unfold record_for_interest. by destruct (gi_mode i).
  - split; [|done]. intros gs. unfold updated_groups. simpl. by rewrite Hg.
Qed.

(** Interests of one protocol's groups. *)
Definition protocol_interests (protocol : MembershipProtocol) (m : gmap IpAddr GroupInterest) : Prop :=
  ∀ g i, m !! g = Some i → group_matches_protocol protocol g = true ∧ interest_ok i.

Lemma elem_of_delta_groups (previous current : gmap IpAddr GroupInterest) g :
  g ∈ bset_iter (list_to_set (btree_keys previous ++ btree_keys current) : gset IpAddr) ↔
  is_Some (previous !! g) ∨ is_Some (current !! g).
Proof. by rewrite elem_of_bset_iter, elem_of_list_to_set, elem_of_app, !elem_of_btree_keys. Qed.

Lemma elem_of_delta_record_groups protocol previous current g :
  protocol_interests protocol previous → protocol_interests protocol current →
  g ∈ rec_group <$> delta_records protocol previous current ↔ previous !! g ≠ current !! g.
Proof.
  intros Hp Hc. rewrite list_elem_of_fmap. unfold delta_records. setoid_rewrite list_elem_of_omap.
  assert (map_Forall (λ _, interest_ok) current) as Hok by (intros h i Hi; by eapply Hc). split.
  - intros (r & -> & h & _ & Hr). destruct (delta_record_sets _ _ _ _ _ Hok Hr) as [_ ->].
    unfold delta_record in Hr. destruct (negb _); [done|]. by case_bool_decide.
  - intros Hne.
    assert (is_Some (previous !! g) ∨ is_Some (current !! g)) as Hsome
      by (destruct (previous !! g), (current !! g); by eauto || done).
    assert (group_matches_protocol protocol g = true) as Hm by (destruct Hsome as [[i Hi]|[i Hi]]; [by eapply Hp|by eapply Hc]).
    assert (∃ r, delta_record protocol previous current g = Some r) as [r Hr].
    { unfold delta_record. rewrite Hm. simpl. rewrite bool_decide_eq_false_2 by done. destruct (current !! g); eauto. }
    exists r. split; [by destruct (delta_record_sets _ _ _ _ _ Hok Hr)|]. exists g. by rewrite elem_of_delta_groups.
Qed.

Lemma NoDup_delta_record_groups protocol previous current :
  map_Forall (λ _, interest_ok) current → NoDup (rec_group <$> delta_records protocol previous current).
Proof.
  intros Hok. unfold delta_records. pose proof (NoDup_bset_iter (list_to_set (btree_keys previous ++ btree_keys current) : gset IpAddr)) as Hn.
  induction Hn as [|g l Hg Hn IH]; cbn [omap list_omap]; [apply NoDup_nil_2|].
  destruct (delta_record protocol previous current g) as [r|] eqn:Hr; [|done]. cbn. apply NoDup_cons. split; [|done].
  destruct (delta_record_sets _ _ _ _ _ Hok Hr) as [_ ->]. intros (r' & Hg' & Hin)%list_elem_of_fmap.
  apply list_elem_of_omap in Hin as (h & Hin & Hr'). destruct (delta_record_sets _ _ _ _ _ Hok Hr') as [_ Hh]. congruence.
Qed.

Lemma delta_records_apply protocol previous current n :
  protocol_interests protocol previous → protocol_interests protocol current →
  (apply_records (mkEndpoint previous) n (delta_records protocol previous current)).1 = mkEndpoint current.
Proof.
  intros Hp Hc. assert (map_Forall (λ _, interest_ok) current) as Hok by (intros h i Hi; by eapply Hc).
  assert (Forall (sets_to current) (delta_records protocol previous current)) as Hs.
  { apply Forall_forall. intros r Hr. unfold delta_records in Hr. apply list_elem_of_omap in Hr as (g & _ & Hr).
    by eapply delta_record_sets. }
  destruct (apply_records _ _ _).1 as [gs] eqn:He. f_equal. apply map_eq. intros g.
  pose proof (apply_records_sets current _ (mkEndpoint previous) n g Hs) as Hg. rewrite He in Hg. simpl in Hg.
  rewrite Hg. case_decide as Hin; [done|]. rewrite elem_of_delta_record_groups in Hin by done.
  destruct (decide (previous !! g = current !! g)); [done|]. by exfalso.
Qed.

Lemma exportable_interests protocol interests g i :
  filter_exportable_interests protocol interests !! g = Some i ↔
  interests !! g = Some i ∧ group_matches_protocol protocol g = true ∧ is_amt_exportable_group g = true.
Proof. unfold filter_exportable_interests. rewrite !map_lookup_filter_Some. naive_solver. Qed.

Lemma current_exportable_protocol m :
  state_ok (lm_state m) → protocol_interests (lc_protocol (lm_config m)) (current_exportable_interests m).
Proof.
  intros [Hr _] g i Hi. unfold current_exportable_interests in Hi. apply exportable_interests in Hi as (Hi & Hm & _).
  split; [done|]. unfold current_interests, aggregate_interests in Hi. rewrite <- Hr in Hi.
  by apply aggregate_mode_rebuild in Hi as [? _].
Qed.

(** * Invariant *)

(** Reporters and endpoints correspond; what was advertised is exportable. *)
Record manager_ok (m : LocalMembershipManager) : Prop := {
  mok_state : state_ok (lm_state m);
  mok_endpoint : ∀ e, contains_endpoint (lm_state m) e = true →
    ∃ reporter, e = sock_new reporter 0 ∧ is_Some (lm_reporter_last_seen m !! reporter);
  mok_reporter : ∀ reporter, is_Some (lm_reporter_last_seen m !! reporter) →
    contains_endpoint (lm_state m) (sock_new reporter 0) = true;
  mok_advertised : protocol_interests (lc_protocol (lm_config m)) (lm_advertised m)
}.

Lemma new_manager_ok config : manager_ok (new_manager config).
Proof. by split; [apply empty_state_ok|done|intros ? []|]. Qed.

Lemma mark_advertised_ok m : manager_ok m → manager_ok (mark_advertised m).
Proof. intros []. split; try done. by apply current_exportable_protocol. Qed.

Lemma sock_new_inj a b p : sock_new a p = sock_new b p → a = b.
Proof. intros H%(f_equal sock_ip). by rewrite !sock_ip_new in H. Qed.

Lemma contains_remove_endpoint st e e' :
  contains_endpoint (remove_endpoint st e).1 e' =
  if decide (e' = e) then false else contains_endpoint st e'.
Proof.
  unfold contains_endpoint. rewrite endpoints_remove_endpoint.
  case_decide; subst; [by rewrite lookup_delete_eq|by rewrite lookup_delete_ne].
Qed.

Lemma prune_step_ok m reporter : manager_ok m → manager_ok (prune_step m reporter).
Proof.
  intros []. unfold prune_step.
  split; cbn [lm_state lm_reporter_last_seen lm_advertised lm_config]; [by apply remove_endpoint_ok| | |done].
  - intros e He. rewrite contains_remove_endpoint in He. case_decide as Hne; [done|].
    destruct (mok_endpoint0 e He) as (r & -> & Hr). exists r. split; [done|].
    rewrite lookup_delete_ne; [done|]. by intros ->.
  - intros r Hr. rewrite contains_remove_endpoint. destruct (decide (r = reporter)) as [->|Hne].
    + rewrite lookup_delete_eq in Hr. by destruct Hr.
    + rewrite lookup_delete_ne in Hr by done. rewrite decide_False; [by apply mok_reporter0|].
      intros Heq%sock_new_inj. done.
Qed.

Lemma prune_steps_spec l m :
  lm_reporter_last_seen (foldl prune_step m l) = foldl (λ s r, delete r s) (lm_reporter_last_seen m) l ∧
  (manager_ok m → manager_ok (foldl prune_step m l)) ∧
  (∀ e g s, wants (lm_state (foldl prune_step m l)) e g s =
     if decide (e ∈ (λ r, sock_new r 0) <$> l) then false else wants (lm_state m) e g s).
Proof.
  revert m. induction l as [|r l IH]; intros m; [done|]. cbn [foldl].
  destruct (IH (prune_step m r)) as (H1 & H2 & H3). split_and!.
  - by rewrite H1.
  - intros Hok. by apply H2, prune_step_ok.
  - intros e g s. rewrite H3. rewrite fmap_cons.
    change (lm_state (prune_step m r)) with (remove_endpoint (lm_state m) (sock_new r 0)).1.
    rewrite wants_remove_endpoint. unfold spec_remove.
    destruct (decide (e ∈ (λ r, sock_new r 0) <$> l)); [by rewrite decide_True by by right|].
    destruct (decide (e = sock_new r 0)) as [->|]; [by rewrite decide_True by by left|].
    by rewrite decide_False by (rewrite elem_of_cons; tauto).
Qed.

Lemma contains_apply_report_other st e report e' :
  state_ok st → e' ≠ e → contains_endpoint (apply_report st e report).1 e' = contains_endpoint st e'.
Proof.
  intros Hst Hne. unfold contains_endpoint. rewrite endpoints_apply_report by done.
  destruct (bool_decide (es_groups _ = ∅)); [by rewrite lookup_delete_ne|by rewrite lookup_insert_ne].
Qed.

Lemma apply_local_report_ok {M} now m reporter report :
  manager_ok m →
  manager_ok (apply_local_report (McrxError:=M) now m reporter report).1 ∧
  returns (apply_local_report (McrxError:=M) now m reporter report).2.
Proof.
  intros Hok. unfold apply_local_report. set (endpoint := sock_new reporter 0).
  pose proof (apply_report_limited_spec (lm_state m) endpoint report (lm_limits m) (mok_state m Hok)) as Hs.
  pose proof (apply_report_ok (lm_state m) endpoint report (mok_state m Hok)) as Hst.
  pose proof (λ e', contains_apply_report_other (lm_state m) endpoint report e' (mok_state m Hok)) as Hother.
  destruct (apply_report_limited _ _ _ _) as [st [n|e| |]]; cbn [fst snd] in Hs; try done.
  2: { subst st. split; [|done]. destruct m; by destruct Hok. }
  destruct Hs as [-> _]. set (st := (apply_report (lm_state m) endpoint report).1) in *.
  split; [|done]. destruct Hok. cbn [fst]. split; cbn [lm_state lm_reporter_last_seen lm_advertised lm_config]; try done.
  - intros e He. destruct (decide (e = endpoint)) as [->|Hne].
    + exists reporter. rewrite He, lookup_insert_eq. by eauto.
    + rewrite Hother in He by done. destruct (mok_endpoint0 e He) as (r & -> & Hr). exists r. split; [done|].
      assert (r ≠ reporter) by (intros ->; done).
      destruct (contains_endpoint st endpoint); [by rewrite lookup_insert_ne|by rewrite lookup_delete_ne].
  - intros r Hr. destruct (decide (r = reporter)) as [->|Hne].
    + destruct (contains_endpoint st endpoint) eqn:Hc; [done|]. rewrite lookup_delete_eq in Hr. by destruct Hr.
    + rewrite Hother by (intros Heq%sock_new_inj; done). apply mok_reporter0.
      destruct (contains_endpoint st endpoint); [by rewrite lookup_insert_ne in Hr|by rewrite lookup_delete_ne in Hr].
Qed.

Lemma parse_datagram_source_wp {E} datagram :
  wp (parse_datagram_source (E:=E) datagram) (λ _, True) (λ _, True).
Proof.
  destruct datagram as [|first rest]; [done|]. unfold parse_datagram_source. set (d := first :: rest).
  destruct (_ && _) eqn:H4.
  - apply andb_true_iff in H4 as [_ H4%Z.leb_le].
    by apply wp_bind, wp_ipv4_at; [lia|lia|].
  - clear H4. destruct (_ && _) eqn:H6; [|done]. apply andb_true_iff in H6 as [_ H6%Z.leb_le].
    apply wp_bind, wp_slice; [lia|lia|done].
Qed.

Lemma recv_loop_ok {M} n now m (incoming : list (M + option (list Z))) :
  manager_ok m → Forall (λ i, ∀ d, i = inr (Some d) → bytes d) incoming →
  manager_ok (recv_loop n now m incoming).1 ∧ returns (recv_loop n now m incoming).2.
Proof.
  intros Hok. revert incoming. induction n as [|n IH]; intros incoming Hin; [done|].
  destruct incoming as [|[error|[datagram|]] incoming]; cbn [recv_loop]; try done.
  apply Forall_cons in Hin as [Hd Hin]. specialize (Hd datagram eq_refl).
  pose proof (parse_membership_report_with_limits_wp datagram default_parse_limits Hd) as Hp.
  unfold parse_membership_report. destruct (parse_membership_report_with_limits _ _) as [report|e| |]; try done.
  destruct (negb _); [by apply IH|].
  pose proof (parse_datagram_source_wp (E:=LocalMembershipError M) datagram) as Hs.
  destruct (parse_datagram_source datagram) as [[reporter|]|e| |]; try done.
  - by apply apply_local_report_ok.
  - by apply IH.
Qed.

Lemma current_report_apply m n :
  manager_ok m →
  match current_report m with
  | Some report =>
      (apply_records (mkEndpoint ∅) n (rep_records report)).1 = mkEndpoint (current_exportable_interests m)
  | None => current_exportable_interests m = ∅
  end.
Proof.
  intros Hok. pose proof (current_exportable_protocol m (mok_state m Hok)) as Hp. unfold current_report.
  set (cur := current_exportable_interests m) in *. set (rs := _ <$> _).
  assert (∀ r, r ∈ rs ↔ ∃ g i, cur !! g = Some i ∧ r = record_for_interest g i RState) as Hrs.
  { intros r. unfold rs. rewrite list_elem_of_fmap. setoid_rewrite list_elem_of_filter. split.
    - intros ([g i] & -> & _ & Hin). apply elem_of_btree_iter in Hin. eauto.
    - intros (g & i & Hi & ->). exists (g, i). rewrite elem_of_btree_iter. split_and!; [done| |done]. by eapply Hp. }
  assert (∀ g i mode, rec_group (record_for_interest g i mode) = g) as Hgr
    by (intros g [[] X] mode; done).
  destruct (is_empty rs) eqn:He.
  - apply is_empty_true in He. rewrite He in Hrs. apply map_empty. intros g.
    destruct (cur !! g) as [i|] eqn:Hi; [|done].
    pose proof (proj2 (Hrs (record_for_interest g i RState))) as Hc. exfalso.
    assert (record_for_interest g i RState ∈ []) as Hnil%elem_of_nil by eauto. done.
  - cbn [rep_records]. assert (Forall (sets_to cur) rs) as Hs.
    { apply Forall_forall. intros r (g & i & Hi & ->)%Hrs. apply record_for_interest_sets; [done|]. by eapply Hp. }
    destruct (apply_records _ _ _).1 as [gs] eqn:Ha. f_equal. apply map_eq. intros g.
    pose proof (apply_records_sets cur rs (mkEndpoint ∅) n g Hs) as Hg. rewrite Ha in Hg. simpl in Hg. rewrite Hg.
    case_decide as Hin; [done|]. rewrite lookup_empty. destruct (cur !! g) as [i|] eqn:Hi; [|done].
    exfalso. apply Hin. apply list_elem_of_fmap. exists (record_for_interest g i RState).
    rewrite Hgr. split; [done|]. apply Hrs. eauto.
Qed.

(** * Properties *)

(** C29: The pending report carries the relay from what was last advertised to what the
    local hosts want now: applied to an endpoint holding the advertised interests
    it yields exactly the current exportable interests. It has one record for each group in which the
    interest has changed and none for any other group, and there is no pending
    report exactly when nothing has changed. *)
Theorem pending_report_exact m :
  manager_ok m →
  match pending_report m with
  | Some report =>
      rep_protocol report = lc_protocol (lm_config m) ∧
      (apply_records (mkEndpoint (lm_advertised m)) 0 (rep_records report)).1 =
        mkEndpoint (current_exportable_interests m) ∧
      NoDup (rec_group <$> rep_records report) ∧
      (∀ g, g ∈ rec_group <$> rep_records report ↔ lm_advertised m !! g ≠ current_exportable_interests m !! g) ∧
      lm_advertised m ≠ current_exportable_interests m
  | None => lm_advertised m = current_exportable_interests m
  end.
Proof.
  intros Hok. pose proof (current_exportable_protocol m (mok_state m Hok)) as Hc.
  pose proof (delta_records_apply _ _ _ 0 (mok_advertised m Hok) Hc) as Hd. unfold pending_report.
  pose proof (NoDup_delta_record_groups (lc_protocol (lm_config m)) (lm_advertised m) (current_exportable_interests m)) as Hn.
  pose proof (λ g, elem_of_delta_record_groups _ _ _ g (mok_advertised m Hok) Hc) as Hg.
  destruct (delta_records _ _ _) as [|r rs]; simpl is_empty; cbv iota; [simpl in Hd; by injection Hd|].
  split_and!; [done|done|apply Hn; intros h i Hi; by eapply Hc|exact Hg|].
  intros Heq. apply (Hg (rec_group r)); [by left|by rewrite Heq].
Qed.

(** The full report sent when a session starts states everything: applied to a fresh
    endpoint it yields exactly the current exportable interests, and it is absent
    exactly when there are none. *)
Theorem current_report_complete m :
  manager_ok m →
  match current_report m with
  | Some report =>
      (apply_records (mkEndpoint ∅) 0 (rep_records report)).1 = mkEndpoint (current_exportable_interests m)
  | None => current_exportable_interests m = ∅
  end.
Proof. apply current_report_apply. Qed.

(** Receiving local reports is safe: whatever packets arrive on the local network, the
    manager neither panics nor loops, keeps a last-seen time for exactly the hosts
    it holds memberships of, and looks at no more than sixteen packets per call. *)
Theorem local_reports_safe (M : Type) now m (incoming : list (M + option (list Z))) :
  manager_ok m → Forall (λ i, ∀ d, i = inr (Some d) → bytes d) incoming →
  manager_ok (try_recv now m incoming).1 ∧ returns (try_recv now m incoming).2.
Proof. apply recv_loop_ok. Qed.

(** Expiry removes exactly the silent reporters: with querying enabled, a reporter last
    heard at or before the timeout is dropped together with everything it wanted,
    and the others keep their memberships; without querying nothing expires. *)
Theorem prune_exact m now :
  manager_ok m →
  let m' := (prune_stale_reporters_at m now).1 in
  let stale reporter := lc_query_interval (lm_config m) ≠ None ∧
    ∃ t, lm_reporter_last_seen m !! reporter = Some t ∧ lc_reporter_timeout (lm_config m) <= now - t ∧ t <= now in
  manager_ok m' ∧
  (∀ reporter, stale reporter →
     lm_reporter_last_seen m' !! reporter = None ∧
     ∀ g s, wants (lm_state m') (sock_new reporter 0) g s = false) ∧
  (∀ reporter, ¬ stale reporter →
     lm_reporter_last_seen m' !! reporter = lm_reporter_last_seen m !! reporter ∧
     ∀ g s, wants (lm_state m') (sock_new reporter 0) g s = wants (lm_state m) (sock_new reporter 0) g s).
Proof.
  intros Hok m' stale. unfold m', prune_stale_reporters_at.
  destruct (lc_query_interval (lm_config m)) as [interval|] eqn:Hq; [|by split_and!; [done|intros r [? _]|]].
  set (l := omap _ _). cbn [fst].
  assert (∀ r, r ∈ l ↔ stale r) as Hl.
  { intros r. unfold l, stale. rewrite list_elem_of_omap. split.
    - intros ([k t] & Hin & Hs). apply elem_of_btree_iter in Hin. simpl in Hs.
      destruct (is_stale now _ t) eqn:Hst; simplify_eq. split; [done|]. exists t. split; [done|].
      unfold is_stale, checked_duration_since in Hst. destruct (Z.leb_spec t now); [|done]. simpl in Hst.
      apply Z.leb_le in Hst. lia.
    - intros (_ & t & Ht & Hto & Hle). exists (r, t). rewrite elem_of_btree_iter. split; [done|]. simpl.
      unfold is_stale, checked_duration_since. rewrite (proj2 (Z.leb_le t now)) by done. simpl.
      by rewrite (proj2 (Z.leb_le _ _)). }
  destruct (prune_steps_spec l m) as (H1 & H2 & H3). split_and!; [by apply H2| |].
  - intros r Hr%Hl. split; [by rewrite H1, foldl_delete_lookup, decide_True|]. intros g s.
    rewrite H3, decide_True; [done|]. apply list_elem_of_fmap. by exists r.
  - intros r Hr. rewrite <- Hl in Hr. split; [by rewrite H1, foldl_delete_lookup, decide_False|]. intros g s.
    rewrite H3, decide_False; [done|]. intros (x & Hx & Hin)%list_elem_of_fmap. apply sock_new_inj in Hx as ->. done.
Qed.

(** ** Concrete managers *)

Definition demo_host : IpAddr := V4 (mkIpv4 10 0 0 7).
Definition demo_manager : LocalMembershipManager :=
  (apply_local_report (McrxError:=unit) 5 (new_manager (new_local_config Igmpv3)) demo_host
     (demo_report AllowNewSources [demo_source 1])).1.

Lemma demo_manager_ok : manager_ok demo_manager.
Proof. apply (apply_local_report_ok (M:=unit)), new_manager_ok. Qed.

Lemma pending_report_exact_witness :
  pending_report demo_manager = Some (demo_report ChangeToInclude [demo_source 1]) ∧
  (apply_records (mkEndpoint ∅) 0 [mkRecord ChangeToInclude demo_group [demo_source 1]]).1 =
    mkEndpoint (current_exportable_interests demo_manager).
Proof.
  assert (pending_report demo_manager = Some (demo_report ChangeToInclude [demo_source 1])) as Hp by by vm_compute.
  split; [done|]. pose proof (pending_report_exact demo_manager demo_manager_ok) as H. rewrite Hp in H. apply H.
Defined.

Lemma current_report_complete_witness :
  current_report demo_manager = Some (demo_report ModeIsInclude [demo_source 1]) ∧
  (apply_records (mkEndpoint ∅) 0 [mkRecord ModeIsInclude demo_group [demo_source 1]]).1 =
    mkEndpoint (current_exportable_interests demo_manager).
Proof.
  assert (current_report demo_manager = Some (demo_report ModeIsInclude [demo_source 1])) as Hp by by vm_compute.
  split; [done|]. pose proof (current_report_complete demo_manager demo_manager_ok) as H. by rewrite Hp in H.
Defined.

Lemma local_reports_safe_witness :
  returns (try_recv 9 demo_manager [inr (Some [1; 2; 3]) : unit + option (list Z)]).2.
Proof.
  apply (local_reports_safe unit 9 demo_manager); [apply demo_manager_ok|].
  constructor; [|constructor]. intros d [= <-]. decide_ok.
Defined.

Lemma prune_exact_witness :
  lm_reporter_last_seen (prune_stale_reporters_at demo_manager (5 + from_secs 260)).1 !! demo_host = None.
Proof.
  refine (proj1 (proj1 (proj2 (prune_exact demo_manager (5 + from_secs 260) demo_manager_ok)) demo_host _)).
  split; [by vm_compute|]. exists 5. split; [by vm_compute|]. split; by vm_compute.
Defined.
