(* ===== verification/Desired.v ===== *)
(** What a gateway asks its relays for, from [src/daemon.rs]: the configured joins and what the
    local hosts report, together; and for discovery by source, one report per source. *)

From stdpp Require Import strings.
From S2P Require Import Prelude Net Protocol Membership State LocalMembership.

Record GatewayJoin := mkJoin { gj_group : IpAddr; gj_source : option IpAddr }.

(** One turn of the loop over the joins: [None] is any source. *)
Definition add_join (groups : gmap IpAddr (option (gset IpAddr))) (join : GatewayJoin) : gmap IpAddr (option (gset IpAddr)) :=
  let interest := default (Some ∅) (groups !! gj_group join) in
  <[gj_group join :=
      match interest, gj_source join with
      | _, None => None
      | Some sources, Some source => Some ({[source]} ∪ sources)
      | None, Some _ => None
      end]> groups.
Definition joined_record (p : IpAddr * option (gset IpAddr)) : MembershipRecord :=
  match p.2 with
  | Some sources => mkRecord ModeIsInclude p.1 (bset_iter sources)
  | None => mkRecord ModeIsExclude p.1 []
  end.
Definition configured_joins_report (protocol : MembershipProtocol) (joins : list GatewayJoin) : option MembershipReport :=
  let groups := foldl add_join ∅ joins in
  let records := joined_record <$> btree_iter groups in
  if is_empty records then None else Some (mkReport protocol records).

(** [SocketAddr::from(([0, 0, 0, 0], port))]. *)
Definition desired_endpoint (port : Z) : SocketAddr := SocketAddrV4 Ipv4_UNSPECIFIED port.
Definition apply_desired (st : RelayState) (port : Z) (report : option MembershipReport) : RelayState :=
  match report with Some report => (apply_report st (desired_endpoint port) report).1 | None => st end.
Definition state_record (p : IpAddr * GroupInterest) : MembershipRecord :=
  mkRecord (match gi_mode p.2 with Include => ModeIsInclude | Exclude => ModeIsExclude end) p.1 (bset_iter (gi_sources p.2)).

Definition desired_membership_report (protocol : MembershipProtocol) (joins : list GatewayJoin)
    (local : option LocalMembershipManager) : MembershipReport :=
  let state := apply_desired empty_state 1 (configured_joins_report protocol joins) in
  let state := apply_desired state 2 (local ≫= current_report) in
  mkReport protocol (state_record <$> btree_iter (aggregate state)).

Definition is_ssm_multicast_group (group : IpAddr) : bool :=
  match group with
  | V4 group => bool_decide (head (v4_octets group) = Some 232)
  | V6 group => Z.land (v6_segment0 group) 0xfff0 =? 0xff30
  end.

(** [records.entry(source).or_default().push(record)]. *)
Definition push_source (group : IpAddr) (records : gmap IpAddr (list MembershipRecord)) (source : IpAddr) :
    gmap IpAddr (list MembershipRecord) :=
  <[source := default [] (records !! source) ++ [mkRecord ModeIsInclude group [source]]]> records.
Definition split_record (acc : gmap IpAddr (list MembershipRecord) * Z) (record : MembershipRecord) :
    gmap IpAddr (list MembershipRecord) * Z :=
  let '(records, unsupported) := acc in
  if negb (bool_decide (rec_kind record = ModeIsInclude)) || negb (is_ssm_multicast_group (rec_group record))
  then (records, unsupported + 1)
  else (foldl (push_source (rec_group record)) records (rec_sources record), unsupported).
Definition desired_driad_reports (protocol : MembershipProtocol) (joins : list GatewayJoin)
    (local : option LocalMembershipManager) : gmap IpAddr MembershipReport * Z :=
  let desired := desired_membership_report protocol joins local in
  let '(records, unsupported) := foldl split_record (∅, 0) (rep_records desired) in
  (mkReport protocol <$> records, unsupported).

(** * What the reports ask for *)

(** The effect of a report made of one record per entry of a map. *)
Lemma report_effect_entries {V} (f : IpAddr * V → MembershipRecord) (l : list (IpAddr * V)) g wanted s :
  (∀ p, rec_group (f p) = p.1) → NoDup l.*1 →
  report_effect (f <$> l) g wanted s =
  match list_find (λ p, p.1 = g) l with
  | Some (_, p) => record_effect (rec_kind (f p)) (rec_sources (f p)) wanted s
  | None => wanted s
  end.
Proof.
  intros Hf. revert wanted. unfold report_effect.
  induction l as [|p l IH]; intros wanted Hnd; [done|]. rewrite fmap_cons in Hnd. inversion_clear Hnd as [|? ? Hnotin Hnd'].
  cbn [fmap list_fmap foldl list_find]. rewrite Hf. specialize (IH (if decide (g = p.1) then record_effect (rec_kind (f p)) (rec_sources (f p)) wanted else wanted) Hnd').
  change (list_fmap _ _ f l) with (f <$> l). rewrite IH. destruct (decide (p.1 = g)) as [Hp|Hp].
  - rewrite !(decide_True _ _ (eq_sym Hp)). destruct (list_find _ l) as [[i q]|] eqn:Hq; [|done].
    apply list_find_Some in Hq as (Hq & Hg & _). apply list_elem_of_lookup_2 in Hq.
    destruct Hnotin. rewrite Hp, <- Hg. by apply list_elem_of_fmap_2.
  - rewrite !decide_False by congruence. by destruct (list_find _ l) as [[i q]|].
Qed.

Lemma report_effect_map {V} (f : IpAddr * V → MembershipRecord) (m : gmap IpAddr V) g wanted s :
  (∀ p, rec_group (f p) = p.1) →
  report_effect (f <$> btree_iter m) g wanted s =
  match m !! g with
  | Some v => record_effect (rec_kind (f (g, v))) (rec_sources (f (g, v))) wanted s
  | None => wanted s
  end.
Proof.
  intros Hf. rewrite report_effect_entries by (done || apply NoDup_btree_keys).
  destruct (list_find _ _) as [[i [g' v]]|] eqn:Hp.
  - apply list_find_Some in Hp as (Hp & Hg & _). cbn in Hg. subst g'. apply list_elem_of_lookup_2, elem_of_btree_iter in Hp. by rewrite Hp.
  - apply list_find_None in Hp. destruct (m !! g) as [v|] eqn:Hv; [|done]. apply elem_of_btree_iter in Hv.
    rewrite Forall_forall in Hp. by destruct (Hp _ Hv).
Qed.

(** The configured joins want [source] in [group]. *)
Definition joins_want (joins : list GatewayJoin) (group source : IpAddr) : Prop :=
  ∃ j, j ∈ joins ∧ gj_group j = group ∧ (gj_source j = None ∨ gj_source j = Some source).

(** What the loop over the joins has collected for a group. *)
Definition collected (joins : list GatewayJoin) (group : IpAddr) (o : option (option (gset IpAddr))) : Prop :=
  match o with
  | None => ∀ j, j ∈ joins → gj_group j ≠ group
  | Some None => ∃ j, j ∈ joins ∧ gj_group j = group ∧ gj_source j = None
  | Some (Some sources) =>
      sources ≠ ∅ ∧ (∀ j, j ∈ joins → gj_group j = group → ∃ s, gj_source j = Some s ∧ s ∈ sources) ∧
      ∀ s, s ∈ sources → ∃ j, j ∈ joins ∧ gj_group j = group ∧ gj_source j = Some s
  end.

Lemma collected_other joins j group o : gj_group j ≠ group → collected joins group o → collected (joins ++ [j]) group o.
Proof.
  intros Hj Hc. destruct o as [[sources|]|]; cbn in *.
  - destruct Hc as (Hne & H1 & H2). split; [done|]. split.
    + intros j' [?| ->%list_elem_of_singleton]%elem_of_app; [by apply H1|done].
    + intros s Hs. destruct (H2 s Hs) as (j' & ? & ?). exists j'. split; [|done]. apply elem_of_app. by left.
  - destruct Hc as (j' & ? & ?). exists j'. split; [|done]. apply elem_of_app. by left.
  - intros j' [?| ->%list_elem_of_singleton]%elem_of_app; [by apply Hc|done].
Qed.
Lemma collected_same joins j o :
  collected joins (gj_group j) o →
  collected (joins ++ [j]) (gj_group j)
    (Some (match default (Some ∅) o, gj_source j with
           | _, None => None
           | Some sources, Some source => Some ({[source]} ∪ sources)
           | None, Some _ => None
           end)).
Proof.
  assert (j ∈ joins ++ [j]) as Hj by (apply elem_of_app; right; by left).
  assert (∀ j', j' ∈ joins → j' ∈ joins ++ [j]) as Hl by (intros; apply elem_of_app; by left).
  intros Hc. destruct (gj_source j) as [s|] eqn:Hs; [|by destruct o as [[]|]; exists j].
  destruct o as [[sources|]|]; cbn in *.
  - destruct Hc as (_ & H1 & H2). split; [set_solver|]. split.
    + intros j' [Hin| ->%list_elem_of_singleton]%elem_of_app Hg; [|exists s; set_solver].
      destruct (H1 j' Hin Hg) as (s' & ? & ?). exists s'. set_solver.
    + intros s' [->%elem_of_singleton|Hin]%elem_of_union; [by exists j|]. destruct (H2 s' Hin) as (j' & ? & ? & ?). exists j'. auto.
  - destruct Hc as (j' & ? & ? & ?). exists j'. auto.
  - split; [set_solver|]. split.
    + intros j' [Hin| ->%list_elem_of_singleton]%elem_of_app Hg; [by destruct (Hc j' Hin)|exists s; set_solver].
    + intros s' Hs'. exists j. split; [done|]. split; [done|]. set_solver.
Qed.
Lemma joins_collected joins group : collected joins group (foldl add_join ∅ joins !! group).
Proof.
  revert group. induction joins as [|j joins IH] using rev_ind; intros group.
  { cbn [foldl]. rewrite lookup_empty. by intros j ?%elem_of_nil. }
  rewrite foldl_app. cbn [foldl]. unfold add_join at 1. destruct (decide (gj_group j = group)) as [<-|Hne].
  - rewrite lookup_insert_eq. by apply collected_same.
  - rewrite lookup_insert_ne by done. by apply collected_other.
Qed.

Lemma joined_record_group p : rec_group (joined_record p) = p.1.
Proof. unfold joined_record. by destruct p.2. Qed.

Lemma joins_effect joins group source :
  report_effect (joined_record <$> btree_iter (foldl add_join ∅ joins)) group (λ _, false) source = true ↔ joins_want joins group source.
Proof.
  rewrite report_effect_map by apply joined_record_group. pose proof (joins_collected joins group) as Hc.
  destruct (foldl add_join ∅ joins !! group) as [[sources|]|]; cbn in *.
  - destruct Hc as (_ & H1 & H2). rewrite bool_decide_eq_true, elem_of_bset_iter. split.
    + intros (j & ? & ? & ?)%H2. exists j. auto.
    + intros (j & Hj & Hg & Hs). destruct (H1 j Hj Hg) as (s & Hjs & Hin). destruct Hs as [Hs|Hs]; congruence.
  - destruct Hc as (j & ? & ? & ?). split; [|done]. intros _. exists j. auto.
  - split; [done|]. intros (j & Hj & Hg & _). by destruct (Hc j Hj).
Qed.

(** The local hosts want [source] in [group], which may leave the site. *)
Definition hosts_want (local : option LocalMembershipManager) (group source : IpAddr) : Prop :=
  ∃ m, local = Some m ∧ wants_group (current_exportable_interests m) group source = true.

Definition local_ok (local : option LocalMembershipManager) : Prop := ∀ m, local = Some m → manager_ok m.

Lemma wants_empty e g s : wants empty_state e g s = false.
Proof. unfold wants, endpoint_interest. cbn. by rewrite lookup_empty. Qed.

Lemma apply_desired_wants st port report e g s :
  state_ok st →
  state_ok (apply_desired st port report) ∧
  wants (apply_desired st port report) e g s =
  if decide (e = desired_endpoint port)
  then match report with Some report => report_effect (rep_records report) g (wants st e g) s | None => wants st e g s end
  else wants st e g s.
Proof.
  intros Hst. unfold apply_desired. destruct report as [report|]; [|by case_decide].
  split; [by apply apply_report_ok|]. rewrite wants_apply_report by done. done.
Qed.

(** The state from which the desired report is read. *)
Definition desired_state (protocol : MembershipProtocol) (joins : list GatewayJoin) (local : option LocalMembershipManager) : RelayState :=
  apply_desired (apply_desired empty_state 1 (configured_joins_report protocol joins)) 2 (local ≫= current_report).

Lemma configured_effect protocol joins g s :
  match configured_joins_report protocol joins with
  | Some report => report_effect (rep_records report) g (λ _, false) s
  | None => false
  end = true ↔ joins_want joins g s.
Proof.
  rewrite <- joins_effect. unfold configured_joins_report. destruct (is_empty _) eqn:He; [|done].
  apply is_empty_true in He. by rewrite He.
Qed.
Lemma local_effect local g s :
  local_ok local →
  match local ≫= current_report with
  | Some report => report_effect (rep_records report) g (λ _, false) s
  | None => false
  end = true ↔ hosts_want local g s.
Proof.
  intros Hok. unfold hosts_want. destruct local as [m|]; cbn; [|by split; [|intros (? & [=] & _)]].
  pose proof (current_report_apply m 0 (Hok m eq_refl)) as Hr. destruct (current_report m) as [report|].
  - pose proof (apply_records_wants (rep_records report) (mkEndpoint ∅) 0 g s) as Hw. rewrite Hr in Hw. cbn [es_groups] in Hw.
    rewrite (report_effect_ext _ _ _ (λ _, false)) in Hw by (intros; unfold wants_group; by rewrite lookup_empty).
    rewrite <- Hw. split; [by exists m|by intros (? & [= <-] & ?)].
  - split; [done|]. intros (? & [= <-] & Hw). unfold wants_group in Hw. by rewrite Hr, lookup_empty in Hw.
Qed.

Lemma desired_state_wants protocol joins local g s :
  local_ok local →
  state_ok (desired_state protocol joins local) ∧
  ((∃ e, wants (desired_state protocol joins local) e g s = true) ↔ joins_want joins g s ∨ hosts_want local g s).
Proof.
  intros Hok. pose proof (λ e, apply_desired_wants empty_state 1 (configured_joins_report protocol joins) e g s empty_state_ok) as H1.
  set (st1 := apply_desired empty_state 1 _) in *.
  assert (state_ok st1) as Hst1 by apply (H1 (desired_endpoint 1)).
  pose proof (λ e, apply_desired_wants st1 2 (local ≫= current_report) e g s Hst1) as H2.
  unfold desired_state. fold st1. split; [apply (H2 (desired_endpoint 1))|].
  rewrite <- (configured_effect protocol), <- (local_effect local g s Hok).
  assert (∀ e r, report_effect r g (wants empty_state e g) s = report_effect r g (λ _, false) s) as He
    by (intros; apply report_effect_ext; intros; apply wants_empty).
  assert (∀ r, report_effect r g (wants st1 (desired_endpoint 2) g) s = report_effect r g (λ _, false) s) as He'.
  { intros r. apply report_effect_ext. intros s'.
    destruct (apply_desired_wants empty_state 1 (configured_joins_report protocol joins) (desired_endpoint 2) g s' empty_state_ok) as [_ H].
    unfold st1. rewrite H. rewrite decide_False by done. apply wants_empty. }
  split.
  - intros [e Hw]. destruct (H2 e) as [_ Hw2]. rewrite Hw2 in Hw. case_decide as E2.
    + subst e. destruct (local ≫= current_report) as [r|]; [right; by rewrite He' in Hw|].
      destruct (H1 (desired_endpoint 2)) as [_ Hw1]. rewrite Hw1, decide_False, wants_empty in Hw by done. done.
    + destruct (H1 e) as [_ Hw1]. rewrite Hw1 in Hw. left. case_decide; [|by rewrite wants_empty in Hw].
      destruct (configured_joins_report protocol joins); [by rewrite He in Hw|by rewrite wants_empty in Hw].
  - intros [Hw|Hw].
    + exists (desired_endpoint 1). destruct (H2 (desired_endpoint 1)) as [_ ->]. rewrite decide_False by done.
      destruct (H1 (desired_endpoint 1)) as [_ ->]. rewrite decide_True by done.
      destruct (configured_joins_report protocol joins); [by rewrite He|done].
    + exists (desired_endpoint 2). destruct (H2 (desired_endpoint 2)) as [_ ->]. rewrite decide_True by done.
      destruct (local ≫= current_report); [by rewrite He'|done].
Qed.

Lemma state_record_effect i g w s : record_effect (rec_kind (state_record (g, i))) (rec_sources (state_record (g, i))) w s = wants_source i s.
Proof.
  destruct i as [[] X]; unfold wants_source; cbn; [|f_equal]; apply bool_decide_ext; by rewrite elem_of_bset_iter.
Qed.

Lemma desired_effect protocol joins local g s :
  local_ok local →
  report_effect (rep_records (desired_membership_report protocol joins local)) g (λ _, false) s = true ↔
  joins_want joins g s ∨ hosts_want local g s.
Proof.
  intros Hok. destruct (desired_state_wants protocol joins local g s Hok) as [[Hr _] Hw]. rewrite <- Hw.
  rewrite <- aggregate_wants_rebuild, Hr. unfold desired_membership_report. cbn [rep_records]. fold (desired_state protocol joins local).
  rewrite report_effect_map by done. unfold aggregate_wants, wants_group.
  destruct (aggregate _ !! g) as [i|]; cbn [is_some_and]; [|done]. by rewrite state_record_effect.
Qed.

(** ** Groups in which every source is wanted but some *)

(** Some join names the group without a source, or the hosts' interest in it excludes sources. *)
Definition joins_exclude (joins : list GatewayJoin) (group : IpAddr) : Prop := ∃ j, j ∈ joins ∧ gj_group j = group ∧ gj_source j = None.
Definition hosts_exclude (local : option LocalMembershipManager) (group : IpAddr) : Prop :=
  ∃ m i, local = Some m ∧ current_exportable_interests m !! group = Some i ∧ gi_mode i = Exclude.

Definition joined_interest (o : option (gset IpAddr)) : GroupInterest :=
  match o with Some sources => mkInterest Include sources | None => mkInterest Exclude ∅ end.
Lemma apply_desired_interest st port report e g :
  state_ok st →
  endpoint_interest (apply_desired st port report) e g =
  match report with
  | Some report => if decide (e = desired_endpoint port) then es_groups (endpoint_after st e report) !! g else endpoint_interest st e g
  | None => endpoint_interest st e g
  end.
Proof.
  intros Hst. unfold apply_desired, endpoint_interest. destruct report as [report|]; [|done]. rewrite endpoints_apply_report by done.
  case_decide as He; [subst e|].
  - case_bool_decide as Hem; [by rewrite lookup_delete_eq, Hem, lookup_empty|by rewrite lookup_insert_eq].
  - case_bool_decide; [by rewrite lookup_delete_ne|by rewrite lookup_insert_ne].
Qed.
Lemma joined_groups joins n g :
  es_groups (apply_records (mkEndpoint ∅) n (joined_record <$> btree_iter (foldl add_join ∅ joins))).1 !! g =
  joined_interest <$> foldl add_join ∅ joins !! g.
Proof.
  set (m := foldl add_join ∅ joins). rewrite (apply_records_sets (joined_interest <$> m)).
  - rewrite lookup_fmap. case_decide as Hin; [done|]. cbn. rewrite lookup_empty. destruct (m !! g) as [o|] eqn:Hg; [|done]. exfalso. apply Hin.
    apply list_elem_of_fmap. exists (joined_record (g, o)). rewrite joined_record_group. split; [done|]. by apply list_elem_of_fmap_2, elem_of_btree_iter.
  - apply Forall_forall. intros r ([g' o] & -> & Hg%elem_of_btree_iter)%list_elem_of_fmap gs. rewrite joined_record_group, lookup_fmap. cbn [fst].
    rewrite Hg. pose proof (joins_collected joins g') as Hc. fold m in Hc. rewrite Hg in Hc. unfold joined_record, updated_groups, include, exclude.
    cbn [fst snd]. destruct o as [X|]; cbn; [|done]. destruct Hc as [Hne _]. rewrite list_to_set_bset_iter.
    destruct (is_empty (bset_iter X)) eqn:He; [|done]. by apply bset_iter_empty in He.
Qed.
(** An endpoint of the state that excludes sources is that of the joins, or that of the hosts. *)
Lemma desired_state_exclude protocol joins local g :
  local_ok local →
  (∃ e i, endpoint_interest (desired_state protocol joins local) e g = Some i ∧ gi_mode i = Exclude) ↔ joins_exclude joins g ∨ hosts_exclude local g.
Proof.
  intros Hok. set (st1 := apply_desired empty_state 1 (configured_joins_report protocol joins)).
  assert (state_ok st1) as Hst1 by apply (apply_desired_wants empty_state 1 (configured_joins_report protocol joins) (desired_endpoint 1) g g empty_state_ok).
  assert (∀ e, endpoint_interest empty_state e g = None) as H0 by (intros; unfold endpoint_interest; cbn; by rewrite lookup_empty).
  assert (∀ e, endpoint_interest st1 e g = if decide (e = desired_endpoint 1) then joined_interest <$> foldl add_join ∅ joins !! g else None) as H1.
  { intros e. unfold st1. rewrite apply_desired_interest by apply empty_state_ok. rewrite !H0. unfold configured_joins_report.
    rewrite <- (joined_groups joins 0 g). destruct (is_empty _) eqn:He; [|case_decide as E; [subst e; done|done]].
    apply is_empty_true in He. rewrite He. cbn. rewrite lookup_empty. by case_decide. }
  assert (∀ e, endpoint_interest (desired_state protocol joins local) e g =
    if decide (e = desired_endpoint 2) then local ≫= λ m, current_exportable_interests m !! g else endpoint_interest st1 e g) as H2.
  { intros e. unfold desired_state. fold st1. rewrite apply_desired_interest by done. destruct local as [m|]; cbn [mbind option_bind].
    - pose proof (current_report_apply m 0 (Hok m eq_refl)) as Hr. destruct (current_report m) as [report|].
      + case_decide as E; [|done]. subst e. unfold endpoint_after. replace (endpoint_before st1 (desired_endpoint 2)) with (mkEndpoint ∅); [by rewrite Hr|].
        unfold endpoint_before. assert (endpoints st1 !! desired_endpoint 2 = None) as ->; [|done]. unfold st1, apply_desired.
        destruct (configured_joins_report protocol joins) as [r|]; [|done]. rewrite endpoints_apply_report by apply empty_state_ok. cbn.
        case_bool_decide; [rewrite lookup_delete_ne by done|rewrite lookup_insert_ne by done]; apply lookup_empty.
      + case_decide as E; [|done]. subst e. by rewrite H1, decide_False, Hr, lookup_empty by done.
    - case_decide as E; [|done]. subst e. by rewrite H1, decide_False by done. }
  assert (∀ e, endpoint_interest (desired_state protocol joins local) e g =
    if decide (e = desired_endpoint 2) then local ≫= λ m, current_exportable_interests m !! g
    else if decide (e = desired_endpoint 1) then joined_interest <$> foldl add_join ∅ joins !! g else None) as H3 by (intros; by rewrite H2, H1).
  setoid_rewrite H3. pose proof (joins_collected joins g) as Hc. split.
  - intros (e & i & Hi & Hm). case_decide as E2; [right|left].
    + destruct local as [m|]; [|done]. by exists m, i.
    + case_decide as E1; [|done]. apply fmap_Some in Hi as (o & Ho & ->). rewrite Ho in Hc. by destruct o.
  - intros [Hj|(m & i & -> & Hi & Hm)]; [exists (desired_endpoint 1)|exists (desired_endpoint 2), i; by rewrite decide_True].
    exists (mkInterest Exclude ∅). rewrite decide_False, decide_True by done. split; [|done].
    destruct Hj as (j & Hj & Hg & Hs). destruct (foldl add_join ∅ joins !! g) as [[X|]|]; cbn in *; [|done|by destruct (Hc j Hj)].
    destruct Hc as (_ & Hc & _). destruct (Hc j Hj Hg) as (s & Hs' & _). congruence.
Qed.
(** A record of the desired report that includes a source: some join or host wants it, and none excludes. *)
Lemma desired_include protocol joins local group source :
  local_ok local →
  (∃ r, r ∈ rep_records (desired_membership_report protocol joins local) ∧ rec_group r = group ∧ rec_kind r = ModeIsInclude ∧ source ∈ rec_sources r) ↔
  (joins_want joins group source ∨ hosts_want local group source) ∧ ¬ joins_exclude joins group ∧ ¬ hosts_exclude local group.
Proof.
  intros Hok. destruct (desired_state_wants protocol joins local group source Hok) as [[Hr _] Hw].
  rewrite <- Hw, <- aggregate_wants_rebuild, Hr. clear Hw.
  assert ((∃ r, r ∈ rep_records (desired_membership_report protocol joins local) ∧ rec_group r = group ∧ rec_kind r = ModeIsInclude ∧ source ∈ rec_sources r) ↔
    ∃ i, aggregate (desired_state protocol joins local) !! group = Some i ∧ gi_mode i = Include ∧ source ∈ gi_sources i) as ->.
  { unfold desired_membership_report. cbn [rep_records]. fold (desired_state protocol joins local). split.
    - intros (r & ([g i] & -> & Hi%elem_of_btree_iter)%list_elem_of_fmap & Hg & Hk & Hs). cbn in Hg, Hk, Hs. subst g. exists i.
      rewrite elem_of_bset_iter in Hs. by destruct (gi_mode i).
    - intros (i & Hi & Hm & Hs). exists (state_record (group, i)). split; [by apply list_elem_of_fmap_2, elem_of_btree_iter|].
      cbn. rewrite Hm, elem_of_bset_iter. done. }
  pose proof (aggregate_mode_rebuild (desired_state protocol joins local) group) as Hm. rewrite Hr in Hm.
  pose proof (desired_state_exclude protocol joins local group Hok) as Hx. unfold aggregate_wants, wants_group.
  destruct (aggregate (desired_state protocol joins local) !! group) as [i|]; [|by split; [intros (? & ? & _)|intros [? _]]].
  destruct (Hm i eq_refl) as [_ Hme]. rewrite Hx in Hme. cbn [is_some_and]. unfold wants_source. split.
  - intros (i' & [= <-] & Hi & Hs). rewrite Hi in *. rewrite bool_decide_eq_true. split; [done|]. split; intros H; [apply (or_introl (B:=hosts_exclude local group)) in H|apply (or_intror (A:=joins_exclude joins group)) in H]; by apply Hme in H.
  - intros (Hs & Hj & Hh). exists i. split; [done|]. destruct (gi_mode i); [by rewrite bool_decide_eq_true in Hs|].
    destruct (proj1 Hme eq_refl) as [?|?]; done.
Qed.

(** ** One report per source *)

Definition supported (r : MembershipRecord) : bool :=
  bool_decide (rec_kind r = ModeIsInclude) && is_ssm_multicast_group (rec_group r).

Lemma push_sources g sources : ∀ m s r,
  r ∈ default [] (foldl (push_source g) m sources !! s) ↔
  r ∈ default [] (m !! s) ∨ s ∈ sources ∧ r = mkRecord ModeIsInclude g [s].
Proof.
  induction sources as [|s0 sources IH]; intros m s r; cbn [foldl].
  - split; [by left|]. intros [?|[?%elem_of_nil _]]; done.
  - rewrite IH. unfold push_source. rewrite elem_of_cons. destruct (decide (s0 = s)) as [->|Hne].
    + rewrite lookup_insert_eq. cbn [default from_option id]. rewrite elem_of_app, list_elem_of_singleton. tauto.
    + rewrite lookup_insert_ne by done. split; [tauto|]. intros [?|[[?|?] ?]]; [tauto|congruence|tauto].
Qed.
Lemma push_sources_nonempty g sources : ∀ m s,
  (∀ s, m !! s ≠ Some []) → foldl (push_source g) m sources !! s ≠ Some [].
Proof.
  induction sources as [|s0 sources IH]; intros m s Hm; cbn [foldl]; [done|]. apply IH. intros s'. unfold push_source.
  destruct (decide (s0 = s')) as [->|Hne]; [rewrite lookup_insert_eq|by rewrite lookup_insert_ne].
  intros [= H]. by apply app_eq_nil in H as [_ ?].
Qed.

Lemma split_records rs : ∀ m n, foldl split_record (∅, 0) rs = (m, n) →
  (∀ s r, r ∈ default [] (m !! s) ↔
    ∃ r0, r0 ∈ rs ∧ supported r0 = true ∧ s ∈ rec_sources r0 ∧ r = mkRecord ModeIsInclude (rec_group r0) [s]) ∧
  (∀ s, m !! s ≠ Some []) ∧ n = len (filter (λ r, supported r = false) rs).
Proof.
  induction rs as [|r0 rs IH] using rev_ind; intros m n.
  { intros [= <- <-]. split; [|split; [by intros s; rewrite lookup_empty|done]]. intros s r. rewrite lookup_empty.
    split; [by intros ?%elem_of_nil|by intros (? & ?%elem_of_nil & _)]. }
  rewrite foldl_app. cbn [foldl]. destruct (foldl split_record (∅, 0) rs) as [m0 n0]. destruct (IH m0 n0 eq_refl) as (H1 & H2 & H3).
  unfold split_record. rewrite filter_app, len_app.
  assert (∀ s r, (∃ r', r' ∈ rs ++ [r0] ∧ supported r' = true ∧ s ∈ rec_sources r' ∧ r = mkRecord ModeIsInclude (rec_group r') [s]) ↔
    r ∈ default [] (m0 !! s) ∨ supported r0 = true ∧ s ∈ rec_sources r0 ∧ r = mkRecord ModeIsInclude (rec_group r0) [s]) as Hsnoc.
  { intros s r. rewrite H1. split.
    - intros (r' & [Hin| ->%list_elem_of_singleton]%elem_of_app & H); [left; by exists r'|by right].
    - intros [(r' & Hin & H)|H]; [exists r'|exists r0]; (split; [|done]); apply elem_of_app; [by left|right; by left]. }
  setoid_rewrite Hsnoc.
  assert (negb (bool_decide (rec_kind r0 = ModeIsInclude)) || negb (is_ssm_multicast_group (rec_group r0)) = negb (supported r0)) as ->
    by (unfold supported; by destruct (bool_decide _), (is_ssm_multicast_group _)).
  destruct (supported r0) eqn:Hsup; cbn [negb]; intros [= <- <-].
  - split; [|split].
    + intros s r. rewrite push_sources. tauto.
    + intros s. by apply push_sources_nonempty.
    + rewrite filter_cons_False by congruence. rewrite H3. change (len (filter _ [])) with 0. lia.
  - split; [intros s r; split; [by left|by intros [?|[[=] _]]]|]. split; [done|].
    rewrite filter_cons_True by done. rewrite H3. change (len (r0 :: filter _ [])) with 1. lia.
Qed.

(** A report whose records are all for the source [s]. *)
Lemma source_report_effect s rs g : ∀ wanted s',
  (∀ r, r ∈ rs → rec_kind r = ModeIsInclude ∧ rec_sources r = [s]) →
  report_effect rs g wanted s' = if decide (g ∈ rec_group <$> rs) then bool_decide (s' = s) else wanted s'.
Proof.
  unfold report_effect. induction rs as [|r rs IH]; intros wanted s' Hrs; [done|]. cbn [foldl].
  rewrite IH by (intros; apply Hrs; by right). rewrite fmap_cons. destruct (Hrs r ltac:(by left)) as [Hk Hs].
  destruct (decide (g ∈ rec_group <$> rs)) as [Hin|Hni]; [by rewrite decide_True by by right|].
  destruct (decide (g = rec_group r)) as [->|Hne].
  - rewrite decide_True by by left. rewrite Hk, Hs. cbn. apply bool_decide_ext. by rewrite list_elem_of_singleton.
  - rewrite decide_False by (rewrite elem_of_cons; tauto). done.
Qed.

(** ** Well-formed addresses *)

Definition interest_wf (g : IpAddr) (i : GroupInterest) : Prop := ip_wf g ∧ ∀ s, s ∈ gi_sources i → ip_wf s.
(** Every group and source of the state is an address of its family's width. *)
Definition state_wf (st : RelayState) : Prop := ∀ e g i, endpoint_interest st e g = Some i → interest_wf g i.
Definition groups_wf (gs : gmap IpAddr GroupInterest) : Prop := ∀ g i, gs !! g = Some i → interest_wf g i.

Lemma groups_wf_insert gs g i : groups_wf gs → interest_wf g i → groups_wf (<[g := i]> gs).
Proof. intros H Hi g' i'. destruct (decide (g = g')) as [->|?]; [rewrite lookup_insert_eq; by intros [= <-]|rewrite lookup_insert_ne by done; apply H]. Qed.
Lemma groups_wf_delete gs g : groups_wf gs → groups_wf (delete g gs).
Proof. intros H g' i' Hg'. apply lookup_delete_Some in Hg' as [_ Hg']. by apply H. Qed.

Lemma updated_groups_wf gs r gs' : groups_wf gs → record_wf r → updated_groups gs r = Some gs' → groups_wf gs'.
Proof.
  intros H [Hg Hs]. rewrite Forall_forall in Hs. unfold updated_groups, include, exclude.
  assert (∀ m X, (∀ s, s ∈ X → ip_wf s) → groups_wf (<[rec_group r := mkInterest m X]> gs)) as Hins
    by (intros; by apply groups_wf_insert).
  assert (∀ s, s ∈ (list_to_set (rec_sources r) : gset IpAddr) → ip_wf s) as Hl
    by (intros s Hin%elem_of_list_to_set; by apply Hs).
  assert (∀ i, gs !! rec_group r = Some i → ∀ s, s ∈ gi_sources i → ip_wf s) as Hold by (intros i Hi; apply (H _ _ Hi)).
  destruct (rec_kind r); intros ?; simplify_eq; try by apply Hins.
  - destruct (is_empty _); [by apply groups_wf_delete|by apply Hins].
  - destruct (is_empty _); [by apply groups_wf_delete|by apply Hins].
  - destruct (is_empty _); [done|]. simplify_eq. destruct (gs !! rec_group r) as [i|]; cbn [default from_option id].
    + specialize (Hold i eq_refl). destruct (gi_mode i); apply Hins; intros s.
      * rewrite extend_spec, elem_of_union. intros [?|?]; auto.
      * rewrite remove_all_spec, elem_of_difference. intros [? _]; auto.
    + apply Hins. intros s. rewrite extend_spec, elem_of_union. intros [Hin|?]; [|auto]. cbn in Hin. set_solver.
  - destruct (is_empty _); [done|]. destruct (gs !! rec_group r) as [i|]; [|by simplify_eq]. specialize (Hold i eq_refl).
    destruct (gi_mode i); simplify_eq.
    + case_bool_decide; [by apply groups_wf_delete|]. apply Hins. intros s. rewrite remove_all_spec, elem_of_difference. intros [? _]; auto.
    + apply Hins. intros s. rewrite extend_spec, elem_of_union. intros [?|?]; auto.
  - by apply groups_wf_delete.
Qed.
Lemma apply_records_wf records : ∀ st n,
  groups_wf (es_groups st) → Forall record_wf records → groups_wf (es_groups (apply_records st n records).1).
Proof.
  induction records as [|r records IH]; intros st n H Hr; [done|]. inversion_clear Hr as [|? ? Hr1 Hr2]. cbn [apply_records].
  unfold apply_record. destruct (updated_groups (es_groups st) r) as [gs|] eqn:Hu; apply IH; try done. cbn. by eapply updated_groups_wf.
Qed.
Lemma apply_report_state_wf st e report :
  state_ok st → state_wf st → report_wf report → state_wf (apply_report st e report).1.
Proof.
  intros Hst Hwf Hr e' g i Hi. apply endpoint_interest_some in Hi as (es & He & Hg).
  rewrite endpoints_apply_report in He by done.
  assert (groups_wf (es_groups (endpoint_after st e report))) as Ha.
  { apply apply_records_wf; [|done]. intros g' i' Hi'. unfold endpoint_before in Hi'.
    destruct (endpoints st !! e) as [es0|] eqn:He0; [|cbn in Hi'; by rewrite lookup_empty in Hi'].
    apply (Hwf e). apply endpoint_interest_some. by exists es0. }
  assert (∀ es', endpoints st !! e' = Some es' → es_groups es' !! g = Some i → interest_wf g i) as Hold.
  { intros es' H1 H2. apply (Hwf e'). apply endpoint_interest_some. by exists es'. }
  case_bool_decide.
  - apply lookup_delete_Some in He as [_ He]. by eapply Hold.
  - destruct (decide (e = e')) as [->|Hne]; [rewrite lookup_insert_eq in He|rewrite lookup_insert_ne in He by done; by eapply Hold].
    injection He as <-. by apply Ha.
Qed.

(** The aggregate is made of the endpoints' groups and sources. *)
Lemma aggregate_wf st : state_ok st → state_wf st → groups_wf (aggregate st).
Proof.
  intros Hst Hwf g i Hi. pose proof Hst as [Hr _].
  assert (∃ e, is_Some (endpoint_interest st e g)) as (e0 & i0 & Hi0).
  { apply aggregate_key_interest; [done|]. apply elem_of_btree_keys. by rewrite Hi. }
  split; [by destruct (Hwf _ _ _ Hi0)|]. intros s Hs.
  pose proof Hi as Hi'. rewrite <- Hr in Hi'. apply aggregate_mode_rebuild in Hi' as [_ Hmode].
  pose proof (aggregate_wants_rebuild st g s) as Hw. rewrite Hr in Hw. unfold aggregate_wants, wants_group in Hw. rewrite Hi in Hw.
  cbn [is_some_and] in Hw. unfold wants_source in Hw. destruct (gi_mode i) eqn:Hm.
  - rewrite bool_decide_eq_true_2 in Hw by done. destruct Hw as [Hw _]. destruct (Hw eq_refl) as [e He]. unfold wants in He.
    destruct (endpoint_interest st e g) as [j|] eqn:Hj; [|done]. cbn in He. unfold wants_source in He.
    destruct (gi_mode j) eqn:Hmj; [|exfalso; destruct Hmode as [_ Hmode]; by discriminate Hmode; exists e, j].
    apply bool_decide_eq_true in He. by apply (Hwf _ _ _ Hj).
  - destruct Hmode as [Hmode _]. destruct (Hmode eq_refl) as (e & j & Hj & Hmj).
    rewrite bool_decide_eq_true_2 in Hw by done. destruct (decide (s ∈ gi_sources j)) as [Hin|Hni]; [by apply (Hwf _ _ _ Hj)|].
    exfalso. cbn in Hw. destruct Hw as [_ Hw]. discriminate Hw. exists e. unfold wants. rewrite Hj. cbn. unfold wants_source.
    by rewrite Hmj, bool_decide_eq_false_2.
Qed.

Definition join_wf (j : GatewayJoin) : Prop := ip_wf (gj_group j) ∧ from_option ip_wf True (gj_source j).

Lemma configured_report_wf protocol joins report :
  Forall join_wf joins → configured_joins_report protocol joins = Some report → report_wf report.
Proof.
  intros Hj. rewrite Forall_forall in Hj. unfold configured_joins_report. destruct (is_empty _); [done|]. intros [= <-].
  apply Forall_forall. intros r (p & -> & Hin)%list_elem_of_fmap. destruct p as [g o]. apply elem_of_btree_iter in Hin.
  pose proof (joins_collected joins g) as Hc. rewrite Hin in Hc. unfold joined_record. cbn [fst snd]. destruct o as [X|]; cbn in Hc.
  - destruct Hc as (Hne & _ & H2). assert (∀ s, s ∈ X → ip_wf g ∧ ip_wf s) as Hs.
    { intros s Hs. destruct (H2 s Hs) as (j & Hin' & <- & Hjs). destruct (Hj j Hin') as [? Hsw]. by rewrite Hjs in Hsw. }
    apply set_choose_L in Hne as [s0 Hs0]. split; cbn; [by destruct (Hs s0 Hs0)|]. apply Forall_forall. intros s Hs'%elem_of_bset_iter.
    by apply Hs.
  - destruct Hc as (j & Hin' & <- & _). split; [by destruct (Hj j Hin')|constructor].
Qed.

Definition local_wf (local : option LocalMembershipManager) : Prop := ∀ m, local = Some m → state_wf (lm_state m).

Lemma current_report_wf m report : manager_ok m → state_wf (lm_state m) → current_report m = Some report → report_wf report.
Proof.
  intros Hok Hwf. unfold current_report. destruct (is_empty _); [done|]. intros [= <-]. apply Forall_forall.
  intros r (p & -> & [_ Hin]%list_elem_of_filter)%list_elem_of_fmap. destruct p as [g i]. apply elem_of_btree_iter in Hin.
  apply exportable_interests in Hin as (Hin & _ & _). destruct (aggregate_wf _ (mok_state m Hok) Hwf g i Hin) as [Hg Hs].
  unfold record_for_interest. cbn. destruct (gi_mode i); split; cbn; try done; apply Forall_forall; intros s Hs'%elem_of_bset_iter; auto.
Qed.

Lemma desired_report_wf protocol joins local :
  Forall join_wf joins → local_ok local → local_wf local → report_wf (desired_membership_report protocol joins local).
Proof.
  intros Hj Hok Hwf. unfold desired_membership_report. fold (desired_state protocol joins local).
  assert (∀ st port o, state_ok st → state_wf st → (∀ report, o = Some report → report_wf report) →
    state_ok (apply_desired st port o) ∧ state_wf (apply_desired st port o)) as Hstep.
  { intros st port [report|] H1 H2 H3; [|done]. split; [by apply apply_report_ok|]. apply apply_report_state_wf; auto. }
  assert (state_wf empty_state) as H0 by (intros e g i; unfold endpoint_interest; cbn; by rewrite lookup_empty).
  assert (state_ok (desired_state protocol joins local) ∧ state_wf (desired_state protocol joins local)) as [H1 H2].
  { unfold desired_state. destruct (Hstep empty_state 1 (configured_joins_report protocol joins) empty_state_ok H0) as [H1 H2].
    { intros report. by apply configured_report_wf. }
    apply Hstep; [done..|]. intros report Hr. apply bind_Some in Hr as (m & Hm & Hr). by eapply current_report_wf; [apply Hok|apply Hwf|]. }
  apply Forall_forall. intros r ([g i] & -> & Hin%elem_of_btree_iter)%list_elem_of_fmap.
  destruct (aggregate_wf _ H1 H2 g i Hin) as [Hg Hs]. split; cbn; [done|]. apply Forall_forall. intros s Hs'%elem_of_bset_iter. auto.
Qed.

(** * The properties *)

(** C32: what a gateway asks its relay for is what is configured and what the local hosts want, and nothing else: a source of
    a group is asked for exactly when a join names the group without a source or with this one, or some
    host's exportable interest includes it; each group has one record, in the gateway's protocol, and the report is well formed. *)
Theorem desired_membership_exact protocol joins local :
  local_ok local → local_wf local → Forall join_wf joins →
  let report := desired_membership_report protocol joins local in
  rep_protocol report = protocol ∧ NoDup (rec_group <$> rep_records report) ∧ report_wf report ∧
  ∀ group source, report_effect (rep_records report) group (λ _, false) source = true ↔
    joins_want joins group source ∨ hosts_want local group source.
Proof.
  intros Hok Hwf Hj report. split; [done|]. split; [|split; [by apply desired_report_wf|intros; by apply desired_effect]].
  cbn. rewrite <- list_fmap_compose. apply NoDup_btree_keys.
Qed.

(** for discovery by source, the desired memberships are divided among the sources: a tunnel's report asks only
    for its own source, in exactly the source-specific groups where the desired report includes it, and what is left out is the
    records counted as unsupported: those of other groups and those that exclude. *)
Theorem driad_reports_exact protocol joins local :
  let desired := rep_records (desired_membership_report protocol joins local) in
  let '(reports, unsupported) := desired_driad_reports protocol joins local in
  (∀ source report, reports !! source = Some report →
     rep_protocol report = protocol ∧ rep_records report ≠ [] ∧
     ∀ group source', report_effect (rep_records report) group (λ _, false) source' = true → source' = source) ∧
  (∀ group source,
     (∃ report, reports !! source = Some report ∧ report_effect (rep_records report) group (λ _, false) source = true) ↔
     is_ssm_multicast_group group = true ∧
     ∃ r, r ∈ desired ∧ rec_group r = group ∧ rec_kind r = ModeIsInclude ∧ source ∈ rec_sources r) ∧
  unsupported = len (filter (λ r, supported r = false) desired).
Proof.
  intros desired. unfold desired_driad_reports. fold desired. destruct (foldl split_record (∅, 0) desired) as [m n] eqn:Hm.
  destruct (split_records desired m n Hm) as (H1 & H2 & H3).
  assert (∀ s rs, m !! s = Some rs → ∀ r, r ∈ rs → rec_kind r = ModeIsInclude ∧ rec_sources r = [s]) as Hrs.
  { intros s rs Hs r Hr. assert (r ∈ default [] (m !! s)) as Hr' by by rewrite Hs. apply H1 in Hr' as (r0 & _ & _ & _ & ->). done. }
  split_and!; [|intros group source; split|done].
  - intros s report. rewrite lookup_fmap. destruct (m !! s) as [rs|] eqn:Hs; [|done]. intros [= <-]. split; [done|].
    split; [cbn; intros ->; by apply (H2 s)|]. intros g s'. cbn [rep_records]. rewrite (source_report_effect s) by by apply Hrs.
    case_decide; [|done]. by intros ?%bool_decide_eq_true.
  - intros (report & Hr & He). rewrite lookup_fmap in Hr. destruct (m !! source) as [rs|] eqn:Hs; [|done]. injection Hr as <-.
    cbn [rep_records] in He. rewrite (source_report_effect source) in He by by apply Hrs. case_decide as Hin; [|done].
    apply list_elem_of_fmap in Hin as (r & -> & Hr). assert (r ∈ default [] (m !! source)) as Hr' by by rewrite Hs.
    apply H1 in Hr' as (r0 & Hr0 & Hsup & Hsrc & ->). apply andb_true_iff in Hsup as [Hk Hg]. apply bool_decide_eq_true in Hk.
    split; [done|]. by exists r0.
  - intros (Hg & r & Hr & <- & Hk & Hsrc).
    assert (mkRecord ModeIsInclude (rec_group r) [source] ∈ default [] (m !! source)) as Hin.
    { apply H1. exists r. split_and!; try done. unfold supported. by rewrite Hk, Hg, bool_decide_eq_true_2. }
    destruct (m !! source) as [rs|] eqn:Hs; [|by apply elem_of_nil in Hin]. cbn in Hin. exists (mkReport protocol rs).
    rewrite lookup_fmap, Hs. split; [done|]. cbn [rep_records]. rewrite (source_report_effect source) by by apply Hrs.
    rewrite decide_True; [by apply bool_decide_eq_true_2|]. apply list_elem_of_fmap. by exists (mkRecord ModeIsInclude (rec_group r) [source]).
Qed.

(** * Witness *)

Definition demo_joins : list GatewayJoin :=
  [mkJoin demo_group (Some (demo_source 1)); mkJoin (V4 (mkIpv4 239 1 1 1)) None; mkJoin demo_group (Some (demo_source 2))].

Lemma desired_membership_exact_witness :
  report_effect (rep_records (desired_membership_report Igmpv3 demo_joins None)) demo_group (λ _, false) (demo_source 2) = true ∧
  NoDup (rec_group <$> rep_records (desired_membership_report Igmpv3 demo_joins None)).
Proof.
  assert (Forall join_wf demo_joins) as Hj by (repeat constructor; decide_ok).
  destruct (desired_membership_exact Igmpv3 demo_joins None ltac:(done) ltac:(done) Hj) as (_ & Hnd & _ & He).
  split; [|done]. apply He. left. exists (mkJoin demo_group (Some (demo_source 2))).
  split; [do 2 right; by left|]. split; [done|by right].
Defined.
