(* ===== verification/Pmtu.v ===== *)
(** [src/pmtu.rs]: ICMP feedback for multicast packets that exceed the tunnel MTU.

    The raw socket ([mctx_core]) is the function [transport] from a datagram to
    its outcome; its error type is a parameter. *)

From S2P Require Import Prelude Net Checksum Ip Membership State.

Definition ICMP_HEADER_LEN : Z := 8.
Definition IPV4_MIN_REASSEMBLY_MTU : Z := 576.
Definition IPV6_MIN_MTU : Z := 1280.
Definition ICMPV4_PROTOCOL : Z := 1.
Definition DEFAULT_FEEDBACK_INTERVAL : Z := from_secs 1.
Definition DEFAULT_TRACKED_FLOWS : Z := 4096.

Inductive PmtuFeedbackOutcome :=
| Sent (bytes_sent : Z)
| RateLimited
| Suppressed
| AddressFamilyUnavailable.

Inductive PmtuFeedbackError (MctxError : Type) :=
| PInvalidPacket (error : IpPacketError)
| PInvalidLocalAddress (address : IpAddr)
| PInvalidMtu (mtu : Z)
| PTransport (error : MctxError).
Arguments PInvalidPacket {MctxError} error.
Arguments PInvalidLocalAddress {MctxError} address.
Arguments PInvalidMtu {MctxError} mtu.
Arguments PTransport {MctxError} error.

(** * Rate limiting *)

Definition flow : Type := IpAddr * IpAddr.

Record FeedbackRateLimiter := mkLimiter {
  last_feedback : gmap flow Z;
  expirations : list (flow * Z);
  minimum_interval : Z;
  max_tracked_flows : Z
}.

Definition new_limiter (minimum_interval max_tracked_flows : Z) : FeedbackRateLimiter :=
  mkLimiter ∅ [] minimum_interval max_tracked_flows.

Definition is_expired (now interval observed : Z) : bool :=
  is_some_and (λ elapsed, interval <=? elapsed) (checked_duration_since now observed).

(** [while let Some(..) = self.expirations.front()]: one queue entry per round. *)
Fixpoint expire (now interval : Z) (queue : list (flow * Z)) (feedback : gmap flow Z) :
    list (flow * Z) * gmap flow Z :=
  match queue with
  | [] => ([], feedback)
  | (key, observed) :: rest =>
      if negb (is_expired now interval observed) then (queue, feedback)
      else
        expire now interval rest
          (if bool_decide (feedback !! key = Some observed) then delete key feedback else feedback)
  end.

Definition allow (now : Z) (l : FeedbackRateLimiter) (source group : IpAddr) : FeedbackRateLimiter * bool :=
  let '(queue, feedback) := expire now (minimum_interval l) (expirations l) (last_feedback l) in
  let key := (source, group) in
  if bool_decide (is_Some (feedback !! key)) || (max_tracked_flows l <=? map_len feedback)
  then (mkLimiter feedback queue (minimum_interval l) (max_tracked_flows l), false)
  else (mkLimiter (<[key := now]> feedback) (queue ++ [(key, now)]) (minimum_interval l)
          (max_tracked_flows l), true).

(** * The feedback packets *)

Section feedback.
Context {MctxError : Type}.

Definition build_icmpv4_fragmentation_needed (local destination : Ipv4Addr)
    (invoking_packet : list Z) (tunnel_mtu : Z) : res (PmtuFeedbackError MctxError) (list Z) :=
  if U16_MAX <? tunnel_mtu then Err (PInvalidMtu tunnel_mtu)
  else
    let mtu := tunnel_mtu in
    let max_quote := IPV4_MIN_REASSEMBLY_MTU - IPV4_MIN_HEADER_LEN - ICMP_HEADER_LEN in
    let quote_len := Z.min (len invoking_packet) max_quote in
    let total_len := IPV4_MIN_HEADER_LEN + ICMP_HEADER_LEN + quote_len in
    let packet := replicate (Z.to_nat total_len) 0 in
    packet ← set_idx packet 0 0x45;
    packet ← copy_at packet 2 4 (u16_to_be (as_u16 total_len));
    packet ← set_idx packet 8 64;
    packet ← set_idx packet 9 ICMPV4_PROTOCOL;
    packet ← copy_at packet 12 16 (v4_octets local);
    packet ← copy_at packet 16 20 (v4_octets destination);
    packet ← set_idx packet 20 3;
    packet ← set_idx packet 21 4;
    packet ← copy_at packet 26 28 (u16_to_be mtu);
    quote ← slice_to invoking_packet quote_len;
    packet ← copy_at packet 28 (len packet) quote;
    icmp ← slice_from packet IPV4_MIN_HEADER_LEN;
    packet ← copy_at packet 22 24 (u16_to_be (checksum icmp));
    hdr ← slice_to packet IPV4_MIN_HEADER_LEN;
    copy_at packet 10 12 (u16_to_be (checksum hdr)).

Definition build_icmpv6_packet_too_big (local destination : Ipv6Addr)
    (invoking_packet : list Z) (tunnel_mtu : Z) : res (PmtuFeedbackError MctxError) (list Z) :=
  if 4294967295 <? tunnel_mtu then Err (PInvalidMtu tunnel_mtu)
  else
    let mtu := tunnel_mtu in
    let max_quote := IPV6_MIN_MTU - IPV6_HEADER_LEN - ICMP_HEADER_LEN in
    let quote_len := Z.min (len invoking_packet) max_quote in
    let payload_len := ICMP_HEADER_LEN + quote_len in
    let packet := replicate (Z.to_nat (IPV6_HEADER_LEN + payload_len)) 0 in
    packet ← set_idx packet 0 0x60;
    packet ← copy_at packet 4 6 (u16_to_be (as_u16 payload_len));
    packet ← set_idx packet 6 ICMPV6_PROTOCOL;
    packet ← set_idx packet 7 64;
    packet ← copy_at packet 8 24 (v6_octets local);
    packet ← copy_at packet 24 40 (v6_octets destination);
    packet ← set_idx packet 40 2;
    packet ← copy_at packet 44 48 (u32_to_be mtu);
    quote ← slice_to invoking_packet quote_len;
    packet ← copy_at packet 48 (len packet) quote;
    icmp ← slice_from packet IPV6_HEADER_LEN;
    copy_at packet 42 44
      (u16_to_be (icmpv6_checksum (v6_octets local) (v6_octets destination) ICMPV6_PROTOCOL icmp)).

Definition build_pmtu_feedback (local_address : IpAddr) (invoking_packet : list Z) (tunnel_mtu : Z) :
    res (PmtuFeedbackError MctxError) (list Z) :=
  parsed ← map_err PInvalidPacket (parse_multicast_packet invoking_packet);
  match local_address, mp_source parsed with
  | V4 local, V4 source => build_icmpv4_fragmentation_needed local source invoking_packet tunnel_mtu
  | V6 local, V6 source => build_icmpv6_packet_too_big local source invoking_packet tunnel_mtu
  | _, _ => Err (PInvalidLocalAddress local_address)
  end.

(** * Suppression of errors about errors *)

(** One round of the [match next_header]: the new [next_header] and [offset],
    or the answer. *)
Definition header_step (packet : list Z) (next_header offset : Z) : option ((Z * Z) + (Z * Z)) :=
  if (next_header =? 0) || (next_header =? 43) || (next_header =? 60) then
    next_header ← get packet offset;
    ext ← get packet (offset + 1);
    header_len ← checked_mul (ext + 1) 8;
    offset ← checked_add offset header_len;
    Some (inl (next_header, offset))
  else if next_header =? 44 then
    next_header ← get packet offset;
    hi ← get packet (offset + 2);
    lo ← get packet (offset + 3);
    if negb (Z.land (u16_from_be hi lo) 0xfff8 =? 0) then None
    else offset ← checked_add offset 8; Some (inl (next_header, offset))
  else if next_header =? 51 then
    next_header ← get packet offset;
    ext ← get packet (offset + 1);
    header_len ← checked_mul (ext + 2) 4;
    offset ← checked_add offset header_len;
    Some (inl (next_header, offset))
  else if offset <=? len packet then Some (inr (next_header, offset)) else None.

(** [for _ in 0..16]. *)
Fixpoint upper_layer_loop (n : nat) (packet : list Z) (next_header offset : Z) : option (Z * Z) :=
  match n with
  | O => None
  | S n =>
      step ← header_step packet next_header offset;
      match step with
      | inr answer => Some answer
      | inl (next_header, offset) =>
          if len packet <? offset then None else upper_layer_loop n packet next_header offset
      end
  end.

Definition ipv6_upper_layer (packet : list Z) : option (Z * Z) :=
  next_header ← get packet 6;
  upper_layer_loop 16 packet next_header IPV6_HEADER_LEN.

(** [o.is_none_or(f)]. *)
Definition is_none_or {A} (f : A → bool) (o : option A) : bool :=
  match o with Some a => f a | None => true end.

Definition suppress_icmp_error (packet : list Z) (parsed : MulticastPacket) : res (PmtuFeedbackError MctxError) bool :=
  match mp_source parsed with
  | V4 _ =>
      if mp_ip_protocol parsed =? ICMPV4_PROTOCOL then
        if mp_fragmented parsed then Ok true
        else
          p0 ← idx packet 0;
          let header_len := Z.land p0 0x0f * 4 in
          Ok (is_some_and (λ kind, bool_decide (kind ∈ [3; 4; 5; 11; 12])) (get packet header_len))
      else Ok false
  | V6 _ =>
      Ok (is_none_or (λ '(protocol, offset),
            (protocol =? ICMPV6_PROTOCOL) && is_none_or (λ kind, kind <? 128) (get packet offset))
            (ipv6_upper_layer packet))
  end.

(** * Sending *)

Record PmtuFeedbackSender := mkSender {
  ps_local_address : IpAddr;
  ps_limiter : FeedbackRateLimiter
}.

(** [PmtuFeedbackSender::new], once the raw socket is open. *)
Definition new_sender (local_address : IpAddr) : res (PmtuFeedbackError MctxError) PmtuFeedbackSender :=
  if ip_is_unspecified local_address || ip_is_multicast local_address
  then Err (PInvalidLocalAddress local_address)
  else Ok (mkSender local_address (new_limiter DEFAULT_FEEDBACK_INTERVAL DEFAULT_TRACKED_FLOWS)).

(** The sender after the call, and the result: the limiter remembers the flow
    even when building or sending then fails. *)
Definition send (transport : list Z → res MctxError Z) (now : Z) (s : PmtuFeedbackSender)
    (invoking_packet : list Z) (tunnel_mtu : Z) : PmtuFeedbackSender * res (PmtuFeedbackError MctxError) PmtuFeedbackOutcome :=
  let checked : res (PmtuFeedbackError MctxError) (PmtuFeedbackOutcome + MulticastPacket) :=
    (parsed ← map_err PInvalidPacket (parse_multicast_packet invoking_packet);
     if negb (same_family (ps_local_address s) (mp_source parsed))
     then Ok (inl AddressFamilyUnavailable)
     else
       suppress ← suppress_icmp_error invoking_packet parsed;
       Ok (if (suppress : bool) then inl Suppressed else inr parsed)) in
  match checked with
  | Ok (inl outcome) => (s, Ok outcome)
  | Ok (inr parsed) =>
      let '(limiter, allowed) := allow now (ps_limiter s) (mp_source parsed) (mp_group parsed) in
      let s := mkSender (ps_local_address s) limiter in
      (s, if negb allowed then Ok RateLimited
          else
            feedback ← build_pmtu_feedback (ps_local_address s) invoking_packet tunnel_mtu;
            bytes_sent ← map_err PTransport (transport feedback);
            Ok (Sent bytes_sent))
  | Err e => (s, Err e)
  | Panic => (s, Panic)
  | Diverge => (s, Diverge)
  end.
End feedback.

(** * The rate limiter *)

Lemma is_expired_spec now interval t :
  is_expired now interval t = true ↔ t <= now ∧ interval <= now - t.
Proof.
  unfold is_expired, checked_duration_since. destruct (Z.leb_spec t now); simpl; [|lia].
  rewrite Z.leb_le. lia.
Qed.

Definition by_time (p q : flow * Z) : Prop := p.2 <= q.2.

(** The queue holds every remembered flow, oldest first. *)
Definition queue_ok (queue : list (flow * Z)) (feedback : gmap flow Z) : Prop :=
  StronglySorted by_time queue ∧ ∀ k t, feedback !! k = Some t → (k, t) ∈ queue.

(** The flows whose interval is still running at [now]. *)
Definition live (now interval : Z) (feedback : gmap flow Z) : gmap flow Z :=
  filter (λ p, is_expired now interval p.2 = false) feedback.

Lemma expire_spec now interval queue feedback :
  queue_ok queue feedback →
  let '(queue', feedback') := expire now interval queue feedback in
  feedback' = live now interval feedback ∧ queue_ok queue' feedback' ∧ (∀ p, p ∈ queue' → p ∈ queue).
Proof.
  revert feedback. induction queue as [|[key observed] queue IH]; intros feedback [Hs Hin]; cbn [expire].
  - assert (feedback = ∅) as ->.
    { apply map_empty. intros k. destruct (feedback !! k) as [t|] eqn:Hk; [|done].
      apply Hin, elem_of_nil in Hk. done. }
    split_and!; [by unfold live; rewrite map_filter_empty|done|done].
  - destruct (is_expired now interval observed) eqn:Hexp; cbn [negb].
    + inversion Hs as [|? ? Hs' Hall]; subst.
      set (fb := if bool_decide _ then _ else _).
      assert (queue_ok queue fb) as Hq.
      { split; [done|]. intros k t Hk. unfold fb in Hk. case_bool_decide as Hkey.
        - destruct (decide (k = key)) as [->|Hne]; [by rewrite lookup_delete_eq in Hk|].
          rewrite lookup_delete_ne in Hk by done. apply Hin, elem_of_cons in Hk as [?|?]; [by simplify_eq|done].
        - pose proof (Hin k t Hk) as Hc. apply elem_of_cons in Hc as [?|?]; [by simplify_eq|done]. }
      specialize (IH fb Hq). destruct (expire now interval queue fb) as [queue' feedback'].
      destruct IH as (-> & Hq' & Hsub). split_and!; [|done|intros; right; auto].
      unfold live, fb. apply map_eq. intros k. rewrite !map_lookup_filter. case_bool_decide as Hkey; [|done].
      destruct (decide (k = key)) as [->|Hne]; [|by rewrite lookup_delete_ne].
      rewrite lookup_delete_eq, Hkey. simpl. case_guard as Hg; simpl; [|done]. simpl in Hg. congruence.
    + split_and!; try done. symmetry. apply map_filter_id. intros k t Hk. simpl.
      apply Hin in Hk. apply not_true_iff_false. rewrite is_expired_spec. apply not_true_iff_false in Hexp.
      rewrite is_expired_spec in Hexp. apply elem_of_cons in Hk as [?|Hk]; [by simplify_eq|].
      inversion Hs as [|? ? Hs' Hall]; subst. rewrite Forall_forall in Hall. apply Hall in Hk.
      unfold by_time in Hk. simpl in Hk. lia.
Qed.

Record limiter_ok (now : Z) (l : FeedbackRateLimiter) : Prop := {
  lok_queue : queue_ok (expirations l) (last_feedback l);
  lok_times : ∀ p, p ∈ expirations l → p.2 <= now;
  lok_size : map_len (last_feedback l) <= Z.max 0 (max_tracked_flows l)
}.

Lemma new_limiter_ok now interval flows : limiter_ok now (new_limiter interval flows).
Proof.
  split; simpl.
  - split; [constructor|done].
  - by intros p Hp%elem_of_nil.
  - change (map_len ∅) with 0. lia.
Qed.

Lemma live_size now interval feedback : map_len (live now interval feedback) <= map_len feedback.
Proof. apply map_len_mono, map_filter_subseteq. Qed.

(** [allow] against its specification: a flow is allowed exactly when its last
    feedback is not recent and fewer than the maximum of flows are. *)
Lemma allow_spec t0 now l source group :
  limiter_ok t0 l → t0 <= now →
  let recent := live now (minimum_interval l) (last_feedback l) in
  let '(l', allowed) := allow now l source group in
  limiter_ok now l' ∧ minimum_interval l' = minimum_interval l ∧ max_tracked_flows l' = max_tracked_flows l ∧
  allowed = bool_decide (recent !! (source, group) = None) && (map_len recent <? max_tracked_flows l) ∧
  last_feedback l' = if allowed then <[(source, group) := now]> recent else recent.
Proof.
  intros [Hq Ht Hsz] Hnow recent. unfold allow.
  pose proof (expire_spec now (minimum_interval l) (expirations l) (last_feedback l) Hq) as He.
  destruct (expire _ _ _ _) as [queue feedback]. destruct He as (-> & [Hs Hin] & Hsub). fold recent in Hin |- *.
  pose proof (live_size now (minimum_interval l) (last_feedback l)) as Hls. fold recent in Hls.
  destruct (bool_decide (is_Some (recent !! (source, group)))) eqn:Hk; cbn [orb].
  - apply bool_decide_eq_true in Hk. rewrite bool_decide_eq_false_2 by (by rewrite eq_None_not_Some; intros []).
    cbn [andb]. split_and!; try done. split; simpl; [done|intros p Hp; specialize (Ht p (Hsub p Hp)); lia|lia].
  - apply bool_decide_eq_false in Hk. rewrite <- eq_None_not_Some in Hk. rewrite bool_decide_eq_true_2 by done.
    cbn [andb]. destruct (Z.leb_spec (max_tracked_flows l) (map_len recent)) as [Hfull|Hfree].
    + rewrite (proj2 (Z.ltb_ge _ _)) by done. split_and!; try done.
      split; simpl; [done|intros p Hp; specialize (Ht p (Hsub p Hp)); lia|lia].
    + rewrite (proj2 (Z.ltb_lt _ _)) by done. split_and!; try done. split; simpl.
      * split.
        -- clear -Hs Hsub Ht Hnow. assert (Forall (λ p, p.2 <= now) queue) as Hall.
           { apply Forall_forall. intros p Hp. specialize (Ht p (Hsub p Hp)). lia. }
           clear Hsub. induction Hs as [|p queue Hs IH Hp]; simpl; [by repeat constructor|].
           apply Forall_cons in Hall as [? Hall]. constructor; [by apply IH|].
           apply Forall_app. by split; [|constructor].
        -- intros k t Hkt. apply elem_of_app. destruct (decide (k = (source, group))) as [->|Hne].
           ++ rewrite lookup_insert_eq in Hkt. simplify_eq. right. by apply list_elem_of_singleton.
           ++ rewrite lookup_insert_ne in Hkt by done. left. by apply Hin.
      * intros p [Hp| ->%list_elem_of_singleton]%elem_of_app; [specialize (Ht p (Hsub p Hp)); lia|done].
      * unfold map_len in *. rewrite map_size_insert_None by done. lia.
Qed.

(** The answers to a sequence of calls. *)
Fixpoint run_limiter (l : FeedbackRateLimiter) (calls : list (Z * flow)) : list bool :=
  match calls with
  | [] => []
  | (now, (source, group)) :: calls =>
      let '(l, allowed) := allow now l source group in allowed :: run_limiter l calls
  end.

Definition calls_in_order (t0 : Z) (calls : list (Z * flow)) : Prop :=
  StronglySorted Z.le (t0 :: calls.*1).

Lemma calls_in_order_cons t0 now key calls :
  calls_in_order t0 ((now, key) :: calls) → t0 <= now ∧ calls_in_order now calls ∧ calls_in_order t0 calls.
Proof.
  unfold calls_in_order. simpl. intros Hs. inversion Hs as [|? ? Hs' Hall]; subst.
  apply Forall_cons in Hall as [? Hall]. inversion Hs'; subst. split_and!; try done. by constructor.
Qed.

(** A flow that was allowed at [t] is refused until its interval has passed. *)
Lemma run_limiter_blocked calls : ∀ t0 t l key j tj,
  limiter_ok t0 l → calls_in_order t0 calls → last_feedback l !! key = Some t → t <= t0 →
  calls !! j = Some (tj, key) → run_limiter l calls !! j = Some true → minimum_interval l <= tj - t.
Proof.
  induction calls as [|[now [source group]] calls IH]; intros t0 t l key j tj Hok Hord Hk Ht Hj Hr; [done|].
  apply calls_in_order_cons in Hord as (Hnow & Hord & _). cbn [run_limiter] in Hr.
  pose proof (allow_spec t0 now l source group Hok Hnow) as Hs.
  destruct (allow now l source group) as [l' allowed]. cbn in Hs. destruct Hs as (Hok' & Hmi & _ & Ha & Hlf).
  set (recent := live now (minimum_interval l) (last_feedback l)) in *.
  destruct (Z.le_gt_cases (minimum_interval l) (now - t)) as [Hdone|Hrecent].
  - destruct j as [|j]; simpl in Hj, Hr; [by simplify_eq|].
    assert (now <= tj) as Hle; [|lia]. unfold calls_in_order in Hord. inversion Hord as [|? ? _ Hall]; subst.
    rewrite Forall_forall in Hall. apply Hall. apply list_elem_of_fmap. exists (tj, key). split; [done|].
    by eapply list_elem_of_lookup_2.
  - assert (recent !! key = Some t) as Hrk.
    { unfold recent, live. apply map_lookup_filter_Some. split; [done|]. simpl. apply not_true_iff_false.
      rewrite is_expired_spec. lia. }
    destruct j as [|j]; simpl in Hj, Hr.
    + injection Hj as <- <-. injection Hr as Hr.
      assert (bool_decide (recent !! (source, group) = None) = false) as Hb
        by (apply bool_decide_eq_false_2; intros Hn; discriminate (eq_trans (eq_sym Hrk) Hn)).
      by rewrite Hr, Hb in Ha.
    + rewrite <- Hmi. eapply (IH now t l'); try done; [|lia]. rewrite Hlf. destruct allowed; [|done].
      rewrite lookup_insert_ne; [done|]. intros Heq. symmetry in Ha. apply andb_true_iff in Ha as [Ha _].
      apply bool_decide_eq_true in Ha. subst key. discriminate (eq_trans (eq_sym Hrk) Ha).
Qed.

Lemma run_limiter_spacing calls : ∀ t0 l i j ti tj key,
  limiter_ok t0 l → calls_in_order t0 calls → (i < j)%nat →
  calls !! i = Some (ti, key) → calls !! j = Some (tj, key) →
  run_limiter l calls !! i = Some true → run_limiter l calls !! j = Some true →
  minimum_interval l <= tj - ti.
Proof.
  induction calls as [|[now [source group]] calls IH]; intros t0 l i j ti tj key Hok Hord Hij Hi Hj Hri Hrj; [done|].
  apply calls_in_order_cons in Hord as (Hnow & Hord & _). cbn [run_limiter] in Hri, Hrj.
  pose proof (allow_spec t0 now l source group Hok Hnow) as Hs.
  destruct (allow now l source group) as [l' allowed]. cbn in Hs. destruct Hs as (Hok' & Hmi & _ & Ha & Hlf).
  destruct j as [|j]; [lia|]. rewrite <- Hmi. destruct i as [|i]; simpl in Hi, Hri, Hj, Hrj.
  - injection Hi as <- <-. injection Hri as ->.
    eapply (run_limiter_blocked calls now); try done. rewrite Hlf. apply lookup_insert_eq.
  - eapply (IH now l' i j); try done. lia.
Qed.

(** * The feedback packets *)

(** Slicing off at most [k] bytes. *)
Lemma slice_to_min {E A} (l : list A) k :
  0 <= k → slice_to (E:=E) l (Z.min (len l) k) = Ok (take (Z.to_nat k) l).
Proof.
  intros Hk. rewrite slice_to_ok by len_lia. f_equal. unfold len.
  destruct (Z.le_gt_cases k (Z.of_nat (length l))).
  - by rewrite Z.min_r by lia.
  - rewrite Z.min_l by lia. by rewrite !take_ge by lia.
Qed.

Definition icmpv4_body (mtu : Z) (quote ck : list Z) : list Z :=
  [3; 4] ++ ck ++ [0; 0] ++ u16_to_be mtu ++ quote.
Definition feedback_v4_header (total : Z) (local destination : Ipv4Addr) (ck : list Z) : list Z :=
  [0x45; 0] ++ u16_to_be total ++ [0; 0; 0; 0; 64; 1] ++ ck ++ v4_octets local ++ v4_octets destination.
Definition feedback_v4 (local destination : Ipv4Addr) (mtu : Z) (quote : list Z) : list Z :=
  let total := 28 + len quote in
  feedback_v4_header total local destination
    (u16_to_be (checksum (feedback_v4_header total local destination [0; 0]))) ++
  icmpv4_body mtu quote (u16_to_be (checksum (icmpv4_body mtu quote [0; 0]))).

Lemma build_icmpv4_eq {M} local destination invoking mtu :
  mtu <= U16_MAX →
  build_icmpv4_fragmentation_needed (MctxError:=M) local destination invoking mtu =
  Ok (feedback_v4 local destination mtu (take 548 invoking)).
Proof.
  intros Hm. unfold build_icmpv4_fragmentation_needed. rewrite (proj2 (Z.ltb_ge _ _)) by done.
  change (IPV4_MIN_REASSEMBLY_MTU - IPV4_MIN_HEADER_LEN - ICMP_HEADER_LEN) with 548.
  change (IPV4_MIN_HEADER_LEN + ICMP_HEADER_LEN) with 28. set (n := Z.min (len invoking) 548).
  pose proof (len_nonneg invoking) as Hnn.
  assert (0 <= n <= 548) as Hn by (unfold n; lia).
  assert (slice_to (E:=PmtuFeedbackError M) invoking n = Ok (take 548 invoking)) as Hq
    by (apply (slice_to_min invoking 548); lia).
  set (q := take 548 invoking) in *. assert (len q = n) as Hlq by (unfold q, n; len_lia).
  replace (Z.to_nat (28 + n)) with (28 + Z.to_nat n)%nat by lia. rewrite replicate_add.
  set (zeros := replicate (Z.to_nat n) 0). assert (len zeros = n) as Hlz by (unfold zeros; len_lia).
  assert (as_u16 (28 + n) = 28 + n) as -> by (unfold as_u16; apply Z.mod_small; lia).
  set (hdr := feedback_v4_header (28 + n) local destination).
  set (pre := hdr [0; 0] ++ [3; 4; 0; 0; 0; 0] ++ u16_to_be mtu).
  transitivity (quote ← slice_to (E:=PmtuFeedbackError M) invoking n;
    packet ← copy_at (pre ++ zeros) 28 (len (pre ++ zeros)) quote;
    icmp ← slice_from packet 20;
    packet ← copy_at packet 22 24 (u16_to_be (checksum icmp));
    hdr ← slice_to packet 20;
    copy_at packet 10 12 (u16_to_be (checksum hdr))); [generalize checksum as cks; reflexivity|].
  rewrite Hq. cbn [mbind res_bind]. rewrite <- (app_nil_r zeros).
  rewrite copy_at_app by (unfold pre, hdr, feedback_v4_header; len_lia). cbn [mbind res_bind]. rewrite app_nil_r.
  change (pre ++ q) with (hdr [0; 0] ++ icmpv4_body mtu q [0; 0]).
  rewrite slice_from_app by done. cbn [mbind res_bind]. set (ck := u16_to_be (checksum (icmpv4_body mtu q [0; 0]))).
  change (hdr [0; 0] ++ icmpv4_body mtu q [0; 0]) with
    ((hdr [0; 0] ++ [3; 4]) ++ [0; 0] ++ [0; 0] ++ u16_to_be mtu ++ q).
  rewrite copy_at_app by done. cbn [mbind res_bind].
  change ((hdr [0; 0] ++ [3; 4]) ++ ck ++ [0; 0] ++ u16_to_be mtu ++ q) with (hdr [0; 0] ++ icmpv4_body mtu q ck).
  change (slice_to (hdr [0; 0] ++ icmpv4_body mtu q ck) 20) with (Ok (hdr [0; 0]) : res (PmtuFeedbackError M) (list Z)).
  cbn [mbind res_bind]. unfold hdr at 1, feedback_v4_header. rewrite <- !(assoc_L (++)).
  set (hck := u16_to_be (checksum (hdr [0; 0]))).
  pose proof (copy_at_app (E:=PmtuFeedbackError M) ([69; 0] ++ u16_to_be (28 + n) ++ [0; 0; 0; 0; 64; 1]) [0; 0] hck
    (v4_octets local ++ v4_octets destination ++ icmpv4_body mtu q ck) 10 12) as Hc.
  rewrite <- !(assoc_L (++)) in Hc. rewrite Hc by done. unfold feedback_v4, feedback_v4_header. rewrite Hlq.
  rewrite <- !(assoc_L (++)). done.
Qed.

Definition icmpv6_body (mtu : Z) (quote ck : list Z) : list Z := [2; 0] ++ ck ++ u32_to_be mtu ++ quote.
Definition feedback_v6 (local destination : Ipv6Addr) (mtu : Z) (quote : list Z) : list Z :=
  [0x60; 0; 0; 0] ++ u16_to_be (8 + len quote) ++ [58; 64] ++ v6_octets local ++ v6_octets destination ++
  icmpv6_body mtu quote
    (u16_to_be (icmpv6_checksum (v6_octets local) (v6_octets destination) 58 (icmpv6_body mtu quote [0; 0]))).

Lemma build_icmpv6_eq {M} local destination invoking mtu :
  mtu <= 4294967295 → len (v6_octets local) = 16 → len (v6_octets destination) = 16 →
  build_icmpv6_packet_too_big (MctxError:=M) local destination invoking mtu =
  Ok (feedback_v6 local destination mtu (take 1232 invoking)).
Proof.
  intros Hm Hl Hd. unfold build_icmpv6_packet_too_big. rewrite (proj2 (Z.ltb_ge _ _)) by done.
  change (IPV6_MIN_MTU - IPV6_HEADER_LEN - ICMP_HEADER_LEN) with 1232.
  set (n := Z.min (len invoking) 1232). pose proof (len_nonneg invoking) as Hnn.
  assert (0 <= n <= 1232) as Hn by (unfold n; lia).
  assert (slice_to (E:=PmtuFeedbackError M) invoking n = Ok (take 1232 invoking)) as Hq
    by (apply (slice_to_min invoking 1232); lia).
  set (q := take 1232 invoking) in *. assert (len q = n) as Hlq by (unfold q, n; len_lia).
  replace (Z.to_nat (IPV6_HEADER_LEN + (ICMP_HEADER_LEN + n))) with (48 + Z.to_nat n)%nat
    by (unfold IPV6_HEADER_LEN, ICMP_HEADER_LEN; lia). rewrite replicate_add.
  set (zeros := replicate (Z.to_nat n) 0). assert (len zeros = n) as Hlz by (unfold zeros; len_lia).
  change (ICMP_HEADER_LEN + n) with (8 + n).
  assert (as_u16 (8 + n) = 8 + n) as -> by (unfold as_u16; apply Z.mod_small; lia).
  destruct local as [lo], destination as [de]. simpl in Hl, Hd. cbn [v6_octets].
  assert (len (u32_to_be mtu) = 4) as Hmtu by done. unfold feedback_v6. cbn [v6_octets]. rewrite Hlq.
  set (pre40 := [0x60; 0; 0; 0] ++ u16_to_be (8 + n) ++ [58; 64] ++ lo ++ de).
  set (pre := pre40 ++ [2; 0; 0; 0] ++ u32_to_be mtu).
  transitivity (quote ← slice_to (E:=PmtuFeedbackError M) invoking n;
    packet ← copy_at (pre ++ zeros) 48 (len (pre ++ zeros)) quote;
    icmp ← slice_from packet 40;
    copy_at packet 42 44 (u16_to_be (icmpv6_checksum lo de 58 icmp))).
  { generalize icmpv6_checksum as cks. unfold pre, pre40. destruct_octets lo Hl. destruct_octets de Hd. reflexivity. }
  rewrite Hq. cbn [mbind res_bind]. rewrite <- (app_nil_r zeros).
  assert (len pre40 = 40) as Hp40 by (unfold pre40; len_lia).
  rewrite copy_at_app by (unfold pre; len_lia). cbn [mbind res_bind]. rewrite app_nil_r.
  assert (pre ++ q = pre40 ++ icmpv6_body mtu q [0; 0]) as -> by (unfold pre; by rewrite <- (assoc_L (++))).
  rewrite slice_from_app by done. cbn [mbind res_bind].
  pose proof (copy_at_app (E:=PmtuFeedbackError M) (pre40 ++ [2; 0]) [0; 0]
    (u16_to_be (icmpv6_checksum lo de 58 (icmpv6_body mtu q [0; 0]))) (u32_to_be mtu ++ q) 42 44) as Hc.
  rewrite <- !(assoc_L (++)) in Hc.
  change (icmpv6_body mtu q [0; 0]) with ([2; 0] ++ [0; 0] ++ u32_to_be mtu ++ q) at 1. rewrite Hc by len_lia.
  unfold pre40, icmpv6_body. by rewrite <- !(assoc_L (++)).
Qed.

(** What the receiver of a feedback packet sees: an IPv4 header without options, for a packet that is not
    a fragment, of protocol ICMP and of the length received, and the ICMP message. *)
Record feedback_v4_ok (local destination : Ipv4Addr) (invoking : list Z) (mtu : Z) (packet : list Z) : Prop := {
  f4_version : sub packet 0 2 = [4 * 16 + 5; 0];
  f4_length : sub packet 2 4 = u16_to_be (len packet);
  f4_whole : sub packet 4 8 = [0; 0; 0; 0];
  f4_protocol : sub packet 8 10 = [64; 1];
  f4_len : len packet <= 576;
  f4_header : ones_complement_sum (take 20 packet) = 65535;
  f4_icmp : ones_complement_sum (drop 20 packet) = 65535;
  f4_kind : sub packet 20 22 = [3; 4];
  f4_addresses : sub packet 12 16 = v4_octets local ∧ sub packet 16 20 = v4_octets destination;
  f4_mtu : sub packet 24 28 = [0; 0] ++ u16_to_be mtu;
  f4_quote : drop 28 packet = take 548 invoking
}.

Record feedback_v6_ok (local destination : Ipv6Addr) (invoking : list Z) (mtu : Z) (packet : list Z) : Prop := {
  f6_version : sub packet 0 4 = [6 * 16; 0; 0; 0];
  f6_length : sub packet 4 6 = u16_to_be (len packet - 40);
  f6_protocol : sub packet 6 8 = [58; 64];
  f6_len : len packet <= 1280;
  f6_icmp : icmpv6_checksum (v6_octets local) (v6_octets destination) 58 (drop 40 packet) = 0;
  f6_kind : sub packet 40 42 = [2; 0];
  f6_addresses : sub packet 8 24 = v6_octets local ∧ sub packet 24 40 = v6_octets destination;
  f6_mtu : sub packet 44 48 = u32_to_be mtu;
  f6_quote : drop 48 packet = take 1232 invoking
}.

Lemma feedback_v4_correct local destination invoking mtu :
  ipv4_wf local → ipv4_wf destination → bytes invoking → u16 mtu →
  feedback_v4_ok local destination invoking mtu (feedback_v4 local destination mtu (take 548 invoking)).
Proof.
  intros Hl Hd Hb Hm. set (q := take 548 invoking). assert (bytes q) as Hq by by apply bytes_take.
  assert (len q <= 548) as Hlq by (unfold q; len_lia). pose proof (len_nonneg q).
  assert (u16 (28 + len q)) as Ht by (unfold u16; lia). unfold ipv4_wf in *. split; try done.
  - replace (len (feedback_v4 local destination mtu q)) with (28 + len q); [done|].
    unfold feedback_v4, feedback_v4_header, icmpv4_body. len_lia.
  - unfold feedback_v4, feedback_v4_header, icmpv4_body. len_lia.
  - unfold feedback_v4. change (take 20 (feedback_v4_header ?t ?l ?d ?c ++ ?b)) with (feedback_v4_header t l d c).
    apply (checksum_verifies ([69; 0] ++ u16_to_be (28 + len q) ++ [0; 0; 0; 0; 64; 1])
      (v4_octets local ++ v4_octets destination)); [bytes_solve|bytes_solve|done].
  - unfold feedback_v4. change (drop 20 (feedback_v4_header ?t ?l ?d ?c ++ ?b)) with b.
    apply (checksum_verifies [3; 4] ([0; 0] ++ u16_to_be mtu ++ q)); [bytes_solve|bytes_solve|done].
Qed.

Lemma feedback_v6_correct local destination invoking mtu :
  ipv6_wf local → ipv6_wf destination → bytes invoking → u32 mtu →
  feedback_v6_ok local destination invoking mtu (feedback_v6 local destination mtu (take 1232 invoking)).
Proof.
  intros [Hl Hlb] [Hd Hdb] Hb Hm. set (q := take 1232 invoking). assert (bytes q) as Hq by by apply bytes_take.
  assert (len q <= 1232) as Hlq by (unfold q; len_lia). pose proof (len_nonneg q).
  set (ck := u16_to_be (icmpv6_checksum (v6_octets local) (v6_octets destination) 58 (icmpv6_body mtu q [0; 0]))).
  assert (icmpv6_checksum (v6_octets local) (v6_octets destination) 58 (icmpv6_body mtu q ck) = 0) as Hck.
  { apply (icmpv6_checksum_verifies _ _ 58 [2; 0] (u32_to_be mtu ++ q)); try done; bytes_solve. }
  assert (len (feedback_v6 local destination mtu q) = 48 + len q) as Hlen
    by (unfold feedback_v6, icmpv6_body; len_lia).
  unfold feedback_v6 in *. destruct local as [lo], destination as [de]. cbn [v6_octets] in *. unfold ck in Hck. clear ck.
  set (v := icmpv6_checksum lo de 58 (icmpv6_body mtu q [0; 0])) in *. clearbody v.
  split; cbn [v6_octets]; [| |  |lia|..].
  2: { rewrite Hlen. replace (48 + len q - 40) with (8 + len q) by lia. clear. done. }
  all: clear Hlen; destruct_octets lo Hl; destruct_octets de Hd; first [exact Hck|done].
Qed.

(** The largest MTU the message can carry: the field has 16 bits in ICMPv4 and 32 in ICMPv6. *)
Definition mtu_field_max (local : IpAddr) : Z :=
  match local with V4 _ => 2 ^ 16 - 1 | V6 _ => 2 ^ 32 - 1 end.

Lemma build_pmtu_feedback_wp {M} local invoking mtu :
  ip_wf local → bytes invoking → 0 <= mtu →
  wp (build_pmtu_feedback (MctxError:=M) local invoking mtu)
    (λ packet, ∃ parsed, parse_multicast_packet invoking = Ok parsed ∧
       match local, mp_source parsed with
       | V4 l, V4 s => feedback_v4_ok l s invoking mtu packet
       | V6 l, V6 s => feedback_v6_ok l s invoking mtu packet
       | _, _ => False
       end)
    (λ e, match e with
          | PInvalidPacket error => parse_multicast_packet invoking = Err error
          | PInvalidLocalAddress address => address = local ∧
              ∃ parsed, parse_multicast_packet invoking = Ok parsed ∧ same_family local (mp_source parsed) = false
          | PInvalidMtu m => m = mtu ∧ mtu_field_max local < mtu
          | PTransport _ => False
          end).
Proof.
  intros Hl Hb Hm. unfold build_pmtu_feedback. apply wp_bind, wp_map_err.
  pose proof (parse_multicast_packet_wp invoking Hb) as Hp.
  destruct (parse_multicast_packet invoking) as [parsed|e| |]; try done. cbn [wp] in *.
  destruct Hp as (Hs & _). destruct local as [l|l], (mp_source parsed) as [s|s] eqn:Hsrc.
  2, 3: split; [done|]; exists parsed; by rewrite Hsrc.
  - destruct (Z.le_gt_cases mtu U16_MAX) as [Hle|Hgt].
    + rewrite build_icmpv4_eq by done. cbn [wp]. exists parsed. split; [done|]. rewrite Hsrc.
      apply feedback_v4_correct; try done. unfold u16, U16_MAX in *. lia.
    + unfold build_icmpv4_fragmentation_needed. rewrite (proj2 (Z.ltb_lt _ _)) by done. by split; [|unfold mtu_field_max, U16_MAX in *; lia].
  - destruct Hl as [Hl Hlb], Hs as [Hs Hsb]. destruct (Z.le_gt_cases mtu 4294967295) as [Hle|Hgt].
    + rewrite build_icmpv6_eq by done. cbn [wp]. exists parsed. split; [done|]. rewrite Hsrc.
      apply feedback_v6_correct; try done. unfold u32. lia.
    + unfold build_icmpv6_packet_too_big. rewrite (proj2 (Z.ltb_lt _ _)) by done. by split; [|unfold mtu_field_max; lia].
Qed.

(** * Properties *)

(** The limiter without its queue: forget what is not recent, then decide. *)
Fixpoint reference_run (interval flows : Z) (seen : gmap flow Z) (calls : list (Z * flow)) : list bool :=
  match calls with
  | [] => []
  | (now, key) :: calls =>
      let recent := live now interval seen in
      let allowed := bool_decide (recent !! key = None) && (map_len recent <? flows) in
      allowed :: reference_run interval flows (if allowed then <[key := now]> recent else recent) calls
  end.

Lemma run_limiter_reference calls : ∀ t0 l,
  limiter_ok t0 l → calls_in_order t0 calls →
  run_limiter l calls = reference_run (minimum_interval l) (max_tracked_flows l) (last_feedback l) calls.
Proof.
  induction calls as [|[now [source group]] calls IH]; intros t0 l Hok Hord; [done|].
  apply calls_in_order_cons in Hord as (Hnow & Hord & _). cbn [run_limiter reference_run].
  pose proof (allow_spec t0 now l source group Hok Hnow) as Hs.
  destruct (allow now l source group) as [l' allowed]. cbn in Hs. destruct Hs as (Hok' & Hmi & Hmf & Ha & Hlf).
  rewrite (IH now l' Hok' Hord), Hmi, Hmf, Hlf, Ha. reflexivity.
Qed.

(** The feedback rate limiter, with its map and its queue of expirations,
    answers any sequence of calls at non-decreasing instants exactly as the
    reference that only keeps the last feedback of each flow; and two calls
    for the same flow are both allowed only when they are at least the
    interval apart. *)
Theorem feedback_rate_limited t0 interval flows calls :
  calls_in_order t0 calls →
  let answers := run_limiter (new_limiter interval flows) calls in
  answers = reference_run interval flows ∅ calls ∧
  ∀ i j ti tj key, (i < j)%nat → calls !! i = Some (ti, key) → calls !! j = Some (tj, key) →
    answers !! i = Some true → answers !! j = Some true → interval <= tj - ti.
Proof.
  intros Hord answers. pose proof (new_limiter_ok t0 interval flows) as Hok. split.
  - exact (run_limiter_reference calls t0 _ Hok Hord).
  - intros i j ti tj key. exact (run_limiter_spacing calls t0 _ i j ti tj key Hok Hord).
Qed.

Definition demo_flow (n : Z) : flow := (V4 (mkIpv4 10 0 0 n), demo_group).
Definition demo_calls : list (Z * flow) :=
  [(0, demo_flow 1); (5, demo_flow 1); (6, demo_flow 2); (7, demo_flow 3); (12, demo_flow 1)].

Lemma demo_calls_in_order : calls_in_order 0 demo_calls.
Proof. unfold calls_in_order, demo_calls. simpl. repeat constructor; lia. Qed.

Lemma feedback_rate_limited_witness :
  run_limiter (new_limiter 10 2) demo_calls = [true; false; true; false; true] ∧
  reference_run 10 2 ∅ demo_calls = [true; false; true; false; true].
Proof.
  pose proof (proj1 (feedback_rate_limited 0 10 2 demo_calls demo_calls_in_order)) as H.
  split; [rewrite H|]; by vm_compute.
Defined.

(** ** Which packets must not be answered

    An ICMP error is never sent about an ICMP error. The type of an ICMPv4 message is the
    first octet after the header; the ICMPv6 one comes after the chain of extension headers. *)

(** The extension header of type [kind] at [offset] is followed by a header of type [next] at [after]:
    hop-by-hop options, routing and destination options count 8 octets beyond the first 8, authentication
    headers count 4 octets beyond the first 8, and what follows a fragment header can be read in the first
    fragment only (its offset, the upper 13 bits, is zero). *)
Inductive extension (packet : list Z) : Z → Z → Z → Z → Prop :=
| extension_options kind offset next n :
    kind = 0 ∨ kind = 43 ∨ kind = 60 → get packet offset = Some next → get packet (offset + 1) = Some n →
    extension packet kind offset next (offset + 8 + 8 * n)
| extension_fragment offset next hi lo :
    get packet offset = Some next → get packet (offset + 2) = Some hi → get packet (offset + 3) = Some lo →
    (hi * 256 + lo) / 8 = 0 → extension packet 44 offset next (offset + 8)
| extension_authentication offset next n :
    get packet offset = Some next → get packet (offset + 1) = Some n →
    extension packet 51 offset next (offset + 8 + 4 * n).

(** After [n] extension headers from the one of type [kind] at [offset], all within the packet, the
    upper-layer header of type [protocol] is at [start]. *)
Inductive upper_layer (packet : list Z) : nat → Z → Z → Z → Z → Prop :=
| upper_layer_here kind offset :
    kind ∉ [0; 43; 44; 51; 60] → offset <= len packet → upper_layer packet 0 kind offset kind offset
| upper_layer_next n kind offset next after protocol start :
    extension packet kind offset next after → after <= len packet → after <= USIZE_MAX →
    upper_layer packet n next after protocol start → upper_layer packet (S n) kind offset protocol start.

(** The upper layer of an IPv6 packet with fewer than sixteen extension headers. *)
Definition ipv6_carries (packet : list Z) (protocol start : Z) : Prop :=
  ∃ n kind, (n < 16)%nat ∧ get packet 6 = Some kind ∧ upper_layer packet n kind 40 protocol start.

(** The packet is an ICMP error, or it cannot be told that it is not: a fragment of an ICMPv4
    message; an IPv6 packet with no upper layer in reach, or whose ICMPv6 message is cut before its type. *)
Definition must_not_answer (packet : list Z) (parsed : MulticastPacket) : Prop :=
  match mp_source parsed with
  | V4 _ => mp_ip_protocol parsed = 1 ∧
      (mp_fragmented parsed = true ∨
       ∃ first kind, packet !! 0%nat = Some first ∧ get packet (first mod 16 * 4) = Some kind ∧ kind ∈ [3; 4; 5; 11; 12])
  | V6 _ =>
      (∀ protocol start, ¬ ipv6_carries packet protocol start) ∨
      ∃ start, ipv6_carries packet 58 start ∧ ∀ kind, get packet start = Some kind → kind < 128
  end.

Lemma get_byte packet i b : bytes packet → get packet i = Some b → 0 <= b < 256.
Proof. unfold get. intros Hb H. destruct (i <? 0); [done|]. exact (Forall_lookup_1 _ _ _ _ Hb H). Qed.

Lemma fragment_offset hi lo : 0 <= hi < 256 → 0 <= lo < 256 →
  (Z.land (u16_from_be hi lo) 0xfff8 =? 0) = ((hi * 256 + lo) / 8 =? 0).
Proof.
  intros Hh Hl. unfold u16_from_be. set (v := hi * 256 + lo).
  assert (Z.land v 0xfff8 = v / 8 * 8) as ->.
  { assert (0 <= v < 2 ^ 16) as Hv by (unfold v; lia). change 0xfff8 with (Z.land (Z.ones 16) (Z.shiftl (Z.ones 13) 3)).
    rewrite Z.land_assoc, Z.land_ones, (Z.mod_small v) by lia.
    change 8 with (2 ^ 3). rewrite <- Z.shiftr_div_pow2, <- Z.shiftl_mul_pow2 by lia.
    apply Z.bits_inj'. intros n Hn. rewrite Z.land_spec. destruct (Z.lt_ge_cases n 3).
    - rewrite !Z.shiftl_spec_low by lia. by rewrite andb_false_r.
    - rewrite !Z.shiftl_spec_high, Z.shiftr_spec by lia. replace (n - 3 + 3) with n by lia.
      rewrite Z.testbit_ones by lia. destruct (Z.lt_ge_cases (n - 3) 13).
      + rewrite (proj2 (Z.leb_le 0 (n - 3))), (proj2 (Z.ltb_lt (n - 3) 13)) by lia. by rewrite andb_true_r.
      + rewrite (Z.bits_above_log2 v n); [done|lia|].
        destruct (Z.eq_dec v 0) as [->|]; [cbn; lia|]. apply Z.log2_lt_pow2; [lia|].
        eapply Z.lt_le_trans; [apply Hv|]. apply Z.pow_le_mono_r; lia. }
  apply eq_true_iff_eq. rewrite !Z.eqb_eq. lia.
Qed.

(** No extension header can be read. *)
Ltac no_extension :=
  split; [|done]; intros ? ? Hx; inversion Hx; subst; try lia; try congruence; simplify_eq; lia.
(** Read one octet of the packet, or conclude that there is no extension header. *)
Ltac read_octet :=
  match goal with
  | |- context [get ?packet ?i ≫= _] =>
      let Hg := fresh "Hg" in destruct (get packet i) eqn:Hg; cbn [mbind option_bind]; [|no_extension]
  end.

(** A round of the loop follows an extension header, or ends at the upper layer. *)
Lemma header_step_spec packet kind offset : bytes packet → 0 <= offset →
  match header_step packet kind offset with
  | Some (inl (next, after)) => extension packet kind offset next after ∧ 0 <= after <= USIZE_MAX
  | Some (inr answer) => answer = (kind, offset) ∧ (kind ∉ [0; 43; 44; 51; 60]) ∧ offset <= len packet
  | None => (∀ next after, extension packet kind offset next after → USIZE_MAX < after) ∧
      (kind ∉ [0; 43; 44; 51; 60] → len packet < offset)
  end.
Proof.
  intros Hb Ho. unfold header_step.
  destruct (((kind =? 0) || (kind =? 43)) || (kind =? 60)) eqn:Hk1.
  { assert (kind = 0 ∨ kind = 43 ∨ kind = 60) as Hk by lia.
    assert (kind ∉ [0; 43; 44; 51; 60] → False) as Hin by (intros Hn; apply Hn; destruct Hk as [->|[->| ->]]; set_solver).
    do 2 read_octet. pose proof (get_byte _ _ _ Hb Hg0).
    unfold checked_mul. rewrite (proj2 (Z.leb_le _ _)) by (unfold USIZE_MAX; lia).
    cbn [mbind option_bind]. unfold checked_add. destruct (Z.leb_spec (offset + (z0 + 1) * 8) USIZE_MAX); [|no_extension].
    cbn [mbind option_bind]. replace (offset + (z0 + 1) * 8) with (offset + 8 + 8 * z0) in * by lia. split; [by apply extension_options|lia]. }
  assert (kind ≠ 0 ∧ kind ≠ 43 ∧ kind ≠ 60) as (? & ? & ?) by lia.
  destruct (Z.eqb_spec kind 44) as [->|].
  { assert ((44 : Z) ∉ [0; 43; 44; 51; 60] → False) as Hin by (intros Hn; apply Hn; set_solver).
    do 3 read_octet. rewrite fragment_offset by (by eapply get_byte).
    destruct (Z.eqb_spec ((z0 * 256 + z1) / 8) 0); cbn [negb]; [|no_extension].
    unfold checked_add. destruct (Z.leb_spec (offset + 8) USIZE_MAX); cbn [mbind option_bind]; [|no_extension].
    split; [by eapply extension_fragment|lia]. }
  destruct (Z.eqb_spec kind 51) as [->|].
  { assert ((51 : Z) ∉ [0; 43; 44; 51; 60] → False) as Hin by (intros Hn; apply Hn; set_solver).
    do 2 read_octet. pose proof (get_byte _ _ _ Hb Hg0).
    unfold checked_mul. rewrite (proj2 (Z.leb_le _ _)) by (unfold USIZE_MAX; lia).
    cbn [mbind option_bind]. unfold checked_add. destruct (Z.leb_spec (offset + (z0 + 2) * 4) USIZE_MAX); [|no_extension].
    cbn [mbind option_bind]. replace (offset + (z0 + 2) * 4) with (offset + 8 + 4 * z0) in * by lia. split; [by apply extension_authentication|lia]. }
  assert (kind ∉ [0; 43; 44; 51; 60]) as Hin by (rewrite !not_elem_of_cons; split_and!; [done..|apply not_elem_of_nil]).
  destruct (Z.leb_spec offset (len packet)); [done|]. split; [|done]. intros ? ? Hx. inversion Hx; subst; lia.
Qed.

Lemma extension_kind packet kind offset next after :
  extension packet kind offset next after → kind ∈ [0; 43; 44; 51; 60].
Proof. destruct 1 as [? ? ? ? [->|[->| ->]]| |]; set_solver. Qed.
Lemma extension_functional packet kind offset next after next' after' :
  extension packet kind offset next after → extension packet kind offset next' after' → next' = next ∧ after' = after.
Proof. intros H1 H2. inversion H1; subst; inversion H2; subst; try lia; by simplify_eq. Qed.

Lemma upper_layer_loop_spec packet : bytes packet → ∀ rounds kind offset protocol start, 0 <= offset →
  upper_layer_loop rounds packet kind offset = Some (protocol, start) ↔
  ∃ n, (n < rounds)%nat ∧ upper_layer packet n kind offset protocol start.
Proof.
  intros Hb rounds. induction rounds as [|rounds IH]; intros kind offset protocol start Ho; cbn [upper_layer_loop].
  { split; [done|]. intros (n & ? & _). lia. }
  pose proof (header_step_spec packet kind offset Hb Ho) as Hs.
  destruct (header_step packet kind offset) as [[[next after]|answer]|]; cbn [mbind option_bind].
  - destruct Hs as [Hx Ha]. destruct (Z.ltb_spec (len packet) after) as [Hlt|Hge].
    + split; [done|]. intros (n & _ & Hu). inversion Hu; subst; [by apply extension_kind in Hx|].
      destruct (extension_functional _ _ _ _ _ _ _ Hx ltac:(eassumption)) as [-> ->]. lia.
    + rewrite IH by lia. split.
      * intros (n & Hn & Hu). exists (S n). split; [lia|]. eapply upper_layer_next; [done|lia|lia|done].
      * intros (n & Hn & Hu). inversion Hu; subst; [by apply extension_kind in Hx|].
        destruct (extension_functional _ _ _ _ _ _ _ Hx ltac:(eassumption)) as [-> ->]. eexists; split; [|done]. lia.
  - destruct Hs as (-> & Hk & Hl). split.
    + intros [= -> ->]. exists 0%nat. split; [lia|by constructor].
    + intros (n & _ & Hu). inversion Hu; subst; [done|]. destruct Hk. by eapply extension_kind.
  - destruct Hs as [Hx Hk]. split; [done|]. intros (n & _ & Hu). inversion Hu; subst.
    + specialize (Hk ltac:(done)). lia.
    + specialize (Hx _ _ ltac:(eassumption)). lia.
Qed.

Lemma ipv6_upper_layer_spec packet protocol start :
  bytes packet → ipv6_upper_layer packet = Some (protocol, start) ↔ ipv6_carries packet protocol start.
Proof.
  intros Hb. unfold ipv6_upper_layer, ipv6_carries. destruct (get packet 6) as [kind|]; cbn [mbind option_bind].
  - unfold IPV6_HEADER_LEN. rewrite upper_layer_loop_spec by (done || lia). naive_solver.
  - split; [done|]. by intros (n & kind & _ & [=] & _).
Qed.

Lemma suppress_icmp_error_spec {M} packet parsed :
  packet ≠ [] → bytes packet →
  ∃ b, suppress_icmp_error (MctxError:=M) packet parsed = Ok b ∧ (b = true ↔ must_not_answer packet parsed).
Proof.
  intros Hne Hb. unfold suppress_icmp_error, must_not_answer. destruct (mp_source parsed).
  - unfold ICMPV4_PROTOCOL. destruct (Z.eqb_spec (mp_ip_protocol parsed) 1); [|exists false; split; [done|]; naive_solver].
    destruct (mp_fragmented parsed); [exists true; naive_solver|].
    destruct packet as [|p packet]; [done|]. change (idx (p :: packet) 0) with (Ok p : res (PmtuFeedbackError M) Z). cbn [mbind res_bind].
    eexists. split; [done|]. change 0x0f with (Z.ones 4). rewrite Z.land_ones by lia. change (2 ^ 4) with 16.
    destruct (get (p :: packet) (p mod 16 * 4)) as [kind|] eqn:Hg; cbn [is_some_and].
    + rewrite bool_decide_eq_true. split.
      * intros Hk. split; [done|]. right. by exists p, kind.
      * intros [_ [[=]|(? & ? & [= <-] & Hg' & ?)]]. congruence.
    + split; [done|]. intros [_ [[=]|(? & ? & [= <-] & Hg' & ?)]]. congruence.
  - eexists. split; [done|]. pose proof (λ p s, ipv6_upper_layer_spec packet p s Hb) as Hu.
    destruct (ipv6_upper_layer packet) as [[protocol start]|]; cbn [is_none_or].
    + assert (ipv6_carries packet protocol start) as Hc by (by apply Hu).
      rewrite andb_true_iff, Z.eqb_eq. unfold ICMPV6_PROTOCOL. split.
      * intros [-> Hk]. right. exists start. split; [done|]. intros kind Hg. rewrite Hg in Hk. by apply Z.ltb_lt.
      * intros [Hn|(start' & Hc' & Hk)]; [by apply Hn in Hc|]. apply Hu in Hc'. simplify_eq. split; [done|].
        destruct (get packet _) as [kind|] eqn:Hg; [|done]. apply Z.ltb_lt. by apply Hk.
    + split; [|done]. intros _. left. intros p s Hc. by apply Hu in Hc.
Qed.

Lemma parse_multicast_packet_nonempty packet parsed : parse_multicast_packet packet = Ok parsed → packet ≠ [].
Proof. intros Hp ->. vm_compute in Hp. done. Qed.

(** [invoking], which parses to [parsed], is of the sender's family and may be answered, and the limiter lets
    its flow through. *)
Definition may_answer (now : Z) (s s' : PmtuFeedbackSender) (invoking : list Z) (parsed : MulticastPacket) : Prop :=
  parse_multicast_packet invoking = Ok parsed ∧ same_family (ps_local_address s) (mp_source parsed) = true ∧
  ¬ must_not_answer invoking parsed ∧
  allow now (ps_limiter s) (mp_source parsed) (mp_group parsed) = (ps_limiter s', true).

(** [packet] is the answer to a packet that [send] may answer. *)
Definition answers (now : Z) (s s' : PmtuFeedbackSender) (invoking : list Z) (mtu : Z) (packet : list Z) : Prop :=
  ∃ parsed, may_answer now s s' invoking parsed ∧
    match ps_local_address s, mp_source parsed with
    | V4 l, V4 source => feedback_v4_ok l source invoking mtu packet
    | V6 l, V6 source => feedback_v6_ok l source invoking mtu packet
    | _, _ => False
    end.

(** The reason for each outcome of [send]. *)
Definition feedback_outcome {M} (transport : list Z → res M Z) (now : Z) (s s' : PmtuFeedbackSender)
    (invoking : list Z) (mtu : Z) (outcome : res (PmtuFeedbackError M) PmtuFeedbackOutcome) : Prop :=
  match outcome with
  | Ok (Sent bytes_sent) => ∃ packet, answers now s s' invoking mtu packet ∧ transport packet = Ok bytes_sent
  | Ok RateLimited =>
      ∃ parsed, parse_multicast_packet invoking = Ok parsed ∧ same_family (ps_local_address s) (mp_source parsed) = true ∧
        ¬ must_not_answer invoking parsed ∧
        allow now (ps_limiter s) (mp_source parsed) (mp_group parsed) = (ps_limiter s', false)
  | Ok Suppressed =>
      s' = s ∧ ∃ parsed, parse_multicast_packet invoking = Ok parsed ∧
        same_family (ps_local_address s) (mp_source parsed) = true ∧ must_not_answer invoking parsed
  | Ok AddressFamilyUnavailable =>
      s' = s ∧ ∃ parsed, parse_multicast_packet invoking = Ok parsed ∧
        same_family (ps_local_address s) (mp_source parsed) = false
  | Err (PInvalidPacket e) => s' = s ∧ parse_multicast_packet invoking = Err e
  | Err (PInvalidMtu m) => m = mtu ∧ mtu_field_max (ps_local_address s) < mtu ∧ ∃ parsed, may_answer now s s' invoking parsed
  | Err (PTransport e) => ∃ packet, answers now s s' invoking mtu packet ∧ transport packet = Err e
  | Err (PInvalidLocalAddress _) | Panic | Diverge => False
  end.

Lemma send_spec {M} transport now s invoking mtu :
  ip_wf (ps_local_address s) → bytes invoking → 0 <= mtu →
  (∀ packet, returns (transport packet)) →
  let '(s', outcome) := send (MctxError:=M) transport now s invoking mtu in
  returns outcome ∧ ps_local_address s' = ps_local_address s ∧
  feedback_outcome transport now s s' invoking mtu outcome.
Proof.
  intros Hl Hb Hm Ht. unfold send, feedback_outcome. pose proof (parse_multicast_packet_wp invoking Hb) as Hp.
  pose proof (build_pmtu_feedback_wp (M:=M) _ invoking mtu Hl Hb Hm) as Hf.
  destruct (parse_multicast_packet invoking) as [parsed|e| |] eqn:Hparse; cbn [map_err mbind res_bind]; try done.
  destruct (same_family _ _) eqn:Hfam; cbn [negb]; [|split_and!; try done; by eauto]. apply parse_multicast_packet_nonempty in Hparse as Hne.
  destruct (suppress_icmp_error_spec (M:=M) invoking parsed Hne Hb) as (b & -> & Hs). cbn [mbind res_bind].
  destruct b; [split_and!; try done; exists parsed; by rewrite <- Hs|].
  assert (¬ must_not_answer invoking parsed) as Hn by (by rewrite <- Hs).
  destruct (allow _ _ _ _) as [limiter []] eqn:Hal; cbn [negb ps_local_address]; [|split_and!; try done; by eauto].
  assert (may_answer now s (mkSender (ps_local_address s) limiter) invoking parsed) as Hmay by (by split_and!).
  destruct (build_pmtu_feedback _ _ _) as [packet|e| |] eqn:Hbuild; cbn [mbind res_bind]; try done.
  - cbn [wp] in Hf. destruct Hf as (parsed' & [= <-] & Hf). specialize (Ht packet).
    assert (answers now s (mkSender (ps_local_address s) limiter) invoking mtu packet) as Ha by (by exists parsed).
    destruct (transport packet) as [n|e| |] eqn:Htr; cbn [map_err mbind res_bind]; try done; split_and!; try done; by eauto.
  - cbn [wp] in Hf. split_and!; try done. destruct e as [e|a|m|e]; try done; [|destruct Hf; by eauto].
    destruct Hf as (_ & parsed' & [= <-] & Hf). congruence.
Qed.

(** C30: [PmtuFeedbackSender::send] never panics or hangs on any byte sequence
    (while its transport does not). When it reports [Sent], the invoking packet
    parsed and is of the sender's family, its flow was allowed by the rate
    limiter, and the packet was not an ICMP error (types 3, 4, 5, 11 and 12 of ICMPv4; types below 128 of
    ICMPv6, found behind the extension headers), nor a fragment of an ICMPv4 message, nor an IPv6
    packet whose upper layer or ICMPv6 type cannot be read. What was handed to the raw socket is then a correct
    ICMP error from the local address to the packet's source: an IPv4 packet of protocol ICMP with Fragmentation
    Needed (type 3 code 4, at most 576 bytes, header and ICMP checksums verify) or an IPv6 packet of next
    header ICMPv6 with Packet Too Big (type 2, at most 1280 bytes, pseudo-header checksum verifies), of the
    length its header states, with the tunnel MTU and the leading bytes of the invoking packet. Every other outcome
    has its own reason: the limiter refused, the packet must not be answered as above, is of
    the other family or does not parse, the MTU exceeds the message's field (16 bits for IPv4, 32 for
    IPv6), or the transport failed. *)
Theorem feedback_sent_correct {M} transport now s invoking mtu :
  ip_wf (ps_local_address s) → bytes invoking → 0 <= mtu →
  (∀ packet, returns (transport packet)) →
  let '(s', outcome) := send (MctxError:=M) transport now s invoking mtu in
  returns outcome ∧ ps_local_address s' = ps_local_address s ∧
  feedback_outcome transport now s s' invoking mtu outcome.
Proof. apply send_spec. Qed.

Definition demo_sender : PmtuFeedbackSender :=
  mkSender (V4 (mkIpv4 192 0 2 9)) (new_limiter DEFAULT_FEEDBACK_INTERVAL DEFAULT_TRACKED_FLOWS).
Definition demo_transport (packet : list Z) : res unit Z := Ok (len packet).

Lemma demo_transport_returns packet : returns (demo_transport packet).
Proof. done. Qed.
Lemma demo_sender_wf : ip_wf (ps_local_address demo_sender).
Proof. decide_ok. Qed.

Lemma feedback_sent_correct_witness :
  (send demo_transport 0 demo_sender demo_packet 1400).2 = Ok (Sent 48) ∧
  ∃ packet, answers 0 demo_sender (send demo_transport 0 demo_sender demo_packet 1400).1 demo_packet 1400 packet ∧
    len packet = 48.
Proof.
  assert ((send demo_transport 0 demo_sender demo_packet 1400).2 = Ok (Sent 48)) as Hs by by vm_compute.
  split; [exact Hs|].
  pose proof (feedback_sent_correct demo_transport 0 demo_sender demo_packet 1400 demo_sender_wf demo_packet_bytes
    ltac:(lia) demo_transport_returns) as H.
  destruct (send demo_transport 0 demo_sender demo_packet 1400) as [s' outcome]. cbn [fst snd] in *. subst outcome.
  destruct H as (_ & _ & packet & Ha & [= Hl]). by exists packet.
Defined.
