(* ===== verification/Effects.v ===== *)
(** Code that acts on the outside world: a computation takes the world, and
    returns its outcome and the world it leaves.

    The world is a type variable; what the code asks of the operating system and
    of third-party crates are operations on it, given by classes in the files that
    use them. *)

From S2P Require Import Prelude.

Definition M (W E A : Type) : Type := W → res E A * W.

#[export] Instance M_ret {W E} : MRet (M W E) := λ A a w, (Ok a, w).
#[export] Instance M_bind {W E} : MBind (M W E) := λ A B f m w,
  match m w with
  | (Ok a, w) => f a w
  | (Err e, w) => (Err e, w)
  | (Panic, w) => (Panic, w)
  | (Diverge, w) => (Diverge, w)
  end.

(** A pure computation. *)
Definition pure {W E A} (r : res E A) : M W E A := λ w, (r, w).
Definition fail {W E A} (e : E) : M W E A := pure (Err e).
(** An operation that cannot fail. *)
Definition act {W E A} (f : W → A * W) : M W E A := λ w, let '(a, w) := f w in (Ok a, w).
(** [match m { Ok(a) => f(a), Err(e) => h(e) }]. *)
Definition catch {W E F A B} (m : M W E A) (f : A → M W F B) (h : E → M W F B) : M W F B := λ w,
  match m w with
  | (Ok a, w) => f a w
  | (Err e, w) => h e w
  | (Panic, w) => (Panic, w)
  | (Diverge, w) => (Diverge, w)
  end.
(** [m.map_err(f)]. *)
Definition mmap_err {W E F A} (f : E → F) (m : M W E A) : M W F A := λ w, let '(r, w) := m w in (map_err f r, w).

(** [m] from [w] returns (without panic) a value and a world in [Q], or an error and
    a world in [R]. *)
Definition mwp {W E A} (m : M W E A) (Q : A → W → Prop) (R : E → W → Prop) (w : W) : Prop :=
  wp (m w).1 (λ a, Q a (m w).2) (λ e, R e (m w).2).

Section rules.
Context {W E : Type}.
Implicit Types w : W.

Lemma mwp_ret {A} (a : A) (Q : A → W → Prop) (R : E → W → Prop) w : Q a w → mwp (mret a) Q R w.
Proof. done. Qed.
Lemma mwp_pure {A} (r : res E A) (Q : A → W → Prop) (R : E → W → Prop) w :
  wp r (λ a, Q a w) (λ e, R e w) → mwp (pure r) Q R w.
Proof. done. Qed.
Lemma mwp_fail {A} e (Q : A → W → Prop) (R : E → W → Prop) w : R e w → mwp (fail e) Q R w.
Proof. done. Qed.
Lemma mwp_act {A} (f : W → A * W) (Q : A → W → Prop) (R : E → W → Prop) w :
  Q (f w).1 (f w).2 → mwp (act f) Q R w.
Proof. unfold mwp, act. by destruct (f w). Qed.
Lemma mwp_bind {A B} (m : M W E A) (f : A → M W E B) Q R w :
  mwp m (λ a w', mwp (f a) Q R w') R w → mwp (m ≫= f) Q R w.
Proof. unfold mwp, mbind, M_bind. by destruct (m w) as [[a|e| |] w']. Qed.
Lemma mwp_catch {F A B} (m : M W F A) (f : A → M W E B) h Q R w :
  mwp m (λ a w', mwp (f a) Q R w') (λ e w', mwp (h e) Q R w') w → mwp (catch m f h) Q R w.
Proof. unfold mwp, catch. by destruct (m w) as [[a|e| |] w']. Qed.
Lemma mwp_map_err {F A} (f : F → E) (m : M W F A) Q R w :
  mwp m Q (λ e w', R (f e) w') w → mwp (mmap_err f m) Q R w.
Proof. unfold mwp, mmap_err. by destruct (m w) as [[a|e| |] w']. Qed.
Lemma mwp_mono {A} (m : M W E A) (Q Q' : A → W → Prop) (R R' : E → W → Prop) w :
  mwp m Q R w → (∀ a w', Q a w' → Q' a w') → (∀ e w', R e w' → R' e w') → mwp m Q' R' w.
Proof. unfold mwp. intros H HQ HR. eapply wp_mono; [done|..]; eauto. Qed.
Lemma mwp_ok_inv {A} (m : M W E A) Q R w a w' : mwp m Q R w → m w = (Ok a, w') → Q a w'.
Proof. unfold mwp. by intros H Hm; rewrite Hm in H. Qed.
Lemma mwp_and {A} (m : M W E A) (Q Q' : A → W → Prop) (R R' : E → W → Prop) w :
  mwp m Q R w → mwp m Q' R' w → mwp m (λ a w, Q a w ∧ Q' a w) (λ e w, R e w ∧ R' e w) w.
Proof. unfold mwp. by destruct (m w) as [[a|e| |] w']. Qed.
(** The outcome and the world a computation leaves are those it computes. *)
Lemma mwp_known {A} (m : M W E A) Q R w :
  mwp m Q R w → mwp m (λ a w', Q a w' ∧ m w = (Ok a, w')) (λ e w', R e w' ∧ m w = (Err e, w')) w.
Proof. unfold mwp. by destruct (m w) as [[a|e| |] w']. Qed.
(** A computation that comes to the same as another one. *)
Lemma mwp_run {A} (m m' : M W E A) Q R w w' : m w = m' w' → mwp m' Q R w' → mwp m Q R w.
Proof. unfold mwp. by intros ->. Qed.
End rules.

(** ** Program state beside the world

    Code that keeps variables [D] of its own while it acts on the world [W]. *)
Section variables.
Context {D W E : Type}.

Definition lift {A} (m : M W E A) : M (D * W) E A := λ '(d, w), let '(r, w) := m w in (r, (d, w)).
Definition gets {A} (f : D → A) : M (D * W) E A := λ '(d, w), (Ok (f d), (d, w)).
Definition modify (f : D → D) : M (D * W) E unit := λ '(d, w), (Ok tt, (f d, w)).

Lemma mwp_lift {A} (m : M W E A) (Q : A → D * W → Prop) (R : E → D * W → Prop) d w :
  mwp m (λ a w', Q a (d, w')) (λ e w', R e (d, w')) w → mwp (lift m) Q R (d, w).
Proof. unfold mwp, lift. by destruct (m w) as [[] ?]. Qed.
Lemma mwp_gets {A} (f : D → A) (Q : A → D * W → Prop) (R : E → D * W → Prop) d w :
  Q (f d) (d, w) → mwp (gets f) Q R (d, w).
Proof. done. Qed.
Lemma mwp_modify (f : D → D) (Q : unit → D * W → Prop) (R : E → D * W → Prop) d w :
  Q tt (f d, w) → mwp (modify f) Q R (d, w).
Proof. done. Qed.
End variables.

(** One step of a proof about a sequence of effects. *)
Ltac mwp_step :=
  lazymatch goal with
  | |- mwp (mbind _ _) _ _ _ => apply mwp_bind
  | |- mwp (mret _) _ _ _ => apply mwp_ret
  | |- mwp (fail _) _ _ _ => apply mwp_fail
  | |- mwp (pure _) _ _ _ => apply mwp_pure
  | |- mwp (catch _ _ _) _ _ _ => apply mwp_catch
  | |- mwp (lift _) _ _ (_, _) => apply mwp_lift
  | |- mwp (gets _) _ _ (_, _) => apply mwp_gets
  | |- mwp (modify _) _ _ (_, _) => apply mwp_modify
  end.
