(* ===== verification/Udp.v ===== *)
(** [src/udp.rs]: the UDP socket of a tunnel, with the ECN field of each datagram.

    The socket of the standard library, [socket2], [quinn_udp] and the poller are the class [UdpSystem]; a socket is its descriptor.
    The variants for Linux are modelled. *)

From stdpp Require Import strings.
From S2P Require Import Prelude Net Effects Protocol Ecn.

Definition RELAY_TUNNEL_SOCKET_BUFFER_TARGET : Z := 4 * 1024 * 1024.

(** [quinn_udp::EcnCodepoint], and what [quinn_udp] says of a datagram received or to be sent. *)
Inductive QuinnEcn := QEct0 | QEct1 | QCe.
Record RecvMeta := mkRecvMeta { meta_addr : SocketAddr; meta_len : Z; meta_stride : Z; meta_ecn : option QuinnEcn }.
Record Transmit := mkTransmit { tx_destination : SocketAddr; tx_ecn : option QuinnEcn; tx_contents : list Z; tx_segment_size : option Z; tx_src_ip : option IpAddr }.

(** [S] is [UdpSocketState], [X] the errors of the system. *)
Class UdpSystem (W X S : Type) := {
  udp_bind : SocketAddr → M W X Z;
  udp_local_addr : Z → M W X SocketAddr;
  recv_buffer_size : Z → M W X Z;
  send_buffer_size : Z → M W X Z;
  set_recv_buffer_size : Z → Z → M W X unit;
  set_send_buffer_size : Z → Z → M W X unit;
  new_socket_state : Z → M W X S;
  may_fragment : S → bool;
  gro_segments : S → Z;
  (** [setsockopt(SOL_UDP, UDP_GRO, 0)]. *)
  clear_gro : Z → M W X unit;
  recv_tos_v4 : Z → M W X bool;
  recv_tclass_v6 : Z → M W X bool;
  (** The bytes that were written to a buffer of the given length. *)
  plain_recv_from : Z → Z → M W X (list Z * SocketAddr);
  plain_send_to : Z → list Z → SocketAddr → M W X Z;
  (** The number of datagrams, the first entry of the metadata, and the buffer. *)
  state_recv : S → Z → Z → M W X (Z * RecvMeta * list Z);
  state_try_send : S → Z → Transmit → M W X unit;
  poller_add : Z → Z → M W X unit;
  poller_modify : Z → Z → M W X unit;
  poller_delete : Z → M W X unit
}.

Inductive UdpError (X : Type) := OsError (error : X) | InvalidData (text : string) | Unsupported (text : string).
Arguments OsError {X} error.
Arguments InvalidData {X} text.
Arguments Unsupported {X} text.

Inductive SocketBackend (S : Type) := StandardBackend | EcnBackend (state : S).
Arguments StandardBackend {S}.
Arguments EcnBackend {S} state.
Record SocketBufferSizes := mkBufferSizes { buf_receive : Z; buf_send : Z }.
Record AmtUdpSocket (S : Type) := mkUdpSocket { us_socket : Z; us_backend : SocketBackend S; us_buffers : SocketBufferSizes }.
Arguments mkUdpSocket {S}.
Arguments us_socket {S}.
Arguments us_backend {S}.
Arguments us_buffers {S}.
Record AmtUdpRegistration := mkRegistration { reg_socket : Z; reg_key : Z }.

Definition from_quinn_ecn (ecn : option QuinnEcn) : EcnCodepoint :=
  match ecn with Some QEct0 => Ect0 | Some QEct1 => Ect1 | Some QCe => Ce | None => NotEct end.
Definition to_quinn_ecn (ecn : EcnCodepoint) : option QuinnEcn :=
  match ecn with NotEct => None | Ect0 => Some QEct0 | Ect1 => Some QEct1 | Ce => Some QCe end.

Section operations.
Context {W X S : Type} `{!UdpSystem W X S}.
(** [?] on a call of the system. *)
Definition os {A} (m : M W X A) : M W (UdpError X) A := mmap_err OsError m.

Definition configure_socket_buffers (socket : Z) (target : option Z) : M W (UdpError X) SocketBufferSizes :=
  _ ← match target with
      | Some target =>
          receive ← os (recv_buffer_size socket);
          _ ← (if receive <? target then catch (set_recv_buffer_size socket target) (λ _, mret tt) (λ _, mret tt) else mret tt);
          send ← os (send_buffer_size socket);
          if send <? target then catch (set_send_buffer_size socket target) (λ _, mret tt) (λ _, mret tt) else mret tt
      | None => mret tt
      end;
  receive ← os (recv_buffer_size socket);
  send ← os (send_buffer_size socket);
  mret (mkBufferSizes receive send).
Definition disable_receive_coalescing (socket : Z) (state : S) : M W (UdpError X) unit :=
  if gro_segments state <=? 1 then mret tt else os (clear_gro socket).
Definition configure_tunnel_socket (socket : Z) : M W (UdpError X) S :=
  state ← os (new_socket_state socket);
  if may_fragment state
  then fail (Unsupported "the operating system cannot enforce non-fragmenting AMT UDP transmission")
  else
    _ ← disable_receive_coalescing socket state;
    mret state.
Definition verify_ecn_receive (socket : Z) : M W (UdpError X) unit :=
  address ← os (udp_local_addr socket);
  enabled ← match address with
            | SocketAddrV4 _ _ => os (recv_tos_v4 socket)
            | SocketAddrV6 _ _ _ _ => os (recv_tclass_v6 socket)
            end;
  if (enabled : bool) then mret tt else fail (Unsupported "the operating system did not enable ECN receive metadata").
Definition bind_inner (address : SocketAddr) (require_ecn : bool) (buffer_target : option Z) : M W (UdpError X) (AmtUdpSocket S) :=
  socket ← os (udp_bind address);
  buffers ← configure_socket_buffers socket buffer_target;
  state ← configure_tunnel_socket socket;
  backend ← (if require_ecn then _ ← verify_ecn_receive socket; mret (EcnBackend state) else mret StandardBackend);
  mret (mkUdpSocket socket backend buffers).
Definition bind (address : SocketAddr) (require_ecn : bool) : M W (UdpError X) (AmtUdpSocket S) := bind_inner address require_ecn None.
Definition bind_relay (address : SocketAddr) (require_ecn : bool) : M W (UdpError X) (AmtUdpSocket S) :=
  bind_inner address require_ecn (Some RELAY_TUNNEL_SOCKET_BUFFER_TARGET).
Definition local_addr (s : AmtUdpSocket S) : M W (UdpError X) SocketAddr := os (udp_local_addr (us_socket s)).
Definition register_readable (s : AmtUdpSocket S) (key : Z) : M W (UdpError X) AmtUdpRegistration :=
  _ ← os (poller_add (us_socket s) key);
  mret (mkRegistration (us_socket s) key).
Definition rearm (r : AmtUdpRegistration) : M W (UdpError X) unit := os (poller_modify (reg_socket r) (reg_key r)).
(** [Drop]. *)
Definition drop_registration (r : AmtUdpRegistration) : M W (UdpError X) unit :=
  catch (poller_delete (reg_socket r)) (λ _, mret tt) (λ _, mret tt).

(** The datagram in a buffer of [capacity] bytes, its sender and its mark. *)
Definition recv_from (s : AmtUdpSocket S) (capacity : Z) : M W (UdpError X) (list Z * SocketAddr * EcnCodepoint) :=
  match us_backend s with
  | StandardBackend =>
      '(datagram, peer) ← os (plain_recv_from (us_socket s) capacity);
      mret (datagram, peer, NotEct)
  | EcnBackend state =>
      '(count, metadata, buffer) ← os (state_recv state (us_socket s) capacity);
      if negb (count =? 1) then fail (InvalidData "UDP receive returned an unexpected datagram count")
      else if (capacity <? meta_len metadata) || negb (meta_stride metadata =? meta_len metadata)
      then fail (InvalidData "coalesced or truncated UDP datagram reached the AMT control socket")
      else mret (take (Z.to_nat (meta_len metadata)) buffer, meta_addr metadata, from_quinn_ecn (meta_ecn metadata))
  end.
Definition send_to (s : AmtUdpSocket S) (datagram : list Z) (destination : SocketAddr) (ecn : EcnCodepoint) : M W (UdpError X) Z :=
  match us_backend s with
  | StandardBackend =>
      if bool_decide (ecn = NotEct) then os (plain_send_to (us_socket s) datagram destination)
      else fail (Unsupported "cannot send an ECN-marked datagram on a compatibility-mode AMT socket")
  | EcnBackend state =>
      _ ← os (state_try_send state (us_socket s) (mkTransmit destination (to_quinn_ecn ecn) datagram None None));
      mret (len datagram)
  end.
End operations.

(** * A tunnel over two sockets *)

(** What the code relies on: calls return; a plain send and a marked one put the datagram, with its mark, on the
    wire; and a receive takes the next one from it, whole if the buffer has room. [wire] is what is under way to a socket. *)
Class UdpSystemOk {W X S} `{!UdpSystem W X S} (wire : W → Z → list (list Z * SocketAddr * option QuinnEcn)) (route : SocketAddr → option Z)
    (name : Z → SocketAddr) : Prop := {
  (** Binding and options return; marks are received where the option says so. *)
  bind_returns address w : mwp (udp_bind address) (λ _ _, True) (λ _ _, True) w;
  local_addr_returns socket w : mwp (udp_local_addr socket) (λ _ _, True) (λ _ _, True) w;
  recv_size_returns socket w : mwp (recv_buffer_size socket) (λ _ _, True) (λ _ _, True) w;
  send_size_returns socket w : mwp (send_buffer_size socket) (λ _ _, True) (λ _ _, True) w;
  set_recv_returns socket n w : mwp (set_recv_buffer_size socket n) (λ _ _, True) (λ _ _, True) w;
  set_send_returns socket n w : mwp (set_send_buffer_size socket n) (λ _ _, True) (λ _ _, True) w;
  state_returns socket w : mwp (new_socket_state socket) (λ _ _, True) (λ _ _, True) w;
  gro_returns socket w : mwp (clear_gro socket) (λ _ _, True) (λ _ _, True) w;
  tos_returns socket w : mwp (recv_tos_v4 socket) (λ _ _, True) (λ _ _, True) w;
  tclass_returns socket w : mwp (recv_tclass_v6 socket) (λ _ _, True) (λ _ _, True) w;
  plain_send_wire socket datagram destination w :
    mwp (plain_send_to socket datagram destination)
      (λ n w', n = len datagram ∧ ∀ s, wire w' s = wire w s ++ if bool_decide (route destination = Some s) then [(datagram, name socket, None)] else [])
      (λ _ w', wire w' = wire w) w;
  state_send_wire state socket t w :
    mwp (state_try_send state socket t)
      (λ _ w', ∀ s, wire w' s = wire w s ++ if bool_decide (route (tx_destination t) = Some s) then [(tx_contents t, name socket, tx_ecn t)] else [])
      (λ _ w', wire w' = wire w) w;
  plain_recv_wire socket capacity w :
    mwp (plain_recv_from socket capacity)
      (λ '(datagram, peer) w', ∃ d ecn, wire w socket = (d, peer, ecn) :: wire w' socket ∧ datagram = take (Z.to_nat capacity) d)
      (λ _ w', wire w' = wire w) w;
  state_recv_wire state socket capacity w :
    mwp (state_recv state socket capacity)
      (λ '(count, m, buffer) w', count = 1 → meta_stride m = meta_len m → meta_len m <= capacity →
         wire w socket = (take (Z.to_nat (meta_len m)) buffer, meta_addr m, meta_ecn m) :: wire w' socket)
      (λ _ w', wire w' = wire w) w
}.

Section properties.
Context {W X S : Type} `{!UdpSystem W X S} (wire : W → Z → list (list Z * SocketAddr * option QuinnEcn)) (route : SocketAddr → option Z)
  (name : Z → SocketAddr) `{!UdpSystemOk wire route name}.

Lemma ecn_marks_kept ecn : from_quinn_ecn (to_quinn_ecn ecn) = ecn.
Proof. by destruct ecn. Qed.
(** A call of the system returns. *)
Lemma mwp_os {A} (m : M W X A) (Q : A → W → Prop) (R : UdpError X → W → Prop) w :
  mwp m (λ _ _, True) (λ _ _, True) w → (∀ a w', Q a w') → (∀ e w', R e w') → mwp (os m) Q R w.
Proof. unfold os. intros H HQ HR. apply mwp_map_err. eapply mwp_mono; [exact H|auto|auto]. Qed.
Lemma configure_socket_buffers_wp socket target w : mwp (configure_socket_buffers socket target) (λ _ _, True) (λ _ _, True) w.
Proof.
  assert (∀ (m : M W X unit) w, mwp m (λ _ _, True) (λ _ _, True) w →
    mwp (catch m (λ _, mret tt) (λ _, mret tt) : M W (UdpError X) unit) (λ _ _, True) (λ _ _, True) w) as Hset.
  { intros m w' Hm. mwp_step. eapply mwp_mono; [exact Hm|done|done]. }
  unfold configure_socket_buffers. mwp_step. eapply (mwp_mono _ (λ _ _, True) _ (λ _ _, True)); [| |done].
  - destruct target as [t|]; [|by mwp_step]. mwp_step. apply mwp_os; [apply recv_size_returns| |done]. intros n w1. mwp_step.
    eapply (mwp_mono _ (λ _ _, True) _ (λ _ _, True)); [destruct (n <? t); [apply Hset, set_recv_returns|by mwp_step]| |done].
    intros _ w2 _. mwp_step. apply mwp_os; [apply send_size_returns| |done]. intros k w3. destruct (k <? t); [apply Hset, set_send_returns|by mwp_step].
  - intros _ w1 _. mwp_step. apply mwp_os; [apply recv_size_returns| |done]. intros n w2. mwp_step. apply mwp_os; [apply send_size_returns| |done]. done.
Qed.

Lemma verify_ecn_receive_wp socket w : mwp (verify_ecn_receive socket) (λ _ _, True) (λ _ _, True) w.
Proof.
  unfold verify_ecn_receive. mwp_step. apply mwp_os; [apply local_addr_returns| |done]. intros local w1. mwp_step.
  destruct local; (apply mwp_os; [first [apply tos_returns|apply tclass_returns]|intros [] w2; by mwp_step|done]).
Qed.

(** a socket that is bound never fragments what it sends: the system says so for its state, or binding fails; and it reports the marks of
    datagrams exactly when they were asked for. *)
Theorem tunnel_socket_bound address require_ecn target w :
  mwp (bind_inner address require_ecn target)
    (λ s _, if (require_ecn : bool) then ∃ state, us_backend s = EcnBackend state ∧ may_fragment state = false else us_backend s = StandardBackend)
    (λ _ _, True) w.
Proof.
  unfold bind_inner. mwp_step. apply mwp_os; [apply bind_returns| |done]. intros socket w1. mwp_step.
  eapply mwp_mono; [apply configure_socket_buffers_wp| |done]. intros buffers w2 _. mwp_step.
  eapply (mwp_mono _ (λ state _, may_fragment state = false) _ (λ _ _, True)); [| |done].
  - unfold configure_tunnel_socket. mwp_step. apply mwp_os; [apply state_returns| |done]. intros state w3.
    destruct (may_fragment state) eqn:Hf; [by mwp_step|]. mwp_step. unfold disable_receive_coalescing.
    destruct (gro_segments state <=? 1); [mwp_step; by mwp_step|]. apply mwp_os; [apply gro_returns| |done]. intros _ w4. by mwp_step.
  - intros state w3 Hf. mwp_step. destruct require_ecn; [|mwp_step; by mwp_step]. mwp_step.
    eapply mwp_mono; [apply verify_ecn_receive_wp| |done]. intros _ w4 _. mwp_step. mwp_step. by exists state.
Qed.

(** what one tunnel socket sends arrives at the other as it was sent: the next datagram received is the one sent, whole, from the
    sender's address and, on a socket that reports marks, with its mark. A marked datagram is not sent on a socket that cannot mark it. *)
Theorem marked_datagram_delivered (a b : AmtUdpSocket S) datagram destination ecn capacity w :
  route destination = Some (us_socket b) → wire w (us_socket b) = [] → len datagram <= capacity →
  mwp (_ ← send_to a datagram destination ecn; recv_from b capacity)
    (λ '(d, peer, mark) _, d = datagram ∧ peer = name (us_socket a) ∧ mark = match us_backend b with StandardBackend => NotEct | EcnBackend _ => ecn end)
    (λ _ _, True) w.
Proof.
  intros Hroute Hempty Hlen. mwp_step.
  eapply (mwp_mono _ (λ _ w', wire w' (us_socket b) = [(datagram, name (us_socket a), to_quinn_ecn ecn)]) _ (λ _ _, True)); [| |done].
  - unfold send_to. destruct (us_backend a) as [|state].
    + case_bool_decide as He; [|by mwp_step]. subst ecn. apply mwp_map_err. eapply mwp_mono; [apply plain_send_wire| |done].
      intros n w1 [_ H]. by rewrite H, Hempty, bool_decide_eq_true_2.
    + mwp_step. apply mwp_map_err. eapply mwp_mono; [apply state_send_wire| |done]. intros [] w1 H. mwp_step. by rewrite H, Hempty, bool_decide_eq_true_2.
  - intros _ w1 Hw. unfold recv_from. destruct (us_backend b) as [|state].
    + mwp_step. apply mwp_map_err. eapply mwp_mono; [apply plain_recv_wire| |done]. intros [d peer] w2 (d0 & e & Hq & ->). rewrite Hw in Hq.
      injection Hq as <- <- <- _. mwp_step. split; [|done]. apply take_ge. unfold len in Hlen. lia.
    + mwp_step. apply mwp_map_err. eapply mwp_mono; [apply state_recv_wire| |done]. intros [[count m] buffer] w2 H.
      destruct (Z.eqb_spec count 1); cbn [negb]; [|by mwp_step]. destruct (Z.ltb_spec capacity (meta_len m)); cbn [orb]; [by mwp_step|].
      destruct (Z.eqb_spec (meta_stride m) (meta_len m)); cbn [negb]; [|by mwp_step]. mwp_step. rewrite Hw in H.
      specialize (H ltac:(done) ltac:(done) ltac:(lia)). injection H as H1 H2 H3 _. rewrite <-H1, <-H2, <-H3. by rewrite ecn_marks_kept.
Qed.
End properties.

(** * Witness *)

(** Two sockets, 0 and 1, and what is under way to each. *)
Definition demo_item : Type := list Z * SocketAddr * option QuinnEcn.
Definition demo_net : Type := list demo_item * list demo_item.
Definition demo_name (socket : Z) : SocketAddr := SocketAddrV4 Ipv4_LOCALHOST (2000 + socket).
Definition demo_route (destination : SocketAddr) : option Z :=
  if bool_decide (destination = demo_name 0) then Some 0 else if bool_decide (destination = demo_name 1) then Some 1 else None.
Definition demo_wire (w : demo_net) (socket : Z) : list demo_item := if socket =? 0 then w.1 else if socket =? 1 then w.2 else [].
Definition demo_put (destination : SocketAddr) (item : demo_item) (w : demo_net) : demo_net :=
  match demo_route destination with
  | Some 0 => (w.1 ++ [item], w.2)
  | Some _ => (w.1, w.2 ++ [item])
  | None => w
  end.
Definition demo_get (socket : Z) (w : demo_net) : option (demo_item * demo_net) :=
  match demo_wire w socket with
  | item :: rest => Some (item, if socket =? 0 then (rest, w.2) else (w.1, rest))
  | [] => None
  end.
#[export] Instance demo_udp : UdpSystem demo_net string unit := {|
  udp_bind _ w := (Ok 0, w);
  udp_local_addr socket w := (Ok (demo_name socket), w);
  recv_buffer_size _ w := (Ok 212992, w);
  send_buffer_size _ w := (Ok 212992, w);
  set_recv_buffer_size _ _ w := (Ok tt, w);
  set_send_buffer_size _ _ w := (Ok tt, w);
  new_socket_state _ w := (Ok tt, w);
  may_fragment _ := false;
  gro_segments _ := 64;
  clear_gro _ w := (Ok tt, w);
  recv_tos_v4 _ w := (Ok true, w);
  recv_tclass_v6 _ w := (Ok true, w);
  plain_recv_from socket capacity w :=
    match demo_get socket w with Some ((d, peer, _), w) => (Ok (take (Z.to_nat capacity) d, peer), w) | None => (Err "would block"%string, w) end;
  plain_send_to socket datagram destination w := (Ok (len datagram), demo_put destination (datagram, demo_name socket, None) w);
  state_recv _ socket capacity w :=
    match demo_get socket w with
    | Some ((d, peer, ecn), w) => (Ok (1, mkRecvMeta peer (len d) (len d) ecn, d), w)
    | None => (Err "would block"%string, w)
    end;
  state_try_send _ socket t w := (Ok tt, demo_put (tx_destination t) (tx_contents t, demo_name socket, tx_ecn t) w);
  poller_add _ _ w := (Ok tt, w);
  poller_modify _ _ w := (Ok tt, w);
  poller_delete _ w := (Ok tt, w)
|}.
Lemma demo_put_wire destination item w s :
  demo_wire (demo_put destination item w) s = demo_wire w s ++ if bool_decide (demo_route destination = Some s) then [item] else [].
Proof.
  unfold demo_wire, demo_put, demo_route. destruct (bool_decide (destination = demo_name 0)); [|destruct (bool_decide (destination = demo_name 1))];
    destruct (Z.eqb_spec s 0) as [->|]; try (destruct (Z.eqb_spec s 1) as [->|]); cbn; rewrite ?app_nil_r; try done;
    rewrite bool_decide_eq_false_2 by (intros [= ?]; congruence); by rewrite ?app_nil_r.
Qed.
Lemma demo_get_wire socket w item w' : demo_get socket w = Some (item, w') → demo_wire w socket = item :: demo_wire w' socket.
Proof.
  unfold demo_get, demo_wire. destruct (Z.eqb_spec socket 0).
  - destruct w.1; [done|]. by intros [= <- <-].
  - destruct (Z.eqb_spec socket 1); [|done]. destruct w.2; [done|]. by intros [= <- <-].
Qed.
#[export] Instance demo_udp_ok : UdpSystemOk demo_wire demo_route demo_name.
Proof.
  split; try done.
  - intros socket d destination w. split; [done|]. intros s. apply demo_put_wire.
  - intros state socket t w s. apply demo_put_wire.
  - intros socket capacity w. unfold mwp. cbn. destruct (demo_get socket w) as [[[[d peer] ecn] w']|] eqn:Hg; [|done]. cbn.
    exists d, ecn. split; [by apply demo_get_wire|done].
  - intros state socket capacity w. unfold mwp. cbn. destruct (demo_get socket w) as [[[[d peer] ecn] w']|] eqn:Hg; [|done]. cbn.
    intros _ _ _. rewrite take_ge by (unfold len; lia). by apply demo_get_wire.
Qed.

Lemma marked_datagram_delivered_witness :
  let a := mkUdpSocket 0 (EcnBackend tt) (mkBufferSizes 1 1) in
  let b := mkUdpSocket 1 (EcnBackend tt) (mkBufferSizes 1 1) in
  ((_ ← send_to a [101; 99; 110] (demo_name 1) Ect1; recv_from b 16) (([], []) : demo_net)).1 = Ok ([101; 99; 110], demo_name 0, Ect1) ∧
  mwp (_ ← send_to a [101; 99; 110] (demo_name 1) Ect1; recv_from b 16)
    (λ '(d, peer, mark) _, d = [101; 99; 110] ∧ peer = demo_name 0 ∧ mark = Ect1) (λ _ _, True) (([], []) : demo_net).
Proof.
  cbv zeta. split; [by vm_compute|].
  exact (marked_datagram_delivered demo_wire demo_route demo_name (mkUdpSocket 0 (EcnBackend tt) (mkBufferSizes 1 1)) (mkUdpSocket 1 (EcnBackend tt) (mkBufferSizes 1 1))
    [101; 99; 110] (demo_name 1) Ect1 16 (([], []) : demo_net) ltac:(by vm_compute) ltac:(done) ltac:(by vm_compute)).
Defined.
