(* ===== verification/Text.v ===== *)
(** Rust's [String] and [str] as far as the sources use them: a string is the
    list of its UTF-8 bytes.

    [utf8_valid] is [std::str::from_utf8(..).is_ok()]; the rest are the methods
    that the DNS code calls, all of which act on ASCII characters only and so on
    single bytes. *)

From S2P Require Import Prelude.

Definition DOT : Z := 46.

(** * Validation *)

Definition in_range (a b x : Z) : bool := (a <=? x) && (x <=? b).
(** A continuation byte. *)
Definition cont (b : Z) : bool := in_range 0x80 0xbf b.

Fixpoint utf8_valid (s : list Z) : bool :=
  match s with
  | [] => true
  | a :: s1 =>
      if a <? 0x80 then utf8_valid s1
      else
        match s1 with
        | [] => false
        | b :: s2 =>
            if in_range 0xc2 0xdf a then cont b && utf8_valid s2
            else
              match s2 with
              | [] => false
              | c :: s3 =>
                  if in_range 0xe0 0xef a then
                    in_range (if a =? 0xe0 then 0xa0 else 0x80) (if a =? 0xed then 0x9f else 0xbf) b
                    && cont c && utf8_valid s3
                  else
                    match s3 with
                    | [] => false
                    | d :: s4 =>
                        in_range 0xf0 0xf4 a
                        && in_range (if a =? 0xf0 then 0x90 else 0x80) (if a =? 0xf4 then 0x8f else 0xbf) b
                        && cont c && cont d && utf8_valid s4
                    end
              end
        end
  end.

(** [s.is_char_boundary(i)], and [&s[..i]], which panics elsewhere. *)
Definition is_char_boundary (s : list Z) (i : Z) : bool :=
  (i =? 0) || (i =? len s) || match get s i with Some b => negb (cont b) | None => false end.
Definition str_to {E} (s : list Z) (i : Z) : res E (list Z) :=
  if is_char_boundary s i then slice_to s i else Panic.

(** * Methods *)

(** [s.trim_end_matches('.')]. *)
Fixpoint trim_dots (s : list Z) : list Z :=
  match s with
  | [] => []
  | c :: s =>
      match trim_dots s with
      | [] => if c =? DOT then [] else [c]
      | t => c :: t
      end
  end.

(** [s.split('.')]. *)
Fixpoint split_dots (s : list Z) : list (list Z) :=
  match s with
  | [] => [[]]
  | c :: s =>
      if c =? DOT then [] :: split_dots s
      else match split_dots s with
           | label :: labels => (c :: label) :: labels
           | [] => [[c]]
           end
  end.

(** [labels.join(".")]. *)
Definition join_dots (labels : list (list Z)) : list Z :=
  match labels with
  | [] => []
  | label :: labels => label ++ (labels ≫= cons DOT)
  end.

(** [u8::to_ascii_lowercase], [str::to_ascii_lowercase] and
    [str::eq_ignore_ascii_case]. *)
Definition lower (b : Z) : Z := if in_range 65 90 b then b + 32 else b.
Definition to_ascii_lowercase (s : list Z) : list Z := lower <$> s.
Definition eq_ignore_ascii_case (s t : list Z) : bool :=
  bool_decide (to_ascii_lowercase s = to_ascii_lowercase t).

(** [s.ends_with(suffix)]. *)
Definition ends_with (s suffix : list Z) : bool :=
  (len suffix <=? len s) && bool_decide (drop (length s - length suffix) s = suffix).

(** [format!("{}", b)] and [format!("{:x}", b)] of a [u8]. *)
Definition dec_digits (b : Z) : list Z :=
  if b <? 10 then [48 + b]
  else if b <? 100 then [48 + b / 10; 48 + b mod 10]
  else [48 + b / 100; 48 + b / 10 mod 10; 48 + b mod 10].
Definition hex_digit (n : Z) : Z := if n <? 10 then 48 + n else 87 + n.
Definition hex_digits (b : Z) : list Z :=
  if b <? 16 then [hex_digit b] else [hex_digit (b / 16); hex_digit (b mod 16)].

(** An ASCII literal. *)
Definition ascii_bytes (s : string) : list Z := Z.of_nat <$> (Ascii.nat_of_ascii <$> String.list_ascii_of_string s).

(** * Lemmas *)

Definition no_dot (s : list Z) : Prop := Forall (λ c, c ≠ DOT) s.
#[export] Instance no_dot_dec s : Decision (no_dot s).
Proof. unfold no_dot. apply _. Defined.

Lemma split_dots_nonempty s : split_dots s ≠ [].
Proof. destruct s as [|c s]; simpl; [done|]. destruct (c =? DOT); [done|]. by destruct (split_dots s). Qed.

Lemma split_dots_no_dot s : Forall no_dot (split_dots s).
Proof.
  induction s as [|c s IH]; simpl; [by repeat constructor|]. destruct (Z.eqb_spec c DOT); [constructor; [constructor|done]|].
  destruct (split_dots s) as [|l ls]; [by repeat constructor|]. apply Forall_cons in IH as [? ?].
  constructor; [by constructor|done].
Qed.

Lemma join_split_dots s : join_dots (split_dots s) = s.
Proof.
  induction s as [|c s IH]; simpl; [done|]. pose proof (split_dots_nonempty s) as Hne.
  destruct (Z.eqb_spec c DOT) as [->|Hc].
  - destruct (split_dots s) as [|l ls]; [done|]. by rewrite <- IH.
  - destruct (split_dots s) as [|l ls]; [done|]. by rewrite <- IH.
Qed.

Lemma split_dots_app l s : no_dot l → split_dots (l ++ DOT :: s) = l :: split_dots s.
Proof.
  induction 1 as [|c l Hc Hl IH]; simpl; [done|]. rewrite (proj2 (Z.eqb_neq _ _)) by done. by rewrite IH.
Qed.
Lemma split_dots_single l : no_dot l → split_dots l = [l].
Proof. induction 1 as [|c l Hc Hl IH]; simpl; [done|]. rewrite (proj2 (Z.eqb_neq _ _)) by done. by rewrite IH. Qed.

Lemma split_join_dots labels : labels ≠ [] → Forall no_dot labels → split_dots (join_dots labels) = labels.
Proof.
  destruct labels as [|l ls]; [done|]. intros _ Hf. simpl. revert l Hf.
  induction ls as [|k ls IH]; intros l Hf; inversion Hf; subst; simpl.
  - rewrite app_nil_r. by apply split_dots_single.
  - rewrite split_dots_app by done. f_equal. by apply IH.
Qed.

Lemma cont_ascii b : b < 128 → cont b = false.
Proof. unfold cont, in_range. intros. rewrite (proj2 (Z.leb_gt _ _)) by lia. done. Qed.
Lemma in_range_ascii a b x : 128 <= a → x < 128 → in_range a b x = false.
Proof. unfold in_range. intros. rewrite (proj2 (Z.leb_gt _ _)) by lia. done. Qed.

(** An ASCII character separates what is before from what is after it. *)
Lemma utf8_valid_ascii x l s : 0 <= x < 128 → utf8_valid (l ++ x :: s) = utf8_valid l && utf8_valid s.
Proof.
  intros Hx. remember (length l) as n eqn:Hn. revert l Hn. induction n as [n IH'] using (well_founded_induction lt_wf).
  intros l ->. assert (∀ k, (length k < length l)%nat → utf8_valid (k ++ x :: s) = utf8_valid k && utf8_valid s) as IH
    by (intros k Hk; by apply (IH' (length k))). clear IH'. destruct l as [|a l].
  { simpl. by rewrite (proj2 (Z.ltb_lt _ _)) by lia. }
  assert (∀ y, in_range (if y =? 0xe0 then 0xa0 else 0x80) (if y =? 0xed then 0x9f else 0xbf) x = false) as Hb1
    by (intros; apply in_range_ascii; [destruct (_ =? _)|]; lia).
  assert (∀ y, in_range (if y =? 0xf0 then 0x90 else 0x80) (if y =? 0xf4 then 0x8f else 0xbf) x = false) as Hb2
    by (intros; apply in_range_ascii; [destruct (_ =? _)|]; lia).
  pose proof (cont_ascii x ltac:(lia)) as Hc.
  cbn [app utf8_valid]. destruct (a <? 128); [apply IH; simpl; lia|].
  destruct l as [|b l]; cbn [app utf8_valid].
  { rewrite Hc, Hb1, Hb2. destruct (in_range 194 223 a); [done|]. destruct s as [|? s]; [done|].
    destruct (in_range 224 239 a); [done|]. destruct s; [done|]. by rewrite andb_false_r. }
  destruct (in_range 194 223 a); [rewrite IH by (simpl; lia); apply andb_assoc|].
  destruct l as [|c l]; cbn [app utf8_valid].
  { rewrite Hc, andb_false_r. destruct (in_range 224 239 a); [done|]. destruct s; [done|].
    by rewrite andb_false_r. }
  destruct (in_range 224 239 a); [rewrite IH by (simpl; lia); apply andb_assoc|].
  destruct l as [|d l]; cbn [app utf8_valid].
  { by rewrite Hc, andb_false_r. }
  rewrite IH by (simpl; lia). apply andb_assoc.
Qed.

Lemma utf8_valid_split s : utf8_valid s = true ↔ Forall (λ l, utf8_valid l = true) (split_dots s).
Proof.
  rewrite <- (join_split_dots s) at 1. pose proof (split_dots_nonempty s) as Hne.
  destruct (split_dots s) as [|l ls]; [done|]. clear Hne. simpl. revert l.
  induction ls as [|k ls IH]; intros l; simpl.
  - rewrite app_nil_r, Forall_singleton. done.
  - rewrite (utf8_valid_ascii DOT) by (unfold DOT; lia). rewrite andb_true_iff, IH, !Forall_cons. tauto.
Qed.

Lemma trim_dots_spec s : ∃ n, s = trim_dots s ++ replicate n DOT.
Proof.
  induction s as [|c s [n IH]]; [by exists 0%nat|]. simpl. destruct (trim_dots s) as [|d t] eqn:Ht.
  - destruct (Z.eqb_spec c DOT) as [->|]; [exists (S n)|exists n]; simpl in *; by rewrite IH at 1.
  - exists n. simpl in *. by rewrite IH at 1.
Qed.

Lemma utf8_valid_trim s : utf8_valid s = true → utf8_valid (trim_dots s) = true.
Proof.
  destruct (trim_dots_spec s) as [[|n] Hs]; rewrite Hs at 1; simpl; [by rewrite app_nil_r|].
  rewrite (utf8_valid_ascii DOT) by (unfold DOT; lia). by intros [? _]%andb_true_iff.
Qed.

Lemma len_trim_dots s : len (trim_dots s) <= len s.
Proof. destruct (trim_dots_spec s) as [n Hs]. rewrite Hs at 2. len_lia. Qed.

Lemma trim_dots_idemp s : trim_dots (trim_dots s) = trim_dots s.
Proof.
  induction s as [|c s IH]; [done|]. cbn [trim_dots]. destruct (trim_dots s) as [|d t] eqn:Ht.
  - destruct (Z.eqb_spec c DOT) as [->|Hc]; [done|]. simpl. by rewrite (proj2 (Z.eqb_neq _ _)).
  - cbn [trim_dots] in *. rewrite IH. done.
Qed.

Lemma length_to_ascii_lowercase s : length (to_ascii_lowercase s) = length s.
Proof. apply length_fmap. Qed.

(** Names that differ only in case. *)
#[export] Instance eq_ignore_ascii_case_equiv : Equivalence (λ s t, eq_ignore_ascii_case s t = true).
Proof.
  unfold eq_ignore_ascii_case. split.
  - intros s. by apply bool_decide_eq_true.
  - intros s t. rewrite !bool_decide_eq_true. done.
  - intros s t u. rewrite !bool_decide_eq_true. congruence.
Qed.

Lemma bytes_join_dots labels : Forall bytes labels → bytes (join_dots labels).
Proof.
  destruct labels as [|l ls]; [constructor|]. intros [Hl Hls]%Forall_cons. simpl. apply bytes_app. split; [done|].
  induction Hls as [|k ls Hk _ IH]; simpl; [constructor|]. apply bytes_cons. split; [done|]. apply bytes_app. by split.
Qed.

Lemma lower_dot b : lower b = DOT ↔ b = DOT.
Proof. unfold lower, in_range, DOT. destruct (Z.leb_spec 65 b), (Z.leb_spec b 90); simpl; lia. Qed.
