(* ===== verification/Dns.v ===== *)
(** The DNS codec of [src/driad.rs]: names, queries, AMTRELAY records (RFC 8777)
    and the two kinds of response the resolver reads.

    Rust strings are their UTF-8 bytes ([Text]). *)

From S2P Require Import Prelude Net Text.

Definition AMTRELAY_RRTYPE : Z := 260.
Definition DNS_CLASS_IN : Z := 1.
Definition DNS_TYPE_A : Z := 1.
Definition DNS_TYPE_CNAME : Z := 5.
Definition DNS_TYPE_AAAA : Z := 28.
Definition DNS_TYPE_DNAME : Z := 39.
Definition DNS_HEADER_LEN : Z := 12.

Inductive AmtRelayTarget :=
| NoRelay
| Ipv4Target (addr : Ipv4Addr)
| Ipv6Target (addr : Ipv6Addr)
| NameTarget (name : list Z).

Record AmtRelayRecord := mkAmtRelay {
  ar_precedence : Z;
  ar_discovery_optional : bool;
  ar_target : AmtRelayTarget
}.

Record Timed (T : Type) := mkTimed { td_value : T; td_ttl : Z }.
Arguments mkTimed {T} td_value td_ttl.
Arguments td_value {T} t.
Arguments td_ttl {T} t.

Record DnsAmtRelayResponse := mkRelayResponse {
  dr_records : list (Timed AmtRelayRecord);
  dr_aliases : list (Timed (list Z))
}.

Record DnsAddressResponse := mkAddressResponse {
  da_addresses : list (Timed IpAddr);
  da_alias : option (Timed (list Z))
}.

Inductive DriadError :=
| NoResolvers
| InsecureResolver (resolver : SocketAddr)
| NoRecords (name : list Z)
| NoUsableRelay
| NoRelayPresent
| AliasLoop (name : list Z)
| AliasDepthExceeded (name : list Z)
| DTruncated (context : string)
| InvalidDnsName (name : list Z)
| InvalidDnsPointer
| InvalidResponseId (expected actual : Z)
| DnsResponseCode (code : Z)
| InvalidDnsFlags (flags : Z)
| InvalidQuestion
| InvalidRelayType (relay_type : Z)
| InvalidRelayLength (relay_type expected actual : Z)
| InvalidRelayName
| InvalidConfig (reason : string)
| Randomness (reason : string)
| DIo (reason : string).

#[export] Instance AmtRelayTarget_eq_dec : EqDecision AmtRelayTarget.
Proof. solve_decision. Defined.
#[export] Instance AmtRelayRecord_eq_dec : EqDecision AmtRelayRecord.
Proof. solve_decision. Defined.
#[export] Instance Timed_eq_dec `{EqDecision T} : EqDecision (Timed T).
Proof. solve_decision. Defined.
#[export] Instance DnsAmtRelayResponse_eq_dec : EqDecision DnsAmtRelayResponse.
Proof. solve_decision. Defined.
#[export] Instance DriadError_eq_dec : EqDecision DriadError.
Proof. solve_decision. Defined.

(** [l.get(a..b)]. *)
Definition get_range {A} (l : list A) (a b : Z) : option (list A) :=
  if (0 <=? a) && (a <=? b) && (b <=? len l) then Some (sub l a b) else None.

Definition dns_read_u16 (input : list Z) (offset : Z) : res DriadError Z :=
  bs ← ok_or (DTruncated "u16") (get_range input offset (offset + 2));
  b0 ← idx bs 0; b1 ← idx bs 1; Ok (u16_from_be b0 b1).

Definition dns_read_u32 (input : list Z) (offset : Z) : res DriadError Z :=
  bs ← ok_or (DTruncated "u32") (get_range input offset (offset + 4));
  b0 ← idx bs 0; b1 ← idx bs 1; b2 ← idx bs 2; b3 ← idx bs 3; Ok (u32_from_be b0 b1 b2 b3).

(** * Names *)

Definition dns_name_eq (left right : list Z) : bool :=
  eq_ignore_ascii_case (trim_dots left) (trim_dots right).

(** The loop over the labels; [name] is what the error carries. *)
Fixpoint put_labels (out name : list Z) (labels : list (list Z)) : res DriadError (list Z) :=
  match labels with
  | [] => Ok out
  | label :: labels =>
      if (len label =? 0) || (63 <? len label) then Err (InvalidDnsName name)
      else put_labels (out ++ [as_u8 (len label)] ++ label) name labels
  end.

Definition put_dns_name (out name : list Z) : res DriadError (list Z) :=
  let name := trim_dots name in
  if len name =? 0 then Ok (out ++ [0])
  else if 253 <? len name then Err (InvalidDnsName name)
  else
    out ← put_labels out name (split_dots name);
    Ok (out ++ [0]).

(** [for _ in 0..128] of [parse_dns_name]. *)
Fixpoint parse_name_loop (n : nat) (message : list Z) (labels : list (list Z)) (cursor : Z)
    (next_offset : option Z) : res DriadError (list Z * Z) :=
  match n with
  | O => Err InvalidDnsPointer
  | S n =>
      length ← ok_or (DTruncated "DNS name") (get message cursor);
      let tag := Z.land length 0xc0 in
      if tag =? 0 then
        let cursor := cursor + 1 in
        if length =? 0 then Ok (join_dots labels, default cursor next_offset)
        else
          label_end ← ok_or (DTruncated "DNS label") (checked_add cursor length);
          label ← ok_or (DTruncated "DNS label") (get_range message cursor label_end);
          if utf8_valid label
          then parse_name_loop n message (labels ++ [label]) label_end next_offset
          else Err InvalidRelayName
      else if tag =? 0xc0 then
        pointer_tail ← ok_or (DTruncated "DNS pointer") (get message (cursor + 1));
        let pointer := Z.lor (Z.shiftl (Z.land length 0x3f) 8) pointer_tail in
        if len message <=? pointer then Err InvalidDnsPointer
        else parse_name_loop n message labels pointer (Some (default (cursor + 2) next_offset))
      else Err InvalidDnsPointer
  end.

Definition parse_dns_name (message : list Z) (offset : Z) : res DriadError (list Z * Z) :=
  parse_name_loop 128 message [] offset None.

(** [for _ in 0..128] of [parse_uncompressed_dns_name]. *)
Fixpoint uncompressed_loop (n : nat) (input : list Z) (labels : list (list Z)) (cursor : Z) :
    res DriadError (list Z * Z) :=
  match n with
  | O => Err InvalidRelayName
  | S n =>
      length ← ok_or (DTruncated "AMTRELAY domain name") (get input cursor);
      if negb (Z.land length 0xc0 =? 0) then Err InvalidRelayName
      else
        let cursor := cursor + 1 in
        if length =? 0 then
          if 255 <? cursor then Err InvalidRelayName else Ok (join_dots labels, cursor)
        else
          label_end ← ok_or InvalidRelayName (checked_add cursor length);
          label ← ok_or (DTruncated "AMTRELAY domain label") (get_range input cursor label_end);
          if utf8_valid label then
            if 255 <=? label_end then Err InvalidRelayName
            else uncompressed_loop n input (labels ++ [label]) label_end
          else Err InvalidRelayName
  end.

Definition parse_uncompressed_dns_name (input : list Z) : res DriadError (list Z * Z) :=
  uncompressed_loop 128 input [] 0.

Definition apply_dname (query_name owner target : list Z) : res DriadError (option (list Z)) :=
  let query := trim_dots query_name in
  let owner := trim_dots owner in
  let target := trim_dots target in
  if eq_ignore_ascii_case query owner then Ok (Some target)
  else
    let suffix := DOT :: owner in
    if ends_with (to_ascii_lowercase query) (to_ascii_lowercase suffix) then
      prefix_len ← usize_sub (len query) (len suffix);
      prefix ← str_to query prefix_len;
      Ok (Some (prefix ++ DOT :: target))
    else Ok None.

(** [reverse_source_name]: the labels and the name. *)
Definition reverse_labels (source : IpAddr) : list (list Z) :=
  match source with
  | V4 a => [dec_digits (v4_d a); dec_digits (v4_c a); dec_digits (v4_b a); dec_digits (v4_a a);
             ascii_bytes "in-addr"; ascii_bytes "arpa"]
  | V6 a => (reverse (v6_octets a) ≫= λ byte, [hex_digits (Z.land byte 0x0f); hex_digits (Z.shiftr byte 4)])
            ++ [ascii_bytes "ip6"; ascii_bytes "arpa"]
  end.
Definition reverse_source_name (source : IpAddr) : list Z := join_dots (reverse_labels source).

(** * AMTRELAY records *)

Definition require_relay_len (relay_type : Z) (relay : list Z) (expected : Z) : res DriadError unit :=
  if len relay =? expected then Ok tt else Err (InvalidRelayLength relay_type expected (len relay)).

Definition parse_amtrelay_rdata (rdata : list Z) : res DriadError AmtRelayRecord :=
  if len rdata <? 2 then Err (DTruncated "AMTRELAY RDATA")
  else
    precedence ← idx rdata 0;
    flags ← idx rdata 1;
    let discovery_optional := negb (Z.land flags 0x80 =? 0) in
    let relay_type := Z.land flags 0x7f in
    relay ← slice_from rdata 2;
    target ←
      (if relay_type =? 0 then
         _ ← require_relay_len relay_type relay 0; Ok NoRelay
       else if relay_type =? 1 then
         _ ← require_relay_len relay_type relay 4;
         a ← idx relay 0; b ← idx relay 1; c ← idx relay 2; d ← idx relay 3;
         Ok (Ipv4Target (mkIpv4 a b c d))
       else if relay_type =? 2 then
         _ ← require_relay_len relay_type relay 16;
         octets ← copy_at (replicate 16 0) 0 16 relay;
         Ok (Ipv6Target (mkIpv6 octets))
       else if relay_type =? 3 then
         '(name, consumed) ← parse_uncompressed_dns_name relay;
         if negb (consumed =? len relay) || (len name =? 0) then Err InvalidRelayName
         else Ok (NameTarget name)
       else Err (InvalidRelayType relay_type));
    Ok (mkAmtRelay precedence discovery_optional target).

(** * Messages *)

Definition build_dns_query (id : Z) (name : list Z) (qtype : Z) : res DriadError (list Z) :=
  let out := u16_to_be id ++ u16_to_be 0x0100 ++ u16_to_be 1 ++ u16_to_be 0 ++ u16_to_be 0 ++ u16_to_be 0 in
  out ← put_dns_name out name;
  Ok (out ++ u16_to_be qtype ++ u16_to_be DNS_CLASS_IN).

(** The number of answers and the offset of the first. *)
Definition validate_dns_response (expected_id : Z) (query_name : list Z) (query_type : Z) (response : list Z) :
    res DriadError (Z * Z) :=
  if len response <? DNS_HEADER_LEN then Err (DTruncated "DNS header")
  else
    actual_id ← dns_read_u16 response 0;
    if negb (actual_id =? expected_id) then Err (InvalidResponseId expected_id actual_id)
    else
      flags ← dns_read_u16 response 2;
      if (Z.land flags 0x8000 =? 0) || negb (Z.land flags 0x7800 =? 0)
         || negb (Z.land flags 0x0200 =? 0) || negb (Z.land flags 0x0040 =? 0)
      then Err (InvalidDnsFlags flags)
      else
        let rcode := as_u8 (Z.land flags 0x000f) in
        if negb (rcode =? 0) then Err (DnsResponseCode rcode)
        else
          qdcount ← dns_read_u16 response 4;
          if negb (qdcount =? 1) then Err InvalidQuestion
          else
            '(actual_name, next) ← parse_dns_name response DNS_HEADER_LEN;
            if (len response <? next + 4) || negb (dns_name_eq actual_name query_name)
            then Err InvalidQuestion
            else
              qtype ← dns_read_u16 response next;
              if negb (qtype =? query_type) then Err InvalidQuestion
              else
                qclass ← dns_read_u16 response (next + 2);
                if negb (qclass =? DNS_CLASS_IN) then Err InvalidQuestion
                else
                  ancount ← dns_read_u16 response 6;
                  Ok (ancount, next + 4).

(** The fixed part of an answer. *)
Record answer := mkAnswer {
  an_owner : list Z;
  an_rrtype : Z;
  an_class : Z;
  an_ttl : Z;
  an_rdlen : Z;
  an_offset : Z;
  an_rdata_end : Z
}.

(** [context] and [context_rdata] are the two error texts of the calling loop. *)
Definition parse_answer (context context_rdata : string) (response : list Z) (offset : Z) : res DriadError answer :=
  '(owner, offset) ← parse_dns_name response offset;
  if len response <? offset + 10 then Err (DTruncated context)
  else
    rrtype ← dns_read_u16 response offset;
    class ← dns_read_u16 response (offset + 2);
    ttl ← dns_read_u32 response (offset + 4);
    rdlen ← dns_read_u16 response (offset + 8);
    let offset := offset + 10 in
    rdata_end ← ok_or (DTruncated context_rdata) (checked_add offset rdlen);
    if len response <? rdata_end then Err (DTruncated context_rdata)
    else Ok (mkAnswer owner rrtype class (from_secs ttl) rdlen offset rdata_end).

(** One iteration of the loop of [parse_dns_response]. *)
Definition relay_answer (query_name response : list Z) (r : DnsAmtRelayResponse) (a : answer) :
    res DriadError DnsAmtRelayResponse :=
  if (an_class a =? DNS_CLASS_IN) && (an_rrtype a =? AMTRELAY_RRTYPE) && dns_name_eq (an_owner a) query_name then
    rdata ← slice response (an_offset a) (an_rdata_end a);
    match parse_amtrelay_rdata rdata with
    | Ok record => Ok (mkRelayResponse (dr_records r ++ [mkTimed record (an_ttl a)]) (dr_aliases r))
    | Err _ => Ok r
    | Panic => Panic
    | Diverge => Diverge
    end
  else if (an_class a =? DNS_CLASS_IN) && (an_rrtype a =? DNS_TYPE_CNAME) && dns_name_eq (an_owner a) query_name then
    '(alias, consumed) ← parse_dns_name response (an_offset a);
    Ok (if consumed =? an_rdata_end a
        then mkRelayResponse (dr_records r) (dr_aliases r ++ [mkTimed alias (an_ttl a)]) else r)
  else if (an_class a =? DNS_CLASS_IN) && (an_rrtype a =? DNS_TYPE_DNAME) then
    '(target, consumed) ← parse_dns_name response (an_offset a);
    if consumed =? an_rdata_end a then
      alias ← apply_dname query_name (an_owner a) target;
      Ok (match alias with
          | Some alias => mkRelayResponse (dr_records r) (dr_aliases r ++ [mkTimed alias (an_ttl a)])
          | None => r
          end)
    else Ok r
  else Ok r.

Fixpoint relay_answers (n : nat) (query_name response : list Z) (r : DnsAmtRelayResponse) (offset : Z) :
    res DriadError DnsAmtRelayResponse :=
  match n with
  | O => Ok r
  | S n =>
      a ← parse_answer "answer" "answer RDATA" response offset;
      r ← relay_answer query_name response r a;
      relay_answers n query_name response r (an_rdata_end a)
  end.

Definition parse_dns_response (expected_id : Z) (query_name response : list Z) :
    res DriadError DnsAmtRelayResponse :=
  '(ancount, offset) ← validate_dns_response expected_id query_name AMTRELAY_RRTYPE response;
  relay_answers (Z.to_nat ancount) query_name response (mkRelayResponse [] []) offset.

(** One iteration of the loop of [parse_address_response]. *)
Definition address_answer (query_name : list Z) (query_type : Z) (response : list Z) (r : DnsAddressResponse)
    (a : answer) : res DriadError DnsAddressResponse :=
  let offset := an_offset a in
  if (an_class a =? DNS_CLASS_IN) && dns_name_eq (an_owner a) query_name then
    if (an_rrtype a =? DNS_TYPE_A) && (an_rdlen a =? 4) && (query_type =? DNS_TYPE_A) then
      o0 ← idx response offset; o1 ← idx response (offset + 1);
      o2 ← idx response (offset + 2); o3 ← idx response (offset + 3);
      Ok (mkAddressResponse (da_addresses r ++ [mkTimed (V4 (mkIpv4 o0 o1 o2 o3)) (an_ttl a)]) (da_alias r))
    else if (an_rrtype a =? DNS_TYPE_AAAA) && (an_rdlen a =? 16) && (query_type =? DNS_TYPE_AAAA) then
      rdata ← slice response offset (an_rdata_end a);
      octets ← copy_at (replicate 16 0) 0 16 rdata;
      Ok (mkAddressResponse (da_addresses r ++ [mkTimed (V6 (mkIpv6 octets)) (an_ttl a)]) (da_alias r))
    else if an_rrtype a =? DNS_TYPE_CNAME then
      '(name, consumed) ← parse_dns_name response offset;
      Ok (if consumed =? an_rdata_end a
          then mkAddressResponse (da_addresses r) (Some (mkTimed name (an_ttl a))) else r)
    else Ok r
  else Ok r.

Fixpoint address_answers (n : nat) (query_name : list Z) (query_type : Z) (response : list Z)
    (r : DnsAddressResponse) (offset : Z) : res DriadError DnsAddressResponse :=
  match n with
  | O => Ok r
  | S n =>
      a ← parse_answer "address answer" "address answer RDATA" response offset;
      r ← address_answer query_name query_type response r a;
      address_answers n query_name query_type response r (an_rdata_end a)
  end.

Definition parse_address_response (expected_id : Z) (query_name : list Z) (query_type : Z) (response : list Z) :
    res DriadError DnsAddressResponse :=
  '(ancount, offset) ← validate_dns_response expected_id query_name query_type response;
  address_answers (Z.to_nat ancount) query_name query_type response (mkAddressResponse [] None) offset.

(** * Specification of names on the wire *)

Definition valid_label (l : list Z) : Prop := 0 < len l <= 63 ∧ utf8_valid l = true.
#[export] Instance valid_label_dec l : Decision (valid_label l).
Proof. unfold valid_label. apply _. Defined.

(** The labels of a name, each behind its length (RFC 1035 section 3.1). *)
Definition wire (labels : list (list Z)) : list Z := labels ≫= λ l, len l :: l.

(** [dns_name m k o ls e]: the name at offset [o] of message [m] has the labels
    [ls], ends (in place) at [e], and is read in [k] steps, one for each label,
    compression pointer and the root. *)
Inductive dns_name (m : list Z) : nat → Z → list (list Z) → Z → Prop :=
| dn_root o : get m o = Some 0 → dns_name m 1 o [] (o + 1)
| dn_label k o l ls e :
    get m o = Some (len l) → get_range m (o + 1) (o + 1 + len l) = Some l → valid_label l →
    dns_name m k (o + 1 + len l) ls e → dns_name m (S k) o (l :: ls) e
| dn_pointer k o hi lo ls e :
    get m o = Some hi → 192 <= hi → get m (o + 1) = Some lo → (hi - 192) * 256 + lo < len m →
    dns_name m k ((hi - 192) * 256 + lo) ls e → dns_name m (S k) o ls (o + 2).

(** ** Length octets *)

Lemma tag_label b : u8 b → (Z.land b 0xc0 =? 0) = (b <? 64).
Proof.
  intros Hb. apply eqb_prop. revert b Hb. apply (u8_check (λ b, Bool.eqb (Z.land b 0xc0 =? 0) (b <? 64))).
  by vm_compute.
Qed.
Lemma tag_pointer b : u8 b → (Z.land b 0xc0 =? 0xc0) = (192 <=? b).
Proof.
  intros Hb. apply eqb_prop. revert b Hb. apply (u8_check (λ b, Bool.eqb (Z.land b 0xc0 =? 0xc0) (192 <=? b))).
  by vm_compute.
Qed.
Lemma pointer_value hi lo :
  u8 hi → 192 <= hi → u8 lo → Z.lor (Z.shiftl (Z.land hi 0x3f) 8) lo = (hi - 192) * 256 + lo.
Proof.
  intros Hhi H192 Hlo.
  assert (Z.land hi 0x3f = hi - 192) as ->.
  { apply Z.eqb_eq. apply Z.leb_le in H192. revert hi Hhi H192.
    assert (∀ b, u8 b → implb (192 <=? b) (Z.land b 63 =? b - 192) = true) as H by (apply u8_check; by vm_compute).
    intros hi Hhi Hle. specialize (H hi Hhi). by rewrite Hle in H. }
  rewrite Z.shiftl_mul_pow2 by lia. change (2 ^ 8) with 256.
  rewrite <- Z.add_lor_land. assert (Z.land ((hi - 192) * 256) lo = 0) as ->; [|lia].
  apply Z.bits_inj'. intros n Hn. rewrite Z.land_spec, Z.bits_0. change 256 with (2 ^ 8).
  destruct (Z.lt_ge_cases n 8).
  - by rewrite Z.mul_pow2_bits_low.
  - rewrite (Z.bits_above_log2 lo n), andb_false_r; [done|unfold u8 in Hlo; lia|].
    unfold u8 in Hlo. destruct (Z.eq_dec lo 0) as [->|]; [simpl; lia|].
    apply Z.log2_lt_pow2; [lia|]. assert (2 ^ 8 <= 2 ^ n) by (apply Z.pow_le_mono_r; lia). lia.
Qed.

Lemma get_u8 m o b : bytes m → get m o = Some b → u8 b.
Proof. unfold get. destruct (o <? 0); [done|]. intros Hb Hl. by eapply bytes_lookup. Qed.
Lemma get_range_spec {A} (l : list A) a b r :
  get_range l a b = Some r ↔ 0 <= a <= b ∧ b <= len l ∧ r = sub l a b.
Proof.
  unfold get_range. destruct (Z.leb_spec 0 a), (Z.leb_spec a b), (Z.leb_spec b (len l)); simpl;
    (split; [intros; simplify_eq; split_and!; try lia; done|intros (? & ? & ->); try lia; done]).
Qed.
Lemma len_get_range {A} (l : list A) a b r : get_range l a b = Some r → len r = b - a.
Proof. intros (? & ? & ->)%get_range_spec. apply len_sub; lia. Qed.
Lemma sub_split {A} (l : list A) a b c : 0 <= a <= b → b <= c → sub l a b ++ sub l b c = sub l a c.
Proof.
  intros. unfold sub. rewrite <- (drop_take_drop (take (Z.to_nat c) l) (Z.to_nat a) (Z.to_nat b)) by lia.
  by rewrite take_take, Nat.min_l by lia.
Qed.
Lemma get_sub1 {A} (l : list A) i x : get l i = Some x → sub l i (i + 1) = [x].
Proof.
  unfold get. destruct (Z.ltb_spec i 0); [done|]. intros Hx. unfold sub.
  replace (Z.to_nat (i + 1)) with (S (Z.to_nat i)) by lia. rewrite (take_S_r l _ x) by done.
  rewrite drop_app_length'; [done|]. apply lookup_lt_Some in Hx. rewrite length_take. lia.
Qed.
Lemma get_some_bounds {A} (l : list A) i x : get l i = Some x → 0 <= i < len l.
Proof.
  unfold get. destruct (Z.ltb_spec i 0); [done|]. intros Hl%lookup_lt_Some. unfold len. lia.
Qed.

(** ** [parse_dns_name] reads exactly these names *)

Lemma parse_name_loop_sound m n : ∀ labels cursor next name e,
  bytes m → parse_name_loop n m labels cursor next = Ok (name, e) →
  ∃ k ls e', (k <= n)%nat ∧ dns_name m k cursor ls e' ∧ name = join_dots (labels ++ ls) ∧ e = default e' next.
Proof.
  induction n as [|n IH]; intros labels cursor next name e Hb H; cbn [parse_name_loop] in H; [done|].
  destruct (get m cursor) as [b|] eqn:Hg; cbn [ok_or mbind res_bind] in H; [|done].
  pose proof (get_u8 _ _ _ Hb Hg) as Hu. rewrite tag_label, tag_pointer in H by done.
  destruct (Z.ltb_spec b 64) as [H64|H64].
  - destruct (Z.eqb_spec b 0) as [->|Hb0].
    { simplify_eq. exists 1%nat, [], (cursor + 1). split_and!; [lia|by constructor|by rewrite app_nil_r|done]. }
    unfold checked_add in H. destruct (_ <=? USIZE_MAX); cbn [ok_or mbind res_bind] in H; [|done].
    destruct (get_range m (cursor + 1) (cursor + 1 + b)) as [l|] eqn:Hl; cbn [ok_or mbind res_bind] in H; [|done].
    destruct (utf8_valid l) eqn:Hv; [|done].
    apply IH in H as (k & ls & e' & Hk & Hn & -> & ->); [|done].
    pose proof (len_get_range _ _ _ _ Hl) as Hlen. assert (len l = b) as Hlb by lia. rewrite <- Hlb in Hg, Hl, Hn.
    exists (S k), (l :: ls), e'. split_and!; [lia| |by rewrite <- (assoc_L (++))|done].
    apply dn_label; try done. split; [unfold u8 in Hu; lia|done].
  - destruct (Z.leb_spec 192 b) as [H192|]; [|done].
    destruct (get m (cursor + 1)) as [t|] eqn:Ht; cbn [ok_or mbind res_bind] in H; [|done].
    pose proof (get_u8 _ _ _ Hb Ht) as Hut. rewrite pointer_value in H by done.
    destruct (Z.leb_spec (len m) ((b - 192) * 256 + t)) as [|Hp]; [done|].
    apply IH in H as (k & ls & e' & Hk & Hn & -> & ->); [|done].
    exists (S k), ls, (cursor + 2). split_and!; [lia|by eapply dn_pointer|done|by destruct next].
Qed.

Lemma parse_name_loop_complete m k cursor ls e :
  bytes m → len m <= USIZE_MAX → dns_name m k cursor ls e →
  ∀ n labels next, (k <= n)%nat →
  parse_name_loop n m labels cursor next = Ok (join_dots (labels ++ ls), default e next).
Proof.
  intros Hb Hm Hn. induction Hn as [o Hg|k o l ls e Hg Hl Hv Hn IH|k o hi lo ls e Hg H192 Hlo Hp Hn IH];
    intros n labels next Hk; (destruct n as [|n]; [lia|]); cbn [parse_name_loop]; rewrite Hg;
    cbn [ok_or mbind res_bind]; pose proof (get_u8 _ _ _ Hb Hg) as Hu; rewrite tag_label, tag_pointer by done.
  - simpl. by rewrite app_nil_r.
  - destruct Hv as [Hlen Hv]. rewrite (proj2 (Z.ltb_lt _ _)), (proj2 (Z.eqb_neq (len l) 0)) by lia.
    apply get_range_spec in Hl as Hl'. unfold checked_add.
    rewrite (proj2 (Z.leb_le _ _)) by lia. cbn [ok_or mbind res_bind]. rewrite Hl. cbn [ok_or mbind res_bind].
    rewrite Hv, IH by lia. by rewrite <- (assoc_L (++)).
  - rewrite (proj2 (Z.ltb_ge _ _)), (proj2 (Z.leb_le _ _)) by lia. rewrite Hlo. cbn [ok_or mbind res_bind].
    rewrite pointer_value by (try done; by eapply get_u8). rewrite (proj2 (Z.leb_gt _ _)) by done.
    rewrite IH by lia. by destruct next.
Qed.

Lemma dns_name_bounds m k o ls e : dns_name m k o ls e → 0 <= o ∧ o < e <= len m.
Proof.
  induction 1 as [o Hg|k o l ls e Hg Hl Hv Hn IH|k o hi lo ls e Hg H192 Hlo Hp Hn IH].
  - apply get_some_bounds in Hg. lia.
  - apply get_some_bounds in Hg. destruct Hv. lia.
  - apply get_some_bounds in Hg, Hlo. lia.
Qed.

Lemma parse_name_loop_returns m n : ∀ labels cursor next, returns (parse_name_loop n m labels cursor next).
Proof.
  induction n as [|n IH]; intros labels cursor next; cbn [parse_name_loop]; [done|].
  destruct (get m cursor) as [b|]; cbn [ok_or mbind res_bind]; [|done]. destruct (_ =? 0).
  - destruct (b =? 0); [done|]. destruct (checked_add _ _); cbn [ok_or mbind res_bind]; [|done].
    destruct (get_range _ _ _); cbn [ok_or mbind res_bind]; [|done]. destruct (utf8_valid _); [apply IH|done].
  - destruct (_ =? 192); [|done]. destruct (get m (cursor + 1)); cbn [ok_or mbind res_bind]; [|done].
    destruct (_ <=? _); [done|apply IH].
Qed.

Lemma parse_dns_name_wp m offset (Q : list Z * Z → Prop) :
  bytes m → (∀ name e, 0 <= offset < e → e <= len m → Q (name, e)) →
  wp (parse_dns_name m offset) Q (λ _, True).
Proof.
  intros Hb HQ. pose proof (parse_name_loop_returns m 128 [] offset None) as Hr. unfold parse_dns_name.
  pose proof (parse_name_loop_sound m 128 [] offset None) as Hs.
  destruct (parse_name_loop _ _ _ _ _) as [[name e]|err| |]; try done. cbn [wp].
  destruct (Hs name e Hb eq_refl) as (k & ls & e' & _ & Hn & _ & ->).
  apply dns_name_bounds in Hn. apply HQ; simpl; lia.
Qed.

(** ** Writing names *)

(** The labels [put_dns_name] writes. *)
Definition name_labels (name : list Z) : list (list Z) :=
  if len (trim_dots name) =? 0 then [] else split_dots (trim_dots name).
Definition writable (name : list Z) : bool :=
  (len (trim_dots name) <=? 253) && forallb (λ l, (0 <? len l) && (len l <=? 63)) (name_labels name).

Lemma len_wire ls : len (wire ls) = len (ls ≫= cons DOT).
Proof.
  unfold wire. induction ls as [|l ls IH]; [done|].
  rewrite !bind_cons. cbn [app]. rewrite !len_cons, !len_app. lia.
Qed.
Lemma wire_app ls ks : wire (ls ++ ks) = wire ls ++ wire ks.
Proof. apply bind_app. Qed.
Lemma wire_cons l ls : wire (l :: ls) = len l :: l ++ wire ls.
Proof. done. Qed.

Lemma join_name_labels name : join_dots (name_labels name) = trim_dots name.
Proof.
  unfold name_labels. destruct (Z.eqb_spec (len (trim_dots name)) 0) as [H|H].
  - apply len_zero_nil in H. by rewrite H.
  - apply join_split_dots.
Qed.

Lemma put_labels_spec ls : ∀ out name,
  put_labels out name ls =
  if forallb (λ l, (0 <? len l) && (len l <=? 63)) ls then Ok (out ++ wire ls) else Err (InvalidDnsName name).
Proof.
  induction ls as [|l ls IH]; intros out name; cbn [put_labels forallb]; [by rewrite app_nil_r|].
  destruct (Z.eqb_spec (len l) 0); cbn [orb]; [by rewrite (proj2 (Z.ltb_ge _ _)) by lia|].
  pose proof (len_nonneg l). rewrite (proj2 (Z.ltb_lt 0 _)) by lia. cbn [andb].
  destruct (Z.ltb_spec 63 (len l)); [by rewrite (proj2 (Z.leb_gt _ _)) by lia|].
  rewrite (proj2 (Z.leb_le _ _)) by lia. rewrite IH. unfold as_u8. rewrite Z.mod_small by lia. cbn [andb].
  destruct (forallb _ ls); [|done]. by rewrite wire_cons, <- !(assoc_L (++)).
Qed.

Lemma put_dns_name_spec out name :
  put_dns_name out name =
  if writable name then Ok (out ++ wire (name_labels name) ++ [0]) else Err (InvalidDnsName (trim_dots name)).
Proof.
  unfold put_dns_name, writable, name_labels. destruct (Z.eqb_spec (len (trim_dots name)) 0) as [H|H].
  { by rewrite H. }
  rewrite Z.ltb_antisym. destruct (len (trim_dots name) <=? 253); cbn [negb andb]; [|done].
  rewrite put_labels_spec. destruct (forallb _ _); [|done]. cbn [mbind res_bind]. by rewrite <- (assoc_L (++)).
Qed.

Lemma length_labels_bound ls : Forall (λ l, 0 < len l) ls → 2 * Z.of_nat (length ls) <= len (wire ls).
Proof. induction 1 as [|l ls Hl _ IH]; [done|]. rewrite wire_cons. simpl length. len_lia. Qed.

Lemma writable_spec name :
  writable name = true →
  Forall (λ l, 0 < len l <= 63) (name_labels name) ∧ (length (name_labels name) <= 127)%nat ∧
  len (wire (name_labels name)) <= 254.
Proof.
  unfold writable. intros [Hlen Hf]%andb_true_iff. apply Z.leb_le in Hlen.
  assert (Forall (λ l, 0 < len l <= 63) (name_labels name)) as Hls.
  { apply Forall_forall. intros l Hl. rewrite forallb_forall in Hf.
    specialize (Hf l (proj1 (list_elem_of_In _ _) Hl)). lia. }
  assert (len (wire (name_labels name)) <= 254) as Hw.
  { rewrite <- join_name_labels in Hlen. rewrite len_wire. unfold join_dots in Hlen.
    destruct (name_labels name) as [|l ls]; [done|]. rewrite bind_cons. cbn [app]. len_lia. }
  split_and!; [done| |done]. assert (Forall (λ l, 0 < len l) (name_labels name)) as Hp
    by (eapply Forall_impl; [done|]; simpl; lia).
  pose proof (length_labels_bound _ Hp). lia.
Qed.

Lemma name_labels_valid name :
  utf8_valid name = true → writable name = true → Forall valid_label (name_labels name).
Proof.
  intros Hu (Hls & _ & _)%writable_spec. apply utf8_valid_trim in Hu.
  assert (Forall (λ l, utf8_valid l = true) (name_labels name)) as Hv.
  { unfold name_labels. destruct (_ =? 0); [constructor|]. by apply utf8_valid_split. }
  apply Forall_and. by split.
Qed.

(** ** Reading back what was written *)

Lemma get_app_mid {A} (pre : list A) x post i : i = len pre → get (pre ++ x :: post) i = Some x.
Proof.
  intros ->. unfold get, len. rewrite (proj2 (Z.ltb_ge _ _)) by lia. rewrite Nat2Z.id. by apply list_lookup_middle.
Qed.
Lemma get_range_app {A} (pre mid post : list A) a b :
  a = len pre → b = len pre + len mid → get_range (pre ++ mid ++ post) a b = Some mid.
Proof.
  intros -> ->. apply get_range_spec. split_and!; [len_lia..|]. unfold sub, len.
  replace (Z.to_nat (Z.of_nat (length pre) + Z.of_nat (length mid))) with (length pre + length mid)%nat by lia.
  rewrite (assoc_L (++)), take_app_length', Nat2Z.id, drop_app_length; [done|]. by rewrite length_app.
Qed.

Lemma dns_name_wire ls : ∀ out rest,
  Forall valid_label ls →
  dns_name (out ++ wire ls ++ 0 :: rest) (S (length ls)) (len out) ls (len out + len (wire ls) + 1).
Proof.
  induction ls as [|l ls IH]; intros out rest Hv.
  - simpl. rewrite Z.add_0_r. apply dn_root. by apply get_app_mid.
  - apply Forall_cons in Hv as [Hl Hv]. rewrite wire_cons. cbn [length app].
    specialize (IH (out ++ len l :: l) rest Hv).
    replace (out ++ len l :: (l ++ wire ls) ++ 0 :: rest) with ((out ++ len l :: l) ++ wire ls ++ 0 :: rest)
      by (by rewrite <- !(assoc_L (++))).
    replace (len out + len (len l :: l ++ wire ls) + 1) with (len (out ++ len l :: l) + len (wire ls) + 1) by len_lia.
    apply dn_label; [| |done|].
    + rewrite <- (assoc_L (++)). by apply get_app_mid.
    + replace ((out ++ len l :: l) ++ wire ls ++ 0 :: rest) with ((out ++ [len l]) ++ l ++ wire ls ++ 0 :: rest)
        by (by rewrite <- !(assoc_L (++))).
      apply get_range_app; len_lia.
    + replace (len out + 1 + len l) with (len (out ++ len l :: l)) by len_lia. exact IH.
Qed.

Lemma put_parse_dns_name out name out' rest :
  bytes (out' ++ rest) → len (out' ++ rest) <= USIZE_MAX → utf8_valid name = true →
  put_dns_name out name = Ok out' →
  parse_dns_name (out' ++ rest) (len out) = Ok (trim_dots name, len out').
Proof.
  intros Hb Hm Hu Hp. rewrite put_dns_name_spec in Hp. destruct (writable name) eqn:Hw; [|done]. simplify_eq.
  destruct (writable_spec name Hw) as (_ & Hcount & _). rewrite <- !(assoc_L (++)) in Hb, Hm |- *. cbn [app] in *.
  pose proof (dns_name_wire (name_labels name) out rest (name_labels_valid name Hu Hw)) as Hn.
  unfold parse_dns_name. rewrite (parse_name_loop_complete _ _ _ _ _ Hb Hm Hn 128 [] None) by lia.
  cbn [default app]. rewrite join_name_labels. do 2 f_equal. len_lia.
Qed.

(** ** Queries and the responses to them *)

Lemma dns_read_u16_app {pre v post} i : i = len pre → u16 v → dns_read_u16 (pre ++ u16_to_be v ++ post) i = Ok v.
Proof.
  intros -> Hv. unfold dns_read_u16. rewrite get_range_app by (try done; len_lia).
  cbn [ok_or mbind res_bind]. simpl. by rewrite u16_from_be_to_be.
Qed.
Lemma dns_read_u32_app {pre v post} i : i = len pre → u32 v → dns_read_u32 (pre ++ u32_to_be v ++ post) i = Ok v.
Proof.
  intros -> Hv. unfold dns_read_u32. rewrite get_range_app by (try done; len_lia).
  cbn [ok_or mbind res_bind]. simpl. by rewrite u32_from_be_to_be.
Qed.

Definition dns_header (id flags qd an ns ar : Z) : list Z :=
  u16_to_be id ++ u16_to_be flags ++ u16_to_be qd ++ u16_to_be an ++ u16_to_be ns ++ u16_to_be ar.
Definition question (name : list Z) (qtype : Z) : list Z :=
  wire (name_labels name) ++ [0] ++ u16_to_be qtype ++ u16_to_be DNS_CLASS_IN.

Lemma build_dns_query_spec id name qtype :
  build_dns_query id name qtype =
  if writable name then Ok (dns_header id 0x0100 1 0 0 0 ++ question name qtype)
  else Err (InvalidDnsName (trim_dots name)).
Proof.
  unfold build_dns_query. rewrite put_dns_name_spec. destruct (writable name); [|done]. cbn [mbind res_bind].
  unfold dns_header, question. by rewrite <- !(assoc_L (++)).
Qed.

(** The flags of a successful response: QR set, opcode QUERY, not truncated,
    reserved bit clear, no error. *)
Definition response_flags (flags : Z) : bool :=
  negb ((Z.land flags 0x8000 =? 0) || negb (Z.land flags 0x7800 =? 0)
        || negb (Z.land flags 0x0200 =? 0) || negb (Z.land flags 0x0040 =? 0))
  && (as_u8 (Z.land flags 0x000f) =? 0).

Lemma dns_name_eq_trim name : dns_name_eq (trim_dots name) name = true.
Proof. unfold dns_name_eq. rewrite trim_dots_idemp. by apply bool_decide_eq_true. Qed.

Lemma bytes_wire ls : Forall bytes ls → Forall (λ l, len l <= 63) ls → bytes (wire ls).
Proof.
  induction 1 as [|l ls Hl _ IH]; intros Hn; [constructor|]. apply Forall_cons in Hn as [? ?]. rewrite wire_cons.
  apply bytes_cons. split; [unfold u8; len_lia|]. apply bytes_app. split; [done|]. by apply IH.
Qed.

Lemma bytes_split_dots s : bytes s → Forall bytes (split_dots s).
Proof.
  induction 1 as [|c s Hc _ IH]; simpl; [by repeat constructor|]. destruct (c =? DOT); [constructor; [constructor|done]|].
  destruct (split_dots s) as [|l ls]; [by apply Forall_singleton, Forall_singleton|]. apply Forall_cons in IH as [? ?].
  constructor; [by constructor|done].
Qed.
Lemma bytes_trim_dots s : bytes s → bytes (trim_dots s).
Proof. destruct (trim_dots_spec s) as [n Hs]. rewrite Hs at 1. by intros [? _]%bytes_app. Qed.
Lemma bytes_name_labels name : bytes name → Forall bytes (name_labels name).
Proof.
  intros Hb. unfold name_labels. destruct (_ =? 0); [constructor|]. by apply bytes_split_dots, bytes_trim_dots.
Qed.

Lemma bytes_question name qtype : bytes name → writable name = true → u16 qtype → bytes (question name qtype).
Proof.
  intros Hn Hw Hq. unfold question. apply bytes_app. split; [|bytes_solve; by apply bytes_u16_to_be].
  apply bytes_wire; [by apply bytes_name_labels|]. apply writable_spec in Hw as (Hls & _).
  eapply Forall_impl; [done|]. simpl. lia.
Qed.
Lemma bytes_dns_header id flags qd an ns ar :
  u16 id → u16 flags → u16 qd → u16 an → u16 ns → u16 ar → bytes (dns_header id flags qd an ns ar).
Proof. intros. unfold dns_header. bytes_solve. Qed.

Lemma dns_header_reads id flags an ns ar rest :
  u16 id → u16 flags → u16 an →
  let m := dns_header id flags 1 an ns ar ++ rest in
  dns_read_u16 m 0 = Ok id ∧ dns_read_u16 m 2 = Ok flags ∧ dns_read_u16 m 4 = Ok 1 ∧ dns_read_u16 m 6 = Ok an.
Proof.
  intros Hid Hf Han m. unfold m, dns_header. rewrite <- !(assoc_L (++)). split_and!.
  - by apply (dns_read_u16_app (pre:=[])).
  - by apply (dns_read_u16_app (pre:=u16_to_be id)).
  - by apply (dns_read_u16_app (pre:=u16_to_be id ++ u16_to_be flags)).
  - by apply (dns_read_u16_app (pre:=u16_to_be id ++ u16_to_be flags ++ u16_to_be 1)).
Qed.

Lemma question_reads hdr name qtype rest :
  bytes (hdr ++ question name qtype ++ rest) → len (hdr ++ question name qtype ++ rest) <= USIZE_MAX →
  utf8_valid name = true → u16 qtype → writable name = true →
  let m := hdr ++ question name qtype ++ rest in
  let next := len hdr + len (wire (name_labels name)) + 1 in
  parse_dns_name m (len hdr) = Ok (trim_dots name, next) ∧ dns_read_u16 m next = Ok qtype ∧
  dns_read_u16 m (next + 2) = Ok DNS_CLASS_IN.
Proof.
  intros Hbm Hm Hu Hq Hw m next. set (pre := hdr ++ wire (name_labels name) ++ [0]).
  assert (len pre = next) as Hpre by (unfold pre, next; len_lia).
  assert (m = pre ++ u16_to_be qtype ++ u16_to_be DNS_CLASS_IN ++ rest) as Hm1
    by (unfold m, pre, question; by rewrite <- !(assoc_L (++))).
  assert (put_dns_name hdr name = Ok pre) as Hp by (by rewrite put_dns_name_spec, Hw).
  fold m in Hbm, Hm. rewrite Hm1 in Hbm, Hm |- *. split_and!.
  - rewrite <- Hpre. by apply put_parse_dns_name.
  - by apply dns_read_u16_app.
  - rewrite (assoc_L (++)). apply dns_read_u16_app; [len_lia|unfold u16, DNS_CLASS_IN; lia].
Qed.

Lemma validate_own_question id name qtype flags an ns ar answers :
  u16 id → bytes name → utf8_valid name = true → u16 qtype → u16 flags → u16 an → u16 ns → u16 ar →
  bytes answers → len answers <= U16_MAX → writable name = true → response_flags flags = true →
  validate_dns_response id name qtype (dns_header id flags 1 an ns ar ++ question name qtype ++ answers) =
  Ok (an, len (dns_header id flags 1 an ns ar ++ question name qtype)).
Proof.
  intros Hid Hb Hu Hq Hf Han Hns Har Hans Hlen Hw [Hfl Hrc]%andb_true_iff. apply negb_true_iff in Hfl.
  set (hdr := dns_header id flags 1 an ns ar). assert (len hdr = 12) as Hhdr by done.
  destruct (writable_spec name Hw) as (_ & _ & Hwl).
  assert (len (question name qtype) = len (wire (name_labels name)) + 5) as Hql by (unfold question; len_lia).
  assert (bytes (hdr ++ question name qtype ++ answers)) as Hbm
    by (apply bytes_app; split; [by apply bytes_dns_header|]; apply bytes_app; split; [by apply bytes_question|done]).
  assert (len (hdr ++ question name qtype ++ answers) <= USIZE_MAX) as Hm by (unfold USIZE_MAX, U16_MAX in *; len_lia).
  destruct (question_reads hdr name qtype answers Hbm Hm Hu Hq Hw) as (Hp & Hqt & Hqc).
  destruct (dns_header_reads id flags an ns ar (question name qtype ++ answers) Hid Hf Han) as (H0 & H2 & H4 & H6).
  fold hdr in H0, H2, H4, H6. set (m := hdr ++ question name qtype ++ answers) in *. rewrite Hhdr in *.
  unfold validate_dns_response, DNS_HEADER_LEN. rewrite (proj2 (Z.ltb_ge _ _)) by (unfold m; len_lia).
  rewrite H0. cbn [mbind res_bind]. rewrite Z.eqb_refl. cbn [negb]. rewrite H2. cbn [mbind res_bind].
  rewrite Hfl, Hrc. cbn [negb]. rewrite H4. cbn [mbind res_bind]. rewrite Z.eqb_refl. cbn [negb].
  rewrite Hp. cbn [mbind res_bind]. rewrite (proj2 (Z.ltb_ge _ _)) by (unfold m; len_lia).
  rewrite dns_name_eq_trim. cbn [negb orb]. rewrite Hqt. cbn [mbind res_bind]. rewrite Z.eqb_refl. cbn [negb].
  rewrite Hqc. cbn [mbind res_bind]. rewrite Z.eqb_refl. cbn [negb]. rewrite H6. cbn [mbind res_bind].
  do 2 f_equal. len_lia.
Qed.

(** ** Uncompressed names and AMTRELAY records *)

(** A name in RDATA: its labels, the root, at most 255 bytes. *)
Definition rdata_name (labels : list (list Z)) (input : list Z) : Prop :=
  Forall valid_label labels ∧ input = wire labels ++ [0] ∧ len input <= 255.

Lemma uncompressed_sound input n : ∀ labels cursor name e,
  bytes input → 0 <= cursor → uncompressed_loop n input labels cursor = Ok (name, e) →
  ∃ ls, Forall valid_label ls ∧ name = join_dots (labels ++ ls) ∧ e <= 255 ∧
    get_range input cursor e = Some (wire ls ++ [0]).
Proof.
  induction n as [|n IH]; intros labels cursor name e Hb Hc H; cbn [uncompressed_loop] in H; [done|].
  destruct (get input cursor) as [b|] eqn:Hg; cbn [ok_or mbind res_bind] in H; [|done].
  pose proof (get_u8 _ _ _ Hb Hg) as Hu. rewrite tag_label in H by done.
  destruct (Z.ltb_spec b 64) as [H64|]; cbn [negb] in H; [|done].
  destruct (Z.eqb_spec b 0) as [->|Hb0].
  { destruct (Z.ltb_spec 255 (cursor + 1)); [done|]. simplify_eq. exists [].
    split_and!; [done|by rewrite app_nil_r|done|]. apply get_some_bounds in Hg as Hbd.
    apply get_range_spec. split_and!; [lia..|]. symmetry. by apply get_sub1. }
  unfold checked_add in H. destruct (_ <=? USIZE_MAX); cbn [ok_or mbind res_bind] in H; [|done].
  destruct (get_range input (cursor + 1) (cursor + 1 + b)) as [l|] eqn:Hl; cbn [ok_or mbind res_bind] in H; [|done].
  destruct (utf8_valid l) eqn:Hv; [|done]. destruct (Z.leb_spec 255 (cursor + 1 + b)); [done|].
  apply IH in H as (ls & Hls & -> & He & Hr); [|done|unfold u8 in Hu; lia].
  pose proof (len_get_range _ _ _ _ Hl) as Hlen. exists (l :: ls).
  split_and!; [constructor; [split; [unfold u8 in Hu; lia|done]|done]|by rewrite <- (assoc_L (++))|done|].
  apply get_range_spec in Hl as (? & ? & ->), Hr as (? & ? & Hr). apply get_range_spec. split_and!; [lia..|].
  rewrite wire_cons. cbn [app]. rewrite <- (assoc_L (++)), Hr, Hlen. symmetry.
  replace (cursor + 1 + b - (cursor + 1)) with b by lia.
  rewrite <- (sub_split input cursor (cursor + 1) e), (get_sub1 input cursor b) by (done || lia).
  by rewrite <- (sub_split input (cursor + 1) (cursor + 1 + b) e) by lia.
Qed.

Lemma uncompressed_complete ls : ∀ n labels pre rest,
  bytes (pre ++ wire ls ++ 0 :: rest) → Forall valid_label ls → len pre + len (wire ls) + 1 <= 255 →
  (length ls < n)%nat →
  uncompressed_loop n (pre ++ wire ls ++ 0 :: rest) labels (len pre) =
  Ok (join_dots (labels ++ ls), len pre + len (wire ls) + 1).
Proof.
  induction ls as [|l ls IH]; intros n labels pre rest Hb Hv Hlen Hn; (destruct n as [|n]; [simpl in *; lia|]);
    cbn [uncompressed_loop].
  - cbn [wire mbind list_bind app] in *. change (len []) with 0 in *.
    rewrite get_app_mid by done. cbn [ok_or mbind res_bind]. rewrite tag_label by done. simpl.
    rewrite (proj2 (Z.ltb_ge _ _)) by lia. rewrite app_nil_r. do 2 f_equal. lia.
  - apply Forall_cons in Hv as [[Hl Hu] Hv]. rewrite wire_cons in *. cbn [app] in *.
    rewrite get_app_mid by done. cbn [ok_or mbind res_bind]. rewrite tag_label by (unfold u8; lia).
    rewrite (proj2 (Z.ltb_lt _ _)), (proj2 (Z.eqb_neq _ _)) by lia. cbn [negb]. unfold checked_add, USIZE_MAX.
    rewrite len_cons, len_app in Hlen. rewrite (proj2 (Z.leb_le _ _)) by len_lia. cbn [ok_or mbind res_bind].
    replace (pre ++ len l :: (l ++ wire ls) ++ 0 :: rest) with ((pre ++ [len l]) ++ l ++ wire ls ++ 0 :: rest) in *
      by (by rewrite <- !(assoc_L (++))).
    rewrite get_range_app by len_lia. cbn [ok_or mbind res_bind]. rewrite Hu.
    rewrite (proj2 (Z.leb_gt _ _)) by len_lia.
    replace ((pre ++ [len l]) ++ l ++ wire ls ++ 0 :: rest) with ((pre ++ len l :: l) ++ wire ls ++ 0 :: rest) in *
      by (by rewrite <- !(assoc_L (++))).
    replace (len pre + 1 + len l) with (len (pre ++ len l :: l)) by len_lia.
    rewrite IH by (try done; simpl in *; len_lia). rewrite <- (assoc_L (++)). do 2 f_equal. len_lia.
Qed.

Lemma uncompressed_returns input n : ∀ labels cursor, returns (uncompressed_loop n input labels cursor).
Proof.
  induction n as [|n IH]; intros labels cursor; cbn [uncompressed_loop]; [done|].
  destruct (get input cursor) as [b|]; cbn [ok_or mbind res_bind]; [|done]. destruct (negb _); [done|].
  destruct (b =? 0); [by destruct (_ <? _)|]. destruct (checked_add _ _); cbn [ok_or mbind res_bind]; [|done].
  destruct (get_range _ _ _); cbn [ok_or mbind res_bind]; [|done]. destruct (utf8_valid _); [|done].
  destruct (_ <=? _); [done|apply IH].
Qed.

Lemma parse_rdata_name input name :
  bytes input →
  parse_uncompressed_dns_name input = Ok (name, len input) ↔
  ∃ labels, rdata_name labels input ∧ name = join_dots labels.
Proof.
  intros Hb. unfold parse_uncompressed_dns_name. split.
  - intros H. apply uncompressed_sound in H as (ls & Hls & -> & He & Hr); [|done|lia].
    exists ls. split; [|done]. apply get_range_spec in Hr as (_ & _ & Hr). split_and!; [done| |done].
    rewrite Hr. unfold sub, len. rewrite Nat2Z.id, firstn_all. done.
  - intros (ls & (Hv & -> & Hlen) & ->). pose proof (uncompressed_complete ls 128 [] [] []) as H.
    cbn [app] in H. change (len []) with 0 in H. rewrite Z.add_0_l in H.
    assert (len (wire ls ++ [0]) = len (wire ls) + 1) as Hl by len_lia. rewrite Hl in *. apply H; try done.
    assert (Forall (λ l, 0 < len l) ls) as Hp by (eapply Forall_impl; [done|]; intros l [? _]; lia).
    pose proof (length_labels_bound ls Hp). lia.
Qed.

(** What an AMTRELAY record looks like on the wire (RFC 8777 section 4.2). *)
Definition amtrelay_rdata (rdata : list Z) (r : AmtRelayRecord) : Prop :=
  ∃ kind body,
    rdata = ar_precedence r :: (if ar_discovery_optional r then 128 + kind else kind) :: body ∧ 0 <= kind < 128 ∧
    match ar_target r with
    | NoRelay => kind = 0 ∧ body = []
    | Ipv4Target a => kind = 1 ∧ body = v4_octets a
    | Ipv6Target a => kind = 2 ∧ body = v6_octets a ∧ len body = 16
    | NameTarget name => kind = 3 ∧ name ≠ [] ∧ ∃ labels, rdata_name labels body ∧ name = join_dots labels
    end.

Lemma flags_octet b : u8 b →
  ∃ (d : bool) kind, b = (if d then 128 + kind else kind) ∧ 0 <= kind < 128 ∧
    negb (Z.land b 0x80 =? 0) = d ∧ Z.land b 0x7f = kind.
Proof.
  intros Hb. exists (128 <=? b), (Z.land b 0x7f).
  assert (Z.land b 0x7f = b mod 128) as Hm by (change 127 with (Z.ones 7); by rewrite Z.land_ones).
  pose proof (Z.mod_pos_bound b 128). split_and!; [|lia|lia| |done].
  - rewrite Hm. unfold u8 in Hb. destruct (Z.leb_spec 128 b); [|by rewrite Z.mod_small by lia].
    pose proof (Z.mod_unique b 128 1 (b - 128)). lia.
  - apply eqb_prop. revert b Hb Hm H. assert (∀ b, u8 b → Bool.eqb (negb (Z.land b 128 =? 0)) (128 <=? b) = true) as H
      by (apply u8_check; by vm_compute). intros b Hb _ _. by apply H.
Qed.

Lemma list4_inv {A} (l : list A) : len l = 4 → ∃ a b c d, l = [a; b; c; d].
Proof. unfold len. destruct l as [|a [|b [|c [|d [|]]]]]; simpl; try lia. eauto. Qed.

Lemma copy_zeros16 {E} (l : list Z) : len l = 16 → copy_at (E:=E) (replicate 16 0) 0 16 l = Ok l.
Proof. intros Hl. destruct_octets l Hl. done. Qed.

Lemma parse_amtrelay_rdata_wp rdata :
  bytes rdata → wp (parse_amtrelay_rdata rdata) (amtrelay_rdata rdata) (λ _, ∀ r, ¬ amtrelay_rdata rdata r).
Proof.
  intros Hb. unfold parse_amtrelay_rdata. destruct (Z.ltb_spec (len rdata) 2) as [Hs|Hs].
  { cbn [wp]. intros r (k & body & -> & _). len_lia. }
  destruct rdata as [|p [|f relay]]; [exfalso; len_lia..|]. clear Hs.
  apply bytes_cons in Hb as [Hp Hb]. apply bytes_cons in Hb as [Hf Hb].
  destruct (flags_octet f Hf) as (d & kind & Hfd & Hk & Hdo & Hty).
  change (slice_from (p :: f :: relay) 2) with (Ok relay : res DriadError (list Z)). cbn [mbind res_bind].
  change (idx (E:=DriadError) (p :: f :: relay) 0) with (Ok (E:=DriadError) p).
  change (idx (E:=DriadError) (p :: f :: relay) 1) with (Ok (E:=DriadError) f). cbn [mbind res_bind].
  rewrite Hdo, Hty.
  assert (∀ r k body, p :: f :: relay = ar_precedence r :: (if ar_discovery_optional r then 128 + k else k) :: body →
    0 <= k < 128 → k = kind ∧ body = relay) as Hinv.
  { intros r k body [= _ Hfe ->] Hk'. split; [|done]. rewrite Hfd in Hfe. destruct d, (ar_discovery_optional r); lia. }
  assert (∀ t, match t with
     | NoRelay => kind = 0 ∧ relay = []
     | Ipv4Target a => kind = 1 ∧ relay = v4_octets a
     | Ipv6Target a => kind = 2 ∧ relay = v6_octets a ∧ len relay = 16
     | NameTarget name => kind = 3 ∧ name ≠ [] ∧ ∃ labels, rdata_name labels relay ∧ name = join_dots labels
     end → amtrelay_rdata (p :: f :: relay) (mkAmtRelay p d t)) as Hintro.
  { intros t Ht. exists kind, relay. cbn [ar_precedence ar_discovery_optional ar_target]. by rewrite <- Hfd. }
  apply wp_bind. unfold require_relay_len.
  destruct (Z.eqb_spec kind 0) as [->|H0]; [|destruct (Z.eqb_spec kind 1) as [->|H1];
    [|destruct (Z.eqb_spec kind 2) as [->|H2]; [|destruct (Z.eqb_spec kind 3) as [->|H3]]]].
  - destruct (Z.eqb_spec (len relay) 0) as [Hl|Hl]; cbn [mbind res_bind wp].
    + apply Hintro. split; [done|by apply len_zero_nil].
    + intros r (k & body & He & Hk' & Ht). destruct (Hinv r k body He Hk') as [-> ->].
      destruct (ar_target r); naive_solver.
  - cbn [Z.eqb Pos.eqb]. destruct (Z.eqb_spec (len relay) 4) as [Hl|Hl]; cbn [mbind res_bind].
    + destruct (list4_inv relay Hl) as (a & b & c & e & ->). by apply Hintro.
    + intros r (k & body & He & Hk' & Ht). destruct (Hinv r k body He Hk') as [-> ->].
      destruct (ar_target r); naive_solver.
  - cbn [Z.eqb Pos.eqb]. destruct (Z.eqb_spec (len relay) 16) as [Hl|Hl]; cbn [mbind res_bind].
    + rewrite copy_zeros16 by done. by apply Hintro.
    + intros r (k & body & He & Hk' & Ht). destruct (Hinv r k body He Hk') as [-> ->].
      destruct (ar_target r); naive_solver.
  - apply wp_bind. pose proof (uncompressed_returns relay 128 [] 0) as Hr.
    pose proof (parse_rdata_name relay) as Hn. unfold parse_uncompressed_dns_name in *.
    assert (∀ r, amtrelay_rdata (p :: f :: relay) r →
      ∃ name, name ≠ [] ∧ uncompressed_loop 128 relay [] 0 = Ok (name, len relay)) as Hrec.
    { intros r (k & body & He & Hk' & Ht). destruct (Hinv r k body He Hk') as [-> ->].
      destruct (ar_target r) as [|a|a|name]; [naive_solver..|]. destruct Ht as (_ & Hne & Hls).
      exists name. split; [done|]. by apply Hn. }
    destruct (uncompressed_loop _ _ _ _) as [[name consumed]|e| |]; try done; cbn [wp].
    + destruct (Z.eqb_spec consumed (len relay)) as [->|Hc]; cbn [negb orb].
      * destruct (Z.eqb_spec (len name) 0) as [Hz|Hz]; cbn [wp].
        -- intros r (name' & Hne & [= <-])%Hrec. by apply len_zero_nil in Hz.
        -- apply Hintro. split_and!; [done|by intros ->|by apply Hn].
      * intros r (name' & _ & Heq)%Hrec. injection Heq as _ ->. done.
    + intros r (name' & _ & ?)%Hrec. done.
  - cbn [wp]. intros r (k & body & He & Hk' & Ht). destruct (Hinv r k body He Hk') as [-> ->].
    destruct (ar_target r); naive_solver.
Qed.


(** ** Answers *)

(** [dns_named m o name e]: a name of at most 128 steps, joined. *)
Definition dns_named (m : list Z) (o : Z) (name : list Z) (e : Z) : Prop :=
  ∃ k ls, (k <= 128)%nat ∧ dns_name m k o ls e ∧ name = join_dots ls.

Lemma parse_dns_name_exact m o name e :
  bytes m → len m <= USIZE_MAX → parse_dns_name m o = Ok (name, e) ↔ dns_named m o name e.
Proof.
  intros Hb Hm. unfold parse_dns_name. split.
  - intros (k & ls & e' & Hk & Hn & -> & ->)%parse_name_loop_sound; [|done]. by exists k, ls.
  - intros (k & ls & Hk & Hn & ->). by apply (parse_name_loop_complete m k o ls e Hb Hm Hn 128 [] None).
Qed.

Lemma parse_dns_name_wp' m o :
  bytes m → len m <= USIZE_MAX →
  wp (parse_dns_name m o) (λ '(name, e), dns_named m o name e ∧ ∀ name' e', dns_named m o name' e' → name' = name ∧ e' = e)
    (λ _, ∀ name e, ¬ dns_named m o name e).
Proof.
  intros Hb Hm. pose proof (λ name e, parse_dns_name_exact m o name e Hb Hm) as He.
  pose proof (parse_dns_name_wp m o (λ _, True) Hb (λ _ _ _ _, I)) as Hr.
  destruct (parse_dns_name m o) as [[name e]|err| |]; try done; cbn [wp].
  - split; [by apply He|]. intros name' e' H%He. by simplify_eq.
  - by intros name e H%He.
Qed.

Lemma dns_named_bounds m o name e : dns_named m o name e → 0 <= o ∧ o < e <= len m.
Proof. intros (k & ls & _ & Hn & _). by eapply dns_name_bounds. Qed.

Lemma dns_read_u16_ok m o :
  bytes m → 0 <= o → o + 2 <= len m → ∃ v, dns_read_u16 m o = Ok v ∧ u16 v ∧ sub m o (o + 2) = u16_to_be v.
Proof.
  intros Hb Ho Hl. unfold dns_read_u16. pose proof (len_sub m o (o + 2) ltac:(lia) Hl) as Hs.
  rewrite (proj2 (get_range_spec m o (o + 2) (sub m o (o + 2)))) by (split_and!; [lia..|done]).
  assert (bytes (sub m o (o + 2))) as Hbs by auto. cbn [ok_or mbind res_bind].
  destruct (sub m o (o + 2)) as [|a [|b [|? ?]]]; [exfalso; len_lia..| |exfalso; len_lia].
  apply bytes_cons in Hbs as [Ha Hbs]. apply bytes_cons in Hbs as [Hb' _].
  exists (u16_from_be a b). split_and!; [done|auto|]. by rewrite u16_to_be_from_be.
Qed.
Lemma dns_read_u32_ok m o :
  bytes m → 0 <= o → o + 4 <= len m →
  ∃ v, dns_read_u32 m o = Ok v ∧ u32 v ∧ sub m o (o + 4) = u32_to_be v.
Proof.
  intros Hb Ho Hl. unfold dns_read_u32. pose proof (len_sub m o (o + 4) ltac:(lia) Hl) as Hs.
  rewrite (proj2 (get_range_spec m o (o + 4) (sub m o (o + 4)))) by (split_and!; [lia..|done]).
  assert (bytes (sub m o (o + 4))) as Hbs by auto. cbn [ok_or mbind res_bind].
  destruct (list4_inv (sub m o (o + 4)) ltac:(lia)) as (a & b & c & d & He). rewrite He in *.
  repeat (apply bytes_cons in Hbs as [? Hbs]).
  exists (u32_from_be a b c d). split_and!; [done|auto|]. by rewrite u32_to_be_from_be.
Qed.

(** [answer_at m o a]: a resource record (RFC 1035 section 3.2.1) at [o]. *)
Definition answer_at (m : list Z) (o : Z) (a : answer) : Prop :=
  ∃ e ttl,
    dns_named m o (an_owner a) e ∧ u16 (an_rrtype a) ∧ u16 (an_class a) ∧ u32 ttl ∧ u16 (an_rdlen a) ∧
    sub m e (e + 10) = u16_to_be (an_rrtype a) ++ u16_to_be (an_class a) ++ u32_to_be ttl ++ u16_to_be (an_rdlen a) ∧
    an_ttl a = from_secs ttl ∧ an_offset a = e + 10 ∧ an_rdata_end a = e + 10 + an_rdlen a ∧ an_rdata_end a <= len m.

Inductive answers_at (m : list Z) : nat → Z → list answer → Prop :=
| answers_nil o : answers_at m 0 o []
| answers_cons n o a l : answer_at m o a → answers_at m n (an_rdata_end a) l → answers_at m (S n) o (a :: l).

Lemma sub_add {A} (l : list A) a b c : 0 <= a <= b → b <= c → sub l a c = sub l a b ++ sub l b c.
Proof. intros. by rewrite sub_split. Qed.

Lemma parse_answer_wp c c' m o :
  bytes m → len m <= USIZE_MAX →
  wp (parse_answer c c' m o) (answer_at m o) (λ _, ∀ a, ¬ answer_at m o a).
Proof.
  intros Hb Hm. unfold parse_answer. apply wp_bind. eapply wp_mono; [by apply parse_dns_name_wp'| |]; cycle 1.
  { intros err Hno a (e & ttl & Hn & _). by apply Hno in Hn. }
  intros [owner e] [Hn Huniq]. pose proof (dns_named_bounds _ _ _ _ Hn) as He.
  destruct (Z.ltb_spec (len m) (e + 10)) as [Hs|Hs].
  { cbn [wp]. intros a (e' & ttl & Hn' & _ & _ & _ & Hr & _ & _ & _ & Hend & Hle). apply Huniq in Hn' as [_ ->].
    unfold u16 in Hr. lia. }
  destruct (dns_read_u16_ok m e Hb) as (rrtype & Hr0 & Hu0 & Hs0); [lia..|].
  destruct (dns_read_u16_ok m (e + 2) Hb) as (class & Hr1 & Hu1 & Hs1); [lia..|].
  destruct (dns_read_u32_ok m (e + 4) Hb) as (ttl & Hr2 & Hu2 & Hs2); [lia..|].
  destruct (dns_read_u16_ok m (e + 8) Hb) as (rdlen & Hr3 & Hu3 & Hs3); [lia..|].
  rewrite Hr0, Hr1, Hr2, Hr3. cbn [mbind res_bind].
  replace (e + 2 + 2) with (e + 4) in Hs1 by lia. replace (e + 4 + 4) with (e + 8) in Hs2 by lia.
  replace (e + 8 + 2) with (e + 10) in Hs3 by lia.
  assert (sub m e (e + 10) = u16_to_be rrtype ++ u16_to_be class ++ u32_to_be ttl ++ u16_to_be rdlen) as Hsub.
  { rewrite (sub_add m e (e + 2)), (sub_add m (e + 2) (e + 4)), (sub_add m (e + 4) (e + 8)) by lia.
    by rewrite Hs0, Hs1, Hs2, Hs3. }
  assert (e + 10 + rdlen <= len m ∨ len m < e + 10 + rdlen ∧ ∀ a, ¬ answer_at m o a) as [Hfit|[Hlt Hno]].
  { destruct (Z.le_gt_cases (e + 10 + rdlen) (len m)); [by left|right; split; [lia|]].
    intros a (e' & ttl' & Hn' & _ & _ & _ & Hr & Hsub' & _ & _ & Hend & Hle). apply Huniq in Hn' as [_ ->].
    rewrite Hsub in Hsub'. injection Hsub' as _ _ _ _ _ _ _ _ H1 H2.
    assert (rdlen = an_rdlen a) by (apply u16_to_be_inj; [done..|]; unfold u16_to_be; by rewrite H1, H2). lia. }
  - unfold checked_add. rewrite (proj2 (Z.leb_le _ _)) by lia. cbn [ok_or mbind res_bind].
    rewrite (proj2 (Z.ltb_ge _ _)) by lia. cbn [wp]. exists e, ttl. by split_and!.
  - unfold checked_add. destruct (_ <=? _); cbn [ok_or mbind res_bind wp]; [|done].
    by rewrite (proj2 (Z.ltb_lt _ _)) by lia.
Qed.

(** ** What the two kinds of response hold *)

(** The alias that a DNAME of [owner] gives [query] (RFC 6672). *)
Definition dname_alias (query owner target alias : list Z) : Prop :=
  (eq_ignore_ascii_case (trim_dots query) (trim_dots owner) = true ∧ alias = trim_dots target) ∨
  (eq_ignore_ascii_case (trim_dots query) (trim_dots owner) = false ∧
   ∃ prefix suffix, trim_dots query = prefix ++ DOT :: suffix ∧
     eq_ignore_ascii_case suffix (trim_dots owner) = true ∧ alias = prefix ++ DOT :: trim_dots target).

Lemma ends_with_dot q o :
  ends_with (to_ascii_lowercase q) (to_ascii_lowercase (DOT :: o)) = true ↔
  ∃ prefix suffix, q = prefix ++ DOT :: suffix ∧ eq_ignore_ascii_case suffix o = true.
Proof.
  unfold ends_with, eq_ignore_ascii_case, to_ascii_lowercase. rewrite andb_true_iff, bool_decide_eq_true.
  rewrite !length_fmap. rewrite <- fmap_drop. split.
  - intros [Hl Hd]. rewrite Z.leb_le in Hl. set (n := (length q - length (DOT :: o))%nat) in *.
    rewrite fmap_cons in Hd. apply fmap_cons_inv in Hd as (c & s & Hc & Hs & Hd).
    change (lower DOT) with DOT in Hc. symmetry in Hc. apply lower_dot in Hc as ->.
    exists (take n q), s. split; [by rewrite <- Hd, take_drop|]. by apply bool_decide_eq_true.
  - intros (p & s & -> & Hs). apply bool_decide_eq_true in Hs.
    assert (length s = length o) as Hlen by (rewrite <- (length_fmap lower s), Hs, length_fmap; done).
    split; [unfold len; rewrite Z.leb_le, !length_fmap, length_app; simpl; lia|].
    rewrite length_app. simpl length. replace (_ - _)%nat with (length p) by lia.
    by rewrite drop_app_length, !fmap_cons, Hs.
Qed.

Lemma apply_dname_wp q o t :
  wp (apply_dname q o t)
    (λ r, match r with Some a => dname_alias q o t a | None => ∀ a, ¬ dname_alias q o t a end) (λ _, False).
Proof.
  unfold apply_dname, dname_alias. destruct (eq_ignore_ascii_case (trim_dots q) (trim_dots o)) eqn:Heq; [left; done|].
  destruct (ends_with _ _) eqn:He.
  - apply ends_with_dot in He as (p & s & Hq & Hs). rewrite Hq.
    assert (len s = len (trim_dots o)) as Hl.
    { apply bool_decide_eq_true in Hs. unfold len. by rewrite <- (length_to_ascii_lowercase s), Hs, length_to_ascii_lowercase. }
    apply wp_bind, wp_usize_sub; [len_lia|]. replace (_ - _) with (len p) by len_lia.
    unfold str_to, is_char_boundary. rewrite get_app_mid by done. change (negb (cont DOT)) with true. rewrite orb_true_r.
    rewrite slice_to_ok by len_lia. cbn [mbind res_bind wp]. right. split; [done|]. exists p, s.
    unfold len. rewrite Nat2Z.id, take_app_length. by split_and!.
  - cbn [wp]. intros a [[? _]|(_ & p & s & Hq & Hs & _)]; [done|].
    assert (ends_with (to_ascii_lowercase (trim_dots q)) (to_ascii_lowercase (DOT :: trim_dots o)) = true); [|congruence].
    apply ends_with_dot. eauto.
Qed.

(** What an answer adds to the response for an AMTRELAY query. *)
Definition gives_record (qn m : list Z) (a : answer) (t : Timed AmtRelayRecord) : Prop :=
  an_class a = DNS_CLASS_IN ∧ an_rrtype a = AMTRELAY_RRTYPE ∧ dns_name_eq (an_owner a) qn = true ∧
  amtrelay_rdata (sub m (an_offset a) (an_rdata_end a)) (td_value t) ∧ td_ttl t = an_ttl a.
Definition gives_alias (qn m : list Z) (a : answer) (t : Timed (list Z)) : Prop :=
  an_class a = DNS_CLASS_IN ∧ td_ttl t = an_ttl a ∧
  ((an_rrtype a = DNS_TYPE_CNAME ∧ dns_name_eq (an_owner a) qn = true ∧
    dns_named m (an_offset a) (td_value t) (an_rdata_end a)) ∨
   (an_rrtype a = DNS_TYPE_DNAME ∧ ∃ target, dns_named m (an_offset a) target (an_rdata_end a) ∧
      dname_alias qn (an_owner a) target (td_value t))).

(** [adds P l l']: [l'] is [l] and at most one element more, which is the one [P] allows. *)
Definition adds {A} (P : A → Prop) (l l' : list A) : Prop :=
  (l' = l ∧ ∀ x, ¬ P x) ∨ ∃ x, l' = l ++ [x] ∧ ∀ y, P y ↔ y = x.
Lemma adds_none {A} (P : A → Prop) l : (∀ x, ¬ P x) → adds P l l.
Proof. by left. Qed.
Lemma adds_elem {A} (P : A → Prop) l l' x : adds P l l' → x ∈ l' ↔ x ∈ l ∨ P x.
Proof. intros [[-> HP]|(y & -> & HP)]; set_solver. Qed.

Lemma amtrelay_rdata_det rdata r r' : bytes rdata → amtrelay_rdata rdata r → amtrelay_rdata rdata r' → r = r'.
Proof.
  intros Hb (k & body & -> & Hk & Ht) (k' & body' & [= Hp Hf <-] & Hk' & Ht').
  apply bytes_cons in Hb as [_ Hb]. apply bytes_cons in Hb as [_ Hb].
  destruct r as [p d t], r' as [p' d' t']; cbn [ar_precedence ar_discovery_optional ar_target] in *. subst p'.
  assert (d = d' ∧ k = k') as [-> ->] by (destruct d, d'; split; try done; lia).
  f_equal. destruct t, t'; try (destruct_and!; lia); try done.
  - destruct Ht as [_ ->], Ht' as [_ H]. f_equal. by apply v4_octets_inj.
  - destruct Ht as (_ & -> & _), Ht' as (_ & H & _). destruct addr, addr0. by simplify_eq/=.
  - destruct Ht as (_ & _ & H), Ht' as (_ & _ & H'). apply (parse_rdata_name _ _ Hb) in H, H'. rewrite H in H'. by injection H' as ->.
Qed.

Lemma dname_alias_det q o t a a' : dname_alias q o t a → dname_alias q o t a' → a = a'.
Proof.
  intros [[He ->]|(He & p & s & Hq & Hs & ->)] [[He' ->]|(He' & p' & s' & Hq' & Hs' & ->)]; try congruence.
  assert (length s = length s') as Hl.
  { apply bool_decide_eq_true in Hs, Hs'. by rewrite <- (length_to_ascii_lowercase s), Hs, <- Hs', length_to_ascii_lowercase. }
  rewrite Hq in Hq'. apply app_inj_2 in Hq' as [-> _]; [done|]. simpl. by rewrite Hl.
Qed.

Lemma dns_named_det m o n e n' e' :
  bytes m → len m <= USIZE_MAX → dns_named m o n e → dns_named m o n' e' → n = n' ∧ e = e'.
Proof. intros Hb Hm H H'. apply parse_dns_name_exact in H, H'; [|done..]. rewrite H in H'. by injection H' as -> ->. Qed.

Lemma adds_record qn m a l t :
  bytes m → gives_record qn m a t → adds (gives_record qn m a) l (l ++ [t]).
Proof.
  intros Hb Ht. right. exists t. split; [done|]. intros y. split; [|by intros ->]. destruct t as [v ttl], y as [v' ttl'].
  destruct Ht as (_ & _ & _ & Hr & Hl). intros (_ & _ & _ & Hr' & Hl'). cbn [td_value td_ttl] in *.
  f_equal; [|congruence]. eapply amtrelay_rdata_det; [|done..]. auto.
Qed.
Lemma adds_alias qn m a l t :
  bytes m → len m <= USIZE_MAX → gives_alias qn m a t → adds (gives_alias qn m a) l (l ++ [t]).
Proof.
  intros Hb Hm Ht. right. exists t. split; [done|]. intros y. split; [|by intros ->]. destruct t as [v ttl], y as [v' ttl'].
  destruct Ht as (_ & Hl & Hc). intros (_ & Hl' & Hc'). cbn [td_value td_ttl] in *. f_equal; [|congruence].
  destruct Hc as [(Ht & _ & Hn)|(Ht & t & Hn & Hd)], Hc' as [(Ht' & _ & Hn')|(Ht' & t' & Hn' & Hd')];
    rewrite Ht in Ht'; try done.
  - by destruct (dns_named_det m _ _ _ _ _ Hb Hm Hn' Hn).
  - destruct (dns_named_det m _ _ _ _ _ Hb Hm Hn' Hn) as [-> _]. by eapply dname_alias_det.
Qed.

Definition relay_answer_adds (qn m : list Z) (a : answer) (r r' : DnsAmtRelayResponse) : Prop :=
  adds (gives_record qn m a) (dr_records r) (dr_records r') ∧ adds (gives_alias qn m a) (dr_aliases r) (dr_aliases r').

Lemma answer_at_bounds m o a :
  answer_at m o a → 0 <= o < an_offset a ∧ an_rdata_end a = an_offset a + an_rdlen a ∧ 0 <= an_rdlen a ∧ an_rdata_end a <= len m.
Proof.
  intros (e & ttl & Hn & _ & _ & _ & Hr & _ & _ & Ho & He & Hle). apply dns_named_bounds in Hn. unfold u16 in Hr. lia.
Qed.

(** An alias whose RDATA is not a name, the one defect of an answer that fails the response. *)
Definition unreadable_alias (qn m : list Z) (a : answer) : Prop :=
  an_class a = DNS_CLASS_IN ∧
  ((an_rrtype a = DNS_TYPE_CNAME ∧ dns_name_eq (an_owner a) qn = true) ∨ an_rrtype a = DNS_TYPE_DNAME) ∧
  ∀ name e, ¬ dns_named m (an_offset a) name e.

Lemma relay_answer_wp qn m o r a :
  bytes m → len m <= USIZE_MAX → answer_at m o a →
  wp (relay_answer qn m r a) (relay_answer_adds qn m a r) (λ _, unreadable_alias qn m a).
Proof.
  intros Hb Hm (Ho & He & Hl & Hle)%answer_at_bounds. unfold relay_answer, relay_answer_adds.
  destruct (Z.eqb_spec (an_class a) DNS_CLASS_IN) as [Hc|Hc]; cbn [andb]; cycle 1.
  { split; apply adds_none; by intros t (? & _). }
  destruct (Z.eqb_spec (an_rrtype a) AMTRELAY_RRTYPE) as [Ht|Ht]; cbn [andb].
  - assert (∀ l, adds (gives_alias qn m a) l l) as Hal.
    { intros l. apply adds_none. intros t (_ & _ & [(Ht' & _)|(Ht' & _)]); by rewrite Ht in Ht'. }
    rewrite Ht. cbn [Z.eqb Pos.eqb AMTRELAY_RRTYPE DNS_TYPE_CNAME DNS_TYPE_DNAME andb].
    destruct (dns_name_eq (an_owner a) qn) eqn:Hq; [|split; [apply adds_none|done]; by intros t (_ & _ & Hq' & _); rewrite Hq in Hq'].
    apply wp_bind, wp_slice; [lia..|]. intros _.
    pose proof (parse_amtrelay_rdata_wp (sub m (an_offset a) (an_rdata_end a)) ltac:(auto)) as Hp.
    destruct (parse_amtrelay_rdata _) as [record|err| |]; try done; cbn [wp] in *; (split; [|done]).
    + apply adds_record; [done|]. by split_and!.
    + apply adds_none. intros t (_ & _ & _ & Hr & _). by apply Hp in Hr.
  - assert (∀ l, adds (gives_record qn m a) l l) as Hre by (intros l; apply adds_none; by intros t (_ & ? & _)).
    destruct (Z.eqb_spec (an_rrtype a) DNS_TYPE_CNAME) as [Ht'|Ht']; cbn [andb].
    + rewrite Ht'. cbn [Z.eqb Pos.eqb DNS_TYPE_CNAME DNS_TYPE_DNAME andb].
      destruct (dns_name_eq (an_owner a) qn) eqn:Hq; cycle 1.
      { split; [done|]. apply adds_none. intros t (_ & _ & [(_ & Hq' & _)|(? & _)]); [by rewrite Hq in Hq'|by rewrite Ht' in *]. }
      apply wp_bind. eapply wp_mono; [by apply parse_dns_name_wp'| |intros ? ?; split_and!; by auto].
      intros [alias e] [Hn Hu].
      destruct (Z.eqb_spec e (an_rdata_end a)) as [->|Hne]; (split; [done|]); cbn [dr_aliases].
      * apply adds_alias; [done..|]. split_and!; [done..|]. by left.
      * apply adds_none. intros t (_ & _ & [(_ & _ & Hn')|(? & _)]); [|by rewrite Ht' in *]. by apply Hu in Hn' as [_ ?].
    + destruct (Z.eqb_spec (an_rrtype a) DNS_TYPE_DNAME) as [Hd|Hd]; cycle 1.
      { split; [done|]. apply adds_none. by intros t (_ & _ & [(? & _)|(? & _)]). }
      apply wp_bind. eapply wp_mono; [by apply parse_dns_name_wp'| |intros ? ?; split_and!; by auto].
      intros [target e] [Hn Hu].
      destruct (Z.eqb_spec e (an_rdata_end a)) as [->|Hne]; cycle 1.
      { split; [done|]. apply adds_none. intros t (_ & _ & [(? & _)|(_ & t' & Hn' & _)]); [done|]. by apply Hu in Hn' as [_ ?]. }
      apply wp_bind. eapply wp_mono; [apply apply_dname_wp| |done]. intros [alias|] Hal; (split; [done|]); cbn [dr_aliases].
      * apply adds_alias; [done..|]. split_and!; [done..|]. right. eauto.
      * apply adds_none. intros t (_ & _ & [(? & _)|(_ & t' & Hn' & Hd')]); [done|]. apply Hu in Hn' as [-> _]. by apply Hal in Hd'.
Qed.

(** The 16-bit field at [o] of [m] is [v]. *)
Definition field16 (m : list Z) (o v : Z) : Prop := u16 v ∧ sub m o (o + 2) = u16_to_be v.
Lemma field16_det m o v w : field16 m o v → field16 m o w → v = w.
Proof. intros [? H] [? H']. apply u16_to_be_inj; congruence. Qed.

Lemma wp_dns_read_u16 m o (Q : Z → Prop) R :
  bytes m → 0 <= o → o + 2 <= len m → (∀ v, field16 m o v → Q v) → wp (dns_read_u16 m o) Q R.
Proof. intros Hb Ho Hl HQ. destruct (dns_read_u16_ok m o Hb Ho Hl) as (v & -> & ? & ?). by apply HQ. Qed.

(** [response_to id qn qtype m an o]: [m] is a response, without error, to the
    question [qn], [qtype] asked with [id]; it has [an] answers, the first at [o]. *)
Definition response_to (id : Z) (qn : list Z) (qtype : Z) (m : list Z) (an o : Z) : Prop :=
  DNS_HEADER_LEN <= len m ∧ field16 m 0 id ∧ field16 m 4 1 ∧ field16 m 6 an ∧
  (∃ flags, field16 m 2 flags ∧ response_flags flags = true) ∧
  ∃ name e, dns_named m DNS_HEADER_LEN name e ∧ dns_name_eq name qn = true ∧
    field16 m e qtype ∧ field16 m (e + 2) DNS_CLASS_IN ∧ o = e + 4 ∧ o <= len m.

Ltac refuse := cbn [wp]; intros ? ? (_ & Hid' & Hqd' & _ & (flags' & Hfl' & Hok') & name' & e' & Hn' & Hq' & Hqt' & Hqc' & -> & Hle').

Lemma validate_dns_response_wp id qn qtype m :
  bytes m → len m <= USIZE_MAX →
  wp (validate_dns_response id qn qtype m) (λ '(an, o), response_to id qn qtype m an o)
    (λ _, ∀ an o, ¬ response_to id qn qtype m an o).
Proof.
  intros Hb Hm. unfold validate_dns_response.
  destruct (Z.ltb_spec (len m) DNS_HEADER_LEN) as [Hs|Hs]; [cbn [wp]; intros an o [? _]; lia|].
  unfold DNS_HEADER_LEN in Hs.
  apply wp_bind, wp_dns_read_u16; [done|lia..|]. intros aid Hid.
  destruct (Z.eqb_spec aid id) as [->|Hne]; cbn [negb]; [|refuse; by eapply Hne, field16_det].
  apply wp_bind, wp_dns_read_u16; [done|lia..|]. intros flags Hfl. destruct (response_flags flags) eqn:Hok; cycle 1.
  { unfold response_flags in Hok. destruct (_ || _) eqn:Hf; [refuse|].
    - by rewrite (field16_det _ _ _ _ Hfl' Hfl) in Hok'; unfold response_flags in Hok'; rewrite Hf in Hok'.
    - cbn [negb andb] in Hok. rewrite Hok. refuse. rewrite (field16_det _ _ _ _ Hfl' Hfl) in Hok'.
      unfold response_flags in Hok'. rewrite Hok, andb_false_r in Hok'. done. }
  pose proof Hok as [Hfl0 Hrc]%andb_true_iff. rewrite (proj1 (negb_true_iff _) Hfl0), Hrc. cbn [negb].
  apply wp_bind, wp_dns_read_u16; [done|lia..|]. intros qd Hqd.
  destruct (Z.eqb_spec qd 1) as [->|Hne]; cbn [negb]; [|refuse; by eapply Hne, field16_det].
  apply wp_bind. eapply wp_mono; [by apply parse_dns_name_wp'| |]; cycle 1.
  { intros err Hno. refuse. by apply Hno in Hn'. }
  intros [name e] [Hn Hu]. pose proof (dns_named_bounds _ _ _ _ Hn) as He. unfold DNS_HEADER_LEN in He.
  destruct (Z.ltb_spec (len m) (e + 4)) as [Hs4|Hs4]; cbn [orb]; [refuse; apply Hu in Hn' as [-> ->]; lia|].
  destruct (dns_name_eq name qn) eqn:Hq; cbn [negb]; [|refuse; apply Hu in Hn' as [-> ->]; congruence].
  apply wp_bind, wp_dns_read_u16; [done|lia..|]. intros qt Hqt.
  destruct (Z.eqb_spec qt qtype) as [->|Hne]; cbn [negb]; [|refuse; apply Hu in Hn' as [-> ->]; by eapply Hne, field16_det].
  apply wp_bind, wp_dns_read_u16; [done|lia..|]. intros qc Hqc.
  destruct (Z.eqb_spec qc DNS_CLASS_IN) as [->|Hne]; cbn [negb]; [|refuse; apply Hu in Hn' as [-> ->]; by eapply Hne, field16_det].
  apply wp_bind, wp_dns_read_u16; [done|lia..|]. intros an Han. cbn [wp].
  split; [done|]. split_and!; try done; [by exists flags|]. exists name, e. split_and!; try done; lia.
Qed.

Lemma answer_at_det m o a a' : bytes m → len m <= USIZE_MAX → answer_at m o a → answer_at m o a' → a = a'.
Proof.
  intros Hb Hm (e & ttl & Hn & H1 & H2 & H3 & H4 & Hs & Ht & Ho & He & _)
    (e' & ttl' & Hn' & H1' & H2' & H3' & H4' & Hs' & Ht' & Ho' & He' & _).
  destruct (dns_named_det m _ _ _ _ _ Hb Hm Hn Hn') as [Hown <-]. rewrite Hs in Hs'.
  destruct a, a'; cbn in *. injection Hs' as A B C D F G H I J K. subst.
  assert (an_rrtype0 = an_rrtype1) as -> by (apply u16_to_be_inj; [done..|]; unfold u16_to_be; congruence).
  assert (an_class0 = an_class1) as -> by (apply u16_to_be_inj; [done..|]; unfold u16_to_be; congruence).
  assert (an_rdlen0 = an_rdlen1) as -> by (apply u16_to_be_inj; [done..|]; unfold u16_to_be; congruence).
  assert (ttl = ttl') as -> by (rewrite <- (u32_from_be_to_be ttl), <- (u32_from_be_to_be ttl') by done; congruence). done.
Qed.

Lemma relay_answers_wp qn m n : ∀ r o,
  bytes m → len m <= USIZE_MAX →
  wp (relay_answers n qn m r o)
    (λ r', ∃ l, answers_at m n o l ∧
       (∀ t, t ∈ dr_records r' ↔ t ∈ dr_records r ∨ ∃ a, a ∈ l ∧ gives_record qn m a t) ∧
       (∀ t, t ∈ dr_aliases r' ↔ t ∈ dr_aliases r ∨ ∃ a, a ∈ l ∧ gives_alias qn m a t))
    (λ _, ∀ l, answers_at m n o l → ∃ a, a ∈ l ∧ unreadable_alias qn m a).
Proof.
  induction n as [|n IH]; intros r o Hb Hm; cbn [relay_answers].
  { cbn [wp]. exists []. split; [constructor|]. split; set_solver. }
  apply wp_bind. eapply wp_mono; [by apply parse_answer_wp| |]; cycle 1.
  { intros err Hno l Hl. inversion Hl; subst. by exfalso; eapply Hno. }
  intros a Ha. apply wp_bind. eapply wp_mono; [by eapply relay_answer_wp| |]; cycle 1.
  { intros err Hu l Hl. inversion Hl; subst. exists a. rewrite (answer_at_det m o a a0 Hb Hm) by done.
    split; [by left|]. by rewrite <- (answer_at_det m o a a0 Hb Hm). }
  intros r1 [Hr1 Ha1]. eapply wp_mono; [by apply IH| |].
  - intros r' (l & Hl & Hr & Hal). exists (a :: l). split; [by constructor|]. split; intros t.
    + rewrite Hr, (adds_elem _ _ _ _ Hr1). set_solver.
    + rewrite Hal, (adds_elem _ _ _ _ Ha1). set_solver.
  - intros err Hno l Hl. inversion Hl as [|? ? a' l' Ha' Hl']; subst.
    rewrite <- (answer_at_det m o a a' Hb Hm) in Hl' by done. destruct (Hno l' Hl') as (x & ? & ?).
    exists x. split; [by right|done].
Qed.

(** The same for a query of host addresses. *)
Definition gives_address (qn : list Z) (qtype : Z) (m : list Z) (a : answer) (t : Timed IpAddr) : Prop :=
  an_class a = DNS_CLASS_IN ∧ dns_name_eq (an_owner a) qn = true ∧ an_rrtype a = qtype ∧ td_ttl t = an_ttl a ∧
  match td_value t with
  | V4 ip => qtype = DNS_TYPE_A ∧ an_rdlen a = 4 ∧ sub m (an_offset a) (an_rdata_end a) = v4_octets ip
  | V6 ip => qtype = DNS_TYPE_AAAA ∧ an_rdlen a = 16 ∧ sub m (an_offset a) (an_rdata_end a) = v6_octets ip
  end.
Definition gives_cname (qn m : list Z) (a : answer) (t : Timed (list Z)) : Prop :=
  an_class a = DNS_CLASS_IN ∧ dns_name_eq (an_owner a) qn = true ∧ an_rrtype a = DNS_TYPE_CNAME ∧
  td_ttl t = an_ttl a ∧ dns_named m (an_offset a) (td_value t) (an_rdata_end a).

Lemma gives_address_det qn qtype m a t t' : gives_address qn qtype m a t → gives_address qn qtype m a t' → t = t'.
Proof.
  destruct t as [v ttl], t' as [v' ttl']. intros (_ & _ & _ & Hl & Hv) (_ & _ & _ & Hl' & Hv'). cbn [td_value td_ttl] in *.
  f_equal; [|congruence]. destruct v, v'; destruct Hv as (Hq & _ & Hs), Hv' as (Hq' & _ & Hs'); rewrite Hs in Hs'; try by rewrite Hq in Hq'.
  - f_equal. by apply v4_octets_inj.
  - match goal with |- V6 ?x = V6 ?y => destruct x, y end. by simplify_eq/=.
Qed.
Lemma adds_address qn qtype m a l t : gives_address qn qtype m a t → adds (gives_address qn qtype m a) l (l ++ [t]).
Proof. intros Ht. right. exists t. split; [done|]. intros y. split; [|by intros ->]. intros. by eapply gives_address_det. Qed.

Definition address_answer_adds (qn : list Z) (qtype : Z) (m : list Z) (a : answer) (r r' : DnsAddressResponse) : Prop :=
  adds (gives_address qn qtype m a) (da_addresses r) (da_addresses r') ∧
  ((da_alias r' = da_alias r ∧ ∀ t, ¬ gives_cname qn m a t) ∨ ∃ t, da_alias r' = Some t ∧ gives_cname qn m a t).

Lemma address_answer_wp qn qtype m o r a :
  bytes m → len m <= USIZE_MAX → answer_at m o a →
  wp (address_answer qn qtype m r a) (address_answer_adds qn qtype m a r) (λ _, unreadable_alias qn m a).
Proof.
  intros Hb Hm (Ho & He & Hl & Hle)%answer_at_bounds. unfold address_answer, address_answer_adds.
  destruct (Z.eqb_spec (an_class a) DNS_CLASS_IN) as [Hc|Hc]; cbn [andb]; cycle 1.
  { split; [apply adds_none|left; split; [done|]]; by intros t (? & _). }
  destruct (dns_name_eq (an_owner a) qn) eqn:Hq; cycle 1.
  { split; [apply adds_none|left; split; [done|]]; intros t (_ & Hq' & _); by rewrite Hq in Hq'. }
  destruct (Z.eqb_spec (an_rrtype a) DNS_TYPE_CNAME) as [Ht|Ht].
  { rewrite Ht. cbn [Z.eqb Pos.eqb DNS_TYPE_CNAME DNS_TYPE_A DNS_TYPE_AAAA andb].
    assert (∀ l, adds (gives_address qn qtype m a) l l) as Hno.
    { intros l. apply adds_none. intros t (_ & _ & Hqt & _ & Hv). rewrite Ht in Hqt. subst qtype.
      destruct (td_value t); by destruct Hv as [? _]. }
    apply wp_bind. eapply wp_mono; [by apply parse_dns_name_wp'| |intros ? ?; split_and!; by auto].
    intros [name e] [Hn Hu]. destruct (Z.eqb_spec e (an_rdata_end a)) as [->|Hne]; (split; [done|]); [right|left].
    - eexists. split; [done|]. by split_and!.
    - split; [done|]. intros t (_ & _ & _ & _ & Hn'). by apply Hu in Hn' as [_ ?]. }
  assert (∀ x : option (Timed (list Z)), x = x ∧ (∀ t, ¬ gives_cname qn m a t) ∨
    ∃ t, x = Some t ∧ gives_cname qn m a t) as Hal by (intros x; left; split; [done|]; by intros t (_ & _ & ? & _)).
  destruct ((an_rrtype a =? DNS_TYPE_A) && (an_rdlen a =? 4) && (qtype =? DNS_TYPE_A)) eqn:HA.
  { apply andb_true_iff in HA as [[HA Hr]%andb_true_iff Hqt]. apply Z.eqb_eq in HA, Hr, Hqt.
    do 4 (apply wp_bind, wp_idx; [lia|intros ? ?]). cbn [wp]. split; [|apply Hal]. apply adds_address.
    split_and!; [done..|congruence|done|]. cbn [td_value]. split_and!; [done..|]. rewrite He, Hr. by apply sub4; [lia| | | |]. }
  destruct ((an_rrtype a =? DNS_TYPE_AAAA) && (an_rdlen a =? 16) && (qtype =? DNS_TYPE_AAAA)) eqn:H6.
  { apply andb_true_iff in H6 as [[H6 Hr]%andb_true_iff Hqt]. apply Z.eqb_eq in H6, Hr, Hqt.
    apply wp_bind, wp_slice; [lia..|]. intros Hlen. rewrite copy_zeros16 by lia. cbn [mbind res_bind wp].
    split; [|apply Hal]. apply adds_address. split_and!; [done..|congruence|done|]. cbn [td_value]. by split_and!. }
  cbn [wp]. split; [|apply Hal]. apply adds_none. intros t (_ & _ & Hqt & _ & Hv). subst qtype.
  destruct (td_value t); destruct Hv as (H1 & H2 & _); rewrite H1, H2 in *; done.
Qed.

Lemma address_answers_wp qn qtype m n : ∀ r o,
  bytes m → len m <= USIZE_MAX →
  wp (address_answers n qn qtype m r o)
    (λ r', ∃ l, answers_at m n o l ∧
       (∀ t, t ∈ da_addresses r' ↔ t ∈ da_addresses r ∨ ∃ a, a ∈ l ∧ gives_address qn qtype m a t) ∧
       ((da_alias r' = da_alias r ∧ ∀ a t, a ∈ l → ¬ gives_cname qn m a t) ∨
        ∃ a t, a ∈ l ∧ da_alias r' = Some t ∧ gives_cname qn m a t))
    (λ _, ∀ l, answers_at m n o l → ∃ a, a ∈ l ∧ unreadable_alias qn m a).
Proof.
  induction n as [|n IH]; intros r o Hb Hm; cbn [address_answers].
  { cbn [wp]. exists []. split; [constructor|]. split; [set_solver|left; set_solver]. }
  apply wp_bind. eapply wp_mono; [by apply parse_answer_wp| |]; cycle 1.
  { intros err Hno l Hl. inversion Hl; subst. by exfalso; eapply Hno. }
  intros a Ha. apply wp_bind. eapply wp_mono; [by eapply address_answer_wp| |]; cycle 1.
  { intros err Hu l Hl. inversion Hl; subst. exists a. rewrite (answer_at_det m o a a0 Hb Hm) by done.
    split; [by left|]. by rewrite <- (answer_at_det m o a a0 Hb Hm). }
  intros r1 [Hr1 Ha1]. eapply wp_mono; [by apply IH| |].
  - intros r' (l & Hl & Hr & Hal). exists (a :: l). split; [by constructor|]. split.
    + intros t. rewrite Hr, (adds_elem _ _ _ _ Hr1). set_solver.
    + destruct Hal as [[Heq Hno]|(b & t & Hb' & Heq & Hg)]; [|right; exists b, t; split_and!; [by right|done..]].
      destruct Ha1 as [[Heq1 Hno1]|(t & Heq1 & Hg)]; [left; split; [congruence|]|right; exists a, t; split_and!; [by left|congruence|done]].
      intros b t [->|Hb']%elem_of_cons; [apply Hno1|by apply Hno].
  - intros err Hno l Hl. inversion Hl as [|? ? a' l' Ha' Hl']; subst.
    rewrite <- (answer_at_det m o a a' Hb Hm) in Hl' by done. destruct (Hno l' Hl') as (x & ? & ?).
    exists x. split; [by right|done].
Qed.

(** ** Reverse names *)

Lemma trim_dots_snoc s c : c ≠ DOT → trim_dots (s ++ [c]) = s ++ [c].
Proof.
  intros Hc. induction s as [|d s IH]; cbn [app trim_dots]; [by rewrite (proj2 (Z.eqb_neq _ _))|].
  rewrite IH. by destruct s.
Qed.
Lemma join_dots_snoc ls l c : ∃ p, join_dots (ls ++ [l ++ [c]]) = p ++ [c].
Proof.
  destruct ls as [|k ls]; simpl; [exists l; by rewrite app_nil_r|].
  rewrite bind_app. exists (k ++ (ls ≫= cons DOT) ++ DOT :: l). simpl. by rewrite app_nil_r, <- !(assoc_L (++)).
Qed.

Definition label_ok (l : list Z) : bool := (0 <? len l) && (len l <=? 4) && forallb (λ c, (c <? 128) && negb (c =? DOT) && (0 <=? c) && (lower c =? c)) l.
Lemma dec_digits_ok b : u8 b → label_ok (dec_digits b) = true.
Proof. revert b. apply u8_check. by vm_compute. Qed.
Lemma hex_digits_ok b : u8 b → label_ok (hex_digits b) = true.
Proof. revert b. apply u8_check. by vm_compute. Qed.

Lemma u8_check2 (P : Z → Z → bool) :
  forallb (λ a, forallb (P a) (seqZ 0 256)) (seqZ 0 256) = true → ∀ a b, u8 a → u8 b → P a b = true.
Proof. intros H a b Ha. revert b. apply u8_check. revert a Ha. by apply (u8_check (λ a, forallb (P a) (seqZ 0 256))). Qed.
Lemma dec_digits_inj a b : u8 a → u8 b → dec_digits a = dec_digits b → a = b.
Proof.
  intros Ha Hb He. assert (implb (bool_decide (dec_digits a = dec_digits b)) (a =? b) = true) as H.
  { revert a b Ha Hb He. intros a b Ha Hb _. revert a b Ha Hb. apply u8_check2. by vm_compute. }
  rewrite (bool_decide_eq_true_2 _ He) in H. by apply Z.eqb_eq.
Qed.
Lemma nibbles_inj a b :
  u8 a → u8 b → hex_digits (Z.land a 15) = hex_digits (Z.land b 15) →
  hex_digits (Z.shiftr a 4) = hex_digits (Z.shiftr b 4) → a = b.
Proof.
  intros Ha Hb H1 H2.
  assert (implb (bool_decide (hex_digits (Z.land a 15) = hex_digits (Z.land b 15)) &&
                 bool_decide (hex_digits (Z.shiftr a 4) = hex_digits (Z.shiftr b 4))) (a =? b) = true) as H.
  { clear H1 H2. revert a b Ha Hb. apply u8_check2. by vm_compute. }
  rewrite (bool_decide_eq_true_2 _ H1), (bool_decide_eq_true_2 _ H2) in H. by apply Z.eqb_eq.
Qed.

Definition nibbles (byte : Z) : list (list Z) := [hex_digits (Z.land byte 0x0f); hex_digits (Z.shiftr byte 4)].
Lemma nibbles_ok b : u8 b → Forall (λ l, label_ok l = true) (nibbles b).
Proof.
  intros Hb. assert (forallb label_ok (nibbles b) = true) as H by (revert b Hb; apply u8_check; by vm_compute).
  apply Forall_forall. intros l Hl. by eapply forallb_forall in H; [|by apply list_elem_of_In].
Qed.
Lemma bind_nibbles_inj l k : bytes l → bytes k → l ≫= nibbles = k ≫= nibbles → l = k.
Proof.
  intros Hl. revert k. induction Hl as [|a l Ha Hl IH]; intros [|b k] Hk He; try done.
  apply bytes_cons in Hk as [Hb Hk]. injection He as H1 H2 He. f_equal; [by apply nibbles_inj|by apply IH].
Qed.

(** The labels of a reverse name but the last. *)
Definition reverse_prefix (source : IpAddr) : list (list Z) :=
  match source with
  | V4 a => [dec_digits (v4_d a); dec_digits (v4_c a); dec_digits (v4_b a); dec_digits (v4_a a); ascii_bytes "in-addr"]
  | V6 a => (reverse (v6_octets a) ≫= nibbles) ++ [ascii_bytes "ip6"]
  end.
Lemma reverse_labels_prefix source : reverse_labels source = reverse_prefix source ++ [ascii_bytes "arp" ++ [97]].
Proof. destruct source; [done|]. unfold reverse_labels, reverse_prefix. by rewrite <- (assoc_L (++)). Qed.

Definition reverse_label (l : list Z) : Prop := label_ok l = true ∨ l = ascii_bytes "in-addr" ∨ l = ascii_bytes "arpa".
Lemma reverse_labels_ok source : ip_wf source → Forall reverse_label (reverse_labels source).
Proof.
  intros Hs. destruct source as [a|a]; cbn [ip_wf reverse_labels] in *.
  - destruct a as [a b c d]. unfold ipv4_wf, v4_octets in Hs. cbn in Hs. repeat (apply bytes_cons in Hs as [? Hs]).
    unfold reverse_label. repeat (apply Forall_cons; split); auto using dec_digits_ok.
  - destruct Hs as [_ Hb]. apply Forall_app. split; [|unfold reverse_label; repeat (apply Forall_cons; split); auto].
    apply Forall_bind. apply Forall_reverse. eapply Forall_impl; [exact Hb|]. intros b Hb'.
    eapply Forall_impl; [by apply nibbles_ok|]. by left.
Qed.

Lemma label_ok_spec l : reverse_label l → 0 < len l <= 7 ∧ no_dot l ∧ bytes l ∧ utf8_valid l = true ∧ to_ascii_lowercase l = l.
Proof.
  intros [Hl|[->| ->]]; [|decide_ok..]. apply andb_true_iff in Hl as [[H0 H4]%andb_true_iff Hf].
  apply Z.ltb_lt in H0. apply Z.leb_le in H4.
  assert (Forall (λ c, 0 <= c < 128 ∧ c ≠ DOT ∧ lower c = c) l) as Hc.
  { apply Forall_forall. intros c Hc. eapply forallb_forall in Hf; [|by apply list_elem_of_In].
    apply andb_true_iff in Hf as [[[? ?%negb_true_iff%Z.eqb_neq]%andb_true_iff ?]%andb_true_iff ?%Z.eqb_eq]. lia. }
  split_and!; [lia..| | | |].
  - eapply Forall_impl; [exact Hc|]. by intros c (_ & ? & _).
  - eapply Forall_impl; [exact Hc|]. intros c [? _]. unfold u8. lia.
  - clear - Hc. induction Hc as [|c l [Hc _] _ IH]; [done|].
    change (c :: l) with ([] ++ c :: l). by rewrite utf8_valid_ascii.
  - unfold to_ascii_lowercase. rewrite <- (list_fmap_id l) at 2. apply list_fmap_ext.
    intros i c Hi. by apply (Forall_lookup_1 _ _ _ _ Hc) in Hi as (_ & _ & ?).
Qed.

Lemma trim_reverse_name source : trim_dots (reverse_source_name source) = reverse_source_name source.
Proof.
  unfold reverse_source_name. rewrite reverse_labels_prefix.
  destruct (join_dots_snoc (reverse_prefix source) (ascii_bytes "arp") 97) as [p ->]. by apply trim_dots_snoc.
Qed.
Lemma split_reverse_name source : ip_wf source → split_dots (reverse_source_name source) = reverse_labels source.
Proof.
  intros Hs. apply split_join_dots.
  - rewrite reverse_labels_prefix. by destruct (reverse_prefix source).
  - eapply Forall_impl; [by apply reverse_labels_ok|]. by intros l (_ & ? & _)%label_ok_spec.
Qed.
Lemma join_dots_len k ls : Forall (λ l, len l <= k) ls → len (join_dots ls) <= (k + 1) * Z.of_nat (length ls).
Proof.
  destruct ls as [|l ls]; [simpl; unfold len; simpl; lia|]. intros [Hl Hls]%Forall_cons. simpl. rewrite len_app.
  assert (len (ls ≫= cons DOT) <= (k + 1) * Z.of_nat (length ls)); [|lia].
  induction Hls as [|j ls Hj _ IH]; [simpl; unfold len; simpl; lia|]. rewrite bind_cons, len_app, len_cons. simpl length. lia.
Qed.

Lemma length_bind_nibbles l : length (l ≫= nibbles) = (2 * length l)%nat.
Proof. induction l as [|b l IH]; [done|]. rewrite bind_cons. simpl. rewrite IH. lia. Qed.

Lemma len_reverse_name source : ip_wf source → len (reverse_source_name source) <= 253.
Proof.
  intros Hs. pose proof (reverse_labels_ok source Hs) as Hok. unfold reverse_source_name. destruct source as [a|a].
  - etrans; [apply (join_dots_len 7)|simpl; lia]. eapply Forall_impl; [done|]. by intros l [? _]%label_ok_spec; lia.
  - destruct Hs as [Hl Hb]. etrans; [apply (join_dots_len 4)|].
    + apply Forall_app. split; [|by repeat constructor]. apply Forall_bind, Forall_reverse.
      eapply Forall_impl; [exact Hb|]. intros b Hb'. eapply Forall_impl; [by apply nibbles_ok|].
      intros l [[_ ?%Z.leb_le]%andb_true_iff _]%andb_true_iff. lia.
    + unfold reverse_labels. rewrite length_app. change (length (reverse (v6_octets a) ≫= _)) with (length (reverse (v6_octets a) ≫= nibbles)).
      rewrite length_bind_nibbles, length_reverse. unfold len in Hl. simpl. lia.
Qed.

Lemma name_labels_reverse source : ip_wf source → name_labels (reverse_source_name source) = reverse_labels source.
Proof.
  intros Hs. unfold name_labels. rewrite trim_reverse_name.
  destruct (Z.eqb_spec (len (reverse_source_name source)) 0) as [H|H]; [|by apply split_reverse_name].
  exfalso. apply len_zero_nil in H. pose proof (split_reverse_name source Hs) as Hsp. rewrite H in Hsp.
  rewrite reverse_labels_prefix in Hsp. destruct (reverse_prefix source) as [|l [|]]; by simplify_list_eq.
Qed.

Lemma writable_reverse source : ip_wf source → writable (reverse_source_name source) = true.
Proof.
  intros Hs. unfold writable. rewrite trim_reverse_name, name_labels_reverse by done.
  rewrite (proj2 (Z.leb_le _ _)) by (by apply len_reverse_name). apply forallb_forall.
  intros l Hl%list_elem_of_In. pose proof (reverse_labels_ok source Hs) as Hok. rewrite Forall_forall in Hok.
  apply Hok, label_ok_spec in Hl as [? _]. lia.
Qed.

Lemma reverse_labels_inj s t : ip_wf s → ip_wf t → reverse_labels s = reverse_labels t → s = t.
Proof.
  intros Hs Ht. rewrite !reverse_labels_prefix. intros [He _]%app_inj_tail.
  destruct s as [[a b c d]|[o]], t as [[a' b' c' d']|[o']]; cbn [ip_wf reverse_prefix] in *.
  - unfold ipv4_wf, v4_octets in Hs, Ht. cbn in Hs, Ht. repeat (apply bytes_cons in Hs as [? Hs]).
    repeat (apply bytes_cons in Ht as [? Ht]). injection He as ?%dec_digits_inj ?%dec_digits_inj ?%dec_digits_inj ?%dec_digits_inj; [|done..].
    by subst.
  - apply (f_equal reverse) in He. rewrite reverse_app in He. by simplify_eq/=.
  - apply (f_equal reverse) in He. rewrite reverse_app in He. by simplify_eq/=.
  - destruct Hs as [_ Hs], Ht as [_ Ht]. apply app_inj_tail in He as [He _]. do 2 f_equal. cbn [v6_octets] in *.
    apply (inj reverse). apply bind_nibbles_inj; [by apply Forall_reverse..|done].
Qed.

Lemma lower_join_dots ls : Forall (λ l, to_ascii_lowercase l = l) ls → to_ascii_lowercase (join_dots ls) = join_dots ls.
Proof.
  unfold to_ascii_lowercase. destruct ls as [|l ls]; [done|]. intros [Hl Hls]%Forall_cons. simpl. rewrite fmap_app, Hl. f_equal.
  induction Hls as [|k ls Hk _ IH]; [done|]. rewrite !bind_cons, fmap_app, fmap_cons, Hk, IH. done.
Qed.
Lemma lower_reverse_name source :
  ip_wf source → to_ascii_lowercase (reverse_source_name source) = reverse_source_name source.
Proof.
  intros Hs. apply lower_join_dots. eapply Forall_impl; [by apply reverse_labels_ok|].
  by intros l (_ & _ & _ & _ & ?)%label_ok_spec.
Qed.

Lemma response_to_det id qn qtype m an o an' o' :
  bytes m → len m <= USIZE_MAX → response_to id qn qtype m an o → response_to id qn qtype m an' o' → an = an' ∧ o = o'.
Proof.
  intros Hb Hm (_ & _ & _ & Han & _ & name & e & Hn & _ & _ & _ & -> & _) (_ & _ & _ & Han' & _ & name' & e' & Hn' & _ & _ & _ & -> & _).
  split; [by eapply field16_det|]. by destruct (dns_named_det m _ _ _ _ _ Hb Hm Hn Hn') as [_ ->].
Qed.

Lemma parse_dns_response_returns id qn m : bytes m → len m <= USIZE_MAX → returns (parse_dns_response id qn m).
Proof.
  intros Hb Hm. unfold parse_dns_response, returns. apply wp_bind.
  eapply wp_mono; [by apply validate_dns_response_wp| |done]. intros [an o] _. by eapply wp_returns, relay_answers_wp.
Qed.
Lemma parse_address_response_returns id qn qtype m :
  bytes m → len m <= USIZE_MAX → returns (parse_address_response id qn qtype m).
Proof.
  intros Hb Hm. unfold parse_address_response, returns. apply wp_bind.
  eapply wp_mono; [by apply validate_dns_response_wp| |done]. intros [an o] _. by eapply wp_returns, address_answers_wp.
Qed.
Lemma build_dns_query_returns id name qtype : returns (build_dns_query id name qtype).
Proof. rewrite build_dns_query_spec. by destruct (writable name). Qed.

(** * The properties *)

(** [parse_dns_name] terminates without a panic on every message and offset, and
    reads exactly the names of RFC 1035, labels and compression pointers followed
    for at most 128 steps; a pointer loop or a label that is not UTF-8 is an error. *)
Theorem dns_name_exact m o :
  bytes m → len m <= USIZE_MAX →
  returns (parse_dns_name m o) ∧
  ∀ name e, parse_dns_name m o = Ok (name, e) ↔
    ∃ k ls, (k <= 128)%nat ∧ dns_name m k o ls e ∧ name = join_dots ls.
Proof.
  intros Hb Hm. split; [unfold parse_dns_name; apply parse_name_loop_returns|]. intros name e. by apply parse_dns_name_exact.
Qed.

(** a query is built exactly for the names that fit the wire (labels of 1 to 63
    octets, 253 in all), and a response that repeats its question, with any
    answers and a response header without error, is accepted for it. *)
Theorem dns_query_roundtrip id name qtype flags an ns ar answers :
  u16 id → bytes name → utf8_valid name = true → u16 qtype → u16 flags → u16 an → u16 ns → u16 ar →
  bytes answers → len answers <= U16_MAX → response_flags flags = true →
  match build_dns_query id name qtype with
  | Ok query =>
      writable name = true ∧
      ∃ q, query = dns_header id 0x0100 1 0 0 0 ++ q ∧
        validate_dns_response id name qtype (dns_header id flags 1 an ns ar ++ q ++ answers) =
        Ok (an, DNS_HEADER_LEN + len q)
  | Err err => writable name = false ∧ err = InvalidDnsName (trim_dots name)
  | _ => False
  end.
Proof.
  intros Hid Hn Hu Hq Hf Han Hns Har Hans Hlen Hfl. rewrite build_dns_query_spec.
  destruct (writable name) eqn:Hw; [|done]. split; [done|]. exists (question name qtype). split; [done|].
  rewrite validate_own_question by done. by rewrite len_app.
Qed.

(** AMTRELAY RDATA (RFC 8777 section 4.2) is decoded to the record that it
    encodes, and only RDATA that encodes one is accepted: precedence, D bit, and a
    relay field that is empty, an address of exactly 4 or 16 octets, or one
    uncompressed, non-root name that fills the field. *)
Theorem amtrelay_rdata_exact rdata :
  bytes rdata →
  returns (parse_amtrelay_rdata rdata) ∧
  ∀ r, parse_amtrelay_rdata rdata = Ok r ↔ amtrelay_rdata rdata r.
Proof.
  intros Hb. pose proof (parse_amtrelay_rdata_wp rdata Hb) as Hwp. split; [by eapply wp_returns|]. intros r.
  destruct (parse_amtrelay_rdata rdata) as [r'|err| |]; try done; cbn [wp] in Hwp; split; try done.
  - by intros [= <-].
  - intros Hr. f_equal. by eapply amtrelay_rdata_det.
  - by intros ?%Hwp.
Qed.

(** C36: the response to an AMTRELAY query: never a panic; it is accepted only when it
    answers the question asked; the records are exactly those of the IN AMTRELAY answers
    owned by the query name whose RDATA is well formed, the aliases exactly
    those of its CNAMEs and of the DNAMEs above it. It is refused only if it does not answer the question, has
    fewer answers than it announces, or has an alias that cannot be read. *)
Theorem dns_response_exact id qn m :
  bytes m → len m <= USIZE_MAX →
  wp (parse_dns_response id qn m)
    (λ r, ∃ an o l, response_to id qn AMTRELAY_RRTYPE m an o ∧ answers_at m (Z.to_nat an) o l ∧
       (∀ t, t ∈ dr_records r ↔ ∃ a, a ∈ l ∧ gives_record qn m a t) ∧
       (∀ t, t ∈ dr_aliases r ↔ ∃ a, a ∈ l ∧ gives_alias qn m a t))
    (λ _, ∀ an o l, response_to id qn AMTRELAY_RRTYPE m an o → answers_at m (Z.to_nat an) o l →
       ∃ a, a ∈ l ∧ unreadable_alias qn m a).
Proof.
  intros Hb Hm. unfold parse_dns_response. apply wp_bind. eapply wp_mono; [by apply validate_dns_response_wp| |].
  - intros [an o] Hv. eapply wp_mono; [by apply relay_answers_wp| |].
    + intros r (l & Hl & Hr & Ha). exists an, o, l. split_and!; [done..| |]; intros t; [rewrite Hr|rewrite Ha]; set_solver.
    + intros err Hno an' o' l Hv'. by destruct (response_to_det id qn AMTRELAY_RRTYPE m _ _ _ _ Hb Hm Hv Hv') as [<- <-]; apply Hno.
  - intros err Hno an o l Hv. by apply Hno in Hv.
Qed.

(** the response to an address query: never a panic; the addresses are exactly
    those of the IN answers of the query's name and type with RDATA of the size of
    an address; an alias is the CNAME of the query name. *)
Theorem address_response_exact id qn qtype m :
  bytes m → len m <= USIZE_MAX →
  wp (parse_address_response id qn qtype m)
    (λ r, ∃ an o l, response_to id qn qtype m an o ∧ answers_at m (Z.to_nat an) o l ∧
       (∀ t, t ∈ da_addresses r ↔ ∃ a, a ∈ l ∧ gives_address qn qtype m a t) ∧
       match da_alias r with
       | Some t => ∃ a, a ∈ l ∧ gives_cname qn m a t
       | None => ∀ a t, a ∈ l → ¬ gives_cname qn m a t
       end)
    (λ _, ∀ an o l, response_to id qn qtype m an o → answers_at m (Z.to_nat an) o l →
       ∃ a, a ∈ l ∧ unreadable_alias qn m a).
Proof.
  intros Hb Hm. unfold parse_address_response. apply wp_bind. eapply wp_mono; [by apply validate_dns_response_wp| |].
  - intros [an o] Hv. eapply wp_mono; [by apply address_answers_wp| |].
    + intros r (l & Hl & Hr & Ha). exists an, o, l. split_and!; [done..| |]; [intros t; rewrite Hr; set_solver|].
      destruct Ha as [[-> Hno]|(a & t & Hin & -> & Hg)]; [done|eauto].
    + intros err Hno an' o' l Hv'. by destruct (response_to_det id qn qtype m _ _ _ _ Hb Hm Hv Hv') as [<- <-]; apply Hno.
  - intros err Hno an o l Hv. by apply Hno in Hv.
Qed.

(** every source address has a reverse name that can be asked for, and two
    sources whose reverse names DNS does not distinguish are the same. *)
Theorem reverse_name_faithful id s t :
  ip_wf s → ip_wf t →
  build_dns_query id (reverse_source_name s) AMTRELAY_RRTYPE =
    Ok (dns_header id 0x0100 1 0 0 0 ++ question (reverse_source_name s) AMTRELAY_RRTYPE) ∧
  (dns_name_eq (reverse_source_name s) (reverse_source_name t) = true ↔ s = t).
Proof.
  intros Hs Ht. rewrite build_dns_query_spec, writable_reverse by done. split; [done|].
  unfold dns_name_eq, eq_ignore_ascii_case. rewrite bool_decide_eq_true, !trim_reverse_name, !lower_reverse_name by done.
  split; [|by intros ->]. intros He. apply reverse_labels_inj; [done..|]. by rewrite <- !split_reverse_name, He.
Qed.

(** ** Concrete messages *)

Definition demo_source : IpAddr := V4 (mkIpv4 198 51 100 7).
Definition demo_qn : list Z := reverse_source_name demo_source.
Definition demo_rdata : list Z := [10; 129; 192; 0; 2; 1].
(** One AMTRELAY answer, its owner a pointer to the question. *)
Definition demo_answers : list Z :=
  [0xc0; 12] ++ u16_to_be AMTRELAY_RRTYPE ++ u16_to_be DNS_CLASS_IN ++ u32_to_be 300 ++ u16_to_be 6 ++ demo_rdata.
Definition demo_response : list Z :=
  dns_header 7 0x8180 1 1 0 0 ++ question demo_qn AMTRELAY_RRTYPE ++ demo_answers.
Definition demo_host : list Z := ascii_bytes "relay.example".
Definition demo_host_response : list Z :=
  dns_header 9 0x8180 1 1 0 0 ++ question demo_host DNS_TYPE_A ++
  [0xc0; 12] ++ u16_to_be DNS_TYPE_A ++ u16_to_be DNS_CLASS_IN ++ u32_to_be 60 ++ u16_to_be 4 ++ [192; 0; 2; 1].

Lemma demo_response_parses :
  parse_dns_response 7 demo_qn demo_response =
  Ok (mkRelayResponse [mkTimed (mkAmtRelay 10 true (Ipv4Target (mkIpv4 192 0 2 1))) (from_secs 300)] []).
Proof. by vm_compute. Qed.

Lemma dns_name_exact_witness :
  parse_dns_name demo_response 43 = Ok (demo_qn, 45) ∧
  ∃ k ls, (k <= 128)%nat ∧ dns_name demo_response k 43 ls 45 ∧ demo_qn = join_dots ls.
Proof.
  assert (parse_dns_name demo_response 43 = Ok (demo_qn, 45)) as Hp by (by vm_compute). split; [done|].
  apply (dns_name_exact demo_response 43); [decide_ok..|done].
Defined.

Lemma dns_query_roundtrip_witness :
  ∃ query, build_dns_query 7 demo_qn AMTRELAY_RRTYPE = Ok query ∧
  ∃ q, query = dns_header 7 0x0100 1 0 0 0 ++ q ∧
    validate_dns_response 7 demo_qn AMTRELAY_RRTYPE (dns_header 7 0x8180 1 1 0 0 ++ q ++ demo_answers) =
    Ok (1, DNS_HEADER_LEN + len q).
Proof.
  pose proof (dns_query_roundtrip 7 demo_qn AMTRELAY_RRTYPE 0x8180 1 0 0 demo_answers
    ltac:(decide_ok) ltac:(decide_ok) ltac:(by vm_compute) ltac:(decide_ok) ltac:(decide_ok) ltac:(decide_ok)
    ltac:(decide_ok) ltac:(decide_ok) ltac:(decide_ok) ltac:(decide_ok) ltac:(by vm_compute)) as H.
  destruct (build_dns_query 7 demo_qn AMTRELAY_RRTYPE) as [query|err| |] eqn:Hq; [|by vm_compute in Hq..].
  exists query. split; [done|]. apply H.
Defined.

Lemma amtrelay_rdata_exact_witness :
  amtrelay_rdata demo_rdata (mkAmtRelay 10 true (Ipv4Target (mkIpv4 192 0 2 1))).
Proof. apply (amtrelay_rdata_exact demo_rdata); [decide_ok|by vm_compute]. Defined.

Lemma dns_response_exact_witness :
  ∃ a, gives_record demo_qn demo_response a
         (mkTimed (mkAmtRelay 10 true (Ipv4Target (mkIpv4 192 0 2 1))) (from_secs 300)).
Proof.
  pose proof (dns_response_exact 7 demo_qn demo_response ltac:(decide_ok) ltac:(decide_ok)) as H.
  rewrite demo_response_parses in H. destruct H as (an & o & l & _ & _ & Hr & _).
  destruct (Hr (mkTimed (mkAmtRelay 10 true (Ipv4Target (mkIpv4 192 0 2 1))) (from_secs 300))) as [Ha _].
  destruct Ha as (a & _ & Ha); [by left|]. by exists a.
Defined.

Lemma address_response_exact_witness :
  ∃ r a, parse_address_response 9 demo_host DNS_TYPE_A demo_host_response = Ok r ∧
    gives_address demo_host DNS_TYPE_A demo_host_response a (mkTimed (V4 (mkIpv4 192 0 2 1)) (from_secs 60)).
Proof.
  pose proof (address_response_exact 9 demo_host DNS_TYPE_A demo_host_response ltac:(decide_ok) ltac:(decide_ok)) as H.
  assert (parse_address_response 9 demo_host DNS_TYPE_A demo_host_response =
    Ok (mkAddressResponse [mkTimed (V4 (mkIpv4 192 0 2 1)) (from_secs 60)] None)) as Hp by (by vm_compute).
  rewrite Hp in H |- *. destruct H as (an & o & l & _ & _ & Hr & _).
  destruct (Hr (mkTimed (V4 (mkIpv4 192 0 2 1)) (from_secs 60))) as [Ha _].
  destruct Ha as (a & _ & Ha); [by left|]. eexists _, a. by split.
Defined.

Lemma reverse_name_faithful_witness :
  dns_name_eq demo_qn (reverse_source_name (V4 (mkIpv4 198 51 100 8))) = false.
Proof.
  destruct (reverse_name_faithful 7 demo_source (V4 (mkIpv4 198 51 100 8)) ltac:(decide_ok) ltac:(decide_ok)) as [_ H].
  apply not_true_iff_false. intros He. by apply H in He.
Defined.
