(* ===== verification/QueryLimiter.v ===== *)
(** [DnsQueryLimiter] of [src/driad.rs]: the sliding window that bounds the DNS
    queries a resolver sends. *)

From S2P Require Import Prelude Net.

(** [queries] is oldest first. *)
Record DnsQueryLimiter := mkQueryLimiter {
  ql_maximum : Z;
  ql_window : Z;
  ql_queries : list Z
}.

Definition new_query_limiter (maximum window : Z) : DnsQueryLimiter := mkQueryLimiter maximum window [].

(** The [while] loop: pop what has left the window. *)
Fixpoint expire_queries (window now : Z) (queries : list Z) : list Z :=
  match queries with
  | query :: rest => if window <=? elapsed now query then expire_queries window now rest else queries
  | [] => []
  end.

Definition reserve_at (l : DnsQueryLimiter) (now : Z) : option Z * DnsQueryLimiter :=
  let queries := expire_queries (ql_window l) now (ql_queries l) in
  if len queries <? ql_maximum l
  then (None, mkQueryLimiter (ql_maximum l) (ql_window l) (queries ++ [now]))
  else (match queries with
        | query :: _ => Some (saturating_sub (ql_window l) (elapsed now query))
        | [] => None
        end, mkQueryLimiter (ql_maximum l) (ql_window l) queries).

(** * Abstract limiter: the times of all the queries granted so far *)

(** Those whose window is still open at [now]. *)
Definition live (window now : Z) (granted : list Z) : list Z := filter (λ g, now - g < window) granted.
(** Grant a query exactly if fewer than [maximum] are in the window. *)
Definition allows (maximum window now : Z) (granted : list Z) : bool := len (live window now granted) <? maximum.

(** A run of the limiter: the grants after each call, in order. *)
Fixpoint run_queries (l : DnsQueryLimiter) (granted calls : list Z) : DnsQueryLimiter * list Z :=
  match calls with
  | [] => (l, granted)
  | now :: calls =>
      let '(wait, l) := reserve_at l now in
      run_queries l (match wait with None => granted ++ [now] | Some _ => granted end) calls
  end.
(** The same run of the abstract limiter. *)
Fixpoint run_reference (maximum window : Z) (granted calls : list Z) : list Z :=
  match calls with
  | [] => granted
  | now :: calls =>
      run_reference maximum window (if allows maximum window now granted then granted ++ [now] else granted) calls
  end.

(** The queries granted in the [window] from [t]. *)
Definition within (t window : Z) (granted : list Z) : list Z := filter (λ g, t <= g < t + window) granted.

(** The invariant: the queue is what is left of [granted], all up to [now]. *)
Record limiter_ok (maximum window : Z) (l : DnsQueryLimiter) (granted : list Z) (now : Z) : Prop := {
  lo_maximum : ql_maximum l = maximum;
  lo_window : ql_window l = window;
  lo_sorted : StronglySorted Z.le granted;
  lo_past : Forall (λ g, g <= now) granted;
  lo_queries : ∃ old, granted = old ++ ql_queries l ∧ Forall (λ g, window <= now - g) old;
  lo_len : len (ql_queries l) <= maximum;
  lo_rate t : len (within t window granted) <= maximum
}.

Lemma expire_queries_spec window now queries :
  StronglySorted Z.le queries → Forall (λ g, g <= now) queries →
  ∃ old, queries = old ++ expire_queries window now queries ∧ Forall (λ g, window <= now - g) old ∧
    expire_queries window now queries = live window now queries.
Proof.
  induction queries as [|q queries IH]; intros Hs Hp; cbn [expire_queries]; [by exists []|].
  apply StronglySorted_inv in Hs as [Hs Hq]. apply Forall_cons in Hp as [Hle Hp].
  unfold elapsed. rewrite Z.max_r by lia. destruct (Z.leb_spec window (now - q)) as [Hw|Hw].
  - destruct (IH Hs Hp) as (old & He & Hold & Hl). exists (q :: old). split_and!.
    + simpl. by rewrite <- He.
    + by constructor.
    + rewrite Hl. unfold live. rewrite filter_cons_False by lia. done.
  - exists []. split_and!; [done..|]. unfold live. symmetry. rewrite list_filter_all; [done|].
    constructor; [lia|]. eapply Forall_impl; [exact Hq|]. simpl. lia.
Qed.

Lemma live_app window now l k : live window now (l ++ k) = live window now l ++ live window now k.
Proof. apply filter_app. Qed.
Lemma live_old window now old : Forall (λ g, window <= now - g) old → live window now old = [].
Proof. intros Ho. apply list_filter_none. eapply Forall_impl; [done|]. simpl. lia. Qed.

Lemma StronglySorted_app_r {A} (R : A → A → Prop) l k : StronglySorted R (l ++ k) → StronglySorted R k.
Proof. induction l as [|x l IH]; [done|]. simpl. by intros [? _]%StronglySorted_inv; auto. Qed.
Lemma StronglySorted_snoc (l : list Z) x :
  StronglySorted Z.le l → Forall (λ g, g <= x) l → StronglySorted Z.le (l ++ [x]).
Proof.
  induction 1 as [|y l Hl IH Hy]; intros Hx; simpl; [by repeat constructor|].
  apply Forall_cons in Hx as [? ?]. constructor; [by apply IH|]. apply Forall_app. split; [done|]. by repeat constructor.
Qed.

Lemma within_snoc maximum window now granted t :
  Forall (λ g, g <= now) granted → (∀ t, len (within t window granted) <= maximum) →
  allows maximum window now granted = true → len (within t window (granted ++ [now])) <= maximum.
Proof.
  intros Hp Hb Ha. apply Z.ltb_lt in Ha. unfold within. rewrite filter_app, len_app.
  destruct (decide (t <= now < t + window)) as [Ht|Ht].
  - rewrite filter_singleton_True by done.
    assert (len (within t window granted) <= len (live window now granted)); [|unfold within in *; len_lia].
    unfold within, live, len. apply inj_le. apply submseteq_length, sublist_submseteq.
    clear - Hp Ht. induction Hp as [|g l Hg _ IH]; [done|]. rewrite !filter_cons.
    destruct (decide (t <= g < t + window)), (decide (now - g < window)); [by constructor|lia|by constructor|done].
  - rewrite filter_singleton_False by done. specialize (Hb t). unfold within in Hb. len_lia.
Qed.

(** One call: what the queue holds is what is live, the decision is the abstract
    one, and the wait of a refused call is until the oldest live query leaves. *)
Lemma reserve_at_spec maximum window l granted before now :
  0 < maximum → 0 < window → before <= now → limiter_ok maximum window l granted before →
  let '(wait, l') := reserve_at l now in
  match wait with
  | None => allows maximum window now granted = true ∧ limiter_ok maximum window l' (granted ++ [now]) now
  | Some d => allows maximum window now granted = false ∧ limiter_ok maximum window l' granted now ∧
      ∃ q, head (live window now granted) = Some q ∧ now + d = q + window ∧ 0 < d <= window
  end.
Proof.
  intros Hmax Hwin Hle [Hm Hw Hs Hp (old & -> & Hold) Hlen Hrate]. unfold reserve_at. rewrite Hm, Hw.
  pose proof (StronglySorted_app_r _ _ _ Hs) as Hsq.
  assert (Forall (λ g, g <= now) (old ++ ql_queries l)) as Hp' by (eapply Forall_impl; [exact Hp|]; simpl; lia).
  pose proof Hp' as [_ Hpq]%Forall_app.
  destruct (expire_queries_spec window now (ql_queries l) Hsq Hpq) as (mid & Heq & Hmid & Hlive).
  set (queries := expire_queries window now (ql_queries l)) in *.
  assert (Forall (λ g, window <= now - g) (old ++ mid)) as Hgone.
  { apply Forall_app. split; [|done]. eapply Forall_impl; [exact Hold|]. simpl. lia. }
  assert (old ++ ql_queries l = (old ++ mid) ++ queries) as Hsplit by (rewrite Heq at 1; by rewrite (assoc_L (++))).
  assert (live window now (old ++ ql_queries l) = queries) as Hl.
  { rewrite Hsplit, live_app, live_old by done. simpl. rewrite Hlive. unfold live. apply list_filter_filter_l. by intros. }
  assert (len queries <= maximum) as Hlen' by (rewrite Heq, len_app in Hlen; pose proof (len_nonneg mid); lia).
  unfold allows. rewrite Hl. destruct (len queries <? maximum) eqn:Hlt.
  - assert (allows maximum window now (old ++ ql_queries l) = true) as Ha by (unfold allows; by rewrite Hl).
    split; [done|]. constructor; [done..| | | | |].
    + by apply StronglySorted_snoc.
    + apply Forall_app. split; [done|]. by repeat constructor.
    + exists (old ++ mid). cbn [ql_queries]. split; [by rewrite Hsplit, <- (assoc_L (++))|done].
    + cbn [ql_queries]. rewrite len_app. apply Z.ltb_lt in Hlt. len_lia.
    + intros t. by apply within_snoc.
  - apply Z.ltb_ge in Hlt. destruct queries as [|q queries'] eqn:Hq; [exfalso; len_lia|]. split_and!; [done| |].
    + constructor; [done..| |done|done]. exists (old ++ mid). split; done.
    + exists q. assert (q ∈ live window now (old ++ ql_queries l)) as [Hlq Hin]%list_elem_of_filter by (rewrite Hl; by left).
      rewrite Forall_forall in Hp'. specialize (Hp' q Hin). unfold saturating_sub, elapsed.
      split; [done|]. lia.
Qed.

Lemma new_query_limiter_ok maximum window now : 0 < maximum → limiter_ok maximum window (new_query_limiter maximum window) [] now.
Proof. intros. split; [done|done|apply SSorted_nil|by apply Forall_nil|by exists []|cbn; len_lia|unfold len; simpl; lia]. Qed.

Lemma live_le window l now now' : now <= now' → live window now' l = live window now' (live window now l).
Proof. intros. unfold live. symmetry. apply list_filter_filter_l. intros. lia. Qed.

Lemma limiter_ok_later maximum window l granted now now' :
  now <= now' → limiter_ok maximum window l granted now → limiter_ok maximum window l granted now'.
Proof.
  intros Hle [H1 H2 H3 H4 (old & He & Ho) H6 H7]. split; [done..| | |done|done].
  - eapply Forall_impl; [exact H4|]. simpl. lia.
  - exists old. split; [done|]. eapply Forall_impl; [exact Ho|]. simpl. lia.
Qed.

(** Once the oldest live query has left the window there is room for one more. *)
Lemma allows_after_wait maximum window l granted now now' q :
  0 < maximum → limiter_ok maximum window l granted now → head (live window now granted) = Some q →
  now <= now' → q + window <= now' → allows maximum window now' granted = true.
Proof.
  intros Hmax Hok Hq Hnow Hleft. unfold allows. apply Z.ltb_lt.
  rewrite (live_le window granted now now' Hnow).
  assert (len (live window now granted) <= maximum) as Hlen.
  { destruct Hok as [_ _ _ _ (old & -> & Hold) Hlen _]. rewrite live_app, live_old by done. simpl.
    assert (len (live window now (ql_queries l)) <= len (ql_queries l)); [|lia].
    unfold live, len. pose proof (length_filter (λ g, now - g < window) (ql_queries l)). lia. }
  destruct (live window now granted) as [|q' rest]; [done|]. injection Hq as ->.
  unfold live. rewrite filter_cons_False by lia. rewrite len_cons in Hlen.
  pose proof (length_filter (λ g, now' - g < window) rest). unfold len in *. lia.
Qed.

(** The grants of a run do not depend on those before. *)
Lemma run_queries_grants calls : ∀ l granted,
  run_queries l granted calls = ((run_queries l [] calls).1, granted ++ (run_queries l [] calls).2).
Proof.
  induction calls as [|now calls IH]; intros l granted; cbn [run_queries]; [by rewrite app_nil_r|].
  destruct (reserve_at l now) as [[d|] l']; [apply IH|]. rewrite IH, (IH l' ([] ++ [now])). cbn. by rewrite <- (assoc_L (++)).
Qed.

(** A run of calls in the order of time keeps the invariant. *)
Lemma run_queries_ok maximum window calls : ∀ l granted before after,
  0 < maximum → 0 < window → limiter_ok maximum window l granted before →
  StronglySorted Z.le (before :: calls ++ [after]) →
  limiter_ok maximum window (run_queries l granted calls).1 (run_queries l granted calls).2 after.
Proof.
  induction calls as [|now calls IH]; intros l granted before after Hmax Hwin Hok Hs.
  { apply StronglySorted_inv in Hs as [_ Hs]. apply Forall_cons in Hs as [Hle _]. by eapply limiter_ok_later. }
  apply StronglySorted_inv in Hs as [Hs Hle]. apply Forall_cons in Hle as [Hle _]. cbn [run_queries].
  pose proof (reserve_at_spec _ _ _ _ before now Hmax Hwin Hle Hok) as Hr.
  destruct (reserve_at l now) as [[d|] l']; [destruct Hr as (_ & Hok' & _)|destruct Hr as (_ & Hok')]; by apply (IH _ _ now).
Qed.

Lemma run_queries_spec maximum window calls : ∀ l granted before,
  0 < maximum → 0 < window → limiter_ok maximum window l granted before →
  StronglySorted Z.le (before :: calls) →
  (run_queries l granted calls).2 = run_reference maximum window granted calls ∧
  ∀ t, len (within t window (run_reference maximum window granted calls)) <= maximum.
Proof.
  induction calls as [|now calls IH]; intros l granted before Hmax Hwin Hok Hs; [split; [done|by apply Hok]|].
  apply StronglySorted_inv in Hs as [Hs Hle]. apply Forall_cons in Hle as [Hle _].
  pose proof (reserve_at_spec _ _ _ _ before now Hmax Hwin Hle Hok) as Hr. cbn [run_queries run_reference].
  destruct (reserve_at l now) as [[d|] l'].
  - destruct Hr as (-> & Hok' & _). by apply (IH l' granted now).
  - destruct Hr as (Ha & Hok'). rewrite Ha. by apply (IH l' (granted ++ [now]) now).
Qed.

(** C37: over any run of calls in the order of time, the limiter grants exactly the
    queries that the abstract sliding window does (fewer than [maximum] granted in
    the last [window]), and so at most [maximum] in any interval of that length. *)
Theorem query_limiter_refines maximum window calls :
  0 < maximum → 0 < window → StronglySorted Z.le calls →
  (run_queries (new_query_limiter maximum window) [] calls).2 = run_reference maximum window [] calls ∧
  ∀ t, len (within t window (run_queries (new_query_limiter maximum window) [] calls).2) <= maximum.
Proof.
  intros Hmax Hwin Hs.
  assert (∃ before, StronglySorted Z.le (before :: calls)) as [before Hs'].
  { destruct calls as [|c calls]; [exists 0; by repeat constructor|]. exists c. constructor; [done|].
    apply StronglySorted_inv in Hs as [_ Hs]. by constructor. }
  destruct (run_queries_spec maximum window calls (new_query_limiter maximum window) [] before) as [He Hb]; try done.
  - by apply new_query_limiter_ok.
  - by rewrite He.
Qed.

Lemma query_limiter_refines_witness :
  (run_queries (new_query_limiter 2 100) [] [0; 0; 50; 100; 120]).2 = [0; 0; 100; 120] ∧
  len (within 0 100 (run_queries (new_query_limiter 2 100) [] [0; 0; 50; 100; 120]).2) <= 2.
Proof.
  split; [by vm_compute|]. apply (query_limiter_refines 2 100 [0; 0; 50; 100; 120]); [lia..|].
  repeat constructor; lia.
Defined.
