(* ===== verification/Candidates.v ===== *)
(** The relay candidates of [src/driad.rs] and the order in which they are tried:
    by precedence, and within a precedence shuffled and with the two address
    families in turn. *)

From S2P Require Import Prelude Net Effects Dns.

Record DriadRelaySelection := mkSelection {
  ds_source : IpAddr;
  ds_query_name : list Z;
  ds_record : AmtRelayRecord;
  ds_relay : SocketAddr;
  ds_ttl : Z
}.
#[export] Instance DriadRelaySelection_eq_dec : EqDecision DriadRelaySelection.
Proof. solve_decision. Defined.

Definition precedence (s : DriadRelaySelection) : Z := ar_precedence (ds_record s).
(** [relay.is_ipv6()]. *)
Definition is_ipv6 (s : DriadRelaySelection) : bool :=
  match ds_relay s with SocketAddrV6 _ _ _ _ => true | _ => false end.
Definition is_ipv4 (s : DriadRelaySelection) : bool :=
  match ds_relay s with SocketAddrV4 _ _ => true | _ => false end.

(** * Randomness *)

(** [getrandom::fill] of a buffer of [n] bytes: its contents, or the text of an error. *)
Class Rng (W : Type) := fill_random : Z → W → (string + list Z) * W.

Definition U64_MODULUS : Z := 18446744073709551616.
Definition as_u64 (x : Z) : Z := x mod U64_MODULUS.
(** [u64::from_ne_bytes] on a little-endian target. *)
Definition u64_from_ne (bs : list Z) : Z := foldr (λ b acc, b + 256 * acc) 0 bs.

Definition random_u64_best_effort `{Rng W} : W → Z * W := λ w,
  match fill_random 8 w with
  | (inr bs, w) => (u64_from_ne bs, w)
  | (inl _, w) => (0x9e3779b97f4a7c15, w)
  end.

Definition xorshift64 (value : Z) : Z :=
  let value := if value =? 0 then 0x2545f4914f6cdd1d else value in
  let value := Z.lxor value (as_u64 (Z.shiftl value 13)) in
  let value := Z.lxor value (Z.shiftr value 7) in
  Z.lxor value (as_u64 (Z.shiftl value 17)).

(** * Order *)

(** [slice.swap(i, j)]. *)
Definition swap {E A} (l : list A) (i j : Z) : res E (list A) :=
  a ← idx l i; b ← idx l j; l ← set_idx l i b; set_idx l j a.

(** [for index in (1..selections.len()).rev()], from [index]. *)
Fixpoint shuffle_loop {E A} (index : nat) (random : Z) (l : list A) : res E (list A) :=
  match index with
  | O => Ok l
  | S index' =>
      let random := xorshift64 random in
      l ← swap l (Z.of_nat index) (random mod (Z.of_nat index + 1));
      shuffle_loop index' random l
  end.

(** [a.pop_front().or_else(|| b.pop_front())]: what is taken, and what is left of each. *)
Definition pop_or_else {A} (a b : list A) : option (A * list A * list A) :=
  match a, b with
  | x :: a, b => Some (x, a, b)
  | [], x :: b => Some (x, [], b)
  | [], [] => None
  end.

(** The last loop, over the [n] slots from [index]. *)
Fixpoint interleave_loop {E A} (n : nat) (index : Z) (prefer_ipv6 : bool) (ipv4 ipv6 : list A) : res E (list A) :=
  match n with
  | O => Ok []
  | S n =>
      let take_ipv6 := Bool.eqb (index mod 2 =? 0) prefer_ipv6 in
      '(x, ipv4, ipv6) ← lift_option
        (if take_ipv6
         then '(x, ipv6, ipv4) ← pop_or_else ipv6 ipv4; Some (x, ipv4, ipv6)
         else '(x, ipv4, ipv6) ← pop_or_else ipv4 ipv6; Some (x, ipv4, ipv6));
      l ← interleave_loop n (index + 1) prefer_ipv6 ipv4 ipv6;
      Ok (x :: l)
  end.

Definition shuffle_and_interleave_families {E} `{Rng W} (selections : list DriadRelaySelection) :
    M W E (list DriadRelaySelection) :=
  if len selections <? 2 then mret selections
  else
    random ← act random_u64_best_effort;
    selections ← pure (shuffle_loop (length selections - 1) random selections);
    first ← pure (idx selections 0);
    let ipv4 := filter (λ s, is_ipv4 s = true) selections in
    let ipv6 := filter (λ s, is_ipv6 s = true) selections in
    pure (interleave_loop (length selections) 0 (is_ipv6 first) ipv4 ipv6).

(** [slice.sort_by_key(key)]: stable. *)
Fixpoint insert_by {A} (key : A → Z) (x : A) (l : list A) : list A :=
  match l with
  | [] => [x]
  | y :: k => if key x <=? key y then x :: l else y :: insert_by key x k
  end.
Definition sort_by_key {A} (key : A → Z) (l : list A) : list A := foldr (insert_by key) [] l.

(** [iter().position(p)]. *)
Fixpoint position {A} (p : A → bool) (l : list A) : option Z :=
  match l with
  | [] => None
  | x :: l => if p x then Some 0 else Z.succ <$> position p l
  end.

(** The [while] loop; each round moves [start] forward. *)
Fixpoint order_loop {E} `{Rng W} (fuel : nat) (selections : list DriadRelaySelection) (start : Z) :
    M W E (list DriadRelaySelection) :=
  match fuel with
  | O => pure Diverge
  | S fuel =>
      if start <? len selections then
        first ← pure (idx selections start);
        rest ← pure (slice_from selections start);
        let finish := match position (λ s, negb (precedence s =? precedence first)) rest with
                      | Some offset => start + offset
                      | None => len selections
                      end in
        group ← pure (slice selections start finish);
        group ← shuffle_and_interleave_families group;
        selections ← pure (copy_at selections start finish group);
        order_loop fuel selections finish
      else mret selections
  end.

Definition order_relay_candidates {E} `{Rng W} (selections : list DriadRelaySelection) :
    M W E (list DriadRelaySelection) :=
  let selections := sort_by_key precedence selections in
  order_loop (S (length selections)) selections 0.

(** * Shuffling permutes *)

Lemma set_idx_insert {E A} (l : list A) i v : 0 <= i < len l → set_idx (E:=E) l i v = Ok (<[Z.to_nat i := v]> l).
Proof.
  intros [H0 Hi]. destruct (idx_is_ok (E:=E) l i ltac:(lia)) as (x & _ & Hx).
  rewrite <- (take_drop_middle l _ x Hx). set (k := Z.to_nat i) in *.
  assert (length (take k l) = k) as Hk by (apply lookup_lt_Some in Hx; rewrite length_take; lia).
  rewrite set_idx_app by (unfold len; lia). f_equal. by rewrite insert_app_r_alt, Hk, Nat.sub_diag by lia.
Qed.

Lemma wp_swap {E A} (l : list A) i j (R : E → Prop) :
  0 <= i < len l → 0 <= j < len l → wp (swap l i j) (λ l', l' ≡ₚ l) R.
Proof.
  intros Hi Hj. unfold swap. apply wp_bind, wp_idx; [done|]. intros a Ha. apply wp_bind, wp_idx; [done|]. intros b Hb.
  rewrite set_idx_insert by done. cbn [mbind res_bind]. rewrite set_idx_insert by (unfold len in *; by rewrite length_insert).
  by apply Permutation_insert_swap.
Qed.

Lemma shuffle_loop_wp {E A} index : ∀ random (l : list A) (R : E → Prop),
  Z.of_nat index < len l ∨ index = 0%nat → wp (shuffle_loop index random l) (λ l', l' ≡ₚ l) R.
Proof.
  induction index as [|index IH]; intros random l R Hi; cbn [shuffle_loop]; [cbn [wp]; reflexivity|].
  destruct Hi as [Hi|?]; [|done]. apply wp_bind. eapply wp_mono; [apply wp_swap|..].
  - lia.
  - pose proof (Z.mod_pos_bound (xorshift64 random) (Z.of_nat (S index) + 1)). lia.
  - intros l' Hl'. eapply wp_mono; [apply IH|..]; [|by intros l'' ->|done].
    left. unfold len in *. rewrite Hl'. lia.
  - done.
Qed.

(** * Families in turn *)

(** Two neighbours are of one family only if nothing of the other is left. *)
Definition families_interleaved (l : list DriadRelaySelection) : Prop :=
  ∀ pre x y post, l = pre ++ x :: y :: post → is_ipv6 x = is_ipv6 y → Forall (λ z, is_ipv6 z = is_ipv6 x) post.

Lemma families_same b l : Forall (λ z, is_ipv6 z = b) l → families_interleaved l.
Proof.
  intros Hf pre x y post -> _. apply Forall_app in Hf as [_ Hf]. apply Forall_cons in Hf as [Hx Hf].
  apply Forall_cons in Hf as [_ Hf]. by rewrite Hx.
Qed.
Lemma families_cons x l :
  (∀ y post, l = y :: post → is_ipv6 x = is_ipv6 y → Forall (λ z, is_ipv6 z = is_ipv6 x) post) →
  families_interleaved l → families_interleaved (x :: l).
Proof.
  intros Hx Hl [|p pre] a b post He Hab; simplify_eq/=; [by eapply Hx|by eapply Hl].
Qed.

(** Taking from the family [f], then from the other. *)
Lemma interleaved_step f x l same other :
  is_ipv6 x = f → l ≡ₚ same ++ other → Forall (λ z, is_ipv6 z = f) same → Forall (λ z, is_ipv6 z = negb f) other →
  (other ≠ [] → same ≠ [] → ∃ y k, l = y :: k ∧ is_ipv6 y = negb f) →
  families_interleaved l → families_interleaved (x :: l).
Proof.
  intros Hx Hl Hs Ho Hhd Hi. apply families_cons; [|done]. intros y post -> Hy. rewrite Hx in *.
  destruct other as [|o other].
  { rewrite app_nil_r in Hl. rewrite <- Hl in Hs. by apply Forall_cons in Hs as [_ ?]. }
  destruct same as [|s same].
  { cbn [app] in Hl. rewrite <- Hl in Ho. apply Forall_cons in Ho as [Hn _]. rewrite <- Hy in Hn. by destruct f. }
  destruct Hhd as (y' & k & [= <- <-] & Hn); [done..|]. rewrite <- Hy in Hn. by destruct f.
Qed.

Lemma interleave_loop_wp {E} n : ∀ index prefer ipv4 ipv6 (R : E → Prop),
  n = (length ipv4 + length ipv6)%nat →
  Forall (λ z, is_ipv6 z = false) ipv4 → Forall (λ z, is_ipv6 z = true) ipv6 →
  wp (interleave_loop n index prefer ipv4 ipv6)
    (λ l, l ≡ₚ ipv4 ++ ipv6 ∧ families_interleaved l ∧
       (ipv4 ≠ [] → ipv6 ≠ [] → ∃ x k, l = x :: k ∧ is_ipv6 x = Bool.eqb (index mod 2 =? 0) prefer)) R.
Proof.
  induction n as [|n IH]; intros index prefer ipv4 ipv6 R Hn H4 H6; cbn [interleave_loop].
  { destruct ipv4, ipv6; try done. cbn [wp]. split_and!; [done|by apply (families_same true)|done]. }
  assert (Bool.eqb ((index + 1) mod 2 =? 0) prefer = negb (Bool.eqb (index mod 2 =? 0) prefer)) as Hpar.
  { rewrite !Zmod_even, Z.add_1_r, Z.even_succ, <- Z.negb_even. by destruct (Z.even index), prefer. }
  destruct (Bool.eqb (index mod 2 =? 0) prefer) eqn:Ht; cbn [negb] in Hpar.
  - destruct ipv6 as [|x ipv6]; [destruct ipv4 as [|x ipv4]; [done|]|]; cbn.
    + apply Forall_cons in H4 as [Hx H4]. apply wp_bind. eapply wp_mono; [apply (IH _ _ ipv4 [])|..];
        [simpl in *; lia|done..| |done]. intros l (Hl & Hi & _). cbn [wp]. split_and!; [by rewrite Hl| |done].
      apply (families_same false). constructor; [done|]. by rewrite Hl, app_nil_r.
    + apply Forall_cons in H6 as [Hx H6]. apply wp_bind. eapply wp_mono; [apply (IH _ _ ipv4 ipv6)|..];
        [simpl in *; lia|done..| |done]. rewrite Hpar. intros l (Hl & Hi & Hhd). cbn [wp]. split_and!.
      * rewrite Hl. by rewrite Permutation_middle.
      * apply (interleaved_step true x l ipv6 ipv4); try done. by rewrite Hl, (comm (++)).
      * intros _ _. by exists x, l.
  - destruct ipv4 as [|x ipv4]; [destruct ipv6 as [|x ipv6]; [done|]|]; cbn.
    + apply Forall_cons in H6 as [Hx H6]. apply wp_bind. eapply wp_mono; [apply (IH _ _ [] ipv6)|..];
        [simpl in *; lia|done..| |done]. intros l (Hl & Hi & _). cbn [wp]. split_and!; [by rewrite Hl| |done].
      apply (families_same true). constructor; [done|]. by rewrite Hl.
    + apply Forall_cons in H4 as [Hx H4]. apply wp_bind. eapply wp_mono; [apply (IH _ _ ipv4 ipv6)|..];
        [simpl in *; lia|done..| |done]. rewrite Hpar. intros l (Hl & Hi & Hhd). cbn [wp]. split_and!.
      * by rewrite Hl.
      * apply (interleaved_step false x l ipv4 ipv6); try done. intros. by apply Hhd.
      * intros _ _. by exists x, l.
Qed.

Lemma is_ipv4_ipv6 s : is_ipv4 s = negb (is_ipv6 s).
Proof. by destruct s as [? ? ? []]. Qed.
Lemma filter_families (l : list DriadRelaySelection) :
  filter (λ s, is_ipv4 s = true) l ++ filter (λ s, is_ipv6 s = true) l ≡ₚ l.
Proof.
  induction l as [|x l IH]; [done|]. rewrite !filter_cons, is_ipv4_ipv6.
  destruct (is_ipv6 x); simpl; [by rewrite <- Permutation_middle, IH|by rewrite IH].
Qed.

(** What drawing random numbers keeps. *)
Definition rng_keeps `{Rng W} (I : W → Prop) : Prop := ∀ n w, 0 <= n → I w → I (fill_random n w).2.

(** A group after [shuffle_and_interleave_families]: the same relays, the families in turn. *)
Lemma shuffle_and_interleave_wp {E} `{Rng W} (I : W → Prop) l (Q : list DriadRelaySelection → W → Prop) (R : E → W → Prop) w :
  rng_keeps I → I w → (∀ l' w', I w' → l' ≡ₚ l → families_interleaved l' → Q l' w') →
  mwp (shuffle_and_interleave_families l) Q R w.
Proof.
  intros HI Hw HQ. unfold shuffle_and_interleave_families. destruct (Z.ltb_spec (len l) 2) as [Hl|Hl].
  { apply mwp_ret, HQ; [done..|]. destruct l as [|x [|y l]]; [| |exfalso; len_lia].
    - by apply (families_same true).
    - apply (families_same (is_ipv6 x)). by repeat constructor. }
  apply mwp_bind, mwp_act.
  assert (I (random_u64_best_effort w).2) as Hw'.
  { specialize (HI 8 w ltac:(lia) Hw). unfold random_u64_best_effort. by destruct (fill_random 8 w) as [[] ?]. }
  destruct (random_u64_best_effort w) as [random w']. cbn [fst snd] in *.
  apply mwp_bind, mwp_pure. eapply wp_mono; [apply (shuffle_loop_wp _ _ _ (λ _, False)); left; unfold len in *; lia| |done].
  intros k Hk. simpl. apply mwp_bind, mwp_pure, wp_idx; [unfold len in *; rewrite Hk; lia|]. intros first _. simpl.
  apply mwp_pure. eapply wp_mono; [apply (interleave_loop_wp _ _ _ _ _ (λ _, False))| |done].
  - by rewrite <- (filter_families k) at 1; rewrite length_app.
  - apply Forall_forall. intros s [Hs _]%list_elem_of_filter. rewrite is_ipv4_ipv6 in Hs. by destruct (is_ipv6 s).
  - apply Forall_forall. by intros s [Hs _]%list_elem_of_filter.
  - intros l' (Hl' & Hi & _). apply HQ; [done| |done]. by rewrite Hl', filter_families, Hk.
Qed.

(** * Sorting by precedence *)

Definition sorted_by {A} (key : A → Z) (l : list A) : Prop := StronglySorted (λ x y, key x <= key y) l.

Section sort.
Context {A : Type} (key : A → Z).

Lemma insert_by_perm x l : insert_by key x l ≡ₚ x :: l.
Proof.
  induction l as [|y l IH]; [done|]. simpl. destruct (key x <=? key y); [done|]. rewrite IH. apply Permutation_swap.
Qed.
Lemma sort_by_key_perm l : sort_by_key key l ≡ₚ l.
Proof. induction l as [|x l IH]; [done|]. simpl. by rewrite insert_by_perm, IH. Qed.

Lemma insert_by_sorted x l : sorted_by key l → sorted_by key (insert_by key x l).
Proof.
  unfold sorted_by. induction l as [|y l IH]; intros Hl; simpl; [by repeat constructor|].
  apply StronglySorted_inv in Hl as [Hl Hy]. destruct (Z.leb_spec (key x) (key y)).
  - constructor; [by constructor|]. constructor; [done|]. eapply Forall_impl; [exact Hy|]. simpl. lia.
  - constructor; [by apply IH|]. rewrite insert_by_perm. constructor; [lia|done].
Qed.
Lemma sort_by_key_sorted l : sorted_by key (sort_by_key key l).
Proof. induction l as [|x l IH]; [constructor|]. by apply insert_by_sorted. Qed.

(** The sort is stable. *)
Lemma sort_by_key_stable k l : filter (λ x, key x = k) (sort_by_key key l) = filter (λ x, key x = k) l.
Proof.
  induction l as [|x l IH]; [done|]. simpl. rewrite filter_cons, <- IH. pose proof (sort_by_key_sorted l) as Hs.
  clear IH. induction (sort_by_key key l) as [|y k' IH]; simpl; [done|].
  apply StronglySorted_inv in Hs as [Hs Hy]. destruct (Z.leb_spec (key x) (key y)).
  - by rewrite !filter_cons.
  - rewrite filter_cons, IH, filter_cons by done. destruct (decide (key x = k)), (decide (key y = k)); try done; lia.
Qed.
End sort.

Lemma position_spec {A} (p : A → bool) l :
  match position p l with
  | Some o => ∃ a x b, l = a ++ x :: b ∧ o = len a ∧ Forall (λ z, p z = false) a ∧ p x = true
  | None => Forall (λ z, p z = false) l
  end.
Proof.
  induction l as [|y l IH]; simpl; [constructor|]. destruct (p y) eqn:Hp; [by exists [], y, l|].
  destruct (position p l) as [o|]; simpl; [|by constructor].
  destruct IH as (a & x & b & -> & -> & Ha & Hx). exists (y :: a), x, b. split_and!; [done|len_lia|by constructor|done].
Qed.

(** What the order promises of the candidates of [l]. *)
Definition well_ordered (l l' : list DriadRelaySelection) : Prop :=
  l' ≡ₚ l ∧ sorted_by precedence l' ∧ ∀ p, families_interleaved (filter (λ s, precedence s = p) l').

Lemma well_ordered_group p group group' rest rest' :
  Forall (λ s, precedence s = p) group → group' ≡ₚ group → families_interleaved group' →
  Forall (λ s, p < precedence s) rest → well_ordered rest rest' → well_ordered (group ++ rest) (group' ++ rest').
Proof.
  intros Hg Hp Hi Hr (Hperm & Hs & Hf). rewrite <- Hp in Hg. rewrite <- Hperm in Hr. split_and!.
  - by rewrite Hp, Hperm.
  - clear - Hg Hs Hr. induction Hg as [|x g Hx Hg IH]; [done|]. simpl. constructor; [done|]. apply Forall_app. split.
    + eapply Forall_impl; [exact Hg|]. simpl. lia.
    + eapply Forall_impl; [exact Hr|]. simpl. lia.
  - intros q. rewrite filter_app. destruct (decide (q = p)) as [->|Hq].
    + rewrite list_filter_all by done. rewrite list_filter_none; [by rewrite app_nil_r|].
      eapply Forall_impl; [exact Hr|]. simpl. lia.
    + rewrite list_filter_none; [apply Hf|]. eapply Forall_impl; [exact Hg|]. simpl. lia.
Qed.

Lemma well_ordered_nil : well_ordered [] [].
Proof. split_and!; [done|constructor|]. intros p. by apply (families_same true). Qed.

(** The group that starts at [start], all of one precedence, and what follows it. *)
Lemma group_split first rest o :
  sorted_by precedence (first :: rest) →
  o = match position (λ s, negb (precedence s =? precedence first)) (first :: rest) with
      | Some o => o | None => len (first :: rest) end →
  ∃ group tail, first :: rest = group ++ tail ∧ len group = o ∧ 0 < o ∧
    Forall (λ s, precedence s = precedence first) group ∧ Forall (λ s, precedence first < precedence s) tail.
Proof.
  intros Hs ->. pose proof (position_spec (λ s, negb (precedence s =? precedence first)) (first :: rest)) as Hp.
  assert (∀ g, Forall (λ z, negb (precedence z =? precedence first) = false) g →
    Forall (λ s, precedence s = precedence first) g) as Hconv.
  { intros g Hg. eapply Forall_impl; [exact Hg|]. intros z Hz. simpl in Hz. apply negb_false_iff, Z.eqb_eq in Hz. done. }
  destruct (position _ _) as [o|].
  - destruct Hp as (a & x & b & He & -> & Ha & Hx). exists a, (x :: b).
    destruct a as [|f a]; [injection He as -> ->; by rewrite Z.eqb_refl in Hx|].
    split_and!; [done..|len_lia|by apply Hconv|]. injection He as <- ->.
    apply negb_true_iff, Z.eqb_neq in Hx. apply StronglySorted_inv in Hs as [Hs Hf].
    apply Forall_app in Hf as [_ Hf]. pose proof Hf as [Hfx _]%Forall_cons.
    assert (sorted_by precedence (x :: b)) as [_ Hxb]%StronglySorted_inv.
    { clear - Hs. induction a as [|y a IH]; [done|]. apply IH. by apply StronglySorted_inv in Hs as [? _]. }
    constructor; [lia|]. eapply Forall_impl; [exact Hxb|]. simpl. lia.
  - exists (first :: rest), []. rewrite app_nil_r. split_and!; [done..|len_lia|by apply Hconv|constructor].
Qed.

Lemma order_loop_wp {E} `{Rng W} (I : W → Prop) fuel :
  ∀ done rest (Q : list DriadRelaySelection → W → Prop) (R : E → W → Prop) w,
  rng_keeps I → I w → (length rest < fuel)%nat → sorted_by precedence rest →
  (∀ rest' w', I w' → well_ordered rest rest' → Q (done ++ rest') w') →
  mwp (order_loop fuel (done ++ rest) (len done)) Q R w.
Proof.
  induction fuel as [|fuel IH]; intros done rest Q R w HI Hw Hfuel Hs HQ; [lia|]. cbn [order_loop].
  rewrite len_app. destruct rest as [|first rest].
  { rewrite (proj2 (Z.ltb_ge _ _)) by len_lia. apply mwp_ret, HQ, well_ordered_nil. done. }
  rewrite (proj2 (Z.ltb_lt _ _)) by len_lia.
  apply mwp_bind, mwp_pure. rewrite (idx_lookup _ _ first) by (try apply len_nonneg; unfold len; rewrite Nat2Z.id; by apply list_lookup_middle).
  cbn [wp]. apply mwp_bind, mwp_pure. rewrite slice_from_app by done. cbn [wp].
  destruct (group_split first rest _ Hs eq_refl) as (group & tail & He & Hlen & Hpos & Hg & Ht).
  set (finish := match position _ _ with Some offset => len done + offset | None => _ end).
  assert (finish = len done + len group) as ->.
  { subst finish. rewrite Hlen. by destruct (position _ _). }
  rewrite He. rewrite <- len_app at 1. apply mwp_bind, mwp_pure. rewrite (slice_app done group tail) by (try done; len_lia). cbn [wp].
  apply mwp_bind, (shuffle_and_interleave_wp I); [done..|]. intros group' w' Hw' Hperm Hint.
  assert (len group' = len group) as Hlg by (unfold len; by rewrite Hperm).
  apply mwp_bind, mwp_pure. rewrite (copy_at_app done group group' tail) by (try done; lia). cbn [wp].
  rewrite (assoc_L (++)). replace (len done + len group) with (len (done ++ group')) by len_lia.
  assert (length (first :: rest) = (length group + length tail)%nat) as Hll by (by rewrite He, length_app).
  apply IH; [done..| | |].
  - unfold len in Hlen, Hpos. lia.
  - rewrite He in Hs. clear - Hs. induction group as [|y a IH]; [done|]. apply IH. by apply StronglySorted_inv in Hs as [? _].
  - intros rest' w'' Hw'' Hwo. rewrite <- (assoc_L (++)). apply HQ; [done|]. rewrite He. by eapply well_ordered_group.
Qed.

Lemma order_relay_candidates_wp {E} `{Rng W} (I : W → Prop) selections (R : E → W → Prop) w :
  rng_keeps I → I w →
  mwp (order_relay_candidates selections) (λ ordered w', I w' ∧ well_ordered selections ordered) R w.
Proof.
  intros HI Hw. unfold order_relay_candidates.
  apply (order_loop_wp I _ [] (sort_by_key precedence selections)); [done..|lia|apply sort_by_key_sorted|].
  intros l w' Hw' (Hp & Hs & Hf). split; [done|]. split_and!; [|done..]. by rewrite <- (sort_by_key_perm precedence selections).
Qed.

(** whatever the random source yields, [order_relay_candidates] ends without a
    panic (its [expect] never fails) and gives the same candidates, sorted by
    precedence, and within one precedence with IPv4 and IPv6 relays in turn for as long as both last. *)
Theorem relay_order_correct {E W} `{Rng W} (selections : list DriadRelaySelection) (w : W) :
  mwp (order_relay_candidates (E:=E) selections) (λ ordered _, well_ordered selections ordered) (λ _ _, False) w.
Proof.
  eapply mwp_mono; [apply (order_relay_candidates_wp (λ _, True) _ (λ _ _, False)); done|by intros ? ? [_ ?]|by intros ? ? ?].
Qed.

(** ** A concrete order *)

Definition demo_candidate (prec : Z) (relay : SocketAddr) : DriadRelaySelection :=
  mkSelection demo_source demo_qn (mkAmtRelay prec false NoRelay) relay 0.
Definition demo_v4 (n : Z) : SocketAddr := SocketAddrV4 (mkIpv4 192 0 2 n) 2268.
Definition demo_v6 (n : Z) : SocketAddr := SocketAddrV6 (mkIpv6 (replicate 15 1 ++ [n])) 2268 0 0.
(** A random source without entropy. *)
Definition demo_rng : Rng unit := λ _ w, (inl "no entropy"%string, w).

Example demo_order :
  (λ s, (precedence s, is_ipv6 s)) <$>
    default [] (match (@order_relay_candidates DriadError unit demo_rng
      [demo_candidate 20 (demo_v6 2); demo_candidate 10 (demo_v4 1); demo_candidate 10 (demo_v6 1);
       demo_candidate 10 (demo_v4 2); demo_candidate 10 (demo_v6 3)] tt).1 with Ok l => Some l | _ => None end)
  = [(10, true); (10, false); (10, true); (10, false); (20, true)].
Proof. by vm_compute. Qed.
