(* ===== verification/Driad.v ===== *)
(** The DRIAD resolver of [src/driad.rs]: from a source address to the relay
    candidates, by AMTRELAY and address queries over UDP and TCP, with retries,
    aliases and a bound on the rate of queries. *)

From S2P Require Import Prelude Net Effects Protocol Text Dns QueryLimiter Candidates.

Definition MAX_DNS_DATAGRAM : Z := 4096.
Definition MAX_ALIAS_DEPTH : nat := 8.

Record DriadResolverConfig := mkResolverConfig {
  rc_resolvers : list SocketAddr;
  rc_timeout : Z;
  rc_attempts : Z;
  rc_allow_insecure_dns : bool;
  rc_max_candidates : Z;
  rc_max_queries_per_window : Z;
  rc_query_rate_window : Z
}.

Definition from_millis (ms : Z) : Z := ms * 1000000.
Definition DURATION_MAX : Z := 18446744073709551615999999999.

Definition new_resolver_config (resolvers : list SocketAddr) : DriadResolverConfig :=
  mkResolverConfig resolvers (from_secs 1) 2 false 64 10 (from_millis 100).

(** [DriadResolver::new]: the limiter; the configuration is kept as it is. *)
Definition new_resolver_limiter (config : DriadResolverConfig) : DnsQueryLimiter :=
  new_query_limiter (Z.max (rc_max_queries_per_window config) 1) (Z.max (rc_query_rate_window config) (from_millis 1)).

(** [IpAddr::is_loopback] and [Ipv6Addr::is_unicast_link_local]. *)
Definition ip_is_loopback (ip : IpAddr) : bool :=
  match ip with V4 a => v4_a a =? 127 | V6 a => bool_decide (a = Ipv6_LOCALHOST) end.
Definition v6_is_unicast_link_local (a : Ipv6Addr) : bool := Z.land (v6_segment0 a) 0xffc0 =? 0xfe80.

Definition is_usable_relay_address (address : IpAddr) : bool :=
  match address with
  | V4 a => negb (v4_is_unspecified a) && negb (v4_is_multicast a) && negb (v4_is_broadcast a)
  | V6 a => negb (v6_is_unspecified a) && negb (v6_is_multicast a) && negb (v6_is_unicast_link_local a)
  end.

Definition validate_resolver (config : DriadResolverConfig) : res DriadError unit :=
  match rc_resolvers config with
  | [] => Err NoResolvers
  | _ =>
      match (if rc_allow_insecure_dns config then None
             else head (filter (λ r, ip_is_loopback (sock_ip r) = false) (rc_resolvers config))) with
      | Some resolver => Err (InsecureResolver resolver)
      | None =>
          if rc_timeout config =? 0 then Err (InvalidConfig "timeout must not be zero")
          else if rc_attempts config =? 0 then Err (InvalidConfig "attempts must not be zero")
          else if rc_max_candidates config =? 0 then Err (InvalidConfig "maximum candidate count must not be zero")
          else if rc_max_queries_per_window config =? 0 then Err (InvalidConfig "DNS query limit must not be zero")
          else if rc_query_rate_window config =? 0 then Err (InvalidConfig "DNS query-rate window must not be zero")
          else Ok tt
      end
  end.

(** * The operating system *)

(** The clock, the sockets and the random source; a failed operation gives the text of its error. *)
Class DnsWorld (W : Type) := {
  dw_rng : Rng W;
  clock : W → Z;
  (** The resolver shares its limiter with its clones, which work in other threads: what the mutex holds when
      the lock is taken, if this resolver left the given limiter there; nothing if the mutex is poisoned. *)
  shared_limiter : DnsQueryLimiter → W → option DnsQueryLimiter * W;
  (** The number of queries the clones still have to send. *)
  rivals : W → nat;
  sleep : Z → W → W;
  udp_bind : SocketAddr → M W string unit;
  udp_set_read_timeout : Z → M W string unit;
  udp_set_write_timeout : Z → M W string unit;
  udp_connect : SocketAddr → M W string unit;
  udp_send : list Z → M W string unit;
  udp_recv : Z → M W string (list Z);
  tcp_connect_timeout : SocketAddr → Z → M W string unit;
  tcp_set_read_timeout : Z → M W string unit;
  tcp_set_write_timeout : Z → M W string unit;
  tcp_write_all : list Z → M W string unit;
  tcp_read_exact : Z → M W string (list Z)
}.
#[export] Existing Instance dw_rng.

(** The state of a resolver: its limiter, as it left it, and the world. *)
Section resolver.
Context {W : Type} `{DnsWorld W}.
Context (config : DriadResolverConfig).

Definition St : Type := DnsQueryLimiter * W.

Definition world {E A} (m : M W E A) : M St E A := λ '(l, w), let '(r, w) := m w in (r, (l, w)).
#[export] Instance resolver_rng : Rng St := λ n '(l, w), let '(r, w) := fill_random n w in (r, (l, w)).
(** A system call whose failure is an [Io] error with [context] before its text. *)
Definition sys {A} (context : string) (m : M W string A) : M St DriadError A :=
  mmap_err (λ error, DIo (String.append context error)) (world m).

Definition randomized_duration (lower upper : Z) : M St DriadError Z :=
  let lower_ms := as_u64 (lower / 1000000) in
  let upper_ms := as_u64 (upper / 1000000) in
  if upper_ms <=? lower_ms then mret lower
  else
    bs ← act (fill_random 8);
    let random := match bs with inr bs => u64_from_ne bs | inl _ => upper_ms end in
    let span := upper_ms - lower_ms + 1 in
    if U64_MODULUS <=? span then pure Panic
    else mret (from_millis (lower_ms + random mod span)).

(** [d.checked_mul(m)] of a [Duration]. *)
Definition duration_checked_mul (d m : Z) : option Z := if d * m <=? DURATION_MAX then Some (d * m) else None.

Definition retry_timeout (attempt : Z) : M St DriadError Z :=
  let multiplier := Z.shiftl 1 (Z.min attempt 6) in
  let maximum := from_secs 120 in
  let upper := Z.min (default maximum (duration_checked_mul (rc_timeout config) multiplier)) maximum in
  randomized_duration (Z.min (rc_timeout config) upper) upper.

(** The [loop] of [wait_for_query_budget]; the clones may take the lock between two rounds. As each of the
    others' queries can delay this one by a round, [rivals] and two more rounds are enough ([budget_loop_wp]). *)
Fixpoint budget_loop (fuel : nat) : M St DriadError unit := λ '(l, w),
  match fuel with
  | O => (Diverge, (l, w))
  | S fuel =>
      match shared_limiter l w with
      | (None, w) => (Err (DIo "DRIAD DNS query limiter is poisoned"), (l, w))
      | (Some l, w) =>
          let '(wait, l) := reserve_at l (clock w) in
          match wait with
          | None => (Ok tt, (l, w))
          | Some d => budget_loop fuel (l, sleep d w)
          end
      end
  end.
Definition wait_for_query_budget : M St DriadError unit := λ s, budget_loop (rivals s.2 + 2) s.

Definition random_dns_id : M St DriadError Z :=
  bs ← act (fill_random 2);
  match bs with
  | inl error => fail (Randomness error)
  | inr bs => b0 ← pure (idx bs 0); b1 ← pure (idx bs 1); mret (u16_from_be b0 b1)
  end.

Definition query_tcp (resolver : SocketAddr) (query : list Z) (timeout : Z) : M St DriadError (list Z) :=
  _ ← wait_for_query_budget;
  _ ← sys "failed to connect DNS TCP socket: " (tcp_connect_timeout resolver timeout);
  _ ← sys "failed to set DNS TCP timeout: " (tcp_set_read_timeout timeout);
  _ ← sys "failed to set DNS TCP timeout: " (tcp_set_write_timeout timeout);
  if U16_MAX <? len query then fail (DIo "DNS query is too large for TCP framing")
  else
    _ ← sys "failed to send DNS TCP query: " (tcp_write_all (u16_to_be (len query)));
    _ ← sys "failed to send DNS TCP query: " (tcp_write_all query);
    length ← sys "failed to read DNS TCP length: " (tcp_read_exact 2);
    l0 ← pure (idx length 0); l1 ← pure (idx length 1);
    let response_len := u16_from_be l0 l1 in
    if response_len <? DNS_HEADER_LEN then fail (DTruncated "DNS TCP response")
    else sys "failed to read DNS TCP response: " (tcp_read_exact response_len).

(** The TC flag of a datagram. *)
Definition truncated (datagram : list Z) : res DriadError bool :=
  if 4 <=? len datagram then
    b2 ← idx datagram 2; b3 ← idx datagram 3; Ok (negb (Z.land (u16_from_be b2 b3) 0x0200 =? 0))
  else Ok false.

Definition query_wire (resolver : SocketAddr) (name : list Z) (query_type timeout : Z) : M St DriadError (Z * list Z) :=
  _ ← wait_for_query_budget;
  id ← random_dns_id;
  query ← pure (build_dns_query id name query_type);
  let bind := match resolver with
              | SocketAddrV4 _ _ => SocketAddrV4 Ipv4_UNSPECIFIED 0
              | SocketAddrV6 _ _ _ _ => SocketAddrV6 Ipv6_UNSPECIFIED 0 0 0
              end in
  _ ← sys "failed to bind DNS socket: " (udp_bind bind);
  _ ← sys "failed to set DNS read timeout: " (udp_set_read_timeout timeout);
  _ ← sys "failed to set DNS write timeout: " (udp_set_write_timeout timeout);
  _ ← sys "failed to connect DNS socket: " (udp_connect resolver);
  _ ← sys "failed to send DNS query: " (udp_send query);
  datagram ← sys "failed to receive DNS response: " (udp_recv MAX_DNS_DATAGRAM);
  tc ← pure (truncated datagram);
  if (tc : bool) then response ← query_tcp resolver query timeout; mret (id, response)
  else mret (id, datagram).

(** * AMTRELAY queries *)

Definition query_resolver (resolver : SocketAddr) (name : list Z) (timeout : Z) : M St DriadError DnsAmtRelayResponse :=
  '(id, response) ← query_wire resolver name AMTRELAY_RRTYPE timeout;
  pure (parse_dns_response id name response).

(** The loop over the resolvers: the first response, or the last error. *)
Fixpoint try_resolvers (resolvers : list SocketAddr) (name : list Z) (timeout : Z) (last_error : option DriadError) :
    M St DriadError (DnsAmtRelayResponse + option DriadError) :=
  match resolvers with
  | [] => mret (inr last_error)
  | resolver :: resolvers =>
      catch (query_resolver resolver name timeout)
        (λ response, mret (inl response))
        (λ error, try_resolvers resolvers name timeout (Some error))
  end.

(** The [n] attempts from [attempt]. *)
Fixpoint try_attempts (n : nat) (attempt : Z) (name : list Z) (last_error : option DriadError) :
    M St DriadError DnsAmtRelayResponse :=
  match n with
  | O => fail (default NoResolvers last_error)
  | S n =>
      timeout ← retry_timeout attempt;
      r ← try_resolvers (rc_resolvers config) name timeout last_error;
      match r with
      | inl response => mret response
      | inr last_error => try_attempts n (attempt + 1) name last_error
      end
  end.
Definition lookup_amtrelay_name (name : list Z) : M St DriadError DnsAmtRelayResponse :=
  try_attempts (Z.to_nat (Z.max (rc_attempts config) 1)) 0 name None.

(** [ttl.min(alias_ttl)] on each. *)
Definition cap_ttl {T} (alias_ttl : Z) (t : Timed T) : Timed T := mkTimed (td_value t) (Z.min (td_ttl t) alias_ttl).

Fixpoint follow_aliases (n : nat) (query_name current : list Z) (visited : gset (list Z)) (alias_ttl : Z) :
    M St DriadError (list (Timed AmtRelayRecord)) :=
  match n with
  | O => fail (AliasDepthExceeded query_name)
  | S n =>
      if bool_decide (to_ascii_lowercase current ∈ visited) then fail (AliasLoop current)
      else
        response ← lookup_amtrelay_name current;
        match dr_records response, dr_aliases response with
        | [], [] => fail (NoRecords current)
        | [], alias :: _ =>
            follow_aliases n query_name (td_value alias) ({[to_ascii_lowercase current]} ∪ visited)
              (Z.min alias_ttl (td_ttl alias))
        | records, _ => mret (cap_ttl alias_ttl <$> records)
        end
  end.
Definition lookup_amtrelay_following_aliases (query_name : list Z) : M St DriadError (list (Timed AmtRelayRecord)) :=
  follow_aliases MAX_ALIAS_DEPTH query_name query_name ∅ DURATION_MAX.

(** * Address queries *)

(** One query of a host address: what it adds to the state of the loops. *)
Inductive host_step :=
| HostFound (addresses : list (Timed IpAddr))
| HostAlias (alias : Timed (list Z))
| HostNext (last_error : DriadError).

Definition query_host (resolver : SocketAddr) (current : list Z) (query_type timeout : Z) (last_error : DriadError) :
    M St DriadError host_step :=
  catch ('(id, response) ← query_wire resolver current query_type timeout;
         pure (parse_address_response id current query_type response))
    (λ response : DnsAddressResponse,
       mret (match da_addresses response, da_alias response with
             | [], Some alias => HostAlias alias
             | [], None => HostNext last_error
             | addresses, _ => HostFound addresses
             end))
    (λ error, mret (HostNext error)).

Fixpoint host_resolvers (resolvers : list SocketAddr) (current : list Z) (query_type timeout : Z)
    (last_error : DriadError) : M St DriadError host_step :=
  match resolvers with
  | [] => mret (HostNext last_error)
  | resolver :: resolvers =>
      step ← query_host resolver current query_type timeout last_error;
      match step with
      | HostNext last_error => host_resolvers resolvers current query_type timeout last_error
      | _ => mret step
      end
  end.

Fixpoint host_attempts (n : nat) (attempt : Z) (current : list Z) (query_type : Z) (last_error : DriadError) :
    M St DriadError host_step :=
  match n with
  | O => mret (HostNext last_error)
  | S n =>
      timeout ← retry_timeout attempt;
      step ← host_resolvers (rc_resolvers config) current query_type timeout last_error;
      match step with
      | HostNext last_error => host_attempts n (attempt + 1) current query_type last_error
      | _ => mret step
      end
  end.

Fixpoint host_aliases (n : nat) (name current : list Z) (query_type : Z) (visited : gset (list Z)) (alias_ttl : Z) :
    M St DriadError (list (Timed IpAddr)) :=
  match n with
  | O => fail (AliasDepthExceeded name)
  | S n =>
      if bool_decide (to_ascii_lowercase current ∈ visited) then fail (AliasLoop current)
      else
        step ← host_attempts (Z.to_nat (Z.max (rc_attempts config) 1)) 0 current query_type (NoRecords current);
        match step with
        | HostFound addresses => mret (cap_ttl alias_ttl <$> addresses)
        | HostAlias alias =>
            host_aliases n name (td_value alias) query_type ({[to_ascii_lowercase current]} ∪ visited)
              (Z.min alias_ttl (td_ttl alias))
        | HostNext last_error => fail last_error
        end
  end.
Definition lookup_host_type (name : list Z) (query_type : Z) : M St DriadError (list (Timed IpAddr)) :=
  host_aliases MAX_ALIAS_DEPTH name name query_type ∅ DURATION_MAX.

(** [for address in found]: what is not there yet. *)
Definition push_new (addresses found : list (Timed IpAddr)) : list (Timed IpAddr) :=
  foldl (λ addresses address,
    if existsb (λ existing, bool_decide (td_value existing = td_value address)) addresses then addresses
    else addresses ++ [address]) addresses found.

Fixpoint host_types (types : list Z) (name : list Z) (addresses : list (Timed IpAddr)) :
    M St DriadError (list (Timed IpAddr)) :=
  match types with
  | [] => mret addresses
  | query_type :: types =>
      catch (lookup_host_type name query_type)
        (λ found, host_types types name (push_new addresses found))
        (λ _, host_types types name addresses)
  end.
Definition lookup_host (name : list Z) : M St DriadError (list (Timed IpAddr)) :=
  addresses ← host_types [DNS_TYPE_A; DNS_TYPE_AAAA] name [];
  match addresses with [] => fail NoUsableRelay | _ => mret addresses end.

Definition relay_socket_addrs (target : AmtRelayTarget) : M St DriadError (list (Timed SocketAddr)) :=
  match target with
  | NoRelay => fail NoRelayPresent
  | Ipv4Target addr => mret [mkTimed (sock_new (V4 addr) AMT_PORT) DURATION_MAX]
  | Ipv6Target addr => mret [mkTimed (sock_new (V6 addr) AMT_PORT) DURATION_MAX]
  | NameTarget name =>
      addresses ← lookup_host name;
      let addresses := (λ a, mkTimed (sock_new (td_value a) AMT_PORT) (td_ttl a)) <$> addresses in
      match addresses with [] => fail NoUsableRelay | _ => mret addresses end
  end.

(** * Candidates *)

(** [self.config.max_candidates.max(1)]. *)
Definition candidate_limit : Z := Z.max (rc_max_candidates config) 1.

(** [for relay in relays]. *)
Fixpoint push_relays (source : IpAddr) (query_name : list Z) (record : Timed AmtRelayRecord)
    (relays : list (Timed SocketAddr)) (selections : list DriadRelaySelection) : list DriadRelaySelection :=
  match relays with
  | [] => selections
  | relay :: relays =>
      if negb (is_usable_relay_address (sock_ip (td_value relay))) then
        push_relays source query_name record relays selections
      else if existsb (λ selection, bool_decide (ds_relay selection = td_value relay)) selections then
        push_relays source query_name record relays selections
      else
        let selections := selections ++
          [mkSelection source query_name (td_value record) (td_value relay) (Z.min (td_ttl record) (td_ttl relay))] in
        if candidate_limit <=? len selections then selections
        else push_relays source query_name record relays selections
  end.

Fixpoint select_relays (source : IpAddr) (query_name : list Z) (records : list (Timed AmtRelayRecord))
    (selections : list DriadRelaySelection) : M St DriadError (list DriadRelaySelection) :=
  match records with
  | [] => mret selections
  | record :: records =>
      catch (relay_socket_addrs (ar_target (td_value record)))
        (λ relays,
           let selections := push_relays source query_name record relays selections in
           if candidate_limit <=? len selections then mret selections
           else select_relays source query_name records selections)
        (λ _, select_relays source query_name records selections)
  end.

Definition is_no_relay (record : Timed AmtRelayRecord) : bool :=
  match ar_target (td_value record) with NoRelay => true | _ => false end.

Definition resolve_source_candidates (source : IpAddr) : M St DriadError (list DriadRelaySelection) :=
  _ ← pure (validate_resolver config);
  let query_name := reverse_source_name source in
  records ← lookup_amtrelay_following_aliases query_name;
  if existsb is_no_relay records then fail NoRelayPresent
  else
    let records := sort_by_key (λ record, ar_precedence (td_value record)) records in
    selections ← select_relays source query_name (take (Z.to_nat candidate_limit) records) [];
    match selections with
    | [] => fail NoUsableRelay
    | _ => order_relay_candidates selections
    end.

Definition resolve_source (source : IpAddr) : M St DriadError DriadRelaySelection :=
  selections ← resolve_source_candidates source;
  pure (ok_or NoUsableRelay (head selections)).

(** * What the resolver relies on *)

(** [queries] are the instants at which this resolver has sent a query: a datagram, or the opening of the TCP
    connection for it. *)
Section laws.
Context (queries : W → list Z).

(** Time passes, and no query is sent. *)
Definition calm (w w' : W) : Prop := clock w <= clock w' ∧ queries w' = queries w.
(** At most one query is sent. *)
Definition sends_one (w w' : W) : Prop :=
  ∃ t : option Z, clock w <= clock w' ∧ (∀ t', t = Some t' → clock w <= t' <= clock w') ∧
    queries w' = queries w ++ option_list t.
Definition quiet (m : M W string unit) : Prop := ∀ w, mwp m (λ _, calm w) (λ _, calm w) w.
Definition one_query (m : M W string unit) : Prop := ∀ w, mwp m (λ _, sends_one w) (λ _, sends_one w) w.

(** Time does not go back; a sleep lasts at least as long as asked for; bytes are bytes, as many as asked for at most.
    The clones use the limiter as [reserve_at] does, at instants in order, and each query granted
    to them is one less that they still have to send. *)
Class DnsWorldOk : Prop := {
  sleep_ok d w : 0 <= d → clock w + d <= clock (sleep d w) ∧ queries (sleep d w) = queries w ∧ (rivals (sleep d w) <= rivals w)%nat;
  shared_limiter_ok l w :
    queries (shared_limiter l w).2 = queries w ∧
    match shared_limiter l w with
    | (Some l', w') => ∃ calls, StronglySorted Z.le (clock w :: calls ++ [clock w']) ∧ l' = (run_queries l [] calls).1 ∧
        (length (run_queries l [] calls).2 + rivals w' <= rivals w)%nat
    | (None, w') => clock w <= clock w'
    end;
  random_ok n w :
    0 <= n → calm w (fill_random n w).2 ∧
    match (fill_random n w).1 with inr bs => bytes bs ∧ len bs = n | inl _ => True end;
  quiet_bind a : quiet (udp_bind a);
  quiet_read_timeout d : quiet (udp_set_read_timeout d);
  quiet_write_timeout d : quiet (udp_set_write_timeout d);
  quiet_connect a : quiet (udp_connect a);
  send_ok bs : one_query (udp_send bs);
  tcp_connect_ok a d : one_query (tcp_connect_timeout a d);
  quiet_tcp_read_timeout d : quiet (tcp_set_read_timeout d);
  quiet_tcp_write_timeout d : quiet (tcp_set_write_timeout d);
  quiet_tcp_write bs : quiet (tcp_write_all bs);
  recv_ok n w : 0 <= n → mwp (udp_recv n) (λ bs w', (bytes bs ∧ len bs <= n) ∧ calm w w') (λ _, calm w) w;
  read_exact_ok n w : 0 <= n → mwp (tcp_read_exact n) (λ bs w', (bytes bs ∧ len bs = n) ∧ calm w w') (λ _, calm w) w
}.
End laws.

(** * Budgets *)

(** Grants, each with the query it was used for, if any: a query is sent after its grant and before
    the next one, all from [lo] to [hi]. *)
Fixpoint in_turn (lo : Z) (uses : list (Z * option Z)) (hi : Z) : Prop :=
  match uses with
  | [] => lo <= hi
  | (g, None) :: uses => lo <= g ∧ in_turn g uses hi
  | (g, Some t) :: uses => lo <= g ∧ g <= t ∧ in_turn t uses hi
  end.

Lemma in_turn_weaken uses : ∀ lo lo' hi hi', lo' <= lo → hi <= hi' → in_turn lo uses hi → in_turn lo' uses hi'.
Proof.
  induction uses as [|[g [t|]] uses IH]; cbn [in_turn]; intros lo lo' hi hi' Hl Hh; [lia|..].
  - intros (? & ? & H1). split_and!; [lia|done|]. eapply IH; [| |exact H1]; lia.
  - intros [? H1]. split; [lia|]. eapply IH; [| |exact H1]; lia.
Qed.
Lemma in_turn_app uses uses' : ∀ lo mid hi, in_turn lo uses mid → in_turn mid uses' hi → in_turn lo (uses ++ uses') hi.
Proof.
  induction uses as [|[g [t|]] uses IH]; cbn [in_turn app]; intros lo mid hi H1 H2.
  - by eapply in_turn_weaken; [exact H1|done|exact H2].
  - destruct H1 as (? & ? & H1). split_and!; [done..|by eapply IH].
  - destruct H1 as (? & H1). split; [done|by eapply IH].
Qed.

Section budgets.
Context (queries : W → list Z) `{!DnsWorldOk queries} (maximum window : Z) (Hmax : 0 < maximum) (Hwin : 0 < window).

Definition state_ok (s : St) (granted : list Z) : Prop := limiter_ok maximum window s.1 granted (clock s.2).

(** What happened from the world [w0], when the limiter had granted [granted], to [s]: the limiter has granted [more],
    to this resolver and to its clones; [uses] are the grants of this resolver, and every query it sent used one of them. *)
Record ledger (granted : list Z) (w0 : W) (more : list Z) (uses : list (Z * option Z)) (s : St) : Prop := {
  lg_limiter : state_ok s (granted ++ more);
  lg_granted : uses.*1 `sublist_of` more;
  lg_sent : queries s.2 = queries w0 ++ omap snd uses;
  lg_order : in_turn (clock w0) uses (clock s.2)
}.
(** At most [n] queries were granted, and so sent. *)
Definition spends (n : Z) (granted : list Z) (w0 : W) (s : St) : Prop :=
  ∃ more uses, ledger granted w0 more uses s ∧ len uses <= n.
(** [m] sends at most [n] queries, each within the rate of the limiter, and returns
    (without panic) a value in [Q] or an error. *)
Definition budget {A} (n : Z) (m : M St DriadError A) (Q : A → Prop) : Prop :=
  ∀ s granted, state_ok s granted → mwp m (λ a s', Q a ∧ spends n granted s.2 s') (λ _ s', spends n granted s.2 s') s.
(** The same where one grant has been obtained before and not been used. *)
Definition spends_credit (n : Z) (granted : list Z) (w0 : W) (s : St) : Prop :=
  ∃ t c more uses, clock w0 <= c ∧ (∀ t', t = Some t' → clock w0 <= t' <= c) ∧ state_ok s (granted ++ more) ∧
    uses.*1 `sublist_of` more ∧ queries s.2 = queries w0 ++ option_list t ++ omap snd uses ∧
    in_turn c uses (clock s.2) ∧ len uses <= n.
Definition credit {A} (n : Z) (m : M St DriadError A) (Q : A → Prop) : Prop :=
  ∀ s granted, state_ok s granted → mwp m (λ a s', Q a ∧ spends_credit n granted s.2 s') (λ _ s', spends_credit n granted s.2 s') s.

Lemma spends_calm l w w' granted : state_ok (l, w) granted → calm queries w w' → spends 0 granted w (l, w').
Proof.
  intros Hs [Hc Hq]. exists [], []. split; [|done]. split; cbn; rewrite ?app_nil_r; [|constructor|done|done].
  exact (limiter_ok_later _ _ _ _ _ _ Hc Hs).
Qed.
Lemma spends_0 s granted : state_ok s granted → spends 0 granted s.2 s.
Proof. intros Hs. destruct s as [l w]. by apply spends_calm. Qed.
Lemma spends_mono n n' granted w0 s : n <= n' → spends n granted w0 s → spends n' granted w0 s.
Proof. intros ? (more & uses & ? & ?). exists more, uses. split; [done|lia]. Qed.
Lemma spends_trans n n' granted more uses w0 s s' :
  ledger granted w0 more uses s → len uses <= n → spends n' (granted ++ more) s.2 s' → spends (n + n') granted w0 s'.
Proof.
  intros [_ Hg Hq Ho] Hn (more' & uses' & [Hl' Hg' Hq' Ho'] & Hn'). exists (more ++ more'), (uses ++ uses').
  split; [|len_lia]. split.
  - by rewrite (assoc_L (++)).
  - rewrite fmap_app. by apply sublist_app.
  - by rewrite Hq', Hq, omap_app, (assoc_L (++)).
  - by eapply in_turn_app.
Qed.

Lemma budget_mono {A} n n' (m : M St DriadError A) (Q Q' : A → Prop) :
  budget n m Q → n <= n' → (∀ a, Q a → Q' a) → budget n' m Q'.
Proof.
  intros Hm Hn HQ s granted Hs. eapply mwp_mono; [by apply Hm|..].
  - intros a s' [Ha Hsp]. split; [by apply HQ|by eapply spends_mono].
  - intros e s'. by apply spends_mono.
Qed.
Lemma budget_ret {A} n (a : A) (Q : A → Prop) : 0 <= n → Q a → budget n (mret a) Q.
Proof. intros Hn HQ s granted Hs. apply mwp_ret. split; [done|]. eapply spends_mono; [done|by apply spends_0]. Qed.
Lemma budget_pure {A} n (r : res DriadError A) (Q : A → Prop) : 0 <= n → wp r Q (λ _, True) → budget n (pure r) Q.
Proof.
  intros Hn Hr s granted Hs. apply mwp_pure. pose proof (spends_mono 0 n granted s.2 s Hn (spends_0 s granted Hs)).
  eapply wp_mono; [exact Hr|..]; by auto.
Qed.
Lemma budget_fail {A} n e (Q : A → Prop) : 0 <= n → budget n (fail e) Q.
Proof. intros Hn. by apply budget_pure. Qed.
Lemma budget_bind {A B} n n' (m : M St DriadError A) (f : A → M St DriadError B) (P : A → Prop) (Q : B → Prop) :
  0 <= n' → budget n m P → (∀ a, P a → budget n' (f a) Q) → budget (n + n') (m ≫= f) Q.
Proof.
  intros Hn Hm Hf s granted Hs. apply mwp_bind. eapply mwp_mono; [by apply Hm|..].
  - intros a s' [Ha (more & uses & Hok & Hlen)]. eapply mwp_mono; [by apply Hf; [|apply Hok]|..].
    + intros b s'' [Hb Hsp]. split; [done|by eapply spends_trans].
    + intros e s'' Hsp. by eapply spends_trans.
  - intros e s' Hsp. by apply (spends_mono n); [lia|].
Qed.
Lemma budget_catch {A B} n n' (m : M St DriadError A) (f : A → M St DriadError B) h (P : A → Prop) (Q : B → Prop) :
  budget n m P → (∀ a, P a → budget n' (f a) Q) → (∀ e, budget n' (h e) Q) → budget (n + n') (catch m f h) Q.
Proof.
  intros Hm Hf Hh s granted Hs. apply mwp_catch. eapply mwp_mono; [by apply Hm|..].
  - intros a s' [Ha (more & uses & Hok & Hlen)]. eapply mwp_mono; [by apply Hf; [|apply Hok]|..].
    + intros b s'' [Hb Hsp]. split; [done|by eapply spends_trans].
    + intros e s'' Hsp. by eapply spends_trans.
  - intros e s' (more & uses & Hok & Hlen). eapply mwp_mono; [by apply Hh, Hok|..].
    + intros b s'' [Hb Hsp]. split; [done|by eapply spends_trans].
    + intros e' s'' Hsp. by eapply spends_trans.
Qed.

Lemma mwp_world {E A} (m : M W E A) (Q : A → St → Prop) (R : E → St → Prop) l w :
  mwp m (λ a w', Q a (l, w')) (λ e w', R e (l, w')) w → mwp (world m) Q R (l, w).
Proof. unfold mwp, world. by destruct (m w) as [[] ?]. Qed.
Lemma budget_sys {A} c (m : M W string A) (Q : A → Prop) :
  (∀ w, mwp m (λ a w', Q a ∧ calm queries w w') (λ _, calm queries w) w) → budget 0 (sys c m) Q.
Proof.
  intros Hm [l w] granted Hs. unfold sys. apply mwp_map_err, mwp_world. eapply mwp_mono; [apply Hm|..].
  - intros a w' [Ha Hc]. split; [done|]. by apply (spends_calm l w).
  - intros e w' Hc. by apply (spends_calm l w).
Qed.
Lemma budget_quiet c m : quiet queries m → budget 0 (sys c m) (λ _, True).
Proof. intros Hm. apply budget_sys. intros w. eapply mwp_mono; [apply Hm|by auto..]. Qed.
Lemma budget_random n : 0 <= n → budget 0 (act (fill_random n))
  (λ r, match r with inr bs => bytes bs ∧ len bs = n | inl _ => True end).
Proof.
  intros Hn [l w] granted Hs. apply mwp_act.
  change (@fill_random St resolver_rng n (l, w)) with (let '(r, w') := fill_random n w in (r, (l, w'))). destruct (random_ok queries n w Hn) as [Hc Hr].
  destruct (fill_random n w) as [r w']. cbn [fst snd] in *. split; [done|]. by apply (spends_calm l w).
Qed.

(** ** Grants *)

(** The lock: what the clones were granted is in [more]. *)
Lemma shared_limiter_spec l w granted :
  state_ok (l, w) granted →
  match shared_limiter l w with
  | (Some l', w') => calm queries w w' ∧ ∃ more, state_ok (l', w') (granted ++ more) ∧ (length more + rivals w' <= rivals w)%nat
  | (None, w') => calm queries w w'
  end.
Proof.
  intros Hs. destruct (shared_limiter_ok queries l w) as [Hq Hl]. destruct (shared_limiter l w) as [[l'|] w']; cbn [snd] in Hq; [|by split].
  destruct Hl as (calls & Hsort & -> & Hr). split.
  - split; [|done]. apply StronglySorted_inv in Hsort as [_ Hf]. apply Forall_app in Hf as [_ Hf]. by apply Forall_cons in Hf as [? _].
  - exists (run_queries l [] calls).2. split; [|done].
    pose proof (run_queries_ok maximum window calls l granted (clock w) (clock w') Hmax Hwin Hs Hsort) as Hok.
    by rewrite run_queries_grants in Hok.
Qed.

(** The loop returns, with a grant of its own: a refusal makes it wait until there is room for a query, and only a
    query granted to a clone can take that room. *)
Lemma budget_loop_wp fuel : ∀ l w granted,
  state_ok (l, w) granted → (rivals w + 1 <= fuel)%nat →
  (rivals w + 2 <= fuel)%nat ∨ (∀ now, clock w <= now → allows maximum window now granted = true) →
  mwp (budget_loop fuel)
    (λ _ s', ∃ more g, ledger granted w more [(g, None)] s')
    (λ _ s', ∃ more, ledger granted w more [] s') (l, w).
Proof.
  induction fuel as [|fuel IH]; intros l w granted Hs Hfuel Hfree; [lia|].
  pose proof (shared_limiter_spec l w granted Hs) as Hsh. destruct (shared_limiter l w) as [[l1|] w1] eqn:Hlock; cycle 1.
  { apply (mwp_run _ (pure (Err (DIo "DRIAD DNS query limiter is poisoned"))) _ _ _ (l, w1)); [cbn [budget_loop]; by rewrite Hlock|].
    apply mwp_fail. destruct (spends_calm l w w1 granted Hs Hsh) as (more & uses & Hlg & Hn).
    destruct uses; [by exists more|exfalso; len_lia]. }
  destruct Hsh as [[Hc1 Hq1] (more & Hs1 & Hr1)].
  pose proof (reserve_at_spec _ _ l1 (granted ++ more) (clock w1) (clock w1) Hmax Hwin (Z.le_refl _) Hs1) as Hr.
  destruct (reserve_at l1 (clock w1)) as [[d|] l2] eqn:Hres.
  - apply (mwp_run _ (budget_loop fuel) _ _ _ (l2, sleep d w1)); [cbn [budget_loop]; by rewrite Hlock, Hres|].
    destruct Hr as (Hno & Hok2 & q & Hq & Hd & Hpos).
    assert (rivals w1 + 2 <= S fuel)%nat as Hfuel1.
    { destruct Hfree as [?|Hfree]; [lia|]. destruct more as [|m more]; cbn [length] in Hr1; [|lia].
      rewrite app_nil_r in Hno. rewrite Hfree in Hno; [done|lia]. }
    destruct (sleep_ok queries d w1 ltac:(lia)) as (Hc2 & Hq2 & Hr2).
    eapply mwp_mono; [apply (IH l2 (sleep d w1) (granted ++ more))|..].
    + apply (limiter_ok_later _ _ _ _ (clock w1)); [cbn; lia|done].
    + lia.
    + right. intros now Hnow. eapply (allows_after_wait maximum window l2 _ (clock w1) now q); [done..|lia|lia].
    + intros ? s' (more' & g & [Hl Hg Hq' Ho]). exists (more ++ more'), g. split; cbn in *.
      * by rewrite (assoc_L (++)).
      * by apply sublist_inserts_l.
      * congruence.
      * lia.
    + intros ? s' (more' & [Hl Hg Hq' Ho]). exists (more ++ more'). split; cbn in *.
      * by rewrite (assoc_L (++)).
      * by apply sublist_inserts_l.
      * congruence.
      * lia.
  - apply (mwp_run _ (mret tt) _ _ _ (l2, w1)); [cbn [budget_loop]; by rewrite Hlock, Hres|].
    apply mwp_ret. destruct Hr as [_ Hok2]. exists (more ++ [clock w1]), (clock w1). split; cbn.
    + by rewrite (assoc_L (++)).
    + by apply sublist_inserts_l.
    + by rewrite app_nil_r.
    + lia.
Qed.

(** ** A query after its grant *)

Lemma credit_of_budget {A} n (m : M St DriadError A) Q : budget n m Q → credit n m Q.
Proof.
  intros Hm s granted Hs.
  assert (∀ s', spends n granted s.2 s' → spends_credit n granted s.2 s') as Hc.
  { intros s' (more & uses & [? ? ? ?] & ?). exists None, (clock s.2), more, uses. split_and!; [lia|done..]. }
  eapply mwp_mono; [by apply Hm|..]; [intros a s' [? ?]; split; [done|by apply Hc]|intros e s'; apply Hc].
Qed.
Lemma credit_bind {A B} n (m : M St DriadError A) (f : A → M St DriadError B) (P : A → Prop) (Q : B → Prop) :
  0 <= n → budget 0 m P → (∀ a, P a → credit n (f a) Q) → credit n (m ≫= f) Q.
Proof.
  intros Hn Hm Hf s granted Hs. apply mwp_bind.
  assert (∀ s' s'' more, ledger granted s.2 more [] s' → spends_credit n (granted ++ more) s'.2 s'' → spends_credit n granted s.2 s'') as Htrans.
  { intros s' s'' more [_ _ Hq Ho] (t & c & more' & uses & Hc & Ht & Hok & Hsub & Hq' & Ho' & Hl). cbn in Hq, Ho.
    exists t, c, (more ++ more'), uses. split_and!; [lia| |by rewrite (assoc_L (++))|by apply sublist_inserts_l| |done..].
    - intros t' Hst. specialize (Ht t' Hst). lia.
    - by rewrite Hq', Hq, app_nil_r. }
  eapply mwp_mono; [by apply Hm|..].
  - intros a s' [Ha (more & uses & Hlg & Hl)]. destruct uses; [|exfalso; len_lia].
    eapply mwp_mono; [by apply Hf; [|apply Hlg]|..].
    + intros b s'' [Hb Hsp]. split; [done|by eapply Htrans].
    + intros e s'' Hsp. by eapply Htrans.
  - intros e s' (more & uses & [Hl Hsub Hq Ho] & Hlen). exists None, (clock s.2), more, uses.
    split_and!; [lia|done..|lia].
Qed.
Lemma credit_query_bind {B} n c m (f : unit → M St DriadError B) (Q : B → Prop) :
  one_query queries m → 0 <= n → budget n (f tt) Q → credit n (sys c m ≫= f) Q.
Proof.
  intros Hm Hn Hf [l w] granted Hs. apply mwp_bind. unfold sys. apply mwp_map_err, mwp_world.
  assert (∀ w' s'', sends_one queries w w' → spends n granted w' s'' → spends_credit n granted w s'') as Htrans.
  { intros w' s'' (t & Hc & Ht & Hq) (more & uses & [Hok Hsub Hq' Ho] & Hl). cbn [snd] in *.
    exists t, (clock w'), more, uses. split_and!; try done. by rewrite Hq', Hq, <- (assoc_L (++)). }
  assert (∀ w', sends_one queries w w' → state_ok (l, w') granted) as Hlater.
  { intros w' (t & Hc & _). exact (limiter_ok_later _ _ _ _ _ _ Hc Hs). }
  eapply mwp_mono; [apply Hm|..].
  - intros [] w' Hw. eapply mwp_mono; [by apply Hf, Hlater|..].
    + intros b s'' [? Hsp]. split; [done|by eapply Htrans].
    + intros e s'' Hsp. by eapply Htrans.
  - intros e w' Hw. apply (Htrans w'); [done|]. eapply spends_mono; [done|]. by apply (spends_0 (l, w')), Hlater.
Qed.
Lemma credit_quiet_bind {B} n c m (f : unit → M St DriadError B) (Q : B → Prop) :
  quiet queries m → 0 <= n → credit n (f tt) Q → credit n (sys c m ≫= f) Q.
Proof. intros Hm Hn Hf. apply (credit_bind n _ _ (λ _, True)); [done|by apply budget_quiet|by intros []]. Qed.

(** A query is paid for by the grant that the limiter gives before it. *)
Lemma budget_wait_bind {B} n (f : unit → M St DriadError B) (Q : B → Prop) :
  0 <= n → credit n (f tt) Q → budget (1 + n) (wait_for_query_budget ≫= f) Q.
Proof.
  intros Hn Hf [l w] granted Hs. apply mwp_bind.
  apply (mwp_run _ (budget_loop (rivals w + 2)) _ _ _ (l, w)); [done|]. cbn [snd].
  assert (∀ s' s'' more g, ledger granted w more [(g, None)] s' → spends_credit n (granted ++ more) s'.2 s'' →
    spends (1 + n) granted w s'') as Htrans.
  { intros s' s'' more g [_ Hsub Hq Ho] (t & c & more' & uses & Hc & Ht & Hok & Hsub' & Hq' & Ho' & Hl). cbn in Hsub, Hq, Ho.
    exists (more ++ more'), ((g, t) :: uses). split; [|len_lia]. split.
    - by rewrite (assoc_L (++)).
    - cbn. by apply (sublist_app [g]).
    - rewrite Hq', Hq, app_nil_r. by destruct t.
    - cbn. destruct t as [t|].
      + specialize (Ht t eq_refl). split_and!; [lia|lia|]. eapply in_turn_weaken; [| |exact Ho']; lia.
      + split; [lia|]. eapply in_turn_weaken; [| |exact Ho']; lia. }
  eapply mwp_mono; [apply (budget_loop_wp (rivals w + 2) l w granted Hs); lia|..].
  - intros [] s' (more & g & Hlg). eapply mwp_mono; [by apply Hf, Hlg|..].
    + intros b s'' [? Hsp]. split; [done|by eapply Htrans].
    + intros e s'' Hsp. by eapply Htrans.
  - intros e s' (more & Hlg). exists more, []. split; [done|len_lia].
Qed.

Lemma budget_dns_id : budget 0 random_dns_id u16.
Proof.
  unfold random_dns_id. apply (budget_bind 0 0 _ _ _ _ ltac:(lia) (budget_random 2 ltac:(lia))). intros [e|bs] Hbs; [by apply budget_fail|].
  destruct Hbs as [Hb Hl]. destruct bs as [|a [|b [|? ?]]]; [exfalso; len_lia..| |exfalso; len_lia].
  apply bytes_cons in Hb as [Ha Hb]. apply bytes_cons in Hb as [Hb _].
  apply (budget_bind 0 0 _ _ (λ x, x = a)); [done|by apply budget_pure|intros ? ->].
  apply (budget_bind 0 0 _ _ (λ x, x = b)); [done|by apply budget_pure|intros ? ->]. apply budget_ret; [done|]. auto.
Qed.

Lemma u64_from_ne_nonneg bs : bytes bs → 0 <= u64_from_ne bs.
Proof. induction 1 as [|b bs Hb _ IH]; [done|]. unfold u8 in Hb. unfold u64_from_ne in *. simpl. lia. Qed.

(** A retry waits between the configured timeout, in whole milliseconds, and the bound. *)
Lemma budget_randomized lower upper :
  0 <= lower <= upper → upper <= from_secs 120 →
  budget 0 (randomized_duration lower upper) (λ t, lower - 1000000 < t <= upper).
Proof.
  intros Hl Hu. unfold randomized_duration, from_secs, NANOS_PER_SEC in *.
  assert (∀ d, 0 <= d <= upper → as_u64 (d / 1000000) = d / 1000000 ∧ 0 <= d / 1000000 <= 120000 ∧
    d - 1000000 < d / 1000000 * 1000000 <= d) as Hms.
  { intros d Hd. pose proof (Z.div_mod d 1000000 ltac:(lia)). pose proof (Z.mod_pos_bound d 1000000 ltac:(lia)).
    assert (0 <= d / 1000000 <= 120000) by (split; [apply Z.div_pos|]; lia).
    unfold as_u64, U64_MODULUS. rewrite Z.mod_small by lia. lia. }
  destruct (Hms lower ltac:(lia)) as (-> & Hl1 & Hl2). destruct (Hms upper ltac:(lia)) as (-> & Hu1 & Hu2).
  destruct (Z.leb_spec (upper / 1000000) (lower / 1000000)) as [Hle|Hlt]; [apply budget_ret; lia|].
  apply (budget_bind 0 0 _ _ _ _ ltac:(lia) (budget_random 8 ltac:(lia))). intros r Hr.
  rewrite (proj2 (Z.leb_gt _ _)) by (unfold U64_MODULUS; lia). apply budget_ret; [done|].
  set (random := match r with inr bs => u64_from_ne bs | inl _ => upper / 1000000 end).
  pose proof (Z.mod_pos_bound random (upper / 1000000 - lower / 1000000 + 1) ltac:(lia)). unfold from_millis. lia.
Qed.

Section validated.
Context (Htimeout : 0 <= rc_timeout config).

Lemma budget_retry attempt : 0 <= attempt →
  budget 0 (retry_timeout attempt) (λ t, t <= from_secs 120 ∧ Z.min (rc_timeout config) (from_secs 120) - 1000000 < t).
Proof.
  intros Ha. unfold retry_timeout. set (upper := Z.min _ (from_secs 120)).
  assert (1 <= Z.shiftl 1 (Z.min attempt 6)) as Hm.
  { rewrite Z.shiftl_mul_pow2 by lia. assert (0 < 2 ^ Z.min attempt 6) by (apply Z.pow_pos_nonneg; lia). lia. }
  assert (Z.min (rc_timeout config) (from_secs 120) <= upper <= from_secs 120) as Hu.
  { subst upper. pose proof (Z.mul_le_mono_nonneg_l 1 (Z.shiftl 1 (Z.min attempt 6)) (rc_timeout config) Htimeout Hm).
    unfold duration_checked_mul. destruct (_ <=? _); simpl default; lia. }
  eapply budget_mono; [apply (budget_randomized (Z.min (rc_timeout config) upper) upper)|done|].
  - unfold from_secs, NANOS_PER_SEC in *. lia.
  - lia.
  - intros t Ht. simpl in Ht. lia.
Qed.

Definition response_bytes (bs : list Z) : Prop := bytes bs ∧ len bs <= U16_MAX.

Lemma budget_bind0 {A B} n (m : M St DriadError A) (f : A → M St DriadError B) (P : A → Prop) (Q : B → Prop) :
  0 <= n → budget 0 m P → (∀ a, P a → budget n (f a) Q) → budget n (m ≫= f) Q.
Proof. intros Hn Hm Hf. by apply (budget_bind 0 n _ _ P). Qed.
Lemma budget_weaken {A} n n' (m : M St DriadError A) (Q : A → Prop) : budget n m Q → n <= n' → budget n' m Q.
Proof. intros. by apply (budget_mono n n' m Q Q). Qed.

Lemma budget_quiet_bind {B} n c m (f : unit → M St DriadError B) (Q : B → Prop) :
  quiet queries m → 0 <= n → budget n (f tt) Q → budget n (sys c m ≫= f) Q.
Proof. intros Hm Hn Hf. apply (budget_bind0 n _ _ (λ _, True)); [done|by apply budget_quiet|by intros []]. Qed.

Lemma budget_query_tcp resolver query timeout : budget 1 (query_tcp resolver query timeout) response_bytes.
Proof.
  unfold query_tcp. apply (budget_wait_bind 0); [done|].
  apply credit_query_bind; [apply (tcp_connect_ok queries)|done|]. apply budget_quiet_bind; [apply (quiet_tcp_read_timeout queries)|done|].
  apply budget_quiet_bind; [apply (quiet_tcp_write_timeout queries)|done|]. destruct (_ <? _); [by apply budget_fail|].
  apply budget_quiet_bind; [apply (quiet_tcp_write queries)|done|]. apply budget_quiet_bind; [apply (quiet_tcp_write queries)|done|].
  eapply budget_bind0; [done|apply budget_sys; intros w; by apply (read_exact_ok queries 2)|]. intros bs [Hb Hl].
  destruct bs as [|a [|b [|? ?]]]; [exfalso; len_lia..| |exfalso; len_lia].
  apply bytes_cons in Hb as [Ha Hb]. apply bytes_cons in Hb as [Hb _].
  apply (budget_bind0 0 _ _ (λ x, x = a)); [done|by apply budget_pure|intros ? ->].
  apply (budget_bind0 0 _ _ (λ x, x = b)); [done|by apply budget_pure|intros ? ->].
  destruct (_ <? _); [by apply budget_fail|]. apply budget_sys. intros w. eapply mwp_mono; [apply (read_exact_ok queries); pose proof (u16_from_be_range a b Ha Hb) as Hu; unfold u16 in Hu; lia|..].
  - intros bs w' [[Hbs Hl'] Hc]. split; [|done]. split; [done|].
    pose proof (u16_from_be_range a b Ha Hb) as Hu. unfold u16, U16_MAX in *. lia.
  - done.
Qed.

Lemma truncated_returns datagram : returns (truncated datagram).
Proof.
  unfold truncated, returns. destruct (Z.leb_spec 4 (len datagram)); [|done].
  apply wp_bind, wp_idx; [lia|]. intros ? _. apply wp_bind, wp_idx; [lia|]. done.
Qed.

Lemma budget_query_wire resolver name query_type timeout :
  budget 2 (query_wire resolver name query_type timeout) (λ '(id, bs), u16 id ∧ response_bytes bs).
Proof.
  unfold query_wire. apply (budget_wait_bind 1); [done|].
  apply (credit_bind 1 _ _ _ _ ltac:(lia) budget_dns_id). intros id Hid.
  apply (credit_bind 1 _ _ _ _ ltac:(lia) (budget_pure 0 _ _ (Z.le_refl 0) (build_dns_query_returns id name query_type))). intros query _.
  apply credit_quiet_bind; [apply (quiet_bind queries)|done|]. apply credit_quiet_bind; [apply (quiet_read_timeout queries)|done|].
  apply credit_quiet_bind; [apply (quiet_write_timeout queries)|done|]. apply credit_quiet_bind; [apply (quiet_connect queries)|done|].
  apply credit_query_bind; [apply (send_ok queries)|done|].
  eapply budget_bind0; [done|apply budget_sys; intros w; by apply (recv_ok queries MAX_DNS_DATAGRAM)|]. intros datagram [Hb Hl].
  apply (budget_bind0 1 _ _ _ _ ltac:(lia) (budget_pure 0 _ _ (Z.le_refl 0) (truncated_returns datagram))). intros [] _.
  - apply (budget_bind 1 0 _ _ _ _ ltac:(lia) (budget_query_tcp resolver query timeout)). intros bs Hbs. by apply budget_ret.
  - apply budget_ret; [lia|]. split; [done|]. split; [done|]. unfold MAX_DNS_DATAGRAM, U16_MAX in *. lia.
Qed.

(** * Lookups *)

Lemma response_usize bs : response_bytes bs → bytes bs ∧ len bs <= USIZE_MAX.
Proof. intros [? ?]. unfold U16_MAX, USIZE_MAX in *. split; [done|lia]. Qed.

Lemma budget_query_resolver resolver name timeout : budget 2 (query_resolver resolver name timeout) (λ _, True).
Proof.
  unfold query_resolver. apply (budget_bind 2 0 _ _ _ _ ltac:(lia) (budget_query_wire _ _ _ _)).
  intros [id bs] [_ [Hb Hl]%response_usize]. apply budget_pure; [done|]. by apply parse_dns_response_returns.
Qed.

Lemma budget_try_resolvers resolvers name timeout : ∀ last,
  budget (2 * len resolvers) (try_resolvers resolvers name timeout last) (λ _, True).
Proof.
  induction resolvers as [|r resolvers IH]; intros last; cbn [try_resolvers]; [by apply budget_ret|].
  eapply budget_weaken; [apply (budget_catch 2 (2 * len resolvers) _ _ _ _ _ (budget_query_resolver r name timeout))|len_lia].
  - intros. apply budget_ret; [len_lia|done].
  - intros e. apply IH.
Qed.

(** The queries of one name. *)
Definition name_cost : Z := Z.max (rc_attempts config) 1 * (2 * len (rc_resolvers config)).

Lemma budget_try_attempts n name : ∀ attempt last,
  0 <= attempt → budget (Z.of_nat n * (2 * len (rc_resolvers config))) (try_attempts n attempt name last) (λ _, True).
Proof.
  induction n as [|n IH]; intros attempt last Ha; cbn [try_attempts]; [by apply budget_fail|].
  pose proof (len_nonneg (rc_resolvers config)).
  eapply budget_bind0; [lia|apply (budget_retry attempt Ha)|]. intros timeout _.
  eapply budget_weaken; [apply (budget_bind _ (Z.of_nat n * (2 * len (rc_resolvers config))) _ _ _ _ ltac:(lia)
    (budget_try_resolvers (rc_resolvers config) name timeout last))|lia].
  intros [response|last'] _; [by apply budget_ret; [lia|]|apply IH; lia].
Qed.
Lemma name_cost_nonneg : 0 <= name_cost.
Proof. unfold name_cost. pose proof (len_nonneg (rc_resolvers config)). lia. Qed.
Lemma budget_lookup_name name : budget name_cost (lookup_amtrelay_name name) (λ _, True).
Proof.
  unfold name_cost, lookup_amtrelay_name. eapply budget_weaken; [by apply budget_try_attempts|]. lia.
Qed.

Lemma budget_follow_aliases n query_name : ∀ current visited ttl,
  budget (Z.of_nat n * name_cost) (follow_aliases n query_name current visited ttl) (λ _, True).
Proof.
  pose proof name_cost_nonneg as Hc.
  induction n as [|n IH]; intros current visited ttl; cbn [follow_aliases]; [by apply budget_fail|].
  destruct (bool_decide _); [apply budget_fail; lia|].
  eapply budget_weaken; [apply (budget_bind _ (Z.of_nat n * name_cost) _ _ _ _ ltac:(lia) (budget_lookup_name current))|lia].
  intros response _. destruct (dr_records response); [destruct (dr_aliases response)|].
  - apply budget_fail. lia.
  - apply IH.
  - apply budget_ret; [lia|done].
Qed.

Lemma budget_query_host resolver current query_type timeout last :
  budget 2 (query_host resolver current query_type timeout last) (λ _, True).
Proof.
  unfold query_host. apply (budget_catch 2 0 _ _ _ (λ _, True)); [|intros; by apply budget_ret..].
  apply (budget_bind 2 0 _ _ _ _ ltac:(lia) (budget_query_wire _ _ _ _)).
  intros [id bs] [_ [Hb Hl]%response_usize]. apply budget_pure; [done|]. by apply parse_address_response_returns.
Qed.
Lemma budget_host_resolvers resolvers current query_type timeout : ∀ last,
  budget (2 * len resolvers) (host_resolvers resolvers current query_type timeout last) (λ _, True).
Proof.
  induction resolvers as [|r resolvers IH]; intros last; cbn [host_resolvers]; [by apply budget_ret|].
  pose proof (len_nonneg resolvers).
  eapply budget_weaken; [apply (budget_bind 2 (2 * len resolvers) _ _ _ _ ltac:(lia) (budget_query_host r current query_type timeout last))|len_lia].
  intros [| |last'] _; [apply budget_ret; [lia|done]..|apply IH].
Qed.
Lemma budget_host_attempts n current query_type : ∀ attempt last,
  0 <= attempt → budget (Z.of_nat n * (2 * len (rc_resolvers config))) (host_attempts n attempt current query_type last) (λ _, True).
Proof.
  induction n as [|n IH]; intros attempt last Ha; cbn [host_attempts]; [by apply budget_ret|].
  pose proof (len_nonneg (rc_resolvers config)).
  eapply budget_bind0; [lia|apply (budget_retry attempt Ha)|]. intros timeout _.
  eapply budget_weaken; [apply (budget_bind _ (Z.of_nat n * (2 * len (rc_resolvers config))) _ _ _ _ ltac:(lia)
    (budget_host_resolvers (rc_resolvers config) current query_type timeout last))|lia].
  intros [| |last'] _; [apply budget_ret; [lia|done]..|apply IH; lia].
Qed.
Lemma budget_host_aliases n name query_type : ∀ current visited ttl,
  budget (Z.of_nat n * name_cost) (host_aliases n name current query_type visited ttl) (λ _, True).
Proof.
  pose proof name_cost_nonneg as Hc.
  induction n as [|n IH]; intros current visited ttl; cbn [host_aliases]; [by apply budget_fail|].
  destruct (bool_decide _); [apply budget_fail; lia|].
  eapply budget_weaken; [apply (budget_bind name_cost (Z.of_nat n * name_cost) _ _ (λ _, True)); [lia| |]|lia].
  - eapply budget_weaken; [by apply budget_host_attempts|]. unfold name_cost. lia.
  - intros [addresses|alias|last] _; [apply budget_ret; [lia|done]|apply IH|apply budget_fail; lia].
Qed.
Lemma budget_host_types types name : ∀ addresses,
  budget (len types * (8 * name_cost)) (host_types types name addresses) (λ _, True).
Proof.
  pose proof name_cost_nonneg as Hc.
  induction types as [|t types IH]; intros addresses; cbn [host_types]; [by apply budget_ret|].
  eapply budget_weaken; [apply (budget_catch (8 * name_cost) (len types * (8 * name_cost)) _ _ _ (λ _, True))|len_lia].
  - apply (budget_host_aliases 8).
  - intros found _. apply IH.
  - intros e. apply IH.
Qed.
Lemma budget_lookup_host name : budget (16 * name_cost) (lookup_host name) (λ _, True).
Proof.
  unfold lookup_host. eapply budget_weaken; [eapply (budget_bind _ 0)|]; [done|apply budget_host_types| |].
  - intros addresses _. destruct addresses; [by apply budget_fail|by apply budget_ret].
  - unfold len. simpl. lia.
Qed.

(** The relay addresses of a target. *)
Definition target_matches (target : AmtRelayTarget) (relay : SocketAddr) : Prop :=
  sock_port relay = AMT_PORT ∧ relay = sock_new (sock_ip relay) AMT_PORT ∧
  match target with
  | NoRelay => False
  | Ipv4Target a => sock_ip relay = V4 a
  | Ipv6Target a => sock_ip relay = V6 a
  | NameTarget _ => True
  end.

Lemma target_matches_new target ip :
  match target with NoRelay => False | Ipv4Target a => ip = V4 a | Ipv6Target a => ip = V6 a | NameTarget _ => True end →
  target_matches target (sock_new ip AMT_PORT).
Proof. intros Ht. unfold target_matches. rewrite sock_port_new, sock_ip_new. done. Qed.

Lemma budget_relay_socket_addrs target :
  budget (16 * name_cost) (relay_socket_addrs target) (Forall (λ t, target_matches target (td_value t))).
Proof.
  pose proof name_cost_nonneg as Hc. unfold relay_socket_addrs. destruct target as [|a|a|name].
  - apply budget_fail. lia.
  - apply budget_ret; [lia|]. constructor; [|constructor]. by apply target_matches_new.
  - apply budget_ret; [lia|]. constructor; [|constructor]. by apply target_matches_new.
  - eapply budget_weaken; [apply (budget_bind (16 * name_cost) 0 _ _ (λ _, True)); [lia|apply budget_lookup_host|]|lia].
    intros addresses _. assert (Forall (λ t, target_matches (NameTarget name) (td_value t))
      ((λ a, mkTimed (sock_new (td_value a) AMT_PORT) (td_ttl a)) <$> addresses)) as Hf.
    { apply Forall_fmap, Forall_true. intros a. by apply target_matches_new. }
    destruct (_ <$> addresses); [by apply budget_fail|by apply budget_ret].
Qed.

(** * Candidates *)

Definition selection_ok (source : IpAddr) (s : DriadRelaySelection) : Prop :=
  ds_source s = source ∧ ds_query_name s = reverse_source_name source ∧
  is_usable_relay_address (sock_ip (ds_relay s)) = true ∧ target_matches (ar_target (ds_record s)) (ds_relay s).
Record selections_ok (source : IpAddr) (l : list DriadRelaySelection) : Prop := {
  so_distinct : NoDup (ds_relay <$> l);
  so_each : Forall (selection_ok source) l;
  so_len : len l <= candidate_limit
}.

Lemma selections_ok_perm source l l' : l' ≡ₚ l → selections_ok source l → selections_ok source l'.
Proof.
  intros Hp [Hd He Hl]. split.
  - by rewrite Hp.
  - by rewrite Hp.
  - unfold len in *. by rewrite Hp.
Qed.

Lemma not_existsb_relay relay (l : list DriadRelaySelection) :
  existsb (λ s, bool_decide (ds_relay s = relay)) l = false → relay ∉ ds_relay <$> l.
Proof.
  intros He (s & -> & Hs)%list_elem_of_fmap. apply not_true_iff_false in He. apply He, existsb_exists.
  exists s. split; [by apply list_elem_of_In|by apply bool_decide_eq_true].
Qed.

Lemma push_relays_ok source record relays : ∀ selections,
  Forall (λ t, target_matches (ar_target (td_value record)) (td_value t)) relays →
  selections_ok source selections → len selections < candidate_limit →
  selections_ok source (push_relays source (reverse_source_name source) record relays selections).
Proof.
  induction relays as [|relay relays IH]; intros selections Hr Hok Hlt; cbn [push_relays]; [done|].
  apply Forall_cons in Hr as [Hm Hr].
  destruct (is_usable_relay_address (sock_ip (td_value relay))) eqn:Hu; cbn [negb]; [|by apply IH].
  destruct (existsb _ selections) eqn:Hx; [by apply IH|]. apply not_existsb_relay in Hx.
  set (new := mkSelection _ _ _ _ _). assert (selections_ok source (selections ++ [new])) as Hok'.
  { destruct Hok as [Hd He Hl]. split.
    - rewrite fmap_app. apply NoDup_app. split_and!; [done|set_solver|]. apply NoDup_singleton.
    - apply Forall_app. split; [done|]. constructor; [|constructor]. by split_and!.
    - len_lia. }
  destruct (Z.leb_spec candidate_limit (len (selections ++ [new]))); [done|]. by apply IH.
Qed.

Lemma budget_select_relays source records : ∀ selections,
  selections_ok source selections → len selections < candidate_limit →
  budget (len records * (16 * name_cost)) (select_relays source (reverse_source_name source) records selections)
    (selections_ok source).
Proof.
  pose proof name_cost_nonneg as Hc.
  induction records as [|record records IH]; intros selections Hok Hlt; cbn [select_relays]; [by apply budget_ret|].
  eapply budget_weaken; [apply (budget_catch (16 * name_cost) (len records * (16 * name_cost)) _ _ _ _ _
    (budget_relay_socket_addrs (ar_target (td_value record))))|len_lia].
  - intros relays Hr. pose proof (push_relays_ok source record relays selections Hr Hok Hlt) as Hok'.
    destruct (Z.leb_spec candidate_limit (len (push_relays source (reverse_source_name source) record relays selections))).
    + apply budget_ret; [len_lia|done].
    + by apply IH.
  - intros e. by apply IH.
Qed.

(** All the queries a resolution can need. *)
Definition resolution_cost : Z := 8 * name_cost * (1 + 2 * candidate_limit).

Definition candidates_ok (source : IpAddr) (l : list DriadRelaySelection) : Prop :=
  l ≠ [] ∧ selections_ok source l ∧ sorted_by precedence l ∧
  ∀ p, families_interleaved (filter (λ s, precedence s = p) l).

Lemma budget_order source selections :
  selections ≠ [] → selections_ok source selections →
  budget 0 (order_relay_candidates selections) (candidates_ok source).
Proof.
  intros Hne Hok s granted Hs.
  eapply mwp_mono; [apply (order_relay_candidates_wp (λ s', spends 0 granted s.2 s') _ (λ _ _, False)); [|by apply spends_0]|..]; [| |done].
  - intros n [l w] Hn (more & uses & Hlg & Hl). change (@fill_random St resolver_rng n (l, w)) with (let '(r, w') := fill_random n w in (r, (l, w'))).
    destruct (random_ok queries n w Hn) as [Hc _]. destruct (fill_random n w) as [r w'].
    apply (spends_trans 0 0 granted more uses s.2 (l, w)); [done..|]. by apply (spends_calm l w); [apply Hlg|].
  - intros l s' [Hs' (Hp & Hsort & Hf)]. split; [|done]. split_and!; [|by eapply selections_ok_perm|done..].
    intros ->. by apply Permutation_nil_l in Hp.
Qed.

Lemma budget_resolve source : budget resolution_cost (resolve_source_candidates source) (candidates_ok source).
Proof.
  pose proof name_cost_nonneg as Hc. unfold resolve_source_candidates, resolution_cost.
  assert (1 <= candidate_limit) as Hlim by (unfold candidate_limit; lia).
  eapply (budget_bind0 _ _ _ (λ _, True)); [lia|apply budget_pure; [done|]|intros _ _].
  { unfold validate_resolver. destruct (rc_resolvers config); [done|]. destruct (if rc_allow_insecure_dns config then _ else _); [done|].
    repeat case_match; done. }
  eapply budget_weaken; [apply (budget_bind (8 * name_cost) (candidate_limit * (16 * name_cost)) _ _ (λ _, True));
    [lia|apply (budget_follow_aliases 8)|]|lia].
  intros records _. destruct (existsb is_no_relay records); [apply budget_fail; lia|].
  set (chosen := take _ _). assert (len chosen <= candidate_limit) as Hlen by (subst chosen; len_lia).
  assert (selections_ok source []) as Hnil by (split; [constructor|constructor|len_lia]).
  assert (len (@nil DriadRelaySelection) < candidate_limit) as Hlt by len_lia.
  eapply budget_weaken; [apply (budget_bind _ 0 _ _ _ _ ltac:(lia) (budget_select_relays source chosen [] Hnil Hlt))|nia].
  intros selections Hok. destruct selections as [|s selections]; [by apply budget_fail|]. by apply budget_order.
Qed.
End validated.
End budgets.
End resolver.

(** * The properties *)

(** C35: discovery of the relays of a source, for any behaviour of the sockets, the
    clock, the random source and the clones that share the limiter (which have finitely many queries left to send):
    it ends without a panic. Every query it
    sends, over UDP or TCP, uses a grant of the limiter that it obtained before and uses for nothing else; it obtains at most
    [16 * attempts * resolvers * (1 + 2 * max_candidates)] grants, and the limiter never gives more than its [maximum] in
    a [window], to this resolver and its clones together. The candidates it returns are not empty, at most
    [max_candidates], have distinct usable addresses on the AMT port that their
    records name, and are in the order of precedence with the families in turn. *)
Theorem relay_discovery_correct {W} `{DnsWorld W} queries `{!DnsWorldOk queries} config source maximum window s granted :
  0 < maximum → 0 < window → 0 <= rc_timeout config → limiter_ok maximum window s.1 granted (clock s.2) →
  mwp (resolve_source_candidates config source)
    (λ candidates s', candidates_ok config source candidates ∧
       ∃ more uses, ledger queries maximum window granted s.2 more uses s' ∧ len uses <= resolution_cost config)
    (λ _ s', ∃ more uses, ledger queries maximum window granted s.2 more uses s' ∧ len uses <= resolution_cost config) s.
Proof. intros Hm Hw Ht Hs. by apply (budget_resolve config queries maximum window Hm Hw Ht source s granted). Qed.

(** ** A concrete world: a resolver that answers each query with one AMTRELAY record *)

(** The clones take one slot of the limiter each time they can, while they have queries left. *)
Record demo_world := mkDemoWorld { dm_clock : Z; dm_random : Z; dm_query : list Z; dm_sent : list Z; dm_rivals : nat }.

#[export] Instance demo_dns_world : DnsWorld demo_world := {|
  dw_rng := λ n w, (inr (replicate (Z.to_nat n) (as_u8 (dm_random w))), w);
  clock := dm_clock;
  shared_limiter := λ l w,
    match dm_rivals w with
    | O => (Some l, w)
    | S rivals =>
        (Some (reserve_at l (dm_clock w)).2, mkDemoWorld (dm_clock w) (dm_random w) (dm_query w) (dm_sent w) rivals)
    end;
  rivals := dm_rivals;
  sleep := λ d w, mkDemoWorld (dm_clock w + d) (dm_random w) (dm_query w) (dm_sent w) (dm_rivals w);
  udp_bind := λ _, mret tt;
  udp_set_read_timeout := λ _, mret tt;
  udp_set_write_timeout := λ _, mret tt;
  udp_connect := λ _, mret tt;
  udp_send := λ query w, (Ok tt, mkDemoWorld (dm_clock w) (dm_random w) query (dm_sent w ++ [dm_clock w]) (dm_rivals w));
  udp_recv := λ n w,
    (Ok (as_u8 <$> take (Z.to_nat n) (take 2 (dm_query w) ++ drop 2 (dns_header 0 0x8180 1 1 0 0) ++ drop 12 (dm_query w) ++ demo_answers)), w);
  tcp_connect_timeout := λ _ _, fail "refused";
  tcp_set_read_timeout := λ _, mret tt;
  tcp_set_write_timeout := λ _, mret tt;
  tcp_write_all := λ _, mret tt;
  tcp_read_exact := λ _, fail "closed"
|}.

Definition demo_config : DriadResolverConfig := new_resolver_config [SocketAddrV4 Ipv4_LOCALHOST 53].
(** The limiter is full, with the ten queries of its window, and the clones take a slot before the resolver does. *)
Definition demo_full : DnsQueryLimiter * list Z := run_queries (new_resolver_limiter demo_config) [] (replicate 10 0).
Definition demo_start : DnsQueryLimiter * demo_world := (demo_full.1, mkDemoWorld 0 7 [] [] 12).

Lemma as_u8_range x : u8 (as_u8 x).
Proof. unfold as_u8, u8. apply Z.mod_pos_bound. lia. Qed.
#[export] Instance demo_dns_world_ok : @DnsWorldOk demo_world demo_dns_world dm_sent.
Proof.
  split; try (intros; intros w; apply mwp_ret; split; done).
  - intros d w Hd. simpl. split_and!; [lia|done|lia].
  - intros l w. cbn. destruct (dm_rivals w) as [|n] eqn:Hr; (split; [done|]).
    + exists []. cbn. split_and!; [by repeat constructor|done|lia].
    + exists [dm_clock w]. cbn. split_and!; [by repeat constructor|by destruct (reserve_at l (dm_clock w)) as [[] ?]|].
      destruct (reserve_at l (dm_clock w)) as [[] ?]; cbn; lia.
  - intros n w Hn. change (@fill_random demo_world dw_rng n w) with
      (@inr string (list Z) (replicate (Z.to_nat n) (as_u8 (dm_random w))), w). simpl. split; [done|]. split.
    + apply Forall_replicate, as_u8_range.
    + len_lia.
  - intros bs w. exists (Some (dm_clock w)). cbn. split_and!; [lia|intros ? [= <-]; lia|done].
  - intros a d w. exists None. cbn. split_and!; [lia|done|by rewrite app_nil_r].
  - intros n w Hn. unfold mwp. cbn [udp_recv demo_dns_world fst snd wp]. split; [|done]. split.
    + apply Forall_fmap, Forall_true. intros x. apply as_u8_range.
    + len_lia.
  - intros n w Hn. unfold mwp. by simpl.
Qed.

Lemma demo_resolves :
  (resolve_source_candidates demo_config demo_source demo_start).1 =
  Ok [mkSelection demo_source demo_qn (mkAmtRelay 10 true (Ipv4Target (mkIpv4 192 0 2 1)))
        (SocketAddrV4 (mkIpv4 192 0 2 1) AMT_PORT) (from_secs 300)].
Proof. by vm_compute. Qed.

Lemma demo_start_ok : limiter_ok 10 (from_millis 100) demo_start.1 demo_full.2 (clock demo_start.2).
Proof.
  apply (run_queries_ok 10 (from_millis 100) _ _ [] 0); [done..|by apply new_query_limiter_ok|]. cbn. repeat constructor; lia.
Qed.

Lemma relay_discovery_correct_witness :
  ∃ candidates, (resolve_source_candidates demo_config demo_source demo_start).1 = Ok candidates ∧
    candidates_ok demo_config demo_source candidates ∧
    dm_sent (resolve_source_candidates demo_config demo_source demo_start).2.2 = [from_millis 100] ∧
    ∃ more uses, ledger dm_sent 10 (from_millis 100) demo_full.2 demo_start.2 more uses
      (resolve_source_candidates demo_config demo_source demo_start).2.
Proof.
  pose proof (relay_discovery_correct dm_sent demo_config demo_source 10 (from_millis 100) demo_start demo_full.2
    ltac:(lia) ltac:(by vm_compute) ltac:(by vm_compute) demo_start_ok) as H. unfold mwp in H.
  rewrite demo_resolves in H. destruct H as [H (more & uses & Hl & _)]. eexists. split; [exact demo_resolves|]. split; [done|].
  split; [by vm_compute|]. by exists more, uses.
Defined.

(** A timeout below a millisecond passes [validate], but a retry can then draw a
    timeout of zero, which [set_read_timeout] refuses. *)
Theorem retry_timeout_can_be_zero :
  let config := mkResolverConfig [SocketAddrV4 Ipv4_LOCALHOST 53] 500000 2 false 64 10 (from_millis 100) in
  validate_resolver config = Ok tt ∧
  (retry_timeout config 1 (new_resolver_limiter config, mkDemoWorld 0 0 [] [] 0)).1 = Ok 0.
Proof. split; by vm_compute. Qed.
