(* ===== verification/Forward.v ===== *)
(** What the relay forwards, the second half of [src/upstream.rs]: the addresses of a
    captured datagram, and its normalization, which trims the datagram to the length its header
    gives and repairs the checksums that capture may leave unfilled. *)

From S2P Require Import Prelude Net Checksum Protocol Ip.

(** A datagram of the capture library, with the addresses it found, if any. *)
Record RawPacket := mkRawPacket {
  rp_source_ip : option IpAddr;
  rp_group : option IpAddr;
  rp_ip_protocol : option Z;
  rp_datagram : list Z
}.
Record UpstreamDatagram := mkUpstreamDatagram {
  ud_source : IpAddr;
  ud_group : IpAddr;
  ud_packet : RawPacket
}.

Section forward.
Context {E : Type}.

(** * Addresses *)

Definition valid_multicast_addresses (source group : IpAddr) : bool :=
  let valid_source :=
    match source with
    | V4 source => negb (v4_is_unspecified source) && negb (v4_is_multicast source) && negb (v4_is_broadcast source)
    | V6 source => negb (v6_is_unspecified source) && negb (v6_is_multicast source)
    end in
  valid_source && ip_is_multicast group.

Definition parse_ipv4_datagram_addresses (datagram : list Z) : res E (option (IpAddr * IpAddr)) :=
  if len datagram <? 20 then Ok None
  else
    d0 ← idx datagram 0;
    let ihl := Z.land d0 0x0f * 4 in
    if (ihl <? 20) || (len datagram <? ihl) then Ok None
    else
      total_len ← be16_at datagram 2;
      if (total_len <? ihl) || (len datagram <? total_len) then Ok None
      else
        source ← ipv4_at datagram 12;
        group ← ipv4_at datagram 16;
        Ok (Some (V4 source, V4 group)).

Definition parse_ipv6_datagram_addresses (datagram : list Z) : res E (option (IpAddr * IpAddr)) :=
  if len datagram <? 40 then Ok None
  else
    payload_len ← be16_at datagram 4;
    if len datagram <? 40 + payload_len then Ok None
    else
      source ← slice datagram 8 24;
      group ← slice datagram 24 40;
      Ok (Some (V6 (mkIpv6 source), V6 (mkIpv6 group))).

Definition parse_datagram_addresses (datagram : list Z) : res E (option (IpAddr * IpAddr)) :=
  match datagram with
  | [] => Ok None
  | d0 :: _ =>
      let version := Z.shiftr d0 4 in
      if version =? 4 then parse_ipv4_datagram_addresses datagram
      else if version =? 6 then parse_ipv6_datagram_addresses datagram
      else Ok None
  end.

Definition packet_addresses (packet : RawPacket) : res E (option (IpAddr * IpAddr)) :=
  addresses ←
    match rp_source_ip packet, rp_group packet with
    | Some source, Some group => Ok (Some (source, group))
    | _, _ => parse_datagram_addresses (rp_datagram packet)
    end;
  Ok (match addresses with
      | Some (source, group) => if valid_multicast_addresses source group then Some (source, group) else None
      | None => None
      end).

(** * Checksums *)

Definition udp_checksum_parts (parts : list (list Z)) : Z :=
  let checksum := checksum_parts parts in if checksum =? 0 then 0xffff else checksum.

Definition repair_udp_checksum_v4 (datagram : list Z) (udp_offset : Z) : res E (list Z) :=
  if len datagram <? udp_offset + 8 then Ok datagram
  else
    udp_len ← be16_at datagram (udp_offset + 4);
    if (udp_len <? 8) || (len datagram <? udp_offset + udp_len) then Ok datagram
    else
      datagram ← set_idx datagram (udp_offset + 6) 0;
      datagram ← set_idx datagram (udp_offset + 7) 0;
      source ← slice datagram 12 16;
      group ← slice datagram 16 20;
      segment ← slice datagram udp_offset (udp_offset + udp_len);
      let checksum := udp_checksum_parts [source; group; [0; 17]; u16_to_be (as_u16 udp_len); segment] in
      copy_at datagram (udp_offset + 6) (udp_offset + 8) (u16_to_be checksum).

Definition repair_udp_checksum_v6 (datagram : list Z) (udp_offset : Z) : res E (list Z) :=
  if len datagram <? udp_offset + 8 then Ok datagram
  else
    udp_len ← be16_at datagram (udp_offset + 4);
    if (udp_len <? 8) || (len datagram <? udp_offset + udp_len) then Ok datagram
    else
      datagram ← set_idx datagram (udp_offset + 6) 0;
      datagram ← set_idx datagram (udp_offset + 7) 0;
      source ← slice datagram 8 24;
      group ← slice datagram 24 40;
      segment ← slice datagram udp_offset (udp_offset + udp_len);
      let checksum := udp_checksum_parts [source; group; u32_to_be udp_len; [0; 0; 0; 17]; segment] in
      copy_at datagram (udp_offset + 6) (udp_offset + 8) (u16_to_be checksum).

(** * Normalization *)

Definition normalize_ipv4_forwarded_datagram (datagram : list Z) : res E (list Z) :=
  if len datagram <? 20 then Ok datagram
  else
    d0 ← idx datagram 0;
    let ihl := Z.land d0 0x0f * 4 in
    if (ihl <? 20) || (len datagram <? ihl) then Ok datagram
    else
      total_len ← be16_at datagram 2;
      if (total_len <? ihl) || (len datagram <? total_len) then Ok datagram
      else
        normalized ← slice_to datagram total_len;
        normalized ← set_idx normalized 10 0;
        normalized ← set_idx normalized 11 0;
        header ← slice_to normalized ihl;
        normalized ← copy_at normalized 10 12 (u16_to_be (checksum header));
        fragment ← be16_at normalized 6;
        protocol ← idx normalized 9;
        if (protocol =? 17) && (Z.land fragment 0x3fff =? 0)
        then repair_udp_checksum_v4 normalized ihl
        else Ok normalized.

Definition normalize_ipv6_forwarded_datagram (datagram : list Z) : res E (list Z) :=
  if len datagram <? 40 then Ok datagram
  else
    payload_len ← be16_at datagram 4;
    let total_len := 40 + payload_len in
    if len datagram <? total_len then Ok datagram
    else
      normalized ← slice_to datagram total_len;
      next_header ← idx normalized 6;
      if next_header =? 17 then repair_udp_checksum_v6 normalized 40 else Ok normalized.

Definition normalize_forwarded_datagram (datagram : list Z) : res E (list Z) :=
  match datagram with
  | [] => Ok datagram
  | d0 :: _ =>
      let version := Z.shiftr d0 4 in
      if version =? 4 then normalize_ipv4_forwarded_datagram datagram
      else if version =? 6 then normalize_ipv6_forwarded_datagram datagram
      else Ok datagram
  end.

(** [let packet = &mut datagram[2..]]: an update of the packet after the AMT header. *)
Definition normalize_embedded_multicast_data (datagram : list Z) : res E (list Z) :=
  if len datagram <? 3 then Ok datagram
  else
    d2 ← idx datagram 2;
    let version := Z.shiftr d2 4 in
    if (version =? 4) && (22 <=? len datagram) then
      let ihl := Z.land d2 0x0f * 4 in
      total_len ← be16_at datagram 4;
      if (ihl <? 20) || (total_len <? ihl) || (len datagram <? 2 + total_len) then Ok datagram
      else
        with_tail (take (Z.to_nat (2 + total_len)) datagram) 2 (λ packet,
          packet ← copy_at packet 10 12 [0; 0];
          header ← slice_to packet ihl;
          packet ← copy_at packet 10 12 (u16_to_be (checksum header));
          fragment ← be16_at packet 6;
          protocol ← idx packet 9;
          if (protocol =? 17) && (Z.land fragment 0x3fff =? 0)
          then repair_udp_checksum_v4 packet ihl
          else Ok packet)
    else if (version =? 6) && (42 <=? len datagram) then
      payload_len ← be16_at datagram 6;
      let total_len := 40 + payload_len in
      if len datagram <? 2 + total_len then Ok datagram
      else
        with_tail (take (Z.to_nat (2 + total_len)) datagram) 2 (λ packet,
          next_header ← idx packet 6;
          if next_header =? 17 then repair_udp_checksum_v6 packet 40 else Ok packet)
    else Ok datagram.

Definition normalized_datagram (d : UpstreamDatagram) : res E (list Z) :=
  normalize_forwarded_datagram (rp_datagram (ud_packet d)).
Definition normalized_amt_datagram (d : UpstreamDatagram) : res E (list Z) :=
  normalize_embedded_multicast_data (encode_into (MulticastData (rp_datagram (ud_packet d))) []).

End forward.

(** * The embedded normalization is the plain one *)

Section embedded.
Context {E : Type}.
Implicit Types d : list Z.

Lemma idx_cons2 (a b : Z) d i : 0 <= i → idx (E:=E) (a :: b :: d) (i + 2) = idx d i.
Proof.
  intros Hi. unfold idx. rewrite !(proj2 (Z.ltb_ge _ _)) by lia.
  by replace (Z.to_nat (i + 2)) with (S (S (Z.to_nat i))) by lia.
Qed.
Lemma be16_cons2 (a b : Z) d i : 0 <= i → be16_at (E:=E) (a :: b :: d) (i + 2) = be16_at d i.
Proof.
  intros Hi. unfold be16_at. rewrite idx_cons2 by done. replace (i + 2 + 1) with (i + 1 + 2) by lia.
  by rewrite idx_cons2 by lia.
Qed.
Lemma with_tail_cons2 (a b : Z) d n (f : list Z → res E (list Z)) :
  0 <= n → with_tail (take (Z.to_nat (2 + n)) (a :: b :: d)) 2 f = (r ← f (take (Z.to_nat n) d); Ok (a :: b :: r)).
Proof. intros Hn. by replace (Z.to_nat (2 + n)) with (S (S (Z.to_nat n))) by lia. Qed.

Lemma zero_two d i :
  0 <= i → i + 2 <= len d →
  ∃ d' d'', set_idx (E:=E) d i 0 = Ok d' ∧ set_idx (E:=E) d' (i + 1) 0 = Ok d'' ∧
    copy_at (E:=E) d i (i + 2) [0; 0] = Ok d''.
Proof.
  intros Hi Hl. assert (∃ pre x y post, d = pre ++ x :: y :: post ∧ len pre = i) as (pre & x & y & post & -> & Hp).
  { exists (take (Z.to_nat i) d). destruct (drop (Z.to_nat i) d) as [|x [|y post]] eqn:Hd.
    1-2: apply (f_equal len) in Hd; exfalso; len_lia.
    exists x, y, post. split; [by rewrite <- Hd, take_drop|len_lia]. }
  exists (pre ++ 0 :: y :: post), (pre ++ 0 :: 0 :: post). split_and!.
  - by apply set_idx_app.
  - change (pre ++ 0 :: y :: post) with (pre ++ [0] ++ y :: post). rewrite (assoc_L (++)).
    rewrite set_idx_app by len_lia. by rewrite <- (assoc_L (++)).
  - by apply (copy_at_app pre [x; y] [0; 0] post); [|len_lia|].
Qed.

Lemma be16_at_ok d i :
  bytes d → 0 <= i → i + 2 <= len d →
  ∃ v, be16_at (E:=E) d i = Ok v ∧ u16 v ∧ v = u16_from_be (byte_at d (Z.to_nat i)) (byte_at d (Z.to_nat (i + 1))).
Proof.
  intros Hb Hi Hl. pose proof (wp_be16_at (E:=E) d i (λ v, be16_at (E:=E) d i = Ok v ∧ u16 v) (λ _, False) Hi Hl) as H.
  destruct (be16_at (E:=E) d i) as [v|e| |] eqn:Hv; cbn [wp] in H; [|by exfalso; apply H; auto..].
  exists v. split_and!; [done|apply H; by auto|]. by apply be16_at_bytes in Hv.
Qed.
End embedded.

Lemma normalize_embedded_eq {E} (h0 h1 : Z) d :
  bytes d →
  normalize_embedded_multicast_data (E:=E) (h0 :: h1 :: d) =
  (r ← normalize_forwarded_datagram d; Ok (h0 :: h1 :: r)).
Proof.
  intros Hb. unfold normalize_embedded_multicast_data, normalize_forwarded_datagram. destruct d as [|d0 d]; [done|].
  set (p := d0 :: d) in *. rewrite (proj2 (Z.ltb_ge _ _)) by (subst p; len_lia).
  change (idx (E:=E) (h0 :: h1 :: p) 2) with (Ok (E:=E) d0). cbn [mbind res_bind].
  assert (len (h0 :: h1 :: p) = len p + 2) as Hlen by len_lia. rewrite Hlen.
  destruct (Z.eqb_spec (Z.shiftr d0 4) 4) as [Hv|Hv]; [|destruct (Z.eqb_spec (Z.shiftr d0 4) 6) as [Hv'|Hv']].
  - rewrite Hv. cbn [Z.eqb Pos.eqb andb]. unfold normalize_ipv4_forwarded_datagram.
    destruct (Z.ltb_spec (len p) 20) as [Hs|Hs]; [by rewrite (proj2 (Z.leb_gt _ _)) by lia|].
    rewrite (proj2 (Z.leb_le _ _)) by lia.
    replace (be16_at (E:=E) (h0 :: h1 :: p) 4) with (be16_at (E:=E) p 2) by (symmetry; apply (be16_cons2 h0 h1 p 2); lia).
    change (idx (E:=E) p 0) with (Ok (E:=E) d0). cbn [mbind res_bind]. set (ihl := Z.land d0 15 * 4).
    destruct (be16_at_ok (E:=E) p 2 Hb) as (total & -> & Htot & _); [lia..|]. cbn [mbind res_bind].
    destruct (Z.ltb_spec ihl 20) as [Hi|Hi]; cbn [orb]; [done|].
    destruct (Z.ltb_spec total ihl) as [Ht|Ht]; cbn [orb]; [by destruct (len p <? ihl)|].
    destruct (Z.ltb_spec (len p) total) as [Hp|Hp].
    + rewrite (proj2 (Z.ltb_lt _ _)) by lia. by destruct (len p <? ihl).
    + rewrite (proj2 (Z.ltb_ge (len p + 2) _)), (proj2 (Z.ltb_ge (len p) _)) by lia.
      rewrite with_tail_cons2 by lia. rewrite slice_to_ok by lia. cbn [mbind res_bind].
      assert (len (take (Z.to_nat total) p) = total) as Hlt by len_lia.
      destruct (zero_two (E:=E) (take (Z.to_nat total) p) 10) as (z & z' & Hz & Hz' & Hc); [lia..|].
      change (10 + 1) with 11 in Hz'. change (10 + 2) with 12 in Hc. rewrite Hz, Hc. cbn [mbind res_bind]. by rewrite Hz'.
  - cbn [andb]. unfold normalize_ipv6_forwarded_datagram.
    destruct (Z.ltb_spec (len p) 40) as [Hs|Hs]; [by rewrite (proj2 (Z.leb_gt _ _)) by lia|].
    rewrite (proj2 (Z.leb_le _ _)) by lia.
    replace (be16_at (E:=E) (h0 :: h1 :: p) 6) with (be16_at (E:=E) p 4) by (symmetry; apply (be16_cons2 h0 h1 p 4); lia).
    destruct (be16_at_ok (E:=E) p 4 Hb) as (payload & -> & Hpay & _); [lia..|]. cbn [mbind res_bind]. unfold u16 in Hpay.
    destruct (Z.ltb_spec (len p) (40 + payload)) as [Hp|Hp].
    + by rewrite (proj2 (Z.ltb_lt _ _)) by lia.
    + rewrite (proj2 (Z.ltb_ge _ _)) by lia. rewrite with_tail_cons2 by lia. by rewrite slice_to_ok by lia.
  - done.
Qed.

(** * The repaired checksums verify *)

Lemma udp_checksum_verifies pseudo uh body parts :
  bytes pseudo → bytes uh → bytes body → Z.even (len (pseudo ++ uh)) = true →
  concat parts = pseudo ++ uh ++ [0; 0] ++ body →
  0 < udp_checksum_parts parts <= 65535 ∧
  ones_complement_sum (pseudo ++ uh ++ u16_to_be (udp_checksum_parts parts) ++ body) = 65535.
Proof.
  intros Hp Hu Hb He Hc. unfold udp_checksum_parts. rewrite checksum_parts_concat, Hc.
  assert (bytes (pseudo ++ uh)) as Ha by (by apply bytes_app).
  assert (bytes (pseudo ++ uh ++ [0; 0] ++ body)) as Hz.
  { rewrite (assoc_L (++)). apply bytes_app. split; [done|]. apply bytes_app. split; [apply (bytes_zeros 2)|done]. }
  pose proof (checksum_u16 _ Hz) as Hu16. pose proof (checksum_verifies (pseudo ++ uh) body Ha Hb He) as Hv.
  rewrite <- !(assoc_L (++)) in Hv.
  destruct (Z.eqb_spec (checksum (pseudo ++ uh ++ [0; 0] ++ body)) 0) as [H0|H0]; [|unfold u16 in Hu16; split; [lia|done]].
  split; [lia|]. rewrite checksum_norm in H0 by done. rewrite (assoc_L (++)) in H0 |- *.
  rewrite ones_complement_sum_norm by (apply bytes_app; split; [done|]; apply bytes_app; split; [|done]; decide_ok).
  rewrite word_sum_app, (word_sum_app [0; 0] body) in H0 by done.
  rewrite word_sum_app, (word_sum_app (u16_to_be 65535) body), word_sum_u16_to_be by (done || decide_ok).
  change (word_sum [0; 0]) with 0 in H0.
  replace (word_sum (pseudo ++ uh) + (65535 + word_sum body)) with (word_sum (pseudo ++ uh) + (0 + word_sum body) + 65535) by lia.
  pose proof (word_sum_nonneg _ Ha) as Hta. pose proof (word_sum_nonneg _ Hb) as Htb.
  assert (0 <= word_sum (pseudo ++ uh) + (0 + word_sum body)) as Ht by lia.
  generalize dependent (word_sum (pseudo ++ uh) + (0 + word_sum body)). intros t H0 Ht.
  unfold ones_norm in *. destruct (Z.eqb_spec t 0) as [Hn|Hn]; [lia|]. destruct (Z.eqb_spec (t + 65535) 0); [lia|].
  replace (t + 65535 - 1) with (t - 1 + 1 * 65535) by lia. rewrite Z.mod_add by lia. lia.
Qed.

(** The UDP length at [off], and whether that much is there. *)
Definition udp_len_at (d : list Z) (off : Z) : Z :=
  u16_from_be (byte_at d (Z.to_nat (off + 4))) (byte_at d (Z.to_nat (off + 5))).
Definition udp_fits (d : list Z) (off : Z) : bool :=
  (off + 8 <=? len d) && (8 <=? udp_len_at d off) && (off + udp_len_at d off <=? len d).

Lemma udp_split (d : list Z) off n :
  0 <= off → 8 <= n → off + n <= len d →
  ∃ pre uh c0 c1 body tail, d = pre ++ uh ++ c0 :: c1 :: body ++ tail ∧
    len pre = off ∧ len uh = 6 ∧ len body = n - 8.
Proof.
  intros Ho Hn Hl. destruct (drop 6 (drop (Z.to_nat off) d)) as [|c0 [|c1 after]] eqn:Haf;
    pose proof (f_equal len Haf) as Hla; [exfalso; len_lia..|].
  exists (take (Z.to_nat off) d), (take 6 (drop (Z.to_nat off) d)), c0, c1, (take (Z.to_nat (n - 8)) after), (drop (Z.to_nat (n - 8)) after).
  split_and!; [|len_lia..]. by rewrite take_drop, <- Haf, take_drop, take_drop.
Qed.

Lemma sub_prefix {A} (pre rest : list A) a b : 0 <= a <= b → b <= len pre → sub (pre ++ rest) a b = sub pre a b.
Proof. intros. unfold sub. rewrite take_app_le; [done|]. unfold len in *. lia. Qed.

Definition pseudo_v4 (d : list Z) (n : Z) : list Z := sub d 12 16 ++ sub d 16 20 ++ [0; 17] ++ u16_to_be n.
Definition pseudo_v6 (d : list Z) (n : Z) : list Z := sub d 8 24 ++ sub d 24 40 ++ u32_to_be n ++ [0; 0; 0; 17].

(** [r] is [d] with the checksum of the UDP segment at [off] filled in. *)
Definition udp_repaired (pseudo d r : list Z) (off : Z) : Prop :=
  ∃ pre uh c0 c1 body tail ck, d = pre ++ uh ++ c0 :: c1 :: body ++ tail ∧ len pre = off ∧ len uh = 6 ∧
    len body = udp_len_at d off - 8 ∧ r = pre ++ uh ++ u16_to_be ck ++ body ++ tail ∧ 0 < ck <= 65535 ∧
    ones_complement_sum (pseudo ++ uh ++ u16_to_be ck ++ body) = 65535.

(** Zeroing the field and filling it in again. *)
Lemma fill_field {E} pre uh c0 c1 body tail ck off :
  len pre = off → len uh = 6 →
  let z := pre ++ uh ++ [0; 0] ++ body ++ tail in
  set_idx (E:=E) (pre ++ uh ++ c0 :: c1 :: body ++ tail) (off + 6) 0 = Ok (pre ++ uh ++ 0 :: c1 :: body ++ tail) ∧
  set_idx (E:=E) (pre ++ uh ++ 0 :: c1 :: body ++ tail) (off + 7) 0 = Ok z ∧
  slice (E:=E) z off (off + (8 + len body)) = Ok (uh ++ [0; 0] ++ body) ∧
  copy_at (E:=E) z (off + 6) (off + 8) (u16_to_be ck) = Ok (pre ++ uh ++ u16_to_be ck ++ body ++ tail).
Proof.
  intros Hp Hu z. split_and!.
  - rewrite !(assoc_L (++) pre uh). by rewrite set_idx_app by len_lia.
  - rewrite (assoc_L (++) pre uh). change (0 :: c1 :: body ++ tail) with ([0] ++ c1 :: body ++ tail). rewrite (assoc_L (++)).
    rewrite set_idx_app by len_lia. subst z. by rewrite <- !(assoc_L (++)).
  - subst z. replace (pre ++ uh ++ [0; 0] ++ body ++ tail) with (pre ++ (uh ++ [0; 0] ++ body) ++ tail) by (by rewrite <- !(assoc_L (++))).
    apply slice_app; len_lia.
  - subst z. rewrite !(assoc_L (++) pre uh). rewrite (copy_at_app (pre ++ uh) [0; 0] (u16_to_be ck) (body ++ tail)) by len_lia. done.
Qed.

Lemma udp_len_u16 d off : bytes d → u16 (udp_len_at d off).
Proof.
  intros Hb. assert (∀ i, u8 (byte_at d i)) as Hi.
  { intros i. unfold byte_at. destruct (d !! i) as [x|] eqn:Hx; [by eapply bytes_lookup|]. unfold u8; simpl; lia. }
  by apply u16_from_be_range.
Qed.

(** The guards of the two repairs: what is left alone, and what is taken apart. *)
Lemma udp_guards {E} d off (A : Type) (keep : res E A) (f : Z → res E A) :
  bytes d → 0 <= off →
  (if len d <? off + 8 then keep
   else udp_len ← be16_at d (off + 4);
        if (udp_len <? 8) || (len d <? off + udp_len) then keep else f udp_len) =
  if udp_fits d off then f (udp_len_at d off) else keep.
Proof.
  intros Hb Ho. unfold udp_fits. rewrite (Z.leb_antisym (len d) (off + 8)). destruct (Z.ltb_spec (len d) (off + 8)); cbn [negb andb]; [done|].
  destruct (be16_at_ok (E:=E) d (off + 4) Hb) as (n & -> & _ & Hn); [lia..|]. cbn [mbind res_bind].
  assert (n = udp_len_at d off) as -> by (rewrite Hn; unfold udp_len_at; by replace (off + 4 + 1) with (off + 5) by lia).
  rewrite (Z.leb_antisym (udp_len_at d off) 8), (Z.leb_antisym (len d) (off + _)). by destruct (_ <? 8), (_ <? _).
Qed.

Lemma repair_v4_ok {E} d off :
  bytes d → 20 <= off →
  ∃ r, repair_udp_checksum_v4 (E:=E) d off = Ok r ∧
    if udp_fits d off then udp_repaired (pseudo_v4 d (udp_len_at d off)) d r off else r = d.
Proof.
  intros Hb Ho. unfold repair_udp_checksum_v4. rewrite udp_guards by (done || lia).
  destruct (udp_fits d off) eqn:Hf; [|by exists d]. apply andb_true_iff in Hf as [[_ H8]%andb_true_iff Hl].
  apply Z.leb_le in H8, Hl. pose proof (udp_len_u16 d off Hb) as Hu. unfold udp_repaired.
  set (n := udp_len_at d off) in *. clearbody n.
  destruct (udp_split d off n) as (pre & uh & c0 & c1 & body & tail & -> & Hp & Hh & Hbd); [lia..|].
  apply bytes_app in Hb as [Hpre Hb]. apply bytes_app in Hb as [Huh Hb].
  apply bytes_cons in Hb as [_ Hb]. apply bytes_cons in Hb as [_ Hb]. apply bytes_app in Hb as [Hbody _].
  set (parts := [sub pre 12 16; sub pre 16 20; [0; 17]; u16_to_be n; uh ++ [0; 0] ++ body]).
  destruct (fill_field (E:=E) pre uh c0 c1 body tail (udp_checksum_parts parts) off Hp Hh) as (Hz0 & Hz & Hseg & Hfill).
  rewrite Hz0. cbn [mbind res_bind]. rewrite Hz. cbn [mbind res_bind].
  rewrite (slice_ok _ 12 16), (slice_ok _ 16 20) by len_lia. rewrite !(sub_prefix pre) by lia. cbn [mbind res_bind].
  replace (off + (8 + len body)) with (off + n) in Hseg by lia. rewrite Hseg. cbn [mbind res_bind].
  unfold as_u16. rewrite (Z.mod_small n) by (unfold u16 in Hu; lia). fold parts. rewrite Hfill. eexists. split; [done|].
  destruct (udp_checksum_verifies (pseudo_v4 pre n) uh body parts) as [Hck Hsum].
  - unfold pseudo_v4. bytes_solve; auto.
  - done.
  - done.
  - unfold pseudo_v4. rewrite !len_app, !len_sub by lia. rewrite Hh. done.
  - subst parts. cbn [concat]. rewrite app_nil_r. unfold pseudo_v4. by rewrite <- !(assoc_L (++)).
  - exists pre, uh, c0, c1, body, tail, (udp_checksum_parts parts). split_and!; try done; [lia..|].
    unfold pseudo_v4 in *. by rewrite !(sub_prefix pre) by lia.
Qed.

Lemma repair_v6_ok {E} d off :
  bytes d → 40 <= off →
  ∃ r, repair_udp_checksum_v6 (E:=E) d off = Ok r ∧
    if udp_fits d off then udp_repaired (pseudo_v6 d (udp_len_at d off)) d r off else r = d.
Proof.
  intros Hb Ho. unfold repair_udp_checksum_v6. rewrite udp_guards by (done || lia).
  destruct (udp_fits d off) eqn:Hf; [|by exists d]. apply andb_true_iff in Hf as [[_ H8]%andb_true_iff Hl].
  apply Z.leb_le in H8, Hl. pose proof (udp_len_u16 d off Hb) as Hu. unfold udp_repaired.
  set (n := udp_len_at d off) in *. clearbody n.
  destruct (udp_split d off n) as (pre & uh & c0 & c1 & body & tail & -> & Hp & Hh & Hbd); [lia..|].
  apply bytes_app in Hb as [Hpre Hb]. apply bytes_app in Hb as [Huh Hb].
  apply bytes_cons in Hb as [_ Hb]. apply bytes_cons in Hb as [_ Hb]. apply bytes_app in Hb as [Hbody _].
  set (parts := [sub pre 8 24; sub pre 24 40; u32_to_be n; [0; 0; 0; 17]; uh ++ [0; 0] ++ body]).
  destruct (fill_field (E:=E) pre uh c0 c1 body tail (udp_checksum_parts parts) off Hp Hh) as (Hz0 & Hz & Hseg & Hfill).
  rewrite Hz0. cbn [mbind res_bind]. rewrite Hz. cbn [mbind res_bind].
  rewrite (slice_ok _ 8 24), (slice_ok _ 24 40) by len_lia. rewrite !(sub_prefix pre) by lia. cbn [mbind res_bind].
  replace (off + (8 + len body)) with (off + n) in Hseg by lia. rewrite Hseg. cbn [mbind res_bind].
  fold parts. rewrite Hfill. eexists. split; [done|].
  destruct (udp_checksum_verifies (pseudo_v6 pre n) uh body parts) as [Hck Hsum].
  - unfold pseudo_v6. bytes_solve; auto. apply bytes_u32_to_be. unfold u16, u32 in *. lia.
  - done.
  - done.
  - unfold pseudo_v6. rewrite !len_app, !len_sub by lia. rewrite Hh. done.
  - subst parts. cbn [concat]. rewrite app_nil_r. unfold pseudo_v6. by rewrite <- !(assoc_L (++)).
  - exists pre, uh, c0, c1, body, tail, (udp_checksum_parts parts). split_and!; try done; [lia..|].
    unfold pseudo_v6 in *. by rewrite !(sub_prefix pre) by lia.
Qed.

(** * What a normalized datagram is *)

Definition ip_version (d : list Z) : Z := Z.shiftr (byte_at d 0) 4.
Definition header_len (d : list Z) : Z := if ip_version d =? 4 then Z.land (byte_at d 0) 0x0f * 4 else 40.
(** The length that the header gives. *)
Definition stated_len (d : list Z) : Z :=
  if ip_version d =? 4 then u16_from_be (byte_at d 2) (byte_at d 3) else 40 + u16_from_be (byte_at d 4) (byte_at d 5).
Definition complete (d : list Z) : bool :=
  if ip_version d =? 4 then (20 <=? header_len d) && (header_len d <=? stated_len d) && (20 <=? len d) && (stated_len d <=? len d)
  else (ip_version d =? 6) && (40 <=? len d) && (stated_len d <=? len d).
(** Carries UDP, and is not a fragment. *)
Definition carries_udp (d : list Z) : bool :=
  if ip_version d =? 4
  then (byte_at d 9 =? 17) && (Z.land (u16_from_be (byte_at d 6) (byte_at d 7)) 0x3fff =? 0)
  else byte_at d 6 =? 17.
Definition pseudo_header (d : list Z) (n : Z) : list Z := if ip_version d =? 4 then pseudo_v4 d n else pseudo_v6 d n.

(** [r] is [d] trimmed to its length, with the checksums right and the rest as it was. *)
Definition normalized (d r : list Z) : Prop :=
  let off := header_len d in
  let udp := carries_udp d && udp_fits (take (Z.to_nat (stated_len d)) d) off in
  len r = stated_len d ∧ bytes r ∧
  (ip_version d = 4 → ones_complement_sum (take (Z.to_nat off) r) = 65535) ∧
  (udp = true →
     sub r (off + 6) (off + 8) ≠ [0; 0] ∧
     ones_complement_sum (pseudo_header d (udp_len_at d off) ++ sub r off (off + udp_len_at d off)) = 65535) ∧
  ∀ i, (i < Z.to_nat (stated_len d))%nat →
    ¬ (ip_version d = 4 ∧ 10 <= Z.of_nat i < 12) → ¬ (udp = true ∧ off + 6 <= Z.of_nat i < off + 8) →
    r !! i = d !! i.

Lemma udp_repaired_segment pseudo d r off :
  bytes d → udp_repaired pseudo d r off → 0 <= off →
  len r = len d ∧ bytes r ∧ sub r (off + 6) (off + 8) ≠ [0; 0] ∧
  ones_complement_sum (pseudo ++ sub r off (off + udp_len_at d off)) = 65535 ∧
  ∀ i : nat, ¬ (off + 6 <= Z.of_nat i < off + 8) → r !! i = d !! i.
Proof.
  intros Hb (pre & uh & c0 & c1 & body & tail & ck & Hd & Hp & Hu & Hbd & Hr & Hck & Hsum) Ho.
  assert (u16 ck) as Huck by (unfold u16; lia). split_and!.
  - subst d r. len_lia.
  - subst d r. apply bytes_app in Hb as [? Hb]. apply bytes_app in Hb as [? Hb].
    apply bytes_cons in Hb as [_ Hb]. apply bytes_cons in Hb as [_ Hb]. apply bytes_app in Hb as [? ?].
    bytes_solve; auto.
  - assert (sub r (off + 6) (off + 8) = u16_to_be ck) as ->.
    { pose proof (slice_app (E:=unit) (pre ++ uh) (u16_to_be ck) (body ++ tail) (off + 6) (off + 8) ltac:(len_lia) ltac:(len_lia)) as Hs.
      rewrite <- (assoc_L (++)), <- Hr in Hs. rewrite slice_ok in Hs by (try rewrite Hr; len_lia). by injection Hs. }
    intros He. apply (u16_to_be_inj ck 0) in He; [lia|done|by unfold u16].
  - assert (sub r off (off + udp_len_at d off) = uh ++ u16_to_be ck ++ body) as ->; [|done].
    assert (r = pre ++ (uh ++ u16_to_be ck ++ body) ++ tail) as Hr' by (rewrite Hr; by rewrite <- !(assoc_L (++))).
    pose proof (slice_app (E:=unit) pre (uh ++ u16_to_be ck ++ body) tail off (off + udp_len_at d off) ltac:(lia) ltac:(len_lia)) as Hs.
    rewrite <- Hr' in Hs. rewrite slice_ok in Hs by (try rewrite Hr'; len_lia). by injection Hs.
  - intros i Hi. rewrite Hr. clear Hsum Hbd. rewrite Hd. rewrite !(assoc_L (++) pre uh).
    assert (length (pre ++ uh) = Z.to_nat (off + 6)) as Hl by (unfold len in *; rewrite length_app; lia).
    destruct (Nat.lt_ge_cases i (Z.to_nat (off + 6))).
    + by rewrite !(lookup_app_l (pre ++ uh)) by lia.
    + rewrite !(lookup_app_r (pre ++ uh)) by lia. rewrite Hl.
      destruct (i - Z.to_nat (off + 6))%nat as [|[|j]] eqn:Hj; [lia|lia|done].
Qed.

Lemma fix_header_ok {E} p ihl :
  bytes p → 20 <= ihl <= len p →
  ∃ z z' hdr q, set_idx (E:=E) p 10 0 = Ok z ∧ set_idx (E:=E) z 11 0 = Ok z' ∧ slice_to (E:=E) z' ihl = Ok hdr ∧
    copy_at (E:=E) z' 10 12 (u16_to_be (checksum hdr)) = Ok q ∧ len q = len p ∧ bytes q ∧
    ones_complement_sum (take (Z.to_nat ihl) q) = 65535 ∧ ∀ i : nat, ¬ (10 <= Z.of_nat i < 12) → q !! i = p !! i.
Proof.
  intros Hb Hi. assert (∃ a x y h rest, p = a ++ x :: y :: h ++ rest ∧ len a = 10 ∧ len h = ihl - 12)
    as (a & x & y & h & rest & -> & Ha & Hh).
  { destruct (drop 10 p) as [|x [|y t]] eqn:Hd; pose proof (f_equal len Hd) as Hl; [exfalso; len_lia..|].
    exists (take 10 p), x, y, (take (Z.to_nat (ihl - 12)) t), (drop (Z.to_nat (ihl - 12)) t).
    split_and!; [by rewrite take_drop, <- Hd, take_drop|len_lia..]. }
  apply bytes_app in Hb as [Hba Hb]. apply bytes_cons in Hb as [_ Hb]. apply bytes_cons in Hb as [_ Hb].
  apply bytes_app in Hb as [Hbh Hbr]. set (hdr := a ++ [0; 0] ++ h).
  assert (bytes hdr) as Hbz by (unfold hdr; bytes_solve; auto; apply (bytes_zeros 2)).
  pose proof (checksum_u16 hdr Hbz) as Hck. set (ck := checksum hdr) in *.
  exists (a ++ 0 :: y :: h ++ rest), (a ++ [0; 0] ++ h ++ rest), hdr, (a ++ u16_to_be ck ++ h ++ rest).
  assert (∀ v, len v = 2 → a ++ v ++ h ++ rest = (a ++ v ++ h) ++ rest) as Hassoc by (intros; by rewrite <- !(assoc_L (++))).
  assert (∀ v, len v = 2 → take (Z.to_nat ihl) (a ++ v ++ h ++ rest) = a ++ v ++ h) as Htake.
  { intros v Hv. rewrite Hassoc by done. rewrite take_app_length'; [done|]. unfold len in *. rewrite !length_app. lia. }
  split_and!.
  - by apply set_idx_app.
  - change (a ++ 0 :: y :: h ++ rest) with (a ++ [0] ++ y :: h ++ rest). rewrite (assoc_L (++)).
    rewrite set_idx_app by len_lia. by rewrite <- (assoc_L (++)).
  - rewrite slice_to_ok by len_lia. by rewrite Htake.
  - by rewrite (copy_at_app a [0; 0] (u16_to_be ck) (h ++ rest)) by len_lia.
  - len_lia.
  - bytes_solve; auto.
  - rewrite Htake by done. apply checksum_verifies; [done..|by rewrite Ha].
  - intros i Hi'. destruct (Nat.lt_ge_cases i 10) as [Hlt|Hge]; unfold len in Ha.
    + by rewrite !(lookup_app_l a) by lia.
    + rewrite !(lookup_app_r a) by lia. destruct (i - length a)%nat as [|[|j]] eqn:Hj; [lia|lia|done].
Qed.

Lemma byte_at_lookup d r i : r !! i = d !! i → byte_at r i = byte_at d i.
Proof. unfold byte_at. by intros ->. Qed.
Lemma sub_agree (d r : list Z) a b :
  0 <= a → (∀ i : nat, a <= Z.of_nat i < b → r !! i = d !! i) → sub r a b = sub d a b.
Proof.
  intros Ha H. apply list_eq. intros i. unfold sub. rewrite !lookup_drop.
  destruct (decide (Z.to_nat a + i < Z.to_nat b)%nat) as [Hlt|Hge].
  - rewrite !lookup_take_lt by done. apply H. lia.
  - by rewrite !lookup_take_ge by lia.
Qed.
Lemma udp_len_agree d r off :
  0 <= off → (∀ i : nat, off + 4 <= Z.of_nat i < off + 6 → r !! i = d !! i) → udp_len_at r off = udp_len_at d off.
Proof. intros Ho H. unfold udp_len_at. by rewrite !(byte_at_lookup d r) by (apply H; lia). Qed.
Lemma take_agree (d r : list Z) n : (∀ i : nat, (i < n)%nat → r !! i = d !! i) → take n r = take n d.
Proof.
  intros H. apply list_eq. intros i. destruct (decide (i < n)%nat).
  - rewrite !lookup_take_lt by done. by apply H.
  - by rewrite !lookup_take_ge by lia.
Qed.

Lemma idx_byte_at {E} d i : 0 <= i < len d → idx (E:=E) d i = Ok (byte_at d (Z.to_nat i)).
Proof. intros Hi. destruct (idx_is_ok (E:=E) d i Hi) as (x & -> & Hx). unfold byte_at. by rewrite Hx. Qed.

(** The repair of a trimmed datagram whose header is done. *)
Lemma normalized_intro d q r :
  let off := header_len d in
  let p := take (Z.to_nat (stated_len d)) d in
  20 <= off → stated_len d <= len d → bytes q → len q = stated_len d →
  (ip_version d = 4 → ones_complement_sum (take (Z.to_nat off) q) = 65535) →
  (∀ i : nat, (i < Z.to_nat (stated_len d))%nat → ¬ (ip_version d = 4 ∧ 10 <= Z.of_nat i < 12) → q !! i = d !! i) →
  (if carries_udp d && udp_fits q off then udp_repaired (pseudo_header q (udp_len_at q off)) q r off else r = q) →
  (ip_version d ≠ 4 → 40 <= off) →
  normalized d r.
Proof.
  intros off p Hoff Hle Hbq Hlq Hsum Hagree Hr H40. unfold normalized. fold off. fold p.
  assert (len p = stated_len d) as Hlp by (subst p; unfold len in *; rewrite length_take; lia).
  assert (∀ i : nat, 12 <= Z.of_nat i < stated_len d → q !! i = d !! i) as Hq by (intros i Hi; apply Hagree; lia).
  assert (udp_fits q off = udp_fits p off) as Hfits.
  { unfold udp_fits. rewrite Hlq, Hlp. destruct (Z.leb_spec (off + 8) (stated_len d)); [|done]. cbn [andb].
    rewrite (udp_len_agree p q off); [done|lia|]. intros i Hi. rewrite Hq by lia. subst p. by rewrite lookup_take_lt by lia. }
  rewrite <- Hfits. destruct (carries_udp d && udp_fits q off) eqn:Hu; cycle 1.
  { subst r. split_and!; [done..|]. intros i Hi H10 _. by apply Hagree. }
  apply andb_true_iff in Hu as [_ Hf]. apply andb_true_iff in Hf as [[H8 H8']%andb_true_iff Hl]. apply Z.leb_le in H8, H8', Hl.
  assert (udp_len_at q off = udp_len_at d off) as Hn by (apply udp_len_agree; [lia|]; intros i Hi; apply Hq; lia).
  assert (pseudo_header q (udp_len_at q off) = pseudo_header d (udp_len_at d off)) as Hps.
  { assert (ip_version q = ip_version d) as Hv.
    { unfold ip_version. rewrite (byte_at_lookup d q) by (apply Hagree; lia). done. }
    unfold pseudo_header, pseudo_v4, pseudo_v6. rewrite Hv, Hn. destruct (Z.eqb_spec (ip_version d) 4) as [H4|H4].
    - rewrite (sub_agree d q 12 16), (sub_agree d q 16 20); [done|lia| |lia|]; intros i Hi; apply Hq; lia.
    - specialize (H40 H4). rewrite (sub_agree d q 8 24), (sub_agree d q 24 40); [done|lia| |lia|]; intros i Hi; apply Hagree; lia. }
  rewrite Hps in Hr. apply udp_repaired_segment in Hr as (Hlr & Hbr & Hnz & Hs & Ha); [|done|lia]. rewrite Hn in Hs.
  split_and!; [lia|done| |done|].
  - intros H4. rewrite <- (Hsum H4). f_equal. apply take_agree. intros i Hi. apply Ha. lia.
  - intros i Hi H10 H6. rewrite Ha by tauto. apply Hagree; tauto.
Qed.

Lemma normalize_v4_ok {E} d :
  bytes d → ip_version d = 4 → d ≠ [] →
  ∃ r, normalize_ipv4_forwarded_datagram (E:=E) d = Ok r ∧ if complete d then normalized d r else r = d.
Proof.
  intros Hb Hv Hne. unfold normalize_ipv4_forwarded_datagram, complete. rewrite Hv. cbn [Z.eqb Pos.eqb].
  rewrite (Z.leb_antisym (len d) 20). destruct (Z.ltb_spec (len d) 20) as [Hs|Hs]; cbn [negb].
  { exists d. rewrite andb_false_r. done. }
  rewrite idx_byte_at by lia. cbn [mbind res_bind].
  assert (Z.land (byte_at d 0) 15 * 4 = header_len d) as Hh by (unfold header_len; by rewrite Hv). change (Z.to_nat 0) with 0%nat. rewrite Hh.
  destruct (be16_at_ok (E:=E) d 2 Hb) as (total & -> & Hu & Ht); [lia..|].
  assert (total = stated_len d) as -> by (rewrite Ht; unfold stated_len; by rewrite Hv). clear Ht.
  destruct (Z.leb_spec 20 (header_len d)) as [H20|H20]; cbn [andb]; cycle 1.
  { rewrite (proj2 (Z.ltb_lt _ _)) by lia. by exists d. }
  rewrite (proj2 (Z.ltb_ge (header_len d) 20)) by lia. cbn [orb].
  destruct (Z.leb_spec (header_len d) (stated_len d)) as [Hhs|Hhs]; cbn [andb]; cycle 1.
  { exists d. split; [|done]. destruct (_ <? _); [done|]. cbn [mbind res_bind]. by rewrite (proj2 (Z.ltb_lt _ _)) by lia. }
  destruct (Z.leb_spec (stated_len d) (len d)) as [Hsl|Hsl]; cycle 1.
  { exists d. split; [|done]. destruct (_ <? _); [done|]. cbn [mbind res_bind].
    by rewrite (proj2 (Z.ltb_ge _ _)), (proj2 (Z.ltb_lt _ _)) by lia. }
  rewrite (proj2 (Z.ltb_ge (len d) (header_len d))) by lia. cbn [mbind res_bind].
  rewrite (proj2 (Z.ltb_ge (stated_len d) _)), (proj2 (Z.ltb_ge (len d) _)) by lia. cbn [orb].
  rewrite slice_to_ok by lia. cbn [mbind res_bind]. set (p := take (Z.to_nat (stated_len d)) d).
  assert (len p = stated_len d) as Hlp by (subst p; len_lia). assert (bytes p) as Hbp by (subst p; auto).
  destruct (fix_header_ok (E:=E) p (header_len d) Hbp ltac:(lia)) as (z & z' & hdr & q & -> & Hz' & Hhd & Hq & Hlq & Hbq & Hsum & Ha).
  cbn [mbind res_bind]. rewrite Hz'. cbn [mbind res_bind]. rewrite Hhd. cbn [mbind res_bind]. rewrite Hq. cbn [mbind res_bind].
  assert (∀ i : nat, (i < Z.to_nat (stated_len d))%nat → ¬ (10 <= Z.of_nat i < 12) → q !! i = d !! i) as Hagree.
  { intros i Hi Hi'. rewrite Ha by done. subst p. by rewrite lookup_take_lt by lia. }
  destruct (be16_at_ok (E:=E) q 6 Hbq) as (frag & -> & _ & Hfr); [lia..|]. cbn [mbind res_bind].
  rewrite idx_byte_at by lia. cbn [mbind res_bind].
  assert ((byte_at q (Z.to_nat 9) =? 17) && (Z.land frag 16383 =? 0) = carries_udp d) as ->.
  { unfold carries_udp. rewrite Hv, Hfr. cbn [Z.eqb Pos.eqb]. change (Z.to_nat 9) with 9%nat. change (Z.to_nat 6) with 6%nat.
    change (Z.to_nat (6 + 1)) with 7%nat. by rewrite !(byte_at_lookup d q) by (apply Hagree; lia). }
  assert (∀ r, (if carries_udp d && udp_fits q (header_len d)
    then udp_repaired (pseudo_header q (udp_len_at q (header_len d))) q r (header_len d) else r = q) → normalized d r) as Hdone.
  { intros r Hr. apply (normalized_intro d q r); [done..|lia|by intros _| |done|by intros ?].
    intros i Hi Hi'. apply Hagree; [done|]. tauto. }
  destruct (carries_udp d); [|exists q; split; [done|]; by apply Hdone].
  destruct (repair_v4_ok (E:=E) q (header_len d) Hbq H20) as (r & -> & Hr). exists r. split; [done|]. apply Hdone. cbn [andb].
  unfold pseudo_header. assert (ip_version q = 4) as ->; [|done].
  unfold ip_version. rewrite (byte_at_lookup d q) by (apply Hagree; lia). done.
Qed.

Lemma normalize_v6_ok {E} d :
  bytes d → ip_version d = 6 →
  ∃ r, normalize_ipv6_forwarded_datagram (E:=E) d = Ok r ∧ if complete d then normalized d r else r = d.
Proof.
  intros Hb Hv. unfold normalize_ipv6_forwarded_datagram, complete. rewrite Hv. cbn [Z.eqb Pos.eqb andb].
  rewrite (Z.leb_antisym (len d) 40). destruct (Z.ltb_spec (len d) 40) as [Hs|Hs]; cbn [negb andb]; [by exists d|].
  destruct (be16_at_ok (E:=E) d 4 Hb) as (payload & -> & Hu & Hp); [lia..|]. cbn [mbind res_bind].
  assert (40 + payload = stated_len d) as -> by (rewrite Hp; unfold stated_len; by rewrite Hv).
  assert (header_len d = 40) as Hh by (unfold header_len; by rewrite Hv).
  assert (40 <= stated_len d) as H40 by (unfold stated_len; rewrite Hv; cbn [Z.eqb Pos.eqb]; rewrite Hp in Hu; unfold u16 in Hu;
    change (Z.to_nat 4) with 4%nat in Hu; change (Z.to_nat (4 + 1)) with 5%nat in Hu; lia).
  rewrite (Z.leb_antisym (len d) (stated_len d)). destruct (Z.ltb_spec (len d) (stated_len d)) as [Hsl|Hsl]; cbn [negb]; [by exists d|].
  rewrite slice_to_ok by lia. cbn [mbind res_bind]. set (p := take (Z.to_nat (stated_len d)) d).
  assert (len p = stated_len d) as Hlp by (subst p; len_lia). assert (bytes p) as Hbp by (subst p; auto).
  assert (∀ i : nat, (i < Z.to_nat (stated_len d))%nat → p !! i = d !! i) as Hagree.
  { intros i Hi. subst p. by rewrite lookup_take_lt by lia. }
  rewrite idx_byte_at by lia. cbn [mbind res_bind].
  assert ((byte_at p (Z.to_nat 6) =? 17) = carries_udp d) as ->.
  { unfold carries_udp. rewrite Hv. cbn [Z.eqb Pos.eqb]. change (Z.to_nat 6) with 6%nat. by rewrite (byte_at_lookup d p) by (apply Hagree; lia). }
  assert (∀ r, (if carries_udp d && udp_fits p (header_len d)
    then udp_repaired (pseudo_header p (udp_len_at p (header_len d))) p r (header_len d) else r = p) → normalized d r) as Hdone.
  { intros r Hr. apply (normalized_intro d p r); [lia|lia|done|lia|lia| |done|lia].
    intros i Hi _. by apply Hagree. }
  destruct (carries_udp d); [|exists p; split; [done|]; by apply Hdone].
  destruct (repair_v6_ok (E:=E) p 40 Hbp ltac:(lia)) as (r & -> & Hr). exists r. split; [done|]. apply Hdone. cbn [andb].
  rewrite Hh. unfold pseudo_header. assert (ip_version p = 6) as ->; [|done].
  unfold ip_version. rewrite (byte_at_lookup d p) by (apply Hagree; lia). done.
Qed.

Lemma normalize_ok {E} d :
  bytes d →
  ∃ r, normalize_forwarded_datagram (E:=E) d = Ok r ∧
    if complete d then normalized d r else r = d.
Proof.
  intros Hb. unfold normalize_forwarded_datagram. destruct d as [|d0 d]; [by exists []|].
  change (Z.shiftr d0 4) with (ip_version (d0 :: d)).
  destruct (Z.eqb_spec (ip_version (d0 :: d)) 4) as [H4|H4]; [by apply normalize_v4_ok|].
  destruct (Z.eqb_spec (ip_version (d0 :: d)) 6) as [H6|H6]; [by apply normalize_v6_ok|].
  exists (d0 :: d). split; [done|]. unfold complete. rewrite (proj2 (Z.eqb_neq _ 4)), (proj2 (Z.eqb_neq _ 6)) by done. done.
Qed.

(** * The properties *)

(** C39: normalization never panics. A datagram that is not a complete IPv4 or IPv6
    packet is kept as it is; of a complete one, what is after the length of its header
    is cut off, the IPv4 header checksum and (for UDP that is not fragmented and
    whole) the UDP checksum verify, the latter is not the zero of an absent checksum, and no other octet changes. *)
Theorem normalization_correct {E} d :
  bytes d →
  ∃ r, normalize_forwarded_datagram (E:=E) d = Ok r ∧
    if complete d then normalized d r else r = d.
Proof. apply normalize_ok. Qed.

(** the relay's in-place normalization of a datagram behind the AMT header gives the
    encoding of the Multicast Data message with the datagram that the plain normalization gives. *)
Theorem embedded_normalization_equiv {E} (d : UpstreamDatagram) :
  bytes (rp_datagram (ud_packet d)) →
  normalized_amt_datagram (E:=E) d = (r ← normalized_datagram d; Ok (encode (MulticastData r))).
Proof. intros Hb. unfold normalized_amt_datagram, normalized_datagram. by apply normalize_embedded_eq. Qed.

(** A captured UDP datagram with stale checksums and two octets of padding. *)
Definition demo_capture : list Z :=
  [0x45; 0; 0; 33; 0x12; 0x34; 0; 0; 1; 17; 0xaa; 0xbb; 192; 0; 2; 10; 239; 1; 2; 3; 12; 34; 0x13; 0x88; 0; 13; 0xcc; 0xdd;
   104; 101; 108; 108; 111; 0xee; 0xff].

Lemma normalization_correct_witness :
  ∃ r, normalize_forwarded_datagram (E:=unit) demo_capture = Ok r ∧ len r = 33 ∧ normalized demo_capture r.
Proof.
  destruct (normalization_correct (E:=unit) demo_capture ltac:(decide_ok)) as (r & Hr & Hn).
  assert (complete demo_capture = true) as Hc by (by vm_compute). rewrite Hc in Hn.
  exists r. split; [done|]. split; [|done]. by vm_compute in Hr; injection Hr as <-.
Defined.

Lemma embedded_normalization_equiv_witness :
  ∃ r, normalized_amt_datagram (E:=unit) (mkUpstreamDatagram (V4 (mkIpv4 192 0 2 10)) (V4 (mkIpv4 239 1 2 3))
    (mkRawPacket None None None demo_capture)) = Ok (6 :: 0 :: r) ∧ len r = 33.
Proof.
  rewrite embedded_normalization_equiv by decide_ok. eexists. split; [vm_compute; reflexivity|by vm_compute].
Defined.
