(* ===== verification/Upstream.v ===== *)
(** The native subscriptions of the relay, the first half of [src/upstream.rs]:
    [UpstreamManager] keeps one subscription of the capture library for each
    subscription the relay wants, and [reconcile] moves from one set to the next. *)

From S2P Require Import Prelude Net Effects Ip State Forward.

Definition MAX_INVALID_PACKET_SKIP : nat := 16.

Record UpstreamConfig := mkUpstreamConfig {
  uc_interface : option IpAddr;
  uc_interface_index : option Z
}.
Record UpstreamReconcile := mkReconcile {
  ur_added : Z;
  ur_removed : Z;
  ur_failed_removals : Z;
  ur_active : Z
}.
Definition reconcile_changed (r : UpstreamReconcile) : bool := negb (ur_added r =? 0) || negb (ur_removed r =? 0).

(** The subscription that the capture library is asked for. *)
Inductive SourceFilter := SourceAny | SourceOnly (source : IpAddr).
Record RawSubscriptionConfig := mkRawConfig {
  rs_group : IpAddr;
  rs_source : SourceFilter;
  rs_interface : option IpAddr;
  rs_interface_index : option Z
}.

Definition matching_family (addr : option IpAddr) (family : IpAddr) : option IpAddr :=
  match addr, family with
  | Some (V4 addr), V4 _ => Some (V4 addr)
  | Some (V6 addr), V6 _ => Some (V6 addr)
  | _, _ => None
  end.

(** The capture library, [C] its state and [X] its errors: [RawReceiveContext]
    hands each call to it. *)
Class RawReceiveContext (C X : Type) := {
  add_subscription : RawSubscriptionConfig → M C X Z;
  join_subscription : Z → M C X unit;
  leave_subscription : Z → M C X unit;
  remove_subscription : Z → C → C;
  try_recv_any : M C X (option RawPacket)
}.

Record UpstreamManager (C : Type) := mkManager {
  um_config : UpstreamConfig;
  um_context : C;
  um_active : gmap UpstreamSubscription Z
}.
Arguments mkManager {C} _ _ _.
Arguments um_config {C} _.
Arguments um_context {C} _.
Arguments um_active {C} _.

Section manager.
Context {C X : Type} `{!RawReceiveContext C X}.

Definition new_manager (config : UpstreamConfig) (context : C) : UpstreamManager C := mkManager config context ∅.

(** A call of the library. *)
Definition on_context {A} (m : M C X A) : M (UpstreamManager C) X A := λ u,
  let '(r, c) := m (um_context u) in (r, mkManager (um_config u) c (um_active u)).
Definition drop_subscription (id : Z) : M (UpstreamManager C) X unit := λ u,
  (Ok tt, mkManager (um_config u) (remove_subscription id (um_context u)) (um_active u)).
Definition get_active : M (UpstreamManager C) X (gmap UpstreamSubscription Z) := λ u, (Ok (um_active u), u).
Definition set_active (active : gmap UpstreamSubscription Z) : M (UpstreamManager C) X unit := λ u,
  (Ok tt, mkManager (um_config u) (um_context u) active).

Definition raw_config_for (config : UpstreamConfig) (subscription : UpstreamSubscription) : RawSubscriptionConfig :=
  let source := match us_source subscription with Some source => SourceOnly source | None => SourceAny end in
  mkRawConfig (us_group subscription) source (matching_family (uc_interface config) (us_group subscription))
    (match us_group subscription with V6 _ => uc_interface_index config | V4 _ => None end).

(** [for subscription in subscriptions.iter().rev()], the list already reversed. *)
Fixpoint rollback_loop (subscriptions : list UpstreamSubscription) : M (UpstreamManager C) X unit :=
  match subscriptions with
  | [] => mret tt
  | subscription :: subscriptions =>
      active ← get_active;
      match active !! subscription with
      | None => rollback_loop subscriptions
      | Some id =>
          _ ← set_active (delete subscription active);
          _ ← catch (on_context (leave_subscription id)) (λ _, mret tt) (λ _ : X, mret tt);
          _ ← drop_subscription id;
          rollback_loop subscriptions
      end
  end.
Definition rollback_additions (subscriptions : list UpstreamSubscription) : M (UpstreamManager C) X unit :=
  rollback_loop (reverse subscriptions).

Fixpoint add_loop (desired new_subscriptions : list UpstreamSubscription) (added : Z) : M (UpstreamManager C) X Z :=
  match desired with
  | [] => mret added
  | subscription :: desired =>
      active ← get_active;
      if bool_decide (is_Some (active !! subscription)) then add_loop desired new_subscriptions added
      else
        config ← (λ u, (Ok (raw_config_for (um_config u) subscription), u));
        catch (on_context (add_subscription config))
          (λ id : Z,
            catch (on_context (join_subscription id))
              (λ _ : unit,
                _ ← set_active (<[subscription := id]> active);
                add_loop desired (new_subscriptions ++ [subscription]) (added + 1))
              (λ error : X,
                _ ← drop_subscription id;
                _ ← rollback_additions new_subscriptions;
                fail error))
          (λ error : X,
            _ ← rollback_additions new_subscriptions;
            fail error)
  end.

Fixpoint remove_loop (stale : list UpstreamSubscription) (removed failed_removals : Z) : M (UpstreamManager C) X (Z * Z) :=
  match stale with
  | [] => mret (removed, failed_removals)
  | subscription :: stale =>
      active ← get_active;
      id ← pure (lift_option (active !! subscription));
      catch (on_context (leave_subscription id))
        (λ _ : unit,
          _ ← drop_subscription id;
          _ ← set_active (delete subscription active);
          remove_loop stale (removed + 1) failed_removals)
        (λ _ : X, remove_loop stale removed (failed_removals + 1))
  end.

Definition reconcile (subscriptions : list UpstreamSubscription) : M (UpstreamManager C) X UpstreamReconcile :=
  let desired : gset UpstreamSubscription := list_to_set subscriptions in
  active ← get_active;
  let stale := filter (λ s, s ∉ desired) (btree_keys active) in
  added ← add_loop (bset_iter desired) [] 0;
  '(removed, failed_removals) ← remove_loop stale 0 0;
  active ← get_active;
  mret (mkReconcile added removed failed_removals (Z.of_nat (size active))).

(** [for _ in 0..MAX_INVALID_PACKET_SKIP]. *)
Fixpoint recv_loop (n : nat) : M (UpstreamManager C) X (option UpstreamDatagram) :=
  match n with
  | O => mret None
  | S n =>
      packet ← on_context try_recv_any;
      match packet with
      | None => mret None
      | Some packet =>
          addresses ← pure (packet_addresses packet);
          match addresses with
          | Some (source, group) => mret (Some (mkUpstreamDatagram source group packet))
          | None => recv_loop n
          end
      end
  end.
Definition try_recv : M (UpstreamManager C) X (option UpstreamDatagram) := recv_loop MAX_INVALID_PACKET_SKIP.

End manager.

(** * No subscription is lost or leaked *)

(** A call of the library that changes subscriptions, with its outcome: the id of an added subscription, or
    whether the call was accepted. *)
Inductive library_call :=
| CallAdd (config : RawSubscriptionConfig) (id : option Z)
| CallJoin (id : Z) (accepted : bool)
| CallLeave (id : Z) (accepted : bool)
| CallRemove (id : Z).

(** What the manager relies on: ids of subscriptions in use, [live], are not given out again; [calls] are the calls made
    so far, in their order. *)
Class RawContextOk {C X} `{!RawReceiveContext C X} (live : C → gset Z) (calls : C → list library_call) : Prop := {
  add_ok config c :
    mwp (add_subscription config)
      (λ id c', (id ∉ live c) ∧ live c' = {[id]} ∪ live c ∧ calls c' = calls c ++ [CallAdd config (Some id)])
      (λ _ c', live c' = live c ∧ calls c' = calls c ++ [CallAdd config None]) c;
  join_ok id c :
    mwp (join_subscription id) (λ _ c', live c' = live c ∧ calls c' = calls c ++ [CallJoin id true])
      (λ _ c', live c' = live c ∧ calls c' = calls c ++ [CallJoin id false]) c;
  leave_ok id c :
    mwp (leave_subscription id) (λ _ c', live c' = live c ∧ calls c' = calls c ++ [CallLeave id true])
      (λ _ c', live c' = live c ∧ calls c' = calls c ++ [CallLeave id false]) c;
  remove_ok id c : live (remove_subscription id c) = live c ∖ {[id]} ∧ calls (remove_subscription id c) = calls c ++ [CallRemove id];
  recv_any_ok c : mwp try_recv_any (λ _ c', live c' = live c ∧ calls c' = calls c) (λ _ c', live c' = live c ∧ calls c' = calls c) c
}.

Section invariant.
Context {C X : Type} `{!RawReceiveContext C X} (live : C → gset Z) (calls : C → list library_call) `{!RawContextOk live calls}.
Implicit Types u : UpstreamManager C.

(** The library's subscriptions are those of [active], each of one subscription. *)
Record manager_ok u : Prop := {
  mo_live id : id ∈ live (um_context u) ↔ ∃ s, um_active u !! s = Some id;
  mo_inj s s' id : um_active u !! s = Some id → um_active u !! s' = Some id → s = s'
}.

Lemma mwp_on_context {A} (m : M C X A) (Q : A → UpstreamManager C → Prop) R u :
  mwp m (λ a c, Q a (mkManager (um_config u) c (um_active u))) (λ e c, R e (mkManager (um_config u) c (um_active u))) (um_context u) →
  mwp (on_context m) Q R u.
Proof. unfold mwp, on_context. by destruct (m (um_context u)) as [[] ?]. Qed.

(** Changes of the context that keep the live ids keep the invariant. *)
Lemma manager_ok_context u c : manager_ok u → live c = live (um_context u) → manager_ok (mkManager (um_config u) c (um_active u)).
Proof. intros [Hl Hi] Hc. split; cbn [um_context um_active]; [|done]. intros id. by rewrite Hc. Qed.

(** Forgetting a subscription and removing its id. *)
Lemma manager_ok_delete u s id c :
  manager_ok u → um_active u !! s = Some id → live c = live (um_context u) ∖ {[id]} →
  manager_ok (mkManager (um_config u) c (delete s (um_active u))).
Proof.
  intros [Hl Hi] Hs Hc. split; cbn [um_context um_active].
  - intros id'. rewrite Hc, elem_of_difference, Hl, elem_of_singleton. split.
    + intros [[s' Hs'] Hne]. exists s'. rewrite lookup_delete_ne; [done|]. intros <-. congruence.
    + intros [s' [Hne Hs']%lookup_delete_Some]. split; [by exists s'|]. intros ->. by apply Hne, (Hi _ _ id).
  - intros s1 s2 id' [_ H1]%lookup_delete_Some [_ H2]%lookup_delete_Some. by eapply Hi.
Qed.
Lemma manager_ok_insert u s id c :
  manager_ok u → um_active u !! s = None → id ∉ live (um_context u) → live c = {[id]} ∪ live (um_context u) →
  manager_ok (mkManager (um_config u) c (<[s := id]> (um_active u))).
Proof.
  intros [Hl Hi] Hs Hni Hc. split; cbn [um_context um_active].
  - intros id'. rewrite Hc, elem_of_union, elem_of_singleton, Hl. split.
    + intros [->|[s' Hs']]; [exists s; apply lookup_insert_eq|]. exists s'. rewrite lookup_insert_ne; [done|]. intros <-. congruence.
    + intros [s' [[-> ->]|[_ Hs']]%lookup_insert_Some]; [by left|right; by exists s'].
  - intros s1 s2 id' [[<- Hid]|[Hn1 H1]]%lookup_insert_Some [[<- Hid2]|[Hn2 H2]]%lookup_insert_Some; [done|..].
    + exfalso. apply Hni, Hl. exists s2. congruence.
    + exfalso. apply Hni, Hl. exists s1. congruence.
    + by eapply Hi.
Qed.

Lemma mwp_get (Q : gmap UpstreamSubscription Z → UpstreamManager C → Prop) (R : X → UpstreamManager C → Prop) u :
  Q (um_active u) u → mwp get_active Q R u.
Proof. done. Qed.
Lemma mwp_set active (Q : unit → UpstreamManager C → Prop) (R : X → UpstreamManager C → Prop) u :
  Q tt (mkManager (um_config u) (um_context u) active) → mwp (set_active active) Q R u.
Proof. done. Qed.
Lemma mwp_drop id (Q : unit → UpstreamManager C → Prop) (R : X → UpstreamManager C → Prop) u :
  Q tt (mkManager (um_config u) (remove_subscription id (um_context u)) (um_active u)) → mwp (drop_subscription id) Q R u.
Proof. done. Qed.

(** The calls of [u'] are those of [u], then [l]. *)
Definition called (u : UpstreamManager C) (l : list library_call) (u' : UpstreamManager C) : Prop :=
  calls (um_context u') = calls (um_context u) ++ l.
Lemma called_nil u u' : um_context u' = um_context u → called u [] u'.
Proof. unfold called. intros ->. by rewrite app_nil_r. Qed.
Lemma called_app u u1 u2 l1 l2 l : called u l1 u1 → called u1 l2 u2 → l = l1 ++ l2 → called u l u2.
Proof. unfold called. intros H1 H2 ->. by rewrite H2, H1, <- (assoc_L (++)). Qed.

Lemma rollback_loop_wp l : ∀ u (R : X → UpstreamManager C → Prop),
  manager_ok u →
  mwp (rollback_loop l) (λ _ u', manager_ok u' ∧ um_active u' = foldl (λ m k, delete k m) (um_active u) l ∧
    ∃ more, called u more u') R u.
Proof.
  induction l as [|s l IH]; intros u R Hu; cbn [rollback_loop]; [apply mwp_ret; split_and!; [done..|exists []; by apply called_nil]|].
  apply mwp_bind, mwp_get. cbn [foldl]. destruct (um_active u !! s) as [id|] eqn:Hs; cycle 1.
  { rewrite delete_id by done. by apply IH. }
  apply mwp_bind, mwp_set, mwp_bind, mwp_catch, mwp_on_context. cbn [um_context um_config um_active].
  assert (∀ c ok, live c = live (um_context u) ∧ calls c = calls (um_context u) ++ [CallLeave id ok] →
    mwp (drop_subscription id ≫= λ _, rollback_loop l)
    (λ _ u', manager_ok u' ∧ um_active u' = foldl (λ m k, delete k m) (delete s (um_active u)) l ∧ ∃ more, called u more u') R
    (mkManager (um_config u) c (delete s (um_active u)))) as Hgo.
  { intros c ok [Hc Hl]. apply mwp_bind, mwp_drop. cbn [um_context um_config um_active].
    destruct (remove_ok id c) as [Hr Hrl].
    eapply mwp_mono; [apply (IH _ R); apply (manager_ok_delete u s id); [done..|by rewrite Hr, Hc]| |done].
    intros ? u' (? & ? & more & Hm). split_and!; [done..|]. exists ([CallLeave id ok; CallRemove id] ++ more).
    eapply called_app; [|exact Hm|done]. unfold called. cbn. by rewrite Hrl, Hl, <- (assoc_L (++)). }
  eapply mwp_mono; [apply leave_ok|..]; intros ? c Hc; apply mwp_ret; eapply Hgo; exact Hc.
Qed.

(** The additions so far, on top of [active0]. *)
Definition additions (active0 active : gmap UpstreamSubscription Z) (new : list UpstreamSubscription) : Prop :=
  NoDup new ∧ (∀ s, s ∈ new → active0 !! s = None ∧ is_Some (active !! s)) ∧ ∀ s, s ∉ new → active !! s = active0 !! s.

Lemma rollback_wp active0 new u (R : X → UpstreamManager C → Prop) :
  manager_ok u → additions active0 (um_active u) new →
  mwp (rollback_additions new) (λ _ u', manager_ok u' ∧ um_active u' = active0 ∧ ∃ more, called u more u') R u.
Proof.
  intros Hu (_ & Hin & Hout). unfold rollback_additions. eapply mwp_mono; [by apply (rollback_loop_wp _ u R)| |done].
  intros _ u' (Hu' & -> & Hcalls). split; [done|]. split; [|done]. apply map_eq. intros s. rewrite foldl_delete_lookup.
  destruct (decide (s ∈ reverse new)) as [Hs|Hs]; rewrite elem_of_reverse in Hs; [|by apply Hout].
  symmetry. by apply Hin.
Qed.

(** The calls that subscribe [l]: each is added with its own configuration, and joined; its id is in [active]. *)
Inductive subscribing (config : UpstreamConfig) (active : gmap UpstreamSubscription Z) :
    list UpstreamSubscription → list library_call → Prop :=
| subscribing_nil : subscribing config active [] []
| subscribing_cons s id l cs :
    active !! s = Some id → subscribing config active l cs →
    subscribing config active (s :: l) (CallAdd (raw_config_for config s) (Some id) :: CallJoin id true :: cs).

(** The calls that end the subscriptions of a list, and those of them that are kept: each is left; it is removed if that was
    accepted, and kept if it was refused. *)
Inductive unsubscribing (active : gmap UpstreamSubscription Z) :
    list UpstreamSubscription → list library_call → list UpstreamSubscription → Prop :=
| unsubscribing_nil : unsubscribing active [] [] []
| unsubscribing_left s id l cs kept :
    active !! s = Some id → unsubscribing active l cs kept →
    unsubscribing active (s :: l) (CallLeave id true :: CallRemove id :: cs) kept
| unsubscribing_refused s id l cs kept :
    active !! s = Some id → unsubscribing active l cs kept →
    unsubscribing active (s :: l) (CallLeave id false :: cs) (s :: kept).

Lemma unsubscribing_ext active active' l cs kept :
  (∀ s, s ∈ l → active' !! s = active !! s) → unsubscribing active l cs kept → unsubscribing active' l cs kept.
Proof.
  intros He Hu. induction Hu; constructor; first [rewrite He; [done|by left]|apply IHHu; intros s' Hs'; apply He; by right].
Qed.

(** A refusal to add or to join. *)
Definition refused (c : library_call) : Prop :=
  match c with CallAdd _ None | CallJoin _ false => True | _ => False end.

(** A call that was refused, and the rollback. *)
Lemma add_refused_wp active0 new u u0 c l e :
  manager_ok u → additions active0 (um_active u) new → called u0 l u → c ∈ l → refused c →
  mwp (rollback_additions new ≫= λ _, fail e) (λ (_ : Z) _, False)
    (λ (_ : X) u', manager_ok u' ∧ um_active u' = active0 ∧ ∃ l' c', called u0 l' u' ∧ c' ∈ l' ∧ refused c') u.
Proof.
  intros Hu Ha Hl Hc Hr. apply mwp_bind. eapply mwp_mono; [by apply (rollback_wp active0 new u (λ _ _, False))| |done].
  intros [] u' (Hu' & Hact & more & Hm). apply mwp_fail. split_and!; [done..|]. exists (l ++ more), c.
  split_and!; [by eapply called_app|rewrite elem_of_app; by left|done].
Qed.

Lemma additions_snoc active0 active new s id :
  additions active0 active new → s ∉ new → active0 !! s = None → additions active0 (<[s := id]> active) (new ++ [s]).
Proof.
  intros (Hndn & Hin & Hout) Hsn Hs0. split_and!.
  - apply NoDup_app. split_and!; [done|by intros x Hx ->%list_elem_of_singleton|apply NoDup_singleton].
  - intros s' [Hs'|Hs']%elem_of_app; [|apply list_elem_of_singleton in Hs' as ->; rewrite lookup_insert_eq; done].
    rewrite lookup_insert_ne by (by intros ->). by apply Hin.
  - intros s' [Hs' Hne]%not_elem_of_app. rewrite list_elem_of_singleton in Hne. rewrite lookup_insert_ne by done. by apply Hout.
Qed.

Lemma add_loop_wp active0 desired : ∀ new u,
  NoDup desired → (∀ s, s ∈ desired → s ∉ new) → manager_ok u → additions active0 (um_active u) new →
  mwp (add_loop desired new (len new))
    (λ added u', manager_ok u' ∧ um_config u' = um_config u ∧ (∀ s, s ∈ new → um_active u' !! s = um_active u !! s) ∧
       let more := filter (λ s, active0 !! s = None) desired in
       added = len (new ++ more) ∧ additions active0 (um_active u') (new ++ more) ∧
       ∃ l, called u l u' ∧ subscribing (um_config u) (um_active u') more l)
    (λ _ u', manager_ok u' ∧ um_active u' = active0 ∧ ∃ l c, called u l u' ∧ c ∈ l ∧ refused c) u.
Proof.
  induction desired as [|s desired IH]; intros new u Hnd Hdis Hu Hadd; cbn [add_loop].
  { apply mwp_ret. rewrite filter_nil, app_nil_r. split_and!; [done..|]. exists []. split; [by apply called_nil|constructor]. }
  apply NoDup_cons in Hnd as [Hs Hnd]. assert (s ∉ new) as Hsn by (apply Hdis; by left).
  pose proof Hadd as (Hndn & Hin & Hout). apply mwp_bind, mwp_get.
  destruct (um_active u !! s) as [id0|] eqn:Hlook.
  { rewrite bool_decide_eq_true_2 by done. rewrite filter_cons_False by (by rewrite <- Hout, Hlook).
    apply IH; [done|intros s' Hs'; apply Hdis; by right|done..]. }
  rewrite bool_decide_eq_false_2 by (by intros []).
  assert (active0 !! s = None) as Hs0 by (by rewrite <- Hout). rewrite filter_cons_True by done.
  apply mwp_bind. unfold mwp at 1. cbn [fst snd wp]. apply mwp_catch, mwp_on_context.
  set (config := raw_config_for (um_config u) s).
  eapply mwp_mono; [apply add_ok|..].
  - intros id c (Hni & Hc & Hcl). apply mwp_catch, mwp_on_context. cbn [um_context um_config um_active].
    eapply mwp_mono; [apply join_ok|..]; intros ? c' [Hc' Hcl']; cbn [um_context um_config um_active].
    + apply mwp_bind, mwp_set. cbn [um_context um_config um_active].
      replace (len new + 1) with (len (new ++ [s])) by len_lia.
      eapply mwp_mono; [apply IH; [done| |apply (manager_ok_insert u s id c'); congruence|by apply additions_snoc]|..]; cbn [um_active].
      * intros s' Hs'. rewrite not_elem_of_app, list_elem_of_singleton. split; [apply Hdis; by right|by intros ->].
      * intros added u' (Hu' & Hcf & Hkeep & -> & Ha & l & Hl & Hsub). rewrite <- (assoc_L (++)) in *. split_and!; [done|done| |done|done|].
        { intros s' Hs'. rewrite Hkeep by (rewrite elem_of_app; by left). rewrite lookup_insert_ne; [done|]. by intros ->. }
        exists (CallAdd config (Some id) :: CallJoin id true :: l). split.
        -- unfold called in *. cbn in Hl. by rewrite Hl, Hcl', Hcl, <- !(assoc_L (++)).
        -- constructor; [|done]. rewrite Hkeep by (rewrite elem_of_app, list_elem_of_singleton; by right). apply lookup_insert_eq.
      * intros e u' (Hu' & Hact & l & c0 & Hl & Hc0 & Hr). split_and!; [done..|].
        exists ([CallAdd config (Some id); CallJoin id true] ++ l), c0. split_and!; [|rewrite elem_of_app; by right|done].
        eapply called_app; [|exact Hl|done]. unfold called. cbn. by rewrite Hcl', Hcl, <- !(assoc_L (++)).
    + apply mwp_bind, mwp_drop. cbn [um_context um_config um_active]. destruct (remove_ok id c') as [Hrm Hrl].
      eapply mwp_mono; [eapply (add_refused_wp active0 new _ u (CallJoin id false) [CallAdd config (Some id); CallJoin id false; CallRemove id])|done|done];
        [|done| |set_solver|done].
      * apply manager_ok_context; [done|]. rewrite Hrm, Hc', Hc. clear -Hni. set_solver.
      * unfold called. cbn. by rewrite Hrl, Hcl', Hcl, <- !(assoc_L (++)).
  - intros e c [Hc Hcl].
    eapply mwp_mono; [eapply (add_refused_wp active0 new _ u (CallAdd config None) [CallAdd config None])|done|done]; [|done|done|set_solver|done].
    by apply manager_ok_context.
Qed.

(** What is left after the removals: the stale subscriptions that could not be left are [kept]. *)
Lemma remove_loop_wp stale : ∀ u removed failed (R : X → UpstreamManager C → Prop),
  NoDup stale → (∀ s, s ∈ stale → is_Some (um_active u !! s)) → manager_ok u →
  mwp (remove_loop stale removed failed)
    (λ '(r, f) u', manager_ok u' ∧ ∃ kept l, NoDup kept ∧ (∀ s, s ∈ kept → s ∈ stale) ∧
       f = failed + len kept ∧ r = removed + (len stale - len kept) ∧
       (∀ s, um_active u' !! s = if decide (s ∈ stale ∧ s ∉ kept) then None else um_active u !! s) ∧
       called u l u' ∧ unsubscribing (um_active u) stale l kept) R u.
Proof.
  induction stale as [|s stale IH]; intros u removed failed R Hnd Hin Hu; cbn [remove_loop].
  { apply mwp_ret. split; [done|]. exists [], []. split_and!; [constructor|done|len_lia|len_lia| |by apply called_nil|constructor].
    intros s. rewrite decide_False; [done|]. by intros [?%elem_of_nil _]. }
  apply NoDup_cons in Hnd as [Hs Hnd]. apply mwp_bind, mwp_get.
  destruct (Hin s) as [id Hid]; [by left|]. rewrite Hid. apply mwp_bind, mwp_pure. cbn [lift_option wp].
  apply mwp_catch, mwp_on_context. eapply mwp_mono; [apply leave_ok|..]; intros x c [Hc Hcl]; simpl in Hc, Hcl.
  - apply mwp_bind, mwp_drop, mwp_bind, mwp_set. cbn [um_context um_config um_active]. destruct (remove_ok id c) as [Hrm Hrl].
    eapply mwp_mono; [apply (IH _ _ _ (λ _ _, False)); [done| |apply (manager_ok_delete u s id); [done..|by rewrite Hrm, Hc]]| |done];
      cbn [um_active].
    + intros s' Hs'. rewrite lookup_delete_ne by (by intros ->). apply Hin. by right.
    + intros [r f] u' (Hu' & kept & l & Hnk & Hk & -> & -> & Hl & Hcalls & Huns). split; [done|].
      exists kept, (CallLeave id true :: CallRemove id :: l).
      split_and!; [done|intros s' Hs'; right; by apply Hk|done|len_lia| | |].
      * intros s'. rewrite Hl. destruct (decide (s' = s)) as [->|Hne].
        -- rewrite lookup_delete_eq, (decide_True (P:=s ∈ s :: stale ∧ s ∉ kept)); [by case_decide|].
           split; [by left|]. by intros ?%Hk.
        -- rewrite lookup_delete_ne by done. apply decide_ext. rewrite elem_of_cons. tauto.
      * unfold called in *. cbn in Hcalls. by rewrite Hcalls, Hrl, Hcl, <- !(assoc_L (++)).
      * constructor; [done|]. eapply unsubscribing_ext; [|exact Huns]. intros s' Hs'. cbn. rewrite lookup_delete_ne; [done|]. by intros ->.
  - eapply mwp_mono; [apply (IH _ _ _ (λ _ _, False)); [done| |by apply manager_ok_context]| |done]; cbn [um_active].
    + intros s' Hs'. apply Hin. by right.
    + intros [r f] u' (Hu' & kept & l & Hnk & Hk & -> & -> & Hl & Hcalls & Huns). split; [done|].
      exists (s :: kept), (CallLeave id false :: l).
      split_and!; [|intros s' [->|Hs']%elem_of_cons; [by left|right; by apply Hk]|len_lia|len_lia| | |by constructor].
      * apply NoDup_cons. split; [|done]. by intros ?%Hk.
      * intros s'. rewrite Hl. apply decide_ext. rewrite !elem_of_cons. destruct (decide (s' = s)) as [->|Hne]; tauto.
      * unfold called in *. cbn in Hcalls. by rewrite Hcalls, Hcl, <- !(assoc_L (++)).
Qed.

(** The outcome of a successful [reconcile] to [desired]: the library was asked to add and join the missing subscriptions,
    then to leave the stale ones, each once and in order; [kept] are exactly those that it refused to leave, the others
    were removed. *)
Definition reconciled (u u' : UpstreamManager C) (desired : gset UpstreamSubscription) (r : UpstreamReconcile) : Prop :=
  let missing := filter (λ s, um_active u !! s = None) (bset_iter desired) in
  let stale := filter (λ s, s ∉ desired) (btree_keys (um_active u)) in
  ∃ kept joins leaves,
    calls (um_context u') = calls (um_context u) ++ joins ++ leaves ∧
    subscribing (um_config u) (um_active u') missing joins ∧
    unsubscribing (um_active u) stale leaves kept ∧
    dom (um_active u') = desired ∪ list_to_set kept ∧
    (∀ s id, s ∈ desired ∪ list_to_set kept → um_active u !! s = Some id → um_active u' !! s = Some id) ∧
    ur_added r = len missing ∧ ur_failed_removals r = len kept ∧ ur_removed r = len stale - len kept ∧
    ur_active r = Z.of_nat (size (um_active u')).
End invariant.

(** The three maps of a [reconcile]: before, after the additions, after the removals. *)
Lemma reconciled_domain (m0 m1 m2 : gmap UpstreamSubscription Z) (desired : gset UpstreamSubscription)
    (more stale kept : list UpstreamSubscription) :
  (∀ s, s ∈ more → m0 !! s = None ∧ is_Some (m1 !! s)) → (∀ s, s ∉ more → m1 !! s = m0 !! s) →
  (∀ s, s ∈ more ↔ s ∈ desired ∧ m0 !! s = None) → (∀ s, s ∈ stale ↔ (s ∉ desired) ∧ is_Some (m0 !! s)) →
  (∀ s, s ∈ kept → s ∈ stale) →
  (∀ s, m2 !! s = if decide (s ∈ stale ∧ s ∉ kept) then None else m1 !! s) →
  dom m2 = desired ∪ list_to_set kept ∧
  (∀ s id, s ∈ desired ∪ list_to_set kept → m0 !! s = Some id → m2 !! s = Some id).
Proof.
  intros Hin Hout Hmore Hstale Hk Hl.
  assert (∀ s, s ∈ desired ∪ list_to_set kept → m2 !! s = m1 !! s) as Hkeep.
  { intros s Hs. rewrite Hl, decide_False; [done|]. rewrite Hstale. rewrite elem_of_union, elem_of_list_to_set in Hs. tauto. }
  split.
  - apply set_eq. intros s. rewrite elem_of_dom. split.
    + rewrite Hl, elem_of_union, elem_of_list_to_set. case_decide as Hd; [by intros []|]. intros Hs.
      destruct (decide (s ∈ desired)) as [?|Hnd]; [by left|right].
      destruct (decide (s ∈ more)) as [Hm|Hm]; [by apply Hmore in Hm as [? _]|]. rewrite Hout in Hs by done.
      destruct (decide (s ∈ kept)); [done|]. destruct Hd. by rewrite Hstale.
    + intros Hs. rewrite Hkeep by done. destruct (decide (s ∈ more)) as [Hm|Hm]; [by apply Hin|]. rewrite Hout by done.
      apply elem_of_union in Hs as [Hs|Hs].
      * destruct (m0 !! s) eqn:H0; [done|]. exfalso. by apply Hm, Hmore.
      * apply elem_of_list_to_set in Hs. by apply Hk, Hstale in Hs as [_ ?].
  - intros s id Hs H0. rewrite Hkeep, Hout; [done| |done]. intros [_ Hn]%Hmore. congruence.
Qed.

Lemma subscribing_ext config active active' l cs :
  (∀ s, s ∈ l → active' !! s = active !! s) → subscribing config active l cs → subscribing config active' l cs.
Proof.
  intros He Hu. induction Hu; constructor; [rewrite He; [done|by left]|]. apply IHHu. intros s' Hs'. apply He. by right.
Qed.

Lemma reconcile_wp {C X} `{!RawReceiveContext C X} (live : C → gset Z) (calls : C → list library_call) `{!RawContextOk live calls}
    (subscriptions : list UpstreamSubscription) (u : UpstreamManager C) :
  manager_ok live u →
  mwp (reconcile subscriptions)
    (λ r u', manager_ok live u' ∧ reconciled calls u u' (list_to_set subscriptions) r)
    (λ _ u', manager_ok live u' ∧ um_active u' = um_active u ∧ ∃ l c, called calls u l u' ∧ c ∈ l ∧ refused c) u.
Proof.
  intros Hu. unfold reconcile, reconciled. set (desired := list_to_set subscriptions : gset UpstreamSubscription).
  apply mwp_bind, mwp_get. set (stale := filter (λ s, s ∉ desired) (btree_keys (um_active u))).
  assert (NoDup stale) as Hns by (apply NoDup_filter, NoDup_btree_keys).
  assert (∀ s, s ∈ stale ↔ (s ∉ desired) ∧ is_Some (um_active u !! s)) as Hstale.
  { intros s. subst stale. by rewrite list_elem_of_filter, elem_of_btree_keys. }
  apply mwp_bind. eapply mwp_mono; [apply (add_loop_wp live calls (um_active u) (bset_iter desired) [] u)|..].
  - apply NoDup_bset_iter.
  - intros s _. apply not_elem_of_nil.
  - done.
  - split_and!; [constructor|by intros s ?%elem_of_nil|done].
  - set (more := filter (λ s, um_active u !! s = None) (bset_iter desired)).
    assert (∀ s, s ∈ more ↔ s ∈ desired ∧ um_active u !! s = None) as Hmore
      by (intros s; subst more; rewrite list_elem_of_filter, elem_of_bset_iter; tauto).
    cbv zeta. fold more. intros added u1 (Hu1 & Hcf & _ & -> & (Hnm & Hin & Hout) & joins & Hjoins & Hsub). cbn [app] in *.
    apply mwp_bind. eapply mwp_mono; [apply (remove_loop_wp live calls stale u1 0 0 (λ _ _, False)); [done| |done]|..|done].
    + intros s [Hnd Hs]%Hstale. destruct (decide (s ∈ more)) as [Hm|Hm]; [by apply Hin|by rewrite Hout].
    + intros [r f] u2 (Hu2 & kept & leaves & Hnk & Hk & -> & -> & Hl & Hleaves & Huns). apply mwp_bind, mwp_get, mwp_ret. split; [done|].
      exists kept, joins, leaves.
      destruct (reconciled_domain (um_active u) (um_active u1) (um_active u2) desired more stale kept) as [Hdom Hids]; try done.
      split_and!; cbn [ur_added ur_failed_removals ur_removed ur_active]; try done; try lia.
      * unfold called in *. by rewrite Hleaves, Hjoins, <- (assoc_L (++)).
      * eapply subscribing_ext; [|exact Hsub]. intros s Hs%Hmore. rewrite Hl, decide_False; [done|]. rewrite Hstale. tauto.
      * eapply unsubscribing_ext; [|exact Huns]. intros s Hs. rewrite Hout; [done|]. intros [_ Hn]%Hmore. apply Hstale in Hs as [_ [? ?]]. congruence.
  - done.
Qed.

(** Reading the addresses of a packet never fails, and those found can be forwarded. *)
Lemma packet_addresses_wp {E} (packet : RawPacket) :
  wp (packet_addresses (E:=E) packet)
    (λ r, ∀ source group, r = Some (source, group) → valid_multicast_addresses source group = true) (λ _, False).
Proof.
  unfold packet_addresses. apply wp_bind.
  assert (wp (E:=E) (match rp_source_ip packet, rp_group packet with
    | Some source, Some group => Ok (Some (source, group))
    | _, _ => parse_datagram_addresses (rp_datagram packet) end) (λ _, True) (λ _, False)) as H.
  { assert (wp (E:=E) (parse_datagram_addresses (rp_datagram packet)) (λ _, True) (λ _, False)) as H.
    { unfold parse_datagram_addresses. destruct (rp_datagram packet) as [|d0 d]; [done|].
      destruct (_ =? 4); [|destruct (_ =? 6); [|done]].
      - unfold parse_ipv4_datagram_addresses, be16_at, ipv4_at.
        destruct (_ <? 20) eqn:Hlen; [done|]. by wp_run.
      - unfold parse_ipv6_datagram_addresses, be16_at.
        destruct (_ <? 40) eqn:Hlen; [done|]. by wp_run. }
    by destruct (rp_source_ip packet), (rp_group packet). }
  eapply wp_mono; [exact H| |done]. intros [[source group]|] _; cbn; [|done].
  destruct (valid_multicast_addresses source group) eqn:Hv; [|done]. by intros ? ? [= <- <-].
Qed.

(** Receiving does not change what is subscribed, and hands over only datagrams that can
    be forwarded. *)
Lemma try_recv_wp {C X} `{!RawReceiveContext C X} (live : C → gset Z) (calls : C → list library_call) `{!RawContextOk live calls} (u : UpstreamManager C) :
  manager_ok live u →
  mwp try_recv
    (λ r u', manager_ok live u' ∧ um_active u' = um_active u ∧
             ∀ d, r = Some d → valid_multicast_addresses (ud_source d) (ud_group d) = true)
    (λ _ u', manager_ok live u' ∧ um_active u' = um_active u) u.
Proof.
  unfold try_recv. generalize MAX_INVALID_PACKET_SKIP as n. intros n. revert u.
  induction n as [|n IH]; intros u Hu; [done|]. cbn [recv_loop].
  apply mwp_bind, mwp_on_context.
  eapply mwp_mono; [apply recv_any_ok|..].
  - intros [packet|] c [Hc _]; [|by split; [apply manager_ok_context|]].
    apply mwp_bind, mwp_pure. eapply wp_mono; [apply packet_addresses_wp| |done].
    intros [[source group]|] Hv.
    + apply mwp_ret. split; [by apply manager_ok_context|]. split; [done|]. intros ? [= <-]. by apply Hv.
    + eapply mwp_mono; [apply IH; by apply manager_ok_context|done..].
  - intros e c [Hc _]. by split; [apply manager_ok_context|].
Qed.

(** C38: [reconcile] is all or nothing in what it adds: it fails only when the library refuses to add or to join a
    subscription; the active subscriptions are then the ones before, and (as the ids in use are always those of the
    active subscriptions) everything the call added is removed again. If it
    succeeds, the calls made are exactly these, in this order: each desired subscription that was not active is
    added with its configuration and joined, and each active one that is not desired is left, and removed
    if the library accepted that. Every desired subscription is then active, those that were active keep their
    ids, and of the others exactly the ones that the library refused to leave remain;
    the counts are those of these subscriptions. *)
Theorem upstream_reconcile_correct {C X} `{!RawReceiveContext C X} (live : C → gset Z) (calls : C → list library_call)
    `{!RawContextOk live calls} (subscriptions : list UpstreamSubscription) (u : UpstreamManager C) :
  manager_ok live u →
  mwp (reconcile subscriptions)
    (λ r u', manager_ok live u' ∧ reconciled calls u u' (list_to_set subscriptions) r)
    (λ _ u', manager_ok live u' ∧ um_active u' = um_active u ∧ ∃ l c, called calls u l u' ∧ c ∈ l ∧ refused c) u.
Proof. intros Hu. by apply reconcile_wp. Qed.

(** ** A concrete context: it refuses to join more than [dc_limit] subscriptions *)

Record demo_context := mkDemoContext { dc_live : gset Z; dc_limit : nat; dc_calls : list library_call }.
Definition demo_called (c : demo_context) (l : gset Z) (e : library_call) : demo_context :=
  mkDemoContext l (dc_limit c) (dc_calls c ++ [e]).
#[export] Instance demo_raw_context : RawReceiveContext demo_context string := {|
  add_subscription := λ config c,
    let id := fresh (dc_live c) in (Ok id, demo_called c ({[id]} ∪ dc_live c) (CallAdd config (Some id)));
  join_subscription := λ id c,
    if bool_decide (size (dc_live c) <= dc_limit c)%nat then (Ok tt, demo_called c (dc_live c) (CallJoin id true))
    else (Err "refused"%string, demo_called c (dc_live c) (CallJoin id false));
  leave_subscription := λ id c, (Ok tt, demo_called c (dc_live c) (CallLeave id true));
  remove_subscription := λ id c, demo_called c (dc_live c ∖ {[id]}) (CallRemove id);
  try_recv_any := mret None
|}.
#[export] Instance demo_raw_context_ok : RawContextOk (X:=string) dc_live dc_calls.
Proof.
  split.
  - intros config c. unfold mwp. cbn. split; [apply is_fresh|done].
  - intros id c. unfold mwp. cbn. by destruct (bool_decide _).
  - done.
  - done.
  - done.
Qed.

Definition demo_subscription (n : Z) : UpstreamSubscription := asm (V4 (mkIpv4 239 0 0 n)).
Definition demo_manager (limit : nat) : UpstreamManager demo_context :=
  mkManager (mkUpstreamConfig None None) (mkDemoContext {[0]} limit []) {[demo_subscription 1 := 0]}.
Lemma demo_upstream_ok limit : manager_ok dc_live (demo_manager limit).
Proof.
  split; cbn [demo_manager um_context um_active dc_live].
  - intros id. rewrite elem_of_singleton. split; [intros ->; exists (demo_subscription 1); by rewrite lookup_singleton_eq|].
    intros [s [_ ?]%lookup_singleton_Some]. done.
  - intros s s' id [<- _]%lookup_singleton_Some [<- _]%lookup_singleton_Some. done.
Qed.

(** With room for two, the stale subscription is replaced; with room for one, nothing changes. *)
Lemma upstream_reconcile_correct_witness :
  (∃ r, (reconcile (X:=string) [demo_subscription 2] (demo_manager 2)).1 = Ok r ∧
     reconciled dc_calls (demo_manager 2) (reconcile (X:=string) [demo_subscription 2] (demo_manager 2)).2 (list_to_set [demo_subscription 2]) r) ∧
  (reconcile (X:=string) [demo_subscription 2] (demo_manager 1)).1 = Err "refused"%string ∧
  um_active (reconcile (X:=string) [demo_subscription 2] (demo_manager 1)).2 = um_active (demo_manager 1).
Proof.
  split.
  - pose proof (upstream_reconcile_correct (X:=string) dc_live dc_calls [demo_subscription 2] (demo_manager 2) (demo_upstream_ok 2)) as H.
    unfold mwp in H. destruct (reconcile _ (demo_manager 2)).1 as [r|e| |] eqn:Hr; [|by vm_compute in Hr..].
    destruct H as [_ H]. exists r. by split.
  - pose proof (upstream_reconcile_correct (X:=string) dc_live dc_calls [demo_subscription 2] (demo_manager 1) (demo_upstream_ok 1)) as H.
    unfold mwp in H. destruct (reconcile _ (demo_manager 1)).1 as [r|e| |] eqn:Hr; [by vm_compute in Hr| |by vm_compute in Hr..].
    destruct H as (_ & H & _). split; [|done]. vm_compute in Hr. by injection Hr as <-.
Defined.
