(* ===== verification/Downstream.v ===== *)
(** [src/downstream.rs]: the packets a gateway takes out of the tunnel are published on a local
    interface through raw sockets, one publication per address family.

    The transmission library (mctx-core) is the class [RawContext]; a publication's
    configuration is kept as the calls of its builder. *)

From stdpp Require Import strings.
From S2P Require Import Prelude Net Effects Protocol Ip.

Definition UDP_PROTOCOL : Z := 17.
Definition UDP_HEADER_LEN : Z := 8.

Inductive PublicationAddressFamily := Ipv4Family | Ipv6Family.
#[export] Instance family_eq_dec : EqDecision PublicationAddressFamily.
Proof. solve_decision. Defined.
#[export] Instance family_countable : Countable PublicationAddressFamily.
Proof.
  refine (inj_countable' (λ f, match f with Ipv4Family => true | Ipv6Family => false end)
                         (λ b : bool, if b then Ipv4Family else Ipv6Family) _).
  by intros [].
Defined.

Definition protocol_family (protocol : MembershipProtocol) : PublicationAddressFamily :=
  match protocol with Igmpv3 => Ipv4Family | Mldv2 => Ipv6Family end.

(** * Configuration *)

Record DownstreamConfig := mkDownstreamConfig {
  dc_interface : option IpAddr;
  dc_interface_index : option Z;
  dc_loopback : option bool
}.

Inductive DownstreamConfigError :=
| Ipv6LoopbackUnsupported
| InterfaceAddressFamilyMismatch (family : PublicationAddressFamily)
| InvalidInterfaceIndex
| Ipv4InterfaceIndexUnsupported (index : Z)
| RouteSelectedEgressUnsupported (family : PublicationAddressFamily)
| FullHeaderIpv6Unsupported (route_selected : bool)
| InvalidRawConfiguration (error : string).

(** The calls on a [RawPublicationConfig], after its constructor for the family. *)
Inductive PublicationOption :=
| WithRouteSelectedEgress
| WithOutgoingInterface (interface : IpAddr)
| WithBindAddr (interface : IpAddr)
| WithIpv6InterfaceIndex (index : Z)
| WithLoopback (loopback : bool).
Record RawPublicationConfig := mkPublication {
  pub_family : PublicationAddressFamily;
  pub_options : list PublicationOption
}.

(** The platform, and the contexts [C] with errors [X]. *)
Class RawContext (C X : Type) := {
  route_egress_supported : PublicationAddressFamily → bool;
  (** Whether full IPv6 headers are preserved, with a selected route or an explicit interface. *)
  ipv6_preserves_full_header : bool → bool;
  raw_validate : RawPublicationConfig → res string unit;
  add_publication : RawPublicationConfig → M C X Z;
  (** [send_raw], and the [bytes_sent] of its report. *)
  send_raw : Z → list Z → M C X Z
}.

Definition family_matches (family : PublicationAddressFamily) (interface : IpAddr) : bool :=
  match family, interface with Ipv4Family, V4 _ | Ipv6Family, V6 _ => true | _, _ => false end.

Definition validate_options_for_family (c : DownstreamConfig) (family : PublicationAddressFamily) :
    res DownstreamConfigError unit :=
  if negb (match dc_interface c with Some interface => family_matches family interface | None => true end)
  then Err (InterfaceAddressFamilyMismatch family)
  else if bool_decide (dc_interface_index c = Some 0) then Err InvalidInterfaceIndex
  else
    match family, dc_interface_index c with
    | Ipv4Family, Some index => Err (Ipv4InterfaceIndexUnsupported index)
    | _, _ =>
        if bool_decide (family = Ipv6Family) && bool_decide (dc_loopback c = Some true) then Err Ipv6LoopbackUnsupported
        else Ok tt
    end.
Definition validate_options_for_protocol (c : DownstreamConfig) (protocol : MembershipProtocol) :
    res DownstreamConfigError unit :=
  validate_options_for_family c (protocol_family protocol).

Definition uses_route_selected_egress (c : DownstreamConfig) : bool :=
  bool_decide (dc_interface c = None) && bool_decide (dc_interface_index c = None).

Definition build_publication_config (c : DownstreamConfig) (family : PublicationAddressFamily) : RawPublicationConfig :=
  let egress :=
    if uses_route_selected_egress c then [WithRouteSelectedEgress]
    else
      match dc_interface c, family with
      | Some (V4 interface), Ipv4Family => [WithOutgoingInterface (V4 interface); WithBindAddr (V4 interface)]
      | Some (V6 interface), Ipv6Family => [WithOutgoingInterface (V6 interface); WithBindAddr (V6 interface)]
      | _, _ => []
      end ++
      match family, dc_interface_index c with
      | Ipv6Family, Some index => [WithIpv6InterfaceIndex index]
      | _, _ => []
      end in
  mkPublication family (egress ++ match dc_loopback c with Some loopback => [WithLoopback loopback] | None => [] end).

(** * Packets *)

Record IpMulticastDatagram := mkIpMulticast {
  im_family : PublicationAddressFamily;
  im_source : IpAddr;
  im_group : IpAddr;
  im_ip_protocol : Z;
  im_udp_dst_port : option Z;
  im_datagram_len : Z
}.

Section parse.
Context {E : Type}.

Definition parse_udp_dst_port (payload : list Z) (protocol : Z) : res E (option Z) :=
  if negb (protocol =? UDP_PROTOCOL) || (len payload <? UDP_HEADER_LEN) then Ok None
  else
    udp_len ← be16_at payload 4;
    if (udp_len <? UDP_HEADER_LEN) || (len payload <? udp_len) then Ok None
    else
      port ← be16_at payload 2;
      Ok (Some port).

Definition parse_ipv4_multicast_datagram (datagram : list Z) : res E (option IpMulticastDatagram) :=
  if len datagram <? IPV4_MIN_HEADER_LEN then Ok None
  else
    d0 ← idx datagram 0;
    let ihl := Z.land d0 0x0f * 4 in
    if (ihl <? IPV4_MIN_HEADER_LEN) || (len datagram <? ihl) then Ok None
    else
      total_len ← be16_at datagram 2;
      if (total_len <? ihl) || (len datagram <? total_len) then Ok None
      else
        source ← ipv4_at datagram 12;
        group ← ipv4_at datagram 16;
        if negb (v4_is_multicast group) then Ok None
        else
          ip_protocol ← idx datagram 9;
          payload ← slice datagram ihl total_len;
          port ← parse_udp_dst_port payload ip_protocol;
          Ok (Some (mkIpMulticast Ipv4Family (V4 source) (V4 group) ip_protocol port total_len)).

Definition parse_ipv6_multicast_datagram (datagram : list Z) : res E (option IpMulticastDatagram) :=
  if len datagram <? IPV6_HEADER_LEN then Ok None
  else
    payload_len ← be16_at datagram 4;
    let total_len := IPV6_HEADER_LEN + payload_len in
    if len datagram <? total_len then Ok None
    else
      source ← slice datagram 8 24;
      group ← slice datagram 24 40;
      let source := mkIpv6 source in
      let group := mkIpv6 group in
      if negb (v6_is_multicast group) then Ok None
      else
        ip_protocol ← idx datagram 6;
        payload ← slice datagram IPV6_HEADER_LEN total_len;
        port ← parse_udp_dst_port payload ip_protocol;
        Ok (Some (mkIpMulticast Ipv6Family (V6 source) (V6 group) ip_protocol port total_len)).

Definition parse_ip_multicast_datagram (datagram : list Z) : res E (option IpMulticastDatagram) :=
  match datagram with
  | [] => Ok None
  | first :: _ =>
      let version := Z.shiftr first 4 in
      if version =? 4 then parse_ipv4_multicast_datagram datagram
      else if version =? 6 then parse_ipv6_multicast_datagram datagram
      else Ok None
  end.
End parse.

(** * The publisher *)

Record DownstreamPublisher (C : Type) := mkPublisher {
  dp_config : DownstreamConfig;
  dp_context : C;
  dp_publications : gmap PublicationAddressFamily Z
}.
Arguments mkPublisher {_} _ _ _.
Arguments dp_config {_} _.
Arguments dp_context {_} _.
Arguments dp_publications {_} _.

Inductive DownstreamError (X : Type) :=
| Configuration (error : DownstreamConfigError)
| SendFailure (error : X).
Arguments Configuration {_} _.
Arguments SendFailure {_} _.

Record DownstreamForward := mkForward {
  df_source : IpAddr;
  df_group : IpAddr;
  df_ip_protocol : Z;
  df_udp_dst_port : option Z;
  df_datagram_len : Z;
  df_bytes_sent : Z
}.

Section publisher.
Context {C X : Type} `{!RawContext C X}.

Definition validate_for_family (c : DownstreamConfig) (family : PublicationAddressFamily) : res DownstreamConfigError unit :=
  _ ← validate_options_for_family c family;
  let route_selected := uses_route_selected_egress c in
  if route_selected && negb (route_egress_supported family) then Err (RouteSelectedEgressUnsupported family)
  else if bool_decide (family = Ipv6Family) && negb (ipv6_preserves_full_header route_selected)
  then Err (FullHeaderIpv6Unsupported route_selected)
  else
    _ ← map_err InvalidRawConfiguration (raw_validate (build_publication_config c family));
    Ok tt.
Definition validate_for_protocol (c : DownstreamConfig) (protocol : MembershipProtocol) : res DownstreamConfigError unit :=
  validate_for_family c (protocol_family protocol).
Definition publication_config (c : DownstreamConfig) (family : PublicationAddressFamily) :
    res DownstreamConfigError RawPublicationConfig :=
  _ ← validate_for_family c family;
  Ok (build_publication_config c family).

Definition new_publisher (c : DownstreamConfig) (context : C) : DownstreamPublisher C := mkPublisher c context ∅.

(** A call on [self.context]. *)
Definition on_raw {A} (m : M C X A) : M (DownstreamPublisher C) (DownstreamError X) A := λ p,
  let '(r, context) := m (dp_context p) in
  (map_err SendFailure r, mkPublisher (dp_config p) context (dp_publications p)).

Definition get_publisher : M (DownstreamPublisher C) (DownstreamError X) (DownstreamPublisher C) := λ p, (Ok p, p).
Definition remember_publication (family : PublicationAddressFamily) (id : Z) : M (DownstreamPublisher C) (DownstreamError X) unit :=
  λ p, (Ok tt, mkPublisher (dp_config p) (dp_context p) (<[family := id]> (dp_publications p))).

Definition publication_for (family : PublicationAddressFamily) : M (DownstreamPublisher C) (DownstreamError X) Z :=
  p ← get_publisher;
  match dp_publications p !! family with
  | Some id => mret id
  | None =>
      config ← pure (map_err Configuration (publication_config (dp_config p) family));
      id ← on_raw (add_publication config);
      _ ← remember_publication family id;
      mret id
  end.

(** [DownstreamPublisher::try_new], on a new context. *)
Definition try_new (c : DownstreamConfig) (context : C) (protocol : MembershipProtocol) :
    res (DownstreamError X) unit * DownstreamPublisher C :=
  (_ ← pure (map_err Configuration (validate_for_protocol c protocol));
   _ ← publication_for (protocol_family protocol);
   mret tt) (new_publisher c context).

Definition forward_ip_datagram (datagram : list Z) : M (DownstreamPublisher C) (DownstreamError X) (option DownstreamForward) :=
  parsed ← pure (parse_ip_multicast_datagram datagram);
  match parsed with
  | None => mret None
  | Some multicast =>
      publication ← publication_for (im_family multicast);
      packet ← pure (slice_to datagram (im_datagram_len multicast));
      bytes_sent ← on_raw (send_raw publication packet);
      mret (Some (mkForward (im_source multicast) (im_group multicast) (im_ip_protocol multicast) (im_udp_dst_port multicast)
                    (len packet) bytes_sent))
  end.
End publisher.

(** * What is read from a datagram *)

Definition word_at (d : list Z) (i : nat) : Z := u16_from_be (byte_at d i) (byte_at d (i + 1)).
Definition v4_from (d : list Z) (i : nat) : Ipv4Addr := mkIpv4 (byte_at d i) (byte_at d (i + 1)) (byte_at d (i + 2)) (byte_at d (i + 3)).

Lemma idx_at {E} d i : 0 <= i < len d → idx (E:=E) d i = Ok (byte_at d (Z.to_nat i)).
Proof.
  intros H. unfold idx, byte_at. rewrite (proj2 (Z.ltb_ge _ _)) by lia.
  destruct (lookup_lt_is_Some_2 d (Z.to_nat i)) as [x Hx]; [unfold len in H; lia|]. by rewrite Hx.
Qed.
Lemma word_at_ok {E} d i : 0 <= i → i + 2 <= len d → be16_at (E:=E) d i = Ok (word_at d (Z.to_nat i)).
Proof.
  intros Hi Hl. unfold be16_at. rewrite !idx_at by lia. cbn [mbind res_bind]. unfold word_at.
  by replace (Z.to_nat (i + 1)) with (Z.to_nat i + 1)%nat by lia.
Qed.
Lemma v4_from_ok {E} d i : 0 <= i → i + 4 <= len d → ipv4_at (E:=E) d i = Ok (v4_from d (Z.to_nat i)).
Proof.
  intros Hi Hl. unfold ipv4_at. rewrite !idx_at by lia. cbn [mbind res_bind]. unfold v4_from.
  by rewrite !Z2Nat.inj_add by lia.
Qed.

(** The port of a whole UDP header. *)
Definition udp_port (payload : list Z) (protocol : Z) : option Z :=
  if (protocol =? UDP_PROTOCOL) && (UDP_HEADER_LEN <=? len payload) &&
     ((UDP_HEADER_LEN <=? word_at payload 4) && (word_at payload 4 <=? len payload))
  then Some (word_at payload 2) else None.

Lemma parse_udp_dst_port_eq {E} payload protocol : parse_udp_dst_port (E:=E) payload protocol = Ok (udp_port payload protocol).
Proof.
  unfold parse_udp_dst_port, udp_port, UDP_HEADER_LEN. rewrite (Z.leb_antisym (len payload) 8).
  destruct (protocol =? UDP_PROTOCOL); cbn [negb orb andb]; [|done].
  destruct (Z.ltb_spec (len payload) 8) as [Hl|Hl]; cbn [negb andb]; [done|].
  rewrite !word_at_ok by lia. cbn [mbind res_bind]. change (Z.to_nat 4) with 4%nat. change (Z.to_nat 2) with 2%nat.
  rewrite (Z.leb_antisym (word_at payload 4) 8), (Z.leb_antisym (len payload) (word_at payload 4)).
  by destruct (_ <? 8), (len payload <? _).
Qed.

Definition v4_view (d : list Z) : option IpMulticastDatagram :=
  let ihl := Z.land (byte_at d 0) 15 * 4 in
  let total := word_at d 2 in
  let group := v4_from d 16 in
  if (20 <=? len d) && (20 <=? ihl) && (ihl <=? len d) && (ihl <=? total) && (total <=? len d) && v4_is_multicast group
  then Some (mkIpMulticast Ipv4Family (V4 (v4_from d 12)) (V4 group) (byte_at d 9) (udp_port (sub d ihl total) (byte_at d 9)) total)
  else None.
Definition v6_view (d : list Z) : option IpMulticastDatagram :=
  let total := 40 + word_at d 4 in
  let group := mkIpv6 (sub d 24 40) in
  if (40 <=? len d) && (total <=? len d) && v6_is_multicast group
  then Some (mkIpMulticast Ipv6Family (V6 (mkIpv6 (sub d 8 24))) (V6 group) (byte_at d 6) (udp_port (sub d 40 total) (byte_at d 6)) total)
  else None.
(** What the datagram is published as. *)
Definition multicast_view (d : list Z) : option IpMulticastDatagram :=
  match d with
  | [] => None
  | first :: _ =>
      if Z.shiftr first 4 =? 4 then v4_view d else if Z.shiftr first 4 =? 6 then v6_view d else None
  end.

Lemma word_at_nonneg d i : bytes d → 0 <= word_at d i.
Proof.
  intros Hb. assert (∀ j, u8 (byte_at d j)) as Hu.
  { intros j. unfold byte_at. destruct (d !! j) as [x|] eqn:Hx; [by eapply bytes_lookup|unfold u8; cbn; lia]. }
  unfold word_at. pose proof (u16_from_be_range _ _ (Hu i) (Hu (i + 1)%nat)) as H. unfold u16 in H. lia.
Qed.

Lemma parse_ip_multicast_eq {E} d : bytes d → parse_ip_multicast_datagram (E:=E) d = Ok (multicast_view d).
Proof.
  intros Hb. unfold parse_ip_multicast_datagram, multicast_view. destruct d as [|first rest]; [done|].
  set (d := first :: rest) in *. destruct (Z.eqb_spec (Z.shiftr first 4) 4) as [Hv|Hv].
  - unfold parse_ipv4_multicast_datagram, v4_view, IPV4_MIN_HEADER_LEN. rewrite (Z.leb_antisym (len d) 20).
    destruct (Z.ltb_spec (len d) 20) as [Hl|Hl]; cbn [negb andb]; [done|].
    rewrite (idx_at d 0) by lia. cbn [mbind res_bind]. change (Z.to_nat 0) with 0%nat. set (ihl := Z.land (byte_at d 0) 15 * 4).
    rewrite (Z.leb_antisym ihl 20), (Z.leb_antisym (len d) ihl).
    destruct (Z.ltb_spec ihl 20) as [Hi|Hi]; cbn [negb andb orb]; [done|].
    destruct (Z.ltb_spec (len d) ihl) as [Hi'|Hi']; cbn [negb andb orb]; [done|].
    rewrite (word_at_ok d 2) by lia. cbn [mbind res_bind]. change (Z.to_nat 2) with 2%nat.
    rewrite (Z.leb_antisym (word_at d 2) ihl), (Z.leb_antisym (len d) (word_at d 2)).
    destruct (Z.ltb_spec (word_at d 2) ihl) as [Ht|Ht]; cbn [negb andb orb]; [done|].
    destruct (Z.ltb_spec (len d) (word_at d 2)) as [Ht'|Ht']; cbn [negb andb orb]; [done|].
    rewrite !v4_from_ok by lia. cbn [mbind res_bind]. change (Z.to_nat 16) with 16%nat. change (Z.to_nat 12) with 12%nat.
    destruct (v4_is_multicast _); cbn [negb]; [|done]. rewrite (idx_at d 9), slice_ok by lia. cbn [mbind res_bind].
    by rewrite parse_udp_dst_port_eq.
  - destruct (Z.eqb_spec (Z.shiftr first 4) 6) as [Hv'|Hv']; [|done].
    unfold parse_ipv6_multicast_datagram, v6_view, IPV6_HEADER_LEN. rewrite (Z.leb_antisym (len d) 40).
    destruct (Z.ltb_spec (len d) 40) as [Hl|Hl]; cbn [negb andb]; [done|].
    rewrite (word_at_ok d 4) by lia. cbn [mbind res_bind]. change (Z.to_nat 4) with 4%nat.
    rewrite (Z.leb_antisym (len d) (40 + word_at d 4)). destruct (Z.ltb_spec (len d) (40 + word_at d 4)) as [Ht|Ht]; cbn [negb andb]; [done|].
    pose proof (word_at_nonneg d 4 Hb) as Hw. rewrite !slice_ok by lia. cbn [mbind res_bind].
    destruct (v6_is_multicast _); cbn [negb]; [|done]. rewrite (idx_at d 6) by lia. cbn [mbind res_bind].
    by rewrite parse_udp_dst_port_eq.
Qed.

(** A packet that the gateway accepts from the tunnel is a datagram that can be published, whole and with
    the same source and group. *)
Definition same_packet (d : list Z) (p : MulticastPacket) (m : IpMulticastDatagram) : Prop :=
  im_source m = mp_source p ∧ im_group m = mp_group p ∧ im_ip_protocol m = mp_ip_protocol p ∧
  im_datagram_len m = len d ∧ im_family m = match mp_group p with V4 _ => Ipv4Family | V6 _ => Ipv6Family end.

Lemma accepted_v4_view d p : bytes d → parse_ipv4 d = Ok p → ∃ m, v4_view d = Some m ∧ same_packet d p m.
Proof.
  intros Hb. unfold parse_ipv4, v4_view, IPV4_MIN_HEADER_LEN.
  destruct (Z.ltb_spec (len d) 20) as [Hl|Hl]; [done|]. rewrite (idx_at d 0) by lia. cbn [mbind res_bind].
  change (Z.to_nat 0) with 0%nat. set (ihl := Z.land (byte_at d 0) 15 * 4).
  destruct ((ihl <? 20) || (len d <? ihl)) eqn:Hi; [done|]. rewrite (word_at_ok d 2) by lia. cbn [mbind res_bind]. change (Z.to_nat 2) with 2%nat.
  destruct ((word_at d 2 <? ihl) || negb (word_at d 2 =? len d)) eqn:Ht; [done|]. rewrite slice_to_ok by lia. cbn [mbind res_bind].
  destruct (Checksum.ones_complement_sum _ =? _); cbn [negb]; [|done].
  rewrite !v4_from_ok by lia. cbn [mbind res_bind]. change (Z.to_nat 16) with 16%nat. change (Z.to_nat 12) with 12%nat.
  unfold validate_addresses. destruct (_ || _ || _) eqn:Hs; cbn [ip_is_multicast mbind res_bind]; [done|].
  destruct (v4_is_multicast (v4_from d 16)) eqn:Hg; cbn [negb mbind res_bind]; [|done].
  rewrite (word_at_ok d 6), (idx_at d 9) by lia. cbn [mbind res_bind]. intros [= <-].
  assert (word_at d 2 = len d) as Htl by lia. eexists.
  rewrite !(proj2 (Z.leb_le _ _)) by lia. split; [by rewrite ?Hg|by split_and!].
Qed.
Lemma accepted_v6_view d p : bytes d → parse_ipv6 d = Ok p → ∃ m, v6_view d = Some m ∧ same_packet d p m.
Proof.
  intros Hb. unfold parse_ipv6, v6_view, IPV6_HEADER_LEN.
  destruct (Z.ltb_spec (len d) 40) as [Hl|Hl]; [done|]. rewrite (word_at_ok d 4) by lia. cbn [mbind res_bind].
  change (Z.to_nat 4) with 4%nat. unfold checked_add. destruct (_ <=? USIZE_MAX); [|done]. cbn [ok_or mbind res_bind].
  destruct (Z.eqb_spec (40 + word_at d 4) (len d)) as [Ht|Ht]; cbn [negb]; [|done]. rewrite !slice_ok by lia. cbn [mbind res_bind].
  unfold validate_addresses. destruct (_ || _) eqn:Hs; cbn [ip_is_multicast mbind res_bind]; [done|].
  destruct (v6_is_multicast (mkIpv6 (sub d 24 40))) eqn:Hg; cbn [negb mbind res_bind]; [|done].
  rewrite (idx_at d 6) by lia. cbn [mbind res_bind]. intros [= <-]. eexists.
  rewrite !(proj2 (Z.leb_le _ _)) by lia. split; [by rewrite ?Hg|by split_and!].
Qed.
Lemma accepted_view d p : bytes d → parse_multicast_packet d = Ok p → ∃ m, multicast_view d = Some m ∧ same_packet d p m.
Proof.
  intros Hb. unfold parse_multicast_packet, multicast_view. destruct d as [|first rest]; [done|].
  destruct (_ =? 4); [by apply accepted_v4_view|]. destruct (_ =? 6); [by apply accepted_v6_view|done].
Qed.

Lemma view_len d m : bytes d → multicast_view d = Some m → 0 <= im_datagram_len m <= len d.
Proof.
  intros Hb. unfold multicast_view. destruct d as [|first rest]; [done|]. set (d := first :: rest) in *.
  destruct (_ =? 4).
  - unfold v4_view. destruct (_ && _) eqn:H; [|done]. intros [= <-]. cbn. pose proof (word_at_nonneg d 2 Hb). zbool. lia.
  - destruct (_ =? 6); [|done]. unfold v6_view. destruct (_ && _) eqn:H; [|done]. intros [= <-]. cbn.
    pose proof (word_at_nonneg d 4 Hb). zbool. lia.
Qed.

(** * The publisher *)

(** What the publisher relies on: calls return; [opened] are the publications of a context, [sent] what was handed to
    them. *)
Class RawContextLaws {C X} `{!RawContext C X} (opened : C → gmap Z RawPublicationConfig) (sent : C → list (Z * list Z)) : Prop := {
  raw_validate_returns config : returns (raw_validate config);
  add_publication_ok config c :
    mwp (add_publication config)
      (λ id c', opened c !! id = None ∧ opened c' = <[id := config]> (opened c) ∧ sent c' = sent c)
      (λ _ c', opened c' = opened c ∧ sent c' = sent c) c;
  send_raw_ok id packet c :
    mwp (send_raw id packet) (λ _ c', opened c' = opened c ∧ sent c' = sent c ++ [(id, packet)])
      (λ _ c', opened c' = opened c ∧ sent c' = sent c) c
}.

Section laws.
Context {C X : Type} `{!RawContext C X} (opened : C → gmap Z RawPublicationConfig) (sent : C → list (Z * list Z)).
Context `{!RawContextLaws opened sent}.
Implicit Types p : DownstreamPublisher C.

(** Every publication was opened for its family, with the configuration that was checked. *)
Definition publisher_ok p : Prop :=
  ∀ family id, dp_publications p !! family = Some id →
    opened (dp_context p) !! id = Some (build_publication_config (dp_config p) family) ∧
    validate_for_family (dp_config p) family = Ok tt.

Lemma mwp_on_raw {A} (m : M C X A) (Q : A → DownstreamPublisher C → Prop) (R : DownstreamError X → DownstreamPublisher C → Prop) p :
  mwp m (λ a c, Q a (mkPublisher (dp_config p) c (dp_publications p)))
        (λ e c, R (SendFailure e) (mkPublisher (dp_config p) c (dp_publications p))) (dp_context p) →
  mwp (on_raw m) Q R p.
Proof. unfold mwp, on_raw. by destruct (m (dp_context p)) as [[] ?]. Qed.

Lemma publisher_ok_context p c :
  publisher_ok p → opened c = opened (dp_context p) → publisher_ok (mkPublisher (dp_config p) c (dp_publications p)).
Proof. intros Hp Hc family id Hf. cbn in *. rewrite Hc. by apply Hp. Qed.

Lemma validate_options_returns c family : returns (validate_options_for_family c family).
Proof.
  unfold validate_options_for_family. destruct (negb _); [done|]. destruct (bool_decide (dc_interface_index c = Some 0)); [done|].
  destruct family; [destruct (dc_interface_index c)|]; try done; by destruct (_ && _).
Qed.
Lemma publication_config_wp c family :
  wp (publication_config (X:=X) (C:=C) c family)
    (λ config, config = build_publication_config c family ∧ validate_for_family (X:=X) (C:=C) c family = Ok tt)
    (λ e, validate_for_family (X:=X) (C:=C) c family = Err e).
Proof.
  unfold publication_config. assert (returns (validate_for_family (X:=X) (C:=C) c family)) as Hr.
  { unfold validate_for_family. pose proof (validate_options_returns c family) as Ho.
    destruct (validate_options_for_family c family); try done. cbn [mbind res_bind].
    pose proof (raw_validate_returns (build_publication_config c family)) as Hv.
    destruct (uses_route_selected_egress c && _); [done|].
    destruct (bool_decide (family = Ipv6Family) && _); [done|]. by destruct (raw_validate _). }
  by destruct (validate_for_family c family) as [[]|e| |].
Qed.

Definition same_publications p p' : Prop :=
  opened (dp_context p') = opened (dp_context p) ∧ dp_publications p' = dp_publications p.
(** The publication of a family is opened when there is none, and only then: one publication, with the checked
    configuration, which is remembered for the family. *)
Definition opened_once (family : PublicationAddressFamily) p p' : Prop :=
  match dp_publications p !! family with
  | Some _ => same_publications p p'
  | None =>
      ∃ id, opened (dp_context p) !! id = None ∧ validate_for_family (X:=X) (C:=C) (dp_config p) family = Ok tt ∧
        opened (dp_context p') = <[id := build_publication_config (dp_config p) family]> (opened (dp_context p)) ∧
        dp_publications p' = <[family := id]> (dp_publications p)
  end.

Lemma publication_for_wp family p :
  publisher_ok p →
  mwp (publication_for family)
    (λ id p', publisher_ok p' ∧ dp_config p' = dp_config p ∧ dp_publications p' !! family = Some id ∧
              sent (dp_context p') = sent (dp_context p) ∧ opened_once family p p')
    (λ e p', publisher_ok p' ∧ dp_config p' = dp_config p ∧ sent (dp_context p') = sent (dp_context p) ∧
             same_publications p p' ∧
             match e with
             | Configuration error => p' = p ∧ validate_for_family (X:=X) (C:=C) (dp_config p) family = Err error
             | SendFailure _ => True
             end) p.
Proof.
  intros Hp. unfold publication_for. mwp_step. unfold get_publisher. apply (mwp_pure (Ok p)). cbn [wp].
  unfold opened_once, same_publications. destruct (dp_publications p !! family) as [id|] eqn:Hf; [by mwp_step; split_and!; auto|].
  mwp_step. mwp_step. apply wp_map_err. eapply wp_mono; [apply publication_config_wp|..]; [|done].
  intros config [-> Hv]. mwp_step. apply mwp_on_raw. eapply mwp_mono; [apply add_publication_ok|..].
  - intros id c (Hid & Ho & Hs). mwp_step. apply (mwp_pure (Ok tt)). cbn [wp]. mwp_step. cbn.
    split; [|split_and!; [done|by rewrite lookup_insert_eq|done|by exists id]].
    intros family' id'. cbn. rewrite Ho. destruct (decide (family' = family)) as [->|Hne].
    + rewrite lookup_insert_eq. intros [= <-]. by rewrite lookup_insert_eq.
    + rewrite lookup_insert_ne by done. intros Hf'. destruct (Hp _ _ Hf') as [H1 H2].
      split; [|done]. rewrite lookup_insert_ne; [done|]. intros ->. congruence.
  - intros e c [Ho Hs]. split_and!; try done. by apply publisher_ok_context.
Qed.

(** What a call has done: a datagram that is not multicast is left alone; otherwise it was handed, without what follows
    its length, to the publication of its family. *)
Definition published (d : list Z) p p' (r : option DownstreamForward) : Prop :=
  match multicast_view d, r with
  | None, None => p' = p
  | Some m, Some f =>
      let packet := take (Z.to_nat (im_datagram_len m)) d in
      opened_once (im_family m) p p' ∧ ∃ id n, dp_publications p' !! im_family m = Some id ∧
        sent (dp_context p') = sent (dp_context p) ++ [(id, packet)] ∧
        f = mkForward (im_source m) (im_group m) (im_ip_protocol m) (im_udp_dst_port m) (im_datagram_len m) n
  | _, _ => False
  end.
Definition not_published (d : list Z) p p' (e : DownstreamError X) : Prop :=
  sent (dp_context p') = sent (dp_context p) ∧
  match e with
  | Configuration error =>
      p' = p ∧ ∃ m, multicast_view d = Some m ∧ validate_for_family (X:=X) (C:=C) (dp_config p) (im_family m) = Err error
  | SendFailure _ => ∃ m, multicast_view d = Some m ∧ (same_publications p p' ∨ opened_once (im_family m) p p')
  end.

Lemma opened_once_context family p p1 c :
  opened_once family p p1 → opened c = opened (dp_context p1) →
  opened_once family p (mkPublisher (dp_config p1) c (dp_publications p1)).
Proof. unfold opened_once, same_publications. cbn. by intros Ho ->. Qed.

Lemma forward_ip_datagram_wp d p :
  publisher_ok p → bytes d →
  mwp (forward_ip_datagram d)
    (λ r p', publisher_ok p' ∧ dp_config p' = dp_config p ∧ published d p p' r)
    (λ e p', publisher_ok p' ∧ dp_config p' = dp_config p ∧ not_published d p p' e) p.
Proof.
  intros Hp Hb. unfold forward_ip_datagram, published, not_published. mwp_step. mwp_step. rewrite parse_ip_multicast_eq by done. cbn [wp].
  destruct (multicast_view d) as [m|] eqn:Hm; [|by mwp_step]. pose proof (view_len d m Hb Hm) as Hl.
  mwp_step. eapply mwp_mono; [by apply publication_for_wp|..].
  - intros id p1 (Hp1 & Hc1 & Hid & Hs1 & Ho1). mwp_step. mwp_step. rewrite slice_to_ok by done. cbn [wp].
    mwp_step. apply mwp_on_raw. eapply mwp_mono; [apply send_raw_ok|..].
    + intros n c [Ho Hs]. mwp_step. split; [by apply publisher_ok_context|]. split; [done|]. split; [by apply opened_once_context|]. exists id, n. cbn.
      split; [done|]. split; [by rewrite Hs, Hs1|]. f_equal. len_lia.
    + intros e c [Ho Hs]. split; [by apply publisher_ok_context|]. split; [done|]. split; [cbn; congruence|].
      exists m. split; [done|]. right. by apply opened_once_context.
  - intros e p1 (Hp1 & Hc1 & Hs1 & Ho1 & He). split; [done|]. split; [done|]. split; [done|].
    destruct e; [|exists m; split; [done|by left]]. destruct He as [-> He]. split; [done|]. by exists m.
Qed.
End laws.

(** * The properties *)

(** C31: the publisher of a gateway hands each multicast datagram, cut to the length its header states, to the
    publication of its family and to nothing else; it opens a publication for a family only when it has none, one
    only, after its configuration has passed every check, and keeps using it: while a family has a publication no
    other is opened, and those of the other family are left alone; other datagrams and errors leave what was sent
    as it was. *)
Theorem downstream_publishes_exactly {C X} `{!RawContext C X} opened sent `{!RawContextLaws opened sent}
    d (p : DownstreamPublisher C) :
  publisher_ok (X:=X) opened p → bytes d →
  mwp (forward_ip_datagram d)
    (λ r p', publisher_ok (X:=X) opened p' ∧ dp_config p' = dp_config p ∧ published (X:=X) opened sent d p p' r)
    (λ e p', publisher_ok (X:=X) opened p' ∧ dp_config p' = dp_config p ∧ not_published opened sent d p p' e) p.
Proof. intros Hp Hb. by apply forward_ip_datagram_wp. Qed.

(** every packet the gateway accepts from the tunnel is published: it is multicast for the publisher too, whole,
    with the source, group and protocol that the gateway saw. *)
Theorem accepted_packets_publishable {E} d p :
  bytes d → parse_multicast_packet d = Ok p →
  ∃ m, parse_ip_multicast_datagram (E:=E) d = Ok (Some m) ∧ same_packet d p m.
Proof.
  intros Hb Hp. destruct (accepted_view d p Hb Hp) as (m & Hm & Hs). exists m. by rewrite parse_ip_multicast_eq, Hm by done.
Qed.

(** * Witnesses *)

Record demo_raw := mkDemoRaw { dr_opened : gmap Z RawPublicationConfig; dr_sent : list (Z * list Z) }.
#[export] Instance demo_raw_world : RawContext demo_raw string := {|
  route_egress_supported family := match family with Ipv4Family => true | Ipv6Family => false end;
  ipv6_preserves_full_header _ := true;
  raw_validate _ := Ok tt;
  add_publication config c :=
    let id := Z.of_nat (size (dr_opened c)) in
    match dr_opened c !! id with
    | Some _ => (Err "in use"%string, c)
    | None => (Ok id, mkDemoRaw (<[id := config]> (dr_opened c)) (dr_sent c))
    end;
  send_raw id packet c := (Ok (len packet), mkDemoRaw (dr_opened c) (dr_sent c ++ [(id, packet)]))
|}.
#[export] Instance demo_raw_laws : RawContextLaws dr_opened dr_sent.
Proof.
  split; [done| |done]. intros config c. unfold mwp. cbn. by destruct (dr_opened c !! _) eqn:Hid.
Qed.

Definition demo_publisher : DownstreamPublisher demo_raw :=
  new_publisher (mkDownstreamConfig None None None) (mkDemoRaw ∅ []).
Lemma demo_publisher_ok : publisher_ok (X:=string) dr_opened demo_publisher.
Proof. intros family id H. vm_compute in H. done. Qed.

Lemma downstream_publishes_exactly_witness :
  dr_sent (dp_context (forward_ip_datagram demo_packet demo_publisher).2) = [(0, demo_packet)] ∧
  publisher_ok (X:=string) dr_opened (forward_ip_datagram demo_packet demo_publisher).2.
Proof.
  split; [by vm_compute|].
  pose proof (downstream_publishes_exactly (X:=string) dr_opened dr_sent demo_packet demo_publisher demo_publisher_ok demo_packet_bytes) as H.
  unfold mwp in H. destruct (forward_ip_datagram demo_packet demo_publisher) as [[r|e| |] p']; [exact (proj1 H)..|destruct H|destruct H].
Defined.

Lemma accepted_packets_publishable_witness :
  match parse_multicast_packet demo_packet with
  | Ok p => ∃ m, parse_ip_multicast_datagram (E:=unit) demo_packet = Ok (Some m) ∧ im_group m = mp_group p
  | _ => False
  end.
Proof.
  destruct (parse_multicast_packet demo_packet) as [p|e| |] eqn:Hp; [|by vm_compute in Hp..].
  destruct (accepted_packets_publishable (E:=unit) demo_packet p demo_packet_bytes Hp) as (m & Hm & _ & Hg & _). eauto.
Defined.
