(* ===== verification/Worker.v ===== *)
(** The capture thread of the relay, [src/upstream_worker.rs], and the way the
    relay's own thread uses it.

    The two threads share a bounded queue of packets, a queue of commands, the
    atomic counters, the failure text and the poller that wakes the relay's thread.
    Every access to one of these is a step of its own, so that a run is any
    interleaving of the accesses of the two threads; [exec] runs a schedule.
    The worker is the whole of [run_worker]; the relay's thread makes any sequence
    of calls on the [WorkerHandle], and blocks in the poller only after a snapshot
    that shows an empty queue, as the loop of [run_relay] does. *)

From S2P Require Import Prelude Net Effects State Upstream Forward.

Definition UPSTREAM_PACKET_QUEUE_CAPACITY : Z := 4096.
Definition COMMAND_QUEUE_CAPACITY : Z := 8.
Definition MAX_CAPTURE_BURST : Z := 256.
Definition CAPTURE_FAIRNESS_BUDGET : Z := 1000000.
Definition MIN_CAPTURE_POLL_INTERVAL : Z := 250000.
Definition MAX_CAPTURE_POLL_INTERVAL : Z := 2000000.

(** 64-bit atomics wrap around. *)
Definition ATOMIC_MODULUS : Z := 18446744073709551616.
Definition fetch_add (x d : Z) : Z := (x + d) mod ATOMIC_MODULUS.
Definition fetch_sub (x d : Z) : Z := (x - d) mod ATOMIC_MODULUS.

Record UpstreamWorkerCounters := mkCounters {
  accepted_packets : Z;
  accepted_bytes : Z;
  queue_drops : Z;
  failures : Z;
  queue_depth : Z;
  queue_high_water : Z;
  active_subscriptions : Z;
  capture_sockets : Z
}.
Definition default_counters : UpstreamWorkerCounters := mkCounters 0 0 0 0 0 0 0 0.

Definition count_packet (c : UpstreamWorkerCounters) : UpstreamWorkerCounters :=
  mkCounters (fetch_add (accepted_packets c) 1) (accepted_bytes c) (queue_drops c) (failures c) (queue_depth c)
    (queue_high_water c) (active_subscriptions c) (capture_sockets c).
Definition count_bytes (n : Z) (c : UpstreamWorkerCounters) : UpstreamWorkerCounters :=
  mkCounters (accepted_packets c) (fetch_add (accepted_bytes c) n) (queue_drops c) (failures c) (queue_depth c)
    (queue_high_water c) (active_subscriptions c) (capture_sockets c).
Definition count_drop (c : UpstreamWorkerCounters) : UpstreamWorkerCounters :=
  mkCounters (accepted_packets c) (accepted_bytes c) (fetch_add (queue_drops c) 1) (failures c) (queue_depth c)
    (queue_high_water c) (active_subscriptions c) (capture_sockets c).
Definition count_failure (c : UpstreamWorkerCounters) : UpstreamWorkerCounters :=
  mkCounters (accepted_packets c) (accepted_bytes c) (queue_drops c) (fetch_add (failures c) 1) (queue_depth c)
    (queue_high_water c) (active_subscriptions c) (capture_sockets c).
Definition set_depth (depth : Z) (c : UpstreamWorkerCounters) : UpstreamWorkerCounters :=
  mkCounters (accepted_packets c) (accepted_bytes c) (queue_drops c) (failures c) depth
    (queue_high_water c) (active_subscriptions c) (capture_sockets c).
Definition raise_high_water (depth : Z) (c : UpstreamWorkerCounters) : UpstreamWorkerCounters :=
  mkCounters (accepted_packets c) (accepted_bytes c) (queue_drops c) (failures c) (queue_depth c)
    (Z.max (queue_high_water c) depth) (active_subscriptions c) (capture_sockets c).
Definition store_active (n : Z) (c : UpstreamWorkerCounters) : UpstreamWorkerCounters :=
  mkCounters (accepted_packets c) (accepted_bytes c) (queue_drops c) (failures c) (queue_depth c)
    (queue_high_water c) n (capture_sockets c).
Definition store_sockets (n : Z) (c : UpstreamWorkerCounters) : UpstreamWorkerCounters :=
  mkCounters (accepted_packets c) (accepted_bytes c) (queue_drops c) (failures c) (queue_depth c)
    (queue_high_water c) (active_subscriptions c) n.

(** [reserve_queue_slot]: was the queue empty, and the depth reserved. *)
Definition reserve_queue_slot (c : UpstreamWorkerCounters) : (bool * Z) * UpstreamWorkerCounters :=
  let previous := queue_depth c in
  ((previous =? 0, previous + 1), set_depth (fetch_add previous 1) c).
(** [commit_queue_slot] reads the depth, then raises the high-water mark: its first half. *)
Definition committed_depth (reserved_depth : Z) (c : UpstreamWorkerCounters) : Z := Z.min reserved_depth (queue_depth c).
Definition release_queue_slot (c : UpstreamWorkerCounters) : UpstreamWorkerCounters :=
  set_depth (fetch_sub (queue_depth c) 1) c.
Definition record_dequeued (c : UpstreamWorkerCounters) : UpstreamWorkerCounters :=
  set_depth (fetch_sub (queue_depth c) 1) c.

(** The trait [CaptureSource]. *)
Class CaptureSource (S P : Type) := {
  source_reconcile : list UpstreamSubscription → M S string UpstreamReconcile;
  source_try_recv : M S string (option P);
  packet_len : P → Z;
  active_subscription_count : S → Z;
  capture_socket_count : S → Z
}.

(** Its implementation for [UpstreamManager]; the errors of the capture library have
    a text, and its context knows how many sockets it holds. *)
Definition manager_capture {C X} `{!RawReceiveContext C X} (to_string : X → string) (sockets : C → Z) :
    CaptureSource (UpstreamManager C) UpstreamDatagram := {|
  source_reconcile := λ subscriptions, mmap_err to_string (reconcile subscriptions);
  source_try_recv := mmap_err to_string try_recv;
  packet_len := λ packet, len (rp_datagram (ud_packet packet));
  active_subscription_count := λ u, Z.of_nat (size (um_active u));
  capture_socket_count := λ u, sockets (um_context u)
|}.

(** What the source answers to a command. *)
Definition reconcile_answer : Type := res string UpstreamReconcile.
Inductive UpstreamCommand :=
| CmdReconcile (subscriptions : list UpstreamSubscription)
| CmdShutdown.
Definition command_subscriptions (c : UpstreamCommand) : list UpstreamSubscription :=
  match c with CmdReconcile subscriptions => subscriptions | CmdShutdown => [] end.
Definition is_shutdown (c : UpstreamCommand) : bool :=
  match c with CmdReconcile _ => false | CmdShutdown => true end.

(** A capture burst: whether a command was handled before it, when it started, and
    how many packets it has received. *)
Record Burst := mkBurst { b_handled : bool; b_started : Z; b_received : Z }.

(** Where the worker is. A command is handled from the loop over [try_recv]
    ([again = true]) or after the blocking receive. *)
Inductive WorkerPc (P : Type) :=
| WCommands (handled_command : bool)
| WCommand (command : UpstreamCommand) (again : bool)
| WStoreActive (result : reconcile_answer) (shutdown again : bool)
| WStoreSockets (result : reconcile_answer) (shutdown again : bool)
| WRespond (result : reconcile_answer) (shutdown again : bool)
| WStart (handled_command : bool)
| WCapture (b : Burst)
| WCountPacket (b : Burst) (packet : P)
| WCountBytes (b : Burst) (packet : P)
| WReserve (b : Burst) (packet : P)
| WSend (b : Burst) (packet : P) (was_empty : bool) (reserved_depth : Z)
| WCommit (b : Burst) (was_empty : bool) (reserved_depth : Z)
| WHighWater (b : Burst) (was_empty : bool) (depth : Z)
| WNotify (b : Burst)
| WReleaseFull (b : Burst)
| WCountDrop (b : Burst)
| WReleaseDisconnected
| WCountFailure (error : string) (notify : bool)
| WStoreFailure (error : string) (notify : bool)
| WNotifyFailure
| WBlocked (deadline : option Z)
| WExit
| WPanicked.
Arguments WCommands {P} _.
Arguments WCommand {P} _ _.
Arguments WStoreActive {P} _ _ _.
Arguments WStoreSockets {P} _ _ _.
Arguments WRespond {P} _ _ _.
Arguments WStart {P} _.
Arguments WCapture {P} _.
Arguments WCountPacket {P} _ _.
Arguments WCountBytes {P} _ _.
Arguments WReserve {P} _ _.
Arguments WSend {P} _ _ _ _.
Arguments WCommit {P} _ _ _.
Arguments WHighWater {P} _ _ _.
Arguments WNotify {P} _.
Arguments WReleaseFull {P} _.
Arguments WCountDrop {P} _.
Arguments WReleaseDisconnected {P}.
Arguments WCountFailure {P} _ _.
Arguments WStoreFailure {P} _ _.
Arguments WNotifyFailure {P}.
Arguments WBlocked {P} _.
Arguments WExit {P}.
Arguments WPanicked {P}.

(** What the calls of the relay's thread return. *)
Inductive CallResult (P : Type) :=
| RSpawned
| RRecv (r : res string (option P))
| RReconcile (subscriptions : list UpstreamSubscription) (r : res string UpstreamReconcile)
| RSnapshot (s : UpstreamWorkerCounters)
| RFailure (r : res string unit)
| RWoken
| RStopped (r : res string unit).
Arguments RSpawned {P}.
Arguments RRecv {P} _.
Arguments RReconcile {P} _ _.
Arguments RSnapshot {P} _.
Arguments RFailure {P} _.
Arguments RWoken {P}.
Arguments RStopped {P} _.

(** Where the relay's thread is: between calls, or inside one. *)
Inductive MainPc (P : Type) :=
| MReturn (r : CallResult P)
| MTryRecv
| MDequeue (packet : P)
| MEmpty
| MDisconnected
| MReconcile (subscriptions : list UpstreamSubscription)
| MSendCommand (subscriptions : list UpstreamSubscription)
| MAwait (subscriptions : list UpstreamSubscription)
| MNoAnswer (subscriptions : list UpstreamSubscription)
| MSnapshot (field : nat) (s : UpstreamWorkerCounters)
| MCheckFailure
| MWaiting
| MStop
| MStopAwait
| MJoin (cleanup : option (option reconcile_answer))
| MStopCheck
| MDropped.
Arguments MReturn {P} _.
Arguments MTryRecv {P}.
Arguments MDequeue {P} _.
Arguments MEmpty {P}.
Arguments MDisconnected {P}.
Arguments MReconcile {P} _.
Arguments MSendCommand {P} _.
Arguments MAwait {P} _.
Arguments MNoAnswer {P} _.
Arguments MSnapshot {P} _ _.
Arguments MCheckFailure {P}.
Arguments MWaiting {P}.
Arguments MStop {P}.
Arguments MStopAwait {P}.
Arguments MJoin {P} _.
Arguments MStopCheck {P}.
Arguments MDropped {P}.

Inductive Call :=
| CallTryRecv
| CallReconcile (subscriptions : list UpstreamSubscription)
| CallSnapshot
| CallCheckFailure
| CallWait
| CallStop
| CallDrop.

(** The worker's own variables. *)
Record Worker (S P : Type) := mkWorker { w_pc : WorkerPc P; w_source : S; w_poll_interval : Z }.
(** What the threads share: [sh_response] is the response channel of the command in
    flight, [sh_notified] the pending notification of the poller. *)
Record Shared (P : Type) := mkShared {
  sh_now : Z;
  sh_counters : UpstreamWorkerCounters;
  sh_failure : option string;
  sh_notified : bool;
  sh_commands : list UpstreamCommand;
  sh_response : option reconcile_answer;
  sh_packets : list P
}.
(** The relay's thread: [m_seen_depth] is the queue depth of the last snapshot, until the
    next packet is asked for; [m_thread] tells whether the handle still holds the thread. *)
Record Main (P : Type) := mkMain { m_pc : MainPc P; m_seen_depth : option Z; m_thread : bool }.
(** What has happened, in order: packets captured, dropped because the queue was full, and
    taken by the relay's thread; subscriptions the source has accepted, and those
    whose acceptance the relay's thread has seen. *)
Record History (P : Type) := mkHistory {
  h_captured : list P;
  h_dropped : list P;
  h_delivered : list P;
  h_granted : list (list UpstreamSubscription);
  h_acknowledged : list (list UpstreamSubscription)
}.
Record Threads (S P : Type) := mkThreads {
  t_worker : Worker S P;
  t_shared : Shared P;
  t_main : Main P;
  t_history : History P
}.
Arguments mkWorker {S P} _ _ _.
Arguments w_pc {S P} _.
Arguments w_source {S P} _.
Arguments w_poll_interval {S P} _.
Arguments mkShared {P} _ _ _ _ _ _ _.
Arguments sh_now {P} _.
Arguments sh_counters {P} _.
Arguments sh_failure {P} _.
Arguments sh_notified {P} _.
Arguments sh_commands {P} _.
Arguments sh_response {P} _.
Arguments sh_packets {P} _.
Arguments mkMain {P} _ _ _.
Arguments m_pc {P} _.
Arguments m_seen_depth {P} _.
Arguments m_thread {P} _.
Arguments mkHistory {P} _ _ _ _ _.
Arguments h_captured {P} _.
Arguments h_dropped {P} _.
Arguments h_delivered {P} _.
Arguments h_granted {P} _.
Arguments h_acknowledged {P} _.
Arguments mkThreads {S P} _ _ _ _.
Arguments t_worker {S P} _.
Arguments t_shared {S P} _.
Arguments t_main {S P} _.
Arguments t_history {S P} _.

Section threads.
Context {S P : Type} `{!CaptureSource S P}.
Implicit Types (w : Worker S P) (s : Shared P) (m : Main P) (h : History P) (t : Threads S P).

Definition at_pc (pc : WorkerPc P) w : Worker S P := mkWorker pc (w_source w) (w_poll_interval w).
Definition with_counters (c : UpstreamWorkerCounters) s : Shared P :=
  mkShared (sh_now s) c (sh_failure s) (sh_notified s) (sh_commands s) (sh_response s) (sh_packets s).
Definition with_failure (failure : option string) s : Shared P :=
  mkShared (sh_now s) (sh_counters s) failure (sh_notified s) (sh_commands s) (sh_response s) (sh_packets s).
Definition with_notified (notified : bool) s : Shared P :=
  mkShared (sh_now s) (sh_counters s) (sh_failure s) notified (sh_commands s) (sh_response s) (sh_packets s).
Definition with_commands (commands : list UpstreamCommand) (response : option reconcile_answer) s : Shared P :=
  mkShared (sh_now s) (sh_counters s) (sh_failure s) (sh_notified s) commands response (sh_packets s).
Definition with_packets (packets : list P) s : Shared P :=
  mkShared (sh_now s) (sh_counters s) (sh_failure s) (sh_notified s) (sh_commands s) (sh_response s) packets.
Definition captured (p : P) h : History P :=
  mkHistory (h_captured h ++ [p]) (h_dropped h) (h_delivered h) (h_granted h) (h_acknowledged h).
Definition dropped (p : P) h : History P :=
  mkHistory (h_captured h) (h_dropped h ++ [p]) (h_delivered h) (h_granted h) (h_acknowledged h).
Definition delivered (p : P) h : History P :=
  mkHistory (h_captured h) (h_dropped h) (h_delivered h ++ [p]) (h_granted h) (h_acknowledged h).
Definition granted (l : list UpstreamSubscription) h : History P :=
  mkHistory (h_captured h) (h_dropped h) (h_delivered h) (h_granted h ++ [l]) (h_acknowledged h).
Definition acknowledged (l : list UpstreamSubscription) h : History P :=
  mkHistory (h_captured h) (h_dropped h) (h_delivered h) (h_granted h) (h_acknowledged h ++ [l]).

(** The end of a round of [run_worker]: go on at once, or wait for a command. *)
Definition after_burst (b : Burst) (now : Z) w : Worker S P :=
  if negb (b_received b =? 0) then mkWorker (WCommands false) (w_source w) MIN_CAPTURE_POLL_INTERVAL
  else if b_handled b then at_pc (WCommands false) w
  else if active_subscription_count (w_source w) =? 0 then at_pc (WBlocked None) w
  else at_pc (WBlocked (Some (now + w_poll_interval w))) w.

(** [record_failure]: the first failure is kept. *)
Definition record_failure (error : string) (failure : option string) : option string :=
  match failure with None => Some error | Some first => Some first end.

(** The next access of the worker; [io] is the outcome of a call of [Poller::notify], and
    [dropped_handle] tells that the other ends of the channels are gone. [None]: it is
    blocked or has ended. *)
Definition worker_step (capacity : Z) (io : option string) (dropped_handle : bool) w s h :
    option (Worker S P * Shared P * History P) :=
  match w_pc w with
  | WCommands handled_command =>
      match sh_commands s with
      | command :: rest => Some (at_pc (WCommand command true) w, with_commands rest (sh_response s) s, h)
      | [] => Some (at_pc (WStart handled_command) w, s, h)
      end
  | WCommand command again =>
      match source_reconcile (command_subscriptions command) (w_source w) with
      | (Ok r, source) =>
          Some (mkWorker (WStoreActive (Ok r) (is_shutdown command) again) source (w_poll_interval w), s,
                granted (command_subscriptions command) h)
      | (Err e, source) => Some (mkWorker (WStoreActive (Err e) (is_shutdown command) again) source (w_poll_interval w), s, h)
      | (_, source) => Some (mkWorker WPanicked source (w_poll_interval w), s, h)
      end
  | WStoreActive result shutdown again =>
      Some (at_pc (WStoreSockets result shutdown again) w,
            with_counters (store_active (active_subscription_count (w_source w)) (sh_counters s)) s, h)
  | WStoreSockets result shutdown again =>
      Some (at_pc (WRespond result shutdown again) w,
            with_counters (store_sockets (capture_socket_count (w_source w)) (sh_counters s)) s, h)
  | WRespond result shutdown again =>
      Some (at_pc (if shutdown then WExit else WCommands again) w, with_commands (sh_commands s) (Some result) s, h)
  | WStart handled_command => Some (at_pc (WCapture (mkBurst handled_command (sh_now s) 0)) w, s, h)
  | WCapture b =>
      if (b_received b <? MAX_CAPTURE_BURST) && (sh_now s - b_started b <? CAPTURE_FAIRNESS_BUDGET) then
        match source_try_recv (w_source w) with
        | (Ok (Some packet), source) =>
            Some (mkWorker (WCountPacket (mkBurst (b_handled b) (b_started b) (b_received b + 1)) packet) source
                    (w_poll_interval w), s, captured packet h)
        | (Ok None, source) => Some (after_burst b (sh_now s) (mkWorker (w_pc w) source (w_poll_interval w)), s, h)
        | (Err e, source) => Some (mkWorker (WCountFailure e true) source (w_poll_interval w), s, h)
        | (_, source) => Some (mkWorker WPanicked source (w_poll_interval w), s, h)
        end
      else Some (after_burst b (sh_now s) w, s, h)
  | WCountPacket b packet => Some (at_pc (WCountBytes b packet) w, with_counters (count_packet (sh_counters s)) s, h)
  | WCountBytes b packet =>
      Some (at_pc (WReserve b packet) w, with_counters (count_bytes (packet_len packet) (sh_counters s)) s, h)
  | WReserve b packet =>
      let '((was_empty, reserved_depth), counters) := reserve_queue_slot (sh_counters s) in
      Some (at_pc (WSend b packet was_empty reserved_depth) w, with_counters counters s, h)
  | WSend b packet was_empty reserved_depth =>
      if dropped_handle then Some (at_pc WReleaseDisconnected w, s, h)
      else if len (sh_packets s) <? capacity then
        Some (at_pc (WCommit b was_empty reserved_depth) w, with_packets (sh_packets s ++ [packet]) s, h)
      else Some (at_pc (WReleaseFull b) w, s, dropped packet h)
  | WCommit b was_empty reserved_depth =>
      Some (at_pc (WHighWater b was_empty (committed_depth reserved_depth (sh_counters s))) w, s, h)
  | WHighWater b was_empty depth =>
      Some (at_pc (if was_empty then WNotify b else WCapture b) w,
            with_counters (raise_high_water depth (sh_counters s)) s, h)
  | WNotify b =>
      match io with
      | None => Some (at_pc (WCapture b) w, with_notified true s, h)
      | Some error => Some (at_pc (WCountFailure error false) w, s, h)
      end
  | WReleaseFull b => Some (at_pc (WCountDrop b) w, with_counters (release_queue_slot (sh_counters s)) s, h)
  | WCountDrop b => Some (at_pc (WCapture b) w, with_counters (count_drop (sh_counters s)) s, h)
  | WReleaseDisconnected => Some (at_pc WExit w, with_counters (release_queue_slot (sh_counters s)) s, h)
  | WCountFailure error notify =>
      Some (at_pc (WStoreFailure error notify) w, with_counters (count_failure (sh_counters s)) s, h)
  | WStoreFailure error notify =>
      Some (at_pc (if notify then WNotifyFailure else WExit) w, with_failure (record_failure error (sh_failure s)) s, h)
  | WNotifyFailure =>
      Some (at_pc WExit w, match io with None => with_notified true s | Some _ => s end, h)
  | WBlocked deadline =>
      match sh_commands s with
      | command :: rest => Some (at_pc (WCommand command false) w, with_commands rest (sh_response s) s, h)
      | [] =>
          if dropped_handle then
            Some (mkWorker WExit (source_reconcile [] (w_source w)).2 (w_poll_interval w), s, h)
          else match deadline with
            | Some deadline =>
                if deadline <=? sh_now s then
                  Some (mkWorker (WCommands false) (w_source w)
                          (Z.min (w_poll_interval w * 2) MAX_CAPTURE_POLL_INTERVAL), s, h)
                else None
            | None => None
            end
      end
  | WExit | WPanicked => None
  end.

(** [check_failure] and [stopped_error]. *)
Definition check_failure (failure : option string) : res string unit :=
  match failure with
  | Some error => Err (String.append "upstream capture worker failed: " error)
  | None => Ok tt
  end.
Definition stopped_error (failure : option string) : string :=
  default "upstream capture worker stopped unexpectedly"%string failure.

Definition exited (pc : WorkerPc P) : bool := match pc with WExit | WPanicked => true | _ => false end.
Definition panicked (pc : WorkerPc P) : bool := match pc with WPanicked => true | _ => false end.

(** The [field]-th load of [UpstreamWorkerCounters::snapshot]. *)
Definition load_field (field : nat) (c s : UpstreamWorkerCounters) : UpstreamWorkerCounters :=
  match field with
  | 0%nat => mkCounters (accepted_packets c) (accepted_bytes s) (queue_drops s) (failures s) (queue_depth s)
           (queue_high_water s) (active_subscriptions s) (capture_sockets s)
  | 1%nat => mkCounters (accepted_packets s) (accepted_bytes c) (queue_drops s) (failures s) (queue_depth s)
           (queue_high_water s) (active_subscriptions s) (capture_sockets s)
  | 2%nat => mkCounters (accepted_packets s) (accepted_bytes s) (queue_drops c) (failures s) (queue_depth s)
           (queue_high_water s) (active_subscriptions s) (capture_sockets s)
  | 3%nat => mkCounters (accepted_packets s) (accepted_bytes s) (queue_drops s) (failures c) (queue_depth s)
           (queue_high_water s) (active_subscriptions s) (capture_sockets s)
  | 4%nat => set_depth (queue_depth c) s
  | 5%nat => mkCounters (accepted_packets s) (accepted_bytes s) (queue_drops s) (failures s) (queue_depth s)
           (queue_high_water c) (active_subscriptions s) (capture_sockets s)
  | 6%nat => store_active (active_subscriptions c) s
  | _ => store_sockets (capture_sockets c) s
  end.

Definition go (pc : MainPc P) m : Main P := mkMain pc (m_seen_depth m) (m_thread m).

(** A call is made: the thread is still held by the handle, except for the calls that
    [shutdown] and the drop of the handle make. *)
Definition start_call (c : Call) m : option (Main P) :=
  match c with
  | CallTryRecv => if m_thread m then Some (mkMain MTryRecv None true) else None
  | CallReconcile subscriptions => if m_thread m then Some (go (MReconcile subscriptions) m) else None
  | CallSnapshot => if m_thread m then Some (go (MSnapshot 0 default_counters) m) else None
  | CallCheckFailure => if m_thread m then Some (go MCheckFailure m) else None
  | CallWait => if m_thread m && bool_decide (m_seen_depth m = Some 0) then Some (go MWaiting m) else None
  | CallStop => Some (if m_thread m then mkMain MStop (m_seen_depth m) false else go MStopCheck m)
  | CallDrop => if m_thread m then None else Some (go MDropped m)
  end.

(** The next access of the relay's thread, with [pc] the state of the worker; [c] is the
    call it makes if it is between calls. [None]: it is blocked. *)
Definition main_step (pc : WorkerPc P) (c : Call) s m h : option (Shared P * Main P * History P) :=
  match m_pc m with
  | MReturn _ => (λ m, (s, m, h)) <$> start_call c m
  | MTryRecv =>
      match sh_packets s with
      | packet :: rest => Some (with_packets rest s, go (MDequeue packet) m, delivered packet h)
      | [] => Some (s, go (if exited pc then MDisconnected else MEmpty) m, h)
      end
  | MDequeue packet =>
      Some (with_counters (record_dequeued (sh_counters s)) s, go (MReturn (RRecv (Ok (Some packet)))) m, h)
  | MEmpty => Some (s, go (MReturn (RRecv (_ ← check_failure (sh_failure s); Ok None))) m, h)
  | MDisconnected => Some (s, go (MReturn (RRecv (Err (stopped_error (sh_failure s))))) m, h)
  | MReconcile subscriptions =>
      match check_failure (sh_failure s) with
      | Err error => Some (s, go (MReturn (RReconcile subscriptions (Err error))) m, h)
      | _ => Some (s, go (MSendCommand subscriptions) m, h)
      end
  | MSendCommand subscriptions =>
      if exited pc then Some (s, go (MNoAnswer subscriptions) m, h)
      else if len (sh_commands s) <? COMMAND_QUEUE_CAPACITY then
        Some (with_commands (sh_commands s ++ [CmdReconcile subscriptions]) None s, go (MAwait subscriptions) m, h)
      else None
  | MAwait subscriptions =>
      match sh_response s with
      | Some (Ok r) => Some (s, go (MReturn (RReconcile subscriptions (Ok r))) m, acknowledged subscriptions h)
      | Some (Err error) =>
          Some (s, go (MReturn (RReconcile subscriptions
                  (Err (String.append "failed to update upstream receive: " error)))) m, h)
      | Some _ => None
      | None => if exited pc then Some (s, go (MNoAnswer subscriptions) m, h) else None
      end
  | MNoAnswer subscriptions =>
      Some (s, go (MReturn (RReconcile subscriptions (Err (stopped_error (sh_failure s))))) m, h)
  | MSnapshot field snapshot =>
      let snapshot := load_field field (sh_counters s) snapshot in
      let seen := if (field =? 4)%nat then Some (queue_depth (sh_counters s)) else m_seen_depth m in
      Some (s, mkMain (if (field <? 7)%nat then MSnapshot (field + 1) snapshot else MReturn (RSnapshot snapshot))
                 seen (m_thread m), h)
  | MCheckFailure => Some (s, go (MReturn (RFailure (check_failure (sh_failure s)))) m, h)
  | MWaiting => if sh_notified s then Some (with_notified false s, mkMain (MReturn RWoken) None (m_thread m), h) else None
  | MStop =>
      if exited pc then Some (s, go (MJoin None) m, h)
      else if len (sh_commands s) <? COMMAND_QUEUE_CAPACITY then
        Some (with_commands (sh_commands s ++ [CmdShutdown]) None s, go MStopAwait m, h)
      else None
  | MStopAwait =>
      match sh_response s with
      | Some result => Some (s, go (MJoin (Some (Some result))) m, h)
      | None => if exited pc then Some (s, go (MJoin (Some None)) m, h) else None
      end
  | MJoin cleanup =>
      if negb (exited pc) then None
      else
        let result :=
          if panicked pc then Err "upstream capture worker panicked"%string
          else match cleanup with
            | Some (Some (Err error)) =>
                Err (String.append "failed to clear upstream subscriptions during shutdown: " error)
            | Some None => Err (stopped_error (sh_failure s))
            | _ => check_failure (sh_failure s)
            end in
        Some (s, go (MReturn (RStopped result)) m, h)
  | MStopCheck => Some (s, go (MReturn (RStopped (check_failure (sh_failure s)))) m, h)
  | MDropped => None
  end.

(** One access of a thread, or the passing of time; [Wake] is the poller returning on a
    timeout, on a readable socket or spuriously. *)
Inductive action :=
| Tick (d : Z)
| StepWorker (io : option string)
| StepMain (c : Call)
| Wake.

Definition handle_dropped m : bool := match m_pc m with MDropped => true | _ => false end.

Definition step (capacity : Z) (a : action) t : option (Threads S P) :=
  let '(mkThreads w s m h) := t in
  match a with
  | Tick d =>
      if 0 <=? d then
        Some (mkThreads w (mkShared (sh_now s + d) (sh_counters s) (sh_failure s) (sh_notified s) (sh_commands s)
                             (sh_response s) (sh_packets s)) m h)
      else None
  | StepWorker io =>
      match worker_step capacity io (handle_dropped m) w s h with
      | Some (w, s, h) => Some (mkThreads w s m h)
      | None => None
      end
  | StepMain c =>
      match main_step (w_pc w) c s m h with
      | Some (s, m, h) => Some (mkThreads w s m h)
      | None => None
      end
  | Wake =>
      match m_pc m with
      | MWaiting => Some (mkThreads w (with_notified false s) (mkMain (MReturn RWoken) None (m_thread m)) h)
      | _ => None
      end
  end.

(** A schedule; a thread whose turn comes while it is blocked lets it pass. *)
Definition exec (capacity : Z) (schedule : list action) t : Threads S P :=
  foldl (λ t a, default t (step capacity a t)) t schedule.

(** [spawn_worker]; [io] is the outcome of starting the thread. *)
Definition spawn_worker (source : S) (packet_capacity : Z) (now : Z) (io : option string) : res string (Threads S P) :=
  if packet_capacity =? 0 then Err "upstream worker packet queue capacity must not be zero"%string
  else match io with
    | Some error => Err error
    | None =>
        let counters := store_sockets (capture_socket_count source)
                          (store_active (active_subscription_count source) default_counters) in
        Ok (mkThreads (mkWorker (WCommands false) source MIN_CAPTURE_POLL_INTERVAL)
              (mkShared now counters None false [] None []) (mkMain (MReturn RSpawned) None true)
              (mkHistory [] [] [] [] []))
    end.
End threads.

(** ** What the threads keep *)

Section invariants.
Context {S P : Type} `{!CaptureSource S P} (capacity : Z).
Context (Hcapacity : 0 < capacity) (Hbits : capacity + 2 < ATOMIC_MODULUS).
Implicit Types (w : Worker S P) (s : Shared P) (m : Main P) (h : History P) (t : Threads S P).

(** A slot reserved for a packet that is not in the queue, and a packet that has left
    the queue but is still counted. *)
Definition reserved (pc : WorkerPc P) : Z :=
  match pc with WSend _ _ _ _ | WReleaseFull _ | WReleaseDisconnected => 1 | _ => 0 end.
Definition dequeuing (pc : MainPc P) : Z := match pc with MDequeue _ => 1 | _ => 0 end.
(** The packet the worker holds, and what its counters have still to count. *)
Definition in_hand (pc : WorkerPc P) : list P :=
  match pc with WCountPacket _ p | WCountBytes _ p | WReserve _ p | WSend _ p _ _ => [p] | _ => [] end.
Definition uncounted_packets (pc : WorkerPc P) : Z := match pc with WCountPacket _ _ => 1 | _ => 0 end.
Definition uncounted_bytes (pc : WorkerPc P) : Z :=
  match pc with WCountPacket _ p | WCountBytes _ p => packet_len p | _ => 0 end.
Definition uncounted_drops (pc : WorkerPc P) : Z := match pc with WReleaseFull _ | WCountDrop _ => 1 | _ => 0 end.
Definition total_len (l : list P) : Z := foldr (λ p n, packet_len p + n) 0 l.
(** The depth a slot was reserved at is never above what the queue can hold, plus one. *)
Definition pending_depth (pc : WorkerPc P) : Prop :=
  match pc with
  | WSend _ _ was_empty d => 0 <= d
  | WCommit _ _ d => 0 <= d
  | WHighWater _ _ d => 0 <= d <= capacity + 1
  | _ => True
  end.

(** The handle lets go of its ends of the channels only when the thread has ended. *)
Definition joined (pc : WorkerPc P) m : Prop :=
  match m_pc m with
  | MStop | MStopAwait | MJoin _ => True
  | MDropped => exited pc = true
  | _ => m_thread m = true ∨ exited pc = true
  end.

Record accounts (pc : WorkerPc P) s m h : Prop := {
  ac_joined : joined pc m;
  ac_depth : queue_depth (sh_counters s) = len (sh_packets s) + reserved pc + dequeuing (m_pc m);
  ac_capacity : len (sh_packets s) <= capacity;
  ac_pending : pending_depth pc;
  ac_high_water : 0 <= queue_high_water (sh_counters s) <= capacity + 1;
  ac_packets : accepted_packets (sh_counters s) = (len (h_captured h) - uncounted_packets pc) mod ATOMIC_MODULUS;
  ac_bytes : accepted_bytes (sh_counters s) = (total_len (h_captured h) - uncounted_bytes pc) mod ATOMIC_MODULUS;
  ac_drops : queue_drops (sh_counters s) = (len (h_dropped h) - uncounted_drops pc) mod ATOMIC_MODULUS;
  ac_order : (h_delivered h ++ sh_packets s ++ in_hand pc) `sublist_of` h_captured h;
  ac_complete : h_captured h ≡ₚ h_delivered h ++ sh_packets s ++ h_dropped h ++ in_hand pc
}.

Lemma total_len_app (l k : list P) : total_len (l ++ k) = total_len l + total_len k.
Proof. unfold total_len. induction l as [|p l IH]; cbn; [done|]. rewrite IH. lia. Qed.
Lemma fetch_add_mod x a b : x = a mod ATOMIC_MODULUS → fetch_add x b = (a + b) mod ATOMIC_MODULUS.
Proof. intros ->. unfold fetch_add. by rewrite Zplus_mod_idemp_l. Qed.
Lemma fetch_add_small x d : 0 <= x + d < ATOMIC_MODULUS → fetch_add x d = x + d.
Proof. apply Z.mod_small. Qed.
Lemma fetch_sub_small x d : 0 <= x - d < ATOMIC_MODULUS → fetch_sub x d = x - d.
Proof. apply Z.mod_small. Qed.

(** The accesses of the worker, one case each. *)
Ltac cases_in H :=
  repeat match type of H with
    context [match ?x with _ => _ end] =>
      lazymatch x with context [match _ with _ => _ end] => fail | _ => destruct x eqn:? end
  end.
Ltac worker_cases H :=
  unfold worker_step, after_burst, at_pc in H; cbn [w_pc w_source w_poll_interval] in H;
  cases_in H; simplify_eq/=.

Lemma joined_worker_step io w s m h w' s' h' :
  worker_step capacity io (handle_dropped m) w s h = Some (w', s', h') → joined (w_pc w) m → joined (w_pc w') m.
Proof.
  intros H Hj.
  assert (exited (w_pc w) = false) as He. { unfold worker_step in H. by destruct (w_pc w). }
  unfold joined in *. rewrite He in Hj. destruct (m_pc m); naive_solver.
Qed.

Lemma accounts_worker_step io w s m h w' s' h' :
  worker_step capacity io (handle_dropped m) w s h = Some (w', s', h') →
  accounts (w_pc w) s m h → accounts (w_pc w') s' m h'.
Proof.
  intros H [Hj Hd Hc Hp Hh Ha Hb Hr Ho Hm].
  pose proof (joined_worker_step _ _ _ _ _ _ _ _ H Hj) as Hj'.
  assert (0 <= dequeuing (m_pc m) <= 1) as Hq by (destruct (m_pc m); cbn; lia).
  pose proof (len_nonneg (sh_packets s)) as Hn.
  destruct w as [pc src poll]. cbn [w_pc] in *.
  destruct pc; worker_cases H.
  all: unfold reserve_queue_slot, release_queue_slot, handle_dropped, joined in *; simplify_eq/=.
  all: try solve [destruct (m_pc m); simplify_eq/=; by destruct_or? Hj].
  all: constructor; [exact Hj'|cbn in *..].
  all: try solve [done|lia|unfold committed_depth; lia].
  all: try solve [first [rewrite fetch_add_small; lia|rewrite fetch_sub_small; lia]].
  all: try solve [erewrite fetch_add_mod by eassumption; f_equal; lia].
  all: try solve [rewrite ?len_app, ?total_len_app; cbn; etrans; [eassumption|f_equal; unfold len; cbn; lia]].
  all: rewrite ?app_nil_r, ?len_app in *.
  all: try solve [unfold len in *; cbn in *; lia].
  all: try solve [rewrite ?(assoc_L (++)) in *; first [done|by apply sublist_app|by eapply sublist_app_l_inv]].
  all: try solve [rewrite Hm; solve_Permutation].
  etrans; [|exact Ho]. rewrite (assoc_L (++)). by apply sublist_inserts_r.
Qed.

Ltac main_cases H :=
  unfold main_step, start_call, go, fmap, option_fmap, option_map in H; cbn [m_pc m_seen_depth m_thread] in H;
  cases_in H; simplify_eq/=.

Lemma joined_main_step pc c s m h s' m' h' :
  main_step pc c s m h = Some (s', m', h') → joined pc m → joined pc m'.
Proof.
  intros H Hj. destruct m as [mpc seen th]. unfold joined in *. cbn [m_pc m_thread] in *.
  destruct mpc; main_cases H; try done; try (destruct Hj; first [done|by left|by right]).
  all: right; by apply negb_false_iff.
Qed.

Lemma accounts_main_step pc c s m h s' m' h' :
  main_step pc c s m h = Some (s', m', h') → accounts pc s m h → accounts pc s' m' h'.
Proof.
  intros H [Hj Hd Hc Hp Hh Ha Hb Hr Ho Hm].
  pose proof (joined_main_step _ _ _ _ _ _ _ _ H Hj) as Hj'.
  assert (0 <= reserved pc <= 1) as Hq by (destruct pc; cbn; lia).
  pose proof (len_nonneg (sh_packets s)) as Hn.
  destruct m as [mpc seen th]. cbn [m_pc m_thread] in *.
  destruct mpc; main_cases H.
  all: constructor; [exact Hj'|cbn in *..]; try solve [done|lia].
  all: try (rewrite fetch_sub_small; lia).
  all: try solve [match goal with E : sh_packets _ = [] |- _ => by rewrite E end].
  all: rewrite ?len_cons, <- ?(assoc_L (++)) in *; first [lia|done].
Qed.

(** *** No wake-up is lost *)

(** The worker will notify the poller, or it has failed and will end. *)
Definition will_notify (pc : WorkerPc P) : bool :=
  match pc with WSend _ _ true _ | WCommit _ true _ | WHighWater _ true _ | WNotify _ => true | _ => false end.
Definition failing (pc : WorkerPc P) : bool :=
  match pc with WCountFailure _ _ | WStoreFailure _ _ | WNotifyFailure | WExit | WPanicked => true | _ => false end.
Definition receiving (pc : MainPc P) : bool :=
  match pc with MTryRecv | MDequeue _ | MEmpty | MDisconnected => true | _ => false end.

Record wake_ok (pc : WorkerPc P) s m : Prop := {
  wk_send : match pc with WSend _ _ true _ => sh_packets s = [] | _ => True end;
  wk_receiving : receiving (m_pc m) = true → m_seen_depth m = None;
  wk_waiting : m_pc m = MWaiting → m_seen_depth m = Some 0;
  wk_seen : m_seen_depth m = Some 0 →
    (sh_packets s = [] ∧ reserved pc = 0) ∨ sh_notified s = true ∨ will_notify pc = true ∨ failing pc = true
}.

Ltac pick := first [done|by split|left; pick|right; pick].

Lemma wake_worker_step io w s m h w' s' h' :
  worker_step capacity io (handle_dropped m) w s h = Some (w', s', h') →
  accounts (w_pc w) s m h → wake_ok (w_pc w) s m → wake_ok (w_pc w') s' m.
Proof.
  intros H [Hj Hd _ _ _ _ _ _ _ _] [Hs Hr Hwt Hk].
  assert (0 <= dequeuing (m_pc m) <= 1) as Hq by (destruct (m_pc m); cbn; lia).
  assert (m_seen_depth m = Some 0 → dequeuing (m_pc m) = 0) as Hz.
  { intros Hz. destruct (m_pc m); cbn in *; try done. by rewrite Hr in Hz. }
  pose proof (len_nonneg (sh_packets s)) as Hn.
  destruct w as [pc src poll]. cbn [w_pc] in *.
  destruct pc; worker_cases H.
  all: unfold reserve_queue_slot, release_queue_slot, handle_dropped, joined in *; simplify_eq/=.
  all: constructor; cbn in *; try done.
  all: try (intros Hseen; specialize (Hk Hseen); specialize (Hz Hseen)).
  all: try solve [destruct Hk as [[? ?]|[?|[?|?]]]; pick].
  - destruct (Z.eqb_spec (queue_depth (sh_counters s)) 0) as [E|]; [|done]. apply len_zero_nil. lia.
  - destruct Hk as [[Hnil _]|[?|[?|?]]]; [|pick..]. rewrite Hd, Hnil, Hz. pick.
  - by destruct (m_pc m); cbn in *; simplify_eq.
  - destruct was_empty; [assert (len (sh_packets s') = 0) by (by rewrite Hs); lia|].
    destruct Hk as [[? ?]|[?|[?|?]]]; pick.
Qed.

Lemma wake_main_step pc c s m h s' m' h' :
  main_step pc c s m h = Some (s', m', h') → accounts pc s m h → wake_ok pc s m → wake_ok pc s' m'.
Proof.
  intros H [_ Hd _ _ _ _ _ _ _ _] [Hs Hr Hwt Hk].
  assert (0 <= reserved pc <= 1) as Hq by (destruct pc; cbn; lia).
  pose proof (len_nonneg (sh_packets s)) as Hn.
  destruct m as [mpc seen th]. cbn [m_pc m_thread m_seen_depth] in *.
  destruct mpc; main_cases H.
  all: constructor; cbn in *; try done.
  all: try solve [intros Hseen; specialize (Hr eq_refl); congruence].
  1: { intros _. match goal with E : (_ && bool_decide _) = true |- _ => apply andb_true_iff in E as [_ E]; by apply bool_decide_eq_true in E end. }
  1-3: by repeat case_match.
  all: intros [= E]; left; split; [apply len_zero_nil; lia|lia].
Qed.

(** *** Commands and answers *)

(** What the code relies on in a source: it does not panic, an accepted command makes every
    subscription active, and nothing else changes what is active. *)
Class CaptureSourceOk (I : S → Prop) (active : S → gset UpstreamSubscription) : Prop := {
  source_reconcile_ok subscriptions src : I src →
    mwp (source_reconcile subscriptions)
      (λ _ src', I src' ∧ list_to_set subscriptions ⊆ active src') (λ _ src', I src' ∧ active src' = active src) src;
  source_try_recv_ok src : I src →
    mwp source_try_recv (λ _ src', I src' ∧ active src' = active src) (λ _ src', I src' ∧ active src' = active src) src
}.

Context (I : S → Prop) (active : S → gset UpstreamSubscription) `{!CaptureSourceOk I active}.

(** The worker is at the command [c], or at none. *)
Definition handles (pc : WorkerPc P) (c : UpstreamCommand) : Prop :=
  match pc with
  | WCommand c' _ => c' = c
  | WStoreActive _ shutdown _ | WStoreSockets _ shutdown _ | WRespond _ shutdown _ => shutdown = is_shutdown c
  | _ => False
  end.
Definition handling (pc : WorkerPc P) : bool :=
  match pc with WCommand _ _ | WStoreActive _ _ _ | WStoreSockets _ _ _ | WRespond _ _ _ => true | _ => false end.
(** The command [c] has been sent: it is in the queue, or at the worker, or answered,
    or the worker has ended. *)
Definition in_flight (c : UpstreamCommand) (pc : WorkerPc P) s : Prop :=
  exited pc = true ∨
  match sh_response s with
  | None => (sh_commands s = [c] ∧ handling pc = false) ∨ (sh_commands s = [] ∧ handles pc c)
  | Some _ => sh_commands s = [] ∧ handling pc = false ∧ is_shutdown c = false
  end.
Definition stopping (pc : MainPc P) : bool :=
  match pc with MStop | MStopAwait | MJoin _ | MStopCheck | MDropped => true | _ => false end.
(** The answer that the relay's thread will see to the command it waits for. *)
Definition pending_answer (pc : WorkerPc P) s : option reconcile_answer :=
  match pc with
  | WStoreActive r _ _ | WStoreSockets r _ _ | WRespond r _ _ => Some r
  | _ => sh_response s
  end.
Definition unacknowledged (pc : WorkerPc P) s m : list (list UpstreamSubscription) :=
  match m_pc m with
  | MAwait subscriptions => match pending_answer pc s with Some (Ok _) => [subscriptions] | _ => [] end
  | _ => []
  end.

(** No command is about. *)
Definition no_command (pc : WorkerPc P) s : Prop :=
  exited pc = true ∨ (sh_commands s = [] ∧ handling pc = false).
Definition commands_ok (pc : WorkerPc P) s m : Prop :=
  match m_pc m with
  | MAwait subscriptions => in_flight (CmdReconcile subscriptions) pc s
  | MStopAwait => in_flight CmdShutdown pc s
  | MJoin _ => exited pc = true
  | _ => no_command pc s
  end ∧ (stopping (m_pc m) = true → m_thread m = false).

(** The packets of the burst so far. *)
Definition received_so_far (pc : WorkerPc P) : Z :=
  match pc with
  | WCapture b | WCountPacket b _ | WCountBytes b _ | WReserve b _ | WSend b _ _ _ | WCommit b _ _
  | WHighWater b _ _ | WNotify b | WReleaseFull b | WCountDrop b => b_received b
  | _ => 0
  end.
(** Answers are values or errors; the worker ends because of a recorded failure, or
    because it was told to. *)
Record outcome_ok w s m : Prop := {
  ou_response : match sh_response s with Some r => returns r | None => True end;
  ou_result : match w_pc w with
    | WStoreActive r _ _ | WStoreSockets r _ _ | WRespond r _ _ => returns r
    | _ => True
    end;
  ou_exit : exited (w_pc w) = true → w_pc w = WExit ∧ (is_Some (sh_failure s) ∨ m_thread m = false);
  ou_failing : match w_pc w with
    | WNotifyFailure => is_Some (sh_failure s)
    | WReleaseDisconnected => False
    | _ => True
    end;
  ou_burst : 0 <= received_so_far (w_pc w);
  ou_source : I (w_source w)
}.
(** The subscriptions accepted last are active; the relay's thread knows what was accepted. *)
Record grants_ok w s m h : Prop := {
  gr_active : ∀ l, last (h_granted h) = Some l → list_to_set l ⊆ active (w_source w);
  gr_granted : m_thread m = true → h_granted h = h_acknowledged h ++ unacknowledged (w_pc w) s m
}.

(** The two calls of the source. *)
Lemma source_reconcile_cases subscriptions src : I src → 
  match source_reconcile subscriptions src with
  | (Ok _, src') => I src' ∧ list_to_set subscriptions ⊆ active src'
  | (Err _, src') => I src' ∧ active src' = active src
  | _ => False
  end.
Proof.
  intros HI. pose proof (source_reconcile_ok subscriptions src HI) as H. unfold mwp in H.
  by destruct (source_reconcile subscriptions src) as [[]].
Qed.
Lemma source_try_recv_cases src : I src → 
  match source_try_recv src with
  | (Ok _, src') | (Err _, src') => I src' ∧ active src' = active src
  | _ => False
  end.
Proof.
  intros HI. pose proof (source_try_recv_ok src HI) as H. unfold mwp in H.
  by destruct (source_try_recv src) as [[]].
Qed.

Lemma in_flight_worker_step c io d w s h w' s' h' :
  worker_step capacity io d w s h = Some (w', s', h') → in_flight c (w_pc w) s → in_flight c (w_pc w') s'.
Proof.
  intros H. destruct w as [pc src poll]. unfold in_flight.
  destruct pc; worker_cases H; intros Hf; cbn in *; try (by left); try exact Hf.
  all: destruct Hf as [?|Hf]; [done|].
  all: try (by right).
  all: right; repeat case_match; destruct_or?; destruct_and?; simplify_eq/=; first [done|by left|by right|congruence|idtac].
  all: try by destruct c.
Qed.

Lemma no_command_worker_step io d w s h w' s' h' :
  worker_step capacity io d w s h = Some (w', s', h') → no_command (w_pc w) s → no_command (w_pc w') s'.
Proof.
  intros H. destruct w as [pc src poll]. unfold no_command.
  destruct pc; worker_cases H; intros [?|[Hc ?]]; cbn in *; try done; try (by left); try (by right).
  all: by rewrite Hc in *.
Qed.

Lemma worker_step_running io d w s h w' s' h' :
  worker_step capacity io d w s h = Some (w', s', h') → exited (w_pc w) = false.
Proof. unfold worker_step. by destruct (w_pc w). Qed.

Lemma commands_worker_step io w s m h w' s' h' :
  worker_step capacity io (handle_dropped m) w s h = Some (w', s', h') →
  commands_ok (w_pc w) s m → commands_ok (w_pc w') s' m.
Proof.
  intros H [Hc Ht]. split; [|done]. pose proof (worker_step_running _ _ _ _ _ _ _ _ H) as He.
  destruct (m_pc m); try by eapply no_command_worker_step.
  - by eapply in_flight_worker_step.
  - by eapply in_flight_worker_step.
  - by rewrite He in Hc.
Qed.

Lemma commands_main_step pc c s m h s' m' h' :
  main_step pc c s m h = Some (s', m', h') → commands_ok pc s m → commands_ok pc s' m'.
Proof.
  intros H [Hc Ht]. destruct m as [mpc seen th]. unfold commands_ok, no_command, in_flight in *. cbn [m_pc m_thread] in *.
  destruct mpc; main_cases H.
  all: split; cbn in *; try done; try (by left); try (by right).
  - destruct Hc as [?|[-> ?]]; [done|]. right. by left.
  - destruct Hc as [?|[? [? _]]]; [by left|by right].
  - destruct Hc as [?|[? [? _]]]; [by left|by right].
  - destruct Hc as [?|[-> ?]]; [done|]. right. by left.
  - by destruct Hc as [?|[? [? ?]]].
Qed.

Lemma shutdown_stopping r again s m : commands_ok (WRespond r true again) s m → m_thread m = false.
Proof.
  intros [Hc Ht]. apply Ht. unfold in_flight, no_command in Hc. cbn in Hc.
  destruct (m_pc m); cbn; try done; try by destruct Hc as [?|[??]].
  destruct Hc as [?|Hc]; [done|]. destruct (sh_response s); [by destruct Hc as (?&?&?)|].
  by destruct Hc as [[??]|[??]].
Qed.

Lemma outcome_worker_step io w s m h w' s' h' :
  worker_step capacity io (handle_dropped m) w s h = Some (w', s', h') →
  joined (w_pc w) m → commands_ok (w_pc w) s m → outcome_ok w s m → outcome_ok w' s' m.
Proof.
  intros H Hj [Hc Ht] [Hr Hu He Hf Hb HI].
  pose proof (worker_step_running _ _ _ _ _ _ _ _ H) as Hrun.
  pose proof (source_try_recv_cases (w_source w) HI) as Htr.
  pose proof (λ l, source_reconcile_cases l (w_source w) HI) as Hrc.
  pose proof (λ r again E, shutdown_stopping r again s m (eq_rect _ (λ pc, commands_ok pc s m) (conj Hc Ht) _ E)) as Hsd.
  assert (handle_dropped m = false) as Hdrop.
  { unfold handle_dropped. unfold joined in Hj. destruct (m_pc m); try done. by rewrite Hrun in Hj. }
  rewrite Hdrop in H.
  destruct w as [pc src poll]. cbn [w_pc w_source] in *. unfold returns in *.
  destruct pc; try specialize (Hrc (command_subscriptions command)); worker_cases H.
  all: constructor; cbn in *; try done.
  all: try by destruct_and?.
  all: try by destruct (sh_failure s).
  all: try lia.
  all: intros _; split; [done|]; first [done|right; by eapply Hsd|left; by destruct (sh_failure _)].
Qed.

Lemma outcome_main_step w c s m h s' m' h' :
  main_step (w_pc w) c s m h = Some (s', m', h') → outcome_ok w s m → outcome_ok w s' m'.
Proof.
  intros H [Hr Hu He Hf Hb HI]. destruct m as [mpc seen th]. cbn [m_pc m_thread m_seen_depth] in *.
  destruct mpc; main_cases H; constructor; cbn in *; try done.
  all: try by match goal with E : sh_response _ = _ |- _ => rewrite E end.
  all: intros Hx; first [specialize (He Hx)|specialize (He eq_refl)|congruence]; destruct He as [? [?|?]]; try done.
  all: split; [done|first [by left|by right]].
Qed.

(** A command that the worker handles while the handle is in use is the one waited for. *)
Lemma awaited_command command again s m :
  commands_ok (WCommand command again) s m → m_thread m = true →
  ∃ l, m_pc m = MAwait l ∧ command = CmdReconcile l ∧ sh_response s = None.
Proof.
  intros [Hc Ht] Hth. unfold in_flight, no_command in Hc. cbn in Hc.
  destruct (m_pc m) as [| | | | | | |l| | | | | | | | |]; try done; try by destruct Hc as [?|[??]].
  - exists l. destruct Hc as [?|Hc]; [done|]. destruct (sh_response s); [by destruct Hc as (?&?&?)|].
    by destruct Hc as [[??]|[? ->]].
  - rewrite Ht in Hth; done.
Qed.

Lemma grants_worker_step io w s m h w' s' h' :
  worker_step capacity io (handle_dropped m) w s h = Some (w', s', h') →
  joined (w_pc w) m → commands_ok (w_pc w) s m → outcome_ok w s m → grants_ok w s m h → grants_ok w' s' m h'.
Proof.
  intros H Hj [Hc Ht] [Hr Hu He Hf Hb HI] [Ha Hg].
  pose proof (worker_step_running _ _ _ _ _ _ _ _ H) as Hrun.
  pose proof (source_try_recv_cases (w_source w) HI) as Htr.
  pose proof (λ l, source_reconcile_cases l (w_source w) HI) as Hrc.
  assert (handle_dropped m = false) as Hdrop.
  { unfold handle_dropped. unfold joined in Hj. destruct (m_pc m); try done. by rewrite Hrun in Hj. }
  rewrite Hdrop in H. clear Hj Hdrop He Hf.
  destruct w as [pc src poll]. cbn [w_pc w_source] in *.
  destruct pc; try specialize (Hrc (command_subscriptions command)); worker_cases H.
  all: constructor; cbn in *; try done.
  all: try solve [intros l Hl; destruct Htr as [_ ->]; by apply Ha].
  - intros l. rewrite last_snoc. intros [= <-]. by apply Hrc.
  - intros Hth. destruct (awaited_command command again s' m) as (l & Hm & -> & Hn); [by split|done|].
    rewrite (Hg Hth). unfold unacknowledged, pending_answer. by rewrite Hm, Hn, app_nil_r.
  - destruct Hrc as [_ Hrc]. intros l Hl. rewrite Hrc. by apply Ha.
  - intros Hth. destruct (awaited_command command again s' m) as (l & Hm & -> & Hn); [by split|done|].
    rewrite (Hg Hth). unfold unacknowledged, pending_answer. by rewrite Hm, Hn.
Qed.

Lemma idle_answer pc s : handling pc = false → pending_answer pc s = sh_response s.
Proof. by destruct pc. Qed.
Lemma exited_idle (pc : WorkerPc P) : exited pc = true → handling pc = false.
Proof. by destruct pc. Qed.

Lemma grants_main_step w c s m h s' m' h' :
  main_step (w_pc w) c s m h = Some (s', m', h') →
  commands_ok (w_pc w) s m → outcome_ok w s m → grants_ok w s m h → grants_ok w s' m' h'.
Proof.
  intros H [Hc Ht] Hou [Ha Hg]. destruct m as [mpc seen th]. cbn [m_pc m_thread m_seen_depth] in *.
  unfold unacknowledged, in_flight, no_command in *.
  destruct mpc; main_cases H; constructor; cbn in *; try done.
  - intros Hth. destruct Hc as [?|[_ Hn]]; [done|]. rewrite idle_answer by done. by apply Hg.
  - intros Hth. rewrite (Hg Hth), idle_answer by (destruct Hc as [?|(_&?&_)]; [by apply exited_idle|done]).
    rewrite app_nil_r. cbn. by match goal with E : sh_response _ = _ |- _ => rewrite E end.
  - intros Hth. rewrite (Hg Hth), idle_answer by (destruct Hc as [?|(_&?&_)]; [by apply exited_idle|done]).
    by match goal with E : sh_response _ = _ |- _ => rewrite E end.
  - intros Hth. rewrite (Hg Hth), idle_answer by (by apply exited_idle).
    by match goal with E : sh_response _ = _ |- _ => rewrite E end.
Qed.

(** *** Runs *)

Definition threads_ok t : Prop :=
  accounts (w_pc (t_worker t)) (t_shared t) (t_main t) (t_history t) ∧
  wake_ok (w_pc (t_worker t)) (t_shared t) (t_main t) ∧
  commands_ok (w_pc (t_worker t)) (t_shared t) (t_main t) ∧
  outcome_ok (t_worker t) (t_shared t) (t_main t) ∧
  grants_ok (t_worker t) (t_shared t) (t_main t) (t_history t).

Lemma step_ok a t t' : step capacity a t = Some t' → threads_ok t → threads_ok t'.
Proof.
  destruct t as [w s m h]. intros H (Ha & Hw & Hc & Ho & Hg). cbn [t_worker t_shared t_main t_history] in *.
  pose proof (ac_joined _ _ _ _ Ha) as Hj. unfold threads_ok. destruct a; cbn in H.
  - case_match; simplify_eq/=. destruct Ha, Hw, Ho, Hg.
    split; [by constructor|]. split; [by constructor|]. split; [exact Hc|]. by split; constructor.
  - destruct (worker_step _ _ _ w s h) as [[[w' s'] h']|] eqn:E; simplify_eq/=.
    split; [by eapply accounts_worker_step|]. split; [by eapply wake_worker_step|].
    split; [by eapply commands_worker_step|]. split; [by eapply outcome_worker_step|by eapply grants_worker_step].
  - destruct (main_step _ c s m h) as [[[s' m'] h']|] eqn:E; simplify_eq/=.
    split; [by eapply accounts_main_step|]. split; [by eapply wake_main_step|].
    split; [by eapply commands_main_step|]. split; [by eapply outcome_main_step|by eapply grants_main_step].
  - destruct m as [mpc seen th], mpc; simplify_eq/=. destruct Ha, Hw, Hc, Ho, Hg.
    split; [by constructor|]. split; [by constructor|]. split; [by split|]. by split; constructor.
Qed.

Lemma exec_ok schedule t : threads_ok t → threads_ok (exec capacity schedule t).
Proof.
  revert t. induction schedule as [|a schedule IH]; intros t Ht; [done|]. cbn. apply IH.
  destruct (step capacity a t) eqn:E; [|done]. by eapply step_ok.
Qed.

Lemma spawn_ok source now io t : I source → spawn_worker source capacity now io = Ok t → threads_ok t.
Proof.
  unfold spawn_worker. intros HI H. repeat case_match; simplify_eq/=.
  split; [constructor|split; [constructor|split; [split|split; constructor]]]; cbn; try done; try lia.
  - unfold len. cbn. lia.
  - by right.
Qed.

(** *** Answers come *)

(** An upper bound on the worker's accesses until a waiting command is answered. *)
Definition burst_measure (b : Burst) : nat := 6 + 10 * Z.to_nat (MAX_CAPTURE_BURST - b_received b).
Definition answer_measure (pc : WorkerPc P) : nat :=
  match pc with
  | WExit | WPanicked => 0
  | WRespond _ _ _ | WNotifyFailure | WReleaseDisconnected => 1
  | WStoreSockets _ _ _ | WStoreFailure _ _ => 2
  | WStoreActive _ _ _ | WCountFailure _ _ => 3
  | WCommand _ _ => 4
  | WCommands _ | WBlocked _ => 5
  | WStart _ => 7 + 10 * Z.to_nat MAX_CAPTURE_BURST
  | WCapture b => burst_measure b
  | WCountDrop b => 1 + burst_measure b
  | WReleaseFull b => 2 + burst_measure b
  | WNotify b => 3 + burst_measure b
  | WHighWater b _ _ => 4 + burst_measure b
  | WCommit b _ _ => 5 + burst_measure b
  | WSend b _ _ _ => 6 + burst_measure b
  | WReserve b _ => 7 + burst_measure b
  | WCountBytes b _ => 8 + burst_measure b
  | WCountPacket b _ => 9 + burst_measure b
  end.

Lemma worker_progress c io d w s h :
  in_flight c (w_pc w) s → sh_response s = None → exited (w_pc w) = false →
  ∃ w' s' h', worker_step capacity io d w s h = Some (w', s', h') ∧
    (is_Some (sh_response s') ∨ (answer_measure (w_pc w') < answer_measure (w_pc w))%nat).
Proof.
  intros Hf Hr He. destruct Hf as [Hf|Hf]; [congruence|]. rewrite Hr in Hf.
  assert (handling (w_pc w) = false → sh_commands s = [c]) as Hc.
  { intros Hh. destruct Hf as [[? _]|[_ Hf]]; [done|]. by destruct (w_pc w). }
  destruct w as [pc src poll]. cbn [w_pc] in *. unfold worker_step, after_burst, at_pc, MAX_CAPTURE_BURST.
  destruct pc; cbn [w_pc w_source w_poll_interval] in *; try done.
  all: try rewrite (Hc eq_refl).
  all: cbn [reserve_queue_slot]; clear Hf Hc; repeat case_match; do 3 eexists; (split; [reflexivity|]); cbn.
  all: first [left; by eexists|right; unfold burst_measure, MAX_CAPTURE_BURST in *; cbn [b_received answer_measure]; lia].
Qed.

Definition is_worker_step (a : action) : bool := match a with StepWorker _ => true | _ => false end.
Definition worker_steps (schedule : list action) : nat := length (List.filter is_worker_step schedule).
(** The relay's thread waits for the answer to a command. *)
Definition awaiting m : option UpstreamCommand :=
  match m_pc m with MAwait l => Some (CmdReconcile l) | MStopAwait => Some CmdShutdown | _ => None end.
(** The relay's thread is not blocked, whatever call it may want to make. *)
Definition main_enabled t : Prop := ∀ c, is_Some (step capacity (StepMain c) t).

Lemma awaiting_enabled t c :
  threads_ok t → awaiting (t_main t) = Some c →
  (main_enabled t) ∨ (sh_response (t_shared t) = None ∧ exited (w_pc (t_worker t)) = false ∧
    in_flight c (w_pc (t_worker t)) (t_shared t) ∧ ∀ call, step capacity (StepMain call) t = None).
Proof.
  destruct t as [w s m h]. intros (_ & _ & [Hc _] & [Hr _ _ _ _ _] & _) Hm. unfold awaiting, main_enabled in *.
  cbn [t_worker t_shared t_main] in *. destruct (m_pc m) eqn:Hpc; simplify_eq/=; unfold main_step; rewrite Hpc.
  all: destruct (sh_response s) as [[]|] eqn:E; try done; try (left; intros; by eexists).
  all: destruct (exited (w_pc w)) eqn:Hx; [left; intros; by eexists|by right].
Qed.

(** With enough accesses of the worker among those of [schedule], the answer is there. *)
Lemma awaiting_answered schedule t c :
  threads_ok t → awaiting (t_main t) = Some c →
  (answer_measure (w_pc (t_worker t)) <= worker_steps schedule)%nat →
  ∃ pre post, schedule = pre ++ post ∧ main_enabled (exec capacity pre t).
Proof.
  revert t. induction schedule as [|a schedule IH]; intros t Ht Hm Hn.
  - exists [], []. split; [done|]. destruct (awaiting_enabled t c Ht Hm) as [?|(_ & Hx & _)]; [done|].
    exfalso. change (worker_steps []) with 0%nat in Hn. destruct (w_pc (t_worker t)); try done; unfold answer_measure, burst_measure in Hn; lia.
  - destruct (awaiting_enabled t c Ht Hm) as [He|(Hr & Hx & Hf & Hb)]; [exists [], (a :: schedule); split; [done|exact He]|].
    assert (∀ t', default t (step capacity a t) = t' → awaiting (t_main t') = Some c →
      (answer_measure (w_pc (t_worker t')) <= worker_steps schedule)%nat →
      ∃ pre post, a :: schedule = pre ++ post ∧ main_enabled (exec capacity pre t)) as Hnext.
    { intros t' <- Hm' Hn'. destruct (IH (default t (step capacity a t))) as (pre & post & -> & He); [|done..|].
      - destruct (step capacity a t) eqn:E; [|done]. by eapply step_ok.
      - by exists (a :: pre), post. }
    destruct t as [w s m h]. cbn [t_main t_worker t_shared] in *. destruct a as [d|io|call|].
    + eapply Hnext; [done|..]; cbn; by case_match.
    + destruct (worker_progress c io (handle_dropped m) w s h Hf Hr Hx) as (w' & s' & h' & Hs & [Hans|Hlt]).
      * exists [StepWorker io], schedule. split; [done|].
        assert (step capacity (StepWorker io) (mkThreads w s m h) = Some (mkThreads w' s' m h')) as E by (cbn; by rewrite Hs).
        cbn [exec foldl]. rewrite E. cbn [default].
        destruct (awaiting_enabled (mkThreads w' s' m h') c) as [?|(Hn' & _)]; [by eapply step_ok|done|done|].
        destruct Hans as [? Hans]. cbn in Hn'. congruence.
      * change (worker_steps _) with (1 + worker_steps schedule)%nat in Hn.
        eapply Hnext; [done|..]; cbn [step]; rewrite Hs; cbn [default id t_main t_worker]; [done|lia].
    + eapply Hnext; [done|..]; by rewrite Hb.
    + assert (step capacity Wake (mkThreads w s m h) = None) as E.
      { unfold awaiting in Hm. cbn [step]. by destruct (m_pc m). }
      eapply Hnext; [done|..]; by rewrite E.
Qed.

Lemma measure_bound pc : 0 <= received_so_far pc → (answer_measure pc <= 2575)%nat.
Proof.
  destruct pc; cbn [received_so_far]; intros H; unfold answer_measure, burst_measure, MAX_CAPTURE_BURST; try lia.
Qed.

(** A notification stays until the relay's thread takes it. *)
Lemma notified_worker_steps n t :
  sh_notified (t_shared t) = true → sh_notified (t_shared (exec capacity (replicate n (StepWorker None)) t)) = true.
Proof.
  revert t. induction n as [|n IH]; intros t Ht; [done|]. cbn [replicate exec foldl]. apply IH.
  destruct t as [w s m h]. cbn [step]. destruct (worker_step _ _ _ w s h) as [[[w' s'] h']|] eqn:E; [|done].
  cbn in *. unfold worker_step, after_burst, at_pc in E. cbn in E. cases_in E; by simplify_eq/=.
Qed.

Lemma will_notify_steps t :
  wake_ok (w_pc (t_worker t)) (t_shared t) (t_main t) → will_notify (w_pc (t_worker t)) = true →
  handle_dropped (t_main t) = false →
  sh_notified (t_shared (exec capacity (replicate 4 (StepWorker None)) t)) = true.
Proof.
  destruct t as [[pc src poll] s m h]. cbn [t_worker t_shared t_main w_pc]. intros [Hs _ _ _] Hn Hd.
  destruct pc as [| | | | | | | | | |b p we rd|b we rd|b we d|b| | | | | | | | |]; try done.
  - destruct we; [|done]. change 4%nat with (4 + 0)%nat. rewrite replicate_add. unfold exec. rewrite foldl_app.
    apply (notified_worker_steps 0).
    assert ((len (sh_packets s) <? capacity) = true) as E by (rewrite Hs; by apply Z.ltb_lt).
    cbn. rewrite Hd. cbn. by rewrite E.
  - destruct we; [|done]. change 4%nat with (3 + 1)%nat. rewrite replicate_add. unfold exec. rewrite foldl_app.
    by apply (notified_worker_steps 1).
  - destruct we; [|done]. change 4%nat with (2 + 2)%nat. rewrite replicate_add. unfold exec. rewrite foldl_app.
    by apply (notified_worker_steps 2).
  - change 4%nat with (1 + 3)%nat. rewrite replicate_add. unfold exec. rewrite foldl_app.
    by apply (notified_worker_steps 3).
Qed.

(** C15: Whatever the interleaving of the two threads: the queue never holds more than its
    capacity; its depth counter is the length of the queue plus the slot being filled and
    the packet being taken, so the counter never wraps below zero; the packets taken by
    the relay, then those in the queue, are captured packets in the order of capture; every
    captured packet is taken, queued, dropped because the queue was full or in the worker's hand,
    exactly once; the accepted and dropped counters count them modulo 2^64, up to the
    update in progress; the high-water mark exceeds the capacity by at most one. *)
Theorem capture_queue_accounted source now io t0 schedule :
  I source → spawn_worker source capacity now io = Ok t0 →
  let t := exec capacity schedule t0 in
  let pc := w_pc (t_worker t) in
  let c := sh_counters (t_shared t) in
  let queue := sh_packets (t_shared t) in
  let h := t_history t in
  len queue <= capacity ∧
  queue_depth c = len queue + reserved pc + dequeuing (m_pc (t_main t)) ∧
  (h_delivered h ++ queue ++ in_hand pc) `sublist_of` h_captured h ∧
  h_captured h ≡ₚ h_delivered h ++ queue ++ h_dropped h ++ in_hand pc ∧
  accepted_packets c = (len (h_captured h) - uncounted_packets pc) mod ATOMIC_MODULUS ∧
  accepted_bytes c = (total_len (h_captured h) - uncounted_bytes pc) mod ATOMIC_MODULUS ∧
  queue_drops c = (len (h_dropped h) - uncounted_drops pc) mod ATOMIC_MODULUS ∧
  0 <= queue_high_water c <= capacity + 1.
Proof.
  intros HI H0 t. destruct (exec_ok schedule t0) as [[] _]; [by eapply spawn_ok|]. split_and!; by try apply ac_high_water0.
Qed.

(** C16: No wake-up is lost: whenever the relay's thread is blocked in the poller while a packet
    is queued, the poller has been notified or the worker's next four accesses notify it,
    unless the worker has failed. *)
Theorem no_lost_wakeup source now io t0 schedule :
  I source → spawn_worker source capacity now io = Ok t0 →
  let t := exec capacity schedule t0 in
  m_pc (t_main t) = MWaiting → sh_packets (t_shared t) ≠ [] → failing (w_pc (t_worker t)) = false →
  sh_notified (t_shared (exec capacity (replicate 4 (StepWorker None)) t)) = true.
Proof.
  intros HI H0 t Hm Hp Hf. destruct (exec_ok schedule t0) as (_ & Hw & _); [by eapply spawn_ok|]. fold t in Hw.
  destruct (wk_seen _ _ _ Hw) as [[? _]|[Hn|[Hn|?]]]; [by apply (wk_waiting _ _ _ Hw)|done|..].
  - by apply notified_worker_steps.
  - apply will_notify_steps; [done..|]. unfold handle_dropped. by rewrite Hm.
  - congruence.
Qed.

(** C17: The relay's thread knows what is subscribed: between calls, the commands it was told
    were accepted are those the source accepted, in order; the subscriptions of the last of
    them are all active in the source; and the worker has not ended unless a failure is recorded.
    A refused command, and packets received, change none of this. *)
Theorem acknowledged_subscriptions_active source now io t0 schedule r :
  I source → spawn_worker source capacity now io = Ok t0 →
  let t := exec capacity schedule t0 in
  m_pc (t_main t) = MReturn r → m_thread (t_main t) = true →
  h_acknowledged (t_history t) = h_granted (t_history t) ∧
  (∀ l, last (h_acknowledged (t_history t)) = Some l → list_to_set l ⊆ active (w_source (t_worker t))) ∧
  (exited (w_pc (t_worker t)) = true → is_Some (sh_failure (t_shared t))).
Proof.
  intros HI H0 t Hm Hth. destruct (exec_ok schedule t0) as (_ & _ & _ & [_ _ He _ _ _] & [Ha Hg]); [by eapply spawn_ok|].
  fold t in He, Ha, Hg. assert (h_acknowledged (t_history t) = h_granted (t_history t)) as Heq.
  { rewrite (Hg Hth). unfold unacknowledged. by rewrite Hm, app_nil_r. }
  split; [done|]. split; [by rewrite Heq|]. intros Hx. destruct (He Hx) as [_ [?|?]]; [done|congruence].
Qed.

(** C18: Calls return: when the relay's thread waits for the answer to a command (a change of the
    subscriptions or the shutdown), then in any schedule with 2575 accesses of the worker (ten for
    each packet of a burst of 256, and fifteen) there is a point where the relay's thread can go
    on, with an answer or because the worker has ended; and joining the thread never blocks. *)
Theorem commands_answered source now io t0 schedule :
  I source → spawn_worker source capacity now io = Ok t0 →
  let t := exec capacity schedule t0 in
  (∀ c rest, awaiting (t_main t) = Some c → (2575 <= worker_steps rest)%nat →
     ∃ pre post, rest = pre ++ post ∧ main_enabled (exec capacity pre t)) ∧
  (∀ cleanup, m_pc (t_main t) = MJoin cleanup → main_enabled t).
Proof.
  intros HI H0 t. assert (threads_ok t) as Ht by (by eapply exec_ok, spawn_ok). split.
  - intros c rest Hc Hn. eapply awaiting_answered; [done..|]. destruct Ht as (_ & _ & _ & [_ _ _ _ Hb _] & _).
    etrans; [by apply measure_bound|done].
  - intros cleanup Hm call. destruct Ht as (_ & _ & [Hc _] & _). rewrite Hm in Hc. destruct t as [w s m h].
    cbn in *. unfold main_step. rewrite Hm, Hc. by eexists.
Qed.
End invariants.

(** ** The source of the relay: the subscription manager *)

Lemma manager_capture_ok {C X} `{!RawReceiveContext C X} (live : C → gset Z) (calls : C → list library_call) `{!RawContextOk live calls}
    (to_string : X → string) (sockets : C → Z) :
  @CaptureSourceOk _ _ (manager_capture to_string sockets) (manager_ok live) (λ u, dom (um_active u)).
Proof.
  split; intros.
  - apply mwp_map_err. eapply mwp_mono; [by apply (reconcile_wp live calls)|..].
    + intros r u [Hu (kept & joins & leaves & _ & _ & _ & Hd & _)]. split; [done|]. cbn. rewrite Hd. apply union_subseteq_l.
    + by intros e u (Hu & -> & _).
  - apply mwp_map_err. eapply mwp_mono; [by apply (try_recv_wp live calls)|..].
    + by intros r u (Hu & -> & _).
    + by intros e u [Hu ->].
Qed.

(** ** A small run: a queue of one, a source that hands over the packets it was given *)

Record demo_source := mkDemoSource { ds_active : list UpstreamSubscription; ds_packets : list Z }.
#[export] Instance demo_capture : CaptureSource demo_source Z := {|
  source_reconcile := λ l src,
    if (1 <? len l) then (Err "too many"%string, src)
    else (Ok (mkReconcile (len l) 0 0 (len l)), mkDemoSource l (ds_packets src));
  source_try_recv := λ src,
    match ds_active src, ds_packets src with
    | _ :: _, p :: rest => (Ok (Some p), mkDemoSource (ds_active src) rest)
    | _, _ => (Ok None, src)
    end;
  packet_len := λ p, p;
  active_subscription_count := λ src, len (ds_active src);
  capture_socket_count := λ src, len (ds_active src)
|}.
#[export] Instance demo_capture_ok : CaptureSourceOk (λ _, True) (λ src : demo_source, list_to_set (ds_active src)).
Proof.
  split; intros.
  - unfold mwp. cbn. by destruct (1 <? _).
  - unfold mwp. cbn. by destruct (ds_active src) eqn:E, (ds_packets src); cbn; rewrite ?E.
Qed.

Definition demo_spawned : Threads demo_source Z :=
  mkThreads (mkWorker (WCommands false) (mkDemoSource [] [7; 8; 9]) MIN_CAPTURE_POLL_INTERVAL)
    (mkShared 0 default_counters None false [] None []) (mkMain (MReturn RSpawned) None true)
    (mkHistory [] [] [] [] []).
Definition mains (n : nat) (c : Call) : list action := replicate n (StepMain c).
Definition workers (n : nat) : list action := replicate n (StepWorker None).
(** The worker blocks; a subscription is asked for and answered, and nothing is captured yet. *)
Definition demo_join : list action :=
  workers 4 ++ mains 3 (CallReconcile [demo_subscription 1]) ++ workers 5 ++ mains 1 CallSnapshot.
(** Then the thread sees an empty queue and blocks, while the worker takes [n] accesses. *)
Definition demo_wait (n : nat) : list action := demo_join ++ mains 9 CallSnapshot ++ mains 1 CallWait ++ workers n.
Lemma demo_spawned_ok : spawn_worker (mkDemoSource [] [7; 8; 9]) 1 0 None = Ok demo_spawned.
Proof. done. Qed.

(** Two packets came, one too many for the queue, and a third is being counted. *)
Lemma capture_queue_accounted_witness :
  let t := exec 1 (demo_wait 20) demo_spawned in
  h_captured (t_history t) = [7; 8; 9] ∧ h_dropped (t_history t) = [8] ∧
  h_captured (t_history t) ≡ₚ
    h_delivered (t_history t) ++ sh_packets (t_shared t) ++ h_dropped (t_history t) ++ in_hand (w_pc (t_worker t)).
Proof.
  split; [by vm_compute|]. split; [by vm_compute|].
  apply (capture_queue_accounted 1 eq_refl eq_refl _ _ _ _ _ _ (demo_wait 20) Logic.I demo_spawned_ok).
Defined.

(** A packet has just been queued; the notification comes. *)
Lemma no_lost_wakeup_witness :
  let t := exec 1 (demo_wait 7) demo_spawned in
  sh_packets (t_shared t) = [7] ∧ sh_notified (t_shared t) = false ∧
  sh_notified (t_shared (exec 1 (replicate 4 (StepWorker None)) t)) = true.
Proof.
  split; [by vm_compute|]. split; [by vm_compute|].
  apply (no_lost_wakeup 1 eq_refl eq_refl _ _ _ _ _ _ (demo_wait 7) Logic.I demo_spawned_ok); by vm_compute.
Defined.

Lemma acknowledged_subscriptions_active_witness :
  let t := exec 1 demo_join demo_spawned in
  h_acknowledged (t_history t) = [[demo_subscription 1]] ∧
  list_to_set [demo_subscription 1] ⊆ (list_to_set (ds_active (w_source (t_worker t))) : gset UpstreamSubscription).
Proof.
  split; [by vm_compute|].
  edestruct (acknowledged_subscriptions_active 1 eq_refl eq_refl (λ _, True)
    (λ src : demo_source, list_to_set (ds_active src)) _ _ _ _ demo_join
    (RReconcile [demo_subscription 1] (Ok (mkReconcile 1 0 0 1))) Logic.I demo_spawned_ok) as (_ & H & _).
  - by vm_compute.
  - by vm_compute.
  - apply H. by vm_compute.
Defined.

(** A command sent while the worker is blocked is answered in time. *)
Lemma commands_answered_witness :
  let t := exec 1 (workers 4 ++ mains 3 (CallReconcile [demo_subscription 1])) demo_spawned in
  awaiting (t_main t) = Some (CmdReconcile [demo_subscription 1]) ∧
  ∃ pre post, workers 2575 = pre ++ post ∧ main_enabled 1 (exec 1 pre t).
Proof.
  split; [by vm_compute|].
  eapply (commands_answered 1 eq_refl eq_refl _ _ _ _ _ _ _ Logic.I demo_spawned_ok); by vm_compute.
Defined.

(** The high-water mark can exceed the capacity: a packet taken from the full queue is
    still counted while the next one fills its place. *)
Lemma high_water_above_capacity :
  let t := exec 1 (demo_wait 20 ++ mains 3 CallTryRecv ++ workers 4) demo_spawned in
  m_pc (t_main t) = MDequeue 7 ∧ sh_packets (t_shared t) = [9] ∧ queue_high_water (sh_counters (t_shared t)) = 2.
Proof. by vm_compute. Qed.
