(* ===== verification/Metrics.v ===== *)
(** Counters and their samples, [src/metrics.rs].

    [AmtMetricsCounters] is one function from the names of its fields to their values. A sample is the
    map that becomes a JSON object; the rates in it are floating-point quotients in the
    code, kept here as the count and the interval they are computed from. The file system and
    the row writer of the capture library are the operations of a class. *)

From stdpp Require Import strings.
From S2P Require Import Prelude Net Effects.

Inductive Counter :=
| control_datagrams_received
| control_datagrams_invalid
| control_datagrams_ignored
| control_datagrams_rate_limited
| resource_limit_rejections
| control_responses_sent
| control_response_bytes_sent
| send_errors
| membership_updates_accepted
| membership_records_applied
| teardowns_accepted
| auth_rejections
| gateways_expired
| upstream_subscription_adds
| upstream_subscription_removes
| upstream_reconcile_failures
| upstream_worker_queue_drops
| upstream_worker_failures
| upstream_packets_received
| upstream_bytes_received
| upstream_packets_forwarded
| upstream_bytes_forwarded
| upstream_unmatched_packets
| upstream_forward_errors
| upstream_mtu_drops
| upstream_fragments_sent
| upstream_pmtu_feedback_sent
| upstream_pmtu_feedback_bytes_sent
| upstream_pmtu_feedback_rate_limited
| upstream_pmtu_feedback_suppressed
| upstream_pmtu_feedback_unavailable
| upstream_pmtu_feedback_errors
| relay_ecn_normal_mode_datagrams_sent
| gateway_discoveries_sent
| gateway_membership_queries_received
| gateway_membership_updates_sent
| gateway_membership_refreshes
| gateway_teardowns_sent
| driad_refreshes_started
| driad_refreshes_succeeded
| driad_refreshes_failed
| driad_candidate_changes
| driad_no_relay_withdrawals
| driad_probes_started
| driad_probe_timeouts
| driad_probe_errors
| driad_connections_established
| driad_loaded_hold_downs
| driad_no_traffic_hold_downs
| driad_query_timeouts
| multicast_data_received
| multicast_data_bytes_received
| gateway_ecn_ce_received
| gateway_ecn_ce_propagated
| gateway_ecn_currently_unused
| gateway_ecn_invalid_drops
| downstream_packets_forwarded
| downstream_bytes_forwarded
| downstream_non_multicast_packets
| downstream_forward_errors
| local_queries_sent
| local_membership_reports
| local_membership_parse_errors.
#[export] Instance Counter_eq_dec : EqDecision Counter.
Proof. solve_decision. Defined.

(** The fields in the order of [extend_counters], with the names of their keys. *)
Definition reported : list (string * Counter) :=
  [("control_datagrams_received", control_datagrams_received);
   ("control_datagrams_invalid", control_datagrams_invalid);
   ("control_datagrams_ignored", control_datagrams_ignored);
   ("control_datagrams_rate_limited", control_datagrams_rate_limited);
   ("resource_limit_rejections", resource_limit_rejections);
   ("control_responses_sent", control_responses_sent);
   ("control_response_bytes_sent", control_response_bytes_sent);
   ("send_errors", send_errors);
   ("membership_updates_accepted", membership_updates_accepted);
   ("membership_records_applied", membership_records_applied);
   ("teardowns_accepted", teardowns_accepted);
   ("auth_rejections", auth_rejections);
   ("gateways_expired", gateways_expired);
   ("upstream_subscription_adds", upstream_subscription_adds);
   ("upstream_subscription_removes", upstream_subscription_removes);
   ("upstream_reconcile_failures", upstream_reconcile_failures);
   ("upstream_worker_queue_drops", upstream_worker_queue_drops);
   ("upstream_worker_failures", upstream_worker_failures);
   ("upstream_packets_received", upstream_packets_received);
   ("upstream_bytes_received", upstream_bytes_received);
   ("upstream_packets_forwarded", upstream_packets_forwarded);
   ("upstream_bytes_forwarded", upstream_bytes_forwarded);
   ("upstream_unmatched_packets", upstream_unmatched_packets);
   ("upstream_forward_errors", upstream_forward_errors);
   ("upstream_mtu_drops", upstream_mtu_drops);
   ("upstream_fragments_sent", upstream_fragments_sent);
   ("upstream_pmtu_feedback_sent", upstream_pmtu_feedback_sent);
   ("upstream_pmtu_feedback_bytes_sent", upstream_pmtu_feedback_bytes_sent);
   ("upstream_pmtu_feedback_rate_limited", upstream_pmtu_feedback_rate_limited);
   ("upstream_pmtu_feedback_suppressed", upstream_pmtu_feedback_suppressed);
   ("upstream_pmtu_feedback_unavailable", upstream_pmtu_feedback_unavailable);
   ("upstream_pmtu_feedback_errors", upstream_pmtu_feedback_errors);
   ("relay_ecn_normal_mode_datagrams_sent", relay_ecn_normal_mode_datagrams_sent);
   ("gateway_discoveries_sent", gateway_discoveries_sent);
   ("gateway_membership_queries_received", gateway_membership_queries_received);
   ("gateway_membership_updates_sent", gateway_membership_updates_sent);
   ("gateway_membership_refreshes", gateway_membership_refreshes);
   ("gateway_teardowns_sent", gateway_teardowns_sent);
   ("driad_refreshes_started", driad_refreshes_started);
   ("driad_refreshes_succeeded", driad_refreshes_succeeded);
   ("driad_refreshes_failed", driad_refreshes_failed);
   ("driad_candidate_changes", driad_candidate_changes);
   ("driad_no_relay_withdrawals", driad_no_relay_withdrawals);
   ("driad_probes_started", driad_probes_started);
   ("driad_probe_timeouts", driad_probe_timeouts);
   ("driad_probe_errors", driad_probe_errors);
   ("driad_connections_established", driad_connections_established);
   ("driad_loaded_hold_downs", driad_loaded_hold_downs);
   ("driad_no_traffic_hold_downs", driad_no_traffic_hold_downs);
   ("driad_query_timeouts", driad_query_timeouts);
   ("multicast_data_received", multicast_data_received);
   ("multicast_data_bytes_received", multicast_data_bytes_received);
   ("gateway_ecn_ce_received", gateway_ecn_ce_received);
   ("gateway_ecn_ce_propagated", gateway_ecn_ce_propagated);
   ("gateway_ecn_currently_unused", gateway_ecn_currently_unused);
   ("gateway_ecn_invalid_drops", gateway_ecn_invalid_drops);
   ("downstream_packets_forwarded", downstream_packets_forwarded);
   ("downstream_bytes_forwarded", downstream_bytes_forwarded);
   ("downstream_non_multicast_packets", downstream_non_multicast_packets);
   ("downstream_forward_errors", downstream_forward_errors);
   ("local_queries_sent", local_queries_sent);
   ("local_membership_reports", local_membership_reports);
   ("local_membership_parse_errors", local_membership_parse_errors)].

Definition AmtMetricsCounters : Type := Counter → Z.
Definition no_counts : AmtMetricsCounters := λ _, 0.
(** [counters.c += n]. *)
Definition bump (c : Counter) (n : Z) (counters : AmtMetricsCounters) : AmtMetricsCounters :=
  λ c', if bool_decide (c = c') then counters c' + n else counters c'.
Definition delta_since (counters earlier : AmtMetricsCounters) : AmtMetricsCounters :=
  λ c, saturating_sub (counters c) (earlier c).

Record RelayMetricsGauges := mkRelayGauges {
  active_gateways : Z;
  active_upstream_subscriptions : Z;
  upstream_capture_sockets : Z;
  upstream_queue_depth : Z;
  upstream_queue_high_water : Z
}.
Record GatewayMetricsGauges := mkGatewayGauges {
  relay_connected : bool;
  downstream_enabled : bool;
  transparent_enabled : bool;
  configured_joins : Z;
  driad_source_tunnels : Z;
  driad_active_tunnels : Z;
  driad_candidate_probes : Z;
  driad_held_down_relays : Z
}.
Inductive MetricsGauges := GRelay (g : RelayMetricsGauges) | GGateway (g : GatewayMetricsGauges).
Record MetricsSnapshot := mkSnapshot {
  sn_captured_at : Z;
  sn_counters : AmtMetricsCounters;
  sn_gauges : MetricsGauges
}.

(** A value of the JSON object; a rate is [count] over [interval] nanoseconds. *)
Inductive value := VNumber (n : Z) | VSeconds (nanos : Z) | VRate (count interval : Z).
#[export] Instance value_eq_dec : EqDecision value.
Proof. solve_decision. Defined.
Abbreviation sample := (gmap string value).

Definition extend_gauges (s : sample) (gauges : MetricsGauges) : sample :=
  let number name n (s : sample) := <[name:=VNumber n]> s in
  let flag name (b : bool) := number name (u8_of_bool b) in
  match gauges with
  | GRelay g =>
      number "upstream_queue_high_water" (upstream_queue_high_water g)
        (number "upstream_queue_depth" (upstream_queue_depth g)
          (number "upstream_capture_sockets" (upstream_capture_sockets g)
            (number "active_upstream_subscriptions" (active_upstream_subscriptions g)
              (number "active_gateways" (active_gateways g) s))))
  | GGateway g =>
      number "driad_held_down_relays" (driad_held_down_relays g)
        (number "driad_candidate_probes" (driad_candidate_probes g)
          (number "driad_active_tunnels" (driad_active_tunnels g)
            (number "driad_source_tunnels" (driad_source_tunnels g)
              (number "configured_joins" (configured_joins g)
                (flag "transparent_enabled" (transparent_enabled g)
                  (flag "downstream_enabled" (downstream_enabled g)
                    (flag "relay_connected" (relay_connected g) s)))))))
  end.

Definition counter (s : sample) (name : string) (total delta interval : Z) : sample :=
  <[String.append name "_per_sec" := VRate delta interval]>
    (<[String.append name "_delta" := VNumber delta]> (<[String.append name "_total" := VNumber total]> s)).
Definition extend_counters (s : sample) (total delta : AmtMetricsCounters) (interval : Z) : sample :=
  foldl (λ s '(name, c), counter s name (total c) (delta c) interval) s reported.

(** The seconds since the previous snapshot, at least a millisecond; a second if the clock of the
    system went back. *)
Definition sample_interval_nanos (previous current : MetricsSnapshot) : Z :=
  Z.max 1000000 (default NANOS_PER_SEC (checked_duration_since (sn_captured_at current) (sn_captured_at previous))).

Section recorder.
(** [unix_timestamp_secs] and the header row of the row writer. *)
Context (unix_timestamp_secs : Z → Z) {Header : Type}.

Definition metrics_sample_json (previous current : MetricsSnapshot) : sample :=
  let interval := sample_interval_nanos previous current in
  let delta := delta_since (sn_counters current) (sn_counters previous) in
  let s := <["interval_secs" := VSeconds interval]> (<["ts" := VNumber (unix_timestamp_secs (sn_captured_at current))]> ∅) in
  extend_counters (extend_gauges s (sn_gauges current)) (sn_counters current) delta interval.

(** The path of a file, and [Path::with_extension]. *)
Record path := mkPath { pa_directory : list string; pa_stem : string; pa_extension : string }.
Definition with_extension (p : path) (extension : string) : path := mkPath (pa_directory p) (pa_stem p) extension.

Class MetricsWorld (W : Type) := {
  instant_now : W → Z * W;
  system_now : W → Z * W;
  metadata_len : path → W → option Z * W;
  (** The error [None] is [ErrorKind::NotFound]. *)
  remove_file : path → M W (option string) unit;
  rename : path → path → M W string unit;
  ensure_single_header : path → Header → M W string unit;
  append_jsonl_sample_row : path → Header → sample → M W string unit
}.

Record MetricsWriter := mkWriter {
  mw_path : path;
  mw_header : Header;
  mw_sample_interval : Z;
  mw_next_emit_at : Z;
  mw_previous : option MetricsSnapshot;
  mw_max_file_bytes : option Z
}.
(** The configuration: where the rows go, and how often and how much is written. *)
Record MetricsConfig := mkMetricsConfig {
  mc_output_dir : option (list string);
  mc_node_id : string;
  mc_sample_interval : Z;
  mc_max_file_bytes : option Z
}.
Definition default_metrics_config : MetricsConfig :=
  mkMetricsConfig None "amt" (from_secs 1) (Some (64 * 1024 * 1024)).
Definition requested (c : MetricsConfig) : bool :=
  match mc_output_dir c with Some _ => negb (mc_sample_interval c =? 0) | None => false end.
(** [node_id.contains(['/', '\\', '\0'])]. *)
Definition path_separator (a : Ascii.ascii) : bool :=
  let code := Ascii.nat_of_ascii a in ((code =? 47) || (code =? 92) || (code =? 0))%nat.
Definition validate_metrics (c : MetricsConfig) : res string unit :=
  let node_id := mc_node_id c in
  if bool_decide (node_id = ""%string) || bool_decide (node_id = "."%string) || bool_decide (node_id = ".."%string)
     || existsb path_separator (String.list_ascii_of_string node_id)
  then Err "metrics node_id must be a non-empty path component"%string
  else Ok tt.

Record MetricsRecorder := mkRecorder { mr_counters : AmtMetricsCounters; mr_writer : option MetricsWriter }.

Context {W : Type} `{!MetricsWorld W}.

(** [MetricsRecorder::new] with the [metrics] feature; [header] is the row [header_json] builds. *)
Definition new_recorder (config : MetricsConfig) (stem : string) (header : Header) : M W string MetricsRecorder :=
  _ ← pure (validate_metrics config);
  if requested config then
    match mc_output_dir config with
    | None => mret (mkRecorder no_counts None)
    | Some output_dir =>
        let file := mkPath (output_dir ++ [mc_node_id config]) stem "jsonl" in
        catch (ensure_single_header file header)
          (λ _, now ← act instant_now;
            mret (mkRecorder no_counts (Some (mkWriter file header (mc_sample_interval config)
              (now + mc_sample_interval config) None (mc_max_file_bytes config)))))
          (λ _, mret (mkRecorder no_counts None))
    end
  else mret (mkRecorder no_counts None).

Definition next_emit_in (r : MetricsRecorder) : M W string (option Z) := λ w,
  match mr_writer r with
  | None => (Ok None, w)
  | Some writer => let '(now, w) := instant_now w in (Ok (Some (elapsed (mw_next_emit_at writer) now)), w)
  end.

Definition rotate_metrics_if_needed (writer : MetricsWriter) : M W string unit :=
  match mw_max_file_bytes writer with
  | None => mret tt
  | Some max_file_bytes =>
      if max_file_bytes =? 0 then mret tt
      else
        length ← act (metadata_len (mw_path writer));
        match length with
        | None => mret tt
        | Some length =>
            if length <? max_file_bytes then mret tt
            else
              let rotated := with_extension (mw_path writer) "jsonl.1" in
              _ ← catch (remove_file rotated) (λ _, mret tt)
                    (λ error, match error with None => mret tt | Some error => fail error end);
              _ ← rename (mw_path writer) rotated;
              ensure_single_header (mw_path writer) (mw_header writer)
        end
  end.

(** [maybe_emit]: the outcome and the recorder it leaves. *)
Definition maybe_emit (r : MetricsRecorder) (gauges : MetricsGauges) : M W string (res string bool * MetricsRecorder) := λ w,
  match mr_writer r with
  | None => (Ok (Ok false, r), w)
  | Some writer =>
      let '(now, w) := instant_now w in
      let rearmed previous :=
        mkWriter (mw_path writer) (mw_header writer) (mw_sample_interval writer) (now + mw_sample_interval writer)
          (Some previous) (mw_max_file_bytes writer) in
      match mw_previous writer with
      | None =>
          let '(captured_at, w) := system_now w in
          (Ok (Ok false, mkRecorder (mr_counters r) (Some (rearmed (mkSnapshot captured_at (mr_counters r) gauges)))), w)
      | Some previous =>
          if now <? mw_next_emit_at writer then (Ok (Ok false, r), w)
          else
            let '(captured_at, w) := system_now w in
            let snapshot := mkSnapshot captured_at (mr_counters r) gauges in
            let row := metrics_sample_json previous snapshot in
            catch (_ ← rotate_metrics_if_needed writer; append_jsonl_sample_row (mw_path writer) (mw_header writer) row)
              (λ _, mret (Ok true, mkRecorder (mr_counters r) (Some (rearmed snapshot))))
              (λ error, mret (Err error, mkRecorder (mr_counters r) None)) w
      end
  end.
End recorder.

(** * What the rows say *)

(** The keys and values that [extend_counters] writes, in order. *)
Definition entries (total delta : AmtMetricsCounters) (interval : Z) : list (string * value) :=
  reported ≫= λ '(name, c),
    [(String.append name "_total", VNumber (total c)); (String.append name "_delta", VNumber (delta c));
     (String.append name "_per_sec", VRate (delta c) interval)].

Lemma extend_counters_entries s total delta interval :
  extend_counters s total delta interval = foldl (λ s '(k, v), <[k:=v]> s) s (entries total delta interval).
Proof.
  unfold extend_counters, entries. generalize reported as l. intros l. revert s.
  induction l as [|[name c] l IH]; intros s; [done|]. cbn. by rewrite IH.
Qed.
Lemma foldl_insert_other (l : list (string * value)) (s : sample) k :
  k ∉ l.*1 → foldl (λ s '(k, v), <[k:=v]> s) s l !! k = s !! k.
Proof.
  revert s. induction l as [|[k' v] l IH]; intros s; [done|]. cbn [foldl]. rewrite fmap_cons, not_elem_of_cons. cbn [fst]. intros [Hk Hl].
  rewrite IH by done. by rewrite lookup_insert_ne.
Qed.
Lemma foldl_insert_lookup (l : list (string * value)) (s : sample) k v :
  NoDup l.*1 → (k, v) ∈ l → foldl (λ s '(k, v), <[k:=v]> s) s l !! k = Some v.
Proof.
  revert s. induction l as [|[k' v'] l IH]; intros s; [by intros _ ?%elem_of_nil|].
  rewrite fmap_cons. cbn [foldl fst]. intros [Hk Hl]%NoDup_cons [[= -> ->]|Hin]%elem_of_cons; [|by apply IH].
  rewrite foldl_insert_other by done. by rewrite lookup_insert_eq.
Qed.
Definition entry_keys : list string :=
  reported ≫= λ '(name, c), [String.append name "_total"; String.append name "_delta"; String.append name "_per_sec"].
Lemma entry_keys_NoDup : NoDup entry_keys.
Proof. decide_ok. Qed.
Lemma entries_keys total delta interval : (entries total delta interval).*1 = entry_keys.
Proof. done. Qed.

(** The row has the total, the increase and the rate of the counter. *)
Definition reports (row : sample) (name : string) (total delta interval : Z) : Prop :=
  row !! (String.append name "_total") = Some (VNumber total) ∧
  row !! (String.append name "_delta") = Some (VNumber delta) ∧
  row !! (String.append name "_per_sec") = Some (VRate delta interval).

Lemma extend_counters_reports s total delta interval name c :
  (name, c) ∈ reported → reports (extend_counters s total delta interval) name (total c) (delta c) interval.
Proof.
  intros Hin. unfold reports. rewrite extend_counters_entries.
  assert (NoDup (entries total delta interval).*1) as Hn by apply entry_keys_NoDup.
  split; [|split]; (apply foldl_insert_lookup; [done|]); unfold entries; apply list_elem_of_bind;
    exists (name, c); (split; [rewrite !elem_of_cons; tauto|done]).
Qed.

Section rows.
Context (unix_timestamp_secs : Z → Z) {Header W : Type} `{!MetricsWorld (Header:=Header) W}.
(** The rows that the writer has accepted. *)
Context (rows : W → list sample).

(** Calls return; only a successful append adds a row. *)
Definition silent {E A} (m : M W E A) : Prop :=
  ∀ w, mwp m (λ _ w', rows w' = rows w) (λ _ w', rows w' = rows w) w.
Class MetricsWorldOk : Prop := {
  instant_now_ok w : rows (instant_now w).2 = rows w;
  system_now_ok w : rows (system_now w).2 = rows w;
  metadata_len_ok p w : rows (metadata_len p w).2 = rows w;
  remove_file_ok p : silent (remove_file p);
  rename_ok p q : silent (rename p q);
  ensure_single_header_ok p header : silent (ensure_single_header p header);
  append_ok p header row w :
    mwp (append_jsonl_sample_row p header row) (λ _ w', rows w' = rows w ++ [row]) (λ _ w', rows w' = rows w) w
}.
Context `{!MetricsWorldOk}.

(** What happens to a recorder: counters grow, and samples are due. *)
Inductive event := Counted (c : Counter) (n : Z) | Sampled (gauges : MetricsGauges).
Definition recorder : Type := MetricsRecorder (Header:=Header).
Definition happen (st : recorder * W) (e : event) : recorder * W :=
  let '(r, w) := st in
  match e with
  | Counted c n => (mkRecorder (bump c n (mr_counters r)) (mr_writer r), w)
  | Sampled gauges =>
      match maybe_emit unix_timestamp_secs r gauges w with
      | (Ok (_, r), w) => (r, w)
      | (_, w) => (r, w)
      end
  end.
Definition event_ok (e : event) : Prop := match e with Counted _ n => 0 <= n | Sampled _ => True end.

Lemma rotate_silent writer : silent (rotate_metrics_if_needed (W:=W) writer).
Proof.
  intros w. unfold rotate_metrics_if_needed.
  destruct (mw_max_file_bytes writer) as [n|]; [|done]. destruct (n =? 0); [done|].
  apply mwp_bind, mwp_act. pose proof (metadata_len_ok (mw_path writer) w) as Hr.
  destruct (metadata_len _ w) as [[k|] w1]; cbn [fst snd] in *; [|done]. rewrite <- Hr. clear Hr w.
  destruct (k <? n); [done|]. apply mwp_bind, mwp_catch.
  eapply mwp_mono; [apply remove_file_ok|..].
  - intros _ w2 <-. apply mwp_ret, mwp_bind. eapply mwp_mono; [apply rename_ok| |done].
    intros _ w3 <-. apply ensure_single_header_ok.
  - intros [e|] w2 <-; [by apply mwp_fail|]. apply mwp_ret, mwp_bind. eapply mwp_mono; [apply rename_ok| |done].
    intros _ w3 <-. apply ensure_single_header_ok.
Qed.

(** From the total [base], the rows give totals up to [last], each the previous one
    plus its increase. *)
Inductive telescopes (name : string) (base : Z) : list sample → Z → Prop :=
| telescopes_nil : telescopes name base [] base
| telescopes_snoc l m row d interval :
    telescopes name base l m → 0 <= d → 0 < interval → reports row name (m + d) d interval →
    telescopes name base (l ++ [row]) (m + d).

(** The recorder [r], with the rows [new] since the total of [c] was [base]. *)
Definition sampled (name : string) (c : Counter) (base : Z) (new : list sample) (r : recorder) : Prop :=
  match mr_writer r with
  | Some writer =>
      ∃ p, mw_previous writer = Some p ∧ telescopes name base new (sn_counters p c) ∧ sn_counters p c <= mr_counters r c
  | None => ∃ last, telescopes name base new last
  end.

Lemma sample_reports p snapshot name c :
  (name, c) ∈ reported → sn_counters p c <= sn_counters snapshot c →
  reports (metrics_sample_json unix_timestamp_secs p snapshot) name
    (sn_counters p c + (sn_counters snapshot c - sn_counters p c)) (sn_counters snapshot c - sn_counters p c)
    (sample_interval_nanos p snapshot).
Proof.
  intros Hin Hle. unfold metrics_sample_json.
  replace (sn_counters p c + _) with (sn_counters snapshot c) by lia.
  replace (sn_counters snapshot c - sn_counters p c) with (delta_since (sn_counters snapshot) (sn_counters p) c).
  - by apply extend_counters_reports.
  - unfold delta_since, saturating_sub. lia.
Qed.

Lemma maybe_emit_wp name c base new r gauges w :
  (name, c) ∈ reported → sampled name c base new r →
  mwp (maybe_emit unix_timestamp_secs r gauges)
    (λ '(_, r') w', ∃ added, rows w' = rows w ++ added ∧ mr_counters r' = mr_counters r ∧ sampled name c base (new ++ added) r')
    (λ _ _, False) w.
Proof.
  intros Hin Hs. unfold mwp, maybe_emit. pose proof (instant_now_ok w) as Hi.
  destruct (mr_writer r) as [writer|] eqn:Hw; cbn [fst snd].
  2: { exists []. by rewrite !app_nil_r. }
  destruct (instant_now w) as [now w1]. cbn [fst snd] in Hi. pose proof (system_now_ok w1) as Hsy.
  pose proof Hs as Hs0. unfold sampled in Hs. rewrite Hw in Hs. destruct Hs as (p & Hp & Ht & Hle). rewrite Hp.
  destruct (now <? mw_next_emit_at writer); cbn [fst snd].
  { exists []. by rewrite !app_nil_r. }
  destruct (system_now w1) as [captured_at w2]. cbn [fst snd] in Hsy.
  set (snapshot := mkSnapshot captured_at (mr_counters r) gauges). rewrite <- Hi, <- Hsy. clear Hi Hsy w w1.
  match goal with |- wp (?m w2).1 ?Q ?R => change (mwp m (λ '(o, r') w', ∃ added, rows w' = rows w2 ++ added ∧
    mr_counters r' = mr_counters r ∧ sampled name c base (new ++ added) r') (λ _ _, False) w2) end.
  apply mwp_catch, mwp_bind. eapply mwp_mono; [apply rotate_silent|..].
  - intros [] w3 Hr3. rewrite <- Hr3. eapply mwp_mono; [apply append_ok|..].
    + intros [] w4 Hr. apply mwp_ret. eexists. split; [exact Hr|]. split; [done|].
      unfold sampled. cbn. exists snapshot. split; [done|]. cbn. split; [|lia].
      replace (mr_counters r c) with (sn_counters p c + (mr_counters r c - sn_counters p c)) by lia.
      eapply telescopes_snoc; [done|lia| |by apply (sample_reports p snapshot)].
      unfold sample_interval_nanos. lia.
    + intros e w4 Hr. apply mwp_ret. exists []. rewrite !app_nil_r. split; [done|]. split; [done|].
      unfold sampled. cbn. by eexists.
  - intros e w3 Hr. apply mwp_ret. exists []. rewrite !app_nil_r. split; [done|]. split; [done|].
    unfold sampled. cbn. by eexists.
Qed.

Definition counted (c : Counter) (events : list event) : Z :=
  foldr (λ e n, match e with Counted c' k => if bool_decide (c' = c) then k + n else n | Sampled _ => n end) 0 events.

Lemma counted_cons c e events : counted c (e :: events) = counted c [e] + counted c events.
Proof. unfold counted. destruct e as [c' n|]; cbn; [destruct (bool_decide _)|]; lia. Qed.

Lemma happen_ok name c base new r w e r' w' :
  (name, c) ∈ reported → event_ok e → sampled name c base new r → happen (r, w) e = (r', w') →
  ∃ added, rows w' = rows w ++ added ∧ mr_counters r' c = mr_counters r c + counted c [e] ∧
    sampled name c base (new ++ added) r'.
Proof.
  intros Hin He Hs Hh. destruct e as [c' n|gauges]; cbn in Hh.
  - simplify_eq. exists []. rewrite !app_nil_r. split; [done|]. cbn. unfold bump. split.
    + destruct (bool_decide _); lia.
    + unfold sampled in *. cbn. destruct (mr_writer r); [|done]. destruct Hs as (p & ? & ? & ?).
      exists p. split; [done|]. split; [done|]. cbn in He. destruct (bool_decide _); lia.
  - pose proof (maybe_emit_wp name c base new r gauges w Hin Hs) as Hm. unfold mwp in Hm.
    destruct (maybe_emit _ r gauges w) as [[[o r1]| | |] w1]; try done. simplify_eq/=.
    destruct Hm as (added & Hr & Hc & Hs'). exists added. rewrite Hc. split; [done|]. split; [lia|done].
Qed.

Lemma happens_ok name c base events : ∀ new r w r' w',
  (name, c) ∈ reported → Forall event_ok events → sampled name c base new r →
  foldl happen (r, w) events = (r', w') →
  mr_counters r' c = mr_counters r c + counted c events ∧
  ∃ added, rows w' = rows w ++ added ∧ sampled name c base (new ++ added) r'.
Proof.
  induction events as [|e events IH]; intros new r w r' w' Hin Hev Hs Hf; cbn [foldl] in Hf.
  - simplify_eq/=. split; [lia|]. exists []. by rewrite !app_nil_r.
  - apply Forall_cons in Hev as [He Hev]. destruct (happen (r, w) e) as [r1 w1] eqn:Hh.
    destruct (happen_ok _ _ _ _ _ _ _ _ _ Hin He Hs Hh) as (added & Hr & Hc & Hs1).
    destruct (IH _ _ _ _ _ Hin Hev Hs1 Hf) as [Hc' (added' & Hr' & Hs2)]. split.
    + rewrite Hc', Hc, (counted_cons c e events). ring.
    + exists (added ++ added'). by rewrite Hr', Hr, !(assoc_L (++)).
Qed.

(** The rows of a metrics file account for everything counted: from a snapshot on, each row has the
    total, the increase and the rate of every counter, each total is the previous one plus the
    row's increase, and the rows leave out exactly what was counted after the last one;
    a failed write ends the rows and changes no counter. *)
Theorem metrics_rows_telescope name c r w p events :
  (name, c) ∈ reported → Forall event_ok events →
  (mr_writer r ≫= mw_previous) = Some p → sn_counters p c <= mr_counters r c →
  let '(r', w') := foldl happen (r, w) events in
  mr_counters r' c = mr_counters r c + counted c events ∧
  ∃ new, rows w' = rows w ++ new ∧ sampled name c (sn_counters p c) new r'.
Proof.
  intros Hin Hev Hp Hle. assert (sampled name c (sn_counters p c) [] r) as Hs.
  { unfold sampled. destruct (mr_writer r) as [writer|]; [|done]. exists p. by split; [|split; [constructor|]]. }
  destruct (foldl happen (r, w) events) as [r' w'] eqn:Hf. by apply (happens_ok name c _ events []).
Qed.
End rows.

(** A recorder whose first row is written and whose second write fails. *)
#[export] Instance demo_metrics_world : MetricsWorld (Header:=unit) (list sample * Z) := {|
  instant_now := λ '(l, t), (t, (l, t + NANOS_PER_SEC));
  system_now := λ w, (w.2, w);
  metadata_len := λ _ w, (None, w);
  remove_file := λ _, mret tt;
  rename := λ _ _, mret tt;
  ensure_single_header := λ _ _, mret tt;
  append_jsonl_sample_row := λ _ _ row '(l, t),
    if (1 <=? len l) then (Err "disk full"%string, (l, t)) else (Ok tt, (l ++ [row], t))
|}.
#[export] Instance demo_metrics_world_ok : MetricsWorldOk (W:=list sample * Z) fst.
Proof.
  split; try done.
  - by intros [l t].
  - intros p header row [l t]. unfold mwp. cbn. by destruct (1 <=? len l).
Qed.
Definition demo_recorder : MetricsRecorder (Header:=unit) :=
  mkRecorder no_counts (Some (mkWriter (mkPath ["metrics"; "amt"] "amt-relay" "jsonl") tt NANOS_PER_SEC 0
    (Some (mkSnapshot 0 no_counts (GRelay (mkRelayGauges 0 0 0 0 0)))) None)).
Definition demo_events : list event :=
  let due := Sampled (GRelay (mkRelayGauges 1 1 1 0 0)) in
  [Counted upstream_mtu_drops 3; due; Counted upstream_mtu_drops 4; due; due].

Lemma metrics_rows_telescope_witness :
  let st := foldl (happen (λ t, t)) (demo_recorder, ([], 5)) demo_events in
  mr_writer st.1 = None ∧ len st.2.1 = 1 ∧ mr_counters st.1 upstream_mtu_drops = 7 ∧
  ∃ new, st.2.1 = new ∧ sampled "upstream_mtu_drops" upstream_mtu_drops 0 new st.1.
Proof.
  intros st. split; [by vm_compute|]. split; [by vm_compute|].
  pose proof (metrics_rows_telescope (λ t, t) fst "upstream_mtu_drops" upstream_mtu_drops demo_recorder ([], 5)
    (mkSnapshot 0 no_counts (GRelay (mkRelayGauges 0 0 0 0 0))) demo_events) as Hrows.
  fold st in Hrows. destruct st as [r' w'].
  destruct Hrows as [Hc (new & Hn & Hs)]; [decide_ok|by repeat constructor|done|done|].
  split; [exact Hc|]. by exists new.
Defined.
