(* ===== verification/RelayDaemon.v ===== *)
(** The variables of the relay daemon and what it asks of its surroundings, from
    [src/daemon.rs]: the loop [run_relay] owns the relay engine, the time each
    gateway was last heard of, the metrics, the logs and the path MTU feedback.

    The surroundings are the class [RelayWorld]: the clock, the tunnel socket, the capture
    worker, the raw socket for ICMP, the rate limiter and the shutdown flag. Lines written to the
    terminal are left out; texts that show an address or an error are kept as the parts
    they are made of. *)

From stdpp Require Import strings.
From S2P Require Import Prelude Net Effects Ip State Relay Ecn Mtu Pmtu Forward Upstream Worker Metrics Query.

Definition MAX_CONTROL_DRAIN : nat := 128.
Definition MAX_RELAY_DATA_DRAIN : Z := 512.
Definition RELAY_DATA_FAIRNESS_BUDGET : Z := 2000000.
Definition RELAY_IDLE_MAINTENANCE_INTERVAL : Z := 1000000000.
Definition DATA_LOG_INTERVAL : Z := 5000000000.
Definition DEFAULT_GATEWAY_IDLE_TIMEOUT : Z := 260000000000.
Definition DEFAULT_GATEWAY_PRUNE_INTERVAL : Z := 5000000000.
Definition DEFAULT_RELAY_PATH_MTU : Z := 1500.
Definition DEFAULT_CONTROL_RATE_PER_SECOND : Z := 10.
Definition DEFAULT_CONTROL_RATE_BURST : Z := 20.
Definition DEFAULT_GLOBAL_CONTROL_RATE_PER_SECOND : Z := 1000.
Definition DEFAULT_GLOBAL_CONTROL_RATE_BURST : Z := 2000.

(** ** Logs *)

(** A log text. *)
Inductive LogText :=
| Text (s : string)
| JoinFailed (peer : SocketAddr) (error : string)
| SendFailed (endpoint : SocketAddr) (error : string)
| FeedbackFailed (error : PmtuFeedbackError string).

Record ErrorSummary := mkErrorSummary {
  er_last_emit : Z;
  er_count : Z;
  er_last_error : option LogText
}.
Definition new_error_summary (now : Z) : ErrorSummary := mkErrorSummary now 0 None.
Definition record_error (error : LogText) (l : ErrorSummary) : ErrorSummary :=
  mkErrorSummary (er_last_emit l) (er_count l + 1) (Some error).
(** The lines printed are the number of events and the last error. *)
Definition maybe_emit_errors (now : Z) (l : ErrorSummary) : option (Z * option LogText) * ErrorSummary :=
  if (er_count l =? 0) || (elapsed now (er_last_emit l) <? DATA_LOG_INTERVAL) then (None, l)
  else (Some (er_count l, er_last_error l), mkErrorSummary now 0 None).

Record RelayDataLog := mkDataLog {
  dl_last_emit : Z;
  dl_received_packets : Z;
  dl_received_bytes : Z;
  dl_forwarded_packets : Z;
  dl_forwarded_bytes : Z;
  dl_forwarded_gateway_sends : Z;
  dl_unmatched_packets : Z;
  dl_last_unmatched_protocol : option string;
  dl_worker_queue_drops : Z;
  dl_send_errors : Z;
  dl_last_send_error : option LogText;
  dl_mtu_drops : Z;
  dl_last_mtu_drop : option string
}.
Definition new_data_log (now : Z) : RelayDataLog := mkDataLog now 0 0 0 0 0 0 None 0 0 None 0 None.
Definition record_worker_activity (packets nbytes drops : Z) (l : RelayDataLog) : RelayDataLog :=
  mkDataLog (dl_last_emit l) (dl_received_packets l + packets) (dl_received_bytes l + nbytes) (dl_forwarded_packets l)
    (dl_forwarded_bytes l) (dl_forwarded_gateway_sends l) (dl_unmatched_packets l) (dl_last_unmatched_protocol l)
    (dl_worker_queue_drops l + drops) (dl_send_errors l) (dl_last_send_error l) (dl_mtu_drops l) (dl_last_mtu_drop l).
Definition record_unmatched (protocol : string) (l : RelayDataLog) : RelayDataLog :=
  mkDataLog (dl_last_emit l) (dl_received_packets l) (dl_received_bytes l) (dl_forwarded_packets l)
    (dl_forwarded_bytes l) (dl_forwarded_gateway_sends l) (dl_unmatched_packets l + 1) (Some protocol)
    (dl_worker_queue_drops l) (dl_send_errors l) (dl_last_send_error l) (dl_mtu_drops l) (dl_last_mtu_drop l).
Definition record_forwarded (nbytes gateway_sends : Z) (l : RelayDataLog) : RelayDataLog :=
  if gateway_sends =? 0 then l
  else
    mkDataLog (dl_last_emit l) (dl_received_packets l) (dl_received_bytes l) (dl_forwarded_packets l + 1)
      (dl_forwarded_bytes l + saturating_mul nbytes gateway_sends) (dl_forwarded_gateway_sends l + gateway_sends)
      (dl_unmatched_packets l) (dl_last_unmatched_protocol l) (dl_worker_queue_drops l) (dl_send_errors l)
      (dl_last_send_error l) (dl_mtu_drops l) (dl_last_mtu_drop l).
Definition record_send_error (error : LogText) (l : RelayDataLog) : RelayDataLog :=
  mkDataLog (dl_last_emit l) (dl_received_packets l) (dl_received_bytes l) (dl_forwarded_packets l)
    (dl_forwarded_bytes l) (dl_forwarded_gateway_sends l) (dl_unmatched_packets l) (dl_last_unmatched_protocol l)
    (dl_worker_queue_drops l) (dl_send_errors l + 1) (Some error) (dl_mtu_drops l) (dl_last_mtu_drop l).
Definition record_mtu_drop (reason : string) (l : RelayDataLog) : RelayDataLog :=
  mkDataLog (dl_last_emit l) (dl_received_packets l) (dl_received_bytes l) (dl_forwarded_packets l)
    (dl_forwarded_bytes l) (dl_forwarded_gateway_sends l) (dl_unmatched_packets l) (dl_last_unmatched_protocol l)
    (dl_worker_queue_drops l) (dl_send_errors l) (dl_last_send_error l) (dl_mtu_drops l + 1) (Some reason).
Definition has_events (l : RelayDataLog) : bool :=
  negb (dl_received_packets l =? 0) || negb (dl_worker_queue_drops l =? 0) || negb (dl_send_errors l =? 0)
  || negb (dl_mtu_drops l =? 0).
(** The summary printed is the log itself; then it is reset. *)
Definition maybe_emit_data (now : Z) (l : RelayDataLog) : option RelayDataLog * RelayDataLog :=
  if (elapsed now (dl_last_emit l) <? DATA_LOG_INTERVAL) || negb (has_events l) then (None, l)
  else (Some l, new_data_log now).

(** ** Configuration *)

Record RelayDaemonConfig := mkRelayDaemonConfig {
  rdc_relay : RelayConfig;
  rdc_upstream : UpstreamConfig;
  rdc_gateway_idle_timeout : option Z;
  rdc_gateway_prune_interval : Z;
  rdc_path_mtu : Z;
  rdc_pmtu_feedback : bool;
  rdc_control_rate_per_second : Z;
  rdc_control_rate_burst : Z;
  rdc_global_control_rate_per_second : Z;
  rdc_global_control_rate_burst : Z;
  rdc_metrics : MetricsConfig
}.
Definition new_relay_daemon_config (relay : RelayConfig) : RelayDaemonConfig :=
  mkRelayDaemonConfig relay (mkUpstreamConfig None None) (Some DEFAULT_GATEWAY_IDLE_TIMEOUT)
    DEFAULT_GATEWAY_PRUNE_INTERVAL DEFAULT_RELAY_PATH_MTU false DEFAULT_CONTROL_RATE_PER_SECOND
    DEFAULT_CONTROL_RATE_BURST DEFAULT_GLOBAL_CONTROL_RATE_PER_SECOND DEFAULT_GLOBAL_CONTROL_RATE_BURST
    default_metrics_config.
(** The error carries the timeout and the advertised interval. *)
Definition validate_relay_daemon (c : RelayDaemonConfig) : res (Z * Z) unit :=
  match rdc_gateway_idle_timeout c with
  | None => Ok tt
  | Some timeout =>
      let advertised_interval := query_interval (query_interval_code (rc_general_query (rdc_relay c))) in
      if timeout <=? advertised_interval then Err (timeout, advertised_interval) else Ok tt
  end.

(** ** Path MTU feedback *)

Inductive RelayPmtuOutcome :=
| PmtuDisabled
| PmtuSent (bytes_sent : Z)
| PmtuRateLimited
| PmtuSuppressed
| PmtuAddressFamilyUnavailable
| PmtuFailed (error : PmtuFeedbackError string).

(** [enabled] and [sender]; the [pmtu-feedback] feature is on. *)
Record RelayPmtuFeedback := mkPmtuFeedback { pf_enabled : bool; pf_sender : option PmtuFeedbackSender }.

(** ** The daemon *)

Record RelayDaemon := mkDaemon {
  rd_relay : Relay;
  rd_activity : gmap SocketAddr Z;
  rd_counters : AmtMetricsCounters;
  rd_error_log : ErrorSummary;
  rd_data_log : RelayDataLog;
  rd_pmtu : RelayPmtuFeedback;
  rd_last_gateway_prune : Z;
  rd_accounted : UpstreamWorkerCounters
}.
Definition with_relay (r : Relay) (d : RelayDaemon) : RelayDaemon :=
  mkDaemon r (rd_activity d) (rd_counters d) (rd_error_log d) (rd_data_log d) (rd_pmtu d) (rd_last_gateway_prune d) (rd_accounted d).
Definition with_activity (a : gmap SocketAddr Z) (d : RelayDaemon) : RelayDaemon :=
  mkDaemon (rd_relay d) a (rd_counters d) (rd_error_log d) (rd_data_log d) (rd_pmtu d) (rd_last_gateway_prune d) (rd_accounted d).
Definition count (c : Counter) (n : Z) (d : RelayDaemon) : RelayDaemon :=
  mkDaemon (rd_relay d) (rd_activity d) (bump c n (rd_counters d)) (rd_error_log d) (rd_data_log d) (rd_pmtu d)
    (rd_last_gateway_prune d) (rd_accounted d).
Definition log_error (t : LogText) (d : RelayDaemon) : RelayDaemon :=
  mkDaemon (rd_relay d) (rd_activity d) (rd_counters d) (record_error t (rd_error_log d)) (rd_data_log d) (rd_pmtu d)
    (rd_last_gateway_prune d) (rd_accounted d).
Definition with_data_log (f : RelayDataLog → RelayDataLog) (d : RelayDaemon) : RelayDaemon :=
  mkDaemon (rd_relay d) (rd_activity d) (rd_counters d) (rd_error_log d) (f (rd_data_log d)) (rd_pmtu d)
    (rd_last_gateway_prune d) (rd_accounted d).
Definition with_pmtu (p : RelayPmtuFeedback) (d : RelayDaemon) : RelayDaemon :=
  mkDaemon (rd_relay d) (rd_activity d) (rd_counters d) (rd_error_log d) (rd_data_log d) p
    (rd_last_gateway_prune d) (rd_accounted d).
Definition with_last_prune (now : Z) (d : RelayDaemon) : RelayDaemon :=
  mkDaemon (rd_relay d) (rd_activity d) (rd_counters d) (rd_error_log d) (rd_data_log d) (rd_pmtu d) now (rd_accounted d).
Definition with_accounted (s : UpstreamWorkerCounters) (d : RelayDaemon) : RelayDaemon :=
  mkDaemon (rd_relay d) (rd_activity d) (rd_counters d) (rd_error_log d) (rd_data_log d) (rd_pmtu d)
    (rd_last_gateway_prune d) s.
Definition with_error_log (l : ErrorSummary) (d : RelayDaemon) : RelayDaemon :=
  mkDaemon (rd_relay d) (rd_activity d) (rd_counters d) l (rd_data_log d) (rd_pmtu d)
    (rd_last_gateway_prune d) (rd_accounted d).

(** An error of the socket: [ErrorKind::WouldBlock], or another one. *)
Inductive IoError := WouldBlock | IoOther (error : string).

Class RelayWorld (W : Type) := {
  now : W → Z * W;
  (** What the random generator gives, should the engine need a new secret. *)
  fresh_secret : W → option RelaySecret * W;
  recv_from : M W IoError (list Z * SocketAddr);
  send_to : list Z → SocketAddr → EcnCodepoint → M W string Z;
  rearm : M W string unit;
  rate_limiter_allow : IpAddr → W → bool * W;
  upstream_reconcile : list UpstreamSubscription → M W string UpstreamReconcile;
  upstream_try_recv : M W string (option UpstreamDatagram);
  upstream_snapshot : W → UpstreamWorkerCounters * W;
  upstream_check_failure : M W string unit;
  icmp_send : list Z → M W string Z;
  (** [metrics.maybe_emit_relay], whose error is only reported. *)
  emit_metrics : RelayMetricsGauges → AmtMetricsCounters → W → W;
  next_emit : W → option Z * W;
  shutdown_requested : W → bool * W;
  poller_wait : Z → M W string unit
}.

(** The code of the daemon: its variables and the world. *)
Definition Code (W A : Type) : Type := M (RelayDaemon * W) string A.

(** What the data plane does to the world, in order: it takes a captured datagram, tries to send a
    datagram to a gateway, hands an ICMP error to the raw socket. *)
Inductive event :=
| Received (datagram : UpstreamDatagram)
| Tried (datagram : list Z) (endpoint : SocketAddr) (ecn : EcnCodepoint) (ok : bool)
| Reported (packet : list Z).

(** ** A world

    One in which calls succeed and a number of subscriptions at most is granted; it keeps what
    was received and sent. *)
Record demo_world := mkDemoWorld {
  dw_clock : Z;
  dw_active : gset UpstreamSubscription;
  dw_limit : Z;
  dw_inbox : list (list Z * SocketAddr);
  dw_queue : list UpstreamDatagram;
  dw_trace : list event;
  dw_stopping : bool
}.
#[export] Instance demo_relay_world : RelayWorld demo_world := {|
  now w := (dw_clock w, w);
  fresh_secret w := (None, w);
  recv_from w :=
    match dw_inbox w with
    | [] => (Err WouldBlock, w)
    | (datagram, peer) :: inbox => (Ok (map (λ b, b mod 256) datagram, peer), mkDemoWorld (dw_clock w) (dw_active w) (dw_limit w) inbox (dw_queue w) (dw_trace w) (dw_stopping w))
    end;
  send_to datagram peer ecn w :=
    (Ok (len datagram), mkDemoWorld (dw_clock w) (dw_active w) (dw_limit w) (dw_inbox w) (dw_queue w)
                          (dw_trace w ++ [Tried datagram peer ecn true]) (dw_stopping w));
  rearm w := (Ok tt, w);
  rate_limiter_allow _ w := (true, w);
  upstream_reconcile l w :=
    if dw_limit w <? len l then (Err "refused"%string, w)
    else (Ok (mkReconcile (len l) 0 0 (len l)),
          mkDemoWorld (dw_clock w) (list_to_set l) (dw_limit w) (dw_inbox w) (dw_queue w) (dw_trace w) (dw_stopping w));
  upstream_try_recv w :=
    match dw_queue w with
    | [] => (Ok None, w)
    | d :: queue =>
        let p := ud_packet d in
        let d := mkUpstreamDatagram (ud_source d) (ud_group d)
                   (mkRawPacket (rp_source_ip p) (rp_group p) (rp_ip_protocol p) (map (λ b, b mod 256) (rp_datagram p))) in
        (Ok (Some d), mkDemoWorld (dw_clock w) (dw_active w) (dw_limit w) (dw_inbox w) queue (dw_trace w ++ [Received d]) (dw_stopping w))
    end;
  upstream_snapshot w := (default_counters, w);
  upstream_check_failure w := (Ok tt, w);
  icmp_send packet w :=
    (Ok (len packet), mkDemoWorld (dw_clock w) (dw_active w) (dw_limit w) (dw_inbox w) (dw_queue w) (dw_trace w ++ [Reported packet])
                        (dw_stopping w));
  emit_metrics _ _ w := w;
  next_emit w := (None, w);
  shutdown_requested w := (dw_stopping w, w);
  poller_wait _ w := (Ok tt, w)
|}.

Definition demo_daemon (r : Relay) (activity : gmap SocketAddr Z) : RelayDaemon :=
  mkDaemon r activity no_counts (new_error_summary 0) (new_data_log 0) (mkPmtuFeedback false None) 0 default_counters.

Lemma mod_bytes l : bytes (map (λ b, b mod 256) l).
Proof. induction l as [|b l IH]; constructor; [|done]. unfold u8. apply Z.mod_pos_bound. lia. Qed.
