(* ===== verification/RelayControl.v ===== *)
(** The control plane of the relay daemon, from [src/daemon.rs]: a membership change is
    committed only once its native subscriptions are joined, and gateways that stay
    silent are forgotten. *)

From stdpp Require Import strings.
From S2P Require Import Prelude Net Effects Protocol Ip Membership State Relay Ecn Upstream Worker Metrics RelayDaemon.

Section control.
Variable hmac : list Z → list Z → list Z.
Context {W : Type} `{!RelayWorld W}.

(** ** Gateway activity *)

Definition mark_seen (endpoint : SocketAddr) : Code W unit :=
  t ← lift (act now); modify (λ d, with_activity (<[endpoint := t]> (rd_activity d)) d).
Definition forget (endpoint : SocketAddr) : Code W unit :=
  modify (λ d, with_activity (delete endpoint (rd_activity d)) d).

Definition is_idle (timeout t last_seen : Z) : bool :=
  match checked_duration_since t last_seen with Some elapsed => timeout <=? elapsed | None => false end.
Definition stale_endpoints_at (timeout t : Z) (activity : gmap SocketAddr Z) : list SocketAddr :=
  omap (λ '(endpoint, last_seen), if is_idle timeout t last_seen then Some endpoint else None) (btree_iter activity).

(** The loop of [prune_stale_gateways]: the number of gateways that expired. *)
Fixpoint prune_loop (stale : list SocketAddr) (expired : Z) : Code W Z :=
  match stale with
  | [] => mret expired
  | endpoint :: stale =>
      _ ← forget endpoint;
      relay ← gets rd_relay;
      let '(relay, removed) := remove_gateway relay endpoint in
      _ ← modify (with_relay relay);
      prune_loop stale (if removed then expired + 1 else expired)
  end.
Definition prune_stale_gateways (timeout : Z) : Code W Z :=
  t ← lift (act now);
  activity ← gets rd_activity;
  prune_loop (stale_endpoints_at timeout t activity) 0.

(** ** Subscriptions *)

Definition sync_upstream (state : RelayState) : Code W unit :=
  changes ← lift (upstream_reconcile (upstream_subscriptions state));
  _ ← modify (count upstream_subscription_adds (ur_added changes));
  _ ← modify (count upstream_subscription_removes (ur_removed changes));
  modify (count upstream_reconcile_failures (ur_failed_removals changes)).

(** ** Datagrams *)

(** The [match action] of [handle_amt_datagram]. *)
Definition perform (peer : SocketAddr) (action : RelayAction) : Code W unit :=
  match action with
  | Send response =>
      catch (lift (send_to response peer NotEct))
        (λ _, _ ← modify (count control_responses_sent 1); modify (count control_response_bytes_sent (len response)))
        (λ _, modify (count send_errors 1))
  | AcceptedMembershipUpdate _ _ records_applied _ =>
      _ ← modify (count membership_updates_accepted 1);
      _ ← modify (count membership_records_applied records_applied);
      present ← gets (λ d, contains_endpoint (relay_state (rd_relay d)) peer);
      if (present : bool) then mark_seen peer else forget peer
  | AcceptedTeardown gateway _ =>
      _ ← modify (count teardowns_accepted 1);
      forget (teardown_endpoint gateway)
  | RejectedAuth => modify (count auth_rejections 1)
  | Ignored => modify (count control_datagrams_ignored 1)
  end.

Definition handle_amt_datagram (peer : SocketAddr) (datagram : list Z) : Code W unit :=
  _ ← modify (count control_datagrams_received 1);
  t ← lift (act now);
  fresh ← lift (act fresh_secret);
  relay ← gets rd_relay;
  let '(relay, result) := prepare_datagram hmac t fresh relay peer datagram in
  _ ← modify (with_relay relay);
  match result with
  | Ok (action, None) => perform peer action
  | Ok (action, Some next_state) =>
      catch (sync_upstream next_state)
        (λ _, _ ← modify (λ d, with_relay (commit_state (rd_relay d) next_state) d); perform peer action)
        (λ error,
          _ ← modify (count upstream_reconcile_failures 1);
          present ← gets (λ d, contains_endpoint (relay_state (rd_relay d)) peer);
          _ ← (if (present : bool) then mark_seen peer else mret tt);
          modify (log_error (JoinFailed peer error)))
  | Err error =>
      _ ← modify (count control_datagrams_invalid 1);
      match error with
      | RResourceLimit _ => modify (count resource_limit_rejections 1)
      | _ => mret tt
      end
  | Panic => pure Panic
  | Diverge => pure Diverge
  end.

(** The periodic part of the loop of [run_relay]; [maintain_sync] is what follows the pruning. *)
Definition maintain_sync (expired : Z) : Code W unit :=
  _ ← (if expired =? 0 then mret tt else modify (count gateways_expired expired));
  state ← gets (λ d, relay_state (rd_relay d));
  _ ← catch (sync_upstream state) (λ _, mret tt) (λ error, modify (log_error (Text error)));
  t ← lift (act now);
  modify (with_last_prune t).
Definition maintain (gateway_idle_timeout : option Z) (gateway_prune_interval : Z) : Code W unit :=
  t ← lift (act now);
  last ← gets rd_last_gateway_prune;
  if elapsed t last <? gateway_prune_interval then mret tt
  else
    expired ← match gateway_idle_timeout with Some timeout => prune_stale_gateways timeout | None => mret 0 end;
    maintain_sync expired.
End control.

(** * What the engine asks for *)

Section engine.
Variable hmac : list Z → list Z → list Z.

(** The states an action comes with: an update changes its sender's endpoint only, a teardown
    removes the endpoint it names, and nothing else asks for a change. *)
Definition change_of (st : RelayState) (peer : SocketAddr) (action : RelayAction) (next : option RelayState) : Prop :=
  match action with
  | AcceptedMembershipUpdate _ _ _ _ =>
      ∀ st', next = Some st' → ∀ e, e ≠ peer → endpoints st' !! e = endpoints st !! e
  | AcceptedTeardown gateway _ =>
      match next with
      | None => endpoints st !! teardown_endpoint gateway = None
      | Some st' => endpoints st' = delete (teardown_endpoint gateway) (endpoints st)
      end
  | _ => next = None
  end.

Lemma prepare_update_change t r peer mac nonce update :
  state_ok (relay_state r) → bytes update →
  wp (prepare_update hmac t r peer mac nonce update) (λ '(action, next), change_of (relay_state r) peer action next) (λ _, True).
Proof.
  intros Hst Hb. unfold prepare_update. destruct (valid_response_mac _ _ _ _ _ _ _); [|done].
  destruct (_ && _); [done|]. apply wp_bind, wp_map_err.
  eapply wp_mono; [by apply parse_membership_report_with_limits_wp| |done]. intros report _.
  destruct (head _); [done|]. destruct (preview_report _ _ _) as [applied changed]. destruct changed; [|done]. cbn [negb].
  pose proof (apply_report_limited_spec (relay_state r) peer report (rc_limits (relay_config r)) Hst) as Hr.
  destruct (apply_report_limited _ _ _ _) as [next [n|e| |]]; try done.
  cbn in Hr. destruct Hr as [-> _]. cbn. intros st' [= <-] e He. rewrite endpoints_apply_report by done.
  case_bool_decide; [by rewrite lookup_delete_ne|by rewrite lookup_insert_ne].
Qed.

Lemma prepare_message_change t r peer message r' result :
  relay_ok r → message_wf message → prepare_message hmac t r peer message = (r', result) →
  wp result (λ '(action, next), change_of (relay_state r) peer action next) (λ _, True).
Proof.
  intros Hok Hwf Hp. destruct message as [n|n a|n p e|mac n l g q|mac n u|p|mac n g]; simpl in Hp; simplify_eq; try done.
  - by destruct (n =? 0).
  - rewrite query_response_ok; [done|]. apply (remember_ecn_ok t r peer e Hok).
  - apply prepare_update_change; [apply Hok|apply Hwf].
  - unfold prepare_teardown in Hp. destruct (valid_response_mac _ _ _ _ _ _ _); [|by simplify_eq].
    unfold contains_endpoint in Hp. cbn [relay_state set_capabilities] in Hp.
    destruct (bool_decide (is_Some _)) eqn:Hc; cbn [negb] in Hp.
    + unfold remove_endpoint in Hp. rewrite Hc in Hp. by simplify_eq/=.
    + simplify_eq/=. apply bool_decide_eq_false in Hc. by apply eq_None_not_Some.
Qed.

Lemma prepare_datagram_spec t fresh r peer datagram r' result :
  relay_ok r → bytes datagram → prepare_datagram hmac t fresh r peer datagram = (r', result) →
  relay_ok r' ∧ relay_state r' = relay_state r ∧
  wp result (λ '(action, next), change_of (relay_state r) peer action next ∧
    ∀ st, next = Some st → relay_ok (commit_state r' st)) (λ _, True).
Proof.
  intros Hok Hb. unfold prepare_datagram. pose proof (rotate_secret_ok t fresh r Hok) as Hok0.
  destruct (rotate_secret_settings t fresh r) as [_ Hst].
  set (r0 := rotate_secret_if_due t fresh r) in *. pose proof (decode_wp datagram) as Hd.
  destruct (decode datagram) as [message|e| |] eqn:Hdec; try done; cbn [map_err]; [|by intros; simplify_eq].
  pose proof (decode_bytes_wf _ _ Hb Hdec) as Hwf. intros Hm.
  destruct (prepare_message_spec hmac t r0 peer message r' result Hok0 Hwf Hm) as (Hok1 & Hc1 & Hs1 & _ & _ & Hres).
  pose proof (prepare_message_change t r0 peer message r' result Hok0 Hwf Hm) as Hch.
  split; [done|]. split; [congruence|]. rewrite <- Hst. destruct result as [[action next]|e| |]; try done.
  cbn in *. split; [done|]. intros st ->. destruct (justified_ok _ _ _ _ _ _ Hok0 Hres) as [H1 H2].
  rewrite <- Hc1 in H2. destruct Hok1 as (_ & _ & ? & ?). by split_and!.
Qed.
End engine.

(** * The daemon's invariant *)

Section invariant.
Variable hmac : list Z → list Z → list Z.
Context {W : Type} `{!RelayWorld W}.

(** What the control plane relies on: calls return; [active] is what is subscribed natively: an accepted
    reconciliation covers what was asked for, a refused one changes nothing, and no other
    call changes it. *)
Class RelayWorldOk (active : W → gset UpstreamSubscription) : Prop := {
  now_ok w : active (now w).2 = active w;
  fresh_secret_ok w : active (fresh_secret w).2 = active w;
  recv_from_ok w :
    mwp recv_from (λ '(datagram, _) w', bytes datagram ∧ active w' = active w) (λ _ w', active w' = active w) w;
  send_to_ok datagram peer ecn w :
    mwp (send_to datagram peer ecn) (λ _ w', active w' = active w) (λ _ w', active w' = active w) w;
  upstream_reconcile_ok l w :
    mwp (upstream_reconcile l) (λ _ w', list_to_set l ⊆ active w') (λ _ w', active w' = active w) w
}.
Context (active : W → gset UpstreamSubscription) `{!RelayWorldOk active}.

(** [lost] is what an earlier maintenance pass could not subscribe. *)
Record control_ok (lost : gset UpstreamSubscription) (d : RelayDaemon) (w : W) : Prop := {
  co_relay : relay_ok (rd_relay d);
  co_activity : dom (rd_activity d) = dom (endpoints (relay_state (rd_relay d)));
  co_joined : list_to_set (upstream_subscriptions (relay_state (rd_relay d))) ⊆ active w ∪ lost
}.

Lemma mwp_now (Q : Z → RelayDaemon * W → Prop) (R : string → RelayDaemon * W → Prop) d w :
  (∀ t w', active w' = active w → Q t (d, w')) → mwp (lift (act now)) Q R (d, w).
Proof. intros HQ. apply mwp_lift, mwp_act, HQ, now_ok. Qed.

Lemma mark_seen_wp endpoint (Q : unit → RelayDaemon * W → Prop) (R : string → RelayDaemon * W → Prop) d w :
  (active (now w).2 = active w → Q tt (with_activity (<[endpoint := (now w).1]> (rd_activity d)) d, (now w).2)) →
  mwp (mark_seen endpoint) Q R (d, w).
Proof. intros HQ. unfold mark_seen. apply mwp_bind, mwp_lift, mwp_act, mwp_modify, HQ, now_ok. Qed.

Lemma dom_agree (a : gmap SocketAddr Z) (es es' : gmap SocketAddr EndpointState) e :
  dom a = dom es → (∀ e', e' ≠ e → es' !! e' = es !! e') →
  dom (delete e a) = dom (delete e es') ∧ ∀ t, dom (<[e := t]> a) = {[e]} ∪ dom es'.
Proof.
  intros Hd He. assert (∀ x, x ≠ e → x ∈ dom a ↔ x ∈ dom es') as Hx.
  { intros x Hx. by rewrite Hd, !elem_of_dom, He. }
  split; [|intros t]; apply set_eq; intros x; rewrite ?dom_delete, ?dom_insert.
  - destruct (decide (x = e)) as [->|Hne]; [set_solver|]. specialize (Hx x Hne). set_solver.
  - destruct (decide (x = e)) as [->|Hne]; [set_solver|]. specialize (Hx x Hne). set_solver.
Qed.

(** What an action leaves, from the world [w] on: a response is handed to the socket, for the peer;
    an accepted update notes the time of the peer while it has membership, and forgets the peer
    otherwise; an accepted teardown forgets the endpoint it names; nothing else is touched. *)
Definition performed (peer : SocketAddr) (action : RelayAction) (d : RelayDaemon) (w : W) (d' : RelayDaemon) (w' : W) : Prop :=
  match action with
  | Send response => rd_activity d' = rd_activity d ∧ w' = (send_to response peer NotEct w).2
  | AcceptedMembershipUpdate _ _ _ _ =>
      if contains_endpoint (relay_state (rd_relay d')) peer
      then rd_activity d' = <[peer := (now w).1]> (rd_activity d) ∧ w' = (now w).2
      else rd_activity d' = delete peer (rd_activity d) ∧ w' = w
  | AcceptedTeardown gateway _ => rd_activity d' = delete (teardown_endpoint gateway) (rd_activity d) ∧ w' = w
  | RejectedAuth | Ignored => rd_activity d' = rd_activity d ∧ w' = w
  end.

Lemma perform_wp lost peer action next st0 d w :
  relay_ok (rd_relay d) → dom (rd_activity d) = dom (endpoints st0) → change_of st0 peer action next →
  relay_state (rd_relay d) = default st0 next → list_to_set (upstream_subscriptions (relay_state (rd_relay d))) ⊆ active w ∪ lost →
  mwp (perform peer action) (λ _ '(d', w'), control_ok lost d' w' ∧ rd_relay d' = rd_relay d ∧ rd_pmtu d' = rd_pmtu d ∧
    performed peer action d w d' w') (λ _ _, False) (d, w).
Proof.
  intros Hok Hd Hc Hst Hj. destruct action as [response|protocol nbytes records subs|gateway removed| |]; cbn [perform].
  - cbn in Hc. subst next. cbn in Hst. apply mwp_catch, mwp_lift. eapply mwp_mono; [apply mwp_known, send_to_ok|..].
    + intros ? w' [Hw Hs]. repeat mwp_step. cbn. rewrite Hs. split; [|done]. split; cbn; [done|by rewrite Hst|by rewrite Hw].
    + intros ? w' [Hw Hs]. repeat mwp_step. cbn. rewrite Hs. split; [|done]. split; cbn; [done|by rewrite Hst|by rewrite Hw].
  - do 6 mwp_step.
    assert (∀ e, e ≠ peer → endpoints (relay_state (rd_relay d)) !! e = endpoints st0 !! e) as He.
    { rewrite Hst. destruct next as [st'|]; [|done]. by apply Hc. }
    destruct (dom_agree (rd_activity d) (endpoints st0) _ peer Hd He) as [Hdel Hins].
    unfold performed, contains_endpoint. cbn [rd_relay count]. case_bool_decide as Hin.
    + apply mark_seen_wp. intros Hw. cbn [rd_relay with_activity count]. rewrite bool_decide_true by done.
      split; [|done]. split; cbn; [done| |by rewrite Hw].
      rewrite Hins. apply elem_of_dom in Hin. set_solver.
    + unfold forget. mwp_step. cbn [rd_relay with_activity count]. rewrite bool_decide_false by done.
      split; [|done]. split; cbn; [done| |done]. rewrite Hdel. rewrite delete_id; [done|].
      by apply eq_None_not_Some.
  - unfold forget. do 3 mwp_step. split; [|done]. split; cbn; [done| |done]. rewrite Hst, dom_delete_L, Hd.
    cbn in Hc. destruct next as [st'|]; cbn.
    + by rewrite Hc, dom_delete_L.
    + apply not_elem_of_dom in Hc. set_solver.
  - cbn in Hc. subst next. mwp_step. cbn in *. split; [|done]. split; cbn; [done|by rewrite Hst|done].
  - cbn in Hc. subst next. mwp_step. cbn in *. split; [|done]. split; cbn; [done|by rewrite Hst|done].
Qed.

Lemma sync_upstream_wp st d w :
  mwp (sync_upstream st)
    (λ _ '(d', w'), rd_relay d' = rd_relay d ∧ rd_activity d' = rd_activity d ∧ rd_pmtu d' = rd_pmtu d ∧
       list_to_set (upstream_subscriptions st) ⊆ active w' ∧ rd_error_log d' = rd_error_log d ∧
       ∃ changes, upstream_reconcile (upstream_subscriptions st) w = (Ok changes, w'))
    (λ e '(d', w'), d' = d ∧ active w' = active w ∧ upstream_reconcile (upstream_subscriptions st) w = (Err e, w')) (d, w).
Proof.
  unfold sync_upstream. mwp_step. mwp_step. eapply mwp_mono; [apply mwp_known, upstream_reconcile_ok|..].
  - intros changes w' [Hw Hs]. repeat mwp_step. split_and!; [done..|by exists changes].
  - by intros e w' [Hw Hs].
Qed.

(** What a datagram has done, with the time and the secret read from the world [w]. Where the engine
    asks for a change of state, the native reconciliation decides: accepted, the relay is the one the engine
    computes; refused, the engine's change is not committed, the refusal is logged, and the
    peer counts as heard of if it has membership. *)
Definition handled (peer : SocketAddr) (datagram : list Z) (d : RelayDaemon) (w : W) (d' : RelayDaemon) (w' : W) : Prop :=
  let t := (now w).1 in
  let fresh := (fresh_secret (now w).2).1 in
  let w1 := (fresh_secret (now w).2).2 in
  let prepared := prepare_datagram hmac t fresh (rd_relay d) peer datagram in
  let computed := (handle_datagram hmac t fresh (rd_relay d) peer datagram).1 in
  match prepared.2 with
  | Ok (action, None) => rd_relay d' = computed ∧ performed peer action d w1 d' w'
  | Ok (action, Some next) =>
      match upstream_reconcile (upstream_subscriptions next) w1 with
      | (Ok _, w2) => rd_relay d' = computed ∧ performed peer action d w2 d' w'
      | (Err error, w2) =>
          rd_relay d' = prepared.1 ∧ relay_state (rd_relay d') = relay_state (rd_relay d) ∧
          rd_error_log d' = record_error (JoinFailed peer error) (rd_error_log d) ∧
          if contains_endpoint (relay_state (rd_relay d)) peer
          then rd_activity d' = <[peer := (now w2).1]> (rd_activity d) ∧ w' = (now w2).2
          else rd_activity d' = rd_activity d ∧ w' = w2
      | _ => False
      end
  | Err _ => rd_relay d' = computed ∧ rd_activity d' = rd_activity d ∧ w' = w1
  | _ => False
  end.

Lemma performed_from peer action d0 d w d' w' :
  rd_activity d0 = rd_activity d → performed peer action d0 w d' w' → performed peer action d w d' w'.
Proof. intros Ha. unfold performed. by rewrite Ha. Qed.

(** The refused change. *)
Lemma refuse_wp lost peer (error : string) d w :
  control_ok lost d w →
  mwp (_ ← modify (count upstream_reconcile_failures 1);
       present ← gets (λ d, contains_endpoint (relay_state (rd_relay d)) peer);
       _ ← (if (present : bool) then mark_seen peer else mret tt);
       modify (log_error (JoinFailed peer error)))
    (λ _ '(d', w'), control_ok lost d' w' ∧ rd_relay d' = rd_relay d ∧ rd_pmtu d' = rd_pmtu d ∧
       rd_error_log d' = record_error (JoinFailed peer error) (rd_error_log d) ∧
       if contains_endpoint (relay_state (rd_relay d)) peer
       then rd_activity d' = <[peer := (now w).1]> (rd_activity d) ∧ w' = (now w).2
       else rd_activity d' = rd_activity d ∧ w' = w) (λ _ _, False) (d, w).
Proof.
  intros [Hok Hd Hj]. do 4 mwp_step. cbn [rd_relay count]. mwp_step. unfold contains_endpoint. case_bool_decide as Hin.
  - apply mark_seen_wp. intros Hw. mwp_step. split; [|done]. split; cbn; [done| |by rewrite Hw].
    rewrite dom_insert_L, Hd. apply elem_of_dom in Hin. set_solver.
  - mwp_step. mwp_step. by split; [split|].
Qed.

Lemma handle_amt_datagram_wp lost peer datagram d w :
  control_ok lost d w → bytes datagram →
  mwp (handle_amt_datagram hmac peer datagram)
    (λ _ '(d', w'), control_ok lost d' w' ∧ handled peer datagram d w d' w' ∧ rd_pmtu d' = rd_pmtu d)
    (λ _ _, False) (d, w).
Proof.
  intros [Hok Hd Hj] Hb. unfold handle_amt_datagram. do 4 mwp_step. apply mwp_act.
  mwp_step. mwp_step. apply mwp_act. mwp_step. mwp_step. cbn [rd_relay count].
  unfold handled, handle_datagram. cbv zeta.
  assert (active (fresh_secret (now w).2).2 = active w) as Hw by (by rewrite fresh_secret_ok, now_ok).
  set (w1 := (fresh_secret (now w).2).2) in *. set (t := (now w).1). set (fresh := (fresh_secret (now w).2).1).
  destruct (prepare_datagram hmac t fresh (rd_relay d) peer datagram) as [r result] eqn:Hp.
  destruct (prepare_datagram_spec hmac t fresh _ peer datagram r result Hok Hb Hp) as (Hok1 & Hst & Hres).
  mwp_step. mwp_step. cbn [fst snd].
  assert (list_to_set (upstream_subscriptions (relay_state r)) ⊆ active w1 ∪ lost) as Hj2 by (by rewrite Hst, Hw).
  destruct result as [[action [next|]]|e| |]; try done; cbn [wp] in Hres.
  - destruct Hres as [Hc Hcommit]. mwp_step. eapply mwp_mono; [apply sync_upstream_wp|..].
    + intros [] [d3 w3] (Hr3 & Ha3 & Hm3 & Hj3 & _ & changes & ->). cbn in Hr3, Ha3, Hm3. mwp_step. mwp_step.
      eapply mwp_mono; [eapply (perform_wp lost peer action (Some next) (relay_state (rd_relay d))); cbn|..]; rewrite ?Hr3, ?Ha3; try done.
      * by apply Hcommit.
      * by apply union_subseteq_l'.
      * intros ? [d4 w4] (? & Hr4 & Hm4 & Hf). split; [done|]. cbn in Hm4, Hr4. rewrite Hr4, Hm4. split; [|done]. split; [done|].
        eapply performed_from; [|exact Hf]. done.
    + intros e [d3 w3] (-> & Hw3 & ->). eapply mwp_mono; [apply (refuse_wp lost)| |done].
      { split; cbn; [done|by rewrite Hd, Hst|by rewrite Hw3]. }
      intros ? [d4 w4] (? & Hr4 & Hm4 & Hl4 & Ha4). cbn in Hr4, Hm4, Hl4, Ha4. rewrite Hr4, Hm4, Hst. by rewrite Hst in Ha4.
  - destruct Hres as [Hc _].
    eapply mwp_mono; [eapply (perform_wp lost peer action None (relay_state (rd_relay d))); try done; exact Hj2|..]; [|done].
    intros ? [d4 w4] (? & Hr4 & Hm4 & Hf). split; [done|]. cbn in Hm4, Hr4. rewrite Hr4, Hm4. split; [|done]. split; [done|].
    eapply performed_from; [|exact Hf]. done.
  - mwp_step. mwp_step.
    assert (∀ d', rd_relay d' = r → rd_activity d' = rd_activity d → rd_pmtu d' = rd_pmtu d →
      control_ok lost d' w1 ∧ (rd_relay d' = r ∧ rd_activity d' = rd_activity d ∧ w1 = w1) ∧ rd_pmtu d' = rd_pmtu d) as Hdone.
    { intros d' Hr' Ha' Hm'. split; [|done]. split; rewrite ?Hr', ?Ha'; [done|by rewrite Hst|done]. }
    destruct e; mwp_step; by apply Hdone.
Qed.

(** ** Pruning *)

Lemma remove_gateway_ok r e :
  relay_ok r → relay_ok (remove_gateway r e).1 ∧
  endpoints (relay_state (remove_gateway r e).1) = delete e (endpoints (relay_state r)).
Proof.
  intros (Hst & Hw & Hc & Hq). unfold remove_gateway. cbn [relay_state set_capabilities].
  pose proof (remove_endpoint_ok (relay_state r) e Hst) as H1. pose proof (stored_within_remove _ e _ Hst Hw) as H2.
  pose proof (endpoints_remove_endpoint (relay_state r) e) as H3.
  destruct (remove_endpoint (relay_state r) e) as [st removed]. cbn in *. split; [|done].
  split_and!; cbn; try done. etrans; [|exact Hc]. apply map_len_mono, delete_subseteq.
Qed.

(** [rest] is [m] without the endpoints for which [gone] holds. *)
Definition without {V} (gone : SocketAddr → Prop) (m rest : gmap SocketAddr V) : Prop :=
  ∀ e, (gone e → rest !! e = None) ∧ (¬ gone e → rest !! e = m !! e).

Lemma without_nil {V} (m : gmap SocketAddr V) : without (λ e, e ∈ []) m m.
Proof. intros e. split; [by intros ?%elem_of_nil|done]. Qed.
Lemma without_cons {V} (m rest : gmap SocketAddr V) x l :
  without (λ e, e ∈ l) (delete x m) rest → without (λ e, e ∈ x :: l) m rest.
Proof.
  intros H e. destruct (H e) as [H1 H2]. setoid_rewrite elem_of_cons. split.
  - intros [->|He]; [|by apply H1]. destruct (decide (x ∈ l)) as [?|Hn]; [by apply H1|].
    rewrite (H2 Hn). by rewrite lookup_delete_eq.
  - intros Hn. rewrite H2 by tauto. rewrite lookup_delete_ne; [done|]. intros ->. tauto.
Qed.

(** The gateways and their activity after a pruning pass that removed those in [gone]. *)
Record pruned (gone : SocketAddr → Prop) (d d' : RelayDaemon) : Prop := {
  pn_relay : relay_ok (rd_relay d');
  pn_activity : without gone (rd_activity d) (rd_activity d');
  pn_endpoints : without gone (endpoints (relay_state (rd_relay d))) (endpoints (relay_state (rd_relay d')));
  pn_pmtu : rd_pmtu d' = rd_pmtu d
}.

Lemma prune_loop_wp stale : ∀ n d w,
  relay_ok (rd_relay d) →
  mwp (prune_loop (W:=W) stale n)
    (λ n' '(d', w'), pruned (λ e, e ∈ stale) d d' ∧ w' = w ∧ rd_error_log d' = rd_error_log d ∧ n <= n' <= n + len stale) (λ _ _, False) (d, w).
Proof.
  induction stale as [|e stale IH]; intros n d w Hok; cbn [prune_loop].
  - mwp_step. split; [|split_and!; [done..|unfold len; cbn; lia|unfold len; cbn; lia]]. split; [done|apply without_nil..|done].
  - unfold forget. do 4 mwp_step. cbn [rd_relay with_activity].
    destruct (remove_gateway_ok (rd_relay d) e Hok) as [Hok' He].
    destruct (remove_gateway (rd_relay d) e) as [r removed]. cbn [fst] in *. mwp_step. mwp_step.
    eapply mwp_mono; [by apply IH| |done]. intros n' [d' w'] ([H1 H2 H3 H5] & -> & H4 & Hn). cbn in *.
    split; [|split_and!; [done..|destruct removed; lia|rewrite len_cons; destruct removed; lia]].
    split; [done|by apply without_cons| |done]. apply without_cons. by rewrite <- He.
Qed.

Lemma stale_endpoints_spec timeout t activity e :
  e ∈ stale_endpoints_at timeout t activity ↔ ∃ last_seen, activity !! e = Some last_seen ∧ is_idle timeout t last_seen = true.
Proof.
  unfold stale_endpoints_at. rewrite list_elem_of_omap. split.
  - intros ([e' last_seen] & Hin & H). apply elem_of_btree_iter in Hin. destruct (is_idle timeout t last_seen) eqn:Hi; [|done].
    simplify_eq. by exists last_seen.
  - intros (last_seen & Ha & Hi). exists (e, last_seen). rewrite elem_of_btree_iter. by rewrite Hi.
Qed.

(** A gateway whose last activity is at least [timeout] before [t]. *)
Definition idle_since (timeout t : Z) (d : RelayDaemon) (e : SocketAddr) : Prop :=
  ∃ last_seen, rd_activity d !! e = Some last_seen ∧ last_seen <= t ∧ timeout <= t - last_seen.

Lemma without_ext {V} (gone gone' : SocketAddr → Prop) (m rest : gmap SocketAddr V) :
  (∀ e, gone e ↔ gone' e) → without gone m rest → without gone' m rest.
Proof. intros Hg H e. rewrite <- !Hg. apply H. Qed.

Lemma is_idle_spec timeout t last_seen :
  is_idle timeout t last_seen = true ↔ last_seen <= t ∧ timeout <= t - last_seen.
Proof.
  unfold is_idle, checked_duration_since. repeat case_match; simplify_eq; split; intros; zbool; try lia; try done.
Qed.

Lemma prune_stale_gateways_wp timeout d w :
  relay_ok (rd_relay d) →
  mwp (prune_stale_gateways timeout)
    (λ n '(d', w'), pruned (idle_since timeout (now w).1 d) d d' ∧ rd_error_log d' = rd_error_log d ∧ w' = (now w).2)
    (λ _ _, False) (d, w).
Proof.
  intros Hok. unfold prune_stale_gateways. mwp_step. mwp_step. apply mwp_act. mwp_step. mwp_step.
  eapply mwp_mono; [by apply prune_loop_wp| |done]. intros n [d' w'] ([H1 H2 H3 H5] & -> & H4 & Hn). split; [|done].
  assert (∀ e, e ∈ stale_endpoints_at timeout (now w).1 (rd_activity d) ↔ idle_since timeout (now w).1 d e) as He.
  { intros e. rewrite stale_endpoints_spec. unfold idle_since. by setoid_rewrite is_idle_spec. }
  split; [done|eapply without_ext; [exact He|done]..|done].
Qed.

Lemma without_dom {V V'} gone (a a' : gmap SocketAddr V) (m m' : gmap SocketAddr V') :
  dom a = dom m → (∀ e, gone e ∨ ¬ gone e) → without gone a a' → without gone m m' → dom a' = dom m'.
Proof.
  intros Hd Hdec Ha Hm. apply set_eq. intros e. rewrite !elem_of_dom. destruct (Ha e) as [Ha1 Ha2], (Hm e) as [Hm1 Hm2].
  destruct (Hdec e) as [He|He].
  - rewrite Ha1, Hm1 by done. split; by intros [].
  - rewrite Ha2, Hm2 by done. by rewrite <- !elem_of_dom, Hd.
Qed.

Lemma idle_since_dec timeout t d e : idle_since timeout t d e ∨ ¬ idle_since timeout t d e.
Proof.
  unfold idle_since. destruct (rd_activity d !! e) as [s|]; [|right; by intros (? & [=] & _)].
  destruct (decide (s <= t ∧ timeout <= t - s)) as [?|Hn]; [left; by exists s|].
  right. intros (? & [= <-] & ?). by apply Hn.
Qed.

(** What a maintenance pass from the world [w] has done. The first reading of the clock decides whether it
    is due: if not, nothing else happens. If so, the second reading decides which gateways are idle (where an idle
    timeout is set), exactly those are gone, the native reconciliation is asked for what the others want, and
    the last reading is the time of this pass. *)
Definition maintained (timeout : option Z) (interval : Z) (d : RelayDaemon) (w : W) (d' : RelayDaemon) (w' : W) : Prop :=
  let w1 := (now w).2 in
  if elapsed (now w).1 (rd_last_gateway_prune d) <? interval then d' = d ∧ w' = w1
  else
    let w2 := match timeout with Some _ => (now w1).2 | None => w1 end in
    pruned (λ e, ∃ limit, timeout = Some limit ∧ idle_since limit (now w1).1 d e) d d' ∧
    dom (rd_activity d') = dom (endpoints (relay_state (rd_relay d'))) ∧
    let subscriptions := upstream_subscriptions (relay_state (rd_relay d')) in
    let w3 := (upstream_reconcile subscriptions w2).2 in
    (match (upstream_reconcile subscriptions w2).1 with
     | Ok _ => list_to_set subscriptions ⊆ active w' ∧ rd_error_log d' = rd_error_log d
     | Err error => rd_error_log d' = record_error (Text error) (rd_error_log d)
     | _ => False
     end) ∧
    rd_last_gateway_prune d' = (now w3).1 ∧ w' = (now w3).2.

Lemma maintain_sync_wp (d : RelayDaemon) w expired :
  mwp (maintain_sync (W:=W) expired)
    (λ _ '(d', w'), rd_relay d' = rd_relay d ∧ rd_activity d' = rd_activity d ∧ rd_pmtu d' = rd_pmtu d ∧
       let subscriptions := upstream_subscriptions (relay_state (rd_relay d)) in
       let w3 := (upstream_reconcile subscriptions w).2 in
       (match (upstream_reconcile subscriptions w).1 with
        | Ok _ => list_to_set subscriptions ⊆ active w' ∧ rd_error_log d' = rd_error_log d
        | Err error => rd_error_log d' = record_error (Text error) (rd_error_log d)
        | _ => False
        end) ∧ rd_last_gateway_prune d' = (now w3).1 ∧ w' = (now w3).2) (λ _ _, False) (d, w).
Proof.
  unfold maintain_sync. mwp_step.
  set (d2 := if expired =? 0 then d else count gateways_expired expired d).
  assert (rd_relay d2 = rd_relay d ∧ rd_activity d2 = rd_activity d ∧ rd_error_log d2 = rd_error_log d ∧ rd_pmtu d2 = rd_pmtu d)
    as (Hr & Ha & He & Hm) by (unfold d2; by destruct (expired =? 0)).
  assert (∀ Q, Q tt (d2, w) → mwp (W:=RelayDaemon * W) (E:=string) (if expired =? 0 then mret tt else modify (count gateways_expired expired)) Q (λ _ _, False) (d, w)) as Hfirst
    by (intros Q HQ; unfold d2 in HQ; by destruct (expired =? 0)).
  apply Hfirst. do 4 mwp_step. rewrite Hr. eapply mwp_mono; [apply sync_upstream_wp|..].
  - intros [] [d3 w3] (Hr3 & Ha3 & Hm3 & Hj & Hl & changes & ->). mwp_step. mwp_step. mwp_step. apply mwp_act. mwp_step.
    cbn. split_and!; [congruence..| |congruence|done|done]. by rewrite now_ok.
  - intros e [d3 w3] (-> & Hw3 & ->). mwp_step. mwp_step. mwp_step. apply mwp_act. mwp_step.
    cbn. split_and!; [congruence..|by rewrite He|done|done].
Qed.

Lemma maintain_wp timeout interval d w :
  relay_ok (rd_relay d) → dom (rd_activity d) = dom (endpoints (relay_state (rd_relay d))) →
  mwp (maintain timeout interval) (λ _ '(d', w'), maintained timeout interval d w d' w') (λ _ _, False) (d, w).
Proof.
  intros Hok Hd. unfold maintain, maintained. mwp_step. mwp_step. apply mwp_act. mwp_step. mwp_step.
  destruct (elapsed _ _ <? interval) eqn:Hlt; [by mwp_step|]. mwp_step.
  set (w1 := (now w).2). set (gone := λ e, ∃ limit, timeout = Some limit ∧ idle_since limit (now w1).1 d e).
  assert (∀ n d1, pruned gone d d1 → rd_error_log d1 = rd_error_log d →
    mwp (maintain_sync (W:=W) n) (λ _ '(d', w'), maintained timeout interval d w d' w') (λ _ _, False)
      (d1, match timeout with Some _ => (now w1).2 | None => w1 end)) as Hrest.
  { intros n d1 Hp H4. eapply mwp_mono; [apply maintain_sync_wp| |done]. intros [] [d' w'] (Hr & Ha & Hm & Hj).
    unfold maintained. cbv zeta. rewrite Hlt. pose proof Hp as [H1 H2 H3 H5].
    split; [split; [by rewrite Hr|by rewrite Ha|by rewrite Hr|congruence]|]. rewrite Ha, Hr, <- H4. split; [|done].
    eapply without_dom; [done| |done..]. intros e. unfold gone. destruct timeout as [limit|]; [|right; by intros (? & [=] & _)].
    destruct (idle_since_dec limit (now w1).1 d e) as [?|Hn]; [left; by exists limit|right; by intros (? & [= <-] & ?)]. }
  unfold maintained in Hrest. cbv zeta in Hrest. rewrite Hlt in Hrest.
  destruct timeout as [limit|].
  - eapply mwp_mono; [by apply prune_stale_gateways_wp| |done]. intros n [d1 w2] ([H1 H2 H3 H5] & H4 & ->).
    apply Hrest; [|done].
    assert (∀ e, idle_since limit (now w1).1 d e ↔ gone e) as He
      by (intros e; split; [by exists limit|by intros (? & [= <-] & ?)]).
    split; [done|eapply without_ext; [exact He|done]..|done].
  - mwp_step. apply Hrest; [|done]. split; [done|split; [by intros (? & [=] & _)|done]..|done].
Qed.
End invariant.

(** C6: the relay daemon handles every control datagram without a panic and without stopping, and keeps its
    invariant: the relay's state is well formed, an activity time is kept for exactly the
    gateways that have membership, and whatever any gateway was granted is subscribed natively (but for what
    was [lost] before, which does not grow). The relay becomes the one the engine computes at the time and with
    the secret read from the world, unless the engine asks for a change of membership and the native
    reconciliation refuses it: then, and only then, the change is not committed and the refusal
    is logged. A response is handed to the socket for the peer; the activity time noted for a peer is
    the clock's reading; an accepted teardown or an emptied membership forgets the gateway's. *)
Theorem relay_control_safe hmac {W} `{!RelayWorld W} (active : W → gset UpstreamSubscription) `{!RelayWorldOk active}
    lost (d : RelayDaemon) (w : W) peer datagram :
  control_ok active lost d w → bytes datagram →
  mwp (handle_amt_datagram hmac peer datagram)
    (λ _ '(d', w'), control_ok active lost d' w' ∧ handled hmac peer datagram d w d' w') (λ _ _, False) (d, w).
Proof. intros Hc Hb. eapply mwp_mono; [by apply handle_amt_datagram_wp| |done]. by intros ? [d' w'] (? & ? & _). Qed.

(** C14: a maintenance pass of the relay daemon does nothing before its interval has passed, by the
    clock's reading; when it has, exactly the gateways that by the clock's next reading have been silent for at
    least the idle timeout lose their membership and their activity time (none without an idle timeout), the
    others keep theirs unchanged, what remains wanted is subscribed natively, or the refusal
    is logged, and the pass is timed by the clock's last reading. *)
Theorem idle_gateways_expire {W} `{!RelayWorld W} (active : W → gset UpstreamSubscription) `{!RelayWorldOk active}
    (d : RelayDaemon) (w : W) timeout interval :
  relay_ok (rd_relay d) → dom (rd_activity d) = dom (endpoints (relay_state (rd_relay d))) →
  mwp (maintain timeout interval) (λ _ '(d', w'), maintained active timeout interval d w d' w') (λ _ _, False) (d, w).
Proof. intros Hok Hd. by apply maintain_wp. Qed.

(** * Witnesses *)

#[export] Instance demo_world_ok : RelayWorldOk dw_active.
Proof.
  split; [done..| |done|].
  - intros w. unfold mwp. cbn. destruct (dw_inbox w) as [|[datagram peer] inbox]; [done|]. cbn. split; [|done]. apply mod_bytes.
  - intros l w. unfold mwp. cbn. destruct (dw_limit w <? len l); cbn; [done|set_solver].
Qed.

Definition quiet_world (clock limit : Z) : demo_world := mkDemoWorld clock ∅ limit [] [] [] false.

Lemma new_daemon_ok w : control_ok dw_active ∅ (demo_daemon demo_relay ∅) w.
Proof. split; cbn; [apply demo_relay_ok|by vm_compute|by apply empty_subseteq]. Qed.

(** A join that is granted, and one that is refused. *)
Lemma relay_control_safe_witness :
  let granted := (handle_amt_datagram toy_hmac demo_peer Relay.demo_join (demo_daemon demo_relay ∅, quiet_world 5 1)).2 in
  let refused := (handle_amt_datagram toy_hmac demo_peer Relay.demo_join (demo_daemon demo_relay ∅, quiet_world 5 0)).2 in
  (contains_endpoint (relay_state (rd_relay granted.1)) demo_peer = true ∧ control_ok dw_active ∅ granted.1 granted.2) ∧
  (contains_endpoint (relay_state (rd_relay refused.1)) demo_peer = false ∧ control_ok dw_active ∅ refused.1 refused.2).
Proof.
  assert (∀ limit, control_ok dw_active ∅
    (handle_amt_datagram toy_hmac demo_peer Relay.demo_join (demo_daemon demo_relay ∅, quiet_world 5 limit)).2.1
    (handle_amt_datagram toy_hmac demo_peer Relay.demo_join (demo_daemon demo_relay ∅, quiet_world 5 limit)).2.2) as H.
  { intros limit. pose proof (relay_control_safe toy_hmac dw_active ∅ (demo_daemon demo_relay ∅) (quiet_world 5 limit) demo_peer
      Relay.demo_join (new_daemon_ok _) demo_join_bytes) as H. unfold mwp in H.
    destruct (handle_amt_datagram _ _ _ _) as [[a|e| |] [d' w']]; [|by destruct H..]. exact (proj1 H). }
  cbv zeta. split; split; [by vm_compute|exact (H 1)|by vm_compute|exact (H 0)].
Defined.

(** The peer of [joined_relay], last heard of at 5, and idle since. *)
Definition idle_daemon : RelayDaemon := demo_daemon joined_relay {[demo_peer := 5]}.

Lemma idle_daemon_tracked : dom (rd_activity idle_daemon) = dom (endpoints (relay_state (rd_relay idle_daemon))).
Proof. apply (bool_decide_unpack _). by vm_compute. Qed.
Lemma idle_daemon_ok : relay_ok (rd_relay idle_daemon).
Proof. exact joined_relay_ok. Qed.

Lemma idle_gateways_expire_witness :
  let after := (maintain (Some 100) 50 (idle_daemon, quiet_world 200 4)).2 in
  maintained dw_active (Some 100) 50 idle_daemon (quiet_world 200 4) after.1 after.2 ∧
  contains_endpoint (relay_state (rd_relay after.1)) demo_peer = false.
Proof.
  cbv zeta. split; [|by vm_compute].
  pose proof (idle_gateways_expire dw_active idle_daemon (quiet_world 200 4) (Some 100) 50 idle_daemon_ok
    idle_daemon_tracked) as H. unfold mwp in H.
  destruct (maintain _ _ _) as [[a|e| |] [d' w']]; [exact H|destruct H..].
Defined.
