(* ===== verification/RelayData.v ===== *)
(** The data plane of the relay daemon, from [src/daemon.rs]: captured datagrams are
    normalized and sent through the tunnel to every gateway that wants them, in fragments
    or not at all where they exceed the path MTU. *)

From stdpp Require Import strings.
From S2P Require Import Prelude Net Effects Protocol Ip State Relay Ecn Mtu Pmtu Forward Upstream Worker Metrics RelayDaemon.

(** [e.unwrap_or(d)] of a [Result]. *)
Definition unwrap_or {E F A} (r : res E A) (d : A) : res F A :=
  match r with Ok a => Ok a | Err _ => Ok d | Panic => Panic | Diverge => Diverge end.
(** [o.get_or_insert_with(f)]. *)
Definition get_or_insert_with {E A} (o : option A) (f : res E A) : res E A :=
  match o with Some a => Ok a | None => f end.

(** * Packets *)

Definition tunnel_mtu (path_mtu : Z) (endpoint : SocketAddr) : Z :=
  let outer_ip_header := match endpoint with SocketAddrV4 _ _ => 20 | SocketAddrV6 _ _ _ _ => 40 end in
  saturating_sub path_mtu (outer_ip_header + 8 + 2).

Definition tunnel_ecn (now : Z) (relay : Relay) (endpoint : SocketAddr) (packet : list Z) : res string (EcnCodepoint * bool) :=
  if gateway_ecn_capable now relay endpoint then
    ecn ← unwrap_or (ip_ecn packet) NotEct;
    Ok (ecn, true)
  else Ok (NotEct, false).

Inductive PreparedTunnelData :=
| Packets (packets : list (list Z))
| Drop (error : Ipv4FragmentError)
| DropIpv6.

Definition reason (p : PreparedTunnelData) : string :=
  match p with
  | Packets _ => "not dropped"
  | Drop FInvalidPacket => "invalid oversized IPv4 packet"
  | Drop FDontFragment => "oversized IPv4 packet has DF set"
  | Drop FHeaderOptions => "oversized IPv4 packet contains header options"
  | Drop FMtuTooSmall => "tunnel MTU too small"
  | Drop FFragmentOffsetOverflow => "IPv4 fragment offset overflow"
  | DropIpv6 => "oversized IPv6 packet"
  end.
Definition requires_pmtu_feedback (p : PreparedTunnelData) : bool :=
  match p with Drop FDontFragment | DropIpv6 => true | _ => false end.

Definition prepare_oversized_tunnel_data (packet : list Z) (tunnel_mtu : Z) : res string PreparedTunnelData :=
  if negb (bool_decide ((λ byte, Z.shiftr byte 4) <$> head packet = Some 4)) then Ok DropIpv6
  else
    match fragment_ipv4_for_tunnel packet tunnel_mtu with
    | Ok fragments => Ok (Packets (map (λ fragment, encode_into (MulticastData fragment) []) fragments))
    | Err error => Ok (Drop error)
    | Panic => Panic
    | Diverge => Diverge
    end.

Definition protocol_name (datagram : UpstreamDatagram) : string :=
  match rp_ip_protocol (ud_packet datagram) with
  | Some 17 => "UDP"
  | Some 2 => "IGMP"
  | Some 58 => "ICMPv6"
  | Some _ | None => "IP"
  end.

(** * Forwarding *)

(** The variables of [drain_upstream] for one datagram: the two prepared forms, the MTU to report, and
    what was sent. *)
Record FanOut := mkFanOut {
  prepared_ipv4_outer : option PreparedTunnelData;
  prepared_ipv6_outer : option PreparedTunnelData;
  feedback_mtu : option Z;
  successful_endpoints : Z;
  successful_bytes : Z
}.
Definition prepared_for (endpoint : SocketAddr) (f : FanOut) : option PreparedTunnelData :=
  match endpoint with SocketAddrV4 _ _ => prepared_ipv4_outer f | SocketAddrV6 _ _ _ _ => prepared_ipv6_outer f end.
Definition with_prepared (endpoint : SocketAddr) (p : PreparedTunnelData) (f : FanOut) : FanOut :=
  match endpoint with
  | SocketAddrV4 _ _ => mkFanOut (Some p) (prepared_ipv6_outer f) (feedback_mtu f) (successful_endpoints f) (successful_bytes f)
  | SocketAddrV6 _ _ _ _ => mkFanOut (prepared_ipv4_outer f) (Some p) (feedback_mtu f) (successful_endpoints f) (successful_bytes f)
  end.
Definition with_feedback_mtu (mtu : Z) (f : FanOut) : FanOut :=
  mkFanOut (prepared_ipv4_outer f) (prepared_ipv6_outer f) (Some mtu) (successful_endpoints f) (successful_bytes f).
Definition with_sent (endpoints nbytes : Z) (f : FanOut) : FanOut :=
  mkFanOut (prepared_ipv4_outer f) (prepared_ipv6_outer f) (feedback_mtu f) (successful_endpoints f + endpoints)
    (successful_bytes f + nbytes).

Record RelayWorkBudget := mkBudget { started : Z; packet_limit : Z; time_limit : Z; packets : Z }.
Definition record_packet (b : RelayWorkBudget) : RelayWorkBudget :=
  mkBudget (started b) (packet_limit b) (time_limit b) (packets b + 1).

Section data.
Context {W : Type} `{!RelayWorld W}.

Definition send_tunnel_datagram (datagram : list Z) (endpoint : SocketAddr) (ecn : EcnCodepoint) : Code W bool :=
  catch (lift (send_to datagram endpoint ecn))
    (λ _, mret true)
    (λ error,
      _ ← modify (count send_errors 1);
      _ ← modify (count upstream_forward_errors 1);
      _ ← modify (with_data_log (record_send_error (SendFailed endpoint error)));
      mret false).

(** One datagram with the codepoint for its gateway. *)
Definition send_marked (datagram packet : list Z) (endpoint : SocketAddr) : Code W bool :=
  t ← lift (act now);
  relay ← gets rd_relay;
  marking ← pure (tunnel_ecn t relay endpoint packet);
  let '(ecn, normal_mode) := marking in
  sent ← send_tunnel_datagram datagram endpoint ecn;
  _ ← (if (sent && normal_mode : bool) then modify (count relay_ecn_normal_mode_datagrams_sent 1) else mret tt);
  mret sent.

(** The loop over the fragments: whether all were sent, and what [successful_bytes] grows by. *)
Fixpoint send_fragments (endpoint : SocketAddr) (fragments : list (list Z)) (nbytes : Z) : Code W (bool * Z) :=
  match fragments with
  | [] => mret (true, nbytes)
  | fragment :: fragments =>
      packet ← pure (slice_from fragment 2);
      sent ← send_marked fragment packet endpoint;
      if (sent : bool) then
        _ ← modify (count upstream_fragments_sent 1);
        send_fragments endpoint fragments (nbytes + saturating_sub (len fragment) 2)
      else mret (false, nbytes)
  end.

(** The body of the loop over the endpoints. *)
Definition forward_to (path_mtu : Z) (response inner_packet : list Z) (ssm_feedback_allowed : bool)
    (endpoint : SocketAddr) (f : FanOut) : Code W FanOut :=
  let mtu := tunnel_mtu path_mtu endpoint in
  if len inner_packet <=? mtu then
    sent ← send_marked response inner_packet endpoint;
    mret (if (sent : bool) then with_sent 1 (len inner_packet) f else f)
  else
    prepared ← pure (get_or_insert_with (prepared_for endpoint f) (prepare_oversized_tunnel_data inner_packet mtu));
    let f := with_prepared endpoint prepared f in
    match prepared with
    | Packets fragments =>
        r ← send_fragments endpoint fragments 0;
        let '(complete, nbytes) := r in
        if (complete : bool) then mret (with_sent 1 nbytes f)
        else
          _ ← modify (count upstream_mtu_drops 1);
          _ ← modify (with_data_log (record_mtu_drop "fragment send failed"));
          mret (with_sent 0 nbytes f)
    | _ =>
        _ ← modify (count upstream_mtu_drops 1);
        _ ← modify (with_data_log (record_mtu_drop (reason prepared)));
        mret (if ssm_feedback_allowed && requires_pmtu_feedback prepared
              then with_feedback_mtu (match feedback_mtu f with Some current => Z.min current mtu | None => mtu end) f
              else f)
    end.
Fixpoint forward_all (path_mtu : Z) (response inner_packet : list Z) (ssm_feedback_allowed : bool)
    (endpoints : list SocketAddr) (f : FanOut) : Code W FanOut :=
  match endpoints with
  | [] => mret f
  | endpoint :: endpoints =>
      f ← forward_to path_mtu response inner_packet ssm_feedback_allowed endpoint f;
      forward_all path_mtu response inner_packet ssm_feedback_allowed endpoints f
  end.

(** [RelayPmtuFeedback::send]. The sender's checks decide what is handed to the raw socket,
    if anything: with a transport that only names the packet, that is the packet. *)
Definition pmtu_send (packet : list Z) (tunnel_mtu : Z) : Code W RelayPmtuOutcome :=
  feedback ← gets rd_pmtu;
  if negb (pf_enabled feedback) then mret PmtuDisabled
  else
    match pf_sender feedback with
    | None => mret PmtuDisabled
    | Some sender =>
        t ← lift (act now);
        let '(sender, outcome) := Pmtu.send Err t sender packet tunnel_mtu in
        _ ← modify (with_pmtu (mkPmtuFeedback (pf_enabled feedback) (Some sender)));
        match outcome with
        | Ok (Sent bytes_sent) => mret (PmtuSent bytes_sent)
        | Ok RateLimited => mret PmtuRateLimited
        | Ok Suppressed => mret PmtuSuppressed
        | Ok AddressFamilyUnavailable => mret PmtuAddressFamilyUnavailable
        | Err (PTransport answer) =>
            catch (lift (icmp_send answer)) (λ bytes_sent, mret (PmtuSent bytes_sent))
              (λ error, mret (PmtuFailed (PTransport error)))
        | Err (PInvalidPacket error) => mret (PmtuFailed (PInvalidPacket error))
        | Err (PInvalidLocalAddress addr) => mret (PmtuFailed (PInvalidLocalAddress addr))
        | Err (PInvalidMtu mtu) => mret (PmtuFailed (PInvalidMtu mtu))
        | Panic => pure Panic
        | Diverge => pure Diverge
        end
    end.
Definition record_pmtu_feedback (outcome : RelayPmtuOutcome) : Code W unit :=
  match outcome with
  | PmtuDisabled => mret tt
  | PmtuSent bytes_sent =>
      _ ← modify (count upstream_pmtu_feedback_sent 1); modify (count upstream_pmtu_feedback_bytes_sent bytes_sent)
  | PmtuRateLimited => modify (count upstream_pmtu_feedback_rate_limited 1)
  | PmtuSuppressed => modify (count upstream_pmtu_feedback_suppressed 1)
  | PmtuAddressFamilyUnavailable => modify (count upstream_pmtu_feedback_unavailable 1)
  | PmtuFailed error =>
      _ ← modify (count upstream_pmtu_feedback_errors 1);
      modify (with_data_log (record_send_error (FeedbackFailed error)))
  end.

(** The end of the loop of [drain_upstream]: the source hears of a packet that is too big, and what was sent is
    counted. *)
Definition report_feedback (inner_packet : list Z) (f : FanOut) : Code W unit :=
  match feedback_mtu f with
  | Some mtu => outcome ← pmtu_send inner_packet mtu; record_pmtu_feedback outcome
  | None => mret tt
  end.
Definition account_forwarded (forwarded_len : Z) (f : FanOut) : Code W unit :=
  _ ← modify (count upstream_packets_forwarded (successful_endpoints f));
  _ ← modify (count upstream_bytes_forwarded (successful_bytes f));
  modify (with_data_log (record_forwarded forwarded_len (successful_endpoints f))).

(** The body of the loop. *)
Definition forward_datagram (path_mtu : Z) (datagram : UpstreamDatagram) : Code W unit :=
  state ← gets (λ d, relay_state (rd_relay d));
  match matching_endpoints state (ud_source datagram) (ud_group datagram) with
  | [] =>
      _ ← modify (count upstream_unmatched_packets 1);
      modify (with_data_log (record_unmatched (protocol_name datagram)))
  | endpoints =>
      response ← pure (normalized_amt_datagram datagram);
      let forwarded_len := saturating_sub (len response) 2 in
      inner_packet ← pure (slice_from response 2);
      let ssm_feedback_allowed := has_ssm_interest state (ud_source datagram) (ud_group datagram) in
      f ← forward_all path_mtu response inner_packet ssm_feedback_allowed endpoints (mkFanOut None None None 0 0);
      _ ← report_feedback inner_packet f;
      account_forwarded forwarded_len f
  end.

(** * Draining *)

Definition new_budget (packet_limit time_limit : Z) : Code W RelayWorkBudget :=
  t ← lift (act now); mret (mkBudget t packet_limit time_limit 0).
Definition can_take_packet (b : RelayWorkBudget) : Code W bool :=
  if negb (packets b <? packet_limit b) then mret false
  else if packets b =? 0 then mret true
  else t ← lift (act now); mret (elapsed t (started b) <? time_limit b).
Definition exhausted (b : RelayWorkBudget) : Code W bool :=
  if packets b =? packet_limit b then mret true
  else if packets b =? 0 then mret false
  else t ← lift (act now); mret (time_limit b <=? elapsed t (started b)).

(** The loop; [fuel] bounds its turns. *)
Fixpoint drain_loop (fuel : nat) (path_mtu : Z) (budget : RelayWorkBudget) : Code W RelayWorkBudget :=
  match fuel with
  | O => pure Diverge
  | S fuel =>
      more ← can_take_packet budget;
      if negb (more : bool) then mret budget
      else
        received ← lift upstream_try_recv;
        match received with
        | None => mret budget
        | Some datagram =>
            let budget := record_packet budget in
            _ ← forward_datagram path_mtu datagram;
            drain_loop fuel path_mtu budget
        end
  end.
Definition DRAIN_FUEL : nat := 513.
(** The result is [budget_exhausted]. *)
Definition drain_upstream (path_mtu : Z) : Code W bool :=
  budget ← new_budget MAX_RELAY_DATA_DRAIN RELAY_DATA_FAIRNESS_BUDGET;
  budget ← drain_loop DRAIN_FUEL path_mtu budget;
  exhausted budget.
End data.

(** * What is sent *)

(** The codepoint of the outer header: that of the packet for a gateway known to
    decapsulate ECN, otherwise Not-ECT. *)
Definition marking (now : Z) (relay : Relay) (endpoint : SocketAddr) (packet : list Z) : EcnCodepoint :=
  if gateway_ecn_capable now relay endpoint then match ip_ecn packet with Ok ecn => ecn | _ => NotEct end else NotEct.

(** The datagrams a gateway should get for [inner]. *)
Definition plan (path_mtu : Z) (inner : list Z) (endpoint : SocketAddr) : list (list Z) :=
  if len inner <=? tunnel_mtu path_mtu endpoint then [encode (MulticastData inner)]
  else
    match prepare_oversized_tunnel_data inner (tunnel_mtu path_mtu endpoint) with
    | Ok (Packets datagrams) => datagrams
    | _ => []
    end.

(** All of [datagrams] are sent in order, or those up to the first that fails are tried. *)
Inductive tried (relay : Relay) (endpoint : SocketAddr) : list (list Z) → list event → Prop :=
| tried_nil : tried relay endpoint [] []
| tried_sent t d ds evs :
    tried relay endpoint ds evs →
    tried relay endpoint (d :: ds) (Tried d endpoint (marking t relay endpoint (drop 2 d)) true :: evs)
| tried_failed t d ds :
    tried relay endpoint (d :: ds) [Tried d endpoint (marking t relay endpoint (drop 2 d)) false].

(** [inner] is too big for the gateway's tunnel and may not be fragmented. *)
Definition blocked (path_mtu : Z) (inner : list Z) (endpoint : SocketAddr) : Prop :=
  tunnel_mtu path_mtu endpoint < len inner ∧
  ∃ p, prepare_oversized_tunnel_data inner (tunnel_mtu path_mtu endpoint) = Ok p ∧ requires_pmtu_feedback p = true.

(** [mtu] is the least MTU of the gateways that [inner] is too big for. *)
Definition least_blocked (path_mtu : Z) (inner : list Z) (endpoints : list SocketAddr) (mtu : Z) : Prop :=
  (∃ e, e ∈ endpoints ∧ blocked path_mtu inner e ∧ mtu = tunnel_mtu path_mtu e) ∧
  ∀ e, e ∈ endpoints → blocked path_mtu inner e → mtu <= tunnel_mtu path_mtu e.

(** At most one ICMP error, and only if some gateway asked for the source itself and some
    gateway's tunnel is too small. *)
Definition feedback_due (path_mtu : Z) (st : RelayState) (datagram : UpstreamDatagram) (inner : list Z) (evs : list event) : Prop :=
  evs = [] ∨
  ∃ mtu answer t s s', evs = [Reported answer] ∧
    has_ssm_interest st (ud_source datagram) (ud_group datagram) = true ∧
    least_blocked path_mtu inner (matching_endpoints st (ud_source datagram) (ud_group datagram)) mtu ∧
    answers t s s' inner mtu answer.

Definition forwarded (path_mtu : Z) (relay : Relay) (datagram : UpstreamDatagram) (evs : list event) : Prop :=
  ∃ inner tries feedback,
    normalize_forwarded_datagram (E:=string) (rp_datagram (ud_packet datagram)) = Ok inner ∧
    Forall2 (λ e, tried relay e (plan path_mtu inner e))
      (matching_endpoints (relay_state relay) (ud_source datagram) (ud_group datagram)) tries ∧
    feedback_due path_mtu (relay_state relay) datagram inner feedback ∧
    evs = Received datagram :: concat tries ++ feedback.

(** ** Preparation *)

Lemma tunnel_mtu_nonneg path_mtu endpoint : 0 <= tunnel_mtu path_mtu endpoint.
Proof. unfold tunnel_mtu, saturating_sub. destruct endpoint; lia. Qed.

(** What is prepared for a packet above the MTU. *)
Definition prepared_ok (packet : list Z) (mtu : Z) (p : PreparedTunnelData) : Prop :=
  match p with
  | Packets datagrams =>
      ∃ fragments, datagrams = map (λ f, encode (MulticastData f)) fragments ∧ oversized_fragments packet mtu fragments
  | Drop e => unfragmentable packet mtu e
  | DropIpv6 => (λ byte, Z.shiftr byte 4) <$> head packet ≠ Some 4
  end.

Lemma prepare_oversized_wp packet mtu :
  bytes packet → mtu < len packet → wp (prepare_oversized_tunnel_data packet mtu) (prepared_ok packet mtu) (λ _, False).
Proof.
  intros Hb Hl. unfold prepare_oversized_tunnel_data. case_bool_decide as Hv; cbn [negb]; [|done].
  pose proof (fragment_ipv4_wp packet mtu Hb) as H.
  destruct (fragment_ipv4_for_tunnel packet mtu) as [fs|e| |]; try done. cbn [wp] in *.
  destruct H as [[_ H]|H]; [lia|]. by exists fs.
Qed.

Lemma tunnel_ecn_eq t relay endpoint packet :
  tunnel_ecn t relay endpoint packet = Ok (marking t relay endpoint packet, gateway_ecn_capable t relay endpoint).
Proof.
  unfold tunnel_ecn, marking. destruct (gateway_ecn_capable t relay endpoint); [|done].
  pose proof (ip_ecn_wp packet) as H. by destruct (ip_ecn packet).
Qed.

(** The prepared forms are what preparing for the gateway gives: its MTU depends on the family only. *)
Definition cache_ok (path_mtu : Z) (inner : list Z) (f : FanOut) : Prop :=
  ∀ e p, prepared_for e f = Some p → prepare_oversized_tunnel_data inner (tunnel_mtu path_mtu e) = Ok p.

Lemma cache_ok_with_prepared path_mtu inner endpoint p f :
  cache_ok path_mtu inner f → prepare_oversized_tunnel_data inner (tunnel_mtu path_mtu endpoint) = Ok p →
  cache_ok path_mtu inner (with_prepared endpoint p f).
Proof.
  intros Hc Hp e q. specialize (Hc e q). destruct endpoint, e; cbn in *; try done; by intros [= <-].
Qed.

(** The MTU to report after the gateways [done]. *)
Definition feedback_so_far (path_mtu : Z) (inner : list Z) (allowed : bool) (done : list SocketAddr) (o : option Z) : Prop :=
  match o with
  | None => allowed = true → ∀ e, e ∈ done → ¬ blocked path_mtu inner e
  | Some mtu => allowed = true ∧ least_blocked path_mtu inner done mtu
  end.

Lemma feedback_passes path_mtu inner allowed done e o :
  feedback_so_far path_mtu inner allowed done o → (allowed = true → ¬ blocked path_mtu inner e) →
  feedback_so_far path_mtu inner allowed (done ++ [e]) o.
Proof.
  intros H Hn. destruct o as [mtu|]; cbn in *.
  - destruct H as (Ha & (e' & He' & Hb & Hm) & Hall). split; [done|]. split.
    + exists e'. split; [|done]. apply elem_of_app. by left.
    + intros x [Hx| ->%list_elem_of_singleton]%elem_of_app Hx'; [by apply Hall|]. by destruct (Hn Ha).
  - intros Ha x [Hx| ->%list_elem_of_singleton]%elem_of_app; [by apply H|by apply Hn].
Qed.

Lemma feedback_blocked path_mtu inner done e o :
  feedback_so_far path_mtu inner true done o → blocked path_mtu inner e →
  feedback_so_far path_mtu inner true (done ++ [e])
    (Some (match o with Some current => Z.min current (tunnel_mtu path_mtu e) | None => tunnel_mtu path_mtu e end)).
Proof.
  intros H Hb. split; [done|]. assert (e ∈ done ++ [e]) as Hin by (apply elem_of_app; right; by left).
  destruct o as [mtu|]; cbn in *.
  - destruct H as (_ & (e' & He' & Hb' & ->) & Hall). split.
    + destruct (Z.min_spec (tunnel_mtu path_mtu e') (tunnel_mtu path_mtu e)) as [[_ ->]|[_ ->]]; [|by exists e].
      exists e'. split; [|done]. apply elem_of_app. by left.
    + intros x [Hx| ->%list_elem_of_singleton]%elem_of_app Hx'; [specialize (Hall x Hx Hx')|]; lia.
  - split; [by exists e|]. intros x [Hx| ->%list_elem_of_singleton]%elem_of_app Hx'; [by destruct (H eq_refl x Hx)|done].
Qed.

(** A packet that is prepared: its drop is remembered if the source is to hear of it. *)
Lemma feedback_dropped path_mtu inner allowed done e p f :
  tunnel_mtu path_mtu e < len inner → prepare_oversized_tunnel_data inner (tunnel_mtu path_mtu e) = Ok p →
  feedback_so_far path_mtu inner allowed done (feedback_mtu f) →
  let f' := with_prepared e p f in
  feedback_so_far path_mtu inner allowed (done ++ [e])
    (feedback_mtu (if allowed && requires_pmtu_feedback p
       then with_feedback_mtu (match feedback_mtu f' with
                               | Some current => Z.min current (tunnel_mtu path_mtu e)
                               | None => tunnel_mtu path_mtu e
                               end) f'
       else f')).
Proof.
  intros Hl Hp Hf. cbv zeta. assert (feedback_mtu (with_prepared e p f) = feedback_mtu f) as Hfm by by destruct e.
  destruct allowed, (requires_pmtu_feedback p) eqn:Hr; cbn [andb]; rewrite ?Hfm.
  - apply feedback_blocked; [done|]. split; [done|]. by exists p.
  - apply feedback_passes; [done|]. intros _ (_ & p' & Hp' & Hr'). congruence.
  - by apply feedback_passes.
  - by apply feedback_passes.
Qed.

(** ** The world *)

Section spec.
Context {W : Type} `{!RelayWorld W} (active : W → gset UpstreamSubscription) (trace : W → list event).

(** From [w] to [w'], [evs] was done, and subscriptions did not change. *)
Definition extends (w w' : W) (evs : list event) : Prop := trace w' = trace w ++ evs ∧ active w' = active w.

Lemma extends_refl w : extends w w [].
Proof. split; [|done]. by rewrite app_nil_r. Qed.
Lemma extends_trans w1 w2 w3 evs1 evs2 : extends w1 w2 evs1 → extends w2 w3 evs2 → extends w1 w3 (evs1 ++ evs2).
Proof. intros [H1 H2] [H3 H4]. split; [|congruence]. by rewrite H3, H1, (assoc_L (++)). Qed.

(** What the data plane relies on: calls return, what was sent and received is on record, and
    captured datagrams are octets. *)
Class DataWorldOk : Prop := {
  data_now_ok w : extends w (now w).2 [];
  data_send_ok datagram endpoint ecn w :
    mwp (send_to datagram endpoint ecn) (λ _ w', extends w w' [Tried datagram endpoint ecn true])
      (λ _ w', extends w w' [Tried datagram endpoint ecn false]) w;
  data_icmp_ok packet w :
    mwp (icmp_send packet) (λ _ w', extends w w' [Reported packet]) (λ _ w', extends w w' [Reported packet]) w;
  data_recv_ok w :
    mwp upstream_try_recv
      (λ r w', match r with
               | Some d => extends w w' [Received d] ∧ bytes (rp_datagram (ud_packet d))
               | None => extends w w' []
               end)
      (λ _ w', extends w w' []) w
}.
Context `{!DataWorldOk}.

Definition pmtu_ok (p : RelayPmtuFeedback) : Prop := ∀ s, pf_sender p = Some s → ip_wf (ps_local_address s).

(** The data plane leaves the control plane's variables alone. *)
Record keeps (d d' : RelayDaemon) : Prop := {
  kp_relay : rd_relay d' = rd_relay d;
  kp_activity : rd_activity d' = rd_activity d;
  kp_errors : rd_error_log d' = rd_error_log d;
  kp_prune : rd_last_gateway_prune d' = rd_last_gateway_prune d;
  kp_pmtu : pmtu_ok (rd_pmtu d) → pmtu_ok (rd_pmtu d')
}.
#[local] Instance keeps_preorder : PreOrder keeps.
Proof.
  split; [by intros d|]. intros d1 d2 d3 [? ? ? ? ?] [? ? ? ? ?]. split; try congruence. auto.
Qed.
Lemma keeps_count c n d : keeps d (count c n d).
Proof. done. Qed.
Lemma keeps_data_log f d : keeps d (with_data_log f d).
Proof. done. Qed.

Lemma data_now (Q : Z → RelayDaemon * W → Prop) (R : string → RelayDaemon * W → Prop) d w :
  (∀ t w', extends w w' [] → Q t (d, w')) → mwp (lift (act now)) Q R (d, w).
Proof. intros HQ. apply mwp_lift, mwp_act, HQ, data_now_ok. Qed.

Lemma send_marked_wp datagram packet endpoint d w :
  mwp (send_marked datagram packet endpoint)
    (λ sent '(d', w'), keeps d d' ∧ ∃ t, extends w w' [Tried datagram endpoint (marking t (rd_relay d) endpoint packet) sent])
    (λ _ _, False) (d, w).
Proof.
  unfold send_marked. mwp_step. apply data_now. intros t w1 Hw1. do 4 mwp_step. rewrite tunnel_ecn_eq. cbn [wp].
  mwp_step. unfold send_tunnel_datagram. mwp_step. mwp_step.
  eapply mwp_mono; [apply data_send_ok|..].
  - intros n w2 Hw2. mwp_step. mwp_step.
    assert (∃ t, extends w w2 [Tried datagram endpoint (marking t (rd_relay d) endpoint packet) true]) as He
      by (exists t; exact (extends_trans _ _ _ _ _ Hw1 Hw2)).
    cbn [andb]. destruct (gateway_ecn_capable _ _ _); by repeat mwp_step.
  - intros e w2 Hw2. repeat mwp_step. cbn [andb]. repeat mwp_step. split; [done|].
    exists t. exact (extends_trans _ _ _ _ _ Hw1 Hw2).
Qed.

Lemma send_fragments_wp endpoint fragments : ∀ n d w,
  Forall (λ f, 2 <= len f) fragments →
  mwp (send_fragments endpoint fragments n)
    (λ _ '(d', w'), keeps d d' ∧ ∃ evs, extends w w' evs ∧ tried (rd_relay d) endpoint fragments evs) (λ _ _, False) (d, w).
Proof.
  induction fragments as [|f fs IH]; intros n d w Hl; cbn [send_fragments].
  - mwp_step. split; [done|]. exists []. split; [apply extends_refl|constructor].
  - inversion Hl; subst. mwp_step. mwp_step. rewrite slice_from_ok by lia. cbn [wp]. change (Z.to_nat 2) with 2%nat.
    mwp_step. eapply mwp_mono; [apply send_marked_wp| |done]. intros [] [d1 w1] [Hk [t Hw1]].
    + mwp_step. mwp_step. eapply mwp_mono; [by apply IH| |done]. intros r [d2 w2] [Hk2 (evs & Hw2 & Ht)].
      split; [etrans; [exact Hk|exact (transitivity (keeps_count upstream_fragments_sent 1 d1) Hk2)]|]. eexists. split; [by eapply extends_trans|].
      cbn [app rd_relay count] in *. constructor. by rewrite <- (kp_relay _ _ Hk).
    + mwp_step. split; [done|]. eexists. split; [done|constructor].
Qed.

Lemma forward_to_wp path_mtu inner allowed endpoint done f d w :
  bytes inner → cache_ok path_mtu inner f → feedback_so_far path_mtu inner allowed done (feedback_mtu f) →
  mwp (forward_to path_mtu (encode (MulticastData inner)) inner allowed endpoint f)
    (λ f' '(d', w'), keeps d d' ∧ cache_ok path_mtu inner f' ∧
       feedback_so_far path_mtu inner allowed (done ++ [endpoint]) (feedback_mtu f') ∧
       ∃ evs, extends w w' evs ∧ tried (rd_relay d) endpoint (plan path_mtu inner endpoint) evs) (λ _ _, False) (d, w).
Proof.
  intros Hb Hc Hf. unfold forward_to, plan. destruct (Z.leb_spec (len inner) (tunnel_mtu path_mtu endpoint)) as [Hle|Hlt].
  - mwp_step. eapply mwp_mono; [apply send_marked_wp| |done]. intros sent [d1 w1] [Hk [t Hw1]]. mwp_step.
    assert (feedback_so_far path_mtu inner allowed (done ++ [endpoint]) (feedback_mtu f)) as Hf'
      by (apply feedback_passes; [done|]; intros _ [? _]; lia).
    split; [done|]. split; [by destruct sent|]. split; [by destruct sent|].
    eexists. split; [exact Hw1|]. change inner with (drop 2 (encode (MulticastData inner))) at 2.
    destruct sent; repeat constructor.
  - mwp_step. mwp_step. pose proof (prepare_oversized_wp inner (tunnel_mtu path_mtu endpoint) Hb Hlt) as Hp.
    assert (get_or_insert_with (prepared_for endpoint f) (prepare_oversized_tunnel_data inner (tunnel_mtu path_mtu endpoint)) =
            prepare_oversized_tunnel_data inner (tunnel_mtu path_mtu endpoint)) as ->.
    { unfold get_or_insert_with. destruct (prepared_for endpoint f) as [p|] eqn:He; [|done]. by rewrite (Hc endpoint p He). }
    destruct (prepare_oversized_tunnel_data inner (tunnel_mtu path_mtu endpoint)) as [p|e| |] eqn:Hprep; try done. cbn [wp] in *.
    pose proof (cache_ok_with_prepared _ _ _ _ _ Hc Hprep) as Hc'.
    destruct p as [datagrams|error|].
    + mwp_step. destruct Hp as (fs & -> & Hfs).
      eapply mwp_mono; [apply send_fragments_wp| |done].
      { apply Forall_forall. intros x (y & -> & _)%list_elem_of_fmap. unfold encode. cbn. len_lia. }
      intros [complete n] [d1 w1] [Hk Hev].
      assert (∀ k, feedback_so_far path_mtu inner allowed (done ++ [endpoint])
        (feedback_mtu (with_sent k n (with_prepared endpoint (Packets (map (λ g, encode (MulticastData g)) fs)) f)))) as Hff.
      { intros k. pose proof (feedback_dropped path_mtu inner allowed done endpoint _ f Hlt Hprep Hf) as H0.
        cbv zeta in H0. cbn [requires_pmtu_feedback] in H0. by rewrite andb_false_r in H0. }
      destruct complete; repeat mwp_step; (split; [by etrans; [exact Hk|]|]); (split; [exact Hc'|]); (split; [apply Hff|]); exact Hev.
    + do 4 mwp_step. mwp_step. split; [done|]. split; [by destruct (_ && _)|]. split; [by apply feedback_dropped|].
      exists []. split; [apply extends_refl|constructor].
    + do 4 mwp_step. mwp_step. split; [done|]. split; [by destruct (_ && _)|]. split; [by apply feedback_dropped|].
      exists []. split; [apply extends_refl|constructor].
Qed.

Lemma forward_all_wp path_mtu inner allowed endpoints : ∀ done f d w,
  bytes inner → cache_ok path_mtu inner f → feedback_so_far path_mtu inner allowed done (feedback_mtu f) →
  mwp (forward_all path_mtu (encode (MulticastData inner)) inner allowed endpoints f)
    (λ f' '(d', w'), keeps d d' ∧ feedback_so_far path_mtu inner allowed (done ++ endpoints) (feedback_mtu f') ∧
       ∃ tries, extends w w' (concat tries) ∧ Forall2 (λ e, tried (rd_relay d) e (plan path_mtu inner e)) endpoints tries)
    (λ _ _, False) (d, w).
Proof.
  induction endpoints as [|e es IH]; intros done f d w Hb Hc Hf; cbn [forward_all].
  - mwp_step. rewrite app_nil_r. split; [done|]. split; [done|]. exists []. split; [apply extends_refl|constructor].
  - mwp_step. eapply mwp_mono; [by apply forward_to_wp| |done]. intros f1 [d1 w1] (Hk1 & Hc1 & Hf1 & evs & Hw1 & Ht1).
    eapply mwp_mono; [by apply (IH (done ++ [e]))| |done]. intros f2 [d2 w2] (Hk2 & Hf2 & tries & Hw2 & Ht2).
    rewrite <- (assoc_L (++)) in Hf2. split; [by etrans|]. split; [done|]. exists (evs :: tries).
    split; [by eapply extends_trans|]. rewrite (kp_relay _ _ Hk1) in Ht2. by constructor.
Qed.

(** What the feedback sender hands to the raw socket. *)
Lemma pmtu_send_wp inner mtu d w :
  bytes inner → 0 <= mtu → pmtu_ok (rd_pmtu d) →
  mwp (pmtu_send inner mtu)
    (λ _ '(d', w'), keeps d d' ∧ ∃ evs, extends w w' evs ∧
       (evs = [] ∨ ∃ answer t s s', evs = [Reported answer] ∧ answers t s s' inner mtu answer))
    (λ _ _, False) (d, w).
Proof.
  intros Hb Hm Hok. unfold pmtu_send. mwp_step. mwp_step.
  assert (∀ d' w', keeps d d' → extends w w' [] → keeps d d' ∧ ∃ evs, extends w w' evs ∧
    (evs = [] ∨ ∃ answer t s s', evs = [Reported answer] ∧ answers t s s' inner mtu answer)) as Hnone.
  { intros d' w' Hk Hw. split; [done|]. exists []. auto. }
  destruct (negb _); [mwp_step; by apply Hnone; [|apply extends_refl]|].
  destruct (pf_sender (rd_pmtu d)) as [s|] eqn:Hs; [|mwp_step; by apply Hnone; [|apply extends_refl]].
  mwp_step. apply data_now. intros t w1 Hw1.
  pose proof (send_spec (M:=list Z) Err t s inner mtu (Hok s Hs) Hb Hm ltac:(done)) as Hsend.
  destruct (Pmtu.send Err t s inner mtu) as [s' outcome]. destruct Hsend as (_ & Hl & Hout). mwp_step. mwp_step.
  assert (keeps d (with_pmtu (mkPmtuFeedback (pf_enabled (rd_pmtu d)) (Some s')) d)) as Hk.
  { split; try done. intros _ x [= <-]. rewrite Hl. by apply Hok. }
  destruct outcome as [[]|[]| |]; try (by destruct Hout); try (mwp_step; by apply Hnone).
  destruct Hout as (packet & Ha & [= <-]).
    assert (∀ w2, extends w1 w2 [Reported packet] → ∃ evs, extends w w2 evs ∧
      (evs = [] ∨ ∃ answer t s s', evs = [Reported answer] ∧ answers t s s' inner mtu answer)) as Hone.
    { intros w2 Hw2. exists [Reported packet]. split; [exact (extends_trans _ _ _ _ _ Hw1 Hw2)|]. right. by exists packet, t, s, s'. }
    mwp_step. mwp_step. eapply mwp_mono; [apply data_icmp_ok|..]; intros r w2 Hw2; mwp_step; (split; [done|by apply Hone]).
Qed.

Lemma record_pmtu_feedback_wp outcome d w :
  mwp (record_pmtu_feedback (W:=W) outcome) (λ _ '(d', w'), keeps d d' ∧ w' = w) (λ _ _, False) (d, w).
Proof. destruct outcome; cbn [record_pmtu_feedback]; by repeat mwp_step. Qed.

Lemma report_feedback_wp path_mtu datagram inner f d w :
  bytes inner → pmtu_ok (rd_pmtu d) →
  let st := relay_state (rd_relay d) in
  feedback_so_far path_mtu inner (has_ssm_interest st (ud_source datagram) (ud_group datagram))
    (matching_endpoints st (ud_source datagram) (ud_group datagram)) (feedback_mtu f) →
  mwp (report_feedback inner f)
    (λ _ '(d', w'), keeps d d' ∧ ∃ evs, extends w w' evs ∧ feedback_due path_mtu st datagram inner evs) (λ _ _, False) (d, w).
Proof.
  intros Hb Hok st Hf. unfold report_feedback. destruct (feedback_mtu f) as [mtu|]; cycle 1.
  { mwp_step. split; [done|]. exists []. split; [apply extends_refl|by left]. }
  destruct Hf as [Hssm Hleast].
  assert (0 <= mtu) as Hmtu by (destruct Hleast as ((e & _ & _ & ->) & _); apply tunnel_mtu_nonneg).
  mwp_step. eapply mwp_mono; [by apply pmtu_send_wp| |done].
  intros outcome [d2 w2] (Hk2 & evs & Hw2 & Hevs).
  eapply mwp_mono; [apply record_pmtu_feedback_wp| |done]. intros ? [d3 w3] [Hk3 ->].
  split; [by etrans|]. exists evs. split; [done|].
  destruct Hevs as [->|(answer & t & s & s' & -> & Ha)]; [by left|right]. by exists mtu, answer, t, s, s'.
Qed.

Lemma forward_datagram_wp path_mtu datagram d w :
  bytes (rp_datagram (ud_packet datagram)) → pmtu_ok (rd_pmtu d) →
  mwp (forward_datagram path_mtu datagram)
    (λ _ '(d', w'), keeps d d' ∧ ∃ evs, extends w w' evs ∧ forwarded path_mtu (rd_relay d) datagram (Received datagram :: evs))
    (λ _ _, False) (d, w).
Proof.
  intros Hb Hok. unfold forward_datagram, forwarded. do 2 mwp_step.
  destruct (normalize_ok (E:=string) (rp_datagram (ud_packet datagram)) Hb) as (inner & Hn & Hinner).
  assert (bytes inner) as Hbi.
  { destruct (complete _); [|by subst]. by destruct Hinner as (_ & ? & _). }
  assert (normalized_amt_datagram (E:=string) datagram = Ok (encode (MulticastData inner))) as Hamt.
  { unfold normalized_amt_datagram. change (encode_into (MulticastData (rp_datagram (ud_packet datagram))) [])
      with (6 :: 0 :: rp_datagram (ud_packet datagram)). by rewrite normalize_embedded_eq, Hn by done. }
  destruct (matching_endpoints _ _ _) as [|e0 es] eqn:Hm.
  { repeat mwp_step. split; [done|]. exists []. split; [apply extends_refl|]. exists inner, [], [].
    split; [done|]. split; [constructor|]. split; [by left|done]. }
  rewrite <- Hm. rewrite Hamt. mwp_step. mwp_step. cbn [wp]. mwp_step. mwp_step.
  assert (2 <= len (encode (MulticastData inner))) as H2 by (unfold encode; cbn; len_lia).
  rewrite slice_from_ok by lia. cbn [wp].
  change (drop (Z.to_nat 2) (encode (MulticastData inner))) with inner. mwp_step.
  eapply mwp_mono; [apply (forward_all_wp path_mtu inner _ _ []); [done|by intros []|by intros _ e ?%elem_of_nil]| |done].
  intros f [d1 w1] (Hk1 & Hf1 & tries & Hw1 & Ht1). mwp_step. cbn [app] in Hf1.
  rewrite <- (kp_relay _ _ Hk1) in Hf1.
  eapply mwp_mono; [apply report_feedback_wp; [done|by apply (kp_pmtu _ _ Hk1)|exact Hf1]| |done].
  intros ? [d2 w2] (Hk2 & feedback & Hw2 & Hfb). unfold account_forwarded. repeat mwp_step.
  split; [by etrans; [exact Hk1|etrans; [exact Hk2|]]|]. exists (concat tries ++ feedback). split; [by eapply extends_trans|].
  rewrite (kp_relay _ _ Hk1) in Hfb. by exists inner, tries, feedback.
Qed.

(** The datagrams [ds] were taken and forwarded, one after the other. *)
Definition drained (path_mtu : Z) (relay : Relay) (w w' : W) (ds : list UpstreamDatagram) : Prop :=
  ∃ evss, Forall2 (forwarded path_mtu relay) ds evss ∧ extends w w' (concat evss).

Lemma drained_nil path_mtu relay w w' : extends w w' [] → drained path_mtu relay w w' [].
Proof. intros Hw. exists []. by split; [constructor|]. Qed.
Lemma drained_cons path_mtu relay w1 w2 w3 w4 d ds evs :
  extends w1 w2 [Received d] → extends w2 w3 evs → forwarded path_mtu relay d (Received d :: evs) →
  drained path_mtu relay w3 w4 ds → drained path_mtu relay w1 w4 (d :: ds).
Proof.
  intros H1 H2 Hf (evss & Hds & H3). exists ((Received d :: evs) :: evss). split; [by constructor|].
  cbn [concat]. eapply extends_trans; [|done]. exact (extends_trans _ _ _ _ _ H1 H2).
Qed.
Lemma drained_after path_mtu relay w1 w2 w3 ds : extends w1 w2 [] → drained path_mtu relay w2 w3 ds → drained path_mtu relay w1 w3 ds.
Proof. intros H1 (evss & Hds & H2). exists evss. split; [done|]. exact (extends_trans _ _ _ _ _ H1 H2). Qed.
Lemma drained_before path_mtu relay w1 w2 w3 ds : drained path_mtu relay w1 w2 ds → extends w2 w3 [] → drained path_mtu relay w1 w3 ds.
Proof. intros (evss & Hds & H1) H2. exists evss. split; [done|]. rewrite <- (app_nil_r (concat evss)). by eapply extends_trans. Qed.

Lemma can_take_packet_wp b d w :
  mwp (can_take_packet b)
    (λ more '(d', w'), d' = d ∧ extends w w' [] ∧ (more = true → packets b < packet_limit b)) (λ _ _, False) (d, w).
Proof.
  unfold can_take_packet. destruct (Z.ltb_spec (packets b) (packet_limit b)) as [Hl|Hl]; cbn [negb].
  - destruct (packets b =? 0); [by mwp_step; split_and!; [|apply extends_refl|]|].
    mwp_step. apply data_now. intros t w' Hw. mwp_step. by split_and!.
  - mwp_step. by split_and!; [|apply extends_refl|].
Qed.

Lemma drain_loop_wp path_mtu fuel : ∀ b d w,
  packet_limit b - packets b < Z.of_nat fuel → 0 <= packets b <= packet_limit b → pmtu_ok (rd_pmtu d) →
  mwp (drain_loop fuel path_mtu b)
    (λ b' '(d', w'), keeps d d' ∧ packet_limit b' = packet_limit b ∧
       ∃ ds, drained path_mtu (rd_relay d) w w' ds ∧ packets b' = packets b + len ds ∧ packets b' <= packet_limit b)
    (λ _ '(d', w'), keeps d d' ∧ ∃ ds, drained path_mtu (rd_relay d) w w' ds) (d, w).
Proof.
  induction fuel as [|fuel IH]; intros b d w Hfuel Hp Hok; [lia|]. cbn [drain_loop].
  mwp_step. eapply mwp_mono; [apply can_take_packet_wp| |done]. intros more [d0 w0] (-> & Hw0 & Hmore).
  destruct more; cbn [negb]; cycle 1.
  { mwp_step. split; [done|]. split; [done|]. exists []. split; [by apply drained_nil|]. change (len []) with 0. lia. }
  specialize (Hmore eq_refl). mwp_step. mwp_step. eapply mwp_mono; [apply data_recv_ok|..]; cycle 1.
  { intros e w1 Hw1. split; [done|]. exists []. apply drained_nil. exact (extends_trans _ _ _ _ _ Hw0 Hw1). }
  intros [datagram|] w1 H1; cycle 1.
  { mwp_step. split; [done|]. split; [done|]. exists []. split; [|change (len []) with 0; lia].
    apply drained_nil. exact (extends_trans _ _ _ _ _ Hw0 H1). }
  destruct H1 as [Hw1 Hb]. mwp_step. eapply mwp_mono; [by apply forward_datagram_wp| |done].
  intros ? [d2 w2] (Hk2 & evs & Hw2 & Hfw).
  assert (∀ w' ds, drained path_mtu (rd_relay d2) w2 w' ds → drained path_mtu (rd_relay d) w w' (datagram :: ds)) as Hcons.
  { intros w' ds Hds. rewrite (kp_relay _ _ Hk2) in Hds. eapply drained_cons; [|done..]. exact (extends_trans _ _ _ _ _ Hw0 Hw1). }
  eapply mwp_mono; [apply IH; cbn; [lia|lia|by apply (kp_pmtu _ _ Hk2)]|..]; cbn.
  - intros b' [d3 w3] (Hk3 & Hl & ds & Hds & Hn & Hle). split; [by etrans|]. split; [done|].
    exists (datagram :: ds). split; [by apply Hcons|]. rewrite len_cons. lia.
  - intros e [d3 w3] (Hk3 & ds & Hds). split; [by etrans|]. exists (datagram :: ds). by apply Hcons.
Qed.

Lemma drain_upstream_wp path_mtu d w :
  pmtu_ok (rd_pmtu d) →
  mwp (drain_upstream path_mtu)
    (λ exhausted '(d', w'), keeps d d' ∧
       ∃ ds, drained path_mtu (rd_relay d) w w' ds ∧ len ds <= 512 ∧ (len ds = 512 → exhausted = true) ∧ (ds = [] → exhausted = false))
    (λ _ '(d', w'), keeps d d' ∧ ∃ ds, drained path_mtu (rd_relay d) w w' ds) (d, w).
Proof.
  intros Hok. unfold drain_upstream, new_budget. mwp_step. mwp_step. apply data_now. intros t w1 Hw1. mwp_step. mwp_step.
  eapply mwp_mono; [apply drain_loop_wp; cbn; [unfold MAX_RELAY_DATA_DRAIN, DRAIN_FUEL; lia..|done]|..].
  - intros b [d2 w2] (Hk2 & Hl & ds & Hds & Hn & Hle). cbn in Hl, Hn, Hle. unfold exhausted. rewrite Hl. unfold MAX_RELAY_DATA_DRAIN in *.
    pose proof (drained_after _ _ _ _ _ _ Hw1 Hds) as Hds'.
    destruct (Z.eqb_spec (packets b) 512) as [He|He]; [mwp_step; split; [done|]; exists ds; split_and!; [done|lia|done|]|].
    { intros ->. change (len []) with 0 in Hn. lia. }
    destruct (Z.eqb_spec (packets b) 0) as [H0|H0]; [mwp_step; split; [done|]; exists ds; split_and!; [done|lia|lia|done]|].
    mwp_step. apply data_now. intros t' w3 Hw3. mwp_step. split; [done|]. exists ds.
    split_and!; [by eapply drained_before|lia|lia|]. intros ->. change (len []) with 0 in Hn. lia.
  - intros e [d2 w2] (Hk2 & ds & Hds). split; [done|]. exists ds. by eapply drained_after.
Qed.
End spec.

(** * The properties *)

(** C7: the relay daemon drains captured datagrams in bounded time, at most 512 of them. Each is normalized and tried for
    every gateway that wants its source and group, in order of address and for no other: the whole
    packet where it fits the gateway's tunnel, else its fragments, up to the first that
    fails to send. At most one ICMP error is reported per datagram, after it, only when a gateway asked for
    the source itself and with the least MTU of the tunnels the packet is too big for. The
    relay's state does not change. *)
Theorem captured_datagrams_forwarded {W} `{!RelayWorld W} (active : W → gset UpstreamSubscription) (trace : W → list event)
    `{!DataWorldOk active trace} path_mtu (d : RelayDaemon) (w : W) :
  pmtu_ok (rd_pmtu d) →
  mwp (drain_upstream path_mtu)
    (λ exhausted '(d', w'), keeps d d' ∧
       ∃ ds, drained active trace path_mtu (rd_relay d) w w' ds ∧ len ds <= 512 ∧
             (len ds = 512 → exhausted = true) ∧ (ds = [] → exhausted = false))
    (λ _ '(d', w'), keeps d d' ∧ ∃ ds, drained active trace path_mtu (rd_relay d) w w' ds) (d, w).
Proof. intros Hok. by apply drain_upstream_wp. Qed.

(** The length of a tunnel datagram on the wire, with the outer IP and UDP headers. *)
Definition outer_len (endpoint : SocketAddr) (datagram : list Z) : Z :=
  match endpoint with SocketAddrV4 _ _ => 20 | SocketAddrV6 _ _ _ _ => 40 end + 8 + len datagram.

Lemma len_data packet : len (encode (MulticastData packet)) = len packet + 2.
Proof. unfold encode. cbn. len_lia. Qed.

(** what is sent to a gateway never exceeds the path MTU with its outer headers. A packet that fits
    is sent as it is; of one that does not, fragments are sent whose payloads make up its payload, or nothing
    where it is not IPv4 or cannot be fragmented. *)
Theorem tunnel_plan_correct path_mtu inner endpoint :
  bytes inner → 50 <= path_mtu →
  let mtu := tunnel_mtu path_mtu endpoint in
  Forall (λ datagram, outer_len endpoint datagram <= path_mtu) (plan path_mtu inner endpoint) ∧
  (len inner <= mtu → plan path_mtu inner endpoint = [encode (MulticastData inner)]) ∧
  (mtu < len inner →
    (∃ fragments, plan path_mtu inner endpoint = map (λ f, encode (MulticastData f)) fragments ∧
       oversized_fragments inner mtu fragments ∧ concat (drop 20 <$> fragments) = drop 20 inner) ∨
    (plan path_mtu inner endpoint = [] ∧
       ((λ byte, Z.shiftr byte 4) <$> head inner ≠ Some 4 ∨ ∃ e, unfragmentable inner mtu e))).
Proof.
  intros Hb Hp mtu. assert (∀ packet, len packet <= mtu → outer_len endpoint (encode (MulticastData packet)) <= path_mtu) as Hfit.
  { intros packet. unfold outer_len, mtu, tunnel_mtu, saturating_sub. rewrite len_data. destruct endpoint; lia. }
  unfold plan. fold mtu. destruct (Z.leb_spec (len inner) mtu) as [Hle|Hlt].
  { split; [by repeat constructor; apply Hfit|]. split; [done|lia]. }
  pose proof (prepare_oversized_wp inner mtu Hb Hlt) as H.
  destruct (prepare_oversized_tunnel_data inner mtu) as [[datagrams|e|]|e| |]; try done; cbn in H.
  - destruct H as (fs & -> & Hfs). split; [|split; [lia|]].
    + apply Forall_forall. intros x (f & -> & Hf)%list_elem_of_fmap. apply Hfit.
      destruct Hfs as (_ & _ & Hfr). apply fragments_within in Hfr. by apply (proj1 (Forall_forall _ _) Hfr f Hf).
    + intros _. left. exists fs. split_and!; [done..|]. destruct Hfs as (_ & _ & Hfr). by eapply fragments_reassemble.
  - split; [constructor|]. split; [lia|]. intros _. right. split; [done|]. right. by exists e.
  - split; [constructor|]. split; [lia|]. intros _. right. split; [done|]. by left.
Qed.

(** * Witnesses *)

#[export] Instance demo_data_world_ok : DataWorldOk dw_active dw_trace.
Proof.
  split.
  - intros w. apply extends_refl.
  - by intros.
  - by intros.
  - intros w. unfold mwp. cbn. destruct (dw_queue w) as [|d queue]; cbn; [apply extends_refl|]. split; [done|]. apply mod_bytes.
Qed.

(** Two datagrams for the gateway of [joined_relay], the second too big for its tunnel. *)
Definition demo_payload (n : nat) : list Z :=
  [0x45; 0] ++ u16_to_be (28 + Z.of_nat n) ++ [0; 1; 0; 0; 16; 17; 0; 0] ++ [198; 51; 100; 1] ++ [232; 1; 1; 1] ++
  [0; 9; 0; 9] ++ u16_to_be (8 + Z.of_nat n) ++ [0; 0] ++ replicate n 7.
Definition demo_captured (n : nat) : UpstreamDatagram :=
  mkUpstreamDatagram (State.demo_source 1) demo_group (mkRawPacket None None (Some 17) (demo_payload n)).
Definition busy_world : demo_world := mkDemoWorld 5 ∅ 4 [] [demo_captured 8; demo_captured 60] [] false.
Definition demo_sizes (w : demo_world) : list Z :=
  omap (λ e, match e with Tried datagram _ _ _ => Some (len datagram) | _ => None end) (dw_trace w).

Lemma captured_datagrams_forwarded_witness :
  let after := (drain_upstream 100 (demo_daemon joined_relay {[demo_peer := 5]}, busy_world)).2 in
  demo_sizes after.2 = [38; 70; 42] ∧
  ∃ ds, drained dw_active dw_trace 100 joined_relay busy_world after.2 ds ∧ len ds <= 512.
Proof.
  cbv zeta. split; [by vm_compute|].
  assert (pmtu_ok (rd_pmtu (demo_daemon joined_relay {[demo_peer := 5]}))) as Hok by done.
  pose proof (captured_datagrams_forwarded dw_active dw_trace 100 _ busy_world Hok) as H. unfold mwp in H.
  assert (match (drain_upstream 100 (demo_daemon joined_relay {[demo_peer := 5]}, busy_world)).1 with Ok _ => True | _ => False end)
    as Hr by (by vm_compute).
  destruct (drain_upstream _ _) as [[b|e| |] [d' w']]; [|by destruct Hr..].
  destruct H as (_ & ds & Hds & Hl & _). by exists ds.
Defined.

Lemma tunnel_plan_correct_witness :
  len <$> plan 100 (demo_payload 60) demo_peer = [70; 42] ∧
  Forall (λ datagram, outer_len demo_peer datagram <= 100) (plan 100 (demo_payload 60) demo_peer).
Proof.
  split; [by vm_compute|]. exact (proj1 (tunnel_plan_correct 100 (demo_payload 60) demo_peer ltac:(decide_ok) ltac:(done))).
Defined.
