(* ===== verification/RelayLoop.v ===== *)
(** The loop of the relay daemon, [run_relay] of [src/daemon.rs]: control datagrams, maintenance, captured
    datagrams, metrics and logs, then a wait unless there is more to do. *)

From stdpp Require Import strings.
From S2P Require Import Prelude Net Effects Protocol Ip Query State Relay Ecn Mtu Pmtu Forward Upstream Worker Metrics RelayDaemon RelayControl RelayData.

Section loop.
Variable hmac : list Z → list Z → list Z.
Context {W : Type} `{!RelayWorld W}.

(** The loop over [MAX_CONTROL_DRAIN]: the number of datagrams taken. *)
Fixpoint drain_control (n : nat) (control_drained : Z) : Code W Z :=
  match n with
  | O => mret control_drained
  | S n =>
      catch (lift recv_from)
        (λ '(datagram, peer),
          allowed ← lift (act (rate_limiter_allow (sock_ip peer)));
          _ ← (if (allowed : bool) then handle_amt_datagram hmac peer datagram
               else
                 _ ← modify (count control_datagrams_received 1);
                 modify (count control_datagrams_rate_limited 1));
          drain_control n (control_drained + 1))
        (λ error, match error with WouldBlock => mret control_drained | IoOther error => fail error end)
  end.

Definition account_upstream_worker (current : UpstreamWorkerCounters) : Code W unit :=
  accounted ← gets rd_accounted;
  let packets := saturating_sub (accepted_packets current) (accepted_packets accounted) in
  let nbytes := saturating_sub (accepted_bytes current) (accepted_bytes accounted) in
  let drops := saturating_sub (queue_drops current) (queue_drops accounted) in
  let failed := saturating_sub (failures current) (failures accounted) in
  _ ← modify (count upstream_packets_received packets);
  _ ← modify (count upstream_bytes_received nbytes);
  _ ← modify (count upstream_worker_queue_drops drops);
  _ ← modify (count upstream_worker_failures failed);
  _ ← modify (with_data_log (record_worker_activity packets nbytes drops));
  modify (with_accounted current).
(** [upstream.snapshot()], its accounting, and [upstream.check_failure()?]. *)
Definition observe_worker : Code W UpstreamWorkerCounters :=
  snapshot ← lift (act upstream_snapshot);
  _ ← account_upstream_worker snapshot;
  _ ← lift upstream_check_failure;
  mret snapshot.

Definition relay_wait_timeout (now last_gateway_prune gateway_prune_interval : Z) (next_emit_in : option Z) : Z :=
  let minimum := 1000000 in
  let prune_wait := Z.max (saturating_sub gateway_prune_interval (elapsed now last_gateway_prune)) minimum in
  let metrics_wait := Z.max (default RELAY_IDLE_MAINTENANCE_INTERVAL next_emit_in) minimum in
  Z.min (Z.min prune_wait metrics_wait) RELAY_IDLE_MAINTENANCE_INTERVAL.

(** The metrics sample and the two log summaries. *)
Definition report (s : UpstreamWorkerCounters) : Code W unit :=
  active ← gets (λ d, map_len (rd_activity d));
  counters ← gets rd_counters;
  _ ← lift (act (λ w, (tt, emit_metrics (mkRelayGauges active (active_subscriptions s) (capture_sockets s)
                                           (queue_depth s) (queue_high_water s)) counters w)));
  t ← lift (act now);
  _ ← modify (with_data_log (λ l, (maybe_emit_data t l).2));
  t ← lift (act now);
  modify (λ d, with_error_log (maybe_emit_errors t (rd_error_log d)).2 d).

(** One turn of the loop: whether it returns. *)
Definition relay_turn (config : RelayDaemonConfig) : Code W bool :=
  stop ← lift (act shutdown_requested);
  if (stop : bool) then mret true
  else
    control_drained ← drain_control MAX_CONTROL_DRAIN 0;
    _ ← lift rearm;
    _ ← maintain (rdc_gateway_idle_timeout config) (rdc_gateway_prune_interval config);
    _ ← observe_worker;
    budget_exhausted ← drain_upstream (rdc_path_mtu config);
    snapshot ← observe_worker;
    _ ← report snapshot;
    if (control_drained =? Z.of_nat MAX_CONTROL_DRAIN) || budget_exhausted || negb (queue_depth snapshot =? 0) then mret false
    else
      t ← lift (act now);
      last ← gets rd_last_gateway_prune;
      next ← lift (act next_emit);
      _ ← lift (poller_wait (relay_wait_timeout t last (rdc_gateway_prune_interval config) next));
      mret false.

(** [RelayPmtuFeedback::new], and what [run_relay] sets up before the loop, once the sockets are open and
    the worker runs. *)
Inductive StartError :=
| IdleTimeoutTooShort (timeout advertised_interval : Z)
| FeedbackNeedsInterface
| FeedbackError (error : PmtuFeedbackError string).
Definition new_pmtu_feedback (enabled : bool) (upstream : UpstreamConfig) : res StartError RelayPmtuFeedback :=
  if negb enabled then Ok (mkPmtuFeedback false None)
  else
    local_address ← ok_or FeedbackNeedsInterface (uc_interface upstream);
    sender ← map_err FeedbackError (new_sender local_address);
    Ok (mkPmtuFeedback true (Some sender)).
Definition start_relay (now : Z) (config : RelayDaemonConfig) : res StartError RelayDaemon :=
  _ ← map_err (λ '(timeout, interval), IdleTimeoutTooShort timeout interval) (validate_relay_daemon config);
  pmtu ← new_pmtu_feedback (rdc_pmtu_feedback config) (rdc_upstream config);
  Ok (mkDaemon (new_relay now (rdc_relay config)) ∅ no_counts (new_error_summary now) (new_data_log now) pmtu now default_counters).

(** At most [turns] turns: [false] if the daemon is still running. *)
Fixpoint relay_loop (turns : nat) (config : RelayDaemonConfig) : Code W bool :=
  match turns with
  | O => mret false
  | S turns =>
      stopped ← relay_turn config;
      if (stopped : bool) then mret true else relay_loop turns config
  end.
End loop.

(** * The loop keeps running *)

(** The rest of the calls return. *)
Class LoopWorldOk (W : Type) `{!RelayWorld W} : Prop := {
  rearm_ok (w : W) : mwp rearm (λ _ _, True) (λ _ _, True) w;
  check_failure_ok (w : W) : mwp upstream_check_failure (λ _ _, True) (λ _ _, True) w;
  poller_wait_ok timeout (w : W) : 1000000 <= timeout <= 1000000000 → mwp (poller_wait timeout) (λ _ _, True) (λ _ _, True) w
}.

Section invariant.
Variable hmac : list Z → list Z → list Z.
Context {W : Type} `{!RelayWorld W} (active : W → gset UpstreamSubscription) (trace : W → list event).
Context `{!RelayWorldOk active} `{!DataWorldOk active trace} `{!LoopWorldOk W}.

(** What holds between the steps of a turn. *)
Record daemon_ok (d : RelayDaemon) : Prop := {
  dk_relay : relay_ok (rd_relay d);
  dk_activity : dom (rd_activity d) = dom (endpoints (relay_state (rd_relay d)));
  dk_pmtu : pmtu_ok (rd_pmtu d)
}.
Abbreviation ok := (λ _ '(d, _), daemon_ok d) (only parsing).

Lemma daemon_ok_frame d d' :
  daemon_ok d → rd_relay d' = rd_relay d → rd_activity d' = rd_activity d → rd_pmtu d' = rd_pmtu d → daemon_ok d'.
Proof. intros [? ? ?] Hr Ha Hp. split; by rewrite ?Hr, ?Ha, ?Hp. Qed.
Lemma daemon_ok_control d w :
  daemon_ok d → control_ok active (list_to_set (upstream_subscriptions (relay_state (rd_relay d)))) d w.
Proof. intros [? ? ?]. split; [done..|]. by apply union_subseteq_r. Qed.
Lemma daemon_ok_keeps d d' : daemon_ok d → keeps d d' → daemon_ok d'.
Proof. intros [? ? Hp] [Hr Ha _ _ Hk]. split; [by rewrite Hr|by rewrite Hr, Ha|by apply Hk]. Qed.

(** A call whose effect on the world does not matter here. *)
Lemma mwp_call {A} (m : M W string A) (Q : A → RelayDaemon * W → Prop) (R : string → RelayDaemon * W → Prop) d w :
  mwp m (λ _ _, True) (λ _ _, True) w → (∀ a w', Q a (d, w')) → (∀ e w', R e (d, w')) → mwp (lift m) Q R (d, w).
Proof. intros Hm HQ HR. apply mwp_lift. eapply mwp_mono; [exact Hm|auto..]. Qed.
Lemma mwp_read {A} (f : W → A * W) (Q : A → RelayDaemon * W → Prop) (R : string → RelayDaemon * W → Prop) d w :
  (∀ a w', Q a (d, w')) → mwp (lift (act f)) Q R (d, w).
Proof. intros HQ. by apply mwp_lift, mwp_act. Qed.

Lemma drain_control_wp n : ∀ k d w,
  daemon_ok d →
  mwp (drain_control hmac n k) (λ k' '(d', _), daemon_ok d' ∧ k <= k' <= k + Z.of_nat n) (λ _ '(d', _), daemon_ok d') (d, w).
Proof.
  induction n as [|n IH]; intros k d w Hd; cbn [drain_control]; [mwp_step; by split; [|lia]|].
  mwp_step. mwp_step. eapply mwp_mono; [apply recv_from_ok|..].
  - intros [datagram peer] w1 [Hb _]. mwp_step. apply mwp_read. intros allowed w2. mwp_step.
    assert (∀ (d' : RelayDaemon) w', daemon_ok d' → mwp (drain_control hmac n (k + 1))
      (λ k' '(d', _), daemon_ok d' ∧ k <= k' <= k + Z.of_nat (S n)) (λ _ '(d', _), daemon_ok d') (d', w')) as Hrest.
    { intros d' w' Hd'. eapply mwp_mono; [by apply IH| |done]. intros k' [d'' w''] [? ?]. split; [done|lia]. }
    destruct allowed.
    + eapply mwp_mono; [apply (handle_amt_datagram_wp hmac active _ _ _ _ _ (daemon_ok_control d w2 Hd) Hb)| |done].
      intros ? [d' w'] ([? ? _] & _ & Hm). apply Hrest. split; [done..|]. rewrite Hm. apply Hd.
    + repeat mwp_step. apply Hrest. by apply (daemon_ok_frame d).
  - intros [|e] w1 _; mwp_step; [split; [done|lia]|done].
Qed.

Lemma maintain_keeps timeout interval d w :
  daemon_ok d → mwp (maintain timeout interval) ok (λ _ _, False) (d, w).
Proof.
  intros Hd. eapply mwp_mono; [apply (maintain_wp active); apply Hd| |done].
  intros ? [d' w'] Hm. unfold maintained in Hm. destruct (_ <? _); [by destruct Hm as [-> _]|].
  destruct Hm as ([? _ _ Hm] & Ha & _). split; [done..|]. rewrite Hm. apply Hd.
Qed.

Lemma observe_worker_wp d w : daemon_ok d → mwp (observe_worker (W:=W)) ok ok (d, w).
Proof.
  intros Hd. unfold observe_worker, account_upstream_worker. mwp_step. apply mwp_read. intros s w1. mwp_step.
  repeat mwp_step. eapply mwp_mono; [apply check_failure_ok|..]; intros; repeat mwp_step; by apply (daemon_ok_frame d).
Qed.

Lemma report_wp s d w : daemon_ok d → mwp (report (W:=W) s) ok (λ _ _, False) (d, w).
Proof.
  intros Hd. unfold report. do 4 mwp_step. mwp_step. apply mwp_read. intros _ w1. mwp_step. apply mwp_read. intros t w2.
  mwp_step. mwp_step. mwp_step. apply mwp_read. intros t' w3. mwp_step. by apply (daemon_ok_frame d).
Qed.

Lemma relay_wait_timeout_bounds t last interval next :
  1000000 <= relay_wait_timeout t last interval next <= 1000000000.
Proof. unfold relay_wait_timeout, RELAY_IDLE_MAINTENANCE_INTERVAL. lia. Qed.

Lemma relay_turn_wp config d w : daemon_ok d → mwp (relay_turn hmac config) ok ok (d, w).
Proof.
  intros Hd. unfold relay_turn. mwp_step. apply mwp_read. intros stop w1. destruct stop; [by mwp_step|].
  mwp_step. eapply mwp_mono; [by apply drain_control_wp| |done]. intros drained [d2 w2] [Hd2 _].
  mwp_step. apply mwp_call; [apply rearm_ok| |done]. intros _ w3.
  mwp_step. eapply mwp_mono; [by apply maintain_keeps| |done]. intros _ [d4 w4] Hd4.
  mwp_step. eapply mwp_mono; [by apply observe_worker_wp| |done]. intros _ [d5 w5] Hd5.
  mwp_step. eapply mwp_mono; [apply (drain_upstream_wp active trace); apply Hd5|..]; cycle 1.
  { intros e [d6 w6] [Hk _]. by eapply daemon_ok_keeps. }
  intros exhausted [d6 w6] [Hk _]. pose proof (daemon_ok_keeps _ _ Hd5 Hk) as Hd6.
  mwp_step. eapply mwp_mono; [by apply observe_worker_wp| |done]. intros s [d7 w7] Hd7.
  mwp_step. eapply mwp_mono; [by apply report_wp| |done]. intros _ [d8 w8] Hd8.
  destruct (_ || _); [by mwp_step|]. mwp_step. apply mwp_read. intros t w9. do 3 mwp_step. apply mwp_read. intros next w10.
  mwp_step. apply mwp_call; [apply poller_wait_ok, relay_wait_timeout_bounds|intros; by mwp_step|done].
Qed.

Lemma relay_loop_wp config turns : ∀ d w, daemon_ok d → mwp (relay_loop hmac turns config) ok ok (d, w).
Proof.
  induction turns as [|turns IH]; intros d w Hd; cbn [relay_loop]; [by mwp_step|].
  mwp_step. eapply mwp_mono; [by apply relay_turn_wp| |done]. intros [] [d' w'] Hd'; [by mwp_step|by apply IH].
Qed.
End invariant.

Lemma start_relay_ok now config d :
  limits_wf (rc_limits (rdc_relay config)) → query_config_wf (rc_general_query (rdc_relay config)) →
  from_option ip_wf True (uc_interface (rdc_upstream config)) →
  start_relay now config = Ok d → daemon_ok d.
Proof.
  intros Hl Hq Hi. unfold start_relay. destruct (validate_relay_daemon config) as [[]|[]| |]; try done. cbn.
  intros H. assert (∃ pmtu, new_pmtu_feedback (rdc_pmtu_feedback config) (rdc_upstream config) = Ok pmtu ∧
    d = mkDaemon (new_relay now (rdc_relay config)) ∅ no_counts (new_error_summary now) (new_data_log now) pmtu now default_counters)
    as (pmtu & Hp & ->).
  { destruct (new_pmtu_feedback _ _) as [pmtu|e| |]; try done. exists pmtu. cbn in H. by simplify_eq. }
  split; cbn; [by apply new_relay_ok|by rewrite !dom_empty_L|]. unfold new_pmtu_feedback in Hp.
  destruct (rdc_pmtu_feedback config); cbn in Hp; [|by simplify_eq].
  destruct (uc_interface _) as [a|]; cbn in Hp, Hi; [|done]. unfold new_sender in Hp.
  destruct (_ || _); cbn in Hp; [done|]. simplify_eq. intros s [= <-]. done.
Qed.

(** the relay daemon, started with a configuration that passes its checks, runs for any number of turns
    without a panic and without hanging: a turn handles control datagrams, prunes idle gateways, drains
    the captured datagrams, and every call it waits for is bounded. Throughout, the relay's state is well formed
    and an activity time is kept for exactly the gateways with membership. *)
Theorem relay_daemon_runs hmac {W} `{!RelayWorld W} (active : W → gset UpstreamSubscription) (trace : W → list event)
    `{!RelayWorldOk active} `{!DataWorldOk active trace} `{!LoopWorldOk W} now config (d : RelayDaemon) (w : W) turns :
  limits_wf (rc_limits (rdc_relay config)) → query_config_wf (rc_general_query (rdc_relay config)) →
  from_option ip_wf True (uc_interface (rdc_upstream config)) →
  start_relay now config = Ok d →
  mwp (relay_loop hmac turns config) (λ _ '(d', _), daemon_ok d') (λ _ '(d', _), daemon_ok d') (d, w).
Proof. intros ? ? ? ?. apply (relay_loop_wp hmac active trace). by eapply start_relay_ok. Qed.

(** * Witness *)

#[export] Instance demo_loop_world_ok : LoopWorldOk demo_world.
Proof. by split. Qed.

(** A join, and two datagrams for it. *)
Definition demo_config : RelayDaemonConfig := new_relay_daemon_config (relay_config demo_relay).
Definition loop_world : demo_world :=
  mkDemoWorld 5 ∅ 4 [(Relay.demo_join, demo_peer)] [demo_captured 8; demo_captured 60] [] false.

Lemma relay_daemon_runs_witness :
  match start_relay 0 demo_config with
  | Ok d =>
      demo_sizes (relay_loop toy_hmac 2 demo_config (d, loop_world)).2.2 = [38; 90] ∧
      daemon_ok (relay_loop toy_hmac 2 demo_config (d, loop_world)).2.1
  | _ => False
  end.
Proof.
  destruct (start_relay 0 demo_config) as [d|e| |] eqn:Hs; [|by vm_compute in Hs..].
  pose proof (relay_daemon_runs toy_hmac dw_active dw_trace 0 demo_config d loop_world 2
    ltac:(by repeat split) ltac:(decide_ok) Logic.I Hs) as H.
  split; [injection Hs as <-; by vm_compute|]. unfold mwp in H.
  destruct (relay_loop toy_hmac 2 demo_config (d, loop_world)) as [[b|e| |] [d' w']]; [exact H..|by destruct H|by destruct H].
Defined.
