(* ===== verification/Asked.v ===== *)
(** What a gateway has asked of its relay, read off the datagrams it has sent.

    The relay knows a gateway only by its datagrams. [asked] replays the Membership Updates of a log: an update under another
    session than the one before starts from nothing, as the relay of a new session knows nothing of the gateway, and every record changes the
    wanted sources of its group as the membership protocol says ([report_effect]). *)

From stdpp Require Import strings.
From S2P Require Import Prelude Net Protocol Ip Query Membership State Ecn Gateway LocalMembership Desired.

(** A session: the relay, the Response MAC and the nonce. *)
Definition SessionKey : Type := SocketAddr * ResponseMac * Z.
(** The update that a datagram carries, whatever its number of records and sources. *)
Definition update_sent (m : list Z * SocketAddr) : option (SessionKey * list MembershipRecord) :=
  match decode m.1 with
  | Ok (MembershipUpdate mac nonce packet) =>
      match parse_membership_report_with_limits packet (mkParseLimits U16_MAX U16_MAX) with
      | Ok report => Some ((m.2, mac, nonce), rep_records report)
      | _ => None
      end
  | _ => None
  end.
Definition Asked : Type := option SessionKey * (IpAddr → IpAddr → bool).
Definition nothing_asked : Asked := (None, λ _ _, false).
Definition ask (a : Asked) (m : list Z * SocketAddr) : Asked :=
  match update_sent m with
  | Some (key, records) =>
      (Some key, λ group, report_effect records group (if decide (a.1 = Some key) then a.2 group else λ _, false))
  | None => a
  end.
Definition asks (log : list (list Z * SocketAddr)) : Asked := foldl ask nothing_asked log.
(** Whether a source of a group was asked for under a session. *)
Definition asked (log : list (list Z * SocketAddr)) (key : SessionKey) (group source : IpAddr) : bool :=
  bool_decide ((asks log).1 = Some key) && (asks log).2 group source.

(** The filter of the gateway is what it last asked for, of any relay. *)
Definition asks_filter (g : Gateway) (log : list (list Z * SocketAddr)) : Prop :=
  ∀ group source, (asks log).2 group source = interested g source group.
(** And it was asked under the current session. *)
Definition told (g : Gateway) (log : list (list Z * SocketAddr)) : Prop :=
  ∀ relay session, gw_relay_endpoint g = Some relay → gw_session g = Some session →
  ∀ group source, asked log (relay, gs_response_mac session, gs_request_nonce session) group source = interested g source group.
(** Both depend on what was asked, and on the relay, the session and the filter of the gateway. *)
Lemma asks_filter_frame g g' log log' :
  asks_filter g log → asks log' = asks log → gw_reception_state g' = gw_reception_state g → asks_filter g' log'.
Proof. intros H Hl Hr group source. rewrite Hl, (H group source). unfold interested. by rewrite Hr. Qed.
Lemma told_frame g g' log log' :
  told g log → asks log' = asks log → gw_relay_endpoint g' = gw_relay_endpoint g → gw_session g' = gw_session g →
  gw_reception_state g' = gw_reception_state g → told g' log'.
Proof.
  intros H Hl He Hs Hr relay session Hrel Hsess group source. unfold asked. rewrite Hl. unfold interested. rewrite Hr.
  apply H; congruence.
Qed.
Lemma told_none g log : gw_session g = None → told g log.
Proof. intros Hs relay session _. by rewrite Hs. Qed.
(** What an action sends. *)
Definition sends (action : option GatewayAction) : list (list Z * SocketAddr) :=
  match action with Some (GSend destination datagram) => [(datagram, destination)] | _ => [] end.

(** * Datagrams that ask for nothing *)

Definition asks_nothing (message : Message) : Prop := match message with MembershipUpdate _ _ _ => False | _ => True end.
Lemma asks_app log log' : asks (log ++ log') = foldl ask (asks log) log'.
Proof. apply foldl_app. Qed.
Lemma no_update message destination : message_wf message → asks_nothing message → update_sent (encode message, destination) = None.
Proof. intros Hwf Hn. unfold update_sent. cbn [fst]. rewrite decode_encode by done. by destruct message. Qed.
Lemma asks_other log message destination :
  message_wf message → asks_nothing message → asks (log ++ [(encode message, destination)]) = asks log.
Proof. intros Hwf Hn. rewrite asks_app. cbn. unfold ask. by rewrite no_update. Qed.

Lemma discovery_asks_nothing g log : gateway_ok g → asks (log ++ sends (Some (discovery g))) = asks log.
Proof. intros Hok. apply asks_other; [|done]. apply (gok_discovery_nonce _ Hok). Qed.
Lemma request_asks_nothing g log destination : gateway_ok g → asks (log ++ [(request_datagram g, destination)]) = asks log.
Proof. intros Hok. apply asks_other; [|done]. apply (gok_request_nonce _ Hok). Qed.
Lemma teardown_asks_nothing g log action : gateway_ok g → teardown g = Ok action → asks (log ++ sends (Some action)) = asks log.
Proof.
  intros Hok H. unfold teardown in H. apply bind_ok_inv in H as (relay & _ & H). apply bind_ok_inv in H as (session & Hs & H).
  apply bind_ok_inv in H as (gateway & Hg & H).
  assert (action = GSend relay (encode (Teardown (gs_response_mac session) (gs_request_nonce session) gateway))) as -> by congruence.
  apply asks_other; [|done].
  destruct (gw_session g) as [s|] eqn:Hs'; [|done]. injection Hs as ->. destruct (gok_session_wf _ Hok _ Hs') as (? & ? & Hw). split_and!; try done.
  destruct (gs_gateway_endpoint session); [|done]. by injection Hg as ->.
Qed.
(** A new query cycle: the session and the filter stay. *)
Lemma cycle_asks_nothing g rng g' action rng' log :
  gateway_ok g → draws_wf rng → begin_query_cycle g rng = Ok (g', action, rng') →
  gw_relay_endpoint g' = gw_relay_endpoint g ∧ gw_session g' = gw_session g ∧ gw_reception_state g' = gw_reception_state g ∧
  asks (log ++ sends (Some action)) = asks log.
Proof.
  intros Hok Hrng H. pose proof (begin_query_cycle_ok _ _ _ _ _ Hok Hrng H) as (Hok' & _). unfold begin_query_cycle in H.
  case_bool_decide; [done|]. apply bind_ok_inv in H as ([n rng1] & _ & H). apply bind_ok_inv in H as (a & Ha & H).
  apply bind_ok_inv in Ha as (relay & _ & Ha). injection H as <- <- _. split_and!; try done.
  assert (a = GSend relay (request_datagram _)) as -> by (symmetry; by injection Ha). by apply request_asks_nothing.
Qed.
(** A query that moves the session to another endpoint takes back the one before with a Teardown. *)
Lemma previous_asks_nothing g peer datagram ecn g' mac limit gateway query interval previous log :
  gateway_ok g → handle_datagram_with_ecn g peer datagram ecn = Ok (g', GMembershipQuery mac limit gateway query interval (Some previous)) →
  asks (log ++ [(send_datagram previous, send_destination previous)]) = asks log.
Proof.
  intros Hok H. unfold handle_datagram_with_ecn in H. case_bool_decide; [|done]. cbn [negb] in H. apply bind_ok_inv in H as (message & _ & H).
  destruct message as [n|n a|n p e|mac' n l gw q|mac' n u|p|mac' n gw]; cbn [handle_message] in H; try done.
  - unfold handle_advertisement in H. by repeat (case_match; try done).
  - unfold handle_query in H. apply bind_ok_inv in H as (relay & _ & H). apply bind_ok_inv in H as (nonce & _ & H).
    destruct (negb _); [done|]. apply bind_ok_inv in H as ([i q'] & _ & H). injection H as _ _ _ _ _ _ H.
    destruct (gw_session g) as [s|] eqn:Hs; [|done]. cbn in H. case_bool_decide; [done|].
    destruct (gs_gateway_endpoint s) as [old|] eqn:Ho; [|done].
    assert (previous = mkSend relay (encode (Teardown (gs_response_mac s) (gs_request_nonce s) old))) as -> by (symmetry; by injection H).
    apply asks_other; [|done].
    destruct (gok_session_wf _ Hok _ Hs) as (? & ? & Hw). rewrite Ho in Hw. by split_and!.
  - apply bind_ok_inv in H as (action & Ha & H). injection H as _ ->. unfold handle_multicast_data in Ha.
    destruct (bool_decide _); [done|]. destruct (bool_decide _); [done|]. apply bind_ok_inv in Ha as (parsed & _ & Ha).
    destruct (negb _); [done|]. destruct (gc_ecn _); [|done]. apply bind_ok_inv in Ha as ([p' dd] & _ & Ha). by destruct (is_drop dd).
Qed.

(** * An update *)

(** A report that was built is read back. *)
Lemma built_parses report packet :
  report_wf report → build_membership_report report = Ok packet →
  bytes packet ∧ parse_membership_report_with_limits packet (mkParseLimits U16_MAX U16_MAX) = Ok report.
Proof.
  destruct report as [[] rs]; unfold report_wf, build_membership_report; cbn; intros Hw Hb.
  - pose proof (build_igmpv3_membership_report_wp rs Hw) as Hp. rewrite Hb in Hp. destruct Hp as (-> & Hlen & Hrs & Hn & Hmax).
    split; [by apply bytes_igmp_report_packet|]. rewrite <- (app_nil_r (igmp_report_packet rs)). apply parse_igmp_report_packet; try done.
    eapply Forall_impl; [exact Hrs|]. cbn. by intros r (_ & _ & _ & _ & ? & _).
  - pose proof (build_mldv2_membership_report_wp rs Hw) as Hp. rewrite Hb in Hp. destruct Hp as (-> & Hlen & Hrs & Hn & Hmax).
    split; [by apply bytes_mld_report_packet|]. rewrite <- (app_nil_r (mld_report_packet rs)). apply parse_mld_report_packet; try done.
    eapply Forall_impl; [exact Hrs|]. cbn. by intros r (_ & _ & _ & _ & ? & _).
Qed.

(** A report whose records say which sources are wanted, rather than which were added or taken away. *)
Definition states (records : list MembershipRecord) : Prop :=
  ∀ group wanted wanted' source, group ∈ rec_group <$> records →
    report_effect records group wanted source = report_effect records group wanted' source.
(** Such a report, with the other groups withdrawn, leaves exactly what it says, for one who wanted no more than the gateway's filter. *)
Lemma replaced g report group wanted source :
  gateway_ok g → states (rep_records report) → (∀ s, wanted s = true → interested g s group = true) →
  report_effect (rep_records report ++ withdrawals g report) group wanted source =
  report_effect (rep_records report) group (λ _, false) source.
Proof.
  intros Hok Hst Hle. rewrite report_effect_app. destruct (decide (group ∈ rec_group <$> rep_records report)) as [Hg|Hg].
  - rewrite report_effect_other; [by apply Hst|]. unfold withdrawals. rewrite <- list_fmap_compose. unfold compose; simpl. rewrite list_fmap_id.
    rewrite list_elem_of_filter, elem_of_list_to_set. tauto.
  - rewrite (report_effect_ext _ _ _ wanted) by (intros; by apply report_effect_other). rewrite (report_effect_other (rep_records report)) by done.
    unfold withdrawals. set (groups := filter _ _). destruct (decide (group ∈ groups)) as [Hin|Hni]; [by apply report_effect_withdraw|].
    rewrite report_effect_other by (rewrite <- list_fmap_compose; unfold compose; simpl; by rewrite list_fmap_id).
    destruct (wanted source) eqn:Hw; [|done]. exfalso. apply Hni. unfold groups. rewrite list_elem_of_filter, elem_of_list_to_set. split; [done|].
    eapply aggregate_key_wanted; [apply Hok|exact (Hle _ Hw)].
Qed.

(** Replacing the memberships keeps the session; what the update asks for, under the session, is what the report says, and so is the filter. *)
Lemma replace_asks g report log :
  gateway_ok g → report_wf report → states (rep_records report) → asks_filter g log →
  wp (replace_memberships g report)
    (λ '(g', action), gateway_ok g' ∧ gw_config g' = gw_config g ∧ gw_phase g' = gw_phase g ∧
       gw_relay_endpoint g' = gw_relay_endpoint g ∧ (is_Some (gw_session g') ↔ is_Some (gw_session g)) ∧
       asks_filter g' (log ++ sends action) ∧ told g' (log ++ sends action) ∧
       ∀ group source, interested g' source group = report_effect (rep_records report) group (λ _, false) source)
    (λ e, gw_relay_endpoint g = None ∨ gw_session g = None ∨ ∃ error, e = GMembershipBuild error).
Proof.
  intros Hok Hwf Hst Hlog. unfold replace_memberships. cbn [rep_records]. set (records := rep_records report ++ withdrawals g report).
  assert (∀ group source, report_effect records group (wants (gw_reception_state g) RECEPTION_STATE_ENDPOINT group) source =
    report_effect (rep_records report) group (λ _, false) source) as He by (intros; by apply replaced).
  destruct (is_empty records) eqn:Hemp.
  - apply is_empty_true in Hemp. cbn [sends wp]. rewrite app_nil_r.
    assert (rep_records report = []) as Hnil by by apply app_eq_nil in Hemp as [? _].
    assert (∀ group source, interested g source group = false) as Hno.
    { intros group source. rewrite interested_wants. specialize (He group source). by rewrite Hemp, Hnil in He. }
    split_and!; try done.
    + intros relay session _ _ group source. unfold asked. rewrite (Hlog group source), Hno. apply andb_false_r.
    + intros group source. by rewrite Hno, Hnil.
  - apply wp_bind. eapply wp_mono; [apply membership_update_wp; [done|by apply withdrawals_wf]|..].
    2:{ intros e He'. destruct e; cbn in He'; try done; eauto. }
    intros [g' action] (Hok' & Hc & Hp & Hr & _ & Hrec & relay & session & packet & Hrel & Hs & Hb & Hs' & ->).
    apply built_parses in Hb as [Hbytes Hparse]; [|by apply withdrawals_wf]. destruct (gok_session_wf _ Hok _ Hs) as (Hmac & Hn & _).
    assert (∀ group source, interested g' source group = report_effect (rep_records report) group (λ _, false) source) as Hint.
    { intros group source. rewrite interested_wants, Hrec, wants_apply_report by apply Hok. unfold spec_report. rewrite decide_True by done.
      exact (He group source). }
    set (key := (relay, gs_response_mac session, gs_request_nonce session)).
    assert (∀ a : Asked, ask a (encode (MembershipUpdate (gs_response_mac session) (gs_request_nonce session) packet), relay) =
      (Some key, λ group, report_effect records group (if decide (a.1 = Some key) then a.2 group else λ _, false))) as Hask.
    { intros a. unfold ask, update_sent. cbn [fst snd]. rewrite decode_encode by by split_and!. rewrite Hparse. done. }
    assert (asks_filter g' (log ++ sends (Some (GSend relay (encode (MembershipUpdate (gs_response_mac session) (gs_request_nonce session) packet)))))) as Hf.
    { intros group source. cbn [sends]. rewrite asks_app. cbn [foldl]. rewrite Hask, Hint. cbn [snd]. apply replaced; try done.
      intros s. case_decide; [|done]. by rewrite (Hlog group s). }
    cbn [wp]. split_and!; try done.
    intros relay' session' Hrel' Hsess' group source. rewrite Hr, Hrel in Hrel'. injection Hrel' as <-. rewrite Hs' in Hsess'. injection Hsess' as <-.
    unfold asked. rewrite (Hf group source). cbn [sends]. rewrite asks_app. cbn [foldl]. rewrite Hask. cbn [fst].
    by rewrite bool_decide_eq_true_2.
Qed.

(** ** What is desired *)

Lemma desired_states protocol joins local : states (rep_records (desired_membership_report protocol joins local)).
Proof.
  intros group wanted wanted' source Hin. unfold desired_membership_report in *. cbn [rep_records] in *. rewrite !report_effect_map by done.
  apply list_elem_of_fmap in Hin as (r & -> & ([g0 i] & -> & Hin%elem_of_btree_iter)%list_elem_of_fmap). cbn [rec_group state_record fst].
  rewrite Hin. by rewrite !state_record_effect.
Qed.
(** Asking for what the joins and the hosts want. *)
Lemma replace_memberships_wp g protocol joins local log :
  gateway_ok g → local_ok local → local_wf local → Forall join_wf joins → asks_filter g log →
  wp (replace_memberships g (desired_membership_report protocol joins local))
    (λ '(g', action), gateway_ok g' ∧ gw_config g' = gw_config g ∧ gw_phase g' = gw_phase g ∧
       gw_relay_endpoint g' = gw_relay_endpoint g ∧ (is_Some (gw_session g') ↔ is_Some (gw_session g)) ∧
       asks_filter g' (log ++ sends action) ∧ told g' (log ++ sends action) ∧
       ∀ group source, interested g' source group = true ↔ joins_want joins group source ∨ hosts_want local group source)
    (λ e, gw_relay_endpoint g = None ∨ gw_session g = None ∨ ∃ error, e = GMembershipBuild error).
Proof.
  intros Hok Hl Hw Hj Hlog.
  eapply wp_mono; [apply (replace_asks g _ log); [done|by apply desired_report_wf|apply desired_states|done]| |done].
  intros [g' action] (?&?&?&?&?&?&?& Hint). split_and!; try done. intros group source. rewrite Hint. by apply desired_effect.
Qed.
