(* ===== verification/GatewayPlane.v ===== *)
(** The data plane of a gateway, from [src/daemon.rs]: the publisher, the counters and the log of what arrives through the
    tunnels, and the operations on them that the static gateway and the source tunnels share. *)

From stdpp Require Import strings.
From S2P Require Import Prelude Net Checksum Effects Protocol Ip Query Membership State Ecn LocalMembership Downstream Metrics RelayDaemon.

(** ** The data-plane log *)

Record GatewayDataLog (X : Type) := mkGatewayDataLog {
  gl_last_emit : Z;
  gl_amt_packets : Z;
  gl_amt_bytes : Z;
  gl_downstream_packets : Z;
  gl_downstream_bytes : Z;
  gl_non_multicast_packets : Z;
  gl_downstream_errors : Z;
  gl_last_downstream_error : option (DownstreamError X)
}.
Arguments mkGatewayDataLog {_} _ _ _ _ _ _ _ _.
Arguments gl_last_emit {_} _.
Arguments gl_amt_packets {_} _.
Arguments gl_amt_bytes {_} _.
Arguments gl_downstream_packets {_} _.
Arguments gl_downstream_bytes {_} _.
Arguments gl_non_multicast_packets {_} _.
Arguments gl_downstream_errors {_} _.
Arguments gl_last_downstream_error {_} _.

Section log.
Context {X : Type}.
Implicit Types l : GatewayDataLog X.
Definition new_gateway_log (t : Z) : GatewayDataLog X := mkGatewayDataLog t 0 0 0 0 0 0 None.
Definition record_amt_packet (n : Z) l : GatewayDataLog X :=
  mkGatewayDataLog (gl_last_emit l) (gl_amt_packets l + 1) (gl_amt_bytes l + n) (gl_downstream_packets l)
    (gl_downstream_bytes l) (gl_non_multicast_packets l) (gl_downstream_errors l) (gl_last_downstream_error l).
Definition record_downstream_forwarded (n : Z) l : GatewayDataLog X :=
  mkGatewayDataLog (gl_last_emit l) (gl_amt_packets l) (gl_amt_bytes l) (gl_downstream_packets l + 1)
    (gl_downstream_bytes l + n) (gl_non_multicast_packets l) (gl_downstream_errors l) (gl_last_downstream_error l).
Definition record_non_multicast l : GatewayDataLog X :=
  mkGatewayDataLog (gl_last_emit l) (gl_amt_packets l) (gl_amt_bytes l) (gl_downstream_packets l)
    (gl_downstream_bytes l) (gl_non_multicast_packets l + 1) (gl_downstream_errors l) (gl_last_downstream_error l).
Definition record_downstream_error (error : DownstreamError X) l : GatewayDataLog X :=
  mkGatewayDataLog (gl_last_emit l) (gl_amt_packets l) (gl_amt_bytes l) (gl_downstream_packets l)
    (gl_downstream_bytes l) (gl_non_multicast_packets l) (gl_downstream_errors l + 1) (Some error).
Definition gateway_has_events l : bool := negb (gl_amt_packets l =? 0) || negb (gl_downstream_errors l =? 0).
(** The summary printed is the log itself; then it is reset. *)
Definition maybe_emit_gateway_log (t : Z) l : option (GatewayDataLog X) * GatewayDataLog X :=
  if (elapsed t (gl_last_emit l) <? DATA_LOG_INTERVAL) || negb (gateway_has_events l) then (None, l)
  else (Some l, new_gateway_log t).
End log.

(** ** The plane *)

Record GatewayPlane (C X : Type) := mkPlane {
  gp_downstream : option (DownstreamPublisher C);
  gp_counters : AmtMetricsCounters;
  gp_log : GatewayDataLog X
}.
Arguments mkPlane {_ _} _ _ _.
Arguments gp_downstream {_ _} _.
Arguments gp_counters {_ _} _.
Arguments gp_log {_ _} _.

Section plane.
Context {C X : Type} `{!RawContext C X}.
Implicit Types pl : GatewayPlane C X.
Definition with_publisher (p : DownstreamPublisher C) pl : GatewayPlane C X := mkPlane (Some p) (gp_counters pl) (gp_log pl).
Definition pcount (c : Counter) (n : Z) pl : GatewayPlane C X := mkPlane (gp_downstream pl) (bump c n (gp_counters pl)) (gp_log pl).
Definition plog (f : GatewayDataLog X → GatewayDataLog X) pl : GatewayPlane C X := mkPlane (gp_downstream pl) (gp_counters pl) (f (gp_log pl)).

(** A call on the publisher [p] of the plane. *)
Definition publish (p : DownstreamPublisher C) (packet : list Z) : M (GatewayPlane C X) (DownstreamError X) (option DownstreamForward) :=
  λ pl, let '(r, p) := forward_ip_datagram packet p in (r, with_publisher p pl).
Definition send_local_membership_query (p : DownstreamPublisher C) (local : LocalMembershipManager) :
    M (GatewayPlane C X) (DownstreamError X) unit :=
  query ← pure (local_query local);
  _ ← publish p query;
  mret tt.

Context {E : Type}.
Abbreviation Code A := (M (GatewayPlane C X) E A).
Definition change (f : GatewayPlane C X → GatewayPlane C X) : Code unit := λ pl, (Ok tt, f pl).
Definition get_downstream : Code (option (DownstreamPublisher C)) := λ pl, (Ok (gp_downstream pl), pl).

Definition count_ecn (c : Counter) (b : bool) : Code unit := if b then change (pcount c 1) else mret tt.
(** The part of [record_gateway_multicast] that follows the counters. *)
Definition forward_downstream (packet : list Z) : Code unit :=
  downstream ← get_downstream;
  match downstream with
  | None => mret tt
  | Some p =>
      catch (publish p packet)
        (λ report, match report with
                   | Some report =>
                       _ ← change (pcount downstream_packets_forwarded 1);
                       _ ← change (pcount downstream_bytes_forwarded (df_bytes_sent report));
                       change (plog (record_downstream_forwarded (df_bytes_sent report)))
                   | None =>
                       _ ← change (pcount downstream_non_multicast_packets 1);
                       change (plog record_non_multicast)
                   end)
        (λ error,
          _ ← change (pcount downstream_forward_errors 1);
          change (plog (record_downstream_error error)))
  end.
Definition record_gateway_multicast (packet : list Z) (ecn : option EcnDecapsulation) : Code unit :=
  _ ← change (pcount multicast_data_received 1);
  _ ← change (pcount multicast_data_bytes_received (len packet));
  _ ← match ecn with
      | Some ecn =>
          _ ← count_ecn gateway_ecn_ce_received (bool_decide (ed_outer ecn = Ce));
          _ ← count_ecn gateway_ecn_ce_propagated (propagated_ce ecn);
          count_ecn gateway_ecn_currently_unused (ed_currently_unused ecn)
      | None => mret tt
      end;
  _ ← change (plog (record_amt_packet (len packet)));
  forward_downstream packet.
Definition record_gateway_ecn_drop (ecn : EcnDecapsulation) (packet_len : Z) : Code unit :=
  _ ← change (pcount multicast_data_received 1);
  _ ← change (pcount multicast_data_bytes_received packet_len);
  _ ← count_ecn gateway_ecn_ce_received (bool_decide (ed_outer ecn = Ce));
  _ ← count_ecn gateway_ecn_currently_unused (ed_currently_unused ecn);
  change (pcount gateway_ecn_invalid_drops 1).

(** [if query_due]: a query to the local hosts, if there is a publisher. *)
Definition query_hosts (local : LocalMembershipManager) : Code unit :=
  downstream ← get_downstream;
  match downstream with
  | Some p =>
      catch (send_local_membership_query p local)
        (λ _, change (pcount local_queries_sent 1))
        (λ _, change (pcount downstream_forward_errors 1))
  | None => mret tt
  end.
End plane.

(** * The plane stays in order *)

(** The local query can be built. *)
Lemma encode_query_interval_u8 interval : u8 (encode_query_interval interval).
Proof.
  unfold encode_query_interval. destruct (_ <? 128); [unfold as_u8, u8; apply Z.mod_pos_bound; lia|].
  assert (Forall (λ em, u8 (interval_code em)) interval_codes) as Hc by (vm_compute; repeat constructor; done).
  revert Hc. generalize interval_codes. induction l as [|em l IH]; intros Hl; cbn [first_covering_code]; [by unfold u8|].
  inversion_clear Hl as [|? ? H1 H2]. destruct (_ <=? _); auto.
Qed.
Lemma local_query_ok {E} m :
  from_option ip_wf True (lc_interface (lm_config m)) →
  wp (local_query (E:=E) m) bytes (λ _, False).
Proof.
  intros Hi. unfold local_query.
  assert (query_config_wf (query_config m)) as Hq.
  { unfold query_config, query_config_wf. cbn. destruct (lc_interface (lm_config m)) as [[a|a]|], (lc_protocol (lm_config m)), (lc_query_interval (lm_config m));
      cbn in *; split_and!; try done; try apply encode_query_interval_u8; try decide_ok. }
  rewrite build_general_query_eq by done. cbn [wp]. destruct (lc_protocol (lm_config m)); cbn [general_query_packet].
  - unfold igmp_query_packet. apply bytes_app. split.
    + apply bytes_igmp_query_header; [done|]. apply bytes_u16_to_be, checksum_u16. by apply bytes_igmp_query_header; [|apply (bytes_zeros 2)].
    + apply bytes_igmp_query_body; [done|]. apply bytes_u16_to_be, checksum_u16. by apply bytes_igmp_query_body; [|apply (bytes_zeros 2)].
  - assert (bytes (mld_query_body (query_config m) (u16_to_be (mld_query_checksum (query_config m))))) as Hb.
    { apply bytes_mld_query_body; [done|]. apply bytes_u16_to_be, icmpv6_checksum_u16; [apply Hq|decide_ok|done|].
      by apply bytes_mld_query_body; [|apply (bytes_zeros 2)]. }
    destruct Hq as (_ & [_ ?] & _). unfold mld_query_packet. bytes_solve; decide_ok.
Qed.

Section laws.
Context {C X : Type} `{!RawContext C X}.
Context (opened : C → gmap Z RawPublicationConfig) (published_packets : C → list (Z * list Z)) `{!RawContextLaws opened published_packets}.
Implicit Types pl : GatewayPlane C X.

Definition plane_ok pl : Prop := ∀ p, gp_downstream pl = Some p → publisher_ok (X:=X) opened p.
Abbreviation kept := (λ _ pl, plane_ok pl) (only parsing).
Abbreviation never := (λ _ _, False) (only parsing).

Lemma mwp_change {E} f (Q : unit → GatewayPlane C X → Prop) (R : E → GatewayPlane C X → Prop) pl : Q tt (f pl) → mwp (change f) Q R pl.
Proof. done. Qed.
Lemma publish_wp p packet pl :
  publisher_ok (X:=X) opened p → bytes packet →
  mwp (publish p packet)
    (λ r pl', plane_ok pl' ∧ ∃ p', gp_downstream pl' = Some p' ∧ gp_counters pl' = gp_counters pl ∧ published (X:=X) opened published_packets packet p p' r)
    (λ e pl', plane_ok pl' ∧ ∃ p', gp_downstream pl' = Some p' ∧ gp_counters pl' = gp_counters pl ∧ not_published opened published_packets packet p p' e) pl.
Proof.
  intros Hp Hb. pose proof (forward_ip_datagram_wp opened published_packets packet p Hp Hb) as H.
  unfold mwp, publish in *. destruct (forward_ip_datagram packet p) as [[a|e| |] p']; cbn in *; try done;
    (destruct H as (? & _ & ?); split; [intros p'' [= <-]; done|by exists p']).
Qed.

Lemma count_ecn_wp {E} c b pl : plane_ok pl → mwp (count_ecn (E:=E) c b) kept never pl.
Proof. intros Hp. unfold count_ecn. destruct b; [by apply mwp_change|by mwp_step]. Qed.
Lemma forward_downstream_wp {E} packet pl :
  plane_ok pl → bytes packet → mwp (forward_downstream (E:=E) packet) kept never pl.
Proof.
  intros Hp Hb. unfold forward_downstream. mwp_step. apply (mwp_pure (Ok (gp_downstream pl))). cbn [wp].
  destruct (gp_downstream pl) as [p|] eqn:Hd; [|by mwp_step]. mwp_step.
  eapply mwp_mono; [by apply publish_wp; [apply Hp|]|..].
  - intros [report|] pl' [Hp' _]; repeat (mwp_step || apply mwp_change); done.
  - intros e pl' [Hp' _]; repeat (mwp_step || apply mwp_change); done.
Qed.
Lemma record_multicast_wp {E} packet ecn pl :
  plane_ok pl → bytes packet → mwp (record_gateway_multicast (E:=E) packet ecn) kept never pl.
Proof.
  intros Hp Hb. unfold record_gateway_multicast. do 2 (mwp_step; apply mwp_change). mwp_step.
  apply (mwp_mono _ (λ _ pl', plane_ok pl') _ never); [| |done].
  - destruct ecn as [ecn|]; [|by mwp_step]. mwp_step. eapply mwp_mono; [by apply count_ecn_wp| |done]. intros [] pl1 H1.
    mwp_step. eapply mwp_mono; [by apply count_ecn_wp| |done]. intros [] pl2 H2. by apply count_ecn_wp.
  - intros [] pl' H'. mwp_step. apply mwp_change. by apply forward_downstream_wp.
Qed.
Lemma record_drop_wp {E} ecn n pl : plane_ok pl → mwp (record_gateway_ecn_drop (E:=E) ecn n) kept never pl.
Proof.
  intros Hp. unfold record_gateway_ecn_drop. do 2 (mwp_step; apply mwp_change). mwp_step.
  eapply mwp_mono; [by apply count_ecn_wp| |done]. intros [] pl1 H1.
  mwp_step. eapply mwp_mono; [by apply count_ecn_wp| |done]. intros [] pl2 H2. by apply mwp_change.
Qed.
Lemma query_hosts_wp {E} local pl :
  plane_ok pl → from_option ip_wf True (lc_interface (lm_config local)) → mwp (query_hosts (E:=E) local) kept never pl.
Proof.
  intros Hp Hi. unfold query_hosts. mwp_step. apply (mwp_pure (Ok (gp_downstream pl))). cbn [wp].
  destruct (gp_downstream pl) as [p|] eqn:Hd; [|by mwp_step]. mwp_step. unfold send_local_membership_query. mwp_step. mwp_step.
  pose proof (local_query_ok (E:=DownstreamError X) local Hi) as Hq. destruct (local_query local) as [query|e| |]; try done. cbn [wp] in *.
  mwp_step. eapply mwp_mono; [by apply publish_wp; [apply Hp|]|..].
  - intros r pl' [Hp' _]. mwp_step. by apply mwp_change.
  - intros e pl' [Hp' _]. by apply mwp_change.
Qed.
End laws.
