(* ===== verification/GatewayDaemon.v ===== *)
(** The variables of the gateway daemon and what it asks of its surroundings, from [src/daemon.rs]: its configuration,
    the retry timer, and the operations of [run_static_gateway] on the tunnel socket, the
    publisher and the local membership manager.

    The surroundings are the class [GatewayWorld]; the publisher of [Downstream] runs on its own raw context. Lines written to
    the terminal are left out. *)

From stdpp Require Import strings.
From S2P Require Import Prelude Net Effects Protocol Ip Query Membership State Relay Ecn Gateway LocalMembership Desired Dns QueryLimiter Candidates Driad Upstream Downstream Metrics RelayDaemon GatewayPlane.

Definition MAX_LOCAL_MEMBERSHIP_DRAIN : nat := 64.
Definition IDLE_SLEEP : Z := 10000000.
Definition GATEWAY_RETRY_INITIAL : Z := 1000000000.
Definition GATEWAY_RETRY_MAX : Z := 120000000000.
Definition GATEWAY_QUERY_TIMEOUT : Z := 10000000000.
Definition LOCAL_REPORTER_PRUNE_INTERVAL : Z := 5000000000.
Definition DEFAULT_MEMBERSHIP_REFRESH_INTERVAL : Z := 60000000000.
Definition DEFAULT_DRIAD_MAX_SOURCE_TUNNELS : Z := 256.
Definition DEFAULT_DRIAD_MAX_CONCURRENT_PROBES : Z := 4.
Definition DEFAULT_DRIAD_MAX_DNS_WORKERS : Z := 8.

(** ** Configuration *)

Record GatewayDriadConfig := mkGatewayDriadConfig {
  gdr_resolver : DriadResolverConfig;
  gdr_bind : option SocketAddr;
  gdr_use_anycast : bool;
  gdr_happy_eyeballs_delay : Z;
  gdr_relay_hold_down : Z;
  gdr_traffic_hold_down : Z;
  gdr_initial_traffic_timeout : Z;
  gdr_maximum_traffic_timeout : Z;
  gdr_max_source_tunnels : Z;
  gdr_max_concurrent_probes : Z;
  gdr_max_dns_workers : Z
}.
Definition new_gateway_driad_config (resolver : DriadResolverConfig) : GatewayDriadConfig :=
  mkGatewayDriadConfig resolver None false (from_millis 250) (from_secs (10 * 60)) (from_secs (5 * 60)) (from_secs 4)
    (from_secs 120) DEFAULT_DRIAD_MAX_SOURCE_TUNNELS DEFAULT_DRIAD_MAX_CONCURRENT_PROBES DEFAULT_DRIAD_MAX_DNS_WORKERS.

Inductive GatewayConfigError :=
| InvalidResolver (error : DriadError)
| DriadBindPortSet
| ZeroDriadTimer
| DriadTimeoutsSwapped
| ZeroDriadLimit
| LocalProtocolMismatch
| QuerySourceMissing
| MldQueryInterfaceMissing
| InvalidDownstream (error : DownstreamConfigError).

Definition validate_gateway_driad (c : GatewayDriadConfig) : res GatewayConfigError unit :=
  _ ← map_err InvalidResolver (validate_resolver (gdr_resolver c));
  if is_some_and (λ bind, negb (sock_port bind =? 0)) (gdr_bind c) then Err DriadBindPortSet
  else if (gdr_happy_eyeballs_delay c =? 0) || (gdr_relay_hold_down c =? 0) || (gdr_traffic_hold_down c =? 0)
          || (gdr_initial_traffic_timeout c =? 0) || (gdr_maximum_traffic_timeout c =? 0)
  then Err ZeroDriadTimer
  else if gdr_maximum_traffic_timeout c <? gdr_initial_traffic_timeout c then Err DriadTimeoutsSwapped
  else if (gdr_max_source_tunnels c =? 0) || (gdr_max_concurrent_probes c =? 0) || (gdr_max_dns_workers c =? 0)
  then Err ZeroDriadLimit
  else Ok tt.

Record GatewayDaemonConfig := mkGatewayDaemonConfig {
  gdc_bind : SocketAddr;
  gdc_gateway : GatewayConfig;
  gdc_joins : list GatewayJoin;
  gdc_downstream : option DownstreamConfig;
  gdc_local_membership : option LocalMembershipConfig;
  gdc_membership_refresh_interval : option Z;
  gdc_driad : option GatewayDriadConfig;
  gdc_metrics : MetricsConfig
}.
Definition new_gateway_daemon_config (bind : SocketAddr) (gateway : GatewayConfig) : GatewayDaemonConfig :=
  mkGatewayDaemonConfig bind gateway [] (Some (mkDownstreamConfig None None None)) None
    (Some DEFAULT_MEMBERSHIP_REFRESH_INTERVAL) None default_metrics_config.

(** [has_query_source]. *)
Definition has_query_source (local : LocalMembershipConfig) : bool :=
  match lc_protocol local, lc_interface local with
  | Igmpv3, Some (V4 address) => negb (v4_is_unspecified address)
  | Mldv2, Some (V6 address) => negb (v6_is_unspecified address)
  | _, _ => false
  end.
Section validate.
Context {C X : Type} `{!RawContext C X}.

Definition validate_gateway_daemon (c : GatewayDaemonConfig) : res GatewayConfigError unit :=
  _ ← match gdc_local_membership c with
      | None => Ok tt
      | Some local =>
          if negb (bool_decide (lc_protocol local = gc_protocol (gdc_gateway c))) then Err LocalProtocolMismatch
          else
            match gdc_downstream c, lc_query_interval local with
            | Some downstream, Some _ =>
                if negb (has_query_source local) then Err QuerySourceMissing
                else if bool_decide (lc_protocol local = Mldv2) && uses_route_selected_egress downstream
                then Err MldQueryInterfaceMissing
                else Ok tt
            | _, _ => Ok tt
            end
      end;
  match gdc_downstream c with
  | None => Ok tt
  | Some downstream => map_err InvalidDownstream (validate_for_protocol downstream (gc_protocol (gdc_gateway c)))
  end.
End validate.

(** ** The retry timer *)

Record GatewayRetry := mkRetry { gr_attempt : Z; gr_next_attempt : Z }.
Definition due_now (t : Z) : GatewayRetry := mkRetry 0 t.
Definition is_due (t : Z) (r : GatewayRetry) : bool := gr_next_attempt r <=? t.
(** [(INITIAL * multiplier).min(MAX)]: the multiplier is at most 128. *)
Definition upper_delay (attempt : Z) : Z :=
  let multiplier := Z.shiftl 1 (Z.min attempt 7) in
  Z.min (GATEWAY_RETRY_INITIAL * multiplier) GATEWAY_RETRY_MAX.
Definition as_millis (d : Z) : Z := d / 1000000.
(** [random] is what the generator gives, if it works. *)
Definition randomized_retry_delay (random : option Z) (upper : Z) : Z :=
  let lower_ms := as_millis GATEWAY_RETRY_INITIAL in
  let upper_ms := as_millis upper in
  let random := default upper_ms random in
  let span := saturating_sub upper_ms lower_ms + 1 in
  from_millis (lower_ms + random mod span).
Definition U32_MAX : Z := 2 ^ 32 - 1.
Definition after_send (t : Z) (random : option Z) (r : GatewayRetry) : GatewayRetry :=
  let upper := upper_delay (gr_attempt r) in
  mkRetry (Z.min (gr_attempt r + 1) U32_MAX) (t + randomized_retry_delay random upper).
Definition reset_after_send (t : Z) (random : option Z) (r : GatewayRetry) : GatewayRetry :=
  after_send t random (mkRetry 0 (gr_next_attempt r)).

Definition limit_requires_rediscovery (limit has_reported_memberships endpoint_changed : bool) : bool :=
  limit && (negb has_reported_memberships || endpoint_changed).
Definition effective_refresh_interval_for (configured suggested : Z) : Z :=
  if suggested =? 0 then configured else Z.min configured suggested.

(** ** The daemon *)

Record GatewayDaemon (C X : Type) := mkGatewayDaemon {
  gd_gateway : Gateway;
  gd_local : option LocalMembershipManager;
  gd_plane : GatewayPlane C X;
  gd_effective_refresh_interval : Z;
  gd_relay_retry : GatewayRetry;
  gd_query_cycle_started : option Z;
  gd_last_local_query : option Z;
  gd_last_local_prune : Z;
  gd_last_membership_refresh : option Z
}.
Arguments mkGatewayDaemon {_ _} _ _ _ _ _ _ _ _ _.
Arguments gd_gateway {_ _} _.
Arguments gd_local {_ _} _.
Arguments gd_plane {_ _} _.
Arguments gd_effective_refresh_interval {_ _} _.
Arguments gd_relay_retry {_ _} _.
Arguments gd_query_cycle_started {_ _} _.
Arguments gd_last_local_query {_ _} _.
Arguments gd_last_local_prune {_ _} _.
Arguments gd_last_membership_refresh {_ _} _.

Section set.
Context {C X : Type}.
Implicit Types d : GatewayDaemon C X.
Definition set_gateway (g : Gateway) d : GatewayDaemon C X :=
  mkGatewayDaemon g (gd_local d) (gd_plane d) (gd_effective_refresh_interval d) (gd_relay_retry d) (gd_query_cycle_started d)
    (gd_last_local_query d) (gd_last_local_prune d) (gd_last_membership_refresh d).
Definition set_local (m : LocalMembershipManager) d : GatewayDaemon C X :=
  mkGatewayDaemon (gd_gateway d) (Some m) (gd_plane d) (gd_effective_refresh_interval d) (gd_relay_retry d) (gd_query_cycle_started d)
    (gd_last_local_query d) (gd_last_local_prune d) (gd_last_membership_refresh d).
Definition set_plane (p : GatewayPlane C X) d : GatewayDaemon C X :=
  mkGatewayDaemon (gd_gateway d) (gd_local d) p (gd_effective_refresh_interval d) (gd_relay_retry d) (gd_query_cycle_started d)
    (gd_last_local_query d) (gd_last_local_prune d) (gd_last_membership_refresh d).
Definition set_effective_refresh (i : Z) d : GatewayDaemon C X :=
  mkGatewayDaemon (gd_gateway d) (gd_local d) (gd_plane d) i (gd_relay_retry d) (gd_query_cycle_started d)
    (gd_last_local_query d) (gd_last_local_prune d) (gd_last_membership_refresh d).
Definition set_retry (r : GatewayRetry) d : GatewayDaemon C X :=
  mkGatewayDaemon (gd_gateway d) (gd_local d) (gd_plane d) (gd_effective_refresh_interval d) r (gd_query_cycle_started d)
    (gd_last_local_query d) (gd_last_local_prune d) (gd_last_membership_refresh d).
Definition set_query_cycle (t : option Z) d : GatewayDaemon C X :=
  mkGatewayDaemon (gd_gateway d) (gd_local d) (gd_plane d) (gd_effective_refresh_interval d) (gd_relay_retry d) t
    (gd_last_local_query d) (gd_last_local_prune d) (gd_last_membership_refresh d).
Definition set_last_local_query (t : Z) d : GatewayDaemon C X :=
  mkGatewayDaemon (gd_gateway d) (gd_local d) (gd_plane d) (gd_effective_refresh_interval d) (gd_relay_retry d) (gd_query_cycle_started d)
    (Some t) (gd_last_local_prune d) (gd_last_membership_refresh d).
Definition set_last_local_prune (t : Z) d : GatewayDaemon C X :=
  mkGatewayDaemon (gd_gateway d) (gd_local d) (gd_plane d) (gd_effective_refresh_interval d) (gd_relay_retry d) (gd_query_cycle_started d)
    (gd_last_local_query d) t (gd_last_membership_refresh d).
Definition set_last_refresh (t : option Z) d : GatewayDaemon C X :=
  mkGatewayDaemon (gd_gateway d) (gd_local d) (gd_plane d) (gd_effective_refresh_interval d) (gd_relay_retry d) (gd_query_cycle_started d)
    (gd_last_local_query d) (gd_last_local_prune d) t.
Definition gcount (c : Counter) (n : Z) d : GatewayDaemon C X := set_plane (pcount c n (gd_plane d)) d.
End set.

(** Why the daemon ends. *)
Inductive GatewayFailure :=
| SocketFailed (error : string)
| RequestFailed (error : GatewayError)
| QueryCycleFailed (error : GatewayError)
| UpdateFailed (error : GatewayError)
| LocalReceiveFailed (error : LocalMembershipError string).

Class GatewayWorld (W : Type) := {
  gnow : W → Z * W;
  (** What the random generator gives next for nonces, and for a retry delay. *)
  nonce_draws : W → draws * W;
  retry_random : W → option Z * W;
  gw_recv_from : M W IoError (list Z * SocketAddr * EcnCodepoint);
  gw_send_to : list Z → SocketAddr → EcnCodepoint → M W string Z;
  (** What the raw socket for local reports hands over, call by call. *)
  local_incoming : W → list (string + option (list Z)) * W;
  (** [metrics.maybe_emit_gateway]: whether a row was written. *)
  emit_gateway_metrics : GatewayMetricsGauges → AmtMetricsCounters → W → bool * W;
  gw_shutdown_requested : W → bool * W;
  thread_sleep : Z → W → W
}.

(** * The retry timer backs off *)

Lemma upper_delay_bounds attempt : 0 <= attempt → GATEWAY_RETRY_INITIAL <= upper_delay attempt <= GATEWAY_RETRY_MAX.
Proof.
  intros Ha. unfold upper_delay. rewrite Z.shiftl_1_l. split; [|lia]. assert (0 < 2 ^ Z.min attempt 7) by (apply Z.pow_pos_nonneg; lia).
  unfold GATEWAY_RETRY_INITIAL, GATEWAY_RETRY_MAX. lia.
Qed.
(** The upper delay doubles until it reaches the maximum. *)
Lemma upper_delay_doubles attempt :
  0 <= attempt → upper_delay attempt = Z.min (GATEWAY_RETRY_INITIAL * 2 ^ attempt) GATEWAY_RETRY_MAX.
Proof.
  intros Ha. unfold upper_delay. rewrite Z.shiftl_1_l. destruct (Z.le_gt_cases attempt 7); [by rewrite (Z.min_l attempt)|].
  rewrite (Z.min_r attempt) by lia. assert (2 ^ 7 <= 2 ^ attempt) by (apply Z.pow_le_mono_r; lia).
  unfold GATEWAY_RETRY_INITIAL, GATEWAY_RETRY_MAX. change (2 ^ 7) with 128 in *. lia.
Qed.
Lemma retry_delay_bounds random upper :
  GATEWAY_RETRY_INITIAL <= upper → from_option (λ n, 0 <= n) True random →
  GATEWAY_RETRY_INITIAL <= randomized_retry_delay random upper <= upper.
Proof.
  intros Hl Hr. pose proof (Z.mul_div_le upper 1000000) as Hm.
  assert (as_millis GATEWAY_RETRY_INITIAL <= as_millis upper) as Hlm by by apply Z.div_le_mono.
  unfold randomized_retry_delay. set (lo := as_millis GATEWAY_RETRY_INITIAL) in *. set (hi := as_millis upper) in *.
  assert (saturating_sub hi lo = hi - lo) as -> by (unfold saturating_sub; lia).
  set (n := default hi random). pose proof (Z.mod_pos_bound n (hi - lo + 1)) as Hb.
  unfold from_millis in *. change GATEWAY_RETRY_INITIAL with (lo * 1000000). unfold hi, as_millis in *. lia.
Qed.

(** The timer after messages sent at the given times. *)
Definition retries (sends : list (Z * option Z)) (r : GatewayRetry) : GatewayRetry :=
  foldl (λ r '(t, random), after_send t random r) r sends.
Lemma retries_attempt sends r :
  0 <= gr_attempt r <= U32_MAX → gr_attempt (retries sends r) = Z.min (gr_attempt r + len sends) U32_MAX.
Proof.
  revert r. induction sends as [|[t random] sends IH]; intros r Hr; unfold len in *; cbn [retries foldl length]; [lia|].
  fold (retries sends (after_send t random r)). rewrite IH; unfold after_send; cbn; unfold U32_MAX in *; lia.
Qed.

(** the gateway backs off: after the [k]-th message without an answer since the last reset, the next one waits at least
    a second and at most the smaller of [2^k] seconds and two minutes, whatever the random generator does. *)
Theorem retry_backoff_bounded t0 sends t random :
  from_option (λ n, 0 <= n) True random →
  let r := retries (sends ++ [(t, random)]) (due_now t0) in
  t + GATEWAY_RETRY_INITIAL <= gr_next_attempt r <=
    t + Z.min (GATEWAY_RETRY_INITIAL * 2 ^ len sends) GATEWAY_RETRY_MAX.
Proof.
  intros Hr r. unfold r, retries. rewrite foldl_app. cbn [foldl]. fold (retries sends (due_now t0)).
  pose proof (retries_attempt sends (due_now t0)) as Ha. cbn [due_now gr_attempt] in Ha.
  assert (0 <= len sends) as Hn by (unfold len; lia). rewrite Z.add_0_l in Ha.
  unfold after_send. cbn [gr_next_attempt]. rewrite Ha by (unfold U32_MAX; lia).
  assert (upper_delay (Z.min (len sends) U32_MAX) = Z.min (GATEWAY_RETRY_INITIAL * 2 ^ len sends) GATEWAY_RETRY_MAX) as Hu.
  { rewrite <- upper_delay_doubles by done. unfold upper_delay. do 3 f_equal. unfold U32_MAX. lia. }
  pose proof (upper_delay_bounds (Z.min (len sends) U32_MAX)) as [Hlo _]; [unfold U32_MAX; lia|].
  pose proof (retry_delay_bounds random _ Hlo Hr) as Hd. rewrite Hu in *. lia.
Qed.

Lemma retry_backoff_bounded_witness :
  let r := retries [(0, Some 7); (1000, None); (2000, Some 123456)] (due_now 0) in
  2000 + GATEWAY_RETRY_INITIAL <= gr_next_attempt r <= 2000 + Z.min (GATEWAY_RETRY_INITIAL * 2 ^ 2) GATEWAY_RETRY_MAX.
Proof. apply (retry_backoff_bounded 0 [(0, Some 7); (1000, None)] 2000 (Some 123456)). cbn. lia. Defined.
