(* ===== verification/GatewayLoop.v ===== *)
(** The loop of the gateway daemon, [run_static_gateway] of [src/daemon.rs]: it keeps a relay session alive, asks the
    relay for what is desired, publishes what arrives through the tunnel, and follows the local hosts. *)

From stdpp Require Import strings.
From S2P Require Import Prelude Net Checksum Effects Protocol Ip Query Membership State Relay Ecn Gateway LocalMembership Desired Downstream Metrics RelayDaemon GatewayPlane GatewayDaemon.

Section operations.
Context {C X W : Type} `{!RawContext C X} `{!GatewayWorld W}.
Abbreviation Code A := (M (GatewayDaemon C X * W) GatewayFailure A).

Definition clock : Code Z := lift (act gnow).

(** ** Sending *)

Definition send_gateway_action (action : GatewayAction) : Code unit :=
  match action with
  | GSend destination datagram => _ ← lift (mmap_err SocketFailed (gw_send_to datagram destination NotEct)); mret tt
  | _ => mret tt
  end.
(** A method of [Gateway] that draws nonces. *)
Definition drawing (f : Gateway → draws → res GatewayError (Gateway * GatewayAction * draws)) : Code GatewayAction :=
  rng ← lift (act nonce_draws);
  g ← gets gd_gateway;
  '(g, action, _) ← pure (map_err QueryCycleFailed (f g rng));
  _ ← modify (set_gateway g);
  mret action.

(** [relay_retry.is_due()], [relay_retry.after_send()] and [relay_retry.reset_after_send()]. *)
Definition retry_is_due : Code bool := t ← clock; r ← gets gd_relay_retry; mret (is_due t r).
Definition retry_after_send : Code unit :=
  t ← clock;
  random ← lift (act retry_random);
  modify (λ d, set_retry (after_send t random (gd_relay_retry d)) d).
Definition retry_reset_after_send : Code unit :=
  t ← clock;
  random ← lift (act retry_random);
  modify (λ d, set_retry (reset_after_send t random (gd_relay_retry d)) d).
(** [query_cycle_started = Some(Instant::now()); relay_retry.reset_after_send()]. *)
Definition start_query_cycle : Code unit :=
  t ← clock;
  _ ← modify (set_query_cycle (Some t));
  retry_reset_after_send.
(** [send_gateway_action(&socket, gateway.restart_discovery())?], counted, and a new cycle. *)
Definition rediscover : Code unit :=
  action ← drawing restart_discovery;
  _ ← send_gateway_action action;
  _ ← modify (gcount gateway_discoveries_sent 1);
  start_query_cycle.

(** ** The session: each step says whether it made progress *)

Definition check_query_timeout : Code bool :=
  started ← gets gd_query_cycle_started;
  match started with
  | None => mret false
  | Some started =>
      t ← clock;
      if GATEWAY_QUERY_TIMEOUT <=? elapsed t started then _ ← rediscover; mret true else mret false
  end.

Definition send_discovery (g : Gateway) : Code bool :=
  _ ← send_gateway_action (discovery g);
  _ ← modify (gcount gateway_discoveries_sent 1);
  started ← gets gd_query_cycle_started;
  _ ← match started with Some _ => mret tt | None => t ← clock; modify (set_query_cycle (Some t)) end;
  _ ← retry_after_send;
  mret true.
Definition repeat_request (g : Gateway) : Code bool :=
  again ← (if is_awaiting_query g then retry_is_due else mret false);
  if (again : bool) then
    action ← pure (map_err RequestFailed (request g));
    _ ← send_gateway_action action;
    _ ← retry_after_send;
    mret true
  else mret false.
Definition solicit : Code bool :=
  g ← gets gd_gateway;
  discover ← (if bool_decide (gw_relay_endpoint g = None) then retry_is_due else mret false);
  if (discover : bool) then send_discovery g else repeat_request g.

Definition refresh_session : Code bool :=
  g ← gets gd_gateway;
  if is_established g then
    last ← gets gd_last_membership_refresh;
    match last with
    | None => mret false
    | Some last =>
        t ← clock;
        interval ← gets gd_effective_refresh_interval;
        if interval <=? elapsed t last then
          action ← drawing begin_query_cycle;
          _ ← send_gateway_action action;
          _ ← start_query_cycle;
          mret true
        else mret false
    end
  else mret false.

(** ** The data plane *)

Definition on_plane {A} (m : M (GatewayPlane C X) GatewayFailure A) : Code A :=
  λ '(d, w), let '(r, p) := m (gd_plane d) in (r, (set_plane p d, w)).

Definition query_local_hosts : Code bool :=
  local ← gets gd_local;
  match local with
  | None => mret false
  | Some local =>
      match lc_query_interval (lm_config local) with
      | None => mret false
      | Some interval =>
          last ← gets gd_last_local_query;
          query_due ← match last with Some last => t ← clock; mret (interval <=? elapsed t last) | None => mret true end;
          if (query_due : bool) then
            _ ← on_plane (query_hosts local);
            t ← clock;
            _ ← modify (set_last_local_query t);
            mret true
          else mret false
      end
  end.

(** ** Memberships *)

Definition send_desired_membership (joins : list GatewayJoin) : Code bool :=
  g ← gets gd_gateway;
  local ← gets gd_local;
  let report := desired_membership_report (gc_protocol (gw_config g)) joins local in
  '(g, action) ← pure (map_err UpdateFailed (replace_memberships g report));
  _ ← modify (set_gateway g);
  match action with
  | None => mret false
  | Some action =>
      _ ← send_gateway_action action;
      _ ← modify (gcount gateway_membership_updates_sent 1);
      _ ← match local with Some m => modify (set_local (mark_advertised m)) | None => mret tt end;
      mret true
  end.
Definition refresh_gateway_memberships (joins : list GatewayJoin) : Code Z :=
  sent ← send_desired_membership joins;
  mret (if (sent : bool) then 1 else 0).

(** [local.try_recv()]. *)
Definition receive_local (m : LocalMembershipManager) :
    M (GatewayDaemon C X * W) (LocalMembershipError string) (option LocalMembershipEvent) :=
  λ '(d, w),
    let '(incoming, w) := local_incoming w in
    let '(t, w) := gnow w in
    let '(m, r) := try_recv t m incoming in
    (r, (set_local m d, w)).
Fixpoint drain_local_membership (n : nat) (joins : list GatewayJoin) (events : Z) : Code Z :=
  match n with
  | O => mret events
  | S n =>
      local ← gets gd_local;
      match local with
      | None => mret events
      | Some m =>
          catch (receive_local m)
            (λ event, match event with
                      | Some _ =>
                          _ ← modify (gcount local_membership_reports 1);
                          g ← gets gd_gateway;
                          _ ← (if bool_decide (is_Some (gw_response_mac g)) then send_desired_membership joins else mret false);
                          drain_local_membership n joins (events + 1)
                      | None => mret events
                      end)
            (λ error,
              if is_parse_error error then
                _ ← modify (gcount local_membership_parse_errors 1);
                drain_local_membership n joins (events + 1)
              else fail (LocalReceiveFailed error))
      end
  end.
Definition prune_local_reporters (joins : list GatewayJoin) : Code bool :=
  local ← gets gd_local;
  match local with
  | None => mret false
  | Some m =>
      t ← clock;
      last ← gets gd_last_local_prune;
      if LOCAL_REPORTER_PRUNE_INTERVAL <=? elapsed t last then
        t ← clock;
        let '(m, expired) := prune_stale_reporters_at m t in
        _ ← modify (set_local m);
        g ← gets gd_gateway;
        _ ← (if negb (expired =? 0) && is_established g then send_desired_membership joins else mret false);
        t ← clock;
        _ ← modify (set_last_local_prune t);
        mret (negb (expired =? 0))
      else mret false
  end.

(** ** Datagrams of the relay *)

Definition answer_query (config : GatewayDaemonConfig) (limit : bool) (query_interval : Z) (previous_teardown : option GatewaySend) :
    Code unit :=
  _ ← modify (gcount gateway_membership_queries_received 1);
  _ ← match previous_teardown with
      | Some teardown =>
          _ ← lift (mmap_err SocketFailed (gw_send_to (send_datagram teardown) (send_destination teardown) NotEct));
          modify (gcount gateway_teardowns_sent 1)
      | None => mret tt
      end;
  g ← gets gd_gateway;
  if limit_requires_rediscovery limit (has_reported_memberships g) (bool_decide (is_Some previous_teardown)) then
    _ ← rediscover;
    modify (set_last_refresh None)
  else
    let configured := default DEFAULT_MEMBERSHIP_REFRESH_INTERVAL (gdc_membership_refresh_interval config) in
    _ ← modify (set_effective_refresh (effective_refresh_interval_for configured query_interval));
    refreshed ← refresh_gateway_memberships (gdc_joins config);
    _ ← (if negb (refreshed =? 0) then modify (gcount gateway_membership_refreshes 1) else mret tt);
    _ ← modify (set_query_cycle None);
    t ← clock;
    modify (set_last_refresh (Some t)).
Definition handle_relay_datagram (config : GatewayDaemonConfig) (peer : SocketAddr) (datagram : list Z) (outer_ecn : EcnCodepoint) :
    Code unit :=
  _ ← modify (gcount control_datagrams_received 1);
  g ← gets gd_gateway;
  match handle_datagram_with_ecn g peer datagram outer_ecn with
  | Ok (g, action) =>
      _ ← modify (set_gateway g);
      match action with
      | GSend destination datagram =>
          _ ← lift (mmap_err SocketFailed (gw_send_to datagram destination NotEct));
          _ ← modify (gcount control_responses_sent 1);
          _ ← modify (gcount control_response_bytes_sent (len datagram));
          if is_awaiting_query g then start_query_cycle else mret tt
      | GMembershipQuery _ limit _ _ query_interval previous_teardown => answer_query config limit query_interval previous_teardown
      | GMulticastData packet ecn => on_plane (record_gateway_multicast packet ecn)
      | GDroppedEcn ecn packet_len => on_plane (record_gateway_ecn_drop ecn packet_len)
      | GIgnored => modify (gcount control_datagrams_ignored 1)
      end
  | Err _ => modify (gcount control_datagrams_invalid 1)
  | Panic => pure Panic
  | Diverge => pure Diverge
  end.
Fixpoint drain_relay (n : nat) (config : GatewayDaemonConfig) (made_progress : bool) : Code bool :=
  match n with
  | O => mret made_progress
  | S n =>
      catch (lift gw_recv_from)
        (λ '(datagram, peer, outer_ecn), _ ← handle_relay_datagram config peer datagram outer_ecn; drain_relay n config true)
        (λ error, match error with WouldBlock => mret made_progress | IoOther error => fail (SocketFailed error) end)
  end.

(** ** The loop *)

Definition shutdown_gateway : Code unit :=
  g ← gets gd_gateway;
  match teardown g with
  | Ok action => _ ← send_gateway_action action; modify (gcount gateway_teardowns_sent 1)
  | Err _ => mret tt
  | Panic => pure Panic
  | Diverge => pure Diverge
  end.

(** The metrics sample and the log summary. *)
Definition report_gateway (config : GatewayDaemonConfig) : Code bool :=
  g ← gets gd_gateway;
  counters ← gets (λ d, gp_counters (gd_plane d));
  emitted ← lift (act (emit_gateway_metrics
    (mkGatewayGauges (is_established g) (bool_decide (is_Some (gdc_downstream config)))
       (bool_decide (is_Some (gdc_local_membership config))) (len (gdc_joins config)) 0 0 0 0) counters));
  t ← clock;
  _ ← on_plane (change (plog (λ l, (maybe_emit_gateway_log t l).2)));
  mret emitted.

(** One turn: whether the daemon returns. *)
Definition gateway_turn (config : GatewayDaemonConfig) : Code bool :=
  stop ← lift (act gw_shutdown_requested);
  if (stop : bool) then _ ← shutdown_gateway; mret true
  else
    timed_out ← check_query_timeout;
    solicited ← solicit;
    queried ← query_local_hosts;
    refreshed ← refresh_session;
    received ← drain_relay MAX_CONTROL_DRAIN config false;
    events ← drain_local_membership MAX_LOCAL_MEMBERSHIP_DRAIN (gdc_joins config) 0;
    expired ← prune_local_reporters (gdc_joins config);
    emitted ← report_gateway config;
    _ ← (if timed_out || solicited || queried || refreshed || received || negb (events =? 0) || expired || emitted then mret tt
         else lift (act (λ w, (tt, thread_sleep IDLE_SLEEP w))));
    mret false.
Fixpoint gateway_loop (turns : nat) (config : GatewayDaemonConfig) : Code bool :=
  match turns with
  | O => mret false
  | S turns =>
      stopped ← gateway_turn config;
      if (stopped : bool) then mret true else gateway_loop turns config
  end.
End operations.

(** What is set up before the loop, once the sockets are open; [rng] is what the generator gives. *)
Inductive GatewayStartError (X : Type) :=
| StartConfiguration (error : GatewayConfigError)
| StartDownstream (error : DownstreamError X)
| StartGateway (error : GatewayError).
Arguments StartConfiguration {_} _.
Arguments StartDownstream {_} _.
Arguments StartGateway {_} _.

Section start.
Context {C X : Type} `{!RawContext C X}.
Definition initialize_downstream (config : option DownstreamConfig) (context : C) (protocol : MembershipProtocol) :
    res (DownstreamError X) (option (DownstreamPublisher C)) :=
  match config with
  | None => Ok None
  | Some config => let '(r, p) := try_new (X:=X) config context protocol in _ ← r; Ok (Some p)
  end.
Definition start_gateway (t : Z) (context : C) (rng : draws) (config : GatewayDaemonConfig) :
    res (GatewayStartError X) (GatewayDaemon C X) :=
  _ ← map_err StartConfiguration (validate_gateway_daemon (C:=C) (X:=X) config);
  downstream ← map_err StartDownstream (initialize_downstream (gdc_downstream config) context (gc_protocol (gdc_gateway config)));
  '(gateway, _) ← map_err StartGateway (new_gateway (gdc_gateway config) rng);
  let local := new_manager <$> gdc_local_membership config in
  let refresh := default DEFAULT_MEMBERSHIP_REFRESH_INTERVAL (gdc_membership_refresh_interval config) in
  Ok (mkGatewayDaemon gateway local (mkPlane downstream no_counts (new_gateway_log t)) refresh (due_now t) None None t None).
End start.

(** * What the components do in a turn *)

(** What multicast data leads to. *)
Definition data_action (action : GatewayAction) : Prop :=
  match action with
  | GMulticastData packet _ => bytes packet
  | GDroppedEcn _ _ | GIgnored => True
  | GSend _ _ | GMembershipQuery _ _ _ _ _ _ => False
  end.
Lemma multicast_data_action g peer datagram ecn packet :
  bytes datagram → decode datagram = Ok (MulticastData packet) →
  wp (handle_datagram_with_ecn g peer datagram ecn) (λ '(_, action), data_action action) (λ _, True).
Proof.
  intros Hb Hdec. unfold handle_datagram_with_ecn. case_bool_decide as Hpeer; [|done]. cbn [negb]. rewrite Hdec. cbn.
  assert (bytes packet) as Hp by exact (decode_bytes_wf datagram _ Hb Hdec).
  apply wp_bind. eapply wp_mono; [by apply handle_multicast_data_wp| |done].
  intros action (_ & _ & parsed & _ & H). cbn [wp]. destruct (interested g _ _); [|by subst action].
  destruct (gc_ecn (gw_config g)); [|by subst action].
  destruct H as (p' & dd & Hdd & ->). destruct (is_drop dd); [done|].
  pose proof (decapsulate_ecn_wp packet ecn Hp) as Hw. rewrite Hdd in Hw. by destruct Hw as (_ & _ & _ & ? & _).
Qed.

Lemma remove_endpoint_state_wf st e : state_wf st → state_wf (remove_endpoint st e).1.
Proof.
  intros Hwf e' g i (es & He & Hg)%endpoint_interest_some. rewrite endpoints_remove_endpoint in He.
  apply lookup_delete_Some in He as [_ He]. apply (Hwf e'). apply endpoint_interest_some. by exists es.
Qed.

(** What a call of [try_recv] does to the manager: its state changes only when a report is accepted. *)
Definition received (m m' : LocalMembershipManager) (r : res (LocalMembershipError string) (option LocalMembershipEvent)) : Prop :=
  lm_config m' = lm_config m ∧ (state_wf (lm_state m) → state_wf (lm_state m')) ∧
  match r with Ok (Some _) => True | _ => lm_state m' = lm_state m end.
Lemma recv_loop_received n now m (incoming : list (string + option (list Z))) :
  manager_ok m → Forall (λ i, ∀ d, i = inr (Some d) → bytes d) incoming →
  received m (recv_loop n now m incoming).1 (recv_loop n now m incoming).2.
Proof.
  intros Hok. revert incoming. induction n as [|n IH]; intros incoming Hin; [done|].
  destruct incoming as [|[error|[datagram|]] incoming]; cbn [recv_loop]; try done.
  apply Forall_cons in Hin as [Hd Hin]. specialize (Hd datagram eq_refl).
  pose proof (parse_membership_report_with_limits_wp datagram default_parse_limits Hd) as Hp.
  unfold parse_membership_report. destruct (parse_membership_report_with_limits _ _) as [report|e| |]; try done.
  destruct (negb _); [by apply IH|]. destruct (parse_datagram_source datagram) as [[reporter|]|e| |]; try done; [|by apply IH].
  unfold apply_local_report.
  pose proof (apply_report_limited_spec (lm_state m) (sock_new reporter 0) report (lm_limits m) (mok_state m Hok)) as Hs.
  destruct (apply_report_limited _ _ _ _) as [st [k|e| |]]; cbn [fst snd] in Hs; try done; [|by subst st].
  destruct Hs as [-> _]. split; [done|]. split; [|done]. cbn [fst lm_state]. intros Hwf.
  apply apply_report_state_wf; [apply Hok|done|]. destruct Hp as [Hp _]. eapply Forall_impl; [exact Hp|]. by intros r [? _].
Qed.

Lemma prune_received m t m' expired :
  manager_ok m → prune_stale_reporters_at m t = (m', expired) →
  manager_ok m' ∧ lm_config m' = lm_config m ∧ (state_wf (lm_state m) → state_wf (lm_state m')) ∧ (expired = 0 → m' = m).
Proof.
  intros Hok. unfold prune_stale_reporters_at. destruct (lc_query_interval (lm_config m)); [|by intros; simplify_eq].
  set (stale := omap _ _). intros [= <- <-]. split; [by apply prune_steps_spec|]. clearbody stale. split_and!.
  - clear Hok. revert m. induction stale as [|r stale IH]; intros m; [done|]. cbn [foldl]. by rewrite IH.
  - clear Hok. revert m. induction stale as [|r stale IH]; intros m Hm; [done|]. cbn [foldl]. apply IH.
    by apply remove_endpoint_state_wf.
  - destruct stale; [done|]. unfold len. cbn. lia.
Qed.

