(* ===== verification/GatewayRun.v ===== *)
(** The gateway daemon keeps running: what holds at the end of every turn of its loop, and why it ends. *)

From stdpp Require Import strings.
From S2P Require Import Prelude Net Effects Protocol Ip Query Membership State Relay Ecn Gateway LocalMembership Desired Downstream Metrics RelayDaemon Asked GatewayPlane GatewayDaemon GatewayLoop.

(** What the daemon relies on: calls return, the generator gives non-zero nonces, received datagrams are bytes; [sent] is
    what went out of the tunnel socket. *)
Class GatewayWorldOk {W : Type} `{!GatewayWorld W} (sent : W → list (list Z * SocketAddr)) : Prop := {
  gnow_ok w : sent (gnow w).2 = sent w;
  nonce_draws_ok w :
    draws_wf (nonce_draws w).1 ∧ sent (nonce_draws w).2 = sent w ∧
    ∃ n n' rng rng', random_nonce (E:=GatewayError) (nonce_draws w).1 = Ok (n, rng) ∧ random_nonce (E:=GatewayError) rng = Ok (n', rng');
  retry_random_ok w : sent (retry_random w).2 = sent w ∧ from_option (λ n, 0 <= n) True (retry_random w).1;
  gw_recv_from_ok w :
    mwp gw_recv_from (λ '(datagram, _, _) w', bytes datagram ∧ sent w' = sent w) (λ _ w', sent w' = sent w) w;
  gw_send_to_ok datagram destination ecn w :
    mwp (gw_send_to datagram destination ecn) (λ _ w', sent w' = sent w ++ [(datagram, destination)]) (λ _ w', sent w' = sent w) w;
  local_incoming_ok w :
    Forall (λ i, ∀ d, i = inr (Some d) → bytes d) (local_incoming w).1 ∧ sent (local_incoming w).2 = sent w;
  emit_gateway_metrics_ok gauges counters w : sent (emit_gateway_metrics gauges counters w).2 = sent w;
  gw_shutdown_requested_ok w : sent (gw_shutdown_requested w).2 = sent w;
  thread_sleep_ok d w : sent (thread_sleep d w) = sent w
}.

Section invariant.
Context {C X W : Type} `{!RawContext C X} `{!GatewayWorld W}.
Context (opened : C → gmap Z RawPublicationConfig) (published_packets : C → list (Z * list Z)) `{!RawContextLaws opened published_packets}.
Context (sent : W → list (list Z * SocketAddr)) `{!GatewayWorldOk sent}.
Context (joins : list GatewayJoin) (joins_wf : Forall join_wf joins).
Implicit Types d : GatewayDaemon C X.

(** The parts are in order. *)
Record parts_ok d : Prop := {
  po_gateway : gateway_ok (gd_gateway d);
  po_local : local_ok (gd_local d);
  po_local_wf : local_wf (gd_local d);
  po_interface : ∀ m, gd_local d = Some m → from_option ip_wf True (lc_interface (lm_config m));
  po_plane : plane_ok opened (gd_plane d)
}.
(** The gateway's filter is what is desired. *)
Definition synced d : Prop :=
  ∀ group source, interested (gd_gateway d) source group = true ↔
    joins_want joins group source ∨ hosts_want (gd_local d) group source.
(** Without a session a timer runs, unless the daemon has yet to send its first discovery. *)
Definition timed d : Prop :=
  gd_query_cycle_started d = None →
  is_established (gd_gateway d) = true ∨ gw_phase (gd_gateway d) = Discovering ∧ gr_attempt (gd_relay_retry d) = 0.
(** What was asked for in the datagrams that were sent, and under the current session, is the filter; with a session, it is what is desired. *)
Record gateway_daemon_ok d (w : W) : Prop := {
  gk_parts : parts_ok d;
  gk_asks : asks_filter (gd_gateway d) (sent w);
  gk_told : told (gd_gateway d) (sent w);
  gk_synced : is_established (gd_gateway d) = true → synced d;
  gk_timed : timed d
}.
(** Why the daemon ends: its sockets fail, or a report of what is desired does not fit a message. *)
Definition ends (e : GatewayFailure) : Prop :=
  match e with
  | SocketFailed _ => True
  | LocalReceiveFailed e => is_parse_error e = false
  | UpdateFailed e => ∃ error, e = GMembershipBuild error
  | RequestFailed _ | QueryCycleFailed _ => False
  end.
Abbreviation kept := (λ _ '(d, w), gateway_daemon_ok d w) (only parsing).
Abbreviation ended := (λ e _, ends e) (only parsing).

Lemma parts_frame d d' :
  parts_ok d → gd_gateway d' = gd_gateway d → gd_local d' = gd_local d → gp_downstream (gd_plane d') = gp_downstream (gd_plane d) → parts_ok d'.
Proof. intros [] Hg Hl Hp. split; rewrite ?Hg, ?Hl; try done. unfold plane_ok. by rewrite Hp. Qed.
Lemma daemon_frame d d' w w' :
  gateway_daemon_ok d w → asks (sent w') = asks (sent w) → gd_gateway d' = gd_gateway d → gd_local d' = gd_local d →
  gp_downstream (gd_plane d') = gp_downstream (gd_plane d) →
  gd_query_cycle_started d' = gd_query_cycle_started d → gd_relay_retry d' = gd_relay_retry d → gateway_daemon_ok d' w'.
Proof.
  intros [] Hw Hg Hl Hp Hc Hr. split; [by apply (parts_frame d)|..].
  1: by eapply asks_filter_frame; [done|done|by rewrite Hg]. 1: by eapply told_frame; [done|done|by rewrite Hg..].
  all: unfold synced, timed in *; by rewrite ?Hg, ?Hl, ?Hc, ?Hr.
Qed.
Lemma daemon_world d w w' : gateway_daemon_ok d w → sent w' = sent w → gateway_daemon_ok d w'.
Proof. intros Hd Hw. apply (daemon_frame d d w w'); try done. by rewrite Hw. Qed.
(** A gateway that is not established, or no longer: the filter and the session stay, or the session ends. *)
Lemma daemon_unestablished d d' w w' :
  gateway_daemon_ok d w → parts_ok d' → is_established (gd_gateway d') = false → is_Some (gd_query_cycle_started d') →
  asks (sent w') = asks (sent w) → gw_reception_state (gd_gateway d') = gw_reception_state (gd_gateway d) →
  gw_session (gd_gateway d') = None ∨
    gw_session (gd_gateway d') = gw_session (gd_gateway d) ∧ gw_relay_endpoint (gd_gateway d') = gw_relay_endpoint (gd_gateway d) →
  gateway_daemon_ok d' w'.
Proof.
  intros Hd Hp He [t Ht] Hw Hr Hs. split; [done| | |by rewrite He|unfold timed; by rewrite Ht].
  - by eapply asks_filter_frame; [apply Hd|..].
  - destruct Hs as [Hs|[Hs Hrel]]; [by apply told_none|]. by eapply told_frame; [apply Hd|..].
Qed.
Lemma not_established g : gw_phase g ≠ Established → is_established g = false.
Proof. intros Hp. unfold is_established. by rewrite bool_decide_eq_false_2. Qed.

(** ** Calls *)

Lemma clock_wp (Q : Z → GatewayDaemon C X * W → Prop) R d w :
  (∀ t w', sent w' = sent w → Q t (d, w')) → mwp clock Q R (d, w).
Proof. intros HQ. apply mwp_lift, mwp_act, HQ, gnow_ok. Qed.
Lemma send_wp datagram destination ecn (Q : Z → GatewayDaemon C X * W → Prop) (R : GatewayFailure → GatewayDaemon C X * W → Prop) d w :
  (∀ n w', sent w' = sent w ++ [(datagram, destination)] → Q n (d, w')) →
  (∀ e w', sent w' = sent w → R (SocketFailed e) (d, w')) →
  mwp (lift (mmap_err SocketFailed (gw_send_to datagram destination ecn))) Q R (d, w).
Proof. intros HQ HR. apply mwp_lift, mwp_map_err. eapply mwp_mono; [apply gw_send_to_ok|..]; auto. Qed.
Lemma send_action_wp action (Q : unit → GatewayDaemon C X * W → Prop) (R : GatewayFailure → GatewayDaemon C X * W → Prop) d w :
  (∀ w', sent w' = sent w ++ sends (Some action) → Q tt (d, w')) →
  (∀ e w', R (SocketFailed e) (d, w')) → mwp (send_gateway_action action) Q R (d, w).
Proof.
  intros HQ HR. destruct action; cbn [send_gateway_action]; try (mwp_step; apply HQ; by rewrite app_nil_r).
  mwp_step. apply send_wp; [|auto]. intros n w' Hw. mwp_step. by apply HQ.
Qed.


Lemma read_wp {A} (f : W → A * W) (Q : A → GatewayDaemon C X * W → Prop) (R : GatewayFailure → GatewayDaemon C X * W → Prop) d w :
  Q (f w).1 (d, (f w).2) → mwp (lift (act f)) Q R (d, w).
Proof. intros HQ. by apply mwp_lift, mwp_act. Qed.

(** The nonces of a gateway are the next two that the generator gives. *)
Definition drawn (rng : draws) (g : Gateway) : Prop :=
  ∃ n rng1 n' rng2, random_nonce (E:=GatewayError) rng = Ok (n, rng1) ∧ random_nonce (E:=GatewayError) rng1 = Ok (n', rng2) ∧
    gc_discovery_nonce (gw_config g) = n ∧ gc_request_nonce (gw_config g) = n'.
Lemma restart_wp (Q : GatewayAction → GatewayDaemon C X * W → Prop) (R : GatewayFailure → GatewayDaemon C X * W → Prop) d w :
  gateway_ok (gd_gateway d) →
  (∀ g, gateway_ok g → gw_phase g = Discovering → gw_reception_state g = gw_reception_state (gd_gateway d) →
     gc_relay (gw_config g) = gc_relay (next_relays (gw_config (gd_gateway d)) (gw_relay_candidates (gd_gateway d))) →
     drawn (nonce_draws w).1 g → Q (discovery g) (set_gateway g d, (nonce_draws w).2)) →
  mwp (drawing restart_discovery) Q R (d, w).
Proof.
  intros Hok HQ. unfold drawing. mwp_step. apply read_wp. destruct (nonce_draws_ok w) as (Hd & Hs & n & n' & rng & rng' & Hn & Hn').
  repeat mwp_step. destruct (restart_discovery (gd_gateway d) (nonce_draws w).1) as [[[g action] rest]|e| |] eqn:Hr;
    [|by unfold restart_discovery in Hr; rewrite Hn in Hr; cbn in Hr; rewrite Hn' in Hr..].
  assert (action = discovery g ∧ drawn (nonce_draws w).1 g) as [-> Hdr].
  { unfold restart_discovery in Hr. rewrite Hn in Hr. cbn in Hr. rewrite Hn' in Hr. cbn in Hr. injection Hr as <- <- _. split; [done|]. by exists n, rng, n', rng'. }
  apply restart_discovery_ok in Hr as (Hok' & _ & Hp & Hst & Hrel & _); [|done..]. cbn. repeat mwp_step. by apply HQ.
Qed.
Lemma begin_cycle_wp (Q : GatewayAction → GatewayDaemon C X * W → Prop) (R : GatewayFailure → GatewayDaemon C X * W → Prop) d w :
  gateway_ok (gd_gateway d) → gw_phase (gd_gateway d) ≠ Discovering →
  (∀ g action w', gateway_ok g → gw_phase g = AwaitingMembershipQuery → gw_relay_endpoint g = gw_relay_endpoint (gd_gateway d) →
     gw_session g = gw_session (gd_gateway d) → gw_reception_state g = gw_reception_state (gd_gateway d) →
     sent w' = sent w → asks (sent w ++ sends (Some action)) = asks (sent w) → Q action (set_gateway g d, w')) →
  mwp (drawing begin_query_cycle) Q R (d, w).
Proof.
  intros Hok Hne HQ. unfold drawing. mwp_step. apply read_wp. destruct (nonce_draws_ok w) as (Hd & Hs & n & n' & rng & rng' & Hn & Hn').
  repeat mwp_step. assert (gw_relay_endpoint (gd_gateway d) ≠ None) as Hr by (rewrite <- (gok_discovering _ Hok); done).
  destruct (begin_query_cycle (gd_gateway d) (nonce_draws w).1) as [[[g action] rest]|e| |] eqn:Hb.
  2-4: exfalso; unfold begin_query_cycle in Hb; rewrite bool_decide_eq_false_2, Hn in Hb by done; cbn in Hb;
       unfold request in Hb; cbn in Hb; by destruct (gw_relay_endpoint (gd_gateway d)).
  pose proof (cycle_asks_nothing _ _ _ _ _ (sent w) Hok Hd Hb) as (He & Hse & Hst & Ha).
  apply begin_query_cycle_ok in Hb as (Hok' & _ & Hp & _); [|done..]. cbn. repeat mwp_step. by apply HQ.
Qed.

(** ** The session *)

Lemma start_query_cycle_wp (Q : unit → GatewayDaemon C X * W → Prop) (R : GatewayFailure → GatewayDaemon C X * W → Prop) d w :
  (∀ r w', sent w' = sent w → Q tt (set_retry r (set_query_cycle (Some (gnow w).1) d), w')) → mwp start_query_cycle Q R (d, w).
Proof.
  intros HQ. unfold start_query_cycle, retry_reset_after_send. mwp_step. unfold clock at 1. apply read_wp. mwp_step. mwp_step.
  mwp_step. apply clock_wp. intros t' w2 H2. mwp_step. apply read_wp. mwp_step. apply HQ.
  destruct (retry_random_ok w2) as [H3 _]. rewrite H3, H2. apply gnow_ok.
Qed.
Lemma retry_after_send_wp (Q : unit → GatewayDaemon C X * W → Prop) (R : GatewayFailure → GatewayDaemon C X * W → Prop) d w :
  (∀ r w', sent w' = sent w → Q tt (set_retry r d, w')) → mwp retry_after_send Q R (d, w).
Proof.
  intros HQ. unfold retry_after_send. mwp_step. apply clock_wp. intros t w1 H1. mwp_step. apply read_wp. mwp_step. apply HQ.
  destruct (retry_random_ok w1) as [H2 _]. congruence.
Qed.

(** Discovery starts over with the next relay: the nonces are drawn, the discovery is sent, and the new cycle starts at the time that
    the clock gives then. *)
Definition rediscovered (w : W) d d' w' : Prop :=
  let c := gw_config (gd_gateway d') in
  let '(rng, w1) := nonce_draws w in
  let discovery := encode (RelayDiscovery (gc_discovery_nonce c)) in
  gw_phase (gd_gateway d') = Discovering ∧
  gc_relay c = gc_relay (next_relays (gw_config (gd_gateway d)) (gw_relay_candidates (gd_gateway d))) ∧ drawn rng (gd_gateway d') ∧
  gd_query_cycle_started d' = Some (gnow (gw_send_to discovery (gc_relay c) NotEct w1).2).1 ∧
  sent w' = sent w ++ [(discovery, gc_relay c)].
Lemma rediscover_wp d w :
  parts_ok d → asks_filter (gd_gateway d) (sent w) →
  mwp rediscover (λ _ '(d', w'), gateway_daemon_ok d' w' ∧ rediscovered w d d' w') ended (d, w).
Proof.
  intros Hd Hf. unfold rediscover. mwp_step. apply restart_wp; [apply Hd|]. intros g Hg Hp Hst Hrel Hdr. destruct (nonce_draws_ok w) as (_ & H1 & _).
  unfold rediscovered. destruct (nonce_draws w) as [rng w1]. cbn [fst snd] in *. mwp_step. cbn [send_gateway_action discovery]. mwp_step.
  apply mwp_lift, mwp_map_err. eapply mwp_mono; [apply mwp_known, (gw_send_to_ok (encode (RelayDiscovery (gc_discovery_nonce (gw_config g)))))| |by intros ? ? _].
  intros n w2 [H2 Hw2]. cbn [fst]. do 3 mwp_step. apply start_query_cycle_wp. intros r w3 H3.
  assert (sent w3 = sent w ++ sends (Some (discovery g))) as Hs by by rewrite H3, H2, H1.
  split; [|split_and!; try done; cbn [gd_gateway gd_query_cycle_started set_retry set_query_cycle gcount set_plane set_gateway]; by rewrite Hw2].
  split; [|rewrite Hs..| |].
  - destruct Hd. by split.
  - eapply asks_filter_frame; [done|by apply discovery_asks_nothing|done].
  - apply told_none, (gok_session _ Hg), Hp.
  - intros He. cbn in He. by rewrite not_established in He by by rewrite Hp.
  - by intros [=].
Qed.

Lemma check_query_timeout_wp d w :
  gateway_daemon_ok d w → mwp check_query_timeout kept ended (d, w).
Proof.
  intros Hd. unfold check_query_timeout. mwp_step. mwp_step. destruct (gd_query_cycle_started d) as [started|] eqn:Hs; [|by mwp_step].
  mwp_step. apply clock_wp. intros t w1 H1. destruct (_ <=? _); [|mwp_step; by apply (daemon_world d w)]. mwp_step.
  eapply mwp_mono; [apply rediscover_wp; [apply Hd|rewrite H1; apply Hd]| |done]. intros _ [d' w'] [Hd' _]. by mwp_step.
Qed.

Lemma retry_is_due_wp (Q : bool → GatewayDaemon C X * W → Prop) (R : GatewayFailure → GatewayDaemon C X * W → Prop) d w :
  (∀ b w', sent w' = sent w → Q b (d, w')) → mwp retry_is_due Q R (d, w).
Proof. intros HQ. unfold retry_is_due. mwp_step. apply clock_wp. intros t w1 H1. repeat mwp_step. by apply HQ. Qed.

Lemma send_discovery_wp d w :
  gateway_daemon_ok d w → gw_relay_endpoint (gd_gateway d) = None → mwp (send_discovery (gd_gateway d)) kept ended (d, w).
Proof.
  intros Hd Hr. unfold send_discovery. mwp_step. apply send_action_wp; [|done]. intros w2 H2. repeat mwp_step.
  cbn [gd_query_cycle_started gcount set_plane]. pose proof (po_gateway _ (gk_parts _ _ Hd)) as Hgok.
  assert (is_established (gd_gateway d) = false) as He.
  { apply not_established. apply (gok_discovering _ Hgok) in Hr. by rewrite Hr. }
  assert (∀ r d' w', sent w' = sent w2 → gd_gateway d' = gd_gateway d → gd_local d' = gd_local d → gp_downstream (gd_plane d') = gp_downstream (gd_plane d) →
    is_Some (gd_query_cycle_started d') → gateway_daemon_ok (set_retry r d') w') as Hok.
  { intros r d' w' Hw Hg Hl Hp Hq. apply (daemon_unestablished d _ w); try done; [by apply (parts_frame d); [apply Hd|..]|cbn; by rewrite Hg|..].
    - rewrite Hw, H2. by apply discovery_asks_nothing.
    - cbn. by rewrite Hg.
    - right. cbn. by rewrite Hg. }
  destruct (gd_query_cycle_started d) as [t|] eqn:Hq.
  - mwp_step. mwp_step. apply retry_after_send_wp. intros r w3 H3. mwp_step. by apply Hok; rewrite ?Hq.
  - mwp_step. apply clock_wp. intros t w3 H3. mwp_step. mwp_step. apply retry_after_send_wp. intros r w4 H4. mwp_step.
    by apply Hok; [congruence|..|eexists].
Qed.
Lemma repeat_request_wp d w : gateway_daemon_ok d w → mwp (repeat_request (gd_gateway d)) kept ended (d, w).
Proof.
  intros Hd. unfold repeat_request. mwp_step. destruct (is_awaiting_query (gd_gateway d)) eqn:Ha; [|by repeat mwp_step].
  apply retry_is_due_wp. intros [] w2 H2; [|mwp_step; by apply (daemon_world d w)]. apply bool_decide_eq_true in Ha.
  mwp_step. mwp_step. unfold request. pose proof (gok_discovering _ (po_gateway _ (gk_parts _ _ Hd))) as Hp.
  destruct (gw_relay_endpoint (gd_gateway d)) as [relay|] eqn:Hrel; [|by rewrite Ha in Hp; destruct Hp as [_ Hp]; specialize (Hp eq_refl)].
  cbn [ok_or mbind res_bind map_err wp]. mwp_step. apply send_action_wp; [|done]. intros w3 H3.
  mwp_step. apply retry_after_send_wp. intros r w4 H4. mwp_step.
  apply (daemon_unestablished d _ w); try done; [by apply (parts_frame d); [apply Hd|..]|apply not_established; cbn; by rewrite Ha|..].
  - cbn. destruct (gd_query_cycle_started d) as [t|] eqn:Hq; [by eexists|]. destruct (gk_timed _ _ Hd Hq) as [Hx|[Hx _]]; [|congruence].
    rewrite not_established in Hx by by rewrite Ha. done.
  - rewrite H4, H3, H2. apply request_asks_nothing, Hd.
  - by right.
Qed.
Lemma solicit_wp d w : gateway_daemon_ok d w → mwp solicit kept ended (d, w).
Proof.
  intros Hd. unfold solicit. mwp_step. mwp_step. mwp_step. case_bool_decide as He.
  - apply retry_is_due_wp. intros [] w1 H1; (assert (gateway_daemon_ok d w1) by by apply (daemon_world d w)).
    + by apply send_discovery_wp.
    + by apply repeat_request_wp.
  - mwp_step. by apply repeat_request_wp.
Qed.

Lemma refresh_session_wp d w : gateway_daemon_ok d w → mwp refresh_session kept ended (d, w).
Proof.
  intros Hd. unfold refresh_session. mwp_step. mwp_step. destruct (is_established (gd_gateway d)) eqn:He; [|by mwp_step].
  mwp_step. mwp_step. destruct (gd_last_membership_refresh d) as [last|]; [|by mwp_step].
  mwp_step. apply clock_wp. intros t w1 H1. mwp_step. mwp_step. destruct (_ <=? _); [|mwp_step; by apply (daemon_world d w)]. mwp_step.
  assert (gw_phase (gd_gateway d) = Established) as Hp by by apply andb_true_iff in He as [He%bool_decide_eq_true _].
  apply begin_cycle_wp; [apply Hd|by rewrite Hp|]. intros g action w2 Hg Hp' Hrel Hse Hst H2 Hact. mwp_step. apply send_action_wp; [|done]. intros w3 H3.
  mwp_step. apply start_query_cycle_wp. intros r w4 H4. mwp_step.
  apply (daemon_unestablished d _ w); try done; [|by apply not_established; cbn; rewrite Hp'|..|by right].
  - destruct (gk_parts _ _ Hd). by split.
  - rewrite H4, H3, H2, Hact. by rewrite H1.
Qed.

(** ** The data plane *)

Lemma on_plane_wp {A} (m : M (GatewayPlane C X) GatewayFailure A) d w :
  gateway_daemon_ok d w → mwp m (λ _ pl, plane_ok opened pl) (λ _ _, False) (gd_plane d) →
  mwp (on_plane (W:=W) m) kept ended (d, w).
Proof.
  intros [[] ? ? Hs Ht] Hm. unfold mwp, on_plane in *. destruct (m (gd_plane d)) as [[a|e| |] pl]; try done; cbn in *; by split; [split|..].
Qed.

Lemma query_local_hosts_wp d w : gateway_daemon_ok d w → mwp query_local_hosts kept ended (d, w).
Proof.
  intros Hd. unfold query_local_hosts. mwp_step. mwp_step. destruct (gd_local d) as [m|] eqn:Hm; [|by mwp_step].
  destruct (lc_query_interval (lm_config m)) as [interval|]; [|by mwp_step]. mwp_step. mwp_step. mwp_step.
  apply (mwp_mono _ (λ _ '(d', w'), d' = d ∧ gateway_daemon_ok d w') _ ended); [|intros b [d' w'] [-> Hd']|done].
  { destruct (gd_last_local_query d) as [last|]; [|by mwp_step]. mwp_step. apply clock_wp. intros t w1 H1. mwp_step. split; [done|].
    by apply (daemon_world d w). }
  destruct b; [|by mwp_step]. mwp_step. eapply mwp_mono; [apply on_plane_wp; [done|]| |done].
  - apply (query_hosts_wp opened published_packets); [apply Hd|by apply (po_interface _ (gk_parts _ _ Hd))].
  - intros [] [d1 w1] Hd1. mwp_step. apply clock_wp. intros t w2 H2. repeat mwp_step. apply (daemon_frame d1 _ w1); try done. by rewrite H2.
Qed.

(** ** Memberships *)

Lemma mark_hosts_want m group source : hosts_want (Some (mark_advertised m)) group source ↔ hosts_want (Some m) group source.
Proof. unfold hosts_want. split; intros (m' & [= <-] & ?); by eexists. Qed.
Lemma parts_gateway g d : parts_ok d → gateway_ok g → parts_ok (set_gateway g d).
Proof. intros [] ?. by split. Qed.
Lemma parts_local m d :
  parts_ok d → manager_ok m → state_wf (lm_state m) → from_option ip_wf True (lc_interface (lm_config m)) → parts_ok (set_local m d).
Proof. intros [] ? ? ?. by split; [..|]; cbn; try done; intros ? [= <-]. Qed.

(** What sending the desired memberships leaves: the same session and timers, and a filter that is what is desired and what the relay was told. *)
Definition resynced d d' w' : Prop :=
  asks_filter (gd_gateway d') (sent w') ∧ told (gd_gateway d') (sent w') ∧ parts_ok d' ∧ synced d' ∧ is_established (gd_gateway d') = is_established (gd_gateway d) ∧ gw_phase (gd_gateway d') = gw_phase (gd_gateway d) ∧
  gd_query_cycle_started d' = gd_query_cycle_started d ∧ gd_relay_retry d' = gd_relay_retry d.
Lemma resynced_ok d d' w' : timed d → resynced d d' w' → gateway_daemon_ok d' w'.
Proof. intros Ht (Ha & Hto & Hp & Hs & He & Hph & Hc & Hr). split; [done..|]. unfold timed in *. by rewrite He, Hph, Hc, Hr. Qed.
Lemma established_session g : gateway_ok g → is_Some (gw_session g) → is_Some (gw_relay_endpoint g).
Proof.
  intros Hok [s Hs]. destruct (gw_relay_endpoint g) eqn:He; [by eexists|]. apply (gok_discovering _ Hok) in He.
  by rewrite (gok_session _ Hok He) in Hs.
Qed.

Lemma send_desired_wp d w :
  parts_ok d → asks_filter (gd_gateway d) (sent w) → is_Some (gw_session (gd_gateway d)) →
  mwp (send_desired_membership joins) (λ _ '(d', w'), resynced d d' w') ended (d, w).
Proof.
  intros Hd Hf Hsess. pose proof (established_session _ (po_gateway _ Hd) Hsess) as Hrel. unfold send_desired_membership. repeat mwp_step.
  pose proof (replace_memberships_wp (gd_gateway d) (gc_protocol (gw_config (gd_gateway d))) joins (gd_local d) (sent w)
    (po_gateway _ Hd) (po_local _ Hd) (po_local_wf _ Hd) joins_wf Hf) as Hw.
  destruct (replace_memberships _ _) as [[g action]|e| |]; cbn [map_err wp] in *; try done; cycle 1.
  { destruct Hw as [Hw|[Hw|Hw]]; [rewrite Hw in Hrel; by destruct Hrel|rewrite Hw in Hsess; by destruct Hsess|done]. }
  destruct Hw as (Hg & _ & Hph & _ & Hss & Hasks & Htold & Hwant).
  assert (∀ w', sent w' = sent w ++ sends action → resynced d (set_gateway g d) w') as Hr.
  { intros w' Hw'. unfold resynced. rewrite Hw'. split_and!; try done; [by apply parts_gateway|]. cbn. unfold is_established. rewrite Hph. f_equal. by apply bool_decide_ext. }
  clear Hwant Hph Hss Hasks Htold. mwp_step. mwp_step. destruct action as [action|]; [|mwp_step; apply Hr; by rewrite app_nil_r].
  mwp_step. apply send_action_wp; [|done]. intros w1 H1. mwp_step. mwp_step. mwp_step.
  destruct (Hr w1 H1) as (Ha & Hto & Hp & Hs & He & Hph & Hc & Hrr).
  destruct (gd_local d) as [m|] eqn:Hm; repeat mwp_step; split_and!; try done; [..|by apply (parts_frame (set_gateway g d))].
  - apply (parts_local (mark_advertised m)); [by apply (parts_frame (set_gateway g d))|apply mark_advertised_ok, Hd, Hm|exact (po_local_wf _ Hd m Hm)|exact (po_interface _ Hd m Hm)].
  - intros group source. rewrite (Hs group source). cbn [gd_local set_local set_gateway gcount set_plane]. by rewrite Hm, mark_hosts_want.
Qed.

Lemma drain_local_wp n : ∀ events d w,
  gateway_daemon_ok d w → mwp (drain_local_membership n joins events) kept ended (d, w).
Proof.
  induction n as [|n IH]; intros events d w Hd; cbn [drain_local_membership]; [by mwp_step|]. mwp_step. mwp_step.
  destruct (gd_local d) as [m|] eqn:Hm; [|by mwp_step]. mwp_step. unfold mwp at 1, receive_local.
  destruct (local_incoming_ok w) as [Hin H1]. destruct (local_incoming w) as [incoming w1]. cbn [fst snd] in Hin, H1.
  pose proof (gnow_ok w1) as H2. destruct (gnow w1) as [t w2]. cbn [snd] in H2.
  assert (sent w2 = sent w) as Hw by congruence. clear H1 H2. assert (gateway_daemon_ok d w2) as Hd2 by by apply (daemon_world d w).
  clear Hd Hw w. rename Hd2 into Hd. pose proof (po_local _ (gk_parts _ _ Hd) m Hm) as Hmok.
  pose proof (recv_loop_ok MAX_IRRELEVANT_PACKET_SKIP t m incoming Hmok Hin) as [Hok Hret].
  pose proof (recv_loop_received MAX_IRRELEVANT_PACKET_SKIP t m incoming Hmok Hin) as (Hc & Hwf & Hst). unfold try_recv.
  destruct (recv_loop _ t m incoming) as [m' r]. cbn [fst snd] in *.
  assert (parts_ok (set_local m' d)) as Hparts.
  { apply parts_local; [apply Hd|done|apply Hwf; by apply (po_local_wf _ (gk_parts _ _ Hd))|rewrite Hc; by apply (po_interface _ (gk_parts _ _ Hd))]. }
  assert (lm_state m' = lm_state m → gateway_daemon_ok (set_local m' d) w2) as Hsame.
  { intros Hst'. split; [done|apply Hd..| |apply Hd]. intros He group source. rewrite (gk_synced _ _ Hd He group source). cbn [gd_local set_local].
    rewrite Hm. unfold hosts_want, current_exportable_interests, current_interests. split; (intros [?|(m0 & [= <-] & Hw)]; [by left|right]);
      eexists; (split; [done|]); [rewrite Hst', Hc|rewrite <- Hst', <- Hc]; exact Hw. }
  destruct r as [[event|]|e| |]; try done; cbn [wp].
  - mwp_step. mwp_step. mwp_step. mwp_step. mwp_step. cbn [gd_gateway gcount set_plane set_local]. case_bool_decide as Hmac.
    + eapply mwp_mono; [apply send_desired_wp|..]; [by apply (parts_frame (set_local m' d))|apply Hd| | |done].
      * cbn. unfold gw_response_mac in Hmac. by apply fmap_is_Some in Hmac.
      * intros _ [d' w'] Hr. apply IH. eapply resynced_ok; [|exact Hr]. apply Hd.
    + mwp_step. apply IH. split; [by apply (parts_frame (set_local m' d))|apply Hd..| |apply Hd]. intros He. exfalso. apply Hmac.
      apply andb_true_iff in He as [_ He%bool_decide_eq_true]. unfold gw_response_mac. by apply fmap_is_Some.
  - mwp_step. by apply Hsame.
  - destruct (is_parse_error e) eqn:Hpe; [|by mwp_step]. mwp_step. mwp_step. apply IH.
    by apply (daemon_frame (set_local m' d) _ w2); [apply Hsame|..].
Qed.

Lemma prune_local_wp d w : gateway_daemon_ok d w → mwp (prune_local_reporters joins) kept ended (d, w).
Proof.
  intros Hd. unfold prune_local_reporters. mwp_step. mwp_step. destruct (gd_local d) as [m|] eqn:Hm; [|by mwp_step].
  mwp_step. apply clock_wp. intros t w1 H1. mwp_step. mwp_step. destruct (_ <=? _); [|mwp_step; by apply (daemon_world d w)].
  mwp_step. apply clock_wp. intros t' w2 H2. assert (gateway_daemon_ok d w2) as Hd2 by (apply (daemon_world d w); [done|congruence]).
  clear H1 H2 Hd w w1. rename Hd2 into Hd. destruct (prune_stale_reporters_at m t') as [m' expired] eqn:Hpr.
  destruct (prune_received m t' m' expired (po_local _ (gk_parts _ _ Hd) m Hm) Hpr) as (Hok & Hc & Hwf & Hsame).
  assert (parts_ok (set_local m' d)) as Hparts.
  { apply parts_local; [apply Hd|done|apply Hwf; by apply (po_local_wf _ (gk_parts _ _ Hd))|rewrite Hc; by apply (po_interface _ (gk_parts _ _ Hd))]. }
  assert (∀ d' w', gateway_daemon_ok d' w' → mwp (t ← clock; _ ← modify (set_last_local_prune t); mret (negb (expired =? 0))) kept ended (d', w')) as Hend.
  { intros d' w' Hd'. mwp_step. apply clock_wp. intros t'' w'' Hw. repeat mwp_step. apply (daemon_frame d' _ w'); try done. by rewrite Hw. }
  mwp_step. mwp_step. mwp_step. mwp_step. mwp_step. cbn [gd_gateway set_local].
  destruct (Z.eqb_spec expired 0) as [H0|H0]; cbn [negb andb].
  - mwp_step. apply Hend. rewrite (Hsame H0). apply (daemon_frame d _ w2); [done|done|done|by cbn; rewrite Hm|done..].
  - destruct (is_established (gd_gateway d)) eqn:He.
    + eapply mwp_mono; [apply send_desired_wp; [done|apply Hd|]| |done].
      * by apply andb_true_iff in He as [_ He%bool_decide_eq_true].
      * intros _ [d' w'] Hr. apply Hend. eapply resynced_ok; [|exact Hr]. apply Hd.
    + mwp_step. apply Hend. split; [done|apply Hd..|cbn; by rewrite He|apply Hd].
Qed.

(** ** Datagrams of the relay *)

Lemma answer_query_wp config limit interval previous d w :
  gdc_joins config = joins → parts_ok d → is_established (gd_gateway d) = true → asks_filter (gd_gateway d) (sent w) →
  (∀ teardown log, previous = Some teardown → asks (log ++ [(send_datagram teardown, send_destination teardown)]) = asks log) →
  mwp (answer_query config limit interval previous) kept ended (d, w).
Proof.
  intros Hj Hd He Hf Hprev. unfold answer_query. mwp_step. mwp_step. mwp_step.
  apply (mwp_mono _ (λ _ '(d', w'), parts_ok d' ∧ gd_gateway d' = gd_gateway d ∧ asks_filter (gd_gateway d') (sent w')) _ ended); [| |done].
  { destruct previous as [teardown|]; [|mwp_step; split; [by apply (parts_frame d)|done]].
    mwp_step. apply send_wp; [|done]. intros n w1 H1. mwp_step. split; [by apply (parts_frame d)|]. split; [done|].
    eapply asks_filter_frame; [exact Hf| |done]. rewrite H1. by apply Hprev. }
  intros _ [d1 w1] (Hd1 & Hg1 & Hf1). mwp_step. mwp_step. destruct (limit_requires_rediscovery _ _ _).
  - mwp_step. eapply mwp_mono; [by apply rediscover_wp| |done]. intros _ [d2 w2] [Hd2 _]. mwp_step. by apply (daemon_frame d2 _ w2).
  - mwp_step. mwp_step. mwp_step. unfold refresh_gateway_memberships. rewrite Hj. mwp_step.
    set (d2 := set_effective_refresh _ d1). assert (parts_ok d2) as Hd2 by by apply (parts_frame d1).
    assert (is_established (gd_gateway d2) = true) as He2 by (cbn; congruence).
    assert (asks_filter (gd_gateway d2) (sent w1)) as Hf2 by done. clearbody d2.
    eapply mwp_mono; [apply send_desired_wp; [done|done|]| |done].
    { by apply andb_true_iff in He2 as [_ ?%bool_decide_eq_true]. }
    intros refreshed [d3 w3] (Ha & Hto & Hp & Hs & He3 & _). rewrite He2 in He3. mwp_step. mwp_step.
    apply (mwp_mono _ (λ _ '(d', w'), parts_ok d' ∧ gd_gateway d' = gd_gateway d3 ∧ synced d' ∧ w' = w3) _ ended); [| |done].
    { destruct (negb _); mwp_step; [|done]. split; [by apply (parts_frame d3)|done]. }
    intros _ [d4 w4] (Hp4 & Hg4 & Hs4 & ->). mwp_step. mwp_step. mwp_step. apply clock_wp. intros t w5 H5. mwp_step.
    split; [by apply (parts_frame d4)|cbn; rewrite H5, Hg4; done..|done|]. intros _. left. cbn. congruence.
Qed.

Lemma established_iff g : gateway_ok g → is_established g = true ↔ gw_phase g = Established.
Proof.
  intros Hok. unfold is_established. rewrite andb_true_iff, !bool_decide_eq_true. split; [by intros [? _]|].
  intros H. split; [done|]. by apply (gok_established _ Hok).
Qed.

Lemma handle_relay_datagram_wp config peer datagram ecn d w :
  gdc_joins config = joins → gateway_daemon_ok d w → bytes datagram →
  mwp (handle_relay_datagram config peer datagram ecn) kept ended (d, w).
Proof.
  intros Hj Hd Hb. unfold handle_relay_datagram. mwp_step. mwp_step. mwp_step. mwp_step. cbn [gd_gateway gcount set_plane].
  set (d1 := gcount _ _ d). assert (gateway_daemon_ok d1 w) as Hd1 by by apply (daemon_frame d _ w).
  change (gd_gateway d) with (gd_gateway d1). clearbody d1. clear d Hd. pose proof (gk_parts _ _ Hd1) as Hparts.
  pose proof (handle_datagram_wp (gd_gateway d1) peer datagram ecn (po_gateway _ Hparts) Hb) as Hw.
  pose proof (λ packet, multicast_data_action (gd_gateway d1) peer datagram ecn packet Hb) as Hdata.
  destruct (handle_datagram_with_ecn _ _ _ _) as [[g action]|e| |] eqn:Hhandle; try done; cbn [wp] in *; [|mwp_step; by apply (daemon_frame d1 _ w)].
  destruct Hw as (Hg & _ & _ & _ & Hst & message & Hdec & Hev). mwp_step. mwp_step.
  assert (parts_ok (set_gateway g d1)) as Hp1 by by apply parts_gateway.
  assert (g = gd_gateway d1 → gateway_daemon_ok (set_gateway g d1) w) as Hsame by (intros ->; by apply (daemon_frame d1 _ w)).
  inversion Hev as [address Hdisc _ _ Hph _ Hse Ha Hm|mac nonce limit gateway q query interval previous reported _ Hph _ _ Ha Hm|a packet Heq Ha Hm|m Heq Ha]; subst.
  - mwp_step. apply send_wp; [|done]. intros n w1 H1. do 4 mwp_step. unfold is_awaiting_query. rewrite bool_decide_eq_true_2 by done.
    apply start_query_cycle_wp. intros r w2 H2.
    apply (daemon_unestablished d1 _ w); try done; [by apply (parts_frame (set_gateway g d1))|apply not_established; cbn; by rewrite Hph|..].
    + rewrite H2, H1. by apply request_asks_nothing, Hparts.
    + left. cbn. rewrite Hse. by apply (gok_session _ (po_gateway _ Hparts)).
  - apply answer_query_wp; [done|done|by apply established_iff|..].
    + by eapply asks_filter_frame; [apply Hd1|..].
    + intros teardown log ->. by eapply previous_asks_nothing; [apply Hparts|].
  - specialize (Hdata packet Hdec). destruct action; try done.
    + apply on_plane_wp; [by apply Hsame|]. by apply (record_multicast_wp opened published_packets); [apply Hd1|].
    + apply on_plane_wp; [by apply Hsame|]. by apply (record_drop_wp opened), Hd1.
    + mwp_step. by apply (daemon_frame (set_gateway (gd_gateway d1) d1) _ w); [apply Hsame|..].
  - mwp_step. by apply (daemon_frame (set_gateway (gd_gateway d1) d1) _ w); [apply Hsame|..].
Qed.

Lemma drain_relay_wp n config : ∀ progress d w,
  gdc_joins config = joins → gateway_daemon_ok d w → mwp (drain_relay n config progress) kept ended (d, w).
Proof.
  induction n as [|n IH]; intros progress d w Hj Hd; cbn [drain_relay]; [by mwp_step|]. mwp_step. mwp_step.
  eapply mwp_mono; [apply gw_recv_from_ok|..].
  - intros [[datagram peer] ecn] w1 [Hb H1]. mwp_step. eapply mwp_mono; [apply handle_relay_datagram_wp; [done|by apply (daemon_world d w)|done]| |done].
    intros _ [d' w'] Hd'. by apply IH.
  - intros [|e] w1 H1; mwp_step; [by apply (daemon_world d w)|done].
Qed.

(** ** The loop *)

Lemma teardown_returns g : returns (teardown g).
Proof.
  unfold teardown. destruct (gw_relay_endpoint g); [|done]. cbn. destruct (gw_session g) as [se|]; [|done]. cbn.
  by destruct (gs_gateway_endpoint se).
Qed.
Lemma shutdown_wp d w : gateway_daemon_ok d w → mwp shutdown_gateway kept ended (d, w).
Proof.
  intros Hd. unfold shutdown_gateway. mwp_step. mwp_step. pose proof (teardown_returns (gd_gateway d)) as Ht.
  destruct (teardown (gd_gateway d)) as [action|e| |] eqn:Hte; try done. mwp_step. apply send_action_wp; [|done].
  intros w1 H1. mwp_step. apply (daemon_frame d _ w); try done. rewrite H1. by eapply teardown_asks_nothing; [apply Hd|].
Qed.
Lemma report_gateway_wp config d w : gateway_daemon_ok d w → mwp (report_gateway config) kept ended (d, w).
Proof.
  intros Hd. unfold report_gateway. do 4 mwp_step. mwp_step. apply read_wp. mwp_step. apply clock_wp. intros t w2 H2. rewrite emit_gateway_metrics_ok in H2.
  mwp_step. eapply mwp_mono; [apply on_plane_wp; [by apply (daemon_world d w)|]; apply mwp_change, Hd| |done]. intros [] [d' w'] Hd'. by mwp_step.
Qed.

Lemma gateway_turn_wp config d w :
  gdc_joins config = joins → gateway_daemon_ok d w → mwp (gateway_turn config) kept ended (d, w).
Proof.
  intros Hj Hd. unfold gateway_turn. mwp_step. apply read_wp. pose proof (gw_shutdown_requested_ok w) as H0.
  destruct (gw_shutdown_requested w) as [stop w0]. cbn [fst snd] in *. assert (gateway_daemon_ok d w0) as Hd0 by by apply (daemon_world d w).
  clear H0 Hd w. destruct stop.
  { mwp_step. eapply mwp_mono; [by apply shutdown_wp| |done]. intros _ [d' w'] Hd'. by mwp_step. }
  mwp_step. eapply mwp_mono; [by apply check_query_timeout_wp| |done]. intros b1 [d1 w1] Hd1.
  mwp_step. eapply mwp_mono; [by apply solicit_wp| |done]. intros b2 [d2 w2] Hd2.
  mwp_step. eapply mwp_mono; [by apply query_local_hosts_wp| |done]. intros b3 [d3 w3] Hd3.
  mwp_step. eapply mwp_mono; [by apply refresh_session_wp| |done]. intros b4 [d4 w4] Hd4.
  mwp_step. eapply mwp_mono; [by apply drain_relay_wp| |done]. intros b5 [d5 w5] Hd5. rewrite Hj.
  mwp_step. eapply mwp_mono; [by apply drain_local_wp| |done]. intros n [d6 w6] Hd6.
  mwp_step. eapply mwp_mono; [by apply prune_local_wp| |done]. intros b7 [d7 w7] Hd7.
  mwp_step. eapply mwp_mono; [by apply report_gateway_wp| |done]. intros b8 [d8 w8] Hd8.
  mwp_step. destruct (_ || b8); [by repeat mwp_step|]. apply read_wp. mwp_step. apply (daemon_world d8 w8); [done|]. apply thread_sleep_ok.
Qed.
Lemma gateway_loop_wp config turns : ∀ d w,
  gdc_joins config = joins → gateway_daemon_ok d w → mwp (gateway_loop turns config) kept ended (d, w).
Proof.
  induction turns as [|turns IH]; intros d w Hj Hd; cbn [gateway_loop]; [by mwp_step|].
  mwp_step. eapply mwp_mono; [by apply gateway_turn_wp| |done]. intros [] [d' w'] Hd'; [by mwp_step|by apply IH].
Qed.
(** With a session, the relay was asked, under it, for what is desired and for nothing else. *)
Definition desired_asked d (w : W) : Prop :=
  ∃ relay session, gw_relay_endpoint (gd_gateway d) = Some relay ∧ gw_session (gd_gateway d) = Some session ∧
    ∀ group source, asked (sent w) (relay, gs_response_mac session, gs_request_nonce session) group source = true ↔
      joins_want joins group source ∨ hosts_want (gd_local d) group source.
Lemma established_asked d w : gateway_daemon_ok d w → is_established (gd_gateway d) = true → desired_asked d w.
Proof.
  intros Hd He. pose proof He as [_ [session Hs]%bool_decide_eq_true]%andb_true_iff.
  destruct (established_session _ (po_gateway _ (gk_parts _ _ Hd)) (mk_is_Some _ _ Hs)) as [relay Hr].
  exists relay, session. split; [done|]. split; [done|]. intros group source. rewrite (gk_told _ _ Hd relay session Hr Hs group source).
  by apply (gk_synced _ _ Hd).
Qed.
End invariant.

Section start.
Context {C X : Type} `{!RawContext C X}.
Context (opened : C → gmap Z RawPublicationConfig) (published_packets : C → list (Z * list Z)) `{!RawContextLaws opened published_packets}.

Lemma try_new_ok config context protocol p :
  try_new (X:=X) config context protocol = (Ok tt, p) → publisher_ok (X:=X) opened p.
Proof.
  unfold try_new. intros H.
  assert (publisher_ok (X:=X) opened (new_publisher config context)) as H0 by (intros family id Hf; cbn in Hf; by rewrite lookup_empty in Hf).
  apply (mwp_ok_inv _ (λ _ p, publisher_ok (X:=X) opened p) (λ _ _, True) _ tt _) in H; [done|]. mwp_step. mwp_step.
  assert (returns (validate_for_protocol (C:=C) (X:=X) config protocol)) as Hv.
  { pose proof (publication_config_wp opened published_packets config (protocol_family protocol)) as Hp.
    unfold publication_config, validate_for_protocol in *. by destruct (validate_for_family config _) as [[]|e| |]. }
  destruct (validate_for_protocol config protocol) as [[]|e| |]; try done. cbn. mwp_step.
  eapply mwp_mono; [by apply (publication_for_wp opened published_packets)| |done]. intros id p' [? _]. by mwp_step.
Qed.
Lemma start_gateway_ok {W} (sent : W → list (list Z * SocketAddr)) t context rng config (d : GatewayDaemon C X) (w : W) :
  draws_wf rng → u32 (gc_discovery_nonce (gdc_gateway config)) → u32 (gc_request_nonce (gdc_gateway config)) →
  (∀ local, gdc_local_membership config = Some local → from_option ip_wf True (lc_interface local)) →
  start_gateway t context rng config = Ok d → sent w = [] → gateway_daemon_ok opened sent (gdc_joins config) d w.
Proof.
  intros Hr Hn Hn' Hi H Hsent. unfold start_gateway in H. apply bind_ok_inv in H as ([] & _ & H). apply bind_ok_inv in H as (downstream & Hd & H).
  apply bind_ok_inv in H as ([g rng'] & Hg & H). injection H as <-.
  destruct (new_gateway (gdc_gateway config) rng) as [[g0 rng0]|e| |] eqn:Hnew; try done. injection Hg as <- <-.
  assert (gw_phase g0 = Discovering ∧ gw_session g0 = None ∧ gw_reception_state g0 = empty_state) as (Hph & Hse & Hst).
  { unfold new_gateway in Hnew. apply bind_ok_inv in Hnew as ([n1 r1] & _ & Hnew). apply bind_ok_inv in Hnew as ([n2 r2] & _ & Hnew). by injection Hnew as <- _. }
  apply new_gateway_ok in Hnew as [Hok _]; [|done..].
  assert (is_established g0 = false) as He by (apply not_established; by rewrite Hph).
  split; [| |by apply told_none|cbn; by rewrite He|intros _; by right].
  2:{ intros group source. rewrite Hsent. cbn. unfold interested. by rewrite Hst. }
  split; cbn; [done|..].
  - intros m (c & _ & ->)%fmap_Some. apply new_manager_ok.
  - intros m (c & _ & ->)%fmap_Some. intros e group i Hx. apply endpoint_interest_some in Hx as (es & Hx & _). cbn in Hx. by rewrite lookup_empty in Hx.
  - intros m (c & Hc & ->)%fmap_Some. by apply Hi.
  - intros p Hp0. cbn in Hp0. subst downstream. unfold initialize_downstream in Hd. destruct (gdc_downstream config) as [dc|]; [|done].
    destruct (try_new dc context _) as [[[]|e| |] p0] eqn:Hp; try done. cbn in Hd. injection Hd as ->. by eapply try_new_ok.
Qed.
End start.

(** * The properties *)



(** multicast data from the relay is published on the local network exactly when somebody asked for it: with ECN off, a packet of
    the session that the filter wants is handed, cut to its length, to the publication of its family, or the error is
    counted; a packet nobody wants is not published. *)
Theorem tunnel_packets_published {C X W} `{!RawContext C X} `{!GatewayWorld W} opened published_packets `{!RawContextLaws opened published_packets}
    config (d : GatewayDaemon C X) (w : W) p peer datagram ecn packet parsed :
  parts_ok opened d → gp_downstream (gd_plane d) = Some p → bytes datagram →
  decode datagram = Ok (MulticastData packet) → peer = expected_peer (gd_gateway d) → is_Some (gw_session (gd_gateway d)) →
  gc_ecn (gw_config (gd_gateway d)) = false → parse_multicast_packet packet = Ok parsed →
  mwp (handle_relay_datagram config peer datagram ecn)
    (λ _ '(d', w'), w' = w ∧ gd_gateway d' = gd_gateway d ∧
       ∃ p', gp_downstream (gd_plane d') = Some p' ∧
         if interested (gd_gateway d) (mp_source parsed) (mp_group parsed)
         then (∃ id m, multicast_view packet = Some m ∧ same_packet packet parsed m ∧
                 published_packets (dp_context p') =
                   published_packets (dp_context p) ++ [(id, take (Z.to_nat (im_datagram_len m)) packet)]) ∨
              published_packets (dp_context p') = published_packets (dp_context p) ∧
              gp_counters (gd_plane d') downstream_forward_errors = gp_counters (gd_plane d) downstream_forward_errors + 1
         else p' = p)
    (λ _ _, False) (d, w).
Proof.
  intros Hd Hp Hb Hdec -> Hs Hecn Hparse. set (g := gd_gateway d).
  assert (bytes packet) as Hbp by exact (decode_bytes_wf datagram _ Hb Hdec).
  pose proof (established_session g (po_gateway _ _ Hd) Hs) as He.
  assert (handle_datagram_with_ecn g (expected_peer g) datagram ecn =
    Ok (g, if interested g (mp_source parsed) (mp_group parsed) then GMulticastData packet None else GIgnored)) as Hh.
  { unfold handle_datagram_with_ecn. rewrite bool_decide_eq_true_2, Hdec by done. cbn. unfold handle_multicast_data.
    rewrite !bool_decide_eq_false_2 by (apply not_eq_None_Some; done). rewrite Hparse. cbn. fold g in Hecn. rewrite Hecn.
    by destruct (interested g _ _). }
  unfold handle_relay_datagram. do 4 mwp_step. cbn [gd_gateway gcount set_plane]. fold g. rewrite Hh. mwp_step. mwp_step.
  destruct (interested g _ _); [|mwp_step; split_and!; try done; by exists p].
  pose proof (accepted_view packet parsed Hbp Hparse) as (m & Hm & Hsame). unfold mwp at 1, on_plane.
  pose proof (publish_wp opened published_packets p packet
    (plog (record_amt_packet (len packet)) (pcount multicast_data_bytes_received (len packet) (pcount multicast_data_received 1
      (pcount control_datagrams_received 1 (gd_plane d))))) (po_plane _ _ Hd p Hp) Hbp) as Hf.
  unfold record_gateway_multicast, forward_downstream, catch, mbind, M_bind, change, get_downstream, mret, M_ret. cbn -[publish].
  rewrite Hp. cbn -[publish]. unfold mwp in Hf.
  destruct (publish p packet _) as [[r|e| |] pl] eqn:Hfw; cbn [fst snd wp] in *; try done.
  - destruct Hf as (_ & p' & Hp' & _ & Hpub). unfold published in Hpub. rewrite Hm in Hpub. destruct r as [r|]; [|done].
    destruct Hpub as (_ & id & n & _ & Hpub & _). cbn. split_and!; try done. exists p'. split; [done|]. left. by exists id, m.
  - destruct Hf as (_ & p' & Hp' & Hcnt & Hpub & _). cbn. split_and!; try done. exists p'. split; [done|]. right. split; [done|].
    rewrite Hcnt. cbn. unfold bump. by repeat (rewrite bool_decide_eq_false_2 by done || rewrite bool_decide_eq_true_2 by done).
Qed.

(** * Witnesses *)

(** A world with datagrams waiting, from the relay and from local hosts. *)
Record gateway_demo := mkGatewayDemo {
  gq_clock : Z;
  gq_inbox : list (list Z * SocketAddr);
  gq_hosts : list (list Z);
  gq_sent : list (list Z * SocketAddr)
}.
#[export] Instance gateway_demo_world : GatewayWorld gateway_demo := {|
  gnow w := (gq_clock w, w);
  nonce_draws w := ([Some 21; Some 22], w);
  retry_random w := (Some 12345, w);
  gw_recv_from w :=
    match gq_inbox w with
    | [] => (Err WouldBlock, w)
    | (datagram, peer) :: inbox =>
        (Ok (map (λ b, b mod 256) datagram, peer, NotEct), mkGatewayDemo (gq_clock w) inbox (gq_hosts w) (gq_sent w))
    end;
  gw_send_to datagram destination _ w :=
    (Ok (len datagram), mkGatewayDemo (gq_clock w) (gq_inbox w) (gq_hosts w) (gq_sent w ++ [(datagram, destination)]));
  local_incoming w :=
    match gq_hosts w with
    | [] => ([inr None], w)
    | packet :: hosts => ([inr (Some (map (λ b, b mod 256) packet))], mkGatewayDemo (gq_clock w) (gq_inbox w) hosts (gq_sent w))
    end;
  emit_gateway_metrics _ _ w := (false, w);
  gw_shutdown_requested w := (false, w);
  thread_sleep d w := mkGatewayDemo (gq_clock w + d) (gq_inbox w) (gq_hosts w) (gq_sent w)
|}.
#[export] Instance gateway_demo_ok : GatewayWorldOk gq_sent.
Proof.
  split; try done.
  - intros w. split; [do 2 (apply Forall_cons; split; [by intros n [= <-]|]); by apply Forall_nil|]. split; [done|]. by exists 21, 22, [Some 22], [].
  - intros w. unfold mwp. cbn. destruct (gq_inbox w) as [|[datagram peer] inbox]; [done|]. cbn. split; [apply mod_bytes|done].
  - intros w. cbn. destruct (gq_hosts w) as [|packet hosts]; (split; [|done]); (apply Forall_cons; split; [|done]); [done|].
    intros d [= <-]. apply mod_bytes.
Qed.

Definition demo_local : LocalMembershipConfig :=
  mkLocalConfig Igmpv3 (Some (V4 (mkIpv4 10 0 0 1))) None (Some (from_secs 30)) (from_secs 260).
Definition demo_daemon_config : GatewayDaemonConfig :=
  mkGatewayDaemonConfig (SocketAddrV4 Ipv4_UNSPECIFIED 0) Gateway.demo_config [mkJoin demo_group (Some (demo_source 2))]
    (Some (mkDownstreamConfig None None None)) (Some demo_local) None None default_metrics_config.
Definition demo_host_report : list Z :=
  match build_membership_report (demo_report AllowNewSources [demo_source 1]) with Ok packet => packet | _ => [] end.
(** The relay answers, and a host joins. *)
Definition demo_gateway_world : gateway_demo :=
  mkGatewayDemo 5 [(demo_advertisement, demo_relay_addr 1); (demo_query, demo_relay_addr 1)] [demo_host_report] [].
Definition demo_started : res (GatewayStartError string) (GatewayDaemon demo_raw string) :=
  start_gateway 0 (mkDemoRaw ∅ []) [] demo_daemon_config.

Lemma demo_started_ok d w :
  demo_started = Ok d → gq_sent w = [] → gateway_daemon_ok dr_opened gq_sent (gdc_joins demo_daemon_config) d w.
Proof.
  apply (start_gateway_ok dr_opened dr_sent); [constructor|done|done|]. intros local [= <-]. decide_ok.
Qed.

(** Which of three sources the datagrams of the gateway ask for, under its session. *)
Definition demo_asked (s : GatewayDaemon demo_raw string * gateway_demo) : list bool :=
  match gw_relay_endpoint (gd_gateway s.1), gw_session (gd_gateway s.1) with
  | Some relay, Some session =>
      map (λ k, asked (gq_sent s.2) (relay, gs_response_mac session, gs_request_nonce session) demo_group (demo_source k)) [1; 2; 3]
  | _, _ => []
  end.

(** A daemon in its second turn, eleven seconds later, without an answer. *)
Definition stalled_world : gateway_demo := mkGatewayDemo 11000000005 [] [] [].
Definition stalled (d : GatewayDaemon demo_raw string) : GatewayDaemon demo_raw string := set_query_cycle (Some 5) d.


(** The daemon once its session is up, and a packet for the source a host has joined. *)
Definition demo_running : option (GatewayDaemon demo_raw string) :=
  match demo_started with Ok d => Some (gateway_loop 2 demo_daemon_config (d, demo_gateway_world)).2.1 | _ => None end.
Definition demo_data : list Z := encode (MulticastData demo_packet).
Definition demo_delivered (d : GatewayDaemon demo_raw string) : GatewayDaemon demo_raw string :=
  (handle_relay_datagram demo_daemon_config (demo_relay_addr 1) demo_data NotEct (d, demo_gateway_world)).2.1.

Lemma demo_running_ok d : demo_running = Some d → parts_ok dr_opened d.
Proof.
  unfold demo_running. destruct demo_started as [d0|e| |] eqn:Hs; try done. intros Heq.
  assert (d = (gateway_loop 2 demo_daemon_config (d0, demo_gateway_world)).2.1) as -> by congruence. clear Heq.
  assert (Forall join_wf (gdc_joins demo_daemon_config)) as Hj by (repeat constructor; decide_ok).
  pose proof (gateway_loop_wp dr_opened dr_sent gq_sent (gdc_joins demo_daemon_config) Hj demo_daemon_config 2 d0 demo_gateway_world eq_refl
    (demo_started_ok d0 demo_gateway_world Hs eq_refl)) as H.
  assert (match demo_started with
    | Ok d => match (gateway_loop 2 demo_daemon_config (d, demo_gateway_world)).1 with Ok _ => true | _ => false end
    | _ => false end = true) as Hok by by vm_compute.
  rewrite Hs in Hok. unfold mwp in H.
  destruct (gateway_loop 2 demo_daemon_config (d0, demo_gateway_world)) as [[b|e| |] [d' w']]; [apply H|by cbn in Hok..].
Qed.

Lemma tunnel_packets_published_witness :
  match demo_running with
  | Some d => from_option (λ p, last (dr_sent (dp_context p))) None (gp_downstream (gd_plane (demo_delivered d))) = Some (0, demo_packet) ∧
              gd_gateway (demo_delivered d) = gd_gateway d
  | None => False
  end.
Proof.
  assert (match demo_running with
    | Some d => (bool_decide (is_Some (gp_downstream (gd_plane d))), bool_decide (demo_relay_addr 1 = expected_peer (gd_gateway d)),
                 bool_decide (is_Some (gw_session (gd_gateway d))), gc_ecn (gw_config (gd_gateway d)),
                 from_option (λ p, last (dr_sent (dp_context p))) None (gp_downstream (gd_plane (demo_delivered d))))
    | None => (false, false, false, true, None) end = (true, true, true, false, Some (0, demo_packet))) as Hrun by by vm_compute.
  destruct demo_running as [d|] eqn:Hd; [|by simplify_eq]. injection Hrun as H1 H2 H3 H4 H5.
  apply bool_decide_eq_true in H1 as [p Hp]. apply bool_decide_eq_true in H2. apply bool_decide_eq_true in H3.
  destruct (parse_multicast_packet demo_packet) as [parsed|e| |] eqn:Hparse; [|by vm_compute in Hparse..].
  pose proof (tunnel_packets_published dr_opened dr_sent demo_daemon_config d demo_gateway_world p
    (demo_relay_addr 1) demo_data NotEct demo_packet parsed (demo_running_ok d Hd) Hp ltac:(decide_ok) ltac:(by vm_compute) H2 H3 H4 Hparse) as H.
  split; [exact H5|]. unfold mwp in H. unfold demo_delivered.
  destruct (handle_relay_datagram _ _ _ _ _) as [[[]|e| |] [d' w']]; [|by destruct H..]. by destruct H as (_ & H & _).
Defined.
