(* ===== verification/DriadTunnel.v ===== *)
(** The tunnel of one source, from [src/daemon.rs]: the refresh of its relays, the probes that race for the first
    relay to answer, and the session with the relay that won.

    A socket and the channel of a resolver worker are handles; they and the rest of the surroundings are the operations of the
    class [DriadWorld]. The counter of the worker pool is shared with the worker threads: it is read and written by
    the operations [pool_update] and [pool_release]. Lines written to the terminal are left out, and with them the
    texts of errors. *)

From stdpp Require Import strings.
From S2P Require Import Prelude Net Effects Protocol Ip Query Membership Text Dns Candidates Driad State Relay Ecn Gateway LocalMembership Desired Downstream Metrics RelayDaemon GatewayPlane GatewayDaemon.

Definition DRIAD_MIN_REFRESH_INTERVAL : Z := 1000000000.
Definition DRIAD_MAX_REFRESH_INTERVAL : Z := 86400000000000.
Definition AMT_ANYCAST_IPV4 : Ipv4Addr := mkIpv4 192 52 193 1.
Definition AMT_ANYCAST_IPV6 : Ipv6Addr := ipv6_from_segments [0x2001; 3; 0; 0; 0; 0; 0; 1].

(** The sum of an [Instant] and a [Duration] that is configured: an instant has 63 bits of seconds, and the addition panics when they
    do not suffice. The other durations that are added to an instant here are at most a day. *)
Definition INSTANT_MAX : Z := from_secs (2 ^ 63) - 1.
Definition instant_add {E} (instant duration : Z) : res E Z :=
  if instant + duration <=? INSTANT_MAX then Ok (instant + duration) else Panic.

(** ** Candidates *)

Inductive DriadCandidateOrigin := Anycast | SourceDns.
#[export] Instance DriadCandidateOrigin_eq_dec : EqDecision DriadCandidateOrigin.
Proof. solve_decision. Defined.
Record DriadCandidate := mkCandidate { dc_selection : DriadRelaySelection; dc_origin : DriadCandidateOrigin }.
Definition candidate_relay (c : DriadCandidate) : SocketAddr := ds_relay (dc_selection c).
Definition Rank : Type := DriadCandidateOrigin * Z.
Definition rank (c : DriadCandidate) : Rank := (dc_origin c, ar_precedence (ds_record (dc_selection c))).
(** The order of ranks: a precedence is an octet. *)
Definition rank_key (r : Rank) : Z := match r.1 with Anycast => r.2 | SourceDns => 256 + r.2 end.
(** [ranks.min()]. *)
Definition min_rank (ranks : list Rank) : option Rank :=
  foldr (λ r acc, match acc with Some m => Some (if rank_key r <=? rank_key m then r else m) | None => Some r end) None ranks.

Definition same_address_family (left right : IpAddr) : bool :=
  match left, right with V4 _, V4 _ | V6 _, V6 _ => true | _, _ => false end.

(** ** State *)

(** The outcome of a resolver worker. *)
Definition Resolution : Type := list DriadRelaySelection + DriadError.

Record DriadRefreshState := mkRefresh {
  rf_source : IpAddr;
  rf_resolver : DriadResolverConfig;
  rf_next_refresh : Z;
  rf_pending : option Z;
  rf_retry_attempt : Z;
  rf_maximum_workers : Z
}.
Inductive DriadPoll := PollIdle | PollStarted | PollResolved (result : Resolution).

Record DriadProbe := mkProbe {
  pr_candidate : DriadCandidate;
  pr_socket : Z;
  pr_gateway : Gateway;
  pr_deadline : Z
}.
Record ActiveDriadTunnel := mkActive {
  at_candidate : DriadCandidate;
  at_socket : Z;
  at_gateway : Gateway;
  at_effective_refresh_interval : Z;
  at_query_cycle_started : option Z;
  at_last_membership_refresh : Z;
  at_traffic_deadline : option Z
}.
Inductive DriadActiveFailure := FailLoaded | FailQueryTimeout | FailNoTraffic.
Record DriadActivePoll := mkActivePoll { ap_made_progress : bool; ap_failure : option DriadActiveFailure }.
Inductive DriadProbePoll :=
| ProbePending (progress : bool)
| ProbeLoaded (relay : SocketAddr)
| ProbeFailed
| ProbeWinner (query_interval : Z) (previous_teardown : option GatewaySend).

(** What does not change in a [DriadSourceTunnel]. *)
Record DriadSettings := mkSettings {
  st_source : IpAddr;
  st_protocol : MembershipProtocol;
  st_ecn : bool;
  st_bind : option IpAddr;
  st_use_anycast : bool;
  st_happy_eyeballs_delay : Z;
  st_relay_hold_down : Z;
  st_traffic_hold_down : Z;
  st_initial_traffic_timeout : Z;
  st_maximum_traffic_timeout : Z;
  st_max_concurrent_probes : Z
}.
Record DriadSourceTunnel := mkTunnel {
  tn_settings : DriadSettings;
  tn_refresh : DriadRefreshState;
  tn_dns_candidates : list DriadRelaySelection;
  tn_hold_downs : gmap SocketAddr Z;
  tn_pending : list DriadCandidate;
  tn_current_rank : option Rank;
  tn_probes : list DriadProbe;
  tn_next_probe_at : Z;
  tn_retry_round_at : option Z;
  tn_retry_attempt : Z;
  tn_traffic_retry_attempt : Z;
  tn_no_relay_present : bool;
  tn_active : option ActiveDriadTunnel;
  tn_desired : MembershipReport
}.
Definition put_refresh (v : DriadRefreshState) (t : DriadSourceTunnel) : DriadSourceTunnel :=
  mkTunnel (tn_settings t) v (tn_dns_candidates t) (tn_hold_downs t) (tn_pending t) (tn_current_rank t) (tn_probes t) (tn_next_probe_at t)
    (tn_retry_round_at t) (tn_retry_attempt t) (tn_traffic_retry_attempt t) (tn_no_relay_present t) (tn_active t) (tn_desired t).
Definition put_dns_candidates (v : list DriadRelaySelection) (t : DriadSourceTunnel) : DriadSourceTunnel :=
  mkTunnel (tn_settings t) (tn_refresh t) v (tn_hold_downs t) (tn_pending t) (tn_current_rank t) (tn_probes t) (tn_next_probe_at t)
    (tn_retry_round_at t) (tn_retry_attempt t) (tn_traffic_retry_attempt t) (tn_no_relay_present t) (tn_active t) (tn_desired t).
Definition put_hold_downs (v : gmap SocketAddr Z) (t : DriadSourceTunnel) : DriadSourceTunnel :=
  mkTunnel (tn_settings t) (tn_refresh t) (tn_dns_candidates t) v (tn_pending t) (tn_current_rank t) (tn_probes t) (tn_next_probe_at t)
    (tn_retry_round_at t) (tn_retry_attempt t) (tn_traffic_retry_attempt t) (tn_no_relay_present t) (tn_active t) (tn_desired t).
Definition put_pending (v : list DriadCandidate) (t : DriadSourceTunnel) : DriadSourceTunnel :=
  mkTunnel (tn_settings t) (tn_refresh t) (tn_dns_candidates t) (tn_hold_downs t) v (tn_current_rank t) (tn_probes t) (tn_next_probe_at t)
    (tn_retry_round_at t) (tn_retry_attempt t) (tn_traffic_retry_attempt t) (tn_no_relay_present t) (tn_active t) (tn_desired t).
Definition put_current_rank (v : option Rank) (t : DriadSourceTunnel) : DriadSourceTunnel :=
  mkTunnel (tn_settings t) (tn_refresh t) (tn_dns_candidates t) (tn_hold_downs t) (tn_pending t) v (tn_probes t) (tn_next_probe_at t)
    (tn_retry_round_at t) (tn_retry_attempt t) (tn_traffic_retry_attempt t) (tn_no_relay_present t) (tn_active t) (tn_desired t).
Definition put_probes (v : list DriadProbe) (t : DriadSourceTunnel) : DriadSourceTunnel :=
  mkTunnel (tn_settings t) (tn_refresh t) (tn_dns_candidates t) (tn_hold_downs t) (tn_pending t) (tn_current_rank t) v (tn_next_probe_at t)
    (tn_retry_round_at t) (tn_retry_attempt t) (tn_traffic_retry_attempt t) (tn_no_relay_present t) (tn_active t) (tn_desired t).
Definition put_next_probe_at (v : Z) (t : DriadSourceTunnel) : DriadSourceTunnel :=
  mkTunnel (tn_settings t) (tn_refresh t) (tn_dns_candidates t) (tn_hold_downs t) (tn_pending t) (tn_current_rank t) (tn_probes t) v
    (tn_retry_round_at t) (tn_retry_attempt t) (tn_traffic_retry_attempt t) (tn_no_relay_present t) (tn_active t) (tn_desired t).
Definition put_retry_round_at (v : option Z) (t : DriadSourceTunnel) : DriadSourceTunnel :=
  mkTunnel (tn_settings t) (tn_refresh t) (tn_dns_candidates t) (tn_hold_downs t) (tn_pending t) (tn_current_rank t) (tn_probes t) (tn_next_probe_at t)
    v (tn_retry_attempt t) (tn_traffic_retry_attempt t) (tn_no_relay_present t) (tn_active t) (tn_desired t).
Definition put_retry_attempt (v : Z) (t : DriadSourceTunnel) : DriadSourceTunnel :=
  mkTunnel (tn_settings t) (tn_refresh t) (tn_dns_candidates t) (tn_hold_downs t) (tn_pending t) (tn_current_rank t) (tn_probes t) (tn_next_probe_at t)
    (tn_retry_round_at t) v (tn_traffic_retry_attempt t) (tn_no_relay_present t) (tn_active t) (tn_desired t).
Definition put_traffic_retry_attempt (v : Z) (t : DriadSourceTunnel) : DriadSourceTunnel :=
  mkTunnel (tn_settings t) (tn_refresh t) (tn_dns_candidates t) (tn_hold_downs t) (tn_pending t) (tn_current_rank t) (tn_probes t) (tn_next_probe_at t)
    (tn_retry_round_at t) (tn_retry_attempt t) v (tn_no_relay_present t) (tn_active t) (tn_desired t).
Definition put_no_relay_present (v : bool) (t : DriadSourceTunnel) : DriadSourceTunnel :=
  mkTunnel (tn_settings t) (tn_refresh t) (tn_dns_candidates t) (tn_hold_downs t) (tn_pending t) (tn_current_rank t) (tn_probes t) (tn_next_probe_at t)
    (tn_retry_round_at t) (tn_retry_attempt t) (tn_traffic_retry_attempt t) v (tn_active t) (tn_desired t).
Definition put_active (v : option ActiveDriadTunnel) (t : DriadSourceTunnel) : DriadSourceTunnel :=
  mkTunnel (tn_settings t) (tn_refresh t) (tn_dns_candidates t) (tn_hold_downs t) (tn_pending t) (tn_current_rank t) (tn_probes t) (tn_next_probe_at t)
    (tn_retry_round_at t) (tn_retry_attempt t) (tn_traffic_retry_attempt t) (tn_no_relay_present t) v (tn_desired t).
Definition put_desired (v : MembershipReport) (t : DriadSourceTunnel) : DriadSourceTunnel :=
  mkTunnel (tn_settings t) (tn_refresh t) (tn_dns_candidates t) (tn_hold_downs t) (tn_pending t) (tn_current_rank t) (tn_probes t) (tn_next_probe_at t)
    (tn_retry_round_at t) (tn_retry_attempt t) (tn_traffic_retry_attempt t) (tn_no_relay_present t) (tn_active t) v.

(** ** Surroundings *)

Inductive TryRecv := ChannelEmpty | ChannelDisconnected | ChannelResult (result : Resolution).

Class DriadWorld (W : Type) := {
  dnow : W → Z * W;
  driad_nonces : W → draws * W;
  driad_random : W → option Z * W;
  socket_bind : SocketAddr → bool → M W string Z;
  socket_recv_from : Z → M W IoError (list Z * SocketAddr * EcnCodepoint);
  socket_send_to : Z → list Z → SocketAddr → EcnCodepoint → M W string Z;
  (** [active.fetch_update(..)], whether it succeeded; the drop of a permit. *)
  pool_update : (Z → option Z) → W → bool * W;
  pool_release : W → W;
  (** The thread that resolves a source and sends the result. *)
  spawn_resolver : DriadResolverConfig → IpAddr → M W string Z;
  channel_try_recv : Z → W → TryRecv * W
}.

(** [maximum.max(1)], and the update of [try_acquire]. *)
Definition new_worker_pool (maximum : Z) : Z := Z.max maximum 1.
Definition acquire (maximum active : Z) : option Z := if active <? maximum then Some (active + 1) else None.
Definition clamp_driad_refresh (ttl : Z) : Z := Z.min (Z.max ttl DRIAD_MIN_REFRESH_INTERVAL) DRIAD_MAX_REFRESH_INTERVAL.

Definition U64_MAX : Z := 2 ^ 64 - 1.
(** [u64::try_from(d.as_millis()).unwrap_or(u64::MAX)]. *)
Definition millis_u64 (d : Z) : Z := Z.min (as_millis d) U64_MAX.
Definition randomized_duration_between (random : option Z) (lower upper : Z) : Z :=
  let lower_ms := millis_u64 lower in
  let upper_ms := millis_u64 (Z.max upper lower) in
  let random := default upper_ms random in
  let span := Z.min (saturating_sub upper_ms lower_ms + 1) U64_MAX in
  from_millis (Z.min (lower_ms + random mod span) U64_MAX).

(** [iter().map(|selection| selection.ttl).min()]. *)
Definition min_ttl (selections : list DriadRelaySelection) : option Z :=
  foldr (λ s acc, match acc with Some m => Some (Z.min (ds_ttl s) m) | None => Some (ds_ttl s) end) None selections.

(** [vec.swap_remove(index)], for an index in range. *)
Definition swap_remove {A} (index : nat) (l : list A) : list A :=
  match last l with
  | None => l
  | Some x => if bool_decide (S index = length l) then take index l else <[index := x]> (take (length l - 1) l)
  end.

Section operations.
Context {C X W : Type} `{!RawContext C X} `{!DriadWorld W}.
(** The variables: a tunnel and the plane. *)
Abbreviation Code A := (M ((DriadSourceTunnel * GatewayPlane C X) * W) string A).

Definition tnow : Code Z := lift (act dnow).
Definition tget {A} (f : DriadSourceTunnel → A) : Code A := gets (λ d, f d.1).
Definition tset (f : DriadSourceTunnel → DriadSourceTunnel) : Code unit := modify (λ d, (f d.1, d.2)).
Definition tcount (c : Counter) (n : Z) : Code unit := modify (λ d, (d.1, pcount c n d.2)).
Definition on_tunnel_plane {A} (m : M (GatewayPlane C X) string A) : Code A :=
  λ '((t, p), w), let '(r, p) := m p in (r, ((t, p), w)).
Definition random_between (lower upper : Z) : Code Z :=
  random ← lift (act driad_random); mret (randomized_duration_between random lower upper).
Definition retry_delay (attempt : Z) : Code Z :=
  random ← lift (act driad_random); mret (randomized_retry_delay random (upper_delay attempt)).

Definition send_action (socket : Z) (action : GatewayAction) : Code unit :=
  match action with
  | GSend destination datagram => _ ← lift (socket_send_to socket datagram destination NotEct); mret tt
  | _ => mret tt
  end.
(** A datagram whose failure is only counted. *)
Definition send_counted (socket : Z) (action : GatewayAction) (counter : Counter) : Code unit :=
  catch (send_action socket action) (λ _, tcount counter 1) (λ _, tcount send_errors 1).
(** [if let Ok(action) = gateway.teardown()], sent and counted. *)
Definition send_teardown (socket : Z) (gateway : Gateway) : Code unit :=
  match teardown gateway with
  | Ok action => send_counted socket action gateway_teardowns_sent
  | Err _ => mret tt
  | Panic => pure Panic
  | Diverge => pure Diverge
  end.

(** ** Refresh *)

Definition set_refresh (next_refresh : Z) (pending : option Z) (retry_attempt : Z) (r : DriadRefreshState) : DriadRefreshState :=
  mkRefresh (rf_source r) (rf_resolver r) next_refresh pending retry_attempt (rf_maximum_workers r).
Definition clear_pending : Code unit :=
  tset (λ t, let r := tn_refresh t in put_refresh (set_refresh (rf_next_refresh r) None (rf_retry_attempt r) r) t).
Definition start_resolver : Code DriadPoll :=
  t ← tnow;
  r ← tget tn_refresh;
  if t <? rf_next_refresh r then mret PollIdle
  else
    permit ← lift (act (pool_update (acquire (rf_maximum_workers r))));
    if negb permit then mret PollIdle
    else
      catch (lift (spawn_resolver (rf_resolver r) (rf_source r)))
        (λ receiver, _ ← tset (put_refresh (set_refresh (rf_next_refresh r) (Some receiver) (rf_retry_attempt r) r)); mret PollStarted)
        (λ error, _ ← lift (act (λ w, (tt, pool_release w))); mret (PollResolved (inr (DIo error)))).
Definition refresh_poll : Code DriadPoll :=
  pending ← tget (λ t, rf_pending (tn_refresh t));
  match pending with
  | Some receiver =>
      result ← lift (act (channel_try_recv receiver));
      match result with
      | ChannelResult result => _ ← clear_pending; mret (PollResolved result)
      | ChannelEmpty => mret PollIdle
      | ChannelDisconnected =>
          _ ← clear_pending; mret (PollResolved (inr (DIo "DRIAD resolver worker stopped without a result")))
      end
  | None => start_resolver
  end.
Definition schedule_success (ttl : Z) : Code unit :=
  t ← tnow;
  tset (λ tn, let r := tn_refresh tn in put_refresh (set_refresh (t + clamp_driad_refresh ttl) (rf_pending r) 0 r) tn).
Definition schedule_failure : Code unit :=
  attempt ← tget (λ t, rf_retry_attempt (tn_refresh t));
  t ← tnow;
  delay ← retry_delay attempt;
  tset (λ tn, let r := tn_refresh tn in put_refresh (set_refresh (t + delay) (rf_pending r) (Z.min (attempt + 1) U32_MAX) r) tn).

(** ** The queue of candidates *)

Definition address_family_allowed (s : DriadSettings) (address : IpAddr) : bool :=
  match st_bind s with Some bind => same_address_family bind address | None => true end.
Definition anycast_candidate (source address : IpAddr) : DriadCandidate :=
  let target := match address with V4 a => Ipv4Target a | V6 a => Ipv6Target a end in
  mkCandidate (mkSelection source (ascii_bytes "RFC 7450 well-known anycast") (mkAmtRelay 0 false target)
                 (sock_new address AMT_PORT) DURATION_MAX) Anycast.
Definition anycast_candidates (s : DriadSettings) : list DriadCandidate :=
  anycast_candidate (st_source s) <$>
    filter (λ a, address_family_allowed s a = true) [V6 AMT_ANYCAST_IPV6; V4 AMT_ANYCAST_IPV4].
(** [candidates.retain(..)], with the relays seen so far. *)
Fixpoint retain_candidates (keep : SocketAddr → bool) (seen : gset SocketAddr) (candidates : list DriadCandidate) : list DriadCandidate :=
  match candidates with
  | [] => []
  | c :: candidates =>
      let relay := candidate_relay c in
      if keep relay && negb (bool_decide (relay ∈ seen)) then c :: retain_candidates keep ({[relay]} ∪ seen) candidates
      else retain_candidates keep seen candidates
  end.
Definition queue_for (t : DriadSourceTunnel) (hold_downs : gmap SocketAddr Z) : list DriadCandidate :=
  let in_flight : gset SocketAddr := list_to_set ((λ p, candidate_relay (pr_candidate p)) <$> tn_probes t) in
  let candidates := (if st_use_anycast (tn_settings t) then anycast_candidates (tn_settings t) else [])
                    ++ ((λ s, mkCandidate s SourceDns) <$> tn_dns_candidates t) in
  let keep relay := address_family_allowed (tn_settings t) (sock_ip relay) && negb (bool_decide (is_Some (hold_downs !! relay))) in
  sort_by_key (λ c, rank_key (rank c)) (retain_candidates keep in_flight candidates).
Definition rebuilt (now : Z) (t : DriadSourceTunnel) : DriadSourceTunnel :=
  let hold_downs := filter (λ p, now < p.2) (tn_hold_downs t) in
  let t := put_hold_downs hold_downs t in
  if tn_no_relay_present t then put_retry_round_at None (put_current_rank None (put_pending [] t))
  else
    let pending := queue_for t hold_downs in
    let current := match min_rank ((λ p, rank (pr_candidate p)) <$> tn_probes t) with
                   | Some r => Some r
                   | None => rank <$> head pending
                   end in
    put_retry_round_at None (put_next_probe_at now (put_current_rank current (put_pending pending t))).
Definition rebuild_probe_queue : Code unit := t ← tnow; tset (rebuilt t).

(** [DriadSourceTunnel::new], at [now]. *)
Definition new_tunnel (now : Z) (source : IpAddr) (protocol : MembershipProtocol) (ecn : bool) (config : GatewayDriadConfig)
    (maximum_workers : Z) (desired : MembershipReport) : DriadSourceTunnel :=
  let settings := mkSettings source protocol ecn (sock_ip <$> gdr_bind config) (gdr_use_anycast config) (gdr_happy_eyeballs_delay config)
    (gdr_relay_hold_down config) (gdr_traffic_hold_down config) (gdr_initial_traffic_timeout config)
    (gdr_maximum_traffic_timeout config) (Z.max (gdr_max_concurrent_probes config) 1) in
  rebuilt now (mkTunnel settings (mkRefresh source (gdr_resolver config) now None 0 maximum_workers) [] ∅ [] None [] now None 0 0 false None desired).

Definition hold_down_count (now : Z) (t : DriadSourceTunnel) : Z := map_len (filter (λ p, now < p.2) (tn_hold_downs t)).

(** ** Refreshing *)

Definition accept_selections (selections : list DriadRelaySelection) : Code unit :=
  let ttl := default DRIAD_MIN_REFRESH_INTERVAL (min_ttl selections) in
  old ← tget tn_dns_candidates;
  let candidates_changed := negb (bool_decide (old = selections)) in
  _ ← (if candidates_changed then _ ← tset (put_dns_candidates selections); tcount driad_candidate_changes 1 else mret tt);
  was_withdrawn ← tget tn_no_relay_present;
  _ ← tset (put_no_relay_present false);
  active ← tget tn_active;
  _ ← (if negb (bool_decide (is_Some active)) && (candidates_changed || was_withdrawn) then rebuild_probe_queue else mret tt);
  _ ← schedule_success ttl;
  tcount driad_refreshes_succeeded 1.
Definition withdraw : Code unit :=
  t ← tget id;
  let withdrawal := negb (tn_no_relay_present t) || negb (is_empty (tn_dns_candidates t)) || negb (is_empty (tn_probes t))
                    || bool_decide (is_Some (tn_active t)) in
  _ ← tset (λ t, put_retry_round_at None (put_current_rank None (put_probes [] (put_pending [] (put_dns_candidates [] (put_no_relay_present true t))))));
  _ ← tset (put_active None);
  _ ← match tn_active t with Some active => send_teardown (at_socket active) (at_gateway active) | None => mret tt end;
  _ ← schedule_failure;
  _ ← tcount driad_refreshes_succeeded 1;
  if withdrawal then _ ← tcount driad_candidate_changes 1; tcount driad_no_relay_withdrawals 1 else mret tt.
Definition poll_refresh : Code bool :=
  poll ← refresh_poll;
  match poll with
  | PollIdle => mret false
  | PollStarted => _ ← tcount driad_refreshes_started 1; mret true
  | PollResolved (inl selections) => _ ← accept_selections selections; mret true
  | PollResolved (inr NoRelayPresent) => _ ← withdraw; mret true
  | PollResolved (inr _) => _ ← schedule_failure; _ ← tcount driad_refreshes_failed 1; mret true
  end.

(** ** Sessions *)

Definition with_probe_gateway (g : Gateway) (p : DriadProbe) : DriadProbe := mkProbe (pr_candidate p) (pr_socket p) g (pr_deadline p).
Definition with_active_gateway (g : Gateway) (a : ActiveDriadTunnel) : ActiveDriadTunnel :=
  mkActive (at_candidate a) (at_socket a) g (at_effective_refresh_interval a) (at_query_cycle_started a)
    (at_last_membership_refresh a) (at_traffic_deadline a).
Definition with_active_cycle (interval : Z) (started : option Z) (a : ActiveDriadTunnel) : ActiveDriadTunnel :=
  mkActive (at_candidate a) (at_socket a) (at_gateway a) interval started (at_last_membership_refresh a) (at_traffic_deadline a).
Definition with_active_times (refresh : Z) (deadline : option Z) (a : ActiveDriadTunnel) : ActiveDriadTunnel :=
  mkActive (at_candidate a) (at_socket a) (at_gateway a) (at_effective_refresh_interval a) (at_query_cycle_started a) refresh deadline.

Fixpoint probe_loop (n : nat) (probe : DriadProbe) (progress : bool) : Code (DriadProbe * DriadProbePoll) :=
  match n with
  | O => mret (probe, ProbePending progress)
  | S n =>
      catch (lift (socket_recv_from (pr_socket probe)))
        (λ '(datagram, peer, outer_ecn),
          _ ← tcount control_datagrams_received 1;
          match handle_datagram_with_ecn (pr_gateway probe) peer datagram outer_ecn with
          | Ok (g, action) =>
              let probe := with_probe_gateway g probe in
              match action with
              | GSend destination datagram =>
                  _ ← lift (socket_send_to (pr_socket probe) datagram destination NotEct);
                  _ ← tcount control_responses_sent 1;
                  _ ← tcount control_response_bytes_sent (len datagram);
                  probe_loop n probe true
              | GMembershipQuery _ limit _ _ query_interval previous_teardown =>
                  _ ← tcount gateway_membership_queries_received 1;
                  if limit
                  then mret (probe, ProbeLoaded (default (candidate_relay (pr_candidate probe)) (gw_relay_endpoint g)))
                  else mret (probe, ProbeWinner query_interval previous_teardown)
              | GIgnored | GMulticastData _ _ | GDroppedEcn _ _ => probe_loop n probe true
              end
          | Err _ => _ ← tcount control_datagrams_invalid 1; probe_loop n probe true
          | Panic => pure Panic
          | Diverge => pure Diverge
          end)
        (λ error, match error with WouldBlock => mret (probe, ProbePending progress) | IoOther _ => mret (probe, ProbeFailed) end)
  end.
Definition poll_driad_probe (probe : DriadProbe) : Code (DriadProbe * DriadProbePoll) := probe_loop MAX_CONTROL_DRAIN probe false.

(** The active tunnel after the call, and whether the call succeeded. *)
Definition send_driad_desired (desired : MembershipReport) (active : ActiveDriadTunnel) (traffic_timeout : Z) :
    Code (ActiveDriadTunnel * bool) :=
  match replace_memberships (at_gateway active) desired with
  | Ok (g, None) => mret (with_active_gateway g active, true)
  | Ok (g, Some action) =>
      let active := with_active_gateway g active in
      catch (send_action (at_socket active) action)
        (λ _,
          t ← tnow;
          t' ← tnow;
          deadline ← pure (instant_add t' traffic_timeout);
          _ ← tcount gateway_membership_updates_sent 1;
          mret (with_active_times t (Some deadline) active, true))
        (λ _, mret (active, false))
  | Err _ => mret (active, false)
  | Panic => pure Panic
  | Diverge => pure Diverge
  end.

Definition hold_candidate (candidate : DriadCandidate) (actual : SocketAddr) (duration : Z) : Code unit :=
  t ← tnow;
  expires ← pure (instant_add t duration);
  tset (λ t, put_hold_downs (<[actual := expires]> (<[candidate_relay candidate := expires]> (tn_hold_downs t))) t).
Definition traffic_upper (s : DriadSettings) (attempt : Z) : Z :=
  let multiplier := Z.shiftl 1 (Z.min attempt 5) in
  Z.min (Z.min (st_initial_traffic_timeout s * multiplier) DURATION_MAX) (st_maximum_traffic_timeout s).
Definition next_traffic_timeout : Code Z :=
  s ← tget tn_settings;
  attempt ← tget tn_traffic_retry_attempt;
  random_between (st_initial_traffic_timeout s) (traffic_upper s attempt).

(** ** Probes *)

Definition remove_probe (index : nat) : Code unit := tset (λ t, put_probes (swap_remove index (tn_probes t)) t).
(** The arm of [Winner], after the probe was removed: whether the tunnel is active. *)
Definition activate (now : Z) (probe : DriadProbe) (query_interval : Z) (previous_teardown : option GatewaySend) : Code bool :=
  _ ← match previous_teardown with
      | Some previous => send_counted (pr_socket probe) (GSend (send_destination previous) (send_datagram previous)) gateway_teardowns_sent
      | None => mret tt
      end;
  timeout ← next_traffic_timeout;
  desired ← tget tn_desired;
  '(active, ok) ← send_driad_desired desired
    (mkActive (pr_candidate probe) (pr_socket probe) (pr_gateway probe) query_interval None now None) timeout;
  if (ok : bool) then
    _ ← tset (put_active (Some active));
    _ ← tcount driad_connections_established 1;
    _ ← tset (λ t, put_retry_attempt 0 (put_pending [] (put_probes [] t)));
    mret true
  else
    _ ← tcount send_errors 1;
    _ ← tcount driad_probe_errors 1;
    mret false.
(** [while index < self.probes.len()]. *)
Fixpoint probes_loop (fuel : nat) (now : Z) (index : nat) (made_progress : bool) : Code bool :=
  match fuel with
  | O => pure Diverge
  | S fuel =>
      probes ← tget tn_probes;
      match probes !! index with
      | None => mret made_progress
      | Some probe =>
          catch (poll_driad_probe probe)
            (λ '(probe, outcome),
              _ ← tset (λ t, put_probes (<[index := probe]> (tn_probes t)) t);
              match outcome with
              | ProbePending progress =>
                  if pr_deadline probe <=? now then
                    _ ← remove_probe index;
                    _ ← tcount driad_probe_timeouts 1;
                    probes_loop fuel now index true
                  else probes_loop fuel now (S index) (made_progress || progress)
              | ProbeFailed =>
                  _ ← remove_probe index;
                  _ ← tcount driad_probe_errors 1;
                  probes_loop fuel now index true
              | ProbeLoaded relay =>
                  _ ← remove_probe index;
                  s ← tget tn_settings;
                  _ ← hold_candidate (pr_candidate probe) relay (st_relay_hold_down s);
                  _ ← tcount driad_loaded_hold_downs 1;
                  probes_loop fuel now index true
              | ProbeWinner query_interval previous_teardown =>
                  _ ← remove_probe index;
                  activated ← activate now probe query_interval previous_teardown;
                  if (activated : bool) then mret true else probes_loop fuel now index true
              end)
            (λ _,
              _ ← remove_probe index;
              _ ← tcount send_errors 1;
              _ ← tcount driad_probe_errors 1;
              probes_loop fuel now index true)
      end
  end.
Definition poll_probes : Code bool :=
  t ← tnow;
  probes ← tget tn_probes;
  probes_loop (S (length probes)) t 0 false.

(** The probe of a candidate that was taken from the queue, at [now]. *)
Definition open_probe (now : Z) (candidate : DriadCandidate) : Code unit :=
  s ← tget tn_settings;
  let relay := candidate_relay candidate in
  let bind := match relay with
              | SocketAddrV4 _ _ => sock_new (default (V4 Ipv4_UNSPECIFIED) (st_bind s)) 0
              | SocketAddrV6 _ _ _ _ => sock_new (default (V6 Ipv6_UNSPECIFIED) (st_bind s)) 0
              end in
  catch (lift (socket_bind bind (st_ecn s)))
    (λ socket,
      rng ← lift (act driad_nonces);
      match ('(c, rng) ← new_gateway_config relay (st_protocol s) rng; new_gateway (with_ecn c (st_ecn s)) rng) with
      | Ok (gateway, _) =>
          catch (send_action socket (discovery gateway))
            (λ _,
              _ ← tcount gateway_discoveries_sent 1;
              _ ← tset (λ t, put_probes (tn_probes t ++ [mkProbe candidate socket gateway (now + GATEWAY_QUERY_TIMEOUT)]) t);
              tcount driad_probes_started 1)
            (λ _, _ ← tcount send_errors 1; tcount driad_probe_errors 1)
      | Err _ | Panic => pure Panic
      | Diverge => pure Diverge
      end)
    (λ _, tcount driad_probe_errors 1).
(** Once the round may start: the next candidate, if its turn has come. *)
Definition launch_next (now : Z) : Code bool :=
  t ← tget id;
  if now <? tn_next_probe_at t then mret false
  else if st_max_concurrent_probes (tn_settings t) <=? len (tn_probes t) then mret false
  else
    let current := match tn_probes t, head (tn_pending t) with
                   | [], Some c => Some (rank c)
                   | _, _ => tn_current_rank t
                   end in
    _ ← tset (put_current_rank current);
    match tn_pending t with
    | [] => mret false
    | candidate :: pending =>
        if negb (bool_decide (Some (rank candidate) = current)) then mret false
        else
          _ ← tset (put_pending pending);
          _ ← open_probe now candidate;
          next ← pure (instant_add now (st_happy_eyeballs_delay (tn_settings t)));
          _ ← tset (put_next_probe_at next);
          mret true
    end.
Definition launch_probe_if_due : Code bool :=
  t ← tnow;
  round ← tget tn_retry_round_at;
  match round with
  | Some retry_at => if t <? retry_at then mret false else _ ← rebuild_probe_queue; launch_next t
  | None => launch_next t
  end.
Definition schedule_next_round_if_exhausted : Code unit :=
  t ← tget id;
  if tn_no_relay_present t || bool_decide (is_Some (tn_active t)) || negb (is_empty (tn_probes t)) || negb (is_empty (tn_pending t))
  then mret tt
  else
    match tn_retry_round_at t with
    | Some _ => mret tt
    | None =>
        now ← tnow;
        delay ← retry_delay (tn_retry_attempt t);
        tset (λ t, put_retry_round_at (Some (now + delay)) (put_retry_attempt (Z.min (tn_retry_attempt t + 1) U32_MAX) t))
    end.

(** ** The active tunnel *)

Definition lost (failure : DriadActiveFailure) : DriadActivePoll := mkActivePoll true (Some failure).
(** A new query cycle, if it is time for one. *)
Definition refresh_active (now configured_refresh_interval : Z) (active : ActiveDriadTunnel) : Code (ActiveDriadTunnel * DriadActivePoll) :=
  let due := match at_query_cycle_started active with
             | Some _ => false
             | None => Z.min (at_effective_refresh_interval active) configured_refresh_interval <=? elapsed now (at_last_membership_refresh active)
             end in
  if due then
    rng ← lift (act driad_nonces);
    match begin_query_cycle (at_gateway active) rng with
    | Ok (g, action, _) =>
        let active := with_active_gateway g active in
        catch (send_action (at_socket active) action)
          (λ _, mret (with_active_cycle (at_effective_refresh_interval active) (Some now) active, mkActivePoll true None))
          (λ _, _ ← tcount send_errors 1; mret (active, lost FailQueryTimeout))
    | Err _ => mret (active, lost FailQueryTimeout)
    | Panic => pure Panic
    | Diverge => pure Diverge
    end
  else mret (active, mkActivePoll false None).

(** The arm of [MembershipQuery]. *)
Definition answer_active_query (limit : bool) (query_interval : Z) (previous_teardown : option GatewaySend) (active : ActiveDriadTunnel) :
    Code (ActiveDriadTunnel * option DriadActiveFailure) :=
  _ ← tcount gateway_membership_queries_received 1;
  _ ← match previous_teardown with
      | Some previous => send_counted (at_socket active) (GSend (send_destination previous) (send_datagram previous)) gateway_teardowns_sent
      | None => mret tt
      end;
  if limit then mret (active, Some FailLoaded)
  else
    timeout ← next_traffic_timeout;
    desired ← tget tn_desired;
    '(active, ok) ← send_driad_desired desired (with_active_cycle query_interval None active) timeout;
    if (ok : bool) then _ ← tcount gateway_membership_refreshes 1; mret (active, None)
    else _ ← tcount send_errors 1; mret (active, Some FailQueryTimeout).
(** One datagram: the active tunnel, and why it failed, if it did. *)
Definition handle_active_datagram (peer : SocketAddr) (datagram : list Z) (outer_ecn : EcnCodepoint) (active : ActiveDriadTunnel) :
    Code (ActiveDriadTunnel * option DriadActiveFailure) :=
  _ ← tcount control_datagrams_received 1;
  match handle_datagram_with_ecn (at_gateway active) peer datagram outer_ecn with
  | Ok (g, action) =>
      let active := with_active_gateway g active in
      match action with
      | GSend destination datagram =>
          catch (lift (socket_send_to (at_socket active) datagram destination NotEct))
            (λ _, _ ← tcount control_responses_sent 1; _ ← tcount control_response_bytes_sent (len datagram); mret (active, None))
            (λ _, _ ← tcount send_errors 1; mret (active, Some FailQueryTimeout))
      | GMembershipQuery _ limit _ _ query_interval previous_teardown => answer_active_query limit query_interval previous_teardown active
      | GMulticastData packet ecn =>
          _ ← on_tunnel_plane (record_gateway_multicast packet ecn);
          _ ← tset (put_traffic_retry_attempt 0);
          mret (with_active_times (at_last_membership_refresh active) None active, None)
      | GDroppedEcn ecn packet_len => _ ← on_tunnel_plane (record_gateway_ecn_drop ecn packet_len); mret (active, None)
      | GIgnored => _ ← tcount control_datagrams_ignored 1; mret (active, None)
      end
  | Err _ => _ ← tcount control_datagrams_invalid 1; mret (active, None)
  | Panic => pure Panic
  | Diverge => pure Diverge
  end.
Fixpoint active_loop (n : nat) (active : ActiveDriadTunnel) (made_progress : bool) : Code (ActiveDriadTunnel * DriadActivePoll) :=
  match n with
  | O => mret (active, mkActivePoll made_progress None)
  | S n =>
      catch (lift (socket_recv_from (at_socket active)))
        (λ '(datagram, peer, outer_ecn),
          '(active, failure) ← handle_active_datagram peer datagram outer_ecn active;
          match failure with
          | Some failure => mret (active, lost failure)
          | None => active_loop n active true
          end)
        (λ error, match error with
                  | WouldBlock => mret (active, mkActivePoll made_progress None)
                  | IoOther _ => mret (active, lost FailQueryTimeout)
                  end)
  end.
Definition poll_active (active : ActiveDriadTunnel) (configured_refresh_interval : Z) : Code (ActiveDriadTunnel * DriadActivePoll) :=
  t ← tnow;
  '(active, poll) ← refresh_active t configured_refresh_interval active;
  match ap_failure poll with
  | Some _ => mret (active, poll)
  | None =>
      '(active, poll) ← active_loop MAX_CONTROL_DRAIN active (ap_made_progress poll);
      match ap_failure poll with
      | Some _ => mret (active, poll)
      | None =>
          timed_out ← match at_query_cycle_started active with
                      | Some started => t ← tnow; mret (GATEWAY_QUERY_TIMEOUT <=? elapsed t started)
                      | None => mret false
                      end;
          if (timed_out : bool) then mret (active, lost FailQueryTimeout)
          else if is_some_and (λ deadline, deadline <=? t) (at_traffic_deadline active) then mret (active, lost FailNoTraffic)
          else mret (active, poll)
      end
  end.
Definition fail_active (active : ActiveDriadTunnel) (failure : DriadActiveFailure) : Code unit :=
  let actual := default (candidate_relay (at_candidate active)) (gw_relay_endpoint (at_gateway active)) in
  _ ← send_teardown (at_socket active) (at_gateway active);
  s ← tget tn_settings;
  _ ← match failure with
      | FailLoaded => _ ← tcount driad_loaded_hold_downs 1; hold_candidate (at_candidate active) actual (st_relay_hold_down s)
      | FailNoTraffic =>
          _ ← tcount driad_no_traffic_hold_downs 1;
          _ ← hold_candidate (at_candidate active) actual (st_traffic_hold_down s);
          tset (λ t, put_traffic_retry_attempt (Z.min (tn_traffic_retry_attempt t + 1) U32_MAX) t)
      | FailQueryTimeout => tcount driad_query_timeouts 1
      end;
  rebuild_probe_queue.

(** ** The tunnel *)

Definition poll (configured_refresh_interval : Z) : Code bool :=
  refreshed ← poll_refresh;
  active ← tget tn_active;
  match active with
  | Some active =>
      _ ← tset (put_active None);
      '(active, outcome) ← poll_active active configured_refresh_interval;
      _ ← match ap_failure outcome with
          | None => tset (put_active (Some active))
          | Some failure => fail_active active failure
          end;
      mret (refreshed || ap_made_progress outcome)
  | None =>
      probed ← poll_probes;
      launched ← launch_probe_if_due;
      _ ← schedule_next_round_if_exhausted;
      mret (refreshed || probed || launched)
  end.
Definition set_desired (desired : MembershipReport) : Code unit :=
  old ← tget tn_desired;
  if bool_decide (old = desired) then mret tt
  else
    _ ← tset (put_desired desired);
    timeout ← next_traffic_timeout;
    active ← tget tn_active;
    match active with
    | None => mret tt
    | Some active =>
        _ ← tset (put_active None);
        '(active, ok) ← send_driad_desired desired active timeout;
        if (ok : bool) then tset (put_active (Some active))
        else _ ← tcount send_errors 1; fail_active active FailQueryTimeout
    end.
Definition shutdown : Code unit :=
  active ← tget tn_active;
  _ ← tset (put_active None);
  _ ← match active with Some active => send_teardown (at_socket active) (at_gateway active) | None => mret tt end;
  tset (put_probes []).
End operations.
