(* ===== verification/DriadRun.v ===== *)
(** The tunnel of a source keeps its order: probes and candidates are distinct and ranked, a relay in use was asked for exactly what is
    desired, and a tunnel without a relay tries again. *)

From stdpp Require Import strings.
From S2P Require Import Prelude Net Effects Protocol Ip Query Membership Text Dns Candidates Driad State Relay Ecn Gateway LocalMembership Desired Downstream Metrics RelayDaemon Asked GatewayPlane GatewayDaemon GatewayLoop DriadTunnel.

(** * Lists *)

Lemma swap_remove_perm {A} (l : list A) i x : l !! i = Some x → x :: swap_remove i l ≡ₚ l.
Proof.
  intros Hx. unfold swap_remove. destruct (list_elem_of_split_length l i x Hx) as (l1 & l2 & -> & ->).
  destruct l2 as [|y l2 _] using rev_ind.
  - rewrite last_snoc, bool_decide_eq_true_2 by (rewrite length_app; cbn; lia). rewrite take_app_length. by rewrite Permutation_app_comm.
  - assert (l1 ++ x :: l2 ++ [y] = (l1 ++ x :: l2) ++ [y]) as -> by by rewrite <- app_assoc.
    rewrite last_snoc, bool_decide_eq_false_2 by (rewrite !length_app; cbn; lia).
    replace (length ((l1 ++ x :: l2) ++ [y]) - 1)%nat with (length (l1 ++ x :: l2)) by (rewrite (length_app _ [y]); cbn; lia).
    rewrite take_app_length. rewrite insert_app_r_alt, Nat.sub_diag by done. cbn. solve_Permutation.
Qed.
Lemma swap_remove_length {A} (l : list A) i x : l !! i = Some x → length l = S (length (swap_remove i l)).
Proof. intros Hx. pose proof (Permutation_length (swap_remove_perm l i x Hx)) as H. by cbn in H. Qed.

Lemma min_rank_const r ranks : Forall (eq r) ranks → ranks ≠ [] → min_rank ranks = Some r.
Proof.
  unfold min_rank. induction 1 as [|r' ranks <- H IH]; [done|]. intros _. cbn [foldr]. destruct ranks as [|r' ranks]; [done|].
  rewrite IH by done. by rewrite Z.leb_refl.
Qed.

Lemma retain_spec keep seen l :
  NoDup (candidate_relay <$> retain_candidates keep seen l) ∧
  (∀ relay, relay ∈ (candidate_relay <$> retain_candidates keep seen l) ↔
     keep relay = true ∧ (relay ∉ seen) ∧ relay ∈ (candidate_relay <$> l)) ∧
  ∀ c, c ∈ retain_candidates keep seen l → c ∈ l.
Proof.
  revert seen. induction l as [|c l IH]; intros seen; cbn [retain_candidates].
  { split; [constructor|]. split; [|done]. intros relay. cbn. rewrite elem_of_nil. tauto. }
  set (r := candidate_relay c). destruct (keep r) eqn:Hk; cbn [andb].
  - case_bool_decide as Hin; cbn [negb].
    + destruct (IH seen) as (H1 & H2 & H3). split; [done|]. split; [|intros; right; auto]. intros relay. rewrite H2, fmap_cons, elem_of_cons.
      fold r. split; [tauto|]. intros (? & ? & [->|?]); [done|tauto].
    + destruct (IH ({[r]} ∪ seen)) as (H1 & H2 & H3). rewrite fmap_cons. fold r. split; [|split].
      * apply NoDup_cons. split; [|done]. rewrite H2. set_solver.
      * intros relay. rewrite elem_of_cons, H2, fmap_cons, elem_of_cons. fold r. destruct (decide (relay = r)) as [->|Hne]; [tauto|].
        rewrite not_elem_of_union, not_elem_of_singleton. tauto.
      * intros c' [->|Hc]%elem_of_cons; [by left|right; auto].
  - destruct (IH seen) as (H1 & H2 & H3). split; [done|]. split; [|intros; right; auto]. intros relay. rewrite H2, fmap_cons, elem_of_cons.
    fold r. split; [tauto|]. intros (Hk' & ? & [->|?]); [congruence|tauto].
Qed.

(** * The sockets *)

(** What was sent on each socket; the sockets are those that were opened so far. *)
Abbreviation Logs := (gmap Z (list (list Z * SocketAddr))) (only parsing).
(** Nothing was asked for: every socket is as before, but for datagrams that are no Membership Updates. *)
Definition quiet (L L' : Logs) : Prop := asks <$> L' = asks <$> L.
(** Of the sockets there were, only those of [S] may have asked for something; what is in [S'] was in [S] or is new. *)
Record moved (S : list Z) (L : Logs) (S' : list Z) (L' : Logs) : Prop := {
  mv_own : ∀ s, s ∈ S' → s ∈ S ∨ L !! s = None;
  mv_frame : ∀ s log, L !! s = Some log → ∃ log', L' !! s = Some log' ∧ (s ∉ S → asks log' = asks log)
}.
#[export] Instance quiet_preorder : PreOrder quiet.
Proof. split; [done|]. intros L1 L2 L3. unfold quiet. congruence. Qed.
Lemma quiet_lookup L L' s log : quiet L L' → L !! s = Some log → ∃ log', L' !! s = Some log' ∧ asks log' = asks log.
Proof.
  intros Hq Hs. assert ((asks <$> L') !! s = Some (asks log)) as H by (rewrite Hq, lookup_fmap; by rewrite Hs).
  rewrite lookup_fmap in H. apply fmap_Some in H as (log' & ? & ?). eauto.
Qed.
Lemma quiet_moved S S' L L' : quiet L L' → S' ⊆ S → moved S L S' L'.
Proof.
  intros Hq HS. split; [intros s Hs; left; by apply HS|]. intros s log Hs. destruct (quiet_lookup L L' s log Hq Hs) as (log' & ? & ?). eauto.
Qed.
Lemma moved_trans S1 S2 S3 L1 L2 L3 : moved S1 L1 S2 L2 → moved S2 L2 S3 L3 → moved S1 L1 S3 L3.
Proof.
  intros [Ho1 Hf1] [Ho2 Hf2]. split.
  - intros s [Hs|Hs]%Ho2; [by apply Ho1|]. right. destruct (L1 !! s) as [log|] eqn:Hl; [|done].
    destruct (Hf1 s log Hl) as (log' & Hl' & _). congruence.
  - intros s log Hs. destruct (Hf1 s log Hs) as (log' & Hs' & H1). destruct (Hf2 s log' Hs') as (log'' & Hs'' & H2). exists log''. split; [done|].
    intros Hn. rewrite H2, H1; [done|done|]. intros [?|?]%Ho1; congruence.
Qed.
Lemma moved_weaken S1 S2 T1 T2 L L' : moved S1 L S2 L' → S1 ⊆ T1 → T2 ⊆ S2 → moved T1 L T2 L'.
Proof.
  intros [Ho Hf] H1 H2. split; [intros s [?|?]%H2%Ho; [left; by apply H1|by right]|]. intros s log Hs. destruct (Hf s log Hs) as (log' & ? & Hq).
  exists log'. split; [done|]. intros Hn. apply Hq. by intros ?%H1.
Qed.
(** A datagram on a socket. *)
Definition sent_on (socket : Z) (action : GatewayAction) (L : Logs) : Logs := alter (λ log, log ++ sends (Some action)) socket L.
Definition silent (action : GatewayAction) : Prop := ∀ log, asks (log ++ sends (Some action)) = asks log.
Lemma sent_on_quiet socket action L : silent action → quiet L (sent_on socket action L).
Proof.
  intros Hs. unfold quiet, sent_on. apply map_eq. intros s. rewrite !lookup_fmap. destruct (decide (s = socket)) as [->|Hne].
  - rewrite lookup_alter_eq. destruct (L !! socket); [|done]. cbn. by rewrite Hs.
  - by rewrite lookup_alter_ne.
Qed.
Lemma sent_on_moved socket action L : moved [socket] L [socket] (sent_on socket action L).
Proof.
  split; [by left|]. intros s log Hs. unfold sent_on. destruct (decide (s = socket)) as [->|Hne].
  - rewrite lookup_alter_eq, Hs. eexists. split; [done|]. by intros []%not_elem_of_cons.
  - rewrite lookup_alter_ne by done. eauto.
Qed.

(** * The invariant *)

Definition probe_relay (p : DriadProbe) : SocketAddr := candidate_relay (pr_candidate p).

(** A report for one source. *)
Definition source_report (r : MembershipReport) : Prop :=
  report_wf r ∧ Forall (λ x, rec_kind x = ModeIsInclude) (rep_records r).
(** The clock has not run for [2^62] seconds. *)
Definition CLOCK_MAX : Z := from_secs (2 ^ 62).
(** The configured durations that are added to the clock's readings leave an instant. *)
Definition instants_fit (s : DriadSettings) : Prop :=
  CLOCK_MAX + st_happy_eyeballs_delay s <= INSTANT_MAX ∧ CLOCK_MAX + st_relay_hold_down s <= INSTANT_MAX ∧
  CLOCK_MAX + st_traffic_hold_down s <= INSTANT_MAX.
(** The filter of a gateway is what was asked for on its socket. *)
Definition speaks (L : Logs) (socket : Z) (g : Gateway) : Prop := ∃ log, L !! socket = Some log ∧ asks_filter g log.
(** A probe asks for nothing yet; a relay in use was asked, under its session, exactly for what is desired. *)
Definition probe_ok (L : Logs) (p : DriadProbe) : Prop :=
  gateway_ok (pr_gateway p) ∧ gw_reception_state (pr_gateway p) = empty_state ∧ speaks L (pr_socket p) (pr_gateway p).
Definition active_session (L : Logs) (a : ActiveDriadTunnel) : Prop :=
  gateway_ok (at_gateway a) ∧ is_Some (gw_session (at_gateway a)) ∧ speaks L (at_socket a) (at_gateway a).
Definition asks_for (L : Logs) (desired : MembershipReport) (a : ActiveDriadTunnel) : Prop :=
  (∀ group source, interested (at_gateway a) source group = report_effect (rep_records desired) group (λ _, false) source) ∧
  ∃ log, L !! at_socket a = Some log ∧ told (at_gateway a) log.
(** The sockets of a tunnel. *)
Definition own (t : DriadSourceTunnel) : list Z :=
  (pr_socket <$> tn_probes t) ++ match tn_active t with Some a => [at_socket a] | None => [] end.

Record tunnel_ok (L : Logs) (t : DriadSourceTunnel) : Prop := {
  tk_probes : Forall (probe_ok L) (tn_probes t);
  tk_capacity : len (tn_probes t) <= st_max_concurrent_probes (tn_settings t);
  tk_distinct : NoDup ((probe_relay <$> tn_probes t) ++ (candidate_relay <$> tn_pending t));
  tk_rank : Forall (λ p, tn_current_rank t = Some (rank (pr_candidate p))) (tn_probes t);
  tk_sorted : sorted_by (λ c, rank_key (rank c)) (tn_pending t);
  tk_active : ∀ a, tn_active t = Some a →
    active_session L a ∧ asks_for L (tn_desired t) a ∧ tn_probes t = [] ∧ tn_pending t = [];
  tk_withdrawn : tn_no_relay_present t = true → tn_active t = None ∧ tn_probes t = [] ∧ tn_pending t = [];
  tk_round : is_Some (tn_retry_round_at t) → tn_active t = None ∧ tn_probes t = [] ∧ tn_pending t = [];
  tk_desired : source_report (tn_desired t);
  tk_fit : instants_fit (tn_settings t)
}.
(** The tunnel has a relay or is looking for one, or its source has none. *)
Definition trying (t : DriadSourceTunnel) : Prop :=
  tn_no_relay_present t = true ∨ is_Some (tn_active t) ∨ tn_probes t ≠ [] ∨ tn_pending t ≠ [] ∨ is_Some (tn_retry_round_at t).

Lemma speaks_quiet L L' socket g : quiet L L' → speaks L socket g → speaks L' socket g.
Proof.
  intros Hq (log & Hs & Hf). destruct (quiet_lookup L L' socket log Hq Hs) as (log' & Hs' & Ha). exists log'. split; [done|].
  by eapply asks_filter_frame.
Qed.
Lemma speaks_frame L socket g g' : speaks L socket g → gw_reception_state g' = gw_reception_state g → speaks L socket g'.
Proof. intros (log & Hs & Hf) Hr. exists log. split; [done|]. by eapply asks_filter_frame. Qed.
Lemma asks_for_quiet L L' desired a : quiet L L' → asks_for L desired a → asks_for L' desired a.
Proof.
  intros Hq (Hi & log & Hs & Ht). destruct (quiet_lookup L L' _ log Hq Hs) as (log' & Hs' & Ha). split; [done|]. exists log'. split; [done|].
  by eapply told_frame.
Qed.
Lemma session_quiet L L' a : quiet L L' → active_session L a → active_session L' a.
Proof. intros Hq (? & ? & ?). split_and!; try done. by eapply speaks_quiet. Qed.
Lemma probe_quiet L L' p : quiet L L' → probe_ok L p → probe_ok L' p.
Proof. intros Hq (? & ? & ?). split_and!; try done. by eapply speaks_quiet. Qed.
(** Another tunnel's sockets. *)
Lemma moved_quiet_on S L S' L' socket log : moved S L S' L' → socket ∉ S → L !! socket = Some log → ∃ log', L' !! socket = Some log' ∧ asks log' = asks log.
Proof. intros [_ Hf] Hn Hs. destruct (Hf socket log Hs) as (log' & ? & ?). eauto. Qed.
Lemma tunnel_moved S S' L L' t : moved S L S' L' → (∀ s, s ∈ own t → s ∉ S) → tunnel_ok L t → tunnel_ok L' t.
Proof.
  intros Hm Hown [].
  assert (∀ socket g, socket ∉ S → speaks L socket g → speaks L' socket g) as Hsp.
  { intros socket g Hn (log & Hs & Hf). destruct (moved_quiet_on S L S' L' socket log Hm Hn Hs) as (log' & Hs' & Ha). exists log'. split; [done|].
    by eapply asks_filter_frame. }
  split; try done.
  - apply Forall_forall. intros p Hp. rewrite Forall_forall in tk_probes0. destruct (tk_probes0 p Hp) as (? & ? & ?). split_and!; try done.
    apply Hsp; [|done]. apply Hown. unfold own. apply elem_of_app. left. by apply list_elem_of_fmap_2.
  - intros a Ha. destruct (tk_active0 a Ha) as ((? & ? & ?) & (? & log & Hs & Ht) & ? & ?).
    assert (at_socket a ∉ S) as Hn by (apply Hown; unfold own; rewrite Ha; apply elem_of_app; right; by left).
    split; [split_and!; try done; by apply Hsp|]. split; [|done]. split; [done|].
    destruct (moved_quiet_on S L S' L' _ log Hm Hn Hs) as (log' & Hs' & Hl). exists log'. split; [done|]. by eapply told_frame.
Qed.
Lemma tunnel_quiet L L' t : quiet L L' → tunnel_ok L t → tunnel_ok L' t.
Proof. intros Hq. apply (tunnel_moved [] []); [by apply quiet_moved|]. intros s _ ?%elem_of_nil. done. Qed.

(** The logs matter to the probes and the relay in use. *)
Lemma tunnel_relog L L' t t' :
  tunnel_ok L t → tunnel_ok L' t' → tn_probes t' = tn_probes t → tn_active t' = tn_active t → tn_desired t' = tn_desired t → tunnel_ok L' t.
Proof.
  intros [] Ht' Hp Ha Hd. split; try done; [rewrite <- Hp; apply Ht'|]. intros a Hact. destruct (tk_active0 a Hact) as (_ & _ & ? & ?).
  destruct (tk_active _ _ Ht' a) as (? & ? & _); [congruence|]. split_and!; try done. by rewrite <- Hd.
Qed.
(** Without candidates, there is little to keep. *)
Lemma idle_ok L t t' :
  tunnel_ok L t → tn_settings t' = tn_settings t → tn_desired t' = tn_desired t → tn_probes t' = [] → tn_pending t' = [] →
  (∀ a, tn_active t' = Some a → tn_no_relay_present t' = false ∧ tn_retry_round_at t' = None ∧ active_session L a ∧ asks_for L (tn_desired t') a) → tunnel_ok L t'.
Proof.
  intros [] Hs Hd Hp Hq Ha. split; rewrite ?Hs, ?Hp, ?Hq; try by constructor.
  - unfold len in *. cbn in *. lia.
  - intros a H. by destruct (Ha a H) as (_ & _ & ? & ?).
  - intros Hn. destruct (tn_active t') as [a|]; [|done]. destruct (Ha a eq_refl). congruence.
  - intros [x Hx]. destruct (tn_active t') as [a|]; [|done]. destruct (Ha a eq_refl) as (_ & ? & _). congruence.
  - by rewrite Hd.
  - done.
Qed.

(** The candidates of a tunnel, and which of them a new queue holds. *)
Definition all_candidates (t : DriadSourceTunnel) : list DriadCandidate :=
  (if st_use_anycast (tn_settings t) then anycast_candidates (tn_settings t) else [])
  ++ ((λ s, mkCandidate s SourceDns) <$> tn_dns_candidates t).
Lemma queue_spec t hold_downs :
  let q := queue_for t hold_downs in
  NoDup (candidate_relay <$> q) ∧ sorted_by (λ c, rank_key (rank c)) q ∧ (∀ c, c ∈ q → c ∈ all_candidates t) ∧
  ∀ relay, relay ∈ (candidate_relay <$> q) ↔
    relay ∈ (candidate_relay <$> all_candidates t) ∧ address_family_allowed (tn_settings t) (sock_ip relay) = true ∧
    hold_downs !! relay = None ∧ relay ∉ (probe_relay <$> tn_probes t).
Proof.
  intros q. unfold q, queue_for. set (keep := λ relay, _ && _). fold (all_candidates t).
  change ((λ p, candidate_relay (pr_candidate p)) <$> tn_probes t) with (probe_relay <$> tn_probes t).
  destruct (retain_spec keep (list_to_set (probe_relay <$> tn_probes t)) (all_candidates t)) as (H1 & H2 & H3).
  set (l := retain_candidates _ _ _) in *. pose proof (sort_by_key_perm (λ c, rank_key (rank c)) l) as Hp.
  split_and!; [by rewrite Hp|apply sort_by_key_sorted|by intros c; rewrite Hp; apply H3|].
  intros relay. rewrite Hp, H2, elem_of_list_to_set. unfold keep.
  rewrite andb_true_iff, negb_true_iff, bool_decide_eq_false, <- eq_None_not_Some. tauto.
Qed.

(** The queue of a rebuilt tunnel. *)
Lemma rebuilt_ok L now t : tunnel_ok L t → tn_active t = None → tunnel_ok L (rebuilt now t).
Proof.
  intros [] Ha. unfold rebuilt. cbn [tn_no_relay_present put_hold_downs]. destruct (tn_no_relay_present t) eqn:Hn.
  { destruct (tk_withdrawn0 eq_refl) as (_ & Hp & Hq). split; cbn; rewrite ?Hp, ?Ha; try done; [|by constructor|constructor].
    rewrite Hp in *. cbn in *. lia. }
  set (holds := filter _ _). destruct (queue_spec (put_hold_downs holds t) holds) as (H1 & H2 & _ & H4). set (q := queue_for _ _) in *.
  split; cbn; try done.
  - apply NoDup_app. split; [by apply NoDup_app in tk_distinct0 as [? _]|]. split; [|done]. intros relay Hr Hq. by apply H4 in Hq as (_ & _ & _ & ?).
  - destruct (tn_probes t) as [|p ps] eqn:Hp; [done|]. inversion_clear tk_rank0 as [|? ? Hc Hrest].
    rewrite (min_rank_const (rank (pr_candidate p))); [|cbn; constructor; [done|]|done].
    + constructor; [done|]. eapply Forall_impl; [exact Hrest|]. intros p' Hp'. congruence.
    + apply Forall_fmap. eapply Forall_impl; [exact Hrest|]. intros p' Hp'. cbn. congruence.
  - by rewrite Ha.
  - by rewrite Hn.
Qed.

Lemma rebuilt_frame now t :
  tn_settings (rebuilt now t) = tn_settings t ∧ tn_desired (rebuilt now t) = tn_desired t ∧ tn_active (rebuilt now t) = tn_active t ∧
  own (rebuilt now t) = own t.
Proof. unfold rebuilt. cbn [tn_no_relay_present put_hold_downs]. by destruct (tn_no_relay_present t). Qed.

(** ** The gateway of a tunnel *)

Lemma include_effect rs group wanted wanted' s :
  Forall (λ x, rec_kind x = ModeIsInclude) rs → group ∈ rec_group <$> rs → report_effect rs group wanted s = report_effect rs group wanted' s.
Proof.
  induction rs as [|r rs IH] using rev_ind; [by intros _ ?%elem_of_nil|]. rewrite Forall_app, Forall_singleton, fmap_app, elem_of_app.
  intros [Hrs Hr] Hg. rewrite !report_effect_app. unfold report_effect at 1 3. cbn. case_decide as Hd; [by rewrite Hr|].
  destruct Hg as [Hg|Hg]; [by apply IH|]. by apply list_elem_of_singleton in Hg.
Qed.
Lemma desired_replaced g report log :
  gateway_ok g → is_Some (gw_session g) → source_report report → asks_filter g log →
  wp (replace_memberships g report)
    (λ '(g', action), gateway_ok g' ∧ is_Some (gw_session g') ∧ asks_filter g' (log ++ sends action) ∧ told g' (log ++ sends action) ∧
       ∀ group source, interested g' source group = report_effect (rep_records report) group (λ _, false) source) (λ _, True).
Proof.
  intros Hok Hs [Hwf Hinc] Hf.
  eapply wp_mono; [apply (replace_asks g report log); [done|done|by intros group w w' s; apply include_effect|done]| |done].
  intros [g' action] (? & _ & _ & _ & Hs' & ? & ? & ?). split_and!; try done. by apply Hs'.
Qed.
(** What a datagram does to the gateway of a probe or of a relay in use. *)
Definition silent_teardown (previous : option GatewaySend) : Prop :=
  ∀ teardown, previous = Some teardown → silent (GSend (send_destination teardown) (send_datagram teardown)).
Definition delivers (g g' : Gateway) (action : GatewayAction) : Prop :=
  match action with
  | GSend _ _ => silent action ∧ gw_session g = None
  | GMulticastData packet _ => bytes packet ∧ g' = g
  | GMembershipQuery _ _ _ _ _ previous => is_Some (gw_session g') ∧ silent_teardown previous
  | _ => g' = g
  end.
Lemma session_event g peer datagram ecn :
  gateway_ok g → bytes datagram →
  wp (handle_datagram_with_ecn g peer datagram ecn)
    (λ '(g', action), gateway_ok g' ∧ gw_reception_state g' = gw_reception_state g ∧ (is_Some (gw_session g) → is_Some (gw_session g')) ∧
       delivers g g' action) (λ _, True).
Proof.
  intros Hok Hb. pose proof (handle_datagram_wp g peer datagram ecn Hok Hb) as Hw.
  pose proof (λ packet, multicast_data_action g peer datagram ecn packet Hb) as Hdata.
  destruct (handle_datagram_with_ecn g peer datagram ecn) as [[g' action]|e| |] eqn:Hh; try done. cbn [wp] in *.
  destruct Hw as (Hok' & _ & _ & _ & Hr & message & Hdec & Hev). split; [done|]. split; [done|].
  inversion Hev as [address Hd _ _ _ _ Hs Ha Hm|mac nonce limit gateway q query interval previous reported _ _ Hs _ Ha Hm|a packet Heq Ha Hm|m Heq Ha]; subst.
  - split; [by rewrite Hs|]. split; [|by apply (gok_session _ Hok)]. intros log. by apply request_asks_nothing.
  - cbn [delivers]. rewrite Hs. split; [done|]. split; [done|]. intros teardown -> log. exact (previous_asks_nothing _ _ _ _ _ _ _ _ _ _ _ log Hok Hh).
  - specialize (Hdata packet Hdec). split; [done|]. by destruct action.
  - done.
Qed.

(** What a tunnel relies on: calls return, received datagrams are bytes, the generator gives nonces; [logs] is what was sent on
    each socket, and a new socket is none of the sockets before. *)
Class DriadWorldOk {W : Type} `{!DriadWorld W} (logs : W → Logs) : Prop := {
  dnow_ok w : (dnow w).1 <= CLOCK_MAX ∧ logs (dnow w).2 = logs w;
  driad_nonces_ok w :
    draws_wf (driad_nonces w).1 ∧ logs (driad_nonces w).2 = logs w ∧
    ∃ n n' rng rng', random_nonce (E:=GatewayError) (driad_nonces w).1 = Ok (n, rng) ∧ random_nonce (E:=GatewayError) rng = Ok (n', rng');
  driad_random_ok w : from_option (λ n, 0 <= n) True (driad_random w).1 ∧ logs (driad_random w).2 = logs w;
  socket_bind_ok address ecn w :
    mwp (socket_bind address ecn) (λ socket w', logs w !! socket = None ∧ logs w' = <[socket := []]> (logs w)) (λ _ w', logs w' = logs w) w;
  socket_recv_ok socket w :
    mwp (socket_recv_from socket) (λ '(datagram, _, _) w', bytes datagram ∧ logs w' = logs w) (λ _ w', logs w' = logs w) w;
  socket_send_ok socket datagram destination ecn w :
    mwp (socket_send_to socket datagram destination ecn) (λ _ w', logs w' = sent_on socket (GSend destination datagram) (logs w))
      (λ _ w', logs w' = logs w) w;
  pool_update_ok f w : logs (pool_update f w).2 = logs w;
  pool_release_ok w : logs (pool_release w) = logs w;
  spawn_resolver_ok config source w : mwp (spawn_resolver config source) (λ _ w', logs w' = logs w) (λ _ w', logs w' = logs w) w;
  channel_try_recv_ok receiver w : logs (channel_try_recv receiver w).2 = logs w
}.

Section invariant.
Context {C X W : Type} `{!RawContext C X} `{!DriadWorld W}.
Context (opened : C → gmap Z RawPublicationConfig) (published_packets : C → list (Z * list Z)) `{!RawContextLaws opened published_packets}.
Context (logs : W → Logs) `{!DriadWorldOk logs}.
Implicit Types (t : DriadSourceTunnel) (p : GatewayPlane C X) (w : W).
Abbreviation State := ((DriadSourceTunnel * GatewayPlane C X) * W)%type.
Abbreviation never := (λ _ _, False) (only parsing).

Lemma tget_wp {A} (f : DriadSourceTunnel → A) (Q : A → State → Prop) R t p w : Q (f t) ((t, p), w) → mwp (tget f) Q R ((t, p), w).
Proof. done. Qed.
Lemma tset_wp f (Q : unit → State → Prop) R t p w : Q tt ((f t, p), w) → mwp (tset f) Q R ((t, p), w).
Proof. done. Qed.
Lemma tcount_wp c n (Q : unit → State → Prop) R t p w :
  plane_ok opened p → (∀ p', plane_ok opened p' → Q tt ((t, p'), w)) → mwp (tcount c n) Q R ((t, p), w).
Proof. intros Hp HQ. by apply (HQ (pcount c n p)). Qed.
Lemma same_quiet w w' : logs w' = logs w → quiet (logs w) (logs w').
Proof. by intros ->. Qed.
Lemma tread_wp {A} (f : W → A * W) (Q : A → State → Prop) (R : string → State → Prop) t p w : Q (f w).1 ((t, p), (f w).2) → mwp (lift (act f)) Q R ((t, p), w).
Proof. intros HQ. by apply mwp_lift, mwp_act. Qed.
Lemma tnow_wp (Q : Z → State → Prop) R t p w :
  (∀ n w', n <= CLOCK_MAX → quiet (logs w) (logs w') → Q n ((t, p), w')) → mwp tnow Q R ((t, p), w).
Proof. intros HQ. apply tread_wp. destruct (dnow_ok w) as [? ?]. by apply HQ, same_quiet. Qed.
Lemma instant_wp instant duration (Q : Z → State → Prop) (R : string → State → Prop) s :
  instant <= CLOCK_MAX → CLOCK_MAX + duration <= INSTANT_MAX → (∀ n, Q n s) → mwp (pure (instant_add instant duration)) Q R s.
Proof. intros Hi Hd HQ. apply mwp_pure. unfold instant_add. rewrite (proj2 (Z.leb_le _ _)) by lia. apply HQ. Qed.
Lemma driad_random_wp (Q : option Z → State → Prop) (R : string → State → Prop) t p w :
  (∀ o w', quiet (logs w) (logs w') → Q o ((t, p), w')) → mwp (lift (act driad_random)) Q R ((t, p), w).
Proof. intros HQ. apply tread_wp, HQ, same_quiet, driad_random_ok. Qed.
(** A duration of 64 bits of milliseconds. *)
Lemma random_wp lower upper (Q : Z → State → Prop) R t p w :
  (∀ n w', CLOCK_MAX + n <= INSTANT_MAX → quiet (logs w) (logs w') → Q n ((t, p), w')) → mwp (random_between lower upper) Q R ((t, p), w).
Proof.
  intros HQ. unfold random_between. mwp_step. apply driad_random_wp. intros o w' Hq. mwp_step. apply HQ; [|done].
  unfold randomized_duration_between. set (n := Z.min _ U64_MAX). assert (n <= U64_MAX) as Hn by (unfold n; lia). clearbody n.
  assert (CLOCK_MAX + from_millis U64_MAX <= INSTANT_MAX) as Hmax by by apply Z.leb_le; vm_compute.
  assert (from_millis n <= from_millis U64_MAX) by (unfold from_millis; lia). lia.
Qed.
Lemma retry_delay_wp attempt (Q : Z → State → Prop) R t p w :
  (∀ n w', quiet (logs w) (logs w') → Q n ((t, p), w')) → mwp (retry_delay attempt) Q R ((t, p), w).
Proof. intros HQ. unfold retry_delay. mwp_step. apply driad_random_wp. intros. mwp_step. auto. Qed.
Lemma socket_send_wp socket datagram destination ecn (Q : Z → State → Prop) (R : string → State → Prop) t p w :
  (∀ n w', logs w' = sent_on socket (GSend destination datagram) (logs w) → Q n ((t, p), w')) → (∀ e w', logs w' = logs w → R e ((t, p), w')) →
  mwp (lift (socket_send_to socket datagram destination ecn)) Q R ((t, p), w).
Proof. intros HQ HR. apply mwp_lift. eapply mwp_mono; [apply socket_send_ok|..]; auto. Qed.
Lemma tunnel_send_wp socket action (Q : unit → State → Prop) R t p w :
  (∀ w', logs w' = sent_on socket action (logs w) → Q tt ((t, p), w')) → (∀ e w', logs w' = logs w → R e ((t, p), w')) →
  mwp (send_action socket action) Q R ((t, p), w).
Proof.
  intros HQ HR. assert (sends (Some action) = [] → Q tt ((t, p), w)) as Hnone.
  { intros Hn. apply HQ. unfold sent_on. rewrite Hn. symmetry. apply map_eq. intros s. destruct (decide (s = socket)) as [->|Hne].
    - rewrite lookup_alter_eq. destruct (logs w !! socket); [|done]. cbn. by rewrite app_nil_r.
    - by rewrite lookup_alter_ne. }
  destruct action; cbn [send_action]; try (mwp_step; by apply Hnone). mwp_step. apply socket_send_wp; [|done].
  intros. mwp_step. by apply HQ.
Qed.
Lemma silent_send_wp socket action (Q : unit → State → Prop) R t p w :
  silent action → (∀ w', quiet (logs w) (logs w') → Q tt ((t, p), w')) → (∀ e w', quiet (logs w) (logs w') → R e ((t, p), w')) →
  mwp (send_action socket action) Q R ((t, p), w).
Proof.
  intros Hs HQ HR. apply tunnel_send_wp.
  - intros w' Hw. apply HQ. rewrite Hw. by apply sent_on_quiet.
  - intros e w' Hw. by apply HR, same_quiet.
Qed.
Lemma send_counted_wp socket action c (Q : unit → State → Prop) R t p w :
  silent action → plane_ok opened p → (∀ p' w', plane_ok opened p' → quiet (logs w) (logs w') → Q tt ((t, p'), w')) →
  mwp (send_counted socket action c) Q R ((t, p), w).
Proof. intros Hs Hp HQ. unfold send_counted. mwp_step. apply silent_send_wp; [done|..]; intros; apply tcount_wp; auto. Qed.
Lemma send_teardown_wp socket g (Q : unit → State → Prop) R t p w :
  gateway_ok g → plane_ok opened p → (∀ p' w', plane_ok opened p' → quiet (logs w) (logs w') → Q tt ((t, p'), w')) →
  mwp (send_teardown socket g) Q R ((t, p), w).
Proof.
  intros Hg Hp HQ. unfold send_teardown. assert (returns (teardown g)) as Ht.
  { unfold teardown. destruct (gw_relay_endpoint g); [|done]. cbn. destruct (gw_session g) as [se|]; [|done]. cbn. by destruct (gs_gateway_endpoint se). }
  destruct (teardown g) eqn:Hte; try done; [|mwp_step; by apply HQ]. apply send_counted_wp; try done. intros log. by eapply teardown_asks_nothing.
Qed.

(** ** Refresh *)

(** Only the refresh and the timers have changed. *)
Definition same_core t t' : Prop :=
  tn_settings t' = tn_settings t ∧ tn_pending t' = tn_pending t ∧ tn_current_rank t' = tn_current_rank t ∧ tn_probes t' = tn_probes t ∧
  tn_no_relay_present t' = tn_no_relay_present t ∧ tn_active t' = tn_active t ∧ tn_desired t' = tn_desired t ∧
  tn_retry_round_at t' = tn_retry_round_at t.
(** A tunnel in order before and after, with the same settings and desired memberships, that used no other tunnel's socket. *)
Definition kept (L : Logs) t (L' : Logs) t' : Prop :=
  tunnel_ok L' t' ∧ tn_settings t' = tn_settings t ∧ tn_desired t' = tn_desired t ∧ moved (own t) L (own t') L'.
Lemma same_core_own t t' : same_core t t' → own t' = own t.
Proof. intros (_ & _ & _ & Hp & _ & Ha & _). unfold own. by rewrite Hp, Ha. Qed.
Lemma same_core_ok L t t' : tunnel_ok L t → same_core t t' → tunnel_ok L t'.
Proof. intros [] (Hs & Hq & Hr & Hp & Hn & Ha & Hd & Hx). split; by rewrite ?Hs, ?Hq, ?Hr, ?Hp, ?Hn, ?Ha, ?Hd, ?Hx. Qed.
Lemma same_core_kept L L' t t' : tunnel_ok L t → same_core t t' → quiet L L' → kept L t L' t'.
Proof.
  intros Ht Hc Hq. split_and!; [|by destruct Hc as (? & _)|by destruct Hc as (_ & _ & _ & _ & _ & _ & ? & _)|].
  - eapply tunnel_quiet; [done|]. by eapply same_core_ok.
  - apply quiet_moved; [done|]. by rewrite (same_core_own _ _ Hc).
Qed.
Lemma same_core_trans t1 t2 t3 : same_core t1 t2 → same_core t2 t3 → same_core t1 t3.
Proof. intros (?&?&?&?&?&?&?&?) (?&?&?&?&?&?&?&?). split_and!; congruence. Qed.
Lemma kept_trans L1 L2 L3 t1 t2 t3 : kept L1 t1 L2 t2 → kept L2 t2 L3 t3 → kept L1 t1 L3 t3.
Proof. intros (?&?&?&?) (?&?&?&?). split_and!; [done|congruence..|]. by eapply moved_trans. Qed.
Lemma kept_quiet L L' t : tunnel_ok L t → quiet L L' → kept L t L' t.
Proof. intros Ht Hq. by apply same_core_kept. Qed.

Lemma refresh_poll_wp (Q : DriadPoll → State → Prop) R t p w :
  (∀ poll t' w', same_core t t' → quiet (logs w) (logs w') → Q poll ((t', p), w')) → mwp refresh_poll Q R ((t, p), w).
Proof.
  intros HQ. assert (same_core t t) as Hrefl by done. unfold refresh_poll. mwp_step. apply tget_wp.
  destruct (rf_pending (tn_refresh t)) as [receiver|].
  - mwp_step. apply tread_wp. pose proof (channel_try_recv_ok receiver w) as Hc%same_quiet.
    destruct (channel_try_recv receiver w) as [[| |result] w1]; cbn [fst snd] in *; [mwp_step; auto| |]; mwp_step; apply tset_wp; mwp_step; by apply HQ.
  - unfold start_resolver. mwp_step. apply tnow_wp. intros now w1 _ H1. mwp_step. apply tget_wp. destruct (_ <? _); [mwp_step; auto|].
    mwp_step. apply tread_wp. pose proof (pool_update_ok (acquire (rf_maximum_workers (tn_refresh t))) w1) as H2%same_quiet.
    destruct (pool_update _ w1) as [permit w2]. cbn [fst snd] in *.
    assert (quiet (logs w) (logs w2)) as Hq by by etrans. destruct permit; cbn [negb]; [|mwp_step; auto].
    mwp_step. apply mwp_lift. eapply mwp_mono; [apply spawn_resolver_ok|..].
    + intros receiver w3 H3%same_quiet. mwp_step. apply tset_wp. mwp_step. apply HQ; [done|by etrans].
    + intros error w3 H3%same_quiet. mwp_step. apply tread_wp. mwp_step. apply HQ; [done|]. etrans; [done|]. etrans; [done|].
      apply same_quiet, pool_release_ok.
Qed.
Lemma schedule_success_wp ttl (Q : unit → State → Prop) R t p w :
  (∀ t' w', same_core t t' → quiet (logs w) (logs w') → Q tt ((t', p), w')) → mwp (schedule_success ttl) Q R ((t, p), w).
Proof. intros HQ. unfold schedule_success. mwp_step. apply tnow_wp. intros now w1 _ H1. apply tset_wp. by apply HQ. Qed.
Lemma schedule_failure_wp (Q : unit → State → Prop) R t p w :
  (∀ t' w', same_core t t' → quiet (logs w) (logs w') → Q tt ((t', p), w')) → mwp schedule_failure Q R ((t, p), w).
Proof.
  intros HQ. unfold schedule_failure. mwp_step. apply tget_wp. mwp_step. apply tnow_wp. intros now w1 _ H1. mwp_step.
  apply retry_delay_wp. intros delay w2 H2. apply tset_wp. apply HQ; [done|by etrans].
Qed.

Lemma accept_selections_wp selections t p w :
  tunnel_ok (logs w) t → plane_ok opened p →
  mwp (accept_selections selections)
    (λ _ '((t', p'), w'), kept (logs w) t (logs w') t' ∧ plane_ok opened p' ∧ tn_active t' = tn_active t) never ((t, p), w).
Proof.
  intros Ht Hp. unfold accept_selections. mwp_step. apply tget_wp. set (changed := negb _). mwp_step.
  apply (mwp_mono _ (λ _ '((t', p'), w'), same_core t t' ∧ plane_ok opened p' ∧ w' = w) _ never); [| |done].
  { destruct changed; [|by mwp_step]. mwp_step. apply tset_wp. apply tcount_wp; [done|]. by intros. }
  intros [] [[t1 p1] w1] (H1 & Hp1 & ->). mwp_step. apply tget_wp. mwp_step. apply tset_wp. mwp_step. apply tget_wp. mwp_step.
  apply (mwp_mono _ (λ _ '((t', p'), w'), kept (logs w) t (logs w') t' ∧ plane_ok opened p' ∧ tn_active t' = tn_active t) _ never); [| |done].
  - assert (tunnel_ok (logs w) (put_no_relay_present false t1)) as Hok.
    { destruct (same_core_ok _ t t1 Ht H1). by split. }
    assert (own (put_no_relay_present false t1) = own t) as Hown by exact (same_core_own _ _ H1).
    destruct H1 as (Hs & _ & _ & _ & _ & Ha & Hd & _). cbn [tn_active put_no_relay_present].
    destruct (negb _ && _) eqn:Hb.
    2:{ mwp_step. split; [|done]. split_and!; try done. apply quiet_moved; [done|]. by rewrite Hown. }
    unfold rebuild_probe_queue. mwp_step. apply tnow_wp. intros now w2 _ H2. apply tset_wp.
    apply andb_true_iff in Hb as [Hb%negb_true_iff%bool_decide_eq_false _]. apply eq_None_not_Some in Hb.
    destruct (rebuilt_frame now (put_no_relay_present false t1)) as (Hs' & Hd' & Ha' & Ho').
    split; [split_and!|split; [done|by rewrite Ha']].
    + eapply tunnel_quiet; [done|]. by apply rebuilt_ok.
    + by rewrite Hs'.
    + by rewrite Hd'.
    + apply quiet_moved; [done|]. by rewrite Ho', Hown.
  - intros [] [[t2 p2] w2] (H2 & Hp2 & Ha2). mwp_step. apply schedule_success_wp. intros t3 w3 H3 Hq3. apply tcount_wp; [done|]. intros p3 Hp3.
    split_and!; [|done|by destruct H3 as (_ & _ & _ & _ & _ & -> & _)].
    eapply kept_trans; [done|]. apply same_core_kept; [apply H2|done|done].
Qed.

Lemma withdraw_wp t p w :
  tunnel_ok (logs w) t → plane_ok opened p →
  mwp withdraw (λ _ '((t', p'), w'), kept (logs w) t (logs w') t' ∧ plane_ok opened p' ∧ tn_active t' = None) never ((t, p), w).
Proof.
  intros Ht Hp. unfold withdraw. mwp_step. apply tget_wp. set (withdrawal := _ || _). mwp_step. apply tset_wp. mwp_step. apply tset_wp.
  set (t1 := put_active None _). assert (kept (logs w) t (logs w) t1 ∧ tn_active t1 = None) as [Hk Ha].
  { split; [|done]. split_and!; try done; [by apply (idle_ok _ t)|]. apply quiet_moved; [done|]. by intros s ?%elem_of_nil. }
  clearbody t1. mwp_step. apply (mwp_mono _ (λ _ '((t', p'), w'), t' = t1 ∧ plane_ok opened p' ∧ quiet (logs w) (logs w')) _ never); [| |done].
  { cbn [id]. destruct (tn_active t) as [a|] eqn:Hact; [|by mwp_step]. destruct (tk_active _ _ Ht a Hact) as ((Hg & _) & _). by apply send_teardown_wp. }
  intros [] [[t2 p2] w2] (-> & Hp2 & Hq2). mwp_step. apply schedule_failure_wp. intros t3 w3 H3 Hq3.
  assert (kept (logs w) t (logs w3) t3 ∧ tn_active t3 = None) as [Hk3 Ha3].
  { split; [eapply kept_trans; [done|apply same_core_kept; [apply Hk|done|by etrans]]|]. destruct H3 as (_ & _ & _ & _ & _ & -> & _). done. }
  mwp_step. apply tcount_wp; [done|]. intros p3 Hp3. destruct withdrawal; [|by mwp_step].
  mwp_step. apply tcount_wp; [done|]. intros p4 Hp4. apply tcount_wp; [done|]. by intros.
Qed.

(** The same operations, and when they refresh again: after a failure, at the time that the clock gives at [w1] and a delay. *)
Definition retry_scheduled (w1 : W) (r r' : DriadRefreshState) : Prop :=
  let '(now, w2) := dnow w1 in
  let delay := randomized_retry_delay (driad_random w2).1 (upper_delay (rf_retry_attempt r)) in
  rf_next_refresh r' = now + delay ∧ rf_retry_attempt r' = Z.min (rf_retry_attempt r + 1) U32_MAX ∧
  DRIAD_MIN_REFRESH_INTERVAL <= delay <= GATEWAY_RETRY_MAX.
Lemma schedule_failure_exact (Q : unit → State → Prop) R t p w :
  0 <= rf_retry_attempt (tn_refresh t) →
  (∀ r w', retry_scheduled w (tn_refresh t) r → rf_pending r = rf_pending (tn_refresh t) → Q tt ((put_refresh r t, p), w')) →
  mwp schedule_failure Q R ((t, p), w).
Proof.
  intros Ha HQ. unfold schedule_failure, retry_delay. mwp_step. apply tget_wp. mwp_step. apply tread_wp. mwp_step. mwp_step.
  apply tread_wp. mwp_step. apply tset_wp. apply HQ; [|done]. unfold retry_scheduled. destruct (dnow w) as [now w2]. cbn [fst snd]. split; [done|]. split; [done|].
  pose proof (upper_delay_bounds _ Ha) as Hu. pose proof (retry_delay_bounds _ _ (proj1 Hu) (proj1 (driad_random_ok w2))) as Hd.
  change DRIAD_MIN_REFRESH_INTERVAL with GATEWAY_RETRY_INITIAL. lia.
Qed.
(** The smallest time to live of an answer, at least a second and at most a day. *)
Definition refresh_after (selections : list DriadRelaySelection) (delay : Z) : Prop :=
  ∃ ttl, delay = Z.min (Z.max ttl DRIAD_MIN_REFRESH_INTERVAL) DRIAD_MAX_REFRESH_INTERVAL ∧
    (∀ s, s ∈ selections → ttl <= ds_ttl s) ∧ (ttl ∈ (ds_ttl <$> selections) ∨ selections = [] ∧ ttl = DRIAD_MIN_REFRESH_INTERVAL).
Lemma min_ttl_spec selections :
  match min_ttl selections with
  | Some ttl => (∀ s, s ∈ selections → ttl <= ds_ttl s) ∧ ttl ∈ (ds_ttl <$> selections)
  | None => selections = []
  end.
Proof.
  unfold min_ttl. induction selections as [|s l IH]; [done|]. cbn [foldr]. destruct (foldr _ _ l) as [m|].
  - destruct IH as [Hle Hin]. split; [intros s' [->|Hs]%elem_of_cons; [lia|specialize (Hle s' Hs); lia]|]. rewrite fmap_cons, elem_of_cons.
    destruct (Z.min_spec (ds_ttl s) m) as [[_ ->]|[_ ->]]; auto.
  - subst l. split; [intros s' ->%list_elem_of_singleton; done|by left].
Qed.
Lemma accept_selections_exact selections t p w :
  plane_ok opened p →
  mwp (accept_selections selections)
    (λ _ '((t', _), _), rf_pending (tn_refresh t') = rf_pending (tn_refresh t) ∧ rf_retry_attempt (tn_refresh t') = 0 ∧
       (∃ w1 delay, (w1 = w ∨ w1 = (dnow w).2) ∧ refresh_after selections delay ∧ rf_next_refresh (tn_refresh t') = (dnow w1).1 + delay) ∧
       tn_dns_candidates t' = selections ∧ tn_no_relay_present t' = false ∧ tn_active t' = tn_active t ∧ tn_probes t' = tn_probes t) never ((t, p), w).
Proof.
  intros Hp. unfold accept_selections. mwp_step. apply tget_wp. set (changed := negb _). mwp_step.
  apply (mwp_mono _ (λ _ '((t', p'), w'), t' = put_dns_candidates selections t ∧ plane_ok opened p' ∧ w' = w) _ never); [| |done].
  { unfold changed. case_bool_decide as Heq; cbn [negb]; [mwp_step; subst selections; by destruct t|].
    mwp_step. apply tset_wp. by apply tcount_wp. }
  intros [] [[t1 p1] w1] (-> & Hp1 & ->). mwp_step. apply tget_wp. mwp_step. apply tset_wp. mwp_step. apply tget_wp. mwp_step.
  set (t1 := put_no_relay_present false _).
  apply (mwp_mono _ (λ _ '((t', p'), w'), plane_ok opened p' ∧ tn_refresh t' = tn_refresh t ∧ tn_dns_candidates t' = selections ∧ tn_no_relay_present t' = false ∧
    tn_active t' = tn_active t ∧ tn_probes t' = tn_probes t ∧ (w' = w ∨ w' = (dnow w).2)) _ never); [| |done].
  { destruct (_ && _); [|mwp_step; by split_and!; [..|left]]. unfold rebuild_probe_queue. mwp_step. apply tread_wp. apply tset_wp.
    assert (∀ now, tn_refresh (rebuilt now t1) = tn_refresh t ∧ tn_dns_candidates (rebuilt now t1) = selections ∧ tn_no_relay_present (rebuilt now t1) = false ∧
      tn_active (rebuilt now t1) = tn_active t ∧ tn_probes (rebuilt now t1) = tn_probes t) as H by done.
    destruct (H (dnow w).1) as (? & ? & ? & ? & ?). split_and!; try done. by right. }
  intros [] [[t2 p2] w2] (Hp2 & Hr & H1 & H2 & H3 & H4 & Hw). mwp_step. unfold schedule_success. mwp_step. apply tread_wp. apply tset_wp.
  apply tcount_wp; [done|]. intros p3 Hp3. cbn. rewrite Hr. split_and!; try done. eexists w2, _. split; [done|]. split; [|done].
  exists (default DRIAD_MIN_REFRESH_INTERVAL (min_ttl selections)). split; [done|]. pose proof (min_ttl_spec selections) as Hm.
  destruct (min_ttl selections) as [ttl|]; cbn; [destruct Hm; auto|]. rewrite Hm. split; [by intros s ?%elem_of_nil|by right].
Qed.
Lemma withdraw_exact t p w :
  plane_ok opened p → 0 <= rf_retry_attempt (tn_refresh t) →
  mwp withdraw
    (λ _ '((t', _), _),
       (∃ w1, (w1 = w ∨ ∃ socket datagram destination, w1 = (socket_send_to socket datagram destination NotEct w).2) ∧
          retry_scheduled w1 (tn_refresh t) (tn_refresh t')) ∧ rf_pending (tn_refresh t') = rf_pending (tn_refresh t) ∧
       tn_dns_candidates t' = [] ∧ tn_no_relay_present t' = true ∧ tn_active t' = None ∧ tn_probes t' = [] ∧ tn_pending t' = []) never ((t, p), w).
Proof.
  intros Hp Ha. unfold withdraw. mwp_step. apply tget_wp. set (withdrawal := _ || _). mwp_step. apply tset_wp. mwp_step. apply tset_wp. mwp_step.
  set (t1 := put_active None _).
  apply (mwp_mono _ (λ _ '((t', p'), w'), t' = t1 ∧ plane_ok opened p' ∧
    (w' = w ∨ ∃ socket datagram destination, w' = (socket_send_to socket datagram destination NotEct w).2)) _ never); [| |done].
  { cbn [id]. destruct (tn_active t) as [a|] eqn:Hact; [|mwp_step; split_and!; auto]. unfold send_teardown.
    assert (returns (teardown (at_gateway a))) as Hte.
    { unfold teardown. destruct (gw_relay_endpoint (at_gateway a)); [|done]. cbn. destruct (gw_session (at_gateway a)) as [se|]; [|done]. cbn. by destruct (gs_gateway_endpoint se). }
    destruct (teardown (at_gateway a)) as [action|e| |]; try done; [|mwp_step; split_and!; auto]. unfold send_counted. mwp_step.
    destruct action as [destination datagram|? ? ? ? ? ?|? ?|? ?|]; cbn [send_action]; try (mwp_step; apply tcount_wp; [done|]; intros; split_and!; by auto).
    mwp_step. apply mwp_lift. eapply mwp_mono; [apply mwp_known, (socket_send_ok (at_socket a) datagram destination NotEct)|..].
    - intros n w1 [_ H1]. mwp_step. apply tcount_wp; [done|]. intros p1 Hp1. split_and!; try done. right. exists (at_socket a), datagram, destination. by rewrite H1.
    - intros e w1 [_ H1]. apply tcount_wp; [done|]. intros p1 Hp1. split_and!; try done. right. exists (at_socket a), datagram, destination. by rewrite H1. }
  intros [] [[t2 p2] w2] (-> & Hp2 & Hw2). mwp_step. apply schedule_failure_exact; [done|]. intros r w3 Hr Hpend. mwp_step.
  apply tcount_wp; [done|]. intros p3 Hp3. set (t3 := put_refresh _ t1).
  assert (tn_refresh t3 = r ∧ rf_pending r = rf_pending (tn_refresh t) ∧ tn_dns_candidates t3 = [] ∧ tn_no_relay_present t3 = true ∧
    tn_active t3 = None ∧ tn_probes t3 = [] ∧ tn_pending t3 = []) as (H1 & H2) by done. clearbody t3.
  change (tn_refresh t1) with (tn_refresh t) in Hr. rewrite <- H1 in Hr, H2.
  destruct withdrawal; [|mwp_step; split; [by exists w2|done]].
  mwp_step. apply tcount_wp; [done|]. intros p4 Hp4. apply tcount_wp; [done|]. intros p5 Hp5. split; [by exists w2|done].
Qed.

Lemma poll_refresh_wp t p w :
  tunnel_ok (logs w) t → plane_ok opened p →
  mwp poll_refresh (λ _ '((t', p'), w'), kept (logs w) t (logs w') t' ∧ plane_ok opened p' ∧ (tn_active t = None → tn_active t' = None)) never ((t, p), w).
Proof.
  intros Ht Hp. unfold poll_refresh. mwp_step. apply refresh_poll_wp. intros poll t1 w1 H1 Hq1.
  pose proof (same_core_kept _ _ t t1 Ht H1 Hq1) as Hk1. pose proof (proj1 Hk1) as Ht1. assert (tn_active t1 = tn_active t) as Ha1 by apply H1.
  assert (∀ L' t', kept (logs w1) t1 L' t' → kept (logs w) t L' t') as Htr by (intros; by eapply kept_trans).
  destruct poll as [| |[selections|error]].
  - mwp_step. split_and!; try done. by rewrite Ha1.
  - mwp_step. apply tcount_wp; [done|]. intros p2 Hp2. mwp_step. split_and!; try done. by rewrite Ha1.
  - mwp_step. eapply mwp_mono; [by apply accept_selections_wp| |done]. intros [] [[t2 p2] w2] (Hk & Hp2 & Ha). mwp_step.
    split_and!; [by apply Htr|done|congruence].
  - assert (mwp (_ ← schedule_failure; _ ← tcount driad_refreshes_failed 1; mret true)
      (λ _ '((t', p'), w'), kept (logs w) t (logs w') t' ∧ plane_ok opened p' ∧ (tn_active t = None → tn_active t' = None)) never ((t1, p), w1)) as Hfail.
    { mwp_step. apply schedule_failure_wp. intros t2 w2 H2 Hq2. mwp_step. apply tcount_wp; [done|]. intros p2 Hp2. mwp_step.
      split_and!; [by apply Htr, same_core_kept|done|]. destruct H2 as (_ & _ & _ & _ & _ & -> & _). congruence. }
    destruct error; try exact Hfail. mwp_step. eapply mwp_mono; [by apply withdraw_wp| |done].
    intros [] [[t2 p2] w2] (Hk & Hp2 & Ha). mwp_step. split_and!; [by apply Htr|done..].
Qed.
(** ** Sessions *)

Definition probe_session (L' : Logs) (p p' : DriadProbe) (outcome : DriadProbePoll) : Prop :=
  probe_ok L' p' ∧ pr_candidate p' = pr_candidate p ∧ pr_socket p' = pr_socket p ∧
  match outcome with ProbeWinner _ previous => is_Some (gw_session (pr_gateway p')) ∧ silent_teardown previous | _ => True end.

Lemma recv_wp socket (Q : list Z * SocketAddr * EcnCodepoint → State → Prop) (R : IoError → State → Prop) t p w :
  (∀ datagram peer ecn w', bytes datagram → quiet (logs w) (logs w') → Q (datagram, peer, ecn) ((t, p), w')) →
  (∀ e w', quiet (logs w) (logs w') → R e ((t, p), w')) →
  mwp (lift (socket_recv_from socket)) Q R ((t, p), w).
Proof.
  intros HQ HR. apply mwp_lift. eapply mwp_mono; [apply socket_recv_ok|..].
  - intros [[datagram peer] ecn] w' [? ?]. by apply HQ, same_quiet.
  - intros e w' ?. by apply HR, same_quiet.
Qed.

Lemma probe_loop_wp n : ∀ probe progress t p w,
  probe_ok (logs w) probe → plane_ok opened p →
  mwp (probe_loop n probe progress)
    (λ '(probe', outcome) '((t', p'), w'), t' = t ∧ plane_ok opened p' ∧ quiet (logs w) (logs w') ∧ probe_session (logs w') probe probe' outcome)
    (λ _ '((t', p'), w'), t' = t ∧ plane_ok opened p' ∧ quiet (logs w) (logs w')) ((t, p), w).
Proof.
  induction n as [|n IH]; intros probe progress t p w Hpr Hp; cbn [probe_loop]; [by mwp_step|]. mwp_step. apply recv_wp.
  2:{ intros [|e] w1 H1; mwp_step; split_and!; try done; split_and!; try done; by eapply probe_quiet. }
  intros datagram peer ecn w1 Hb H1. mwp_step. apply tcount_wp; [done|]. intros p1 Hp1.
  assert (probe_ok (logs w1) probe) as Hpr1 by by eapply probe_quiet.
  assert (∀ probe' progress t p w2, probe_ok (logs w2) probe' → pr_candidate probe' = pr_candidate probe → pr_socket probe' = pr_socket probe →
    plane_ok opened p → quiet (logs w1) (logs w2) → mwp (probe_loop n probe' progress)
    (λ '(probe', outcome) '((t', p'), w'), t' = t ∧ plane_ok opened p' ∧ quiet (logs w) (logs w') ∧ probe_session (logs w') probe probe' outcome)
    (λ _ '((t', p'), w'), t' = t ∧ plane_ok opened p' ∧ quiet (logs w) (logs w')) ((t, p), w2)) as Hnext.
  { intros probe' progress' t' p' w2 Hok Hc Hs Hpl Hq. eapply mwp_mono; [by apply (IH probe')|..].
    - intros [probe2 outcome] [[t2 p2] w3] (-> & ? & Hq3 & Hok2 & Hc2 & Hs2 & ?). split_and!; try done; [|split_and!; try done; congruence].
      etrans; [exact H1|]. by etrans.
    - intros e [[t2 p2] w3] (-> & ? & Hq3). split_and!; try done. etrans; [exact H1|]. by etrans. }
  pose proof (session_event (pr_gateway probe) peer datagram ecn (proj1 Hpr) Hb) as Hw.
  destruct (handle_datagram_with_ecn _ _ _ _) as [[g action]|e| |]; try done; cbn [wp] in *; cycle 1.
  { mwp_step. apply tcount_wp; [done|]. intros p2 Hp2. by apply Hnext. }
  destruct Hw as (Hg & Hr & _ & Hact). set (probe' := with_probe_gateway g probe).
  assert (probe_ok (logs w1) probe') as Hpr'.
  { destruct Hpr1 as (_ & He & Hsp). split_and!; [done|by cbn; rewrite Hr|]. by eapply speaks_frame. }
  destruct action; try by apply Hnext.
  - destruct Hact as [Hsil _]. mwp_step. apply socket_send_wp.
    + intros k w2 H2. assert (quiet (logs w1) (logs w2)) as Hq2 by (rewrite H2; by apply sent_on_quiet).
      mwp_step. apply tcount_wp; [done|]. intros p2 Hp2. mwp_step. apply tcount_wp; [done|]. intros p3 Hp3.
      apply Hnext; try done. by eapply probe_quiet.
    + intros e w2 H2%same_quiet. split_and!; try done. by etrans.
  - mwp_step. apply tcount_wp; [done|]. intros p2 Hp2. destruct limit; by mwp_step.
Qed.

(** What sending the desired memberships leaves; without success, nothing was asked for. *)
Definition resent (L L' : Logs) (desired : MembershipReport) (a a' : ActiveDriadTunnel) (ok : bool) : Prop :=
  gateway_ok (at_gateway a') ∧ at_socket a' = at_socket a ∧ moved [at_socket a] L [at_socket a] L' ∧
  if ok then active_session L' a' ∧ asks_for L' desired a' else quiet L L'.
Lemma send_driad_desired_wp desired a timeout t p w :
  active_session (logs w) a → source_report desired → plane_ok opened p → CLOCK_MAX + timeout <= INSTANT_MAX →
  mwp (send_driad_desired desired a timeout)
    (λ '(a', ok) '((t', p'), w'), t' = t ∧ plane_ok opened p' ∧ resent (logs w) (logs w') desired a a' ok) never ((t, p), w).
Proof.
  intros (Hg & Hs & log & Hlog & Hf) Hd Hp Hfit. unfold send_driad_desired.
  assert (∀ w', logs w' = logs w → ∀ g, gateway_ok g → resent (logs w) (logs w') desired a (with_active_gateway g a) false) as Hno.
  { intros w' Hw g Hg'. apply same_quiet in Hw. split_and!; try done. by apply quiet_moved. }
  pose proof (desired_replaced (at_gateway a) desired log Hg Hs Hd Hf) as Hw.
  destruct (replace_memberships _ _) as [[g action]|e| |]; try done; cbn [wp] in *.
  2:{ mwp_step. split_and!; try done. specialize (Hno w eq_refl (at_gateway a) Hg). by destruct a. }
  destruct Hw as (Hg' & Hs' & Hf' & Ht' & Hi). destruct action as [action|].
  - mwp_step. apply tunnel_send_wp; [|intros e w1 H1; mwp_step; split_and!; try done; by apply Hno].
    intros w1 H1. change (at_socket (with_active_gateway g a)) with (at_socket a) in H1.
    mwp_step. apply tnow_wp. intros now w2 _ H2. mwp_step. apply tnow_wp. intros now' w3 Hnow H3. mwp_step.
    apply instant_wp; [done|done|]. intros deadline. mwp_step. apply tcount_wp; [done|]. intros p1 Hp1. mwp_step. split_and!; try done.
    assert (quiet (logs w1) (logs w3)) as Hq by by etrans.
    assert (logs w1 !! at_socket a = Some (log ++ sends (Some action))) as Hl.
    { rewrite H1. unfold sent_on. rewrite lookup_alter_eq. by rewrite Hlog. }
    split_and!; try done.
    + apply (moved_trans _ [at_socket a] _ _ (logs w1)); [rewrite H1; apply sent_on_moved|by apply quiet_moved].
    + eapply session_quiet; [exact Hq|]. split_and!; try done. by exists (log ++ sends (Some action)).
    + eapply asks_for_quiet; [exact Hq|]. split; [done|]. by exists (log ++ sends (Some action)).
  - mwp_step. cbn [sends] in Hf', Ht'. rewrite app_nil_r in Hf', Ht'. split_and!; try done. split_and!; try done.
    + by apply quiet_moved.
    + split_and!; try done. by exists log.
    + split; [done|]. by exists log.
Qed.

Lemma next_traffic_timeout_wp (Q : Z → State → Prop) R t p w :
  (∀ n w', CLOCK_MAX + n <= INSTANT_MAX → quiet (logs w) (logs w') → Q n ((t, p), w')) → mwp next_traffic_timeout Q R ((t, p), w).
Proof. intros HQ. unfold next_traffic_timeout. mwp_step. apply tget_wp. mwp_step. apply tget_wp. by apply random_wp. Qed.
Lemma previous_teardown_wp socket previous (Q : unit → State → Prop) R t p w :
  silent_teardown previous → plane_ok opened p → (∀ p' w', plane_ok opened p' → quiet (logs w) (logs w') → Q tt ((t, p'), w')) →
  mwp match previous with
      | Some previous => send_counted socket (GSend (send_destination previous) (send_datagram previous)) gateway_teardowns_sent
      | None => mret tt
      end Q R ((t, p), w).
Proof. intros Hs Hp HQ. destruct previous; [apply send_counted_wp; auto|mwp_step; by apply HQ]. Qed.

(** ** Probes *)

Lemma own_updated t i probe probe' :
  tn_probes t !! i = Some probe → pr_socket probe' = pr_socket probe → own (put_probes (<[i := probe']> (tn_probes t)) t) = own t.
Proof.
  intros Hi Hs. unfold own. cbn. f_equal. rewrite list_fmap_insert, Hs. apply list_insert_id. by rewrite list_lookup_fmap, Hi.
Qed.
Lemma own_removed t i probe : tn_probes t !! i = Some probe → own (put_probes (swap_remove i (tn_probes t)) t) ⊆ own t.
Proof.
  intros Hi s. unfold own. cbn. pose proof (swap_remove_perm _ _ _ Hi) as Hp. rewrite !elem_of_app. intros [Hs|Hs]; [left|by right].
  rewrite <- Hp. by right.
Qed.
Lemma probe_updated L t i probe probe' :
  tunnel_ok L t → tn_active t = None → tn_probes t !! i = Some probe → probe_ok L probe' → pr_candidate probe' = pr_candidate probe →
  tunnel_ok L (put_probes (<[i := probe']> (tn_probes t)) t).
Proof.
  intros [] Ha Hi Hok Hc.
  assert (pr_candidate <$> <[i := probe']> (tn_probes t) = pr_candidate <$> tn_probes t) as Hcs.
  { rewrite list_fmap_insert, Hc. apply list_insert_id. by rewrite list_lookup_fmap, Hi. }
  assert (∀ P : DriadCandidate → Prop, Forall (λ x, P (pr_candidate x)) (tn_probes t) → Forall (λ x, P (pr_candidate x)) (<[i := probe']> (tn_probes t))) as Hall.
  { intros P. rewrite <- !(Forall_fmap pr_candidate P). by rewrite Hcs. }
  split; cbn; try done.
  - by apply Forall_insert.
  - unfold len. by rewrite length_insert.
  - unfold probe_relay. rewrite (list_fmap_compose pr_candidate candidate_relay), Hcs, <- list_fmap_compose. exact tk_distinct0.
  - by apply (Hall (λ c, tn_current_rank t = Some (rank c))).
  - rewrite Ha. done.
  - intros Hn. destruct (tk_withdrawn0 Hn) as (_ & Hp & _). by rewrite Hp in Hi.
  - intros Hn. destruct (tk_round0 Hn) as (_ & Hp & _). by rewrite Hp in Hi.
Qed.
Lemma probe_removed L t i probe :
  tunnel_ok L t → tn_active t = None → tn_probes t !! i = Some probe → tunnel_ok L (put_probes (swap_remove i (tn_probes t)) t).
Proof.
  intros [] Ha Hi. pose proof (swap_remove_perm _ _ _ Hi) as Hp. split; cbn; try done.
  - rewrite <- Hp, Forall_cons in tk_probes0. apply tk_probes0.
  - unfold len in *. pose proof (swap_remove_length _ _ _ Hi). lia.
  - rewrite <- Hp, fmap_cons, <- app_comm_cons, NoDup_cons in tk_distinct0. apply tk_distinct0.
  - rewrite <- Hp, Forall_cons in tk_rank0. apply tk_rank0.
  - by rewrite Ha.
  - intros Hn. destruct (tk_withdrawn0 Hn) as (_ & Hp' & _). by rewrite Hp' in Hi.
  - intros Hn. destruct (tk_round0 Hn) as (_ & Hp' & _). by rewrite Hp' in Hi.
Qed.

Lemma hold_candidate_wp candidate actual duration (Q : unit → State → Prop) R t p w :
  CLOCK_MAX + duration <= INSTANT_MAX → (∀ t' w', same_core t t' → quiet (logs w) (logs w') → Q tt ((t', p), w')) →
  mwp (hold_candidate candidate actual duration) Q R ((t, p), w).
Proof.
  intros Hfit HQ. unfold hold_candidate. mwp_step. apply tnow_wp. intros now w1 Hnow H1. mwp_step. apply instant_wp; [done|done|].
  intros expires. apply tset_wp. by apply HQ.
Qed.

Lemma cleared_ok L L' t : tunnel_ok L t → tn_active t = None → tunnel_ok L' (put_pending [] (put_probes [] t)).
Proof.
  intros [] Ha. split; cbn; try done; try by constructor.
  - unfold len in *. cbn in *. lia.
  - by rewrite Ha.
Qed.
Lemma activate_wp now probe interval previous t p w :
  tunnel_ok (logs w) t → tn_active t = None → tn_no_relay_present t = false → tn_retry_round_at t = None → probe_ok (logs w) probe →
  is_Some (gw_session (pr_gateway probe)) → silent_teardown previous → plane_ok opened p →
  mwp (activate now probe interval previous)
    (λ activated '((t', p'), w'), plane_ok opened p' ∧
       if activated then tunnel_ok (logs w') t' ∧ tn_settings t' = tn_settings t ∧ tn_desired t' = tn_desired t ∧
         moved (pr_socket probe :: own t) (logs w) (own t') (logs w')
       else t' = t ∧ quiet (logs w) (logs w')) never ((t, p), w).
Proof.
  intros Ht Ha Hn Hx (Hg & _ & Hsp) Hs Hprev Hp. unfold activate. mwp_step. apply previous_teardown_wp; [done|done|]. intros p1 w1 Hp1 H1.
  mwp_step. apply next_traffic_timeout_wp. intros timeout w2 Hfit H2. mwp_step. apply tget_wp. mwp_step.
  assert (quiet (logs w) (logs w2)) as Hq by by etrans.
  set (a := mkActive _ _ _ _ _ _ _). assert (active_session (logs w2) a) as Has by (split_and!; try done; by eapply speaks_quiet).
  eapply mwp_mono; [apply (send_driad_desired_wp _ a); [done|apply Ht|done|done]| |done].
  intros [a' ok] [[t3 p3] w3] (-> & Hp3 & Hg' & Hsock & Hmv & Hres). destruct ok.
  - destruct Hres as [Has' Hasks]. mwp_step. apply tset_wp. mwp_step. apply tcount_wp; [done|]. intros p4 Hp4. mwp_step. apply tset_wp. mwp_step.
    split; [done|]. split_and!; try done.
    + pose proof (cleared_ok (logs w) (logs w3) t Ht Ha) as Ht'.
      apply (idle_ok _ (put_pending [] (put_probes [] t))); try done. cbn. intros a'' [= <-]. by split_and!.
    + eapply moved_trans; [apply (quiet_moved _ (pr_socket probe :: own t)); [exact Hq|done]|]. eapply moved_weaken; [exact Hmv|..].
      * intros s ->%list_elem_of_singleton. by left.
      * unfold own. cbn. by rewrite Hsock.
  - mwp_step. apply tcount_wp; [done|]. intros p4 Hp4. mwp_step. apply tcount_wp; [done|]. intros p5 Hp5. mwp_step. split; [done|].
    split; [done|]. by etrans.
Qed.

Lemma probes_loop_wp fuel : ∀ now index progress t p w,
  tunnel_ok (logs w) t → tn_active t = None → plane_ok opened p → (index ≤ length (tn_probes t) < fuel + index)%nat →
  mwp (probes_loop fuel now index progress) (λ _ '((t', p'), w'), kept (logs w) t (logs w') t' ∧ plane_ok opened p') never ((t, p), w).
Proof.
  induction fuel as [|fuel IH]; intros now index progress t p w Ht Ha Hp Hf; cbn [probes_loop].
  { mwp_step. cbn. lia. }
  mwp_step. apply tget_wp. destruct (tn_probes t !! index) as [probe|] eqn:Hi; [|by mwp_step; split; [apply kept_quiet|]].
  pose proof (lookup_lt_Some _ _ _ Hi) as Hlt.
  assert (probe_ok (logs w) probe) as Hpr by by eapply (Forall_lookup_1 _ _ _ _ (tk_probes _ t Ht)).
  assert (∀ probe' t1 p1 w1 progress, probe_ok (logs w1) probe' → pr_candidate probe' = pr_candidate probe → pr_socket probe' = pr_socket probe →
    plane_ok opened p1 → same_core (put_probes (swap_remove index (<[index := probe']> (tn_probes t))) t) t1 → quiet (logs w) (logs w1) →
    mwp (probes_loop fuel now index progress) (λ _ '((t', p'), w'), kept (logs w) t (logs w') t' ∧ plane_ok opened p') never ((t1, p1), w1)) as Hremoved.
  { intros probe' t1 p1 w1 progress' Hpr' Hc Hsock Hp1 Hsame Hq1.
    assert (<[index := probe']> (tn_probes t) !! index = Some probe') as Hi' by by apply list_lookup_insert_eq.
    pose proof (tunnel_quiet _ _ _ Hq1 Ht) as Ht1.
    pose proof (probe_removed _ _ index probe' (probe_updated _ t index probe probe' Ht1 Ha Hi Hpr' Hc) Ha Hi') as Hok.
    pose proof (same_core_ok _ _ t1 Hok Hsame) as Hk. pose proof (swap_remove_length _ _ _ Hi') as Hlen. rewrite length_insert in Hlen.
    pose proof (own_removed (put_probes (<[index := probe']> (tn_probes t)) t) index probe' Hi') as Hown. rewrite (own_updated t index probe probe' Hi Hsock) in Hown.
    pose proof (same_core_own _ _ Hsame) as Ho1.
    destruct Hsame as (Hs & _ & _ & Hps & _ & Ha1 & Hd & _). cbn in Hps, Ha1, Hs, Hd.
    eapply mwp_mono; [apply IH; [done|congruence|done|rewrite Hps; lia]| |done].
    intros b [[t2 p2] w2] [(? & ? & ? & Hmv) ?]. split; [split_and!; [done|congruence..|]|done].
    eapply moved_trans; [|exact Hmv]. apply quiet_moved; [done|]. rewrite Ho1. exact Hown. }
  assert (∀ t, same_core t t) as Hrefl by done.
  mwp_step. eapply mwp_mono; [by apply probe_loop_wp|..]; cycle 1.
  { intros e [[t1 p1] w1] (-> & Hp1 & Hq1). mwp_step. apply tset_wp. mwp_step. apply tcount_wp; [done|]. intros p2 Hp2.
    mwp_step. apply tcount_wp; [done|]. intros p3 Hp3. apply (Hremoved probe); try done; [by eapply probe_quiet|]. by rewrite list_insert_id. }
  intros [probe' outcome] [[t1 p1] w1] (-> & Hp1 & Hq1 & Hpr' & Hc & Hsock & Hwin). mwp_step. apply tset_wp.
  pose proof (tunnel_quiet _ _ _ Hq1 Ht) as Ht1.
  destruct outcome as [progress'|relay| |interval previous].
  - destruct (_ <=? now).
    + mwp_step. apply tset_wp. mwp_step. apply tcount_wp; [done|]. intros p2 Hp2. by apply (Hremoved probe').
    + eapply mwp_mono; [apply IH; [by eapply probe_updated|done|done|cbn; rewrite length_insert; lia]| |done].
      intros b [[t2 p2] w2] [(? & ? & ? & Hmv) ?]. split; [|done]. split_and!; try done. eapply moved_trans; [|exact Hmv].
      apply quiet_moved; [done|]. by rewrite (own_updated t index probe probe').
  - mwp_step. apply tset_wp. mwp_step. apply tget_wp. mwp_step. apply hold_candidate_wp; [apply (tk_fit _ _ Ht)|]. intros t2 w2 H2 Hq2.
    mwp_step. apply tcount_wp; [done|]. intros p3 Hp3. apply (Hremoved probe'); try done; [by eapply probe_quiet|by etrans].
  - mwp_step. apply tset_wp. mwp_step. apply tcount_wp; [done|]. intros p2 Hp2. by apply (Hremoved probe').
  - mwp_step. apply tset_wp. mwp_step. cbn [tn_probes put_probes]. destruct Hwin as [Hsess Hprev].
    assert (<[index := probe']> (tn_probes t) !! index = Some probe') as Hi' by by apply list_lookup_insert_eq.
    pose proof (probe_removed _ _ index probe' (probe_updated _ t index probe probe' Ht1 Ha Hi Hpr' Hc) Ha Hi') as Hok.
    eapply mwp_mono; [apply activate_wp; [exact Hok|done| | |done..]| |done].
    + destruct (tn_no_relay_present t) eqn:Hn; [|done]. destruct (tk_withdrawn _ t Ht Hn) as (_ & He & _). by rewrite He in Hi.
    + apply eq_None_not_Some. intros Hx. destruct (tk_round _ t Ht Hx) as (_ & He & _). by rewrite He in Hi.
    + intros [] [[t2 p2] w2] (Hp2 & Hres).
      * destruct Hres as (? & ? & ? & Hmv). mwp_step. split; [|done]. split_and!; try done.
        eapply moved_trans; [|exact Hmv]. apply quiet_moved; [done|].
        pose proof (own_removed (put_probes (<[index := probe']> (tn_probes t)) t) index probe' Hi') as Hown.
        rewrite (own_updated t index probe probe' Hi Hsock) in Hown.
        intros s [->|Hs]%elem_of_cons; [|by apply Hown]. rewrite Hsock. unfold own. apply elem_of_app. left.
        apply list_elem_of_fmap_2. by eapply list_elem_of_lookup_2.
      * destruct Hres as [-> Hq2]. apply (Hremoved probe'); try done; [by eapply probe_quiet|by etrans].
Qed.
Lemma poll_probes_wp t p w :
  tunnel_ok (logs w) t → tn_active t = None → plane_ok opened p →
  mwp poll_probes (λ _ '((t', p'), w'), kept (logs w) t (logs w') t' ∧ plane_ok opened p') never ((t, p), w).
Proof.
  intros Ht Ha Hp. unfold poll_probes. mwp_step. apply tnow_wp. intros now w1 _ H1. mwp_step. apply tget_wp.
  eapply mwp_mono; [apply probes_loop_wp; [by eapply tunnel_quiet|done|done|lia]| |done].
  intros b [[t2 p2] w2] [Hk ?]. split; [|done]. eapply kept_trans; [|exact Hk]. by apply kept_quiet.
Qed.

Lemma new_probe_gateway relay protocol ecn w :
  ∃ g rng, ('(c, rng) ← new_gateway_config relay protocol (driad_nonces w).1; new_gateway (with_ecn c ecn) rng) = Ok (g, rng) ∧
    gateway_ok g ∧ gw_reception_state g = empty_state.
Proof.
  destruct (driad_nonces_ok w) as (Hwf & _ & n & n' & rng & rng' & Hn & Hn'). unfold new_gateway_config. rewrite Hn. cbn. rewrite Hn'. cbn.
  destruct (random_nonce_ok _ _ _ Hwf Hn) as [[Hu Hz] Hr]. destruct (random_nonce_ok _ _ _ Hr Hn') as [[Hu' Hz'] Hr'].
  set (c := with_ecn _ _). destruct (new_gateway c rng') as [[g rng2]|e| |] eqn:Hg.
  2-4: exfalso; unfold new_gateway, nonzero_or_random in Hg; cbn in Hg; rewrite (proj2 (Z.eqb_neq n 0)), (proj2 (Z.eqb_neq n' 0)) in Hg by done; done.
  exists g, rng2. split; [done|]. split; [by apply new_gateway_ok in Hg as [? _]|].
  unfold new_gateway in Hg. apply bind_ok_inv in Hg as ([n1 r1] & _ & Hg). apply bind_ok_inv in Hg as ([n2 r2] & _ & Hg). by injection Hg as <- _.
Qed.

(** A new socket is another tunnel's neither before nor after. *)
Lemma bind_moved S (L : Logs) socket : L !! socket = None → moved S L (S ++ [socket]) (<[socket := []]> L).
Proof.
  intros Hn. split.
  - intros s [Hs| ->%list_elem_of_singleton]%elem_of_app; auto.
  - intros s log Hs. exists log. split; [|done]. rewrite lookup_insert_ne; [done|]. intros ->. congruence.
Qed.
Lemma open_probe_wp now candidate t p w :
  tunnel_ok (logs w) t → plane_ok opened p →
  mwp (open_probe now candidate)
    (λ _ '((t', p'), w'), plane_ok opened p' ∧ tunnel_ok (logs w') t ∧ moved (own t) (logs w) (own t') (logs w') ∧
       (t' = t ∨ ∃ probe, probe_ok (logs w') probe ∧ pr_candidate probe = candidate ∧ t' = put_probes (tn_probes t ++ [probe]) t)) never ((t, p), w).
Proof.
  intros Ht Hp. unfold open_probe. mwp_step. apply tget_wp. mwp_step. apply mwp_lift. eapply mwp_mono; [apply socket_bind_ok|..].
  2:{ intros e w1 H1%same_quiet. apply tcount_wp; [done|]. intros p1 Hp1. split_and!; [done|by eapply tunnel_quiet|by apply quiet_moved|by left]. }
  intros socket w1 [Hnew H1].
  assert (∀ w2, quiet (logs w1) (logs w2) → tunnel_ok (logs w2) t ∧ moved (own t) (logs w) (own t ++ [socket]) (logs w2)) as Hafter.
  { intros w2 Hq. rewrite H1 in Hq. split.
    - eapply tunnel_quiet; [exact Hq|]. apply (tunnel_moved [] ([] ++ [socket]) (logs w)); [by apply bind_moved| |done]. intros s _ ?%elem_of_nil. done.
    - eapply moved_trans; [by apply bind_moved|]. by apply quiet_moved. }
  mwp_step. apply tread_wp. pose proof (driad_nonces_ok w1) as (_ & Hdr%same_quiet & _).
  destruct (new_probe_gateway (candidate_relay candidate) (st_protocol (tn_settings t)) (st_ecn (tn_settings t)) w1) as (g & rng & Hg & Hok & Hst).
  rewrite Hg. clear Hg. destruct (driad_nonces w1) as [rng1 w1']. cbn [fst snd] in *. mwp_step. apply silent_send_wp.
  - intros log. by apply discovery_asks_nothing.
  - intros w2 H2. assert (quiet (logs w1) (logs w2)) as Hq by by etrans. destruct (Hafter w2 Hq) as [Ht2 Hmv].
    mwp_step. apply tcount_wp; [done|]. intros p2 Hp2. mwp_step. apply tset_wp. apply tcount_wp; [done|]. intros p3 Hp3.
    split_and!; [done|done| |].
    + eapply moved_weaken; [exact Hmv|done|]. intros s. unfold own. cbn. rewrite fmap_app, !elem_of_app. cbn. tauto.
    + right. eexists. split; [|split; [|done]]; [|done]. split_and!; [done|done|]. cbn [pr_socket pr_gateway].
      eapply speaks_quiet; [exact Hq|]. exists []. split; [by rewrite H1, lookup_insert_eq|]. intros group source. unfold interested. by rewrite Hst.
  - intros e w2 H2. assert (quiet (logs w1) (logs w2)) as Hq by by etrans. destruct (Hafter w2 Hq) as [Ht2 Hmv].
    mwp_step. apply tcount_wp; [done|]. intros p2 Hp2. apply tcount_wp; [done|]. intros p3 Hp3. split_and!; [done|done| |by left].
    eapply moved_weaken; [exact Hmv|done|]. intros s Hs. apply elem_of_app. by left.
Qed.

Lemma candidate_taken L t candidate pending :
  tunnel_ok L t → tn_pending t = candidate :: pending → tunnel_ok L (put_pending pending t) ∧
  (∀ probe, probe_ok L probe → pr_candidate probe = candidate → len (tn_probes t) < st_max_concurrent_probes (tn_settings t) →
   tn_current_rank t = Some (rank candidate) → tunnel_ok L (put_probes (tn_probes t ++ [probe]) (put_pending pending t))).
Proof.
  intros [] Hq. assert (∀ a, tn_active t ≠ Some a) as Ha. { intros a Ha. destruct (tk_active0 a Ha) as (_ & _ & _ & H). congruence. }
  assert (tn_no_relay_present t ≠ true) as Hn. { intros Hn. destruct (tk_withdrawn0 Hn) as (_ & _ & H). congruence. }
  assert (¬ is_Some (tn_retry_round_at t)) as Hr. { intros Hr. destruct (tk_round0 Hr) as (_ & _ & H). congruence. }
  rewrite Hq in *. cbn in tk_distinct0. apply StronglySorted_inv in tk_sorted0 as [Hsort _].
  assert (∀ probe, probe_relay probe = candidate_relay candidate → NoDup ((probe_relay <$> tn_probes t ++ [probe]) ++ (candidate_relay <$> pending))) as Hnd.
  { intros probe Hc. rewrite fmap_app, <- app_assoc. cbn. by rewrite Hc. }
  split.
  - split; cbn; try done; [|by intros a ?%Ha].
    apply NoDup_app in tk_distinct0 as (H1 & H2 & H3). apply NoDup_app. split; [done|]. apply NoDup_cons in H3 as [_ H3]. split; [|done].
    intros x Hx Hx'. apply (H2 x Hx). by right.
  - intros probe Hpr <- Hlen Hrank. split; cbn; try done; [..|by intros a ?%Ha].
    + apply Forall_app. by split; [|constructor].
    + unfold len in *. rewrite length_app. cbn. lia.
    + by apply Hnd.
    + apply Forall_app. by split; [|constructor].
Qed.

Lemma launch_next_wp now t p w :
  now <= CLOCK_MAX → tunnel_ok (logs w) t → plane_ok opened p →
  mwp (launch_next now) (λ _ '((t', p'), w'), kept (logs w) t (logs w') t' ∧ plane_ok opened p') never ((t, p), w).
Proof.
  intros Hnow Ht Hp. assert (kept (logs w) t (logs w) t) as Hrefl by by apply kept_quiet.
  unfold launch_next. mwp_step. apply tget_wp. cbn [id]. destruct (_ <? _); [by mwp_step|].
  destruct (Z.leb_spec (st_max_concurrent_probes (tn_settings t)) (len (tn_probes t))) as [|Hroom]; [by mwp_step|].
  set (current := match tn_probes t with [] => _ | _ => _ end). mwp_step. apply tset_wp.
  set (t1 := put_current_rank current t). assert (tunnel_ok (logs w) t1) as Ht1.
  { destruct Ht. split; cbn; try done. unfold current. destruct (tn_probes t); [constructor|done]. }
  assert (kept (logs w) t (logs w) t1) as Hk1 by (split_and!; try done; by apply quiet_moved).
  change (tn_pending t) with (tn_pending t1). destruct (tn_pending t1) as [|candidate pending] eqn:Hq; [by mwp_step|].
  case_bool_decide as Hrank; cbn [negb]; [|by mwp_step]. mwp_step. apply tset_wp. mwp_step.
  destruct (candidate_taken _ t1 candidate pending Ht1 Hq) as [Htake _].
  eapply mwp_mono; [by apply open_probe_wp| |done]. intros [] [[t2 p2] w2] (Hp2 & Htp & Hmv & H2). mwp_step. apply instant_wp; [done|apply (tk_fit _ _ Ht)|].
  intros next. mwp_step. apply tset_wp. mwp_step. split; [|done].
  pose proof (tunnel_relog (logs w) (logs w2) t1 (put_pending pending t1) Ht1 Htp eq_refl eq_refl eq_refl) as Ht1'.
  destruct (candidate_taken _ t1 candidate pending Ht1' Hq) as [_ Hadd].
  assert (tunnel_ok (logs w2) t2 ∧ tn_settings t2 = tn_settings t ∧ tn_desired t2 = tn_desired t) as (Ht2 & Hs2 & Hd2).
  { destruct H2 as [->|(probe & Hpr & Hc & ->)]; [by split_and!|]. split_and!; try done. by apply Hadd. }
  split_and!; try done. destruct Ht2. by split.
Qed.

Lemma launch_probe_wp t p w :
  tunnel_ok (logs w) t → plane_ok opened p →
  mwp launch_probe_if_due (λ _ '((t', p'), w'), kept (logs w) t (logs w') t' ∧ plane_ok opened p') never ((t, p), w).
Proof.
  intros Ht Hp. unfold launch_probe_if_due. mwp_step. apply tnow_wp. intros now w1 Hnow H1. mwp_step. apply tget_wp.
  pose proof (tunnel_quiet _ _ _ H1 Ht) as Ht1. assert (kept (logs w) t (logs w1) t) as Hk1 by by apply kept_quiet.
  destruct (tn_retry_round_at t) as [retry_at|] eqn:Hr.
  2:{ eapply mwp_mono; [by apply launch_next_wp| |done]. intros b [[t3 p3] w3] [Hk ?]. split; [|done]. by eapply kept_trans. }
  destruct (_ <? _); [by mwp_step|].
  mwp_step. unfold rebuild_probe_queue. mwp_step. apply tnow_wp. intros now' w2 _ H2. apply tset_wp.
  assert (tn_active t = None) as Ha by (eapply tk_round; [done|by rewrite Hr]).
  destruct (rebuilt_frame now' t) as (Hs & Hd & _ & Ho).
  eapply mwp_mono; [apply launch_next_wp; [done|apply rebuilt_ok; [by eapply tunnel_quiet|done]|done]| |done].
  intros b [[t3 p3] w3] [(Hok & Hs3 & Hd3 & Hmv) Hp3]. split; [split_and!; [done|congruence..|]|done].
  eapply moved_trans; [|exact Hmv]. apply quiet_moved; [by etrans|]. by rewrite Ho.
Qed.

Lemma schedule_round_wp t p w :
  tunnel_ok (logs w) t → plane_ok opened p →
  mwp schedule_next_round_if_exhausted (λ _ '((t', p'), w'), kept (logs w) t (logs w') t' ∧ plane_ok opened p' ∧ trying t') never ((t, p), w).
Proof.
  intros Ht Hp. assert (kept (logs w) t (logs w) t) as Hrefl by by apply kept_quiet.
  unfold schedule_next_round_if_exhausted. mwp_step. apply tget_wp. cbn [id].
  destruct (_ || _) eqn:Hb.
  { mwp_step. split; [done|]. split; [done|]. rewrite !orb_true_iff, bool_decide_eq_true, !negb_true_iff in Hb. unfold trying.
    destruct Hb as [[[?|?]|Hb]|Hb]; [by left|by right; left|..]; right; right; [left|right; left]; intros He; by rewrite He in Hb. }
  apply orb_false_iff in Hb as [Hb Hq]. apply orb_false_iff in Hb as [Hb Hps]. apply orb_false_iff in Hb as [Hn Ha].
  apply negb_false_iff, is_empty_true in Hq, Hps. apply bool_decide_eq_false, eq_None_not_Some in Ha.
  destruct (tn_retry_round_at t) as [x|] eqn:Hr; [mwp_step; split_and!; try done; right; right; right; right; by rewrite Hr|].
  mwp_step. apply tnow_wp. intros now w1 _ H1. mwp_step. apply retry_delay_wp. intros delay w2 H2. apply tset_wp.
  assert (quiet (logs w) (logs w2)) as Hq2 by by etrans.
  split; [|split; [done|right; right; right; right; by eexists]]. split_and!; try done; [|by apply quiet_moved].
  apply (idle_ok _ t); try done; [by eapply tunnel_quiet|]. cbn. by rewrite Ha.
Qed.

(** ** The active tunnel *)

(** The state of a relay in use while it is polled: a failure may leave it behind the desired memberships. *)
Definition polled (L : Logs) t (a : ActiveDriadTunnel) (L' : Logs) t' p' a' (failed : bool) : Prop :=
  same_core t t' ∧ plane_ok opened p' ∧ gateway_ok (at_gateway a') ∧ at_socket a' = at_socket a ∧ moved [at_socket a] L [at_socket a] L' ∧
  (failed = false → active_session L' a' ∧ asks_for L' (tn_desired t) a').
Lemma polled_trans L L1 L2 t t1 t2 p1 p2 a a1 a2 failed failed' :
  polled L t a L1 t1 p1 a1 failed → polled L1 t1 a1 L2 t2 p2 a2 failed' → polled L t a L2 t2 p2 a2 failed'.
Proof.
  intros (H1 & _ & _ & Hs1 & Hm1 & _) (H2 & ? & ? & Hs2 & Hm2 & Ha). split_and!; try done; [by eapply same_core_trans|congruence|..].
  - rewrite Hs1 in Hm2. by eapply moved_trans.
  - destruct H1 as (_ & _ & _ & _ & _ & _ & Hd & _). by rewrite <- Hd.
Qed.
Definition failed (o : option DriadActiveFailure) : bool := bool_decide (is_Some o).
(** Nothing asked for, and the filter, the session and the socket as they were. *)
Lemma polled_quiet L L' t t' p' a a' failed :
  active_session L a → asks_for L (tn_desired t) a → same_core t t' → plane_ok opened p' → quiet L L' →
  gateway_ok (at_gateway a') → at_socket a' = at_socket a → gw_session (at_gateway a') = gw_session (at_gateway a) →
  gw_relay_endpoint (at_gateway a') = gw_relay_endpoint (at_gateway a) → gw_reception_state (at_gateway a') = gw_reception_state (at_gateway a) →
  polled L t a L' t' p' a' failed.
Proof.
  intros Has Hasks Hc Hp Hq Hg Hsock Hs Hr Hst. split_and!; try done; [by apply quiet_moved|]. intros _.
  apply (session_quiet L L' a Hq) in Has as (_ & Hsess & Hsp). apply (asks_for_quiet L L' _ a Hq) in Hasks as (Hi & log & Hl & Ht). split.
  - split_and!; [done|by rewrite Hs|]. rewrite Hsock. by eapply speaks_frame.
  - split; [intros; rewrite <- Hi; unfold interested; by rewrite Hst|]. exists log. rewrite Hsock. split; [done|]. by eapply told_frame.
Qed.

Lemma cycle_begun g w :
  gateway_ok g → is_Some (gw_session g) →
  wp (begin_query_cycle g (driad_nonces w).1)
    (λ '(g', action, _), gateway_ok g' ∧ silent action ∧ gw_session g' = gw_session g ∧ gw_relay_endpoint g' = gw_relay_endpoint g ∧
       gw_reception_state g' = gw_reception_state g) (λ _, True).
Proof.
  intros Hg Hs. destruct (driad_nonces_ok w) as (Hwf & _ & n & _ & rng & _ & Hn & _).
  destruct (begin_query_cycle g (driad_nonces w).1) as [[[g' action] rng']|e| |] eqn:Hb; [|done|..].
  2-3: exfalso; unfold begin_query_cycle in Hb; case_bool_decide; [done|]; rewrite Hn in Hb; cbn in Hb; unfold request in Hb; cbn in Hb;
    by destruct (gw_relay_endpoint g).
  pose proof (λ log, cycle_asks_nothing _ _ _ _ _ log Hg Hwf Hb) as Hc. destruct (Hc []) as (He & Hse & Hr & _).
  apply begin_query_cycle_ok in Hb as (Hok & _); [|done..]. split_and!; try done. intros log. apply Hc.
Qed.

Lemma refresh_active_wp now configured a t p w :
  active_session (logs w) a → asks_for (logs w) (tn_desired t) a → plane_ok opened p →
  mwp (refresh_active now configured a)
    (λ '(a', poll) '((t', p'), w'), polled (logs w) t a (logs w') t' p' a' (failed (ap_failure poll))) never ((t, p), w).
Proof.
  intros Has Hasks Hp. pose proof Has as (Hg & Hs & _). unfold refresh_active. set (due := match at_query_cycle_started a with Some _ => _ | None => _ end).
  assert (same_core t t) as Hrefl by done. destruct due; [|mwp_step; by apply polled_quiet].
  mwp_step. apply tread_wp. pose proof (cycle_begun (at_gateway a) w Hg Hs) as Hw. pose proof (driad_nonces_ok w) as (_ & Hdr%same_quiet & _).
  destruct (driad_nonces w) as [rng w1]. cbn [fst snd] in *.
  destruct (begin_query_cycle _ _) as [[[g action] rng']|e| |]; try done; cbn [wp] in Hw.
  - destruct Hw as (Hg' & Hsil & Hse & He & Hr).
    mwp_step. apply silent_send_wp; [done|..].
    + intros w2 H2. mwp_step. apply polled_quiet; try done. by etrans.
    + intros e w2 H2. mwp_step. apply tcount_wp; [done|]. intros p3 Hp3. mwp_step. apply polled_quiet; try done. by etrans.
  - mwp_step. by apply polled_quiet.
Qed.

(** A query leaves a session that the relay has yet to be told under. *)
Lemma answer_active_query_wp limit interval previous a t p w :
  active_session (logs w) a → source_report (tn_desired t) → silent_teardown previous → plane_ok opened p →
  mwp (answer_active_query limit interval previous a)
    (λ '(a', failure) '((t', p'), w'), polled (logs w) t a (logs w') t' p' a' (failed failure)) never ((t, p), w).
Proof.
  intros Ha Hd Hprev Hp. assert (same_core t t) as Hrefl by done. unfold answer_active_query. mwp_step. apply tcount_wp; [done|]. intros p1 Hp1.
  mwp_step. apply previous_teardown_wp; [done|done|]. intros p2 w2 Hp2 H2. destruct limit.
  { mwp_step. split_and!; try done; [apply Ha|by apply quiet_moved]. }
  mwp_step. apply next_traffic_timeout_wp. intros timeout w3 Hfit H3. mwp_step. apply tget_wp. mwp_step.
  assert (quiet (logs w) (logs w3)) as Hq by by etrans.
  eapply mwp_mono; [apply send_driad_desired_wp; [|done..]; apply (session_quiet _ _ a Hq Ha)| |done].
  intros [a' ok] [[t4 p4] w4] (-> & Hp4 & Hg' & Hsock & Hmv & Hres).
  assert (moved [at_socket a] (logs w) [at_socket a] (logs w4)) as Hm by (eapply moved_trans; [by apply quiet_moved|exact Hmv]).
  destruct ok.
  - mwp_step. apply tcount_wp; [done|]. intros p5 Hp5. mwp_step. by split_and!.
  - mwp_step. apply tcount_wp; [done|]. intros p5 Hp5. mwp_step. by split_and!.
Qed.

Lemma on_tunnel_plane_wp {A} (m : M (GatewayPlane C X) string A) (Q : A → State → Prop) R t p w :
  mwp m (λ _ p', plane_ok opened p') (λ _ _, False) p → (∀ a p', plane_ok opened p' → Q a ((t, p'), w)) →
  mwp (on_tunnel_plane (W:=W) m) Q R ((t, p), w).
Proof. unfold mwp, on_tunnel_plane. intros Hm HQ. destruct (m p) as [[a|e| |] p']; cbn in *; auto; done. Qed.

Lemma handle_active_datagram_wp peer datagram ecn a t p w :
  active_session (logs w) a → asks_for (logs w) (tn_desired t) a → source_report (tn_desired t) → plane_ok opened p → bytes datagram →
  mwp (handle_active_datagram peer datagram ecn a)
    (λ '(a', failure) '((t', p'), w'), polled (logs w) t a (logs w') t' p' a' (failed failure)) never ((t, p), w).
Proof.
  intros Has Hasks Hd Hp Hb. pose proof Has as (Hg & Hs & Hsp). assert (same_core t t) as Hrefl by done. unfold handle_active_datagram.
  mwp_step. apply tcount_wp; [done|]. intros p1 Hp1. pose proof (session_event (at_gateway a) peer datagram ecn Hg Hb) as Hw.
  destruct (handle_datagram_with_ecn _ _ _ _) as [[g action]|e| |]; try done; cbn [wp] in *.
  2:{ mwp_step. apply tcount_wp; [done|]. intros p2 Hp2. mwp_step. by apply polled_quiet. }
  destruct Hw as (Hg' & Hr & Hs' & Hact). specialize (Hs' Hs).
  destruct action as [destination reply|mac limit gateway query interval previous|packet ecn'|ecn' n|]; cbn [delivers] in Hact.
  - destruct Hact as [_ Hnone]. rewrite Hnone in Hs. by destruct Hs.
  - destruct Hact as [_ Hprev]. eapply mwp_mono; [apply (answer_active_query_wp limit interval previous (with_active_gateway g a)); try done| |done].
    + split_and!; try done. by eapply speaks_frame.
    + by intros [a' failure] [[t2 p2] w2] H.
  - destruct Hact as [Hbp ->]. mwp_step. apply on_tunnel_plane_wp; [by apply (record_multicast_wp opened published_packets)|]. intros [] p2 Hp2.
    mwp_step. apply tset_wp. mwp_step. by apply polled_quiet.
  - subst g. mwp_step. apply on_tunnel_plane_wp; [by apply (record_drop_wp opened)|]. intros [] p2 Hp2. mwp_step. by apply polled_quiet.
  - subst g. mwp_step. apply tcount_wp; [done|]. intros p2 Hp2. mwp_step. by apply polled_quiet.
Qed.

Lemma active_loop_wp n : ∀ a progress t p w,
  active_session (logs w) a → asks_for (logs w) (tn_desired t) a → source_report (tn_desired t) → plane_ok opened p →
  mwp (active_loop n a progress)
    (λ '(a', poll) '((t', p'), w'), polled (logs w) t a (logs w') t' p' a' (failed (ap_failure poll))) never ((t, p), w).
Proof.
  induction n as [|n IH]; intros a progress t p w Ha Hasks Hd Hp; cbn [active_loop]; [mwp_step; apply polled_quiet; try done; apply Ha|].
  mwp_step. apply recv_wp; [|intros [|e] w1 H1; mwp_step; apply polled_quiet; try done; apply Ha]. intros datagram peer ecn w1 Hb H1. mwp_step.
  assert (polled (logs w) t a (logs w1) t p a false) as Hq1 by (apply polled_quiet; try done; apply Ha).
  assert (active_session (logs w1) a ∧ asks_for (logs w1) (tn_desired t) a) as [Ha1 Hasks1] by by apply Hq1.
  eapply mwp_mono; [by apply handle_active_datagram_wp| |done]. intros [a' failure] [[t2 p2] w2] H2. eapply polled_trans in H2; [|exact Hq1].
  destruct failure as [failure|]; [by mwp_step|]. pose proof H2 as (Hc2 & Hp2 & _ & _ & _ & Hok2). destruct (Hok2 eq_refl) as [Ha2 Hasks2].
  destruct Hc2 as (_ & _ & _ & _ & _ & _ & Hd2 & _).
  eapply mwp_mono; [apply IH; rewrite ?Hd2; done| |done]. intros [a3 poll] [[t3 p3] w3] H3. by eapply polled_trans.
Qed.

Lemma poll_active_wp a configured t p w :
  active_session (logs w) a → asks_for (logs w) (tn_desired t) a → source_report (tn_desired t) → plane_ok opened p →
  mwp (poll_active a configured)
    (λ '(a', poll) '((t', p'), w'), polled (logs w) t a (logs w') t' p' a' (failed (ap_failure poll))) never ((t, p), w).
Proof.
  intros Ha Hasks Hd Hp. unfold poll_active. mwp_step. apply tnow_wp. intros now w1 _ H1. mwp_step.
  assert (polled (logs w) t a (logs w1) t p a false) as Hq1 by (apply polled_quiet; try done; apply Ha).
  assert (active_session (logs w1) a ∧ asks_for (logs w1) (tn_desired t) a) as [Ha1 Hasks1] by by apply Hq1.
  eapply mwp_mono; [by apply refresh_active_wp| |done]. intros [a2 [progress2 f2]] [[t2 p2] w2] H2; cbn [ap_failure] in *.
  eapply polled_trans in H2; [|exact Hq1]. destruct f2 as [f2|]; [by mwp_step|]. pose proof H2 as (Hc2 & Hp2 & _ & _ & _ & Hok2).
  destruct (Hok2 eq_refl) as [Ha2 Hasks2]. destruct Hc2 as (_ & _ & _ & _ & _ & _ & Hd2 & _). mwp_step.
  eapply mwp_mono; [apply active_loop_wp; rewrite ?Hd2; done| |done]. intros [a3 [progress3 f3]] [[t3 p3] w3] H3. eapply polled_trans in H3; [|exact H2].
  destruct f3 as [f3|]; cbn [ap_failure] in *; [by mwp_step|]. mwp_step.
  apply (mwp_mono _ (λ _ '((t', p'), w'), polled (logs w) t a (logs w') t' p' a3 false) _ never); [| |done].
  { destruct (at_query_cycle_started a3) as [started|]; [|by mwp_step]. mwp_step. apply tnow_wp. intros now' w4 _ H4. mwp_step.
    pose proof H3 as (Hc3 & Hp3 & Hg3 & _ & _ & Hok3). destruct (Hok3 eq_refl) as [Ha3 Hasks3]. destruct Hc3 as (_ & _ & _ & _ & _ & _ & Hd3 & _).
    eapply polled_trans; [exact H3|]. rewrite <- Hd3 in Hasks3. by apply polled_quiet. }
  intros timed_out [[t4 p4] w4] H4. destruct timed_out.
  - mwp_step. destruct H4 as (?&?&?&?&?&?). by split_and!.
  - destruct (is_some_and _ _); mwp_step; destruct H4 as (?&?&?&?&?&?); by split_and!.
Qed.

Lemma fail_active_wp a failure t p w :
  tunnel_ok (logs w) t → tn_active t = None → gateway_ok (at_gateway a) → plane_ok opened p →
  mwp (fail_active a failure) (λ _ '((t', p'), w'), kept (logs w) t (logs w') t' ∧ plane_ok opened p' ∧ tn_active t' = None) never ((t, p), w).
Proof.
  intros Ht Ha Hg Hp. unfold fail_active. mwp_step. apply send_teardown_wp; [done|done|]. intros p1 w1 Hp1 H1. mwp_step. apply tget_wp. mwp_step.
  destruct (tk_fit _ _ Ht) as (_ & Hhold & Htraffic).
  apply (mwp_mono _ (λ _ '((t', p'), w'), same_core t t' ∧ plane_ok opened p' ∧ quiet (logs w) (logs w')) _ never); [| |done].
  - destruct failure.
    + mwp_step. apply tcount_wp; [done|]. intros p2 Hp2. apply hold_candidate_wp; [done|]. intros t2 w2 H2 Hq2. split_and!; try done. by etrans.
    + by apply tcount_wp.
    + mwp_step. apply tcount_wp; [done|]. intros p2 Hp2. mwp_step. apply hold_candidate_wp; [done|]. intros t2 w2 H2 Hq2. apply tset_wp.
      split_and!; try done. by etrans.
  - intros [] [[t2 p2] w2] (H2 & Hp2 & Hq2). unfold rebuild_probe_queue. mwp_step. apply tnow_wp. intros now w3 _ H3. apply tset_wp.
    pose proof (same_core_kept _ _ t t2 Ht H2 Hq2) as (Hok & Hs & Hd & _). assert (tn_active t2 = None) as Ha2 by (rewrite <- Ha; apply H2).
    destruct (rebuilt_frame now t2) as (Hs' & Hd' & Ha' & Ho'). split; [split_and!; [|congruence..|]|split; [done|congruence]].
    + eapply tunnel_quiet; [exact H3|]. by apply rebuilt_ok.
    + apply quiet_moved; [by etrans|]. by rewrite Ho', (same_core_own _ _ H2).
Qed.

(** ** The tunnel *)

(** A tunnel with a relay does nothing else. *)
Lemma active_alone L t a :
  tunnel_ok L t → tn_active t = Some a →
  (∀ L', tunnel_ok L' (put_active None t)) ∧ tn_probes t = [] ∧ tn_pending t = [] ∧ tn_no_relay_present t = false ∧ tn_retry_round_at t = None ∧ own t = [at_socket a].
Proof.
  intros Ht Ha. destruct (tk_active _ t Ht a Ha) as (_ & _ & Hp & Hq). split_and!; try done.
  - intros L'. destruct Ht. split; cbn; try done. by rewrite Hp.
  - destruct (tn_no_relay_present t) eqn:Hn; [|done]. destruct (tk_withdrawn _ t Ht Hn). congruence.
  - apply eq_None_not_Some. intros Hr. destruct (tk_round _ t Ht Hr). congruence.
  - unfold own. by rewrite Hp, Ha.
Qed.
Lemma desired_put L t desired : tunnel_ok L t → tn_active t = None → source_report desired → tunnel_ok L (put_desired desired t).
Proof. intros [] Ha Hd. split; cbn; try done. by rewrite Ha. Qed.

Lemma poll_wp configured t p w :
  tunnel_ok (logs w) t → plane_ok opened p →
  mwp (poll configured)
    (λ _ '((t', p'), w'), kept (logs w) t (logs w') t' ∧ plane_ok opened p' ∧ (tn_active t = None → trying t')) never ((t, p), w).
Proof.
  intros Ht Hp. unfold poll. mwp_step. eapply mwp_mono; [by apply poll_refresh_wp| |done].
  intros refreshed [[t1 p1] w1] (Hk1 & Hp1 & Ha1). pose proof (proj1 Hk1) as Ht1. mwp_step. apply tget_wp.
  destruct (tn_active t1) as [a|] eqn:Ha.
  - assert (tn_active t ≠ None) as Hne by (intros H; by apply Ha1 in H).
    destruct (active_alone _ t1 a Ht1 Ha) as (Hok & Hps & Hq & Hn & Hr & Hown). destruct (tk_active _ t1 Ht1 a Ha) as (Has & Hasks & _).
    mwp_step. apply tset_wp. mwp_step. eapply mwp_mono; [apply poll_active_wp; [done|done|apply Ht1|done]| |done].
    intros [a2 [progress failure]] [[t2 p2] w2] (H2 & Hp2 & Hg2 & Hsock2 & Hmv2 & Hok2). mwp_step.
    pose proof (same_core_ok _ _ t2 (Hok (logs w2)) H2) as Ht2.
    assert (tn_settings t2 = tn_settings t ∧ tn_desired t2 = tn_desired t) as [Hs2 Hd2].
    { destruct Hk1 as (_ & Hs1 & Hd1 & _). destruct H2 as (Hs2 & _ & _ & _ & _ & _ & Hd2 & _). cbn in Hs2, Hd2. split; congruence. }
    assert (moved (own t) (logs w) [at_socket a] (logs w2)) as Hmv.
    { destruct Hk1 as (_ & _ & _ & Hm1). rewrite Hown in Hm1. by eapply moved_trans. }
    apply (mwp_mono _ (λ _ '((t', p'), w'), kept (logs w) t (logs w') t' ∧ plane_ok opened p') _ never); [| |done].
    2:{ intros [] [[t3 p3] w3] [? ?]. by mwp_step. }
    destruct H2 as (_ & Hq2 & _ & Hps2 & Hn2 & Ha2 & Hdd2 & Hr2). cbn in Hq2, Hps2, Hn2, Ha2, Hdd2, Hr2.
    cbn [ap_failure] in *. destruct failure as [failure|].
    + eapply mwp_mono; [apply fail_active_wp; [done|congruence|done|done]| |done]. intros [] [[t3 p3] w3] ((Ht3 & Hs3 & Hd3 & Hm3) & Hp3 & _).
      split; [|done]. split_and!; [done|congruence..|]. eapply moved_trans; [exact Hmv|]. eapply moved_weaken; [exact Hm3| |done].
      unfold own. rewrite Hps2, Hps, Ha2. cbn. intros s ?%elem_of_nil. done.
    + apply tset_wp. split; [|done]. destruct (Hok2 eq_refl) as [Has2 Hasks2]. split_and!; [|done|done|].
      * apply (idle_ok _ t2); try done; [by cbn; rewrite Hps2|by cbn; rewrite Hq2|].
        cbn. intros a' [= <-]. split; [congruence|]. split; [congruence|]. split; [done|]. rewrite Hdd2. done.
      * unfold own. cbn. rewrite Hps2, Hps. cbn. by rewrite Hsock2.
  - mwp_step. eapply mwp_mono; [by apply poll_probes_wp| |done]. intros probed [[t2 p2] w2] [Hk2 Hp2].
    mwp_step. eapply mwp_mono; [apply launch_probe_wp; [apply Hk2|done]| |done]. intros launched [[t3 p3] w3] [Hk3 Hp3].
    mwp_step. eapply mwp_mono; [apply schedule_round_wp; [apply Hk3|done]| |done]. intros [] [[t4 p4] w4] (Hk4 & Hp4 & Htry). mwp_step.
    split; [|done]. exact (kept_trans _ _ _ _ _ _ Hk1 (kept_trans _ _ _ _ _ _ Hk2 (kept_trans _ _ _ _ _ _ Hk3 Hk4))).
Qed.

Lemma set_desired_wp desired t p w :
  tunnel_ok (logs w) t → source_report desired → plane_ok opened p →
  mwp (set_desired desired)
    (λ _ '((t', p'), w'), tunnel_ok (logs w') t' ∧ tn_settings t' = tn_settings t ∧ tn_desired t' = desired ∧ plane_ok opened p' ∧
       moved (own t) (logs w) (own t') (logs w')) never ((t, p), w).
Proof.
  intros Ht Hd Hp. unfold set_desired. mwp_step. apply tget_wp. case_bool_decide as Heq; [mwp_step; split_and!; try done; by apply quiet_moved|].
  mwp_step. apply tset_wp. mwp_step. apply next_traffic_timeout_wp. intros timeout w1 Hfit H1. mwp_step. apply tget_wp. cbn [tn_active put_desired].
  pose proof (tunnel_quiet _ _ _ H1 Ht) as Ht1.
  destruct (tn_active t) as [a|] eqn:Ha; [|mwp_step; split_and!; try done; [by apply desired_put|by apply quiet_moved]].
  destruct (active_alone _ t a Ht Ha) as (Hok & Hps & Hq & Hn & Hr & Hown). destruct (tk_active _ t Ht1 a Ha) as (Has & _).
  mwp_step. apply tset_wp. set (t1 := put_active None _). assert (∀ L, tunnel_ok L t1) as Htt by (intros L; by apply (desired_put _ (put_active None t))).
  mwp_step. eapply mwp_mono; [by apply send_driad_desired_wp| |done]. intros [a2 ok] [[t2 p2] w2] (-> & Hp2 & Hg2 & Hsock & Hmv & Hres).
  assert (moved (own t) (logs w) [at_socket a] (logs w2)) as Hm.
  { rewrite Hown. eapply moved_trans; [by apply quiet_moved|exact Hmv]. }
  destruct ok.
  - destruct Hres as [Has2 Hasks2]. apply tset_wp. split_and!; try done.
    + apply (idle_ok _ t1); try done. cbn. intros a' [= <-]. by split_and!.
    + assert (own (put_active (Some a2) t1) = [at_socket a]) as ->; [|done]. unfold own. cbn. rewrite Hps. cbn. by rewrite Hsock.
  - mwp_step. apply tcount_wp; [done|]. intros p3 Hp3. eapply mwp_mono; [by apply fail_active_wp| |done].
    intros [] [[t4 p4] w4] ((? & ? & ? & Hm4) & ? & _). split_and!; try done. eapply moved_trans; [exact Hm|].
    eapply moved_weaken; [exact Hm4| |done]. unfold own. cbn. rewrite Hps. intros s ?%elem_of_nil. done.
Qed.

Lemma shutdown_tunnel_wp t p w :
  tunnel_ok (logs w) t → plane_ok opened p →
  mwp shutdown (λ _ '((t', p'), w'), kept (logs w) t (logs w') t' ∧ plane_ok opened p' ∧ tn_active t' = None ∧ tn_probes t' = []) never ((t, p), w).
Proof.
  intros Ht Hp. unfold shutdown. mwp_step. apply tget_wp. mwp_step. apply tset_wp. mwp_step.
  apply (mwp_mono _ (λ _ '((t', p'), w'), t' = put_active None t ∧ plane_ok opened p' ∧ quiet (logs w) (logs w')) _ never); [| |done].
  { destruct (tn_active t) as [a|] eqn:Ha; [|by mwp_step]. destruct (tk_active _ t Ht a Ha) as ((Hg & _) & _). by apply send_teardown_wp. }
  intros [] [[t2 p2] w2] (-> & Hp2 & Hq). apply tset_wp. split; [|done]. split_and!; try done; [|apply quiet_moved; [done|by intros s ?%elem_of_nil]].
  destruct Ht. split; cbn; try done.
  - unfold len in *. cbn. lia.
  - by apply NoDup_app in tk_distinct0 as (_ & _ & ?).
  - intros H. by destruct (tk_withdrawn0 H) as (_ & _ & ?).
  - intros H. by destruct (tk_round0 H) as (_ & _ & ?).
Qed.
End invariant.

Lemma new_tunnel_ok L now source protocol ecn config workers desired :
  source_report desired → instants_fit (tn_settings (new_tunnel now source protocol ecn config workers desired)) →
  tunnel_ok L (new_tunnel now source protocol ecn config workers desired).
Proof.
  intros Hd Hf. apply rebuilt_ok; [|done]. unfold new_tunnel in Hf. rewrite (proj1 (rebuilt_frame _ _)) in Hf.
  split; cbn; try done; try constructor. unfold len. cbn. lia.
Qed.
Lemma new_tunnel_frame now source protocol ecn config workers desired :
  let t := new_tunnel now source protocol ecn config workers desired in
  st_source (tn_settings t) = source ∧ tn_desired t = desired ∧ own t = [] ∧
  st_happy_eyeballs_delay (tn_settings t) = gdr_happy_eyeballs_delay config ∧ st_relay_hold_down (tn_settings t) = gdr_relay_hold_down config ∧
  st_traffic_hold_down (tn_settings t) = gdr_traffic_hold_down config.
Proof. unfold new_tunnel. set (t := mkTunnel _ _ _ _ _ _ _ _ _ _ _ _ _ _). destruct (rebuilt_frame now t) as (-> & -> & _ & ->). done. Qed.

(** * The properties *)

(** C33: a new queue of candidates holds each usable relay once: a relay is queued exactly when the anycast addresses or the records of
    the source name it, its address family can be bound, it is not held down, and it is not being probed; the
    candidates are in the order of their ranks, anycast first and then by precedence, and the first may be probed at once. *)
Theorem probe_queue_exact now t :
  tn_no_relay_present t = false →
  let t' := rebuilt now t in
  (∀ relay, relay ∈ (candidate_relay <$> tn_pending t') ↔
     (st_use_anycast (tn_settings t) = true ∧ relay ∈ [sock_new (V6 AMT_ANYCAST_IPV6) AMT_PORT; sock_new (V4 AMT_ANYCAST_IPV4) AMT_PORT] ∨
      relay ∈ (ds_relay <$> tn_dns_candidates t)) ∧
     address_family_allowed (tn_settings t) (sock_ip relay) = true ∧ (∀ expires, tn_hold_downs t !! relay = Some expires → expires <= now) ∧
     relay ∉ (probe_relay <$> tn_probes t)) ∧
  NoDup (candidate_relay <$> tn_pending t') ∧ sorted_by (λ c, rank_key (rank c)) (tn_pending t') ∧
  tn_next_probe_at t' = now ∧ tn_retry_round_at t' = None.
Proof.
  intros Hn t'. unfold t', rebuilt. cbn [tn_no_relay_present put_hold_downs]. rewrite Hn. cbn [tn_pending tn_next_probe_at tn_retry_round_at
    put_retry_round_at put_next_probe_at put_current_rank put_pending]. set (holds := filter _ _).
  destruct (queue_spec (put_hold_downs holds t) holds) as (H1 & H2 & _ & H4). split_and!; try done. intros relay. rewrite H4. clear H1 H2 H4.
  cbn [tn_settings tn_probes tn_dns_candidates put_hold_downs].
  assert (holds !! relay = None ↔ ∀ expires, tn_hold_downs t !! relay = Some expires → expires <= now) as ->.
  { unfold holds. rewrite map_lookup_filter_None. split.
    - intros [H|H] e He; [congruence|]. specialize (H e He). cbn in H. lia.
    - intros H. destruct (tn_hold_downs t !! relay) as [e|]; [|by left]. right. intros e' [= <-]. specialize (H e eq_refl). cbn. lia. }
  assert (address_family_allowed (tn_settings t) (sock_ip relay) = true →
    relay ∈ (candidate_relay <$> all_candidates (put_hold_downs holds t)) ↔
    st_use_anycast (tn_settings t) = true ∧ relay ∈ [sock_new (V6 AMT_ANYCAST_IPV6) AMT_PORT; sock_new (V4 AMT_ANYCAST_IPV4) AMT_PORT] ∨
      relay ∈ (ds_relay <$> tn_dns_candidates t)) as Hc; [|tauto].
  intros Hf. unfold all_candidates. rewrite fmap_app, elem_of_app. cbn [tn_settings tn_dns_candidates put_hold_downs].
  rewrite <- list_fmap_compose. change (candidate_relay ∘ λ s, mkCandidate s SourceDns) with ds_relay. f_equiv.
  destruct (st_use_anycast (tn_settings t)); [|split; [by intros ?%elem_of_nil|by intros []]].
  unfold anycast_candidates. rewrite <- list_fmap_compose. rewrite list_elem_of_fmap.
  split.
  - intros (a & -> & [_ Ha]%list_elem_of_filter). split; [done|].
    apply elem_of_cons in Ha as [->|Ha]; [by left|]. apply list_elem_of_singleton in Ha as ->. by right; left.
  - intros [_ Ha]. apply elem_of_cons in Ha as [->|Ha]; [|apply list_elem_of_singleton in Ha as ->]; eexists; (split; [|apply list_elem_of_filter; split; [exact Hf|]]); try done; [by left|by right; left].
Qed.

(** C34: what an answer of the name service does. Relays that were found replace the candidates and end a withdrawal, without touching a
    relay in use; that the source has no relay takes away candidates, probes and the relay in use; and any other failure leaves the
    tunnel with the relays it had. In each case the next refresh is scheduled from the clock's reading at that point: after an answer, when
    the smallest time to live has passed, at least a second and at most a day ahead; after a failure, after the delay drawn for the
    number of attempts so far, at least a second and at most two minutes ahead. *)
Theorem resolution_applied {C X W} `{!RawContext C X} `{!DriadWorld W} opened (logs : W → Logs) `{!DriadWorldOk logs}
    (t : DriadSourceTunnel) (p : GatewayPlane C X) (w : W) receiver result :
  plane_ok opened p → 0 <= rf_retry_attempt (tn_refresh t) →
  rf_pending (tn_refresh t) = Some receiver → (channel_try_recv receiver w).1 = ChannelResult result →
  let w0 := (channel_try_recv receiver w).2 in
  mwp poll_refresh
    (λ progress '((t', p'), _),
       progress = true ∧ rf_pending (tn_refresh t') = None ∧
       match result with
       | inl selections =>
           (∃ w1 delay, (w1 = w0 ∨ w1 = (dnow w0).2) ∧ refresh_after selections delay ∧ rf_next_refresh (tn_refresh t') = (dnow w1).1 + delay) ∧
           rf_retry_attempt (tn_refresh t') = 0 ∧
           tn_dns_candidates t' = selections ∧ tn_no_relay_present t' = false ∧ tn_active t' = tn_active t ∧ tn_probes t' = tn_probes t
       | inr NoRelayPresent =>
           (∃ w1, (w1 = w0 ∨ ∃ socket datagram destination, w1 = (socket_send_to socket datagram destination NotEct w0).2) ∧
              retry_scheduled w1 (tn_refresh t) (tn_refresh t')) ∧
           tn_dns_candidates t' = [] ∧ tn_no_relay_present t' = true ∧ tn_active t' = None ∧ tn_probes t' = [] ∧ tn_pending t' = []
       | inr _ => retry_scheduled w0 (tn_refresh t) (tn_refresh t') ∧ tn_dns_candidates t' = tn_dns_candidates t ∧ same_core t t'
       end)
    (λ _ _, False) ((t, p), w).
Proof.
  intros Hp Hatt Hpend Hres w0. unfold poll_refresh, refresh_poll. mwp_step. mwp_step. apply tget_wp. rewrite Hpend. mwp_step. apply tread_wp.
  rewrite Hres. fold w0. clearbody w0. clear Hres w. mwp_step. apply tset_wp. mwp_step.
  set (t1 := put_refresh _ t). assert (rf_pending (tn_refresh t1) = None ∧ rf_retry_attempt (tn_refresh t1) = rf_retry_attempt (tn_refresh t) ∧
    tn_dns_candidates t1 = tn_dns_candidates t ∧ same_core t t1) as (Hp1 & Ha1 & Hd1 & Hc1) by done.
  assert (∀ w1 r, retry_scheduled w1 (tn_refresh t1) r → retry_scheduled w1 (tn_refresh t) r) as Hsched by (intros w1 r; unfold retry_scheduled; by rewrite Ha1).
  clearbody t1. clear Hpend.
  destruct result as [selections|error].
  - mwp_step. eapply mwp_mono; [by apply (accept_selections_exact opened)| |done]. intros [] [[t2 p2] w2] (H1 & H2 & H3 & H4 & H5 & H6 & H7). mwp_step.
    destruct Hc1 as (_ & _ & _ & Hps & _ & Hac & _). split_and!; try done; congruence.
  - rewrite <- Ha1 in Hatt. destruct error; try (mwp_step; apply (schedule_failure_exact logs); [done|]; intros r w2 Hr Hpr; mwp_step;
      apply tcount_wp with (opened:=opened); [done|]; intros p2 Hp2; mwp_step; split_and!; try done; [cbn; congruence|by apply Hsched]).
    mwp_step. eapply mwp_mono; [by apply (withdraw_exact opened logs)| |done]. intros [] [[t2 p2] w2] ((w1 & Hw1 & Hr) & Hpr & H). mwp_step. split; [done|].
    split; [congruence|]. split; [|exact H]. exists w1. auto.
Qed.

(** a tunnel can be polled at any time: a poll never panics, hangs or fails, as long as the configured durations leave an instant; it keeps the
    tunnel in order (its probes, at most the configured number, are for distinct relays of one rank, none of them queued again; a relay in use was
    asked, in the datagrams on its socket, for exactly what is
    desired and nothing else is tried beside it; a withdrawn source uses no relay), it leaves the settings and the
    desired memberships alone, and a tunnel that had no relay has one afterwards, or looks for one, or has scheduled the next round,
    unless its source has none. *)
Theorem tunnel_polls {C X W} `{!RawContext C X} `{!DriadWorld W} opened published_packets
    `{!RawContextLaws opened published_packets} (logs : W → Logs) `{!DriadWorldOk logs} configured (t : DriadSourceTunnel) (p : GatewayPlane C X) (w : W) :
  tunnel_ok (logs w) t → plane_ok opened p →
  mwp (poll configured)
    (λ _ '((t', p'), w'), tunnel_ok (logs w') t' ∧ plane_ok opened p' ∧ tn_settings t' = tn_settings t ∧ tn_desired t' = tn_desired t ∧
       (tn_active t = None → trying t'))
    (λ _ _, False) ((t, p), w).
Proof.
  intros Ht Hp. eapply mwp_mono; [by apply (poll_wp opened published_packets logs)| |done]. by intros b [[t' p'] w'] ((? & ? & ? & ?) & ? & ?).
Qed.

(** * Witnesses *)

(** A world with datagrams waiting, and one relay for every source. *)
Record driad_demo := mkDriadDemo {
  dq_clock : Z;
  dq_workers : Z;
  dq_inbox : list (list Z * SocketAddr);
  dq_logs : gmap Z (list (list Z * SocketAddr))
}.
Definition demo_selection (n : Z) : DriadRelaySelection :=
  mkSelection (demo_source 2) [] (mkAmtRelay 10 false (Ipv4Target (mkIpv4 203 0 113 n))) (demo_relay_addr n) (from_secs 300).
Definition next_socket (L : Logs) : Z := 1 + map_fold (λ socket _ highest, Z.max socket highest) 0 L.
#[export] Instance driad_demo_world : DriadWorld driad_demo := {|
  dnow w := (Z.min (dq_clock w) CLOCK_MAX, w);
  driad_nonces w := ([Some 11; Some 12], w);
  driad_random w := (Some 12345, w);
  socket_bind _ _ w :=
    let socket := next_socket (dq_logs w) in
    (Ok socket, mkDriadDemo (dq_clock w) (dq_workers w) (dq_inbox w) (<[socket := []]> (dq_logs w)));
  socket_recv_from _ w :=
    match dq_inbox w with
    | [] => (Err WouldBlock, w)
    | (datagram, peer) :: inbox =>
        (Ok (map (λ b, b mod 256) datagram, peer, NotEct), mkDriadDemo (dq_clock w) (dq_workers w) inbox (dq_logs w))
    end;
  socket_send_to socket datagram destination _ w :=
    (Ok (len datagram), mkDriadDemo (dq_clock w) (dq_workers w) (dq_inbox w) (sent_on socket (GSend destination datagram) (dq_logs w)));
  pool_update f w :=
    match f (dq_workers w) with
    | Some n => (true, mkDriadDemo (dq_clock w) n (dq_inbox w) (dq_logs w))
    | None => (false, w)
    end;
  pool_release w := mkDriadDemo (dq_clock w) (dq_workers w - 1) (dq_inbox w) (dq_logs w);
  spawn_resolver _ _ w := (Ok 0, w);
  channel_try_recv _ w := (ChannelResult (inl [demo_selection 1]), w)
|}.
Lemma next_socket_fresh (L : Logs) : L !! next_socket L = None.
Proof.
  assert (∀ s, is_Some (L !! s) → s < next_socket L) as H.
  { unfold next_socket. induction L as [|s log L Hn Hfold IH] using map_first_key_ind; [by intros s []|]. intros s' Hs.
    rewrite map_fold_insert_first_key by done. destruct (decide (s' = s)) as [->|Hne]; [lia|]. rewrite lookup_insert_ne in Hs by done. specialize (IH s' Hs). lia. }
  apply eq_None_not_Some. intros Hs%H. lia.
Qed.
#[export] Instance driad_demo_ok : DriadWorldOk dq_logs.
Proof.
  split; try done.
  - intros w. split; [cbn; lia|done].
  - intros w. split; [do 2 (apply Forall_cons; split; [by intros n [= <-]|]); by apply Forall_nil|]. split; [done|]. by exists 11, 12, [Some 12], [].
  - intros address ecn w. split; [apply next_socket_fresh|done].
  - intros socket w. unfold mwp. cbn. destruct (dq_inbox w) as [|[datagram peer] inbox]; [done|]. split; [apply mod_bytes|done].
  - intros f w. cbn. by destruct (f (dq_workers w)).
Qed.

Definition demo_driad (use_anycast : bool) : GatewayDriadConfig :=
  let c := new_gateway_driad_config (new_resolver_config [SocketAddrV4 Ipv4_LOCALHOST 53]) in
  mkGatewayDriadConfig (gdr_resolver c) None use_anycast (gdr_happy_eyeballs_delay c) (gdr_relay_hold_down c) (gdr_traffic_hold_down c)
    (gdr_initial_traffic_timeout c) (gdr_maximum_traffic_timeout c) (gdr_max_source_tunnels c) (gdr_max_concurrent_probes c) (gdr_max_dns_workers c).
Definition demo_source_report : MembershipReport := mkReport Igmpv3 [mkRecord ModeIsInclude demo_group [demo_source 2]].
Definition demo_tunnel (use_anycast : bool) : DriadSourceTunnel :=
  new_tunnel 0 (demo_source 2) Igmpv3 false (demo_driad use_anycast) 8 demo_source_report.

Lemma demo_source_report_ok : source_report demo_source_report.
Proof. split; repeat constructor; decide_ok. Qed.
Lemma demo_fits use_anycast : instants_fit (tn_settings (demo_tunnel use_anycast)).
Proof.
  pose proof (new_tunnel_frame 0 (demo_source 2) Igmpv3 false (demo_driad use_anycast) 8 demo_source_report) as (_ & _ & _ & H1 & H2 & H3).
  unfold instants_fit, demo_tunnel. rewrite H1, H2, H3. split_and!; apply Z.leb_le; by vm_compute.
Qed.
Lemma demo_tunnel_ok L use_anycast : tunnel_ok L (demo_tunnel use_anycast).
Proof.
  exact (new_tunnel_ok L 0 (demo_source 2) Igmpv3 false (demo_driad use_anycast) 8 demo_source_report demo_source_report_ok (demo_fits use_anycast)).
Qed.

(** Two relays, of which one is held down. *)
Definition demo_held : DriadSourceTunnel :=
  put_hold_downs {[demo_relay_addr 1 := 100]} (put_dns_candidates [demo_selection 1; demo_selection 2] (demo_tunnel false)).
Lemma probe_queue_exact_witness :
  demo_relay_addr 2 ∈ (candidate_relay <$> tn_pending (rebuilt 50 demo_held)) ∧
  (demo_relay_addr 1 ∉ (candidate_relay <$> tn_pending (rebuilt 50 demo_held))) ∧
  demo_relay_addr 1 ∈ (candidate_relay <$> tn_pending (rebuilt 100 demo_held)).
Proof.
  destruct (probe_queue_exact 50 demo_held eq_refl) as (H1 & _). destruct (probe_queue_exact 100 demo_held eq_refl) as (H2 & _). split_and!.
  - apply H1. split_and!; [|done| |by intros ?%elem_of_nil].
    + right. right. by left.
    + intros e He. by vm_compute in He.
  - intros (_ & _ & H & _)%H1. specialize (H 100 eq_refl). lia.
  - apply H2. split_and!; [|done| |by intros ?%elem_of_nil].
    + right. by left.
    + intros e He. vm_compute in He. injection He as <-. done.
Defined.

(** A tunnel that starts with the anycast addresses. *)
Definition demo_plane : GatewayPlane demo_raw string := mkPlane None no_counts (new_gateway_log 0).
Definition demo_driad_world : driad_demo := mkDriadDemo 0 0 [] ∅.
Lemma tunnel_polls_witness :
  let '(r, ((t', p'), w')) := poll (from_secs 60) ((demo_tunnel true, demo_plane), demo_driad_world) in
  r = Ok true ∧ map probe_relay (tn_probes t') = [SocketAddrV6 AMT_ANYCAST_IPV6 AMT_PORT 0 0] ∧ tunnel_ok (dq_logs w') t' ∧ trying t'.
Proof.
  assert (let '(r, ((t', p'), w')) := poll (from_secs 60) ((demo_tunnel true, demo_plane), demo_driad_world) in
    (r, map probe_relay (tn_probes t'), tn_active (demo_tunnel true)) = (Ok true, [SocketAddrV6 AMT_ANYCAST_IPV6 AMT_PORT 0 0], None)) as Hrun by by vm_compute.
  pose proof (demo_tunnel_ok (dq_logs demo_driad_world) true) as Ht. revert Ht Hrun. generalize (demo_tunnel true) as t, demo_driad_world as w. intros t w Ht Hrun.
  pose proof (tunnel_polls dr_opened dr_sent dq_logs (from_secs 60) t demo_plane w Ht ltac:(done)) as H.
  unfold mwp in H. destruct (poll (from_secs 60) _) as [r [[t' p'] w']]. injection Hrun as -> Hpr Ha. cbn [wp fst snd] in H.
  destruct H as (Hok & _ & _ & _ & Htry). exact (conj eq_refl (conj Hpr (conj Hok (Htry Ha)))).
Defined.

(** A tunnel that waits for the name service. *)
Definition demo_waiting : DriadSourceTunnel :=
  put_refresh (set_refresh 0 (Some 0) 0 (tn_refresh (demo_tunnel false))) (demo_tunnel false).
Lemma resolution_applied_witness :
  let '(r, ((t', p'), w')) := poll_refresh ((demo_waiting, demo_plane), demo_driad_world) in
  r = Ok true ∧ tn_dns_candidates t' = [demo_selection 1] ∧ rf_next_refresh (tn_refresh t') = from_secs 300.
Proof.
  assert (let '(r, ((t', p'), w')) := poll_refresh ((demo_waiting, demo_plane), demo_driad_world) in
    (r, rf_pending (tn_refresh demo_waiting), rf_retry_attempt (tn_refresh demo_waiting), rf_next_refresh (tn_refresh t')) =
    (Ok true, Some 0, 0, from_secs 300)) as Hrun by by vm_compute.
  revert Hrun. generalize demo_waiting as t. intros t Hrun.
  assert (0 <= rf_retry_attempt (tn_refresh t) ∧ rf_pending (tn_refresh t) = Some 0) as [Hatt Hpend].
  { destruct (poll_refresh _) as [r [[t' p'] w']]. injection Hrun as _ -> -> _. done. }
  pose proof (resolution_applied dr_opened dq_logs t demo_plane demo_driad_world 0 (inl [demo_selection 1]) ltac:(done) Hatt Hpend eq_refl) as H.
  unfold mwp in H. destruct (poll_refresh _) as [r [[t' p'] w']]. injection Hrun as -> _ _ Hnext. cbn [wp fst snd] in H.
  destruct H as (_ & _ & _ & _ & Hdns & _). exact (conj eq_refl (conj Hdns Hnext)).
Defined.

(** * Observations *)

(** A relay that advertises an interval of zero seconds is queried on every poll, whatever refresh interval is configured; the gateway with
    a fixed relay takes the configured interval then. *)
Lemma zero_interval_never_rests {C X W} `{!RawContext C X} `{!DriadWorld W} opened (logs : W → Logs) `{!DriadWorldOk logs}
    now configured (a : ActiveDriadTunnel) (t : DriadSourceTunnel) (p : GatewayPlane C X) (w : W) :
  active_session (logs w) a → plane_ok opened p → at_effective_refresh_interval a = 0 → at_query_cycle_started a = None → 0 <= configured →
  mwp (refresh_active now configured a) (λ '(_, poll) _, ap_made_progress poll = true) (λ _ _, False) ((t, p), w) ∧
  effective_refresh_interval_for configured (at_effective_refresh_interval a) = configured.
Proof.
  intros (Hg & Hs & _) Hp Hi Hc Hconf. unfold effective_refresh_interval_for. rewrite Hi. split; [|done].
  unfold refresh_active. rewrite Hc, Hi, Z.min_l by done. rewrite (proj2 (Z.leb_le _ _)) by (unfold elapsed, saturating_sub; lia).
  mwp_step. apply mwp_lift, mwp_act. pose proof (cycle_begun logs (at_gateway a) w Hg Hs) as Hw.
  destruct (begin_query_cycle _ _) as [[[g action] rng]|e| |]; try done. mwp_step. apply (tunnel_send_wp logs); [by intros; mwp_step|].
  intros e w2 _. mwp_step. apply (tcount_wp opened); [done|]. intros p3 Hp3. by mwp_step.
Qed.

(** A relay that a loaded probe was redirected to is held down, and yet the next one to be probed: the queue is not rebuilt, and it
    holds the relay already. The first of two relays sends the gateway to the second, which answers with the L flag. *)
Definition demo_two_relays : DriadSourceTunnel :=
  rebuilt 0 (put_refresh (set_refresh (from_secs 3600) None 0 (tn_refresh (demo_tunnel false)))
    (put_dns_candidates [demo_selection 1; demo_selection 2] (demo_tunnel false))).
Definition demo_redirected : driad_demo :=
  mkDriadDemo (from_secs 1) 0
    [(encode (RelayAdvertisement 11 (V4 (mkIpv4 203 0 113 2))), demo_relay_addr 1);
     (encode (MembershipQuery demo_session_mac 12 true None (general_query_packet Igmpv3 for_amt)), demo_relay_addr 2)] ∅.
Lemma held_relay_still_probed :
  let '(r1, ((t1, p1), _)) := poll (from_secs 60) ((demo_two_relays, demo_plane), demo_driad_world) in
  let '(r2, ((t2, _), _)) := poll (from_secs 60) ((t1, p1), demo_redirected) in
  r1 = Ok true ∧ r2 = Ok true ∧
  tn_hold_downs t2 !! demo_relay_addr 2 = Some (from_secs 601) ∧ map probe_relay (tn_probes t2) = [demo_relay_addr 2].
Proof. vm_compute. done. Qed.
