(* ===== verification/DriadDaemon.v ===== *)
(** The gateway that discovers relays by source, [run_driad_gateway] of [src/daemon.rs]: one tunnel for each source that
    is asked for, as many as the configuration allows. *)

From stdpp Require Import strings.
From S2P Require Import Prelude Net Effects Protocol Ip Query Membership Text Dns Candidates Driad State Relay Ecn Gateway LocalMembership Desired Downstream Metrics RelayDaemon GatewayPlane GatewayDaemon GatewayLoop DriadTunnel DriadRun.

Record DriadDaemon (C X : Type) := mkDriadDaemon {
  dd_tunnels : gmap IpAddr DriadSourceTunnel;
  dd_local : option LocalMembershipManager;
  dd_plane : GatewayPlane C X;
  dd_last_local_query : option Z;
  dd_last_local_prune : Z;
  dd_interest_warnings : Z * Z
}.
Arguments mkDriadDaemon {_ _} _ _ _ _ _ _.
Arguments dd_tunnels {_ _} _.
Arguments dd_local {_ _} _.
Arguments dd_plane {_ _} _.
Arguments dd_last_local_query {_ _} _.
Arguments dd_last_local_prune {_ _} _.
Arguments dd_interest_warnings {_ _} _.

Section set.
Context {C X : Type}.
Implicit Types d : DriadDaemon C X.
Definition put_tunnels (v : gmap IpAddr DriadSourceTunnel) d : DriadDaemon C X :=
  mkDriadDaemon v (dd_local d) (dd_plane d) (dd_last_local_query d) (dd_last_local_prune d) (dd_interest_warnings d).
Definition put_local (m : LocalMembershipManager) d : DriadDaemon C X :=
  mkDriadDaemon (dd_tunnels d) (Some m) (dd_plane d) (dd_last_local_query d) (dd_last_local_prune d) (dd_interest_warnings d).
Definition put_plane (p : GatewayPlane C X) d : DriadDaemon C X :=
  mkDriadDaemon (dd_tunnels d) (dd_local d) p (dd_last_local_query d) (dd_last_local_prune d) (dd_interest_warnings d).
Definition put_last_local_query (t : Z) d : DriadDaemon C X :=
  mkDriadDaemon (dd_tunnels d) (dd_local d) (dd_plane d) (Some t) (dd_last_local_prune d) (dd_interest_warnings d).
Definition put_last_local_prune (t : Z) d : DriadDaemon C X :=
  mkDriadDaemon (dd_tunnels d) (dd_local d) (dd_plane d) (dd_last_local_query d) t (dd_interest_warnings d).
Definition put_interest_warnings (v : Z * Z) d : DriadDaemon C X :=
  mkDriadDaemon (dd_tunnels d) (dd_local d) (dd_plane d) (dd_last_local_query d) (dd_last_local_prune d) v.
Definition dcount (c : Counter) (n : Z) d : DriadDaemon C X := put_plane (pcount c n (dd_plane d)) d.
End set.

Inductive DriadFailure := TunnelFailed (error : string) | DriadLocalFailed (error : LocalMembershipError string).

(** What the loop asks of its surroundings beside its tunnels. *)
Class DriadLoopWorld (W : Type) := {
  driad_local_incoming : W → list (string + option (list Z)) * W;
  driad_emit_metrics : GatewayMetricsGauges → AmtMetricsCounters → W → bool * W;
  driad_shutdown_requested : W → bool * W;
  driad_sleep : Z → W → W
}.

Section operations.
Context {C X W : Type} `{!RawContext C X} `{!DriadWorld W} `{!DriadLoopWorld W}.
Abbreviation Code A := (M (DriadDaemon C X * W) DriadFailure A).

Definition dclock : Code Z := lift (act dnow).
(** A method of a tunnel, and the tunnel it leaves. *)
Definition run_tunnel {A} (t : DriadSourceTunnel) (m : M ((DriadSourceTunnel * GatewayPlane C X) * W) string A) : Code (A * DriadSourceTunnel) :=
  λ '(d, w),
    let '(r, ((t, p), w)) := m ((t, dd_plane d), w) in
    (map_err TunnelFailed (a ← r; Ok (a, t)), (put_plane p d, w)).
Definition store_tunnel (source : IpAddr) (t : DriadSourceTunnel) : Code unit :=
  modify (λ d, put_tunnels (<[source := t]> (dd_tunnels d)) d).

(** ** Tunnels follow the desired memberships *)

Fixpoint remove_tunnels (sources : list IpAddr) : Code unit :=
  match sources with
  | [] => mret tt
  | source :: sources =>
      tunnels ← gets dd_tunnels;
      _ ← match tunnels !! source with
          | Some t => _ ← modify (put_tunnels (delete source tunnels)); _ ← run_tunnel t shutdown; mret tt
          | None => mret tt
          end;
      remove_tunnels sources
  end.
(** [for (source, report) in reports]: how many sources are over the limit. *)
Fixpoint place_reports (protocol : MembershipProtocol) (ecn : bool) (config : GatewayDriadConfig) (reports : list (IpAddr * MembershipReport))
    (over_limit : Z) : Code Z :=
  match reports with
  | [] => mret over_limit
  | (source, report) :: reports =>
      tunnels ← gets dd_tunnels;
      match tunnels !! source with
      | Some t =>
          '(_, t) ← run_tunnel t (set_desired report);
          _ ← store_tunnel source t;
          place_reports protocol ecn config reports over_limit
      | None =>
          if gdr_max_source_tunnels config <=? map_len tunnels then place_reports protocol ecn config reports (over_limit + 1)
          else
            now ← dclock;
            _ ← store_tunnel source (new_tunnel now source protocol ecn config (new_worker_pool (gdr_max_dns_workers config)) report);
            place_reports protocol ecn config reports over_limit
      end
  end.
Definition reconcile_driad_tunnels (protocol : MembershipProtocol) (ecn : bool) (config : GatewayDriadConfig) (joins : list GatewayJoin) : Code unit :=
  local ← gets dd_local;
  let '(reports, unsupported) := desired_driad_reports protocol joins local in
  tunnels ← gets dd_tunnels;
  _ ← remove_tunnels (filter (λ source, reports !! source = None) (btree_keys tunnels));
  over_limit ← place_reports protocol ecn config (btree_iter reports) 0;
  warnings ← gets dd_interest_warnings;
  if negb (bool_decide ((unsupported, over_limit) = warnings)) then modify (put_interest_warnings (unsupported, over_limit)) else mret tt.

(** ** Local hosts *)

Definition on_driad_plane {A} (m : M (GatewayPlane C X) DriadFailure A) : Code A :=
  λ '(d, w), let '(r, p) := m (dd_plane d) in (r, (put_plane p d, w)).
Definition query_driad_hosts : Code bool :=
  local ← gets dd_local;
  match local with
  | None => mret false
  | Some local =>
      match lc_query_interval (lm_config local) with
      | None => mret false
      | Some interval =>
          last ← gets dd_last_local_query;
          query_due ← match last with Some last => t ← dclock; mret (interval <=? elapsed t last) | None => mret true end;
          if (query_due : bool) then
            _ ← on_driad_plane (query_hosts local);
            t ← dclock;
            _ ← modify (put_last_local_query t);
            mret true
          else mret false
      end
  end.

(** [local.try_recv()]. *)
Definition driad_receive_local (m : LocalMembershipManager) :
    M (DriadDaemon C X * W) (LocalMembershipError string) (option LocalMembershipEvent) :=
  λ '(d, w),
    let '(incoming, w) := driad_local_incoming w in
    let '(t, w) := dnow w in
    let '(m, r) := try_recv t m incoming in
    (r, (put_local m d, w)).
Fixpoint drain_local_membership_state (n : nat) (events : Z) : Code Z :=
  match n with
  | O => mret events
  | S n =>
      local ← gets dd_local;
      match local with
      | None => mret events
      | Some m =>
          catch (driad_receive_local m)
            (λ event, match event with
                      | Some _ => _ ← modify (dcount local_membership_reports 1); drain_local_membership_state n (events + 1)
                      | None => mret events
                      end)
            (λ error,
              if is_parse_error error then _ ← modify (dcount local_membership_parse_errors 1); drain_local_membership_state n (events + 1)
              else fail (DriadLocalFailed error))
      end
  end.
Definition follow_local_hosts (reconcile : Code unit) : Code bool :=
  local ← gets dd_local;
  match local with
  | None => mret false
  | Some _ =>
      events ← drain_local_membership_state MAX_LOCAL_MEMBERSHIP_DRAIN 0;
      _ ← (if negb (events =? 0) then reconcile else mret tt);
      t ← dclock;
      last ← gets dd_last_local_prune;
      if LOCAL_REPORTER_PRUNE_INTERVAL <=? elapsed t last then
        local ← gets dd_local;
        match local with
        | None => mret (negb (events =? 0))
        | Some m =>
            t ← dclock;
            let '(m, expired) := prune_stale_reporters_at m t in
            _ ← modify (put_local m);
            _ ← (if negb (expired =? 0) then reconcile else mret tt);
            t ← dclock;
            _ ← modify (put_last_local_prune t);
            mret (negb (events =? 0) || negb (expired =? 0))
        end
      else mret (negb (events =? 0))
  end.

(** ** The loop *)

(** [for tunnel in tunnels.values_mut()]. *)
Fixpoint poll_tunnels (refresh_interval : Z) (tunnels : list (IpAddr * DriadSourceTunnel)) (made_progress : bool) : Code bool :=
  match tunnels with
  | [] => mret made_progress
  | (source, t) :: tunnels =>
      '(progress, t) ← run_tunnel t (poll refresh_interval);
      _ ← store_tunnel source t;
      poll_tunnels refresh_interval tunnels (made_progress || progress)
  end.
Fixpoint shutdown_tunnels (tunnels : list (IpAddr * DriadSourceTunnel)) : Code unit :=
  match tunnels with
  | [] => mret tt
  | (source, t) :: tunnels => '(_, t) ← run_tunnel t shutdown; _ ← store_tunnel source t; shutdown_tunnels tunnels
  end.
(** The sum of [hold_down_count] over the tunnels. *)
Fixpoint held_down (tunnels : list DriadSourceTunnel) : Code Z :=
  match tunnels with
  | [] => mret 0
  | t :: tunnels => now ← dclock; rest ← held_down tunnels; mret (hold_down_count now t + rest)
  end.
Definition is_active (t : DriadSourceTunnel) : bool := bool_decide (is_Some (tn_active t)).
Definition report_driad (config : GatewayDaemonConfig) : Code bool :=
  tunnels ← gets (λ d, (btree_iter (dd_tunnels d)).*2);
  held ← held_down tunnels;
  counters ← gets (λ d, gp_counters (dd_plane d));
  emitted ← lift (act (driad_emit_metrics
    (mkGatewayGauges (existsb is_active tunnels) (bool_decide (is_Some (gdc_downstream config)))
       (bool_decide (is_Some (gdc_local_membership config))) (len (gdc_joins config)) (len tunnels)
       (len (filter (λ t, is_active t = true) tunnels)) (foldr Z.add 0 ((λ t, len (tn_probes t)) <$> tunnels)) held) counters));
  t ← dclock;
  _ ← on_driad_plane (change (plog (λ l, (maybe_emit_gateway_log t l).2)));
  mret emitted.

(** One turn: whether the daemon returns. *)
Definition driad_turn (config : GatewayDaemonConfig) (driad : GatewayDriadConfig) : Code bool :=
  stop ← lift (act driad_shutdown_requested);
  tunnels ← gets dd_tunnels;
  if (stop : bool) then _ ← shutdown_tunnels (btree_iter tunnels); mret true
  else
    queried ← query_driad_hosts;
    followed ← follow_local_hosts
      (reconcile_driad_tunnels (gc_protocol (gdc_gateway config)) (gc_ecn (gdc_gateway config)) driad (gdc_joins config));
    tunnels ← gets dd_tunnels;
    polled ← poll_tunnels (default DEFAULT_MEMBERSHIP_REFRESH_INTERVAL (gdc_membership_refresh_interval config)) (btree_iter tunnels) false;
    emitted ← report_driad config;
    _ ← (if queried || followed || polled || emitted then mret tt else lift (act (λ w, (tt, driad_sleep IDLE_SLEEP w))));
    mret false.
Fixpoint driad_loop (turns : nat) (config : GatewayDaemonConfig) (driad : GatewayDriadConfig) : Code bool :=
  match turns with
  | O => mret false
  | S turns =>
      stopped ← driad_turn config driad;
      if (stopped : bool) then mret true else driad_loop turns config driad
  end.
Definition run_driad_gateway (turns : nat) (config : GatewayDaemonConfig) (driad : GatewayDriadConfig) : Code bool :=
  _ ← reconcile_driad_tunnels (gc_protocol (gdc_gateway config)) (gc_ecn (gdc_gateway config)) driad (gdc_joins config);
  driad_loop turns config driad.
End operations.

(** What is set up before the first reconciliation; the gateway is only for the flags of the metrics. *)
Definition start_driad {C X} `{!RawContext C X} (t : Z) (context : C) (rng : draws) (config : GatewayDaemonConfig) (driad : GatewayDriadConfig) :
    res (GatewayStartError X) (DriadDaemon C X) :=
  _ ← map_err StartConfiguration (validate_gateway_daemon (C:=C) (X:=X) config);
  _ ← map_err StartConfiguration (validate_gateway_driad driad);
  downstream ← map_err StartDownstream (initialize_downstream (gdc_downstream config) context (gc_protocol (gdc_gateway config)));
  '(_, _) ← map_err StartGateway (new_gateway (gdc_gateway config) rng);
  Ok (mkDriadDaemon ∅ (new_manager <$> gdc_local_membership config) (mkPlane downstream no_counts (new_gateway_log t)) None t (0, 0)).
