(* ===== verification/DriadDaemonRun.v ===== *)
(** The gateway with discovery by source keeps one tunnel for each desired source, and each tunnel asks its relay for exactly the
    groups in which its source is desired. *)

From stdpp Require Import strings.
From S2P Require Import Prelude Net Effects Protocol Ip Query Membership Text Dns Candidates Driad State Relay Ecn Gateway LocalMembership Desired Downstream Metrics RelayDaemon Asked GatewayPlane GatewayDaemon GatewayLoop GatewayRun DriadTunnel DriadRun DriadDaemon.

(** * The reports of the sources *)

(** A source is desired by itself in a source-specific group: some join names it or some host's report includes it, and neither a join nor a
    host's report asks for the group without naming its sources. *)
Definition desired_by_source (joins : list GatewayJoin) (local : option LocalMembershipManager) (group source : IpAddr) : Prop :=
  is_ssm_multicast_group group = true ∧ (joins_want joins group source ∨ hosts_want local group source) ∧
  ¬ joins_exclude joins group ∧ ¬ hosts_exclude local group.

Section reports.
Context (protocol : MembershipProtocol) (joins : list GatewayJoin).
Definition source_reports (local : option LocalMembershipManager) : gmap IpAddr MembershipReport := (desired_driad_reports protocol joins local).1.

Lemma source_reports_spec local s report :
  source_reports local !! s = Some report →
  (∀ r, r ∈ rep_records report ↔
     ∃ r0, r0 ∈ rep_records (desired_membership_report protocol joins local) ∧ supported r0 = true ∧ s ∈ rec_sources r0 ∧
       r = mkRecord ModeIsInclude (rec_group r0) [s]).
Proof.
  unfold source_reports, desired_driad_reports. destruct (foldl split_record (∅, 0) _) as [m n] eqn:Hm. cbn [fst]. rewrite lookup_fmap.
  destruct (split_records _ m n Hm) as (H1 & _ & _). destruct (m !! s) as [rs|] eqn:Hs; [|done]. intros [= <-] r. cbn [rep_records].
  specialize (H1 s r). by rewrite Hs in H1.
Qed.
Lemma source_reports_ok local s report :
  Forall join_wf joins → local_ok local → local_wf local → source_reports local !! s = Some report → source_report report.
Proof.
  intros Hj Hl Hw Hs. pose proof (source_reports_spec local s report Hs) as Hr. pose proof (desired_report_wf protocol joins local Hj Hl Hw) as Hd.
  unfold report_wf in Hd. rewrite Forall_forall in Hd.
  split; apply Forall_forall; intros r (r0 & Hr0 & _ & Hin & ->)%Hr; [|done]. destruct (Hd r0 Hr0) as [Hg Hsrc]. split; cbn; [done|].
  rewrite Forall_forall in Hsrc. constructor; [by apply Hsrc|constructor].
Qed.
Lemma source_reports_effect local s report group s' :
  local_ok local → source_reports local !! s = Some report →
  report_effect (rep_records report) group (λ _, false) s' = true ↔ s' = s ∧ desired_by_source joins local group s.
Proof.
  intros Hl Hs. pose proof (source_reports_spec local s report Hs) as Hr. unfold desired_by_source. rewrite <- (desired_include protocol) by done.
  rewrite (source_report_effect s) by (intros r (r0 & _ & _ & _ & ->)%Hr; done). case_decide as Hin.
  - apply list_elem_of_fmap in Hin as (r & -> & (r0 & Hr0 & Hsup & Hsrc & ->)%Hr). cbn [rec_group].
    apply andb_true_iff in Hsup as [Hk%bool_decide_eq_true Hg]. rewrite bool_decide_eq_true. split; [|by intros [? _]]. intros ->. split; [done|]. split; [done|].
    by exists r0.
  - split; [done|]. intros (_ & Hg & r & Hr0 & <- & Hk & Hsrc). exfalso. apply Hin. apply list_elem_of_fmap.
    exists (mkRecord ModeIsInclude (rec_group r) [s]). split; [done|]. apply Hr. exists r. split_and!; try done.
    unfold supported. by rewrite Hk, Hg, bool_decide_eq_true_2.
Qed.
Lemma source_reports_some local s : local_ok local → is_Some (source_reports local !! s) ↔ ∃ group, desired_by_source joins local group s.
Proof.
  intros Hl. unfold desired_by_source, source_reports, desired_driad_reports. destruct (foldl split_record (∅, 0) _) as [m n] eqn:Hm. cbn [fst].
  rewrite lookup_fmap, fmap_is_Some. destruct (split_records _ m n Hm) as (H1 & H2 & _). split.
  - intros [[|r rs] Hs]; [by apply H2 in Hs|]. destruct (proj1 (H1 s r)) as (r0 & Hr0 & Hsup & Hsrc & _); [rewrite Hs; by left|].
    apply andb_true_iff in Hsup as [Hk%bool_decide_eq_true Hg]. exists (rec_group r0). split; [done|]. rewrite <- (desired_include protocol) by done. by exists r0.
  - intros (group & Hg & Hw). rewrite <- (desired_include protocol) in Hw by done. destruct Hw as (r0 & Hr0 & <- & Hk & Hsrc).
    destruct (m !! s) as [rs|] eqn:Hs; [by eexists|]. exfalso. apply (not_elem_of_nil (mkRecord ModeIsInclude (rec_group r0) [s])).
    specialize (H1 s (mkRecord ModeIsInclude (rec_group r0) [s])). rewrite Hs in H1. apply H1. exists r0. split_and!; try done. unfold supported. by rewrite Hk, Hg, bool_decide_eq_true_2.
Qed.
Lemma source_reports_state m m' :
  lm_state m' = lm_state m → lm_config m' = lm_config m → source_reports (Some m') = source_reports (Some m).
Proof.
  intros Hs Hc. unfold source_reports, desired_driad_reports, desired_membership_report. cbn [mbind option_bind].
  by assert (current_report m' = current_report m) as -> by (unfold current_report, current_exportable_interests, current_interests; by rewrite Hs, Hc).
Qed.
End reports.

(** * The invariant *)

(** The configured durations that are added to the clock's readings leave an instant. *)
Definition durations_fit (driad : GatewayDriadConfig) : Prop :=
  CLOCK_MAX + gdr_happy_eyeballs_delay driad <= INSTANT_MAX ∧ CLOCK_MAX + gdr_relay_hold_down driad <= INSTANT_MAX ∧
  CLOCK_MAX + gdr_traffic_hold_down driad <= INSTANT_MAX.

(** What the loop relies on beside what its tunnels do: it sends nothing by itself. *)
Class DriadLoopWorldOk {W : Type} `{!DriadLoopWorld W} (logs : W → Logs) : Prop := {
  driad_local_incoming_ok (w : W) :
    Forall (λ i, ∀ d, i = inr (Some d) → bytes d) (driad_local_incoming w).1 ∧ logs (driad_local_incoming w).2 = logs w;
  driad_emit_metrics_ok gauges counters (w : W) : logs (driad_emit_metrics gauges counters w).2 = logs w;
  driad_shutdown_requested_ok (w : W) : logs (driad_shutdown_requested w).2 = logs w;
  driad_sleep_ok d (w : W) : logs (driad_sleep d w) = logs w
}.

(** ** The tunnels *)

(** Each is in order and belongs to its source; no two share a socket. *)
Record tunnels_ok (L : Logs) (m : gmap IpAddr DriadSourceTunnel) : Prop := {
  ts_each : ∀ s t, m !! s = Some t → tunnel_ok L t ∧ st_source (tn_settings t) = s;
  ts_apart : ∀ s1 s2 t1 t2, s1 ≠ s2 → m !! s1 = Some t1 → m !! s2 = Some t2 → ∀ socket, socket ∈ own t1 → socket ∉ own t2
}.
Lemma own_known L t socket : tunnel_ok L t → socket ∈ own t → is_Some (L !! socket).
Proof.
  intros Ht. unfold own. rewrite elem_of_app, list_elem_of_fmap. intros [(p & -> & Hp)|Ha].
  - pose proof (tk_probes _ _ Ht) as H. rewrite Forall_forall in H. destruct (H p Hp) as (_ & _ & log & ? & _). by eexists.
  - destruct (tn_active t) as [a|] eqn:Hact; [|by apply elem_of_nil in Ha]. apply list_elem_of_singleton in Ha as ->.
    destruct (tk_active _ _ Ht a Hact) as ((_ & _ & log & ? & _) & _). by eexists.
Qed.
Lemma tunnels_sub L m m' : m' ⊆ m → tunnels_ok L m → tunnels_ok L m'.
Proof.
  intros Hm [H1 H2]. split.
  - intros s t Hs. apply H1. by eapply lookup_weaken.
  - intros s1 s2 t1 t2 Hne Hs1 Hs2. apply (H2 s1 s2); [done|by eapply lookup_weaken..].
Qed.
(** The sockets of one tunnel are no other's, and stay so: a new socket is nobody's. *)
Lemma tunnels_others L S' L' s t m :
  tunnels_ok L m → m !! s = Some t → moved (own t) L S' L' →
  tunnels_ok L' (delete s m) ∧ ∀ s' t', delete s m !! s' = Some t' → ∀ socket, socket ∈ own t' → socket ∉ S'.
Proof.
  intros [H1 H2] Hs Hm. split; [split|].
  - intros s' t' [Hne Hs']%lookup_delete_Some. destruct (H1 s' t' Hs') as [Ht' ?]. split; [|done]. eapply tunnel_moved; [done| |done].
    by apply (H2 s' s).
  - intros s1 s2 t1 t2 Hne [_ Hs1]%lookup_delete_Some [_ Hs2]%lookup_delete_Some. by apply (H2 s1 s2).
  - intros s' t' [Hne Hs']%lookup_delete_Some socket Hin Hin'. apply (mv_own _ _ _ _ Hm) in Hin' as [Hin'|Hin'].
    + by apply (H2 s s' t t' Hne Hs Hs' socket Hin').
    + destruct (H1 s' t' Hs') as [Ht' _]. destruct (own_known L t' socket Ht' Hin). congruence.
Qed.
Lemma tunnels_insert L s t m :
  tunnels_ok L (delete s m) → tunnel_ok L t → st_source (tn_settings t) = s →
  (∀ s' t', delete s m !! s' = Some t' → ∀ socket, socket ∈ own t' → socket ∉ own t) → tunnels_ok L (<[s := t]> m).
Proof.
  intros [H1 H2] Ht Hs Hown. rewrite <- insert_delete_eq. split.
  - intros s' t' [[<- <-]|[Hne Hs']]%lookup_insert_Some; [done|by apply H1].
  - intros s1 s2 t1 t2 Hne [[<- <-]|[Hne1 Hs1]]%lookup_insert_Some [[<- <-]|[Hne2 Hs2]]%lookup_insert_Some; [done|..].
    + intros socket Hi1 Hi2. by apply (Hown s2 t2 Hs2 socket).
    + by apply (Hown s1).
    + by apply (H2 s1 s2).
Qed.
Lemma tunnels_put L L' s t t' m :
  tunnels_ok L m → m !! s = Some t → tunnel_ok L' t' → tn_settings t' = tn_settings t → moved (own t) L (own t') L' → tunnels_ok L' (<[s := t']> m).
Proof.
  intros Hm Hs Ht' Hset Hmv. destruct (tunnels_others L (own t') L' s t m Hm Hs Hmv). apply tunnels_insert; try done.
  rewrite Hset. by apply (ts_each _ _ Hm).
Qed.
Lemma tunnels_new L s t m : tunnels_ok L m → tunnel_ok L t → st_source (tn_settings t) = s → own t = [] → tunnels_ok L (<[s := t]> m).
Proof.
  intros Hm Ht Hs Hown. apply tunnels_insert; try done; [eapply tunnels_sub; [apply delete_subseteq|done]|].
  intros s' t' _ socket _. rewrite Hown. apply not_elem_of_nil.
Qed.

Section invariant.
Context {C X W : Type} `{!RawContext C X} `{!DriadWorld W} `{!DriadLoopWorld W}.
Context (opened : C → gmap Z RawPublicationConfig) (published_packets : C → list (Z * list Z)) `{!RawContextLaws opened published_packets}.
Context (logs : W → Logs) `{!DriadWorldOk logs} `{!DriadLoopWorldOk logs}.
Context (protocol : MembershipProtocol) (ecn : bool) (joins : list GatewayJoin) (driad : GatewayDriadConfig).
Context (joins_wf : Forall join_wf joins) (fit : durations_fit driad).
Implicit Types d : DriadDaemon C X.
Abbreviation reports := (source_reports protocol joins).
Abbreviation limit := (gdr_max_source_tunnels driad).

Record driad_parts_ok d : Prop := {
  dp_local : local_ok (dd_local d);
  dp_local_wf : local_wf (dd_local d);
  dp_interface : ∀ m, dd_local d = Some m → from_option ip_wf True (lc_interface (lm_config m));
  dp_plane : plane_ok opened (dd_plane d)
}.
Record driad_ok (L : Logs) d : Prop := {
  dk_parts : driad_parts_ok d;
  dk_tunnels : tunnels_ok L (dd_tunnels d);
  dk_desired : ∀ s t, dd_tunnels d !! s = Some t → reports (dd_local d) !! s = Some (tn_desired t);
  dk_limit : map_len (dd_tunnels d) <= limit;
  dk_complete : (∀ s, is_Some (reports (dd_local d) !! s) → is_Some (dd_tunnels d !! s)) ∨ map_len (dd_tunnels d) = limit
}.
(** Why the daemon ends. *)
Definition driad_ends (e : DriadFailure) : Prop :=
  match e with DriadLocalFailed e => is_parse_error e = false | TunnelFailed _ => False end.
Abbreviation dkept := (λ _ '(d, w), driad_ok (logs w) d) (only parsing).
Abbreviation dended := (λ e _, driad_ends e) (only parsing).

Lemma dread_wp {A} (f : W → A * W) (Q : A → DriadDaemon C X * W → Prop) (R : DriadFailure → DriadDaemon C X * W → Prop) d w :
  logs (f w).2 = logs w → (∀ a w', logs w' = logs w → Q a (d, w')) → mwp (lift (act f)) Q R (d, w).
Proof. intros Hf HQ. apply mwp_lift, mwp_act. by apply HQ. Qed.
Lemma dclock_wp (Q : Z → DriadDaemon C X * W → Prop) R d w : (∀ t w', logs w' = logs w → Q t (d, w')) → mwp dclock Q R (d, w).
Proof. intros HQ. apply dread_wp; [apply dnow_ok|done]. Qed.
Lemma run_tunnel_wp {A} (m : M ((DriadSourceTunnel * GatewayPlane C X) * W) string A) t Q0 (Q : A * DriadSourceTunnel → DriadDaemon C X * W → Prop) R d w :
  mwp m Q0 (λ _ _, False) ((t, dd_plane d), w) → (∀ a t' p' w', Q0 a ((t', p'), w') → Q (a, t') (put_plane p' d, w')) →
  mwp (run_tunnel t m) Q R (d, w).
Proof.
  unfold mwp, run_tunnel. intros Hm HQ. destruct (m ((t, dd_plane d), w)) as [[a|e| |] [[t' p'] w']]; cbn in *; auto; done.
Qed.
Lemma parts_plane p d : driad_parts_ok d → plane_ok opened p → driad_parts_ok (put_plane p d).
Proof. intros [] Hp. by split. Qed.
(** A tunnel that keeps its source and its desired memberships is put back. *)
Lemma stored_ok L L' s t t' p d :
  driad_ok L d → dd_tunnels d !! s = Some t → kept L t L' t' → plane_ok opened p → driad_ok L' (put_tunnels (<[s := t']> (dd_tunnels d)) (put_plane p d)).
Proof.
  intros [Hp Ht Hd Hl Hc] Hs (Hok & Hset & Hdes & Hmv) Hpl. assert (∀ s', is_Some (<[s := t']> (dd_tunnels d) !! s') ↔ is_Some (dd_tunnels d !! s')) as Hdom.
  { intros s'. destruct (decide (s = s')) as [<-|Hne]; [rewrite lookup_insert_eq, Hs; by split; eexists|by rewrite lookup_insert_ne]. }
  assert (map_len (<[s := t']> (dd_tunnels d)) = map_len (dd_tunnels d)) as Hlen.
  { unfold map_len. by rewrite map_size_insert_Some by eauto. }
  split; cbn [dd_tunnels dd_local put_tunnels put_plane]; rewrite ?Hlen; [by destruct Hp|by eapply tunnels_put| |done|].
  - intros s' x [[<- <-]|[Hne Hx]]%lookup_insert_Some; [|by apply Hd]. rewrite Hdes. by apply Hd.
  - destruct Hc as [Hc|Hc]; [left|by right]. intros s' Hs'. apply Hdom. by apply Hc.
Qed.

(** ** Reconciling *)

Lemma remove_tunnels_wp sources : ∀ d w,
  driad_parts_ok d → tunnels_ok (logs w) (dd_tunnels d) →
  mwp (remove_tunnels sources)
    (λ _ '(d', w'), driad_parts_ok d' ∧ dd_local d' = dd_local d ∧ tunnels_ok (logs w') (dd_tunnels d') ∧
       dd_tunnels d' = filter (λ p, p.1 ∉ sources) (dd_tunnels d))
    dended (d, w).
Proof.
  induction sources as [|s sources IH]; intros d w Hp Ht; cbn [remove_tunnels].
  { mwp_step. split_and!; try done. symmetry. apply map_filter_id. intros. apply not_elem_of_nil. }
  mwp_step. mwp_step. mwp_step.
  apply (mwp_mono _ (λ _ '(d', w'), driad_parts_ok d' ∧ dd_local d' = dd_local d ∧ tunnels_ok (logs w') (dd_tunnels d') ∧ dd_tunnels d' = delete s (dd_tunnels d)) _ dended).
  - destruct (dd_tunnels d !! s) as [t|] eqn:Hs.
    + mwp_step. mwp_step. mwp_step.
      eapply run_tunnel_wp; [apply (shutdown_tunnel_wp opened logs); [exact (proj1 (ts_each _ _ Ht s t Hs))|apply Hp]|].
      intros [] t' p' w' ((_ & _ & _ & Hmv) & Hp' & _). mwp_step. split_and!; try done; [destruct Hp; by split|].
      exact (proj1 (tunnels_others _ _ _ s t _ Ht Hs Hmv)).
    + mwp_step. split_and!; try done. symmetry. by apply delete_id.
  - intros [] [d1 w1] (Hp1 & Hl1 & Hw1 & Ht1). eapply mwp_mono; [by apply IH| |done].
    intros [] [d2 w2] (Hp2 & Hl2 & Hw2 & Ht2). split_and!; try done; [congruence..|]. rewrite Ht2, Ht1. apply map_eq. intros s'. apply option_eq. intros t'.
    rewrite !map_lookup_filter_Some, lookup_delete_Some, not_elem_of_cons. cbn. naive_solver.
  - done.
Qed.

(** What placing the reports leaves. *)
Definition placed (rest : list (IpAddr * MembershipReport)) d (L' : Logs) d' : Prop :=
  driad_parts_ok d' ∧ tunnels_ok L' (dd_tunnels d') ∧ dd_local d' = dd_local d ∧ map_len (dd_tunnels d') <= limit ∧
  (∀ s, s ∉ rest.*1 → dd_tunnels d' !! s = dd_tunnels d !! s) ∧
  (∀ s r t, (s, r) ∈ rest → dd_tunnels d' !! s = Some t → tn_desired t = r) ∧
  (∀ s, is_Some (dd_tunnels d !! s) → is_Some (dd_tunnels d' !! s)) ∧
  ((∀ s, s ∈ rest.*1 → is_Some (dd_tunnels d' !! s)) ∨ map_len (dd_tunnels d') = limit).
(** One report more. *)
Lemma placed_cons s r rest d d1 L' d2 :
  s ∉ rest.*1 → (∀ s', s' ≠ s → dd_tunnels d1 !! s' = dd_tunnels d !! s') → dd_local d1 = dd_local d →
  (is_Some (dd_tunnels d !! s) → is_Some (dd_tunnels d1 !! s)) →
  (∀ t, dd_tunnels d1 !! s = Some t → tn_desired t = r) → (is_Some (dd_tunnels d1 !! s) ∨ limit <= map_len (dd_tunnels d1)) →
  placed rest d1 L' d2 → placed ((s, r) :: rest) d L' d2.
Proof.
  intros Hs Hne Hl Hdom Hr Hor (Hp & Ht & Hl2 & Hlim & H1 & H2 & H3 & H4).
  assert (∀ s', is_Some (dd_tunnels d !! s') → is_Some (dd_tunnels d2 !! s')) as Hgrow.
  { intros s' Hs'. apply H3. destruct (decide (s' = s)) as [->|Hn]; [by apply Hdom|]. by rewrite Hne. }
  assert (map_len (dd_tunnels d1) <= map_len (dd_tunnels d2)) as Hmono.
  { unfold map_len. rewrite <- !size_dom. apply inj_le, subseteq_size. intros s'. rewrite !elem_of_dom. apply H3. }
  split; [done|]. split; [done|]. split; [congruence|]. split; [done|]. split_and!.
  - intros s'. rewrite fmap_cons, not_elem_of_cons. cbn. intros [Hn Hin]. by rewrite H1, Hne.
  - intros s' r' t [[= -> ->]|Hin]%elem_of_cons Ht'; [|by eapply H2]. rewrite H1 in Ht' by done. by apply Hr.
  - done.
  - destruct Hor as [Hsome|Hfull]; [|right; lia]. destruct H4 as [H4|H4]; [left|by right]. intros s'. rewrite fmap_cons, elem_of_cons. cbn.
    intros [->|Hin]; [by apply H3|by apply H4].
Qed.

Lemma place_reports_wp rest : ∀ over d w,
  NoDup rest.*1 → (∀ s r, (s, r) ∈ rest → source_report r) →
  driad_parts_ok d → tunnels_ok (logs w) (dd_tunnels d) → map_len (dd_tunnels d) <= limit →
  mwp (place_reports protocol ecn driad rest over) (λ _ '(d', w'), placed rest d (logs w') d') dended (d, w).
Proof.
  induction rest as [|[s r] rest IH]; intros over d w Hnd Hwf Hp Ht Hlim; cbn [place_reports].
  { mwp_step. split_and!; try done; [by intros ? ? ? ?%elem_of_nil|]. left. by intros ? ?%elem_of_nil. }
  rewrite fmap_cons, NoDup_cons in Hnd. destruct Hnd as [Hs Hnd]. assert (source_report r) as Hr by (eapply Hwf; by left).
  assert (∀ s r, (s, r) ∈ rest → source_report r) as Hwf' by (intros s' r' Hin; eapply Hwf; by right).
  mwp_step. mwp_step. destruct (dd_tunnels d !! s) as [t|] eqn:Hd.
  - mwp_step. destruct (ts_each _ _ Ht s t Hd) as [Htok Hts].
    eapply run_tunnel_wp; [apply (set_desired_wp opened logs); [done|done|apply Hp]|]. intros [] t' p' w' (Hok & Hset & Hdes & Hp' & Hmv).
    mwp_step. apply mwp_modify. set (d1 := put_tunnels _ _).
    assert (∀ s', s' ≠ s → dd_tunnels d1 !! s' = dd_tunnels d !! s') as Hne by (intros; cbn; by rewrite lookup_insert_ne).
    assert (dd_tunnels d1 !! s = Some t') as Hs1 by (cbn; by rewrite lookup_insert_eq).
    eapply mwp_mono; [apply IH; [done|done|..]| |done].
    + destruct Hp. by split.
    + by eapply tunnels_put.
    + cbn. unfold map_len. rewrite map_size_insert_Some by eauto. exact Hlim.
    + intros over' [d2 w2] H2. eapply (placed_cons s r rest d d1); try done; [|by left]. intros x. rewrite Hs1. by intros [= <-].
  - destruct (Z.leb_spec limit (map_len (dd_tunnels d))) as [Hfull|Hroom].
    + eapply mwp_mono; [by apply IH| |done]. intros over' [d2 w2] H2. eapply (placed_cons s r rest d d); try done; [by rewrite Hd|by right].
    + mwp_step. apply dclock_wp. intros now w1 Hw1. mwp_step. apply mwp_modify. set (d1 := put_tunnels _ _).
      set (t' := new_tunnel _ _ _ _ _ _ _) in *.
      pose proof (new_tunnel_frame now s protocol ecn driad (new_worker_pool (gdr_max_dns_workers driad)) r) as (Hsrc & Hdes & Hown & F1 & F2 & F3).
      pose proof (new_tunnel_ok (logs w1) now s protocol ecn driad (new_worker_pool (gdr_max_dns_workers driad)) r Hr) as Hok. fold t' in Hok, Hsrc, Hdes, Hown, F1, F2, F3.
      specialize (Hok ltac:(unfold instants_fit; rewrite F1, F2, F3; exact fit)).
      assert (∀ s', s' ≠ s → dd_tunnels d1 !! s' = dd_tunnels d !! s') as Hne by (intros; cbn; by rewrite lookup_insert_ne).
      assert (dd_tunnels d1 !! s = Some t') as Hs1 by (cbn; by rewrite lookup_insert_eq).
      clearbody t'. eapply mwp_mono; [apply IH; [done|done|..]| |done].
      * destruct Hp. by split.
      * apply tunnels_new; try done. by rewrite Hw1.
      * cbn. unfold map_len in *. rewrite map_size_insert_None by done. lia.
      * intros over' [d2 w2] H2. eapply (placed_cons s r rest d d1); try done; [|by left]. intros x. rewrite Hs1. by intros [= <-].
Qed.

(** Whatever the tunnels were before. *)
Lemma reconcile_tunnels_wp d w :
  driad_parts_ok d → tunnels_ok (logs w) (dd_tunnels d) → map_len (dd_tunnels d) <= limit →
  mwp (reconcile_driad_tunnels protocol ecn driad joins) (λ _ '(d', w'), driad_ok (logs w') d' ∧ dd_local d' = dd_local d) dended (d, w).
Proof.
  intros Hp Ht Hlim. unfold reconcile_driad_tunnels. mwp_step. mwp_step.
  pose proof (λ s r, source_reports_ok protocol joins (dd_local d) s r joins_wf (dp_local _ Hp) (dp_local_wf _ Hp)) as Hok.
  unfold source_reports in Hok. destruct (desired_driad_reports protocol joins (dd_local d)) as [R unsupported] eqn:HR. cbn [fst] in Hok.
  assert (reports (dd_local d) = R) as HR' by (unfold source_reports; by rewrite HR).
  mwp_step. mwp_step. mwp_step. eapply mwp_mono; [by apply remove_tunnels_wp| |done]. intros [] [d1 w1] (Hp1 & Hl1 & Hok1 & Ht1).
  assert (∀ s t, dd_tunnels d1 !! s = Some t ↔ dd_tunnels d !! s = Some t ∧ is_Some (R !! s)) as H1.
  { intros s t. rewrite Ht1, map_lookup_filter_Some. cbn. rewrite list_elem_of_filter, elem_of_btree_keys.
    destruct (R !! s) as [r|] eqn:Hs; [split; [by intros [? _]|intros [? _]; split; [done|by intros [? _]]]|].
    split; [|by intros [? []]]. intros [Hd Hn]. exfalso. apply Hn. split; [done|by eexists]. }
  mwp_step. eapply mwp_mono; [apply place_reports_wp; [apply NoDup_btree_keys|..]| |done].
  - intros s r Hin%elem_of_btree_iter. by eapply Hok.
  - done.
  - done.
  - etrans; [|exact Hlim]. rewrite Ht1. apply map_len_mono, map_filter_subseteq.
  - intros over [d2 w2] (Hp2 & Ht2 & Hl2 & Hlim2 & P1 & P2 & P3 & P4).
    assert (∀ s, s ∈ (btree_iter R).*1 ↔ is_Some (R !! s)) as Hkeys by (intros s; apply elem_of_btree_keys).
    assert (driad_ok (logs w2) d2 ∧ dd_local d2 = dd_local d) as [Hd2 Hl].
    { split; [|congruence]. split; [done|done| |done|].
      - intros s t Hs. rewrite Hl2, Hl1, HR'. destruct (R !! s) as [r|] eqn:Hr.
        + f_equal. symmetry. eapply P2; [|done]. by apply elem_of_btree_iter.
        + exfalso. rewrite P1 in Hs; [|rewrite Hkeys, Hr; by intros []]. apply H1 in Hs as [_ Hs]. rewrite Hr in Hs. by destruct Hs.
      - rewrite Hl2, Hl1, HR'. destruct P4 as [P4|P4]; [left|by right]. intros s Hs. apply P4. by rewrite Hkeys. }
    mwp_step. mwp_step. destruct (negb _); mwp_step; [|done]. destruct Hd2. split; [|done]. split; try done. by destruct dk_parts0.
Qed.

(** ** Local hosts *)

Lemma on_driad_plane_wp {A} (m : M (GatewayPlane C X) DriadFailure A) d w :
  driad_ok (logs w) d → mwp m (λ _ pl, plane_ok opened pl) (λ _ _, False) (dd_plane d) → mwp (on_driad_plane (W:=W) m) dkept dended (d, w).
Proof.
  intros [[] ? ? ? ?] Hm. unfold mwp, on_driad_plane in *. destruct (m (dd_plane d)) as [[a|e| |] pl]; try done; cbn in *; by split; [split|..].
Qed.
Lemma driad_frame L d d' :
  driad_ok L d → dd_tunnels d' = dd_tunnels d → dd_local d' = dd_local d → gp_downstream (dd_plane d') = gp_downstream (dd_plane d) → driad_ok L d'.
Proof.
  intros [[] ? ? ? ?] Ht Hl Hp. split; rewrite ?Ht, ?Hl; try done. split; rewrite ?Hl; try done. unfold plane_ok. by rewrite Hp.
Qed.
Lemma query_driad_hosts_wp d w : driad_ok (logs w) d → mwp query_driad_hosts dkept dended (d, w).
Proof.
  intros Hd. unfold query_driad_hosts. mwp_step. mwp_step. destruct (dd_local d) as [m|] eqn:Hm; [|by mwp_step].
  destruct (lc_query_interval (lm_config m)) as [interval|]; [|by mwp_step]. mwp_step. mwp_step. mwp_step.
  apply (mwp_mono _ (λ _ s, s.1 = d ∧ logs s.2 = logs w) _ dended); [|intros b [d' w'] [Hs Hw]; cbn in Hs, Hw; subst d'; rewrite <- Hw in Hd|done].
  { destruct (dd_last_local_query d) as [last|]; [|by mwp_step]. mwp_step. apply dclock_wp. intros t w1 Hw1. by mwp_step. }
  destruct b; [|by mwp_step]. mwp_step. eapply mwp_mono; [apply on_driad_plane_wp; [done|]| |done].
  - apply (query_hosts_wp opened published_packets); [apply Hd|by apply (dp_interface _ (dk_parts _ _ Hd))].
  - intros [] [d1 w1] Hd1. mwp_step. apply dclock_wp. intros t w2 Hw2. repeat mwp_step. rewrite Hw2. by apply (driad_frame _ d1).
Qed.

(** The hosts may have changed, so that the tunnels are to be reconciled. *)
Record driad_behind (L : Logs) d : Prop := {
  db_parts : driad_parts_ok d;
  db_tunnels : tunnels_ok L (dd_tunnels d);
  db_limit : map_len (dd_tunnels d) <= limit
}.
Lemma driad_ok_behind L d : driad_ok L d → driad_behind L d.
Proof. by intros []. Qed.
Lemma behind_local L m d :
  driad_behind L d → manager_ok m → state_wf (lm_state m) → from_option ip_wf True (lc_interface (lm_config m)) → driad_behind L (put_local m d).
Proof. intros [[] ? ?] ? ? ?. split; try done. by split; cbn; try done; intros ? [= <-]. Qed.
Lemma behind_frame L d d' :
  driad_behind L d → dd_tunnels d' = dd_tunnels d → dd_local d' = dd_local d → gp_downstream (dd_plane d') = gp_downstream (dd_plane d) → driad_behind L d'.
Proof.
  intros [[] ? ?] Ht Hl Hp. split; rewrite ?Ht; try done. split; rewrite ?Hl; try done. unfold plane_ok. by rewrite Hp.
Qed.
Lemma ok_local L m m' d :
  driad_ok L d → dd_local d = Some m → driad_behind L (put_local m' d) → lm_state m' = lm_state m → lm_config m' = lm_config m → driad_ok L (put_local m' d).
Proof.
  intros [] Hm [] Hs Hc. assert (reports (Some m') = reports (dd_local d)) as Hr by (rewrite Hm; by apply source_reports_state).
  split; cbn [dd_local put_local]; rewrite ?Hr; done.
Qed.

(** What draining leaves: without an event, nothing has changed. *)
Definition drained (events : Z) (L : Logs) d' : Prop := driad_behind L d' ∧ is_Some (dd_local d') ∧ (events = 0 → driad_ok L d').
Lemma drain_state_wp n : ∀ events d w,
  0 <= events → drained events (logs w) d →
  mwp (drain_local_membership_state n events) (λ events' '(d', w'), drained events' (logs w') d') dended (d, w).
Proof.
  induction n as [|n IH]; intros events d w He Hd; cbn [drain_local_membership_state]; [by mwp_step|]. mwp_step. mwp_step.
  destruct Hd as (Hb & [m Hm] & Hk). rewrite Hm. mwp_step. unfold mwp at 1, driad_receive_local.
  pose proof (driad_local_incoming_ok (logs:=logs) w) as [Hin Hw1]. destruct (driad_local_incoming w) as [incoming w1]. cbn [fst snd] in Hin, Hw1.
  pose proof (dnow_ok (logs:=logs) w1) as [_ Hw2]. destruct (dnow w1) as [t w2]. cbn [snd] in Hw2. rewrite <- Hw1, <- Hw2 in Hb, Hk. clear Hw1 Hw2.
  pose proof (dp_local _ (db_parts _ _ Hb) m Hm) as Hmok.
  pose proof (recv_loop_ok MAX_IRRELEVANT_PACKET_SKIP t m incoming Hmok Hin) as [Hok Hret].
  pose proof (recv_loop_received MAX_IRRELEVANT_PACKET_SKIP t m incoming Hmok Hin) as (Hc & Hwf & Hst). unfold try_recv.
  destruct (recv_loop _ t m incoming) as [m' r]. cbn [fst snd] in *.
  assert (driad_behind (logs w2) (put_local m' d)) as Hb'.
  { apply behind_local; [done|done|apply Hwf; by apply (dp_local_wf _ (db_parts _ _ Hb))|rewrite Hc; by apply (dp_interface _ (db_parts _ _ Hb))]. }
  assert (∀ c, mwp (_ ← modify (dcount c 1); drain_local_membership_state n (events + 1)) (λ events' '(d', w'), drained events' (logs w') d') dended
    (put_local m' d, w2)) as Hnext.
  { intros c. mwp_step. mwp_step. apply IH; [lia|]. split; [by apply (behind_frame _ (put_local m' d))|]. split; [by eexists|lia]. }
  destruct r as [[event|]|e| |]; try done; cbn [wp].
  - apply Hnext.
  - mwp_step. split; [done|]. split; [by eexists|]. intros H0. apply (ok_local _ m); auto.
  - destruct (is_parse_error e) eqn:Hpe; [|by mwp_step]. apply Hnext.
Qed.

Lemma follow_local_hosts_wp d w :
  driad_ok (logs w) d → mwp (follow_local_hosts (reconcile_driad_tunnels protocol ecn driad joins)) dkept dended (d, w).
Proof.
  intros Hd. unfold follow_local_hosts. mwp_step. mwp_step. destruct (dd_local d) as [m|] eqn:Hm; [|by mwp_step]. mwp_step.
  eapply mwp_mono; [apply (drain_state_wp _ 0); [done|]| |done].
  { split; [by apply driad_ok_behind|]. split; [by rewrite Hm|done]. }
  intros events [d1 w1] (Hb & Hl & Hk). mwp_step.
  assert (∀ d w n, driad_behind (logs w) d → (n = 0 → driad_ok (logs w) d) →
    mwp (if negb (n =? 0) then reconcile_driad_tunnels protocol ecn driad joins else mret tt) (λ _ '(d', w'), driad_ok (logs w') d' ∧ dd_local d' = dd_local d) dended (d, w)) as Hrec.
  { intros d' w' n [? ? ?] Hok. destruct (Z.eqb_spec n 0); cbn [negb]; [mwp_step; auto|by apply reconcile_tunnels_wp]. }
  eapply mwp_mono; [by apply Hrec| |done]. intros [] [d2 w2] [Hd2 Hl2]. mwp_step. apply dclock_wp. intros t w3 Hw3. rewrite <- Hw3 in Hd2. mwp_step. mwp_step.
  destruct (_ <=? _); [|by mwp_step]. mwp_step. mwp_step. rewrite Hl2. destruct Hl as [m1 Hm1]. rewrite Hm1 in *.
  mwp_step. apply dclock_wp. intros t' w4 Hw4. rewrite <- Hw4 in Hd2. destruct (prune_stale_reporters_at m1 t') as [m2 expired] eqn:Hpr.
  pose proof (dk_parts _ _ Hd2) as Hp2.
  destruct (prune_received m1 t' m2 expired (dp_local _ Hp2 m1 Hl2) Hpr) as (Hok & Hc & Hwf & Hsame).
  assert (driad_behind (logs w4) (put_local m2 d2)) as Hb2.
  { apply behind_local; [by apply driad_ok_behind|done|apply Hwf; by apply (dp_local_wf _ Hp2)|rewrite Hc; by apply (dp_interface _ Hp2)]. }
  mwp_step. mwp_step. mwp_step. eapply mwp_mono; [apply Hrec; [done|]| |done].
  { intros H0. rewrite (Hsame H0) in *. by apply (ok_local _ m1). }
  intros [] [d3 w5] [Hd3 _]. mwp_step. apply dclock_wp. intros t'' w6 Hw6. repeat mwp_step. rewrite Hw6. by apply (driad_frame _ d3).
Qed.

(** ** The loop *)

(** A method of every tunnel, in the order of the sources. *)
Lemma tunnel_step_wp {A B} (m : M ((DriadSourceTunnel * GatewayPlane C X) * W) string A) P s t (next : A → M (DriadDaemon C X * W) DriadFailure B) Q d w :
  driad_ok (logs w) d → dd_tunnels d !! s = Some t →
  mwp m (λ a '((t', p'), w'), kept (logs w) t (logs w') t' ∧ plane_ok opened p' ∧ P t') (λ _ _, False) ((t, dd_plane d), w) →
  (∀ a t' d' w', driad_ok (logs w') d' → dd_tunnels d' = <[s := t']> (dd_tunnels d) → P t' → mwp (next a) Q dended (d', w')) →
  mwp ('(a, t) ← run_tunnel t m; _ ← store_tunnel s t; next a) Q dended (d, w).
Proof.
  intros Hd Hs Hm Hn. mwp_step. eapply run_tunnel_wp; [exact Hm|]. intros a t' p' w' (Hk & Hp & HP). mwp_step. apply mwp_modify.
  apply (Hn a t'); [exact (stored_ok _ _ s t t' p' d Hd Hs Hk Hp)|done|done].
Qed.
Lemma lookups_tail s t t' l (m : gmap IpAddr DriadSourceTunnel) :
  NoDup (((s, t) :: l).*1) → (∀ s' x, (s', x) ∈ ((s, t) :: l) → m !! s' = Some x) →
  NoDup (l.*1) ∧ m !! s = Some t ∧ (s ∉ l.*1) ∧ ∀ s' x, (s', x) ∈ l → <[s := t']> m !! s' = Some x.
Proof.
  rewrite fmap_cons, NoDup_cons. cbn. intros [Hs Hnd] Hl. split; [done|]. split; [apply Hl; by left|]. split; [done|]. intros s' x Hin.
  rewrite lookup_insert_ne; [apply Hl; by right|]. intros <-. apply Hs. apply list_elem_of_fmap. by exists (s, x).
Qed.
Lemma poll_tunnels_wp interval l : ∀ progress d w,
  driad_ok (logs w) d → NoDup l.*1 → (∀ s t, (s, t) ∈ l → dd_tunnels d !! s = Some t) → mwp (poll_tunnels interval l progress) dkept dended (d, w).
Proof.
  induction l as [|[s t] l IH]; intros progress d w Hd Hnd Hl; cbn [poll_tunnels]; [by mwp_step|].
  destruct (lookups_tail s t t l _ Hnd Hl) as (_ & Hs & _). destruct (ts_each _ _ (dk_tunnels _ _ Hd) s t Hs) as [Hok _].
  apply (tunnel_step_wp _ (λ _, True)); [done|done|..].
  - eapply mwp_mono; [apply (poll_wp opened published_packets logs); [done|apply Hd]| |done]. by intros b [[t' p'] w'] (? & ? & _).
  - intros b t' d' w' Hd' Hts _. destruct (lookups_tail s t t' l _ Hnd Hl) as (Hnd' & _ & _ & Hl'). apply IH; [done|done|]. by rewrite Hts.
Qed.
Lemma shutdown_tunnels_wp l : ∀ d w,
  driad_ok (logs w) d → NoDup l.*1 → (∀ s t, (s, t) ∈ l → dd_tunnels d !! s = Some t) →
  (∀ s t, dd_tunnels d !! s = Some t → s ∉ l.*1 → tn_active t = None ∧ tn_probes t = []) →
  mwp (shutdown_tunnels l) (λ _ '(d', w'), driad_ok (logs w') d' ∧ ∀ s t, dd_tunnels d' !! s = Some t → tn_active t = None ∧ tn_probes t = []) dended (d, w).
Proof.
  induction l as [|[s t] l IH]; intros d w Hd Hnd Hl Hdone; cbn [shutdown_tunnels].
  { mwp_step. split; [done|]. intros s t Hs. apply (Hdone s t Hs). apply not_elem_of_nil. }
  destruct (lookups_tail s t t l _ Hnd Hl) as (_ & Hs & _). destruct (ts_each _ _ (dk_tunnels _ _ Hd) s t Hs) as [Hok _].
  apply (tunnel_step_wp _ (λ t', tn_active t' = None ∧ tn_probes t' = [])); [done|done|..].
  - apply (shutdown_tunnel_wp opened logs); [done|apply Hd].
  - intros b t' d' w' Hd' Hts HP. destruct (lookups_tail s t t' l _ Hnd Hl) as (Hnd' & _ & _ & Hl'). apply IH; [done|done|by rewrite Hts|].
    intros s' x. rewrite Hts. intros [[<- <-]|[Hne Hx]]%lookup_insert_Some Hin; [done|]. apply (Hdone s' x Hx). rewrite fmap_cons, not_elem_of_cons.
    cbn. by split.
Qed.
Lemma held_down_wp l (Q : Z → DriadDaemon C X * W → Prop) R d : ∀ w, (∀ n w', logs w' = logs w → Q n (d, w')) → mwp (held_down l) Q R (d, w).
Proof.
  revert Q. induction l as [|t l IH]; intros Q w HQ; cbn [held_down]; [mwp_step; auto|]. mwp_step. apply dclock_wp. intros now w1 Hw1.
  mwp_step. apply IH. intros n w2 Hw2. mwp_step. apply HQ. congruence.
Qed.
Lemma report_driad_wp config d w : driad_ok (logs w) d → mwp (report_driad config) dkept dended (d, w).
Proof.
  intros Hd. unfold report_driad. mwp_step. mwp_step. mwp_step. apply held_down_wp. intros held w1 H1. mwp_step. mwp_step. mwp_step.
  apply dread_wp; [apply driad_emit_metrics_ok|]. intros emitted w2 H2. mwp_step. apply dclock_wp. intros t w3 H3. rewrite <- H1, <- H2, <- H3 in Hd. mwp_step. eapply mwp_mono; [apply on_driad_plane_wp; [done|]; apply mwp_change, Hd| |done].
  intros [] [d' w'] Hd'. by mwp_step.
Qed.

Lemma driad_turn_wp config d w :
  protocol = gc_protocol (gdc_gateway config) → ecn = gc_ecn (gdc_gateway config) → joins = gdc_joins config → driad_ok (logs w) d →
  mwp (driad_turn config driad)
    (λ stopped '(d', w'), driad_ok (logs w') d' ∧ (stopped = true → ∀ s t, dd_tunnels d' !! s = Some t → tn_active t = None ∧ tn_probes t = [])) dended (d, w).
Proof.
  intros Hpr He Hj Hd. assert (∀ m : gmap IpAddr DriadSourceTunnel, NoDup (btree_iter m).*1) as Hnd by (intros; apply NoDup_btree_keys).
  assert (∀ (m : gmap IpAddr DriadSourceTunnel) s t, (s, t) ∈ btree_iter m → m !! s = Some t) as Hl by (intros m s t; apply elem_of_btree_iter).
  unfold driad_turn. rewrite <- Hpr, <- He, <- Hj. mwp_step.
  apply dread_wp; [apply driad_shutdown_requested_ok|]. intros stop w1 H1. rewrite <- H1 in Hd. mwp_step. mwp_step. destruct stop.
  { mwp_step. eapply mwp_mono; [apply shutdown_tunnels_wp; [done|done|apply Hl|]| |done].
    - intros s t Hs Hin. exfalso. apply Hin. apply (elem_of_btree_keys (dd_tunnels d) s). by eexists.
    - intros [] [d' w'] [? ?]. by mwp_step. }
  mwp_step. eapply mwp_mono; [by apply query_driad_hosts_wp| |done]. intros b1 [d1 w2] Hd1.
  mwp_step. eapply mwp_mono; [by apply follow_local_hosts_wp| |done]. intros b2 [d2 w3] Hd2. mwp_step. mwp_step.
  mwp_step. eapply mwp_mono; [apply poll_tunnels_wp; [done|done|apply Hl]| |done]. intros b3 [d3 w4] Hd3.
  mwp_step. eapply mwp_mono; [by apply report_driad_wp| |done]. intros b4 [d4 w5] Hd4.
  mwp_step. destruct (_ || b4); [by repeat mwp_step|]. apply dread_wp; [apply driad_sleep_ok|]. intros [] w6 H6. mwp_step. by rewrite H6.
Qed.
Lemma driad_loop_wp config turns : ∀ d w,
  protocol = gc_protocol (gdc_gateway config) → ecn = gc_ecn (gdc_gateway config) → joins = gdc_joins config → driad_ok (logs w) d →
  mwp (driad_loop turns config driad)
    (λ stopped '(d', w'), driad_ok (logs w') d' ∧ (stopped = true → ∀ s t, dd_tunnels d' !! s = Some t → tn_active t = None ∧ tn_probes t = [])) dended (d, w).
Proof.
  induction turns as [|turns IH]; intros d w Hpr He Hj Hd; cbn [driad_loop]; [by mwp_step|].
  mwp_step. eapply mwp_mono; [by apply driad_turn_wp| |done]. intros [] [d' w'] [Hd' Hs]; [by mwp_step; auto|by apply IH].
Qed.

(** What the relays were asked for: on the socket of a tunnel in use, under its session, exactly the groups in which its source is desired. *)
Definition sources_asked (L : Logs) d : Prop :=
  ∀ s t a, dd_tunnels d !! s = Some t → tn_active t = Some a →
  ∃ log relay session, L !! at_socket a = Some log ∧ gw_relay_endpoint (at_gateway a) = Some relay ∧ gw_session (at_gateway a) = Some session ∧
    ∀ group source, asked log (relay, gs_response_mac session, gs_request_nonce session) group source = true ↔
      source = s ∧ desired_by_source joins (dd_local d) group s.
(** A tunnel for each desired source, as far as the limit allows, and for no other. *)
Definition sources_served d : Prop :=
  map_len (dd_tunnels d) <= limit ∧
  (∀ s, is_Some (dd_tunnels d !! s) → ∃ group, desired_by_source joins (dd_local d) group s) ∧
  ((∀ group s, desired_by_source joins (dd_local d) group s → is_Some (dd_tunnels d !! s)) ∨ map_len (dd_tunnels d) = limit).
Lemma driad_ok_asked L d : driad_ok L d → sources_asked L d.
Proof.
  intros Hd s t a Hs Ha. destruct (ts_each _ _ (dk_tunnels _ _ Hd) s t Hs) as [Ht _].
  destruct (tk_active _ t Ht a Ha) as ((Hg & [session Hse] & _) & (Hi & log & Hlog & Htold) & _).
  destruct (established_session _ Hg (mk_is_Some _ _ Hse)) as [relay Hr].
  exists log, relay, session. split_and!; try done. intros group source. rewrite (Htold relay session Hr Hse group source), Hi.
  apply (source_reports_effect protocol); [apply (dk_parts _ _ Hd)|by apply (dk_desired _ _ Hd)].
Qed.
Lemma driad_ok_served L d : driad_ok L d → sources_served d.
Proof.
  intros [Hp _ Hdes Hlim Hc]. pose proof (λ s, source_reports_some protocol joins (dd_local d) s (dp_local _ Hp)) as Hr.
  split; [done|]. split; [intros s [t Ht]; apply Hr; rewrite (Hdes s t Ht); by eexists|]. destruct Hc as [Hc|Hc]; [left|by right].
  intros group s Hg. apply Hc, Hr. by exists group.
Qed.
End invariant.

Lemma start_driad_ok {C X} `{!RawContext C X} opened published_packets `{!RawContextLaws opened published_packets}
    t (context : C) rng config driad (d : DriadDaemon C X) :
  (∀ local, gdc_local_membership config = Some local → from_option ip_wf True (lc_interface local)) →
  start_driad t context rng config driad = Ok d → driad_parts_ok opened d ∧ dd_tunnels d = ∅.
Proof.
  intros Hi H. unfold start_driad in H. apply bind_ok_inv in H as ([] & _ & H). apply bind_ok_inv in H as ([] & _ & H).
  apply bind_ok_inv in H as (downstream & Hd & H). apply bind_ok_inv in H as ([g rng'] & _ & H). injection H as <-. split; [|done].
  split; cbn.
  - intros m (c & _ & ->)%fmap_Some. apply new_manager_ok.
  - intros m (c & _ & ->)%fmap_Some. intros e group i Hx. apply endpoint_interest_some in Hx as (es & Hx & _). cbn in Hx. by rewrite lookup_empty in Hx.
  - intros m (c & Hc & ->)%fmap_Some. by apply Hi.
  - intros p Hp0. cbn in Hp0. subst downstream. unfold initialize_downstream in Hd. destruct (gdc_downstream config) as [dc|]; [|done].
    destruct (try_new dc context _) as [[[]|e| |] p0] eqn:Hp; try done. cbn in Hd. injection Hd as ->. by eapply (try_new_ok opened published_packets).
Qed.

Lemma run_driad_wp {C X W} `{!RawContext C X} `{!DriadWorld W} `{!DriadLoopWorld W}
    opened published_packets `{!RawContextLaws opened published_packets} (logs : W → Logs) `{!DriadWorldOk logs} `{!DriadLoopWorldOk logs}
    t (context : C) rng config driad (d : DriadDaemon C X) (w : W) turns :
  let joins := gdc_joins config in
  Forall join_wf joins → 0 <= gdr_max_source_tunnels driad → durations_fit driad →
  (∀ local, gdc_local_membership config = Some local → from_option ip_wf True (lc_interface local)) →
  start_driad t context rng config driad = Ok d →
  mwp (run_driad_gateway turns config driad)
    (λ stopped '(d', w'), driad_ok opened (gc_protocol (gdc_gateway config)) joins driad (logs w') d' ∧
       (stopped = true → ∀ s t, dd_tunnels d' !! s = Some t → tn_active t = None ∧ tn_probes t = [])) (λ e _, driad_ends e) (d, w).
Proof.
  intros joins Hj Hlim Hfit Hi Hs. apply (start_driad_ok opened published_packets) in Hs as [Hp Ht]; [|done].
  unfold run_driad_gateway. mwp_step.
  eapply mwp_mono; [apply (reconcile_tunnels_wp opened logs (gc_protocol (gdc_gateway config)) (gc_ecn (gdc_gateway config)) joins driad Hj Hfit)| |done].
  - done.
  - rewrite Ht. split; [intros s x; by rewrite lookup_empty|]. intros s1 s2 t1 t2 _. by rewrite lookup_empty.
  - rewrite Ht. unfold map_len. by rewrite map_size_empty.
  - intros [] [d1 w1] [Hd1 _].
    by apply (driad_loop_wp opened published_packets logs (gc_protocol (gdc_gateway config)) (gc_ecn (gdc_gateway config)) joins driad Hj Hfit).
Qed.

(** * The property *)

(** C13: the gateway with discovery by source, started with a configuration that passes its checks and whose delays and hold-downs
    leave an instant when they are added to the clock, runs for any number of turns without a panic and without hanging, and ends only when the
    socket for local reports fails. After every turn there is a tunnel for each source that is desired by itself, unless the limit is
    reached, and for no other source, never more than the limit. The datagrams sent on the socket of a relay in use ask that relay, under
    the current session, for exactly the source-specific groups in which the configured joins or the local hosts name the tunnel's source
    (and none of them asks for the group as a whole), and for no other source. When the daemon stops, no tunnel is left open. *)
Theorem driad_gateway_runs {C X W} `{!RawContext C X} `{!DriadWorld W} `{!DriadLoopWorld W}
    opened published_packets `{!RawContextLaws opened published_packets} (logs : W → Logs) `{!DriadWorldOk logs} `{!DriadLoopWorldOk logs}
    t (context : C) rng config driad (d : DriadDaemon C X) (w : W) turns :
  let joins := gdc_joins config in
  Forall join_wf joins → 0 <= gdr_max_source_tunnels driad → durations_fit driad →
  (∀ local, gdc_local_membership config = Some local → from_option ip_wf True (lc_interface local)) →
  start_driad t context rng config driad = Ok d →
  mwp (run_driad_gateway turns config driad)
    (λ stopped '(d', w'),
       driad_ok opened (gc_protocol (gdc_gateway config)) joins driad (logs w') d' ∧
       sources_served joins driad d' ∧ sources_asked joins (logs w') d' ∧
       (stopped = true → ∀ s t, dd_tunnels d' !! s = Some t → tn_active t = None ∧ tn_probes t = []))
    (λ e _, driad_ends e) (d, w).
Proof.
  intros joins Hj Hlim Hfit Hi Hs. eapply mwp_mono; [by eapply (run_driad_wp opened published_packets logs)| |done].
  intros stopped [d2 w2] [Hd2 Hstop]. split_and!; try done; [by eapply driad_ok_served|by eapply driad_ok_asked].
Qed.

(** * Witness *)

#[export] Instance driad_demo_loop_world : DriadLoopWorld driad_demo := {|
  driad_local_incoming w := ([inr None], w);
  driad_emit_metrics _ _ w := (false, w);
  driad_shutdown_requested w := (false, w);
  driad_sleep d w := mkDriadDemo (dq_clock w + d) (dq_workers w) (dq_inbox w) (dq_logs w)
|}.
#[export] Instance driad_demo_loop_ok : DriadLoopWorldOk dq_logs.
Proof. split; try done. intros w. split; [by constructor|done]. Qed.

(** One join; the relay that the name service gives answers the probe. *)
Definition demo_driad_config : GatewayDaemonConfig :=
  mkGatewayDaemonConfig (SocketAddrV4 Ipv4_UNSPECIFIED 0) Gateway.demo_config [mkJoin demo_group (Some (demo_source 2))]
    (Some (mkDownstreamConfig None None None)) (Some demo_local) None (Some (demo_driad false)) default_metrics_config.
Definition demo_answering_world : driad_demo :=
  mkDriadDemo 5 0 [(demo_advertisement, demo_relay_addr 1); (demo_query, demo_relay_addr 1)] ∅.
Definition demo_driad_started : res (GatewayStartError string) (DriadDaemon demo_raw string) :=
  start_driad 0 (mkDemoRaw ∅ []) [] demo_driad_config (demo_driad false).
(** What the relays in use were last asked for, of two sources. *)
Definition demo_asked (d : DriadDaemon demo_raw string) (w : driad_demo) : list (IpAddr * list bool) :=
  omap (λ p : IpAddr * DriadSourceTunnel,
    (λ a, (p.1, map (λ s, (asks (default [] (dq_logs w !! at_socket a))).2 demo_group (demo_source s)) [1; 2])) <$> tn_active p.2)
    (btree_iter (dd_tunnels d)).
Lemma demo_driad_fits use_anycast : durations_fit (demo_driad use_anycast).
Proof. split_and!; apply Z.leb_le; by vm_compute. Qed.

Lemma driad_gateway_runs_witness :
  match demo_driad_started with
  | Ok d =>
      let '(_, (d', w')) := run_driad_gateway 3 demo_driad_config (demo_driad false) (d, demo_answering_world) in
      demo_asked d' w' = [(demo_source 2, [false; true])] ∧
      sources_served (gdc_joins demo_driad_config) (demo_driad false) d' ∧ sources_asked (gdc_joins demo_driad_config) (dq_logs w') d'
  | _ => False
  end.
Proof.
  destruct demo_driad_started as [d|e| |] eqn:Hs; [|by vm_compute in Hs..].
  pose proof (driad_gateway_runs dr_opened dr_sent dq_logs 0 (mkDemoRaw ∅ []) [] demo_driad_config (demo_driad false) d demo_answering_world 3
    ltac:(repeat constructor; decide_ok) ltac:(done) (demo_driad_fits false) ltac:(intros local [= <-]; decide_ok) Hs) as H.
  assert (match demo_driad_started with
    | Ok d => let '(r, (d', w')) := run_driad_gateway 3 demo_driad_config (demo_driad false) (d, demo_answering_world) in
        (match r with Ok _ => true | _ => false end, demo_asked d' w')
    | _ => (false, []) end = (true, [(demo_source 2, [false; true])])) as Hrun by by vm_compute.
  rewrite Hs in Hrun. unfold mwp in H.
  destruct (run_driad_gateway 3 demo_driad_config (demo_driad false) (d, demo_answering_world)) as [[b|e| |] [d' w']]; [|by cbn in Hrun; simplify_eq..].
  injection Hrun as H1. cbn [fst snd wp] in H. destruct H as (_ & H2 & H3 & _). exact (conj H1 (conj H2 H3)).
Defined.
