(* ===== verification/AddrText.v ===== *)
(** Text of the standard library that the command line and the resolver configuration read: [FromStr] of the unsigned integers, of
    [IpAddr] and of [SocketAddr] (the parser of [core::net]), and white space of [str].

    A reader takes a prefix of its input and returns the rest, or fails without taking anything. *)

From stdpp Require Import strings.
From S2P Require Import Prelude Net Protocol Membership State Text.

Definition reader (A : Type) : Type := list Z → option (A * list Z).

(** [c.to_digit(radix)], for 10 and 16. *)
Definition to_digit (radix b : Z) : option Z :=
  if in_range 48 57 b then Some (b - 48)
  else if radix =? 16 then
    if in_range 97 102 b then Some (b - 87) else if in_range 65 70 b then Some (b - 55) else None
  else None.
(** The digits at the start, and the rest. *)
Fixpoint span_digits (radix : Z) (s : list Z) : list Z * list Z :=
  match s with
  | [] => ([], [])
  | b :: rest =>
      match to_digit radix b with
      | Some d => let '(ds, rest) := span_digits radix rest in (d :: ds, rest)
      | None => ([], s)
      end
  end.
Definition digits_value (radix : Z) (ds : list Z) : Z := foldl (λ v d, v * radix + d) 0 ds.

(** [s.parse::<u64>()] and the like, for values up to [bound]. *)
Definition parse_uint (bound : Z) (s : list Z) : option Z :=
  let s := match s with 43 :: ((_ :: _) as rest) => rest | _ => s end in
  match span_digits 10 s with
  | ((_ :: _) as ds, []) => let v := digits_value 10 ds in if v <=? bound then Some v else None
  | _ => None
  end.

(** * Addresses *)

(** [read_number]: [bound] is the greatest value of the type. *)
Definition read_number (radix : Z) (max_digits : option nat) (allow_zero_prefix : bool) (bound : Z) : reader Z := λ s,
  let '(ds, rest) := span_digits radix s in
  if is_empty ds then None
  else if match max_digits with Some n => bool_decide (n < length ds)%nat | None => false end then None
  else if negb allow_zero_prefix && bool_decide (head ds = Some 0) && bool_decide (1 < length ds)%nat then None
  else let v := digits_value radix ds in if v <=? bound then Some (v, rest) else None.
Definition read_given_char (c : Z) : reader unit := λ s,
  match s with b :: rest => if b =? c then Some (tt, rest) else None | [] => None end.
(** [read_separator]: no separator before the first. *)
Definition read_separator {A} (c : Z) (first : bool) (r : reader A) : reader A := λ s,
  if first then r s else '(_, s) ← read_given_char c s; r s.

Definition read_ipv4_addr : reader Ipv4Addr := λ s,
  '(a, s) ← read_separator 46 true (read_number 10 (Some 3%nat) false 255) s;
  '(b, s) ← read_separator 46 false (read_number 10 (Some 3%nat) false 255) s;
  '(c, s) ← read_separator 46 false (read_number 10 (Some 3%nat) false 255) s;
  '(d, s) ← read_separator 46 false (read_number 10 (Some 3%nat) false 255) s;
  Some (mkIpv4 a b c d, s).
(** [read_groups] for [n] groups more: the groups, and whether the last two were an IPv4 address. *)
Fixpoint read_groups (n : nat) (first : bool) (s : list Z) : list Z * bool * list Z :=
  match n with
  | O => ([], false, s)
  | S n =>
      match (if bool_decide (n = O) then None else read_separator 58 first read_ipv4_addr s) with
      | Some (mkIpv4 a b c d, rest) => ([u16_from_be a b; u16_from_be c d], true, rest)
      | None =>
          match read_separator 58 first (read_number 16 (Some 4%nat) true 0xffff) s with
          | Some (g, rest) => let '(gs, v4, rest) := read_groups n false rest in (g :: gs, v4, rest)
          | None => ([], false, s)
          end
      end
  end.
Definition read_ipv6_addr : reader Ipv6Addr := λ s,
  let '(head, head_ipv4, s) := read_groups 8 true s in
  if bool_decide (length head = 8%nat) then Some (ipv6_from_segments head, s)
  else if head_ipv4 then None
  else
    '(_, s) ← read_given_char 58 s;
    '(_, s) ← read_given_char 58 s;
    let '(tail, _, s) := read_groups (8 - (length head + 1)) true s in
    Some (ipv6_from_segments (head ++ replicate (8 - length tail - length head) 0 ++ tail), s).
Definition read_port : reader Z := λ s,
  '(_, s) ← read_given_char 58 s;
  read_number 10 None true 65535 s.
Definition read_scope_id : reader Z := λ s,
  '(_, s) ← read_given_char 37 s;
  read_number 10 None true (2 ^ 32 - 1) s.
Definition read_socket_addr_v4 : reader SocketAddr := λ s,
  '(ip, s) ← read_ipv4_addr s;
  '(port, s) ← read_port s;
  Some (SocketAddrV4 ip port, s).
Definition read_socket_addr_v6 : reader SocketAddr := λ s,
  '(_, s) ← read_given_char 91 s;
  '(ip, s) ← read_ipv6_addr s;
  let '(scope_id, s) := match read_scope_id s with Some r => r | None => (0, s) end in
  '(_, s) ← read_given_char 93 s;
  '(port, s) ← read_port s;
  Some (SocketAddrV6 ip port 0 scope_id, s).

(** [parse_with]: the reader must take everything. *)
Definition parse_with {A} (r : reader A) (s : list Z) : option A :=
  match r s with Some (a, []) => Some a | _ => None end.
Definition read_ip_addr : reader IpAddr := λ s,
  match read_ipv4_addr s with
  | Some (a, s) => Some (V4 a, s)
  | None => '(a, s) ← read_ipv6_addr s; Some (V6 a, s)
  end.
Definition read_socket_addr : reader SocketAddr := λ s,
  match read_socket_addr_v4 s with Some r => Some r | None => read_socket_addr_v6 s end.
Definition parse_ip : list Z → option IpAddr := parse_with read_ip_addr.
Definition parse_socket : list Z → option SocketAddr := parse_with read_socket_addr.

(** * White space *)

(** A character with the property [White_Space], and what follows it. *)
Definition read_whitespace (s : list Z) : option (list Z) :=
  match s with
  | a :: s1 =>
      if in_range 9 13 a || (a =? 32) then Some s1
      else
        match s1 with
        | b :: s2 =>
            if (a =? 0xc2) && ((b =? 0x85) || (b =? 0xa0)) then Some s2
            else
              match s2 with
              | c :: s3 =>
                  if (a =? 0xe1) && (b =? 0x9a) && (c =? 0x80)
                     || (a =? 0xe2) && (b =? 0x80) && (in_range 0x80 0x8a c || (c =? 0xa8) || (c =? 0xa9) || (c =? 0xaf))
                     || (a =? 0xe2) && (b =? 0x81) && (c =? 0x9f)
                     || (a =? 0xe3) && (b =? 0x80) && (c =? 0x80)
                  then Some s3 else None
              | [] => None
              end
        | [] => None
        end
  | [] => None
  end.
(** [s.trim().is_empty()]; each turn takes at least a byte. *)
Fixpoint blank_loop (fuel : nat) (s : list Z) : bool :=
  match fuel with
  | O => is_empty s
  | S fuel =>
      match s with
      | [] => true
      | _ => match read_whitespace s with Some s => blank_loop fuel s | None => false end
      end
  end.
Definition is_blank (s : list Z) : bool := blank_loop (length s) s.
(** [s.split_whitespace()]: [word] is the word so far, in reverse. *)
Definition emit (word : list Z) (words : list (list Z)) : list (list Z) := if is_empty word then words else reverse word :: words.
Fixpoint words_loop (fuel : nat) (word s : list Z) : list (list Z) :=
  match fuel with
  | O => emit word []
  | S fuel =>
      match s with
      | [] => emit word []
      | b :: rest =>
          match read_whitespace s with
          | Some s => emit word (words_loop fuel [] s)
          | None => words_loop fuel (b :: word) rest
          end
      end
  end.
Definition split_whitespace (s : list Z) : list (list Z) := words_loop (length s) [] s.
(** [s.lines()]: a carriage return goes with the line feed that ends a line; an empty rest is no line. *)
Definition strip_cr (line : list Z) : list Z :=
  match last line with Some c => if c =? 13 then removelast line else line | None => line end.
Fixpoint split_at_char (c : Z) (s : list Z) : list (list Z) :=
  match s with
  | [] => [[]]
  | b :: s =>
      if b =? c then [] :: split_at_char c s
      else match split_at_char c s with part :: parts => (b :: part) :: parts | [] => [[b]] end
  end.
Definition lines (s : list Z) : list (list Z) :=
  let parts := split_at_char 10 s in
  (strip_cr <$> removelast parts) ++ match last parts with Some ((_ :: _) as rest) => [rest] | _ => [] end.

(** * What is read *)

Lemma to_digit_bounds radix b d : radix = 10 ∨ radix = 16 → to_digit radix b = Some d → 0 <= d < radix.
Proof.
  unfold to_digit, in_range. intros [->| ->]; destruct (Z.leb_spec 48 b), (Z.leb_spec b 57); cbn; intros; simplify_eq; try lia;
    repeat case_match; simplify_eq; lia.
Qed.
Lemma to_digit_10 b d : to_digit 10 b = Some d ↔ b = 48 + d ∧ 0 <= d <= 9.
Proof.
  unfold to_digit, in_range. destruct (Z.leb_spec 48 b), (Z.leb_spec b 57); cbn; split; intros; simplify_eq; try lia. f_equal. lia.
Qed.
Lemma digits_value_app radix ds d : digits_value radix (ds ++ [d]) = digits_value radix ds * radix + d.
Proof. unfold digits_value. by rewrite foldl_app. Qed.
Lemma span_digits_spec radix s ds rest :
  span_digits radix s = (ds, rest) →
  (∃ run, s = run ++ rest ∧ Forall2 (λ b d, to_digit radix b = Some d) run ds) ∧ from_option (λ b, to_digit radix b = None) True (head rest).
Proof.
  revert ds. induction s as [|b s IH]; intros ds; cbn [span_digits]; [intros [= <- <-]; split; [by exists []|done]|].
  destruct (to_digit radix b) as [d|] eqn:Hd.
  - destruct (span_digits radix s) as [ds' rest'] eqn:Hs. intros [= <- <-]. destruct (IH _ eq_refl) as [(run & -> & Hr) Hh].
    split; [|done]. exists (b :: run). split; [done|]. by constructor.
  - intros [= <- <-]. split; [|done]. by exists [].
Qed.
Lemma span_digits_app radix run ds rest :
  Forall2 (λ b d, to_digit radix b = Some d) run ds → from_option (λ b, to_digit radix b = None) True (head rest) →
  span_digits radix (run ++ rest) = (ds, rest).
Proof.
  intros Hr Hh. induction Hr as [|b d run ds Hb Hr IH]; cbn.
  - destruct rest as [|b rest]; [done|]. cbn in *. by rewrite Hh.
  - by rewrite Hb, IH.
Qed.
Lemma digits_value_nonneg radix ds : 0 <= radix → Forall (λ d, 0 <= d) ds → 0 <= digits_value radix ds.
Proof.
  intros Hr. induction ds as [|d ds IH] using rev_ind; intros Hd; [done|]. rewrite digits_value_app.
  apply Forall_app in Hd as [Hd Hx]. rewrite Forall_singleton in Hx. pose proof (Z.mul_nonneg_nonneg _ _ (IH Hd) Hr). lia.
Qed.
Lemma digits_nonneg radix run ds : radix = 10 ∨ radix = 16 → Forall2 (λ b d, to_digit radix b = Some d) run ds → Forall (λ d, 0 <= d) ds.
Proof. intros Hr. induction 1 as [|b d run ds Hb _ IH]; constructor; [|done]. by apply to_digit_bounds in Hb as [? _]. Qed.

Lemma parse_uint_bounds bound s n : parse_uint bound s = Some n → 0 <= n <= bound.
Proof.
  unfold parse_uint. set (s' := match s with 43 :: _ :: _ => _ | _ => _ end). destruct (span_digits 10 s') as [ds rest] eqn:Hs.
  destruct ds as [|d ds]; [done|]. destruct rest; [|done]. destruct (Z.leb_spec (digits_value 10 (d :: ds)) bound); [|done]. intros [= <-].
  split; [|done]. destruct (span_digits_spec _ _ _ _ Hs) as [(run & _ & Hr) _].
  apply digits_value_nonneg; [done|]. by eapply digits_nonneg; [left|].
Qed.
Lemma read_number_bounds radix max zero bound s n rest :
  radix = 10 ∨ radix = 16 → read_number radix max zero bound s = Some (n, rest) → 0 <= n <= bound.
Proof.
  unfold read_number. intros Hr. destruct (span_digits radix s) as [ds r] eqn:Hs. destruct (is_empty ds); [done|].
  destruct (match max with Some _ => _ | None => _ end); [done|]. destruct (_ && _); [done|].
  destruct (Z.leb_spec (digits_value radix ds) bound); [|done]. intros [= <- <-]. split; [|done].
  destruct (span_digits_spec _ _ _ _ Hs) as [(run & _ & Hrun) _]. apply digits_value_nonneg; [destruct Hr; lia|]. by eapply digits_nonneg.
Qed.

Lemma read_separator_inv {A} c first (r : reader A) s a rest :
  read_separator c first r s = Some (a, rest) → ∃ s', r s' = Some (a, rest) ∧ s = (if first then s' else c :: s').
Proof.
  unfold read_separator. destruct first; [intros H; by exists s|]. unfold read_given_char. destruct s as [|b s]; [done|].
  destruct (Z.eqb_spec b c) as [->|]; [|done]. cbn. intros H. by exists s.
Qed.
Lemma read_ipv4_inv s a rest :
  read_ipv4_addr s = Some (a, rest) →
  ∃ s1 s2 s3, let octet := read_number 10 (Some 3%nat) false 255 in
    octet s = Some (v4_a a, 46 :: s1) ∧ octet s1 = Some (v4_b a, 46 :: s2) ∧ octet s2 = Some (v4_c a, 46 :: s3) ∧ octet s3 = Some (v4_d a, rest).
Proof.
  unfold read_ipv4_addr. intros H. apply bind_Some in H as ([x1 s1] & (? & H1 & ->)%read_separator_inv & H).
  apply bind_Some in H as ([x2 s2] & (s1' & H2 & ->)%read_separator_inv & H). apply bind_Some in H as ([x3 s3] & (s2' & H3 & ->)%read_separator_inv & H).
  apply bind_Some in H as ([x4 s4] & (s3' & H4 & ->)%read_separator_inv & H). injection H as <- <-. by exists s1', s2', s3'.
Qed.
Lemma read_ipv4_wf s a rest : read_ipv4_addr s = Some (a, rest) → ipv4_wf a.
Proof.
  intros (s1 & s2 & s3 & H1 & H2 & H3 & H4)%read_ipv4_inv. apply read_number_bounds in H1, H2, H3, H4; [|by left..].
  destruct a. cbn in *. unfold ipv4_wf, bytes, v4_octets. cbn. do 4 (apply Forall_cons; split; [unfold u8; lia|]). by apply Forall_nil.
Qed.
Lemma segments_wf gs : length gs = 8%nat → Forall u16 gs → ipv6_wf (ipv6_from_segments gs).
Proof.
  intros Hl Hg. unfold ipv6_from_segments. split; cbn [v6_octets].
  - destruct gs as [|?[|?[|?[|?[|?[|?[|?[|?[|]]]]]]]]]; done.
  - clear Hl. induction Hg as [|g gs Hu _ IH]; [constructor|]. rewrite bind_cons. apply bytes_app. split; [by apply bytes_u16_to_be|done].
Qed.
Lemma read_groups_spec n : ∀ first s gs v4 rest,
  read_groups n first s = (gs, v4, rest) → (length gs ≤ n)%nat ∧ Forall u16 gs.
Proof.
  induction n as [|n IH]; intros first s gs v4 rest; cbn [read_groups]; [by intros [= <- <- <-]|].
  destruct (if bool_decide _ then _ else _) as [[[a b c d] r]|] eqn:H4.
  - case_bool_decide as Hn; [done|]. intros [= <- <- <-]. cbn. split; [lia|].
    apply read_separator_inv in H4 as (s' & H4%read_ipv4_wf & _). unfold ipv4_wf, v4_octets in H4. cbn in H4.
    rewrite !bytes_cons in H4. destruct H4 as (? & ? & ? & ? & _). do 2 (apply Forall_cons; split; [by apply u16_from_be_range|]). by apply Forall_nil.
  - destruct (read_separator 58 first (read_number 16 (Some 4%nat) true 65535) s) as [[g r]|] eqn:Hg; [|by intros [= <- <- <-]; split; [cbn; lia|]].
    destruct (read_groups n false r) as [[gs' v4'] r'] eqn:Hr. intros [= <- <- <-]. apply IH in Hr as [Hl Hf]. cbn. split; [lia|].
    constructor; [|done]. apply read_separator_inv in Hg as (s' & Hg%read_number_bounds & _); [unfold u16; lia|by right].
Qed.
Lemma read_ipv6_wf s a rest : read_ipv6_addr s = Some (a, rest) → ipv6_wf a.
Proof.
  unfold read_ipv6_addr. destruct (read_groups 8 true s) as [[hd v4] r] eqn:Hh. apply read_groups_spec in Hh as [Hl Hf].
  case_bool_decide as H8; [intros [= <- <-]; by apply segments_wf|]. destruct v4; [done|]. intros H.
  apply bind_Some in H as ([[] s1] & _ & H). apply bind_Some in H as ([[] s2] & _ & H).
  destruct (read_groups _ true s2) as [[tl v4'] r'] eqn:Ht. apply read_groups_spec in Ht as [Hl' Hf']. injection H as <- <-. apply segments_wf.
  - rewrite !length_app, length_replicate. lia.
  - rewrite !Forall_app. split_and!; [done| |done]. by apply Forall_replicate.
Qed.
Lemma parse_with_inv {A} (r : reader A) s a : parse_with r s = Some a → r s = Some (a, []).
Proof. unfold parse_with. destruct (r s) as [[a' [|]]|]; try done. by intros [= <-]. Qed.

(** ** IPv4 addresses in text *)

Definition show_ipv4 (a : Ipv4Addr) : list Z :=
  dec_digits (v4_a a) ++ 46 :: dec_digits (v4_b a) ++ 46 :: dec_digits (v4_c a) ++ 46 :: dec_digits (v4_d a).
(** The digits of an octet are read back, and no others give it. *)
Definition octet_digits (v : Z) : list Z := map (λ b, b - 48) (dec_digits v).
Lemma octet_digits_ok v : u8 v →
  Forall2 (λ b d, to_digit 10 b = Some d) (dec_digits v) (octet_digits v) ∧ digits_value 10 (octet_digits v) = v ∧
  (1 ≤ length (octet_digits v) ≤ 3)%nat ∧ (head (octet_digits v) = Some 0 → length (octet_digits v) = 1%nat).
Proof.
  intros Hv. assert (bool_decide (Forall2 (λ b d, to_digit 10 b = Some d) (dec_digits v) (octet_digits v)) && (digits_value 10 (octet_digits v) =? v)
    && bool_decide (1 ≤ length (octet_digits v) ≤ 3)%nat && (negb (bool_decide (head (octet_digits v) = Some 0)) || bool_decide (length (octet_digits v) = 1%nat)) = true) as H.
  { revert v Hv. apply u8_check. by vm_compute. }
  rewrite !andb_true_iff, !bool_decide_eq_true, Z.eqb_eq, orb_true_iff, negb_true_iff, bool_decide_eq_true, bool_decide_eq_false in H. naive_solver.
Qed.
Lemma dec_digits_unique ds :
  Forall (λ d, 0 <= d <= 9) ds → (1 ≤ length ds ≤ 3)%nat → (head ds = Some 0 → length ds = 1%nat) → digits_value 10 ds <= 255 →
  map (λ d, 48 + d) ds = dec_digits (digits_value 10 ds).
Proof.
  intros Hd Hl Hz Hv. unfold dec_digits. destruct ds as [|a [|b [|c [|]]]]; cbn in Hl; try lia; rewrite !Forall_cons in Hd; cbn [digits_value foldl map] in *.
  - rewrite (proj2 (Z.ltb_lt _ _)) by lia. done.
  - assert (a ≠ 0) by (intros ->; specialize (Hz eq_refl); cbn in Hz; lia). rewrite (proj2 (Z.ltb_ge _ _)), (proj2 (Z.ltb_lt _ _)) by lia.
    repeat f_equal; Z.to_euclidean_division_equations; lia.
  - assert (a ≠ 0) by (intros ->; specialize (Hz eq_refl); cbn in Hz; lia). rewrite !(proj2 (Z.ltb_ge _ _)) by lia.
    repeat f_equal; Z.to_euclidean_division_equations; lia.
Qed.
Definition read_octet : reader Z := read_number 10 (Some 3%nat) false 255.
Lemma read_octet_iff s v rest :
  read_octet s = Some (v, rest) ↔ u8 v ∧ s = dec_digits v ++ rest ∧ from_option (λ b, to_digit 10 b = None) True (head rest).
Proof.
  unfold read_octet, read_number. split.
  - destruct (span_digits 10 s) as [ds r] eqn:Hs. destruct (span_digits_spec _ _ _ _ Hs) as [(run & -> & Hr) Hh].
    destruct (is_empty ds) eqn:He; [done|]. case_bool_decide as H3; [done|]. cbn [negb].
    case_bool_decide as Hz; case_bool_decide as H1; cbn [andb]; try done;
    (destruct (Z.leb_spec (digits_value 10 ds) 255) as [Hv|]; [|done]; intros [= <- <-]).
    all: assert (Forall (λ d, 0 <= d <= 9) ds ∧ run = map (λ d, 48 + d) ds) as [Hd ->]
      by (clear -Hr; induction Hr as [|b d run ds [-> Hb]%to_digit_10 _ [IH ->]]; [done|]; by split; [constructor|]).
    all: assert (0 <= digits_value 10 ds) by (apply digits_value_nonneg; [done|]; eapply Forall_impl; [exact Hd|]; cbn; lia).
    all: split; [unfold u8; lia|]; split; [|done]; f_equal; apply dec_digits_unique; try done; destruct ds; cbn in *; try done; try lia.
  - intros (Hv & -> & Hh). destruct (octet_digits_ok v Hv) as (Hf & Hval & Hl & Hz).
    rewrite (span_digits_app 10 (dec_digits v) (octet_digits v) rest Hf Hh). rewrite Hval.
    destruct (octet_digits v) as [|d ds] eqn:Hd; [cbn in Hl; lia|]. cbn [is_empty negb]. rewrite bool_decide_eq_false_2 by lia.
    rewrite (proj2 (Z.leb_le v 255)) by (unfold u8 in Hv; lia). case_bool_decide as H0; [|done]. cbn [andb].
    rewrite bool_decide_eq_false_2; [done|]. rewrite (Hz H0). lia.
Qed.

(** * The properties *)

(** an IPv4 address is written in one way: of all texts only its four decimal octets, without leading zeros, separated by dots,
    are read as the address, by [IpAddr]'s parser too. *)
Theorem ipv4_text_exact a s : ipv4_wf a → parse_ip s = Some (V4 a) ↔ s = show_ipv4 a.
Proof.
  intros Ha. unfold parse_ip, parse_with, read_ip_addr. assert (u8 (v4_a a) ∧ u8 (v4_b a) ∧ u8 (v4_c a) ∧ u8 (v4_d a)) as (Ua & Ub & Uc & Ud).
  { unfold ipv4_wf, v4_octets in Ha. rewrite !bytes_cons in Ha. tauto. }
  split.
  - destruct (read_ipv4_addr s) as [[a' r]|] eqn:Hs.
    + destruct r; [|done]. intros [= ->]. apply read_ipv4_inv in Hs as (s1 & s2 & s3 & H1 & H2 & H3 & H4). fold read_octet in *.
      apply read_octet_iff in H1 as (_ & -> & _), H2 as (_ & -> & _), H3 as (_ & -> & _), H4 as (_ & -> & _). unfold show_ipv4. by rewrite app_nil_r.
    + destruct (read_ipv6_addr s) as [[a' [|]]|]; done.
  - intros ->. assert (∀ v rest, u8 v → read_octet (dec_digits v ++ 46 :: rest) = Some (v, 46 :: rest)) as Hdot by (intros; by apply read_octet_iff).
    assert (read_octet (dec_digits (v4_d a)) = Some (v4_d a, [])) as Hend by (apply read_octet_iff; by rewrite app_nil_r).
    unfold read_ipv4_addr, show_ipv4, read_separator. fold read_octet. rewrite Hdot by done. cbn. rewrite Hdot by done. cbn. rewrite Hdot by done. cbn.
    rewrite Hend. cbn. by destruct a.
Qed.

(** whatever text is read, a value of the right type comes out: an unsigned integer within its bound, an address with its four or sixteen
    octets, a port of sixteen bits. *)
Theorem parsed_values_wf s :
  (∀ bound n, parse_uint bound s = Some n → 0 <= n <= bound) ∧ (∀ ip, parse_ip s = Some ip → ip_wf ip) ∧
  (∀ address, parse_socket s = Some address → sock_wf address).
Proof.
  split; [intros bound n; apply parse_uint_bounds|]. split.
  - intros ip H%parse_with_inv. unfold read_ip_addr in H. destruct (read_ipv4_addr s) as [[a r]|] eqn:H4; [injection H as <- ->; by eapply read_ipv4_wf|].
    apply bind_Some in H as ([a r] & H & [= <- ->]). by eapply read_ipv6_wf.
  - intros address H%parse_with_inv. unfold read_socket_addr in H.
    assert (∀ s port rest, read_port s = Some (port, rest) → u16 port) as Hport.
    { intros s' port rest Hp. apply bind_Some in Hp as ([[] s1] & _ & Hp%read_number_bounds); [unfold u16; lia|by left]. }
    destruct (read_socket_addr_v4 s) as [[x r]|] eqn:H4.
    + injection H as -> ->. apply bind_Some in H4 as ([a s1] & Ha%read_ipv4_wf & H4). apply bind_Some in H4 as ([port s2] & Hp%Hport & [= <- _]). by split.
    + apply bind_Some in H as ([[] s1] & _ & H). apply bind_Some in H as ([a s2] & Ha%read_ipv6_wf & H).
      destruct (match read_scope_id s2 with Some r => r | None => (0, s2) end) as [scope s3].
      apply bind_Some in H as ([[] s4] & _ & H). apply bind_Some in H as ([port s5] & Hp%Hport & [= <- _]). by split.
Qed.

Lemma ipv4_text_exact_witness :
  parse_ip (ascii_bytes "192.0.2.1") = Some (V4 (mkIpv4 192 0 2 1)) ∧ parse_ip (ascii_bytes "192.0.2.01") ≠ Some (V4 (mkIpv4 192 0 2 1)).
Proof.
  assert (ipv4_wf (mkIpv4 192 0 2 1)) as Ha by decide_ok. split; [by apply (ipv4_text_exact _ _ Ha)|].
  intros H. apply (ipv4_text_exact _ _ Ha) in H. by vm_compute in H.
Defined.
(** Texts as the standard library reads them. *)
Lemma parse_examples :
  parse_ip (ascii_bytes "2001:db8::1") = Some (V6 (ipv6_from_segments [0x2001; 0xdb8; 0; 0; 0; 0; 0; 1])) ∧
  parse_ip (ascii_bytes "::ffff:192.0.2.1") = Some (V6 (ipv6_from_segments [0; 0; 0; 0; 0; 0xffff; 0xc000; 0x201])) ∧
  parse_ip (ascii_bytes "::") = Some (V6 Ipv6_UNSPECIFIED) ∧ parse_ip (ascii_bytes "1:2:3:4:5:6:7:8:9") = None ∧
  parse_socket (ascii_bytes "0.0.0.0:2268") = Some (SocketAddrV4 Ipv4_UNSPECIFIED 2268) ∧
  parse_socket (ascii_bytes "[fe80::1%3]:53") = Some (SocketAddrV6 (ipv6_from_segments [0xfe80; 0; 0; 0; 0; 0; 0; 1]) 53 0 3) ∧
  parse_uint 65535 (ascii_bytes "+0123") = Some 123 ∧ parse_uint 255 (ascii_bytes "256") = None ∧ parse_uint 255 (ascii_bytes "-1") = None.
Proof. by vm_compute. Qed.
