(* ===== verification/Config.v ===== *)
(** [src/config.rs]: the configuration file as the daemons get it.

    The file is read by the [toml] and [serde] crates, so [load_file_config] is a parameter of the command line; what it returns
    is a record of optional settings, each in the range of its Rust type ([file_config_wf]). *)

From stdpp Require Import strings.
From S2P Require Import Prelude Net State.

Definition u64 (x : Z) : Prop := 0 <= x < 18446744073709551616.
#[export] Instance u64_dec x : Decision (u64 x).
Proof. unfold u64. apply _. Defined.

Inductive OneOrMany (A : Type) := One (value : A) | Many (values : list A).
Arguments One {A} value.
Arguments Many {A} values.
Definition into_vec {A} (x : OneOrMany A) : list A := match x with One value => [value] | Many values => values end.

Record RelayLimitsFileConfig := mkLimitsFile {
  fl_max_endpoints : option Z;
  fl_max_endpoints_per_ip : option Z;
  fl_max_groups_per_endpoint : option Z;
  fl_max_sources_per_group : option Z;
  fl_max_total_endpoint_groups : option Z;
  fl_max_total_sources : option Z;
  fl_max_upstream_subscriptions : option Z;
  fl_max_records_per_report : option Z
}.
Record RateLimitFileConfig := mkRateFile {
  fr_per_source_per_second : option Z;
  fr_per_source_burst : option Z;
  fr_global_per_second : option Z;
  fr_global_burst : option Z
}.
Record RelayFileConfig := mkRelayFile {
  f_bind : option SocketAddr;
  f_ecn : option bool;
  f_relay_address : option (OneOrMany IpAddr);
  f_upstream_interface : option IpAddr;
  f_upstream_interface_index : option Z;
  f_gateway_idle_timeout_secs : option Z;
  f_gateway_prune_interval_secs : option Z;
  f_secret_rotation_secs : option Z;
  f_path_mtu : option Z;
  f_pmtu_feedback : option bool;
  f_limits : option RelayLimitsFileConfig;
  f_rate_limit : option RateLimitFileConfig
}.

Record DriadFileConfig := mkDriadFile {
  fd_resolvers : option (OneOrMany string);
  fd_timeout_ms : option Z;
  fd_attempts : option Z;
  fd_allow_insecure_dns : option bool;
  fd_max_candidates : option Z;
  fd_max_queries_per_window : option Z;
  fd_query_rate_window_ms : option Z;
  fd_happy_eyeballs_delay_ms : option Z;
  fd_relay_hold_down_secs : option Z;
  fd_traffic_hold_down_secs : option Z;
  fd_initial_traffic_timeout_secs : option Z;
  fd_maximum_traffic_timeout_secs : option Z;
  fd_max_source_tunnels : option Z;
  fd_max_concurrent_probes : option Z;
  fd_max_dns_workers : option Z
}.
Record GatewayJoinFileConfig := mkJoinFile { fj_group : IpAddr; fj_source : option IpAddr }.
Record DownstreamFileConfig := mkDownstreamFile {
  fw_interface : option IpAddr;
  fw_interface_index : option Z;
  fw_ttl : option Z;
  fw_loopback : option bool
}.
Record LocalMembershipFileConfig := mkLocalFile {
  fm_interface : option IpAddr;
  fm_interface_index : option Z;
  fm_query_interval_secs : option Z;
  fm_reporter_timeout_secs : option Z
}.
Record GatewayFileConfig := mkGatewayFile {
  fg_bind : option SocketAddr;
  fg_ecn : option bool;
  fg_relay : option SocketAddr;
  fg_relay_discovery : option string;
  fg_protocol : option string;
  fg_group : option IpAddr;
  fg_source : option IpAddr;
  fg_transparent : option bool;
  fg_no_downstream : option bool;
  fg_downstream : option DownstreamFileConfig;
  fg_local_membership : option LocalMembershipFileConfig;
  fg_local_query_interval_secs : option Z;
  fg_membership_refresh_interval_secs : option Z;
  fg_driad : option DriadFileConfig;
  fg_joins : list GatewayJoinFileConfig
}.
Record MetricsFileConfig := mkMetricsFile {
  fx_output_dir : option string;
  fx_node_id : option string;
  fx_interval_ms : option Z;
  fx_max_file_bytes : option Z
}.
Record FileConfig := mkFileConfig {
  file_relay : option RelayFileConfig;
  file_gateway : option GatewayFileConfig;
  file_metrics : option MetricsFileConfig
}.

(** * Settings in the range of their types *)

(** [given P o]: a setting that is given satisfies [P]. *)
Definition given {A} (P : A → Prop) (o : option A) : Prop := ∀ a, o = Some a → P a.
Lemma given_none {A} (P : A → Prop) : given P None.
Proof. by intros a. Qed.
Lemma given_some {A} (P : A → Prop) a : given P (Some a) ↔ P a.
Proof. split; [intros H; by apply H|]. by intros H a' [= <-]. Qed.
Lemma given_bind {A B} (P : B → Prop) (Q : A → Prop) (f : A → option B) o :
  given Q o → (∀ a, Q a → given P (f a)) → given P (o ≫= f).
Proof. intros Hq Hf b (a & -> & Hb)%bind_Some. eapply Hf; [|done]. by apply Hq. Qed.
Lemma given_default {A} (P : A → Prop) o d : given P o → P d → P (default d o).
Proof. intros H Hd. destruct o as [a|]; [by apply (H a)|done]. Qed.
#[export] Instance given_dec {A} (P : A → Prop) o : (∀ a, Decision (P a)) → Decision (given P o).
Proof.
  intros Hd. destruct o as [a|]; [|left; apply given_none]. destruct (Hd a) as [H|H]; [left; by apply given_some|].
  right. by rewrite given_some.
Defined.

Definition limits_file_wf (c : RelayLimitsFileConfig) : Prop :=
  Forall (given u64) [fl_max_endpoints c; fl_max_endpoints_per_ip c; fl_max_groups_per_endpoint c; fl_max_sources_per_group c;
    fl_max_total_endpoint_groups c; fl_max_total_sources c; fl_max_upstream_subscriptions c; fl_max_records_per_report c].
Definition rate_file_wf (c : RateLimitFileConfig) : Prop :=
  Forall (given u32) [fr_per_source_per_second c; fr_per_source_burst c; fr_global_per_second c; fr_global_burst c].
Definition relay_file_wf (c : RelayFileConfig) : Prop :=
  given sock_wf (f_bind c) ∧ given (λ a, Forall ip_wf (into_vec a)) (f_relay_address c) ∧ given ip_wf (f_upstream_interface c) ∧
  given u32 (f_upstream_interface_index c) ∧
  Forall (given u64) [f_gateway_idle_timeout_secs c; f_gateway_prune_interval_secs c; f_secret_rotation_secs c; f_path_mtu c] ∧
  given limits_file_wf (f_limits c) ∧ given rate_file_wf (f_rate_limit c).
Definition driad_file_wf (c : DriadFileConfig) : Prop :=
  Forall (given u64) [fd_timeout_ms c; fd_attempts c; fd_max_candidates c; fd_max_queries_per_window c; fd_query_rate_window_ms c;
    fd_happy_eyeballs_delay_ms c; fd_relay_hold_down_secs c; fd_traffic_hold_down_secs c; fd_initial_traffic_timeout_secs c;
    fd_maximum_traffic_timeout_secs c; fd_max_source_tunnels c; fd_max_concurrent_probes c; fd_max_dns_workers c].
Definition gateway_file_wf (c : GatewayFileConfig) : Prop :=
  given sock_wf (fg_bind c) ∧ given sock_wf (fg_relay c) ∧ given ip_wf (fg_group c) ∧ given ip_wf (fg_source c) ∧
  given (λ d, given ip_wf (fw_interface d) ∧ given u32 (fw_interface_index d) ∧ given u8 (fw_ttl d)) (fg_downstream c) ∧
  given (λ l, given ip_wf (fm_interface l) ∧ given u32 (fm_interface_index l) ∧
    Forall (given u64) [fm_query_interval_secs l; fm_reporter_timeout_secs l]) (fg_local_membership c) ∧
  Forall (given u64) [fg_local_query_interval_secs c; fg_membership_refresh_interval_secs c] ∧ given driad_file_wf (fg_driad c) ∧
  Forall (λ j, ip_wf (fj_group j) ∧ given ip_wf (fj_source j)) (fg_joins c).
Definition metrics_file_wf (c : MetricsFileConfig) : Prop := given u64 (fx_interval_ms c) ∧ given u64 (fx_max_file_bytes c).
Definition file_config_wf (c : FileConfig) : Prop :=
  given relay_file_wf (file_relay c) ∧ given gateway_file_wf (file_gateway c) ∧ given metrics_file_wf (file_metrics c).

#[export] Instance file_config_wf_dec c : Decision (file_config_wf c).
Proof.
  unfold file_config_wf, relay_file_wf, limits_file_wf, rate_file_wf, gateway_file_wf, driad_file_wf, metrics_file_wf. apply _.
Defined.
