(* ===== verification/Resolvers.v ===== *)
(** The resolvers of [src/driad.rs]: how an address is written, and which of them [/etc/resolv.conf] names. *)

From stdpp Require Import strings.
From S2P Require Import Prelude Net Effects Protocol Membership State Text Dns QueryLimiter Candidates Driad AddrText.

Definition parse_resolver_addr (value : list Z) : res DriadError SocketAddr :=
  match parse_socket value with
  | Some addr => Ok addr
  | None =>
      match parse_ip value with
      | Some addr => Ok (sock_new addr 53)
      | None => Err (InvalidDnsName value)
      end
  end.

(** The address on a line; white space around the line makes no difference to its words. *)
Definition nameserver_on (line : list Z) : option (list Z) :=
  line ← head (split_at_char 35 line);
  match split_whitespace line with
  | word :: parts => if bool_decide (word = ascii_bytes "nameserver") then head parts else None
  | [] => None
  end.
Fixpoint collect_resolvers (values : list (list Z)) : res DriadError (list SocketAddr) :=
  match values with
  | [] => Ok []
  | value :: values =>
      addr ← parse_resolver_addr value;
      addrs ← collect_resolvers values;
      Ok (addr :: addrs)
  end.
(** On a Unix system; [contents] is the file or the text of the error. *)
Definition system_resolvers (contents : res string (list Z)) : res DriadError (list SocketAddr) :=
  contents ← map_err (λ error, DIo (String.append "failed to read /etc/resolv.conf: " error)) contents;
  resolvers ← collect_resolvers (omap nameserver_on (lines contents));
  if is_empty resolvers then Err NoResolvers else Ok resolvers.
Definition system_resolver_config (contents : res string (list Z)) : res DriadError DriadResolverConfig :=
  resolvers ← system_resolvers contents;
  Ok (new_resolver_config resolvers).

(** * What is read *)

(** Bytes that end no word and start no comment. *)
Definition solid (b : Z) : Prop := 46 <= b <= 57 ∨ 97 <= b <= 122.
Lemma solid_no_space b rest : solid b → read_whitespace (b :: rest) = None.
Proof.
  unfold solid, read_whitespace, in_range. intros Hb.
  assert (∀ x, x ∈ [32; 0xc2; 0xe1; 0xe2; 0xe3] → (b =? x) = false) as Hne.
  { intros x Hx. apply Z.eqb_neq. rewrite !elem_of_cons, elem_of_nil in Hx. naive_solver lia. }
  rewrite (Hne 32), (Hne 0xc2), (Hne 0xe1), (Hne 0xe2), (Hne 0xe3) by decide_ok.
  replace ((9 <=? b) && (b <=? 13)) with false by (destruct (Z.leb_spec 9 b), (Z.leb_spec b 13); cbn; lia).
  destruct rest as [|x [|y rest]]; reflexivity.
Qed.
Lemma words_loop_run run : ∀ fuel word rest,
  Forall solid run → words_loop (length run + fuel) word (run ++ rest) = words_loop fuel (reverse run ++ word) rest.
Proof.
  induction run as [|b run IH]; intros fuel word rest Hr; [done|]. apply Forall_cons in Hr as [Hb Hr].
  cbn [length Nat.add app words_loop]. rewrite solid_no_space by done. rewrite IH by done. by rewrite reverse_cons, <-(assoc_L (++)).
Qed.
Lemma split_two_words a b :
  Forall solid a → Forall solid b → a ≠ [] → b ≠ [] → split_whitespace (a ++ 32 :: b) = [a; b].
Proof.
  intros Ha Hb Hna Hnb. unfold split_whitespace. rewrite length_app. cbn [length].
  rewrite words_loop_run, app_nil_r by done. cbn [words_loop]. unfold read_whitespace at 1. cbn.
  rewrite <-(app_nil_r b) at 2. rewrite <-(Nat.add_0_r (length b)). rewrite words_loop_run, app_nil_r by done. cbn [words_loop].
  unfold emit. rewrite !reverse_involutive. destruct (reverse a) eqn:Ea; [by apply (f_equal reverse) in Ea; rewrite reverse_involutive in Ea|].
  destruct (reverse b) eqn:Eb; [by apply (f_equal reverse) in Eb; rewrite reverse_involutive in Eb|]. done.
Qed.
Lemma split_at_char_absent c s : c ∉ s → split_at_char c s = [s].
Proof.
  induction s as [|b s IH]; [done|]. rewrite not_elem_of_cons. intros [Hb Hs]. cbn. rewrite (IH Hs).
  by rewrite (proj2 (Z.eqb_neq b c)).
Qed.
Lemma split_at_char_app c s rest : c ∉ s → split_at_char c (s ++ c :: rest) = s :: split_at_char c rest.
Proof.
  induction s as [|b s IH]; cbn; [by rewrite Z.eqb_refl|]. rewrite not_elem_of_cons. intros [Hb Hs]. rewrite (IH Hs).
  by rewrite (proj2 (Z.eqb_neq b c)).
Qed.
(** Lines that are ended are read as they are. *)
Lemma lines_joined ls :
  Forall (λ l, (10 ∉ l) ∧ last l ≠ Some 13) ls → lines (mjoin ((λ l, l ++ [10]) <$> ls)) = ls.
Proof.
  intros Hl. unfold lines. assert (split_at_char 10 (mjoin ((λ l, l ++ [10]) <$> ls)) = ls ++ [[]]) as ->.
  { induction Hl as [|l ls [H10 _] _ IH]; [done|]. cbn [fmap list_fmap mjoin list_join]. rewrite <-(assoc_L (++)). cbn [app].
    rewrite split_at_char_app by done. cbn. by f_equal. }
  rewrite removelast_last, last_snoc, app_nil_r. induction Hl as [|l ls [_ H13] _ IH]; [done|]. cbn. f_equal; [|done].
  unfold strip_cr. destruct (last l) as [c|]; [|done]. destruct (Z.eqb_spec c 13); naive_solver.
Qed.

Lemma dec_digits_solid v : u8 v → Forall solid (dec_digits v) ∧ dec_digits v ≠ [].
Proof.
  intros Hv. assert (bool_decide (Forall (λ b, 46 <= b <= 57) (dec_digits v)) && bool_decide (dec_digits v ≠ []) = true) as H.
  { revert v Hv. apply u8_check. by vm_compute. }
  rewrite andb_true_iff, !bool_decide_eq_true in H. destruct H as [H ?]. split; [|done]. eapply Forall_impl; [exact H|]. by left.
Qed.
Lemma show_ipv4_solid a : ipv4_wf a → Forall solid (show_ipv4 a) ∧ show_ipv4 a ≠ [].
Proof.
  unfold ipv4_wf, v4_octets. rewrite !bytes_cons. intros (Ha & Hb & Hc & Hd & _).
  destruct (dec_digits_solid _ Ha) as [? Hne], (dec_digits_solid _ Hb), (dec_digits_solid _ Hc), (dec_digits_solid _ Hd). unfold show_ipv4. split.
  - assert (solid 46) by (left; lia). repeat (apply Forall_app; split; [done|]; apply Forall_cons; split; [done|]). done.
  - by destruct (dec_digits (v4_a a)).
Qed.

(** Lines of the file: a server, or a comment. *)
Inductive conf_line := Server (a : Ipv4Addr) | Remark_line (text : list Z).
Definition show_line (l : conf_line) : list Z :=
  match l with Server a => ascii_bytes "nameserver " ++ show_ipv4 a | Remark_line text => 35 :: text end.
Definition conf_line_wf (l : conf_line) : Prop :=
  match l with Server a => ipv4_wf a | Remark_line text => (10 ∉ text) ∧ last (35 :: text) ≠ Some 13 end.
#[export] Instance conf_line_wf_dec l : Decision (conf_line_wf l).
Proof. destruct l; unfold conf_line_wf; apply _. Defined.
Definition servers (ls : list conf_line) : list Ipv4Addr := omap (λ l, match l with Server a => Some a | Remark_line _ => None end) ls.

Lemma solid_not c s : Forall solid s → ¬ solid c → c ∉ s.
Proof. rewrite Forall_forall. intros H Hc Hin. by apply Hc, H. Qed.
Lemma read_shown_ipv4 a : ipv4_wf a → read_ipv4_addr (show_ipv4 a) = Some (a, []).
Proof.
  intros Ha. pose proof (proj2 (ipv4_text_exact a _ Ha) eq_refl) as H%parse_with_inv. unfold read_ip_addr in H.
  destruct (read_ipv4_addr (show_ipv4 a)) as [[a' r]|]; [by injection H as -> ->|]. by destruct (read_ipv6_addr (show_ipv4 a)) as [[]|].
Qed.
Lemma parse_shown_ipv4 a : ipv4_wf a → parse_resolver_addr (show_ipv4 a) = Ok (SocketAddrV4 a 53).
Proof.
  intros Ha. unfold parse_resolver_addr. rewrite (proj2 (ipv4_text_exact a _ Ha) eq_refl). unfold parse_socket, parse_with, read_socket_addr, read_socket_addr_v4.
  rewrite read_shown_ipv4 by done. cbn. unfold read_socket_addr_v6, read_given_char.
  destruct (show_ipv4_solid a Ha) as [Hs Hne]. destruct (show_ipv4 a) as [|b s] eqn:E; [done|]. apply Forall_cons in Hs as [Hb _].
  rewrite (proj2 (Z.eqb_neq b 91)) by (unfold solid in Hb; lia). done.
Qed.
Lemma nameserver_on_server a : ipv4_wf a → nameserver_on (show_line (Server a)) = Some (show_ipv4 a).
Proof.
  intros Ha. destruct (show_ipv4_solid a Ha) as [Hs Hne]. assert (¬ solid 35) as H35 by (unfold solid; lia).
  assert (Forall solid (ascii_bytes "nameserver")) as Hw by (unfold solid; decide_ok).
  assert (show_line (Server a) = ascii_bytes "nameserver" ++ 32 :: show_ipv4 a) as -> by done. unfold nameserver_on.
  rewrite split_at_char_absent; [|apply not_elem_of_app; split; [by apply solid_not|]; apply not_elem_of_cons; split; [done|by apply solid_not]].
  cbn [head mbind option_bind]. rewrite split_two_words by done. done.
Qed.
Lemma parse_resolver_wf value : wp (parse_resolver_addr value) sock_wf (λ _, True).
Proof.
  destruct (parsed_values_wf value) as (_ & Hi & Hs). unfold parse_resolver_addr. destruct (parse_socket value) as [s|]; [by apply Hs|].
  destruct (parse_ip value) as [ip|]; [|done]. cbn. unfold sock_wf. rewrite sock_ip_new, sock_port_new. split; [by apply Hi|by unfold u16].
Qed.
Lemma collect_resolvers_wf values : wp (collect_resolvers values) (Forall sock_wf) (λ _, True).
Proof.
  induction values as [|v values IH]; cbn [collect_resolvers]; [by constructor|]. pose proof (parse_resolver_wf v) as Hv.
  destruct (parse_resolver_addr v) as [a|e| |]; try done. cbn in *. destruct (collect_resolvers values) as [l|e| |]; try done. cbn in *. by constructor.
Qed.
Lemma system_resolvers_wf contents :
  returns contents → wp (system_resolvers contents) (λ rs, rs ≠ [] ∧ Forall sock_wf rs) (λ _, True).
Proof.
  intros Hc. unfold system_resolvers. destruct contents as [text|e| |]; try done. cbn. pose proof (collect_resolvers_wf (omap nameserver_on (lines text))) as H.
  destruct (collect_resolvers _) as [rs|e| |]; try done. cbn in *. by destruct rs.
Qed.

(** the resolvers of [/etc/resolv.conf] are found: of a file that names servers on [nameserver] lines, among comments, exactly these
    are returned, in their order and with the port of DNS. *)
Theorem resolv_conf_read ls :
  Forall conf_line_wf ls → servers ls ≠ [] →
  system_resolvers (Ok (mjoin ((λ l, l ++ [10]) <$> (show_line <$> ls)))) = Ok ((λ a, SocketAddrV4 a 53) <$> servers ls).
Proof.
  intros Hl Hne. unfold system_resolvers. cbn [map_err mbind res_bind]. rewrite lines_joined.
  - assert (omap nameserver_on (show_line <$> ls) = show_ipv4 <$> servers ls) as ->.
    { unfold servers. clear Hne. induction Hl as [|[a|text] ls Hw _ IH]; [done| |done]. cbn [fmap list_fmap omap list_omap].
      rewrite nameserver_on_server by done. cbn. by f_equal. }
    assert (Forall ipv4_wf (servers ls)) as Hs.
    { unfold servers. clear Hne. induction Hl as [|[a|text] ls Hw _ IH]; cbn; [done| |done]. by constructor. }
    assert (collect_resolvers (show_ipv4 <$> servers ls) = Ok ((λ a, SocketAddrV4 a 53) <$> servers ls)) as ->.
    { clear Hne. induction Hs as [|a l Ha _ IH]; [done|]. cbn. rewrite parse_shown_ipv4 by done. cbn. by rewrite IH. }
    cbn. by destruct (servers ls).
  - apply Forall_fmap. eapply Forall_impl; [exact Hl|]. intros [a|text] Hw; cbn in *.
    + destruct (show_ipv4_solid a Hw) as [Hs Hn0]. split.
      * repeat (apply not_elem_of_cons; split; [done|]). apply solid_not; [done|]. unfold solid. lia.
      * change (last (ascii_bytes "nameserver " ++ show_ipv4 a) ≠ Some 13). intros H. rewrite last_app in H.
        destruct (last (show_ipv4 a)) as [c|] eqn:E; [|by apply last_None in E]. injection H as ->. apply last_Some_elem_of in E.
        rewrite Forall_forall in Hs. apply Hs in E. unfold solid in E. lia.
    + destruct Hw as [Hw ?]. split; [|done]. apply not_elem_of_cons. by split.
Qed.

Lemma resolv_conf_read_witness :
  system_resolvers (Ok (ascii_bytes "# local
nameserver 127.0.0.53
" )) = Ok [SocketAddrV4 (mkIpv4 127 0 0 53) 53].
Proof. exact (resolv_conf_read [Remark_line (ascii_bytes " local"); Server (mkIpv4 127 0 0 53)] ltac:(decide_ok) ltac:(done)). Defined.
