(* ===== verification/Options.v ===== *)
(** What the two commands of [src/main.rs] share: the arguments, the configuration file they name, and the checks on single values.

    An argument is a [string] of bytes. [while let Some(arg) = args.next()] is [arg_loop], over the arms of the [match] in its body;
    an arm that calls [args.next()] itself gets what that call returns. An error carries the text of the message, or the error value
    whose [Display] is the message. *)

From stdpp Require Import strings.
From S2P Require Import Prelude Net Protocol Ip Membership State Gateway Text Dns Driad Downstream Metrics Config AddrText.

Inductive CliError :=
| Message (text : string)
| WithUsage (text : string)
| LoadFailed (error : string)
| IdleTimeoutRejected (timeout advertised_interval : Z)
| DownstreamRejected (error : DownstreamConfigError)
| NoSystemResolvers (error : DriadError)
| ResolverRejected (error : DriadError).

Definition fails {A} (text : string) : res CliError A := Err (Message text).
(** [text '{value}']. *)
Definition quoted (text value : string) : string := text +:+ " '" +:+ value +:+ "'".

(** A call that returns no error of its own. *)
Definition infallible {E F A} (m : res E A) : res F A :=
  match m with Ok a => Ok a | Err _ | Panic => Panic | Diverge => Diverge end.

(** * Arguments *)

Inductive Arm (O : Type) :=
| Assign (o : O)
| Take (use : option string → res CliError O)
| Reject (error : CliError)
| PrintUsage.
Arguments Assign {O} o.
Arguments Take {O} use.
Arguments Reject {O} error.
Arguments PrintUsage {O}.

(** [None] after the usage is printed. *)
Fixpoint arg_loop {O} (arm : string → O → Arm O) (o : O) (args : list string) : res CliError (option O) :=
  match args with
  | [] => Ok (Some o)
  | arg :: args =>
      match arm arg o with
      | Assign o => arg_loop arm o args
      | Take use =>
          match args with
          | [] => o ← use None; Ok (Some o)
          | value :: args => o ← use (Some value); arg_loop arm o args
          end
      | Reject error => Err error
      | PrintUsage => Ok None
      end
  end.

Definition one_of (arg : string) (names : list string) : bool := existsb (String.eqb arg) names.
(** [args.next().ok_or_else(..)]. *)
Definition required (missing : string) (value : option string) : res CliError string := ok_or (Message missing) value.
(** [value.parse().map_err(..)]: "invalid {what} '{value}'". *)
Definition parsed {A} (parse : list Z → option A) (what value : string) : res CliError A :=
  ok_or (Message (quoted ("invalid " +:+ what) value)) (parse (ascii_bytes value)).
Definition parse_u32 : list Z → option Z := parse_uint 4294967295.
Definition parse_u64 : list Z → option Z := parse_uint 18446744073709551615.
Definition parse_usize : list Z → option Z := parse_uint 18446744073709551615.

Definition parse_nonzero_u64 (value : option string) (option : string) : res CliError Z :=
  value ← required (option +:+ " requires a positive integer") value;
  parsed ← parsed parse_u64 (option +:+ " value") value;
  if negb (parsed =? 0) then Ok parsed else fails (option +:+ " must not be 0").
Definition parse_nonzero_usize (value : option string) (option : string) : res CliError Z :=
  value ← required (option +:+ " requires a positive integer") value;
  parsed ← parsed parse_usize (option +:+ " value") value;
  if negb (parsed =? 0) then Ok parsed else fails (option +:+ " must not be 0").

(** * The configuration file *)

(** [arg.strip_prefix(prefix)]. *)
Fixpoint strip_prefix (prefix arg : string) : option string :=
  match prefix, arg with
  | EmptyString, _ => Some arg
  | String c prefix, String d arg => if Ascii.eqb c d then strip_prefix prefix arg else None
  | String _ _, EmptyString => None
  end.
Definition config_missing : CliError := Message "--config requires a TOML file path".
Definition config_repeated : CliError := Message "--config may only be provided once".
(** [path] and [remaining] are what was found so far, the arguments in reverse. *)
Fixpoint split_loop (path : option string) (remaining args : list string) : res CliError (option string * list string) :=
  match args with
  | [] => Ok (path, reverse remaining)
  | arg :: args =>
      if one_of arg ["--config"] then
        match args with
        | [] => Err config_missing
        | value :: args => match path with Some _ => Err config_repeated | None => split_loop (Some value) remaining args end
        end
      else
        match strip_prefix "--config=" arg with
        | Some value =>
            if one_of value [""] then Err config_missing
            else match path with Some _ => Err config_repeated | None => split_loop (Some value) remaining args end
        | None => split_loop path (arg :: remaining) args
        end
  end.
Definition split_config_arg (args : list string) : res CliError (option string * list string) := split_loop None [] args.

(** [load_file] is [load_file_config]: it reads the file and parses the TOML. *)
Definition load_optional_config (load_file : string → res string FileConfig) (path : option string) : res CliError (option FileConfig) :=
  match path with
  | Some path => config ← map_err LoadFailed (load_file path); Ok (Some config)
  | None => Ok None
  end.

(** [PathBuf::from]: the path is one component of what the recorder joins. *)
Definition path_buf (value : string) : list string := [value].
Definition set_output_dir (dir : option (list string)) (m : MetricsConfig) : MetricsConfig :=
  mkMetricsConfig dir (mc_node_id m) (mc_sample_interval m) (mc_max_file_bytes m).
Definition set_node_id (id : string) (m : MetricsConfig) : MetricsConfig :=
  mkMetricsConfig (mc_output_dir m) id (mc_sample_interval m) (mc_max_file_bytes m).
Definition set_sample_interval (interval : Z) (m : MetricsConfig) : MetricsConfig :=
  mkMetricsConfig (mc_output_dir m) (mc_node_id m) interval (mc_max_file_bytes m).
Definition set_max_file_bytes (bytes : option Z) (m : MetricsConfig) : MetricsConfig :=
  mkMetricsConfig (mc_output_dir m) (mc_node_id m) (mc_sample_interval m) bytes.
(** [if let Some(value) = setting { .. }]. *)
Definition when_given {A B} (setting : option A) (f : A → B → B) (b : B) : B :=
  match setting with Some a => f a b | None => b end.
Definition nonzero (n : Z) : option Z := if n =? 0 then None else Some n.

Definition apply_metrics_file_config (metrics : MetricsConfig) (config : MetricsFileConfig) : res CliError MetricsConfig :=
  let metrics := when_given (fx_output_dir config) (λ dir, set_output_dir (Some (path_buf dir))) metrics in
  metrics ← match fx_node_id config with
            | Some node_id =>
                if is_blank (ascii_bytes node_id) then fails "metrics.node_id must not be empty" else Ok (set_node_id node_id metrics)
            | None => Ok metrics
            end;
  let metrics := when_given (fx_interval_ms config) (λ millis, set_sample_interval (from_millis millis)) metrics in
  Ok (when_given (fx_max_file_bytes config) (λ bytes, set_max_file_bytes (nonzero bytes)) metrics).
Definition metrics_config_from_file (config : option FileConfig) : res CliError MetricsConfig :=
  match config ≫= file_metrics with
  | Some config => apply_metrics_file_config default_metrics_config config
  | None => Ok default_metrics_config
  end.

(** * Addresses and protocols *)

Definition is_valid_source (source : IpAddr) : bool :=
  match source with
  | V4 source => negb (v4_is_unspecified source) && negb (v4_is_multicast source) && negb (v4_is_broadcast source)
  | V6 source => negb (v6_is_unspecified source) && negb (v6_is_multicast source)
  end.
Definition validate_relay_address (address : IpAddr) (field : string) : res CliError unit :=
  if is_valid_source address then Ok tt else fails (field +:+ " must be a unicast address").
Definition validate_path_mtu (path_mtu : Z) : res CliError unit :=
  if (1280 <=? path_mtu) && (path_mtu <=? 65535) then Ok tt else fails "relay path MTU must be between 1280 and 65535 bytes".
Definition validate_gateway_join (group : IpAddr) (source : option IpAddr) : res CliError unit :=
  if negb (is_amt_forwardable_group group) then fails "gateway join group must be non-link-local multicast"
  else if is_some_and (λ source, negb (same_family group source) || negb (is_valid_source source)) source
  then fails "gateway join source must be a unicast address in the same family as group"
  else Ok tt.
Definition protocol_matches_address (protocol : MembershipProtocol) (address : IpAddr) : bool :=
  match protocol, address with Igmpv3, V4 _ | Mldv2, V6 _ => true | _, _ => false end.
Definition parse_protocol (value : string) : res CliError MembershipProtocol :=
  if one_of value ["igmp"; "igmpv3"; "ipv4"] then Ok Igmpv3
  else if one_of value ["mld"; "mldv2"; "ipv6"] then Ok Mldv2
  else fails (quoted "invalid --protocol" value).
Definition is_ssm_group (group : IpAddr) : bool :=
  match group with V4 group => v4_a group =? 232 | V6 group => Z.land (v6_segment0 group) 0xfff0 =? 0xff30 end.

(** * The arguments in order *)

(** The arguments with what each takes; [takes] tells the arms that call [args.next()]. *)
Fixpoint tokens (takes : string → bool) (args : list string) : list (string * option string) :=
  match args with
  | [] => []
  | arg :: args =>
      if takes arg then match args with [] => [(arg, None)] | value :: args => (arg, Some value) :: tokens takes args end
      else (arg, None) :: tokens takes args
  end.
Definition run_token {O} (arm : string → O → Arm O) (o : O) (token : string * option string) : res CliError (option O) :=
  match arm token.1 o with
  | Assign o => Ok (Some o)
  | Take use => o ← use token.2; Ok (Some o)
  | Reject error => Err error
  | PrintUsage => Ok None
  end.
Fixpoint run_tokens {O} (arm : string → O → Arm O) (o : O) (ts : list (string * option string)) : res CliError (option O) :=
  match ts with
  | [] => Ok (Some o)
  | token :: ts => o ← run_token arm o token; match o with Some o => run_tokens arm o ts | None => Ok None end
  end.
Definition takes_value {O} (arm : string → O → Arm O) (takes : string → bool) : Prop :=
  ∀ arg o, match arm arg o with Take _ => takes arg = true | Assign _ => takes arg = false | _ => True end.

(** The loop is the composition of its turns. *)
Lemma arg_loop_tokens {O} (arm : string → O → Arm O) takes args o :
  takes_value arm takes → arg_loop arm o args = run_tokens arm o (tokens takes args).
Proof.
  intros Ht. assert (∀ n args o, (length args ≤ n)%nat → arg_loop arm o args = run_tokens arm o (tokens takes args)) as H;
    [|by apply (H (length args))].
  clear args o. induction n as [|n IH]; intros [|arg args] o Hn; cbn in Hn; try done; [lia|]. specialize (Ht arg o). cbn [arg_loop tokens].
  assert (∀ args' o, (length args' ≤ length args)%nat → arg_loop arm o args' = run_tokens arm o (tokens takes args')) as IH' by (intros; apply IH; lia).
  destruct (arm arg o) as [o'|use|e|] eqn:Ha.
  - rewrite Ht. cbn [run_tokens]. unfold run_token. cbn [fst]. rewrite Ha. cbn. by apply IH'.
  - rewrite Ht. destruct args as [|v args]; cbn [run_tokens]; unfold run_token; cbn [fst snd]; rewrite Ha; [by destruct (use None)|].
    destruct (use (Some v)); try done. cbn. apply IH'. cbn. lia.
  - destruct (takes arg), args as [|v args]; cbn [run_tokens]; unfold run_token; cbn [fst]; by rewrite Ha.
  - destruct (takes arg), args as [|v args]; cbn [run_tokens]; unfold run_token; cbn [fst]; by rewrite Ha.
Qed.
Lemma run_tokens_snoc {O} (arm : string → O → Arm O) ts token : ∀ o,
  run_tokens arm o (ts ++ [token]) = (o ← run_tokens arm o ts; match o with Some o => run_token arm o token | None => Ok None end).
Proof.
  induction ts as [|t ts IH]; intros o; cbn [app run_tokens].
  - cbn [mbind res_bind]. destruct (run_token arm o token) as [[o'|]|e| |]; done.
  - destruct (run_token arm o t) as [[o'|]|e| |]; cbn; [apply IH|done..].
Qed.
(** An invariant of the arms is an invariant of the loop. *)
Lemma arg_loop_wp {O} (arm : string → O → Arm O) (I : O → Prop) args : ∀ o,
  (∀ arg o, I o → match arm arg o with Assign o' => I o' | Take use => ∀ v, wp (use v) I (λ _, True) | _ => True end) →
  I o → wp (arg_loop arm o args) (given I) (λ _, True).
Proof.
  intros o Harm. assert (∀ n args o, (length args ≤ n)%nat → I o → wp (arg_loop arm o args) (given I) (λ _, True)) as H;
    [|by apply (H (length args))].
  clear args o. induction n as [|n IH]; intros [|arg args] o Hn Ho; cbn in Hn; [by apply given_some|lia|by apply given_some|].
  cbn [arg_loop]. pose proof (Harm arg o Ho) as Ha. destruct (arm arg o) as [o'|use|e|]; [by apply IH; [lia|]| |done|apply given_none].
  destruct args as [|v args].
  - specialize (Ha None). destruct (use None); try done. cbn. by apply given_some.
  - specialize (Ha (Some v)). destruct (use (Some v)); try done. cbn. apply IH; [cbn in Hn; lia|done].
Qed.
(** ** The last mention of a setting decides *)

Definition mention (names : list string) (ts : list (string * option string)) : option (string * option string) :=
  last (filter (λ t, one_of t.1 names = true) ts).
(** [governed proj names f o o' ts]: after [ts], started with [o], the setting [proj] is what the last of [names] in [ts] says, by [f],
    and what it was if there is none. *)
Definition governed {O A} (proj : O → A) (names : list string) (f : string → option string → option A) (o o' : O)
    (ts : list (string * option string)) : Prop :=
  match mention names ts with
  | Some (name, value) => f name value = Some (proj o')
  | None => proj o' = proj o
  end.
(** What an option's value reads as. *)
Definition reads {A} (parse : list Z → option A) (_ : string) (value : option string) : option A := value ≫= λ v, parse (ascii_bytes v).

Lemma mention_snoc names ts t : mention names (ts ++ [t]) = if one_of t.1 names then Some t else mention names ts.
Proof.
  unfold mention. rewrite filter_app. destruct (one_of t.1 names) eqn:E.
  - rewrite (filter_cons_True _ t []) by done. by rewrite last_app.
  - rewrite (filter_cons_False _ t []) by congruence. by rewrite app_nil_r.
Qed.
Lemma last_mention_governs {O A} (arm : string → O → Arm O) (proj : O → A) names f :
  (∀ o t o', run_token arm o t = Ok (Some o') → if one_of t.1 names then f t.1 t.2 = Some (proj o') else proj o' = proj o) →
  ∀ ts o o', run_tokens arm o ts = Ok (Some o') → governed proj names f o o' ts.
Proof.
  intros Hlaw ts. induction ts as [|t ts IH] using rev_ind; intros o o'; [by intros [= <-]|]. rewrite run_tokens_snoc.
  destruct (run_tokens arm o ts) as [[o1|]|e| |] eqn:E; cbn; try done. intros H%Hlaw. specialize (IH o o1 E).
  unfold governed in *. rewrite mention_snoc. destruct (one_of t.1 names); [by destruct t|]. by rewrite H.
Qed.
Lemma one_of_elem arg names : one_of arg names = true ↔ arg ∈ names.
Proof.
  unfold one_of. rewrite existsb_exists. setoid_rewrite String.eqb_eq. split; [intros (x & Hx & ->)|intros H; exists arg; split; [|done]].
  - by apply list_elem_of_In.
  - by apply list_elem_of_In.
Qed.
(** Splits on the name of an argument. *)
Ltac by_name :=
  repeat match goal with
  | H : context [if one_of ?n ?l then _ else _] |- _ =>
      let E := fresh "E" in
      destruct (one_of n l) eqn:E; [apply one_of_elem in E; repeat (apply elem_of_cons in E as [->|E]); try (by apply elem_of_nil in E)|clear E]
  end.

(** * Values *)

Lemma parsed_wp {A} (parse : list Z → option A) what value (P : A → Prop) :
  (∀ s a, parse s = Some a → P a) → wp (parsed parse what value) P (λ _, True).
Proof. intros H. unfold parsed. destruct (parse (ascii_bytes value)) as [a|] eqn:E; [|done]. by apply (H _ _ E). Qed.
Lemma parse_u32_wf s n : parse_u32 s = Some n → u32 n.
Proof. intros H%parse_uint_bounds. unfold u32. lia. Qed.
Lemma parse_u64_wf s n : parse_u64 s = Some n → u64 n.
Proof. intros H%parse_uint_bounds. unfold u64. lia. Qed.
Lemma parse_ip_wf s ip : parse_ip s = Some ip → ip_wf ip.
Proof. apply parsed_values_wf. Qed.
Lemma parse_socket_wf s address : parse_socket s = Some address → sock_wf address.
Proof. apply parsed_values_wf. Qed.
Lemma required_wp missing value (P : string → Prop) : (∀ v, value = Some v → P v) → wp (required missing value) P (λ _, True).
Proof. intros H. destruct value; [by apply H|done]. Qed.
Lemma parse_nonzero_u64_wp value name : wp (parse_nonzero_u64 value name) (λ n, u64 n ∧ n ≠ 0) (λ _, True).
Proof.
  unfold parse_nonzero_u64. destruct value as [v|]; [|done]. cbn. pose proof (parsed_wp parse_u64 (name +:+ " value") v u64 parse_u64_wf) as H.
  destruct (parsed _ _ _) as [n|e| |]; try done. cbn. by destruct (Z.eqb_spec n 0).
Qed.
Lemma parse_nonzero_usize_wp value name : wp (parse_nonzero_usize value name) (λ n, u64 n ∧ n ≠ 0) (λ _, True).
Proof. exact (parse_nonzero_u64_wp value name). Qed.
Lemma validate_address_wp address field (R : CliError → Prop) :
  (∀ e, R e) → wp (validate_relay_address address field) (λ _, is_valid_source address = true) R.
Proof. intros H. unfold validate_relay_address. destruct (is_valid_source address); [done|apply H]. Qed.
Lemma validate_mtu_wp mtu (R : CliError → Prop) : (∀ e, R e) → wp (validate_path_mtu mtu) (λ _, 1280 <= mtu <= 65535) R.
Proof. intros H. unfold validate_path_mtu. destruct (Z.leb_spec 1280 mtu), (Z.leb_spec mtu 65535); try apply H; try done. Qed.

(** A step through the checks of a value. *)
Ltac cli_step :=
  lazymatch goal with
  | |- wp (required _ _) _ _ => apply required_wp; intros ? _
  | |- wp (parsed parse_ip _ _) _ _ => eapply wp_mono; [apply (parsed_wp parse_ip _ _ ip_wf parse_ip_wf)| |done]; intros ? ?
  | |- wp (parsed parse_socket _ _) _ _ => eapply wp_mono; [apply (parsed_wp parse_socket _ _ sock_wf parse_socket_wf)| |done]; intros ? ?
  | |- wp (parsed parse_u32 _ _) _ _ => eapply wp_mono; [apply (parsed_wp parse_u32 _ _ u32 parse_u32_wf)| |done]; intros ? ?
  | |- wp (parsed parse_u64 _ _) _ _ => eapply wp_mono; [apply (parsed_wp parse_u64 _ _ u64 parse_u64_wf)| |done]; intros ? ?
  | |- wp (parsed parse_usize _ _) _ _ => eapply wp_mono; [apply (parsed_wp parse_usize _ _ u64 parse_u64_wf)| |done]; intros ? ?
  | |- wp (parse_nonzero_u64 _ _) _ _ => eapply wp_mono; [apply parse_nonzero_u64_wp| |done]; intros ? [? ?]
  | |- wp (parse_nonzero_usize _ _) _ _ => eapply wp_mono; [apply parse_nonzero_usize_wp| |done]; intros ? [? ?]
  | |- wp (validate_relay_address _ _) _ _ => eapply wp_mono; [by apply (validate_address_wp _ _ (λ _, True))| |done]; intros [] ?
  | |- wp (validate_path_mtu _) _ _ => eapply wp_mono; [by apply (validate_mtu_wp _ (λ _, True))| |done]; intros [] ?
  | |- wp (fails _) _ _ => done
  | |- _ => wp_step
  end; cbv beta.
Ltac cli_run := repeat cli_step.

Lemma required_inv missing value v : required missing value = Ok v → value = Some v.
Proof. destruct value; [by intros [= ->]|done]. Qed.
Lemma parsed_inv {A} (parse : list Z → option A) what value a : parsed parse what value = Ok a → parse (ascii_bytes value) = Some a.
Proof. unfold parsed. destruct (parse _); [by intros [= ->]|done]. Qed.
Lemma parse_nonzero_u64_inv value name n :
  parse_nonzero_u64 value name = Ok n → ∃ v, value = Some v ∧ parse_u64 (ascii_bytes v) = Some n ∧ n ≠ 0.
Proof.
  unfold parse_nonzero_u64. intros (v & ->%required_inv & (m & Hm%parsed_inv & H)%bind_ok_inv)%bind_ok_inv. exists v.
  destruct (Z.eqb_spec m 0); [done|]. by injection H as ->.
Qed.
Lemma parse_nonzero_usize_inv value name n :
  parse_nonzero_usize value name = Ok n → ∃ v, value = Some v ∧ parse_usize (ascii_bytes v) = Some n ∧ n ≠ 0.
Proof. exact (parse_nonzero_u64_inv value name n). Qed.
(** What an accepted value says. *)
Ltac cli_inv :=
  repeat match goal with
  | H : mbind _ _ = Ok _ |- _ => apply bind_ok_inv in H; destruct H as (? & ? & H); cbv beta in H
  | H : required _ _ = Ok _ |- _ => apply required_inv in H
  | H : parsed _ _ _ = Ok _ |- _ => apply parsed_inv in H
  | H : parse_nonzero_u64 _ _ = Ok _ |- _ => apply parse_nonzero_u64_inv in H; destruct H as (? & ? & ? & ?)
  | H : parse_nonzero_usize _ _ = Ok _ |- _ => apply parse_nonzero_usize_inv in H; destruct H as (? & ? & ? & ?)
  | H : (if ?b then _ else _) = Ok _ |- _ => destruct b eqn:?
  | H : fails _ = Ok _ |- _ => done
  | H : Ok _ = Ok _ |- _ => injection H; clear H; intros; subst
  | H : Err _ = Ok _ |- _ => done
  end.

(** ** Durations and the metrics *)

Definition duration (d : Z) : Prop := 0 <= d <= DURATION_MAX.
Definition positive_duration (d : Z) : Prop := 0 < d <= DURATION_MAX.
Lemma from_secs_duration n : u64 n → duration (from_secs n).
Proof. unfold u64, duration, from_secs, NANOS_PER_SEC, DURATION_MAX. lia. Qed.
Lemma from_secs_positive n : u64 n → n ≠ 0 → positive_duration (from_secs n).
Proof. unfold u64, positive_duration, from_secs, NANOS_PER_SEC, DURATION_MAX. lia. Qed.
Lemma from_millis_duration n : u64 n → duration (from_millis n).
Proof. unfold u64, duration, from_millis, DURATION_MAX. lia. Qed.
Lemma from_millis_positive n : u64 n → n ≠ 0 → positive_duration (from_millis n).
Proof. unfold u64, positive_duration, from_millis, DURATION_MAX. lia. Qed.
Lemma nonzero_given (P : Z → Prop) n : (n ≠ 0 → P n) → given P (nonzero n).
Proof. intros H. unfold nonzero. destruct (Z.eqb_spec n 0); [apply given_none|]. apply given_some. by apply H. Qed.
Lemma given_fmap {A B} (P : B → Prop) (f : A → B) o : given (λ a, P (f a)) o → given P (f <$> o).
Proof. intros H b (a & -> & ->)%fmap_Some. by apply H. Qed.
Lemma nonzero_secs n : u64 n → given positive_duration (from_secs <$> nonzero n).
Proof. intros Hn. apply given_fmap, nonzero_given. by apply from_secs_positive. Qed.

Definition metrics_ok (m : MetricsConfig) : Prop :=
  duration (mc_sample_interval m) ∧ given (λ n, 0 < n < 18446744073709551616) (mc_max_file_bytes m).
Lemma metrics_from_file_ok file : given file_config_wf file → wp (metrics_config_from_file file) metrics_ok (λ _, True).
Proof.
  intros Hf. unfold metrics_config_from_file. assert (metrics_ok default_metrics_config) as Hd by by split; [|apply given_some].
  destruct (file ≫= file_metrics) as [c|] eqn:Hc; [|done]. apply bind_Some in Hc as (f & -> & Hc). apply given_some in Hf as (_ & _ & Hm).
  destruct (Hm _ Hc) as [Hi Hb]. unfold apply_metrics_file_config. cli_step.
  assert (∀ m, metrics_ok m → metrics_ok (when_given (fx_max_file_bytes c) (λ bytes, set_max_file_bytes (nonzero bytes))
    (when_given (fx_interval_ms c) (λ millis, set_sample_interval (from_millis millis)) m))) as Hlast.
  { intros m [Hs Hx]. destruct (fx_interval_ms c) as [ms|]; destruct (fx_max_file_bytes c) as [bytes|]; split; cbn; try done;
      try (apply from_millis_duration, Hi; done); apply nonzero_given; specialize (Hb bytes eq_refl); unfold u64 in Hb; lia. }
  assert (metrics_ok (when_given (fx_output_dir c) (λ dir, set_output_dir (Some (path_buf dir))) default_metrics_config)) as H1 by by destruct (fx_output_dir c).
  destruct (fx_node_id c) as [id|]; [destruct (is_blank (ascii_bytes id)); [done|]|]; cbn; by apply Hlast.
Qed.

(** ** The file *)

Lemma load_optional_wp load_file path :
  (∀ path, wp (load_file path) file_config_wf (λ _, True)) → wp (load_optional_config load_file path) (given file_config_wf) (λ _, True).
Proof.
  intros load_typed. unfold load_optional_config. destruct path as [path|]; [|apply given_none]. cli_step. cli_step.
  eapply wp_mono; [apply load_typed| |done]. intros c Hc. cbn. by apply given_some.
Qed.
Lemma split_config_wp args : wp (split_config_arg args) (λ _, True) (λ _, True).
Proof.
  unfold split_config_arg. generalize (@nil string), (@None string).
  assert (∀ n args remaining path, (length args ≤ n)%nat → wp (split_loop path remaining args) (λ _, True) (λ _, True)) as H;
    [|intros; by apply (H (length args))].
  induction n as [|n IH]; intros [|a l] remaining path Hn; cbn in Hn; try lia; try done. cbn [split_loop].
  destruct (one_of a ["--config"]).
  - destruct l as [|v l]; [done|]. destruct path; [done|]. apply IH. cbn in Hn. lia.
  - destruct (strip_prefix _ a) as [v|]; [destruct (one_of v _); [done|]; destruct path; [done|]|]; apply IH; lia.
Qed.

(** * The file named among the arguments *)

Definition plain (arg : string) : Prop := one_of arg ["--config"] = false ∧ strip_prefix "--config=" arg = None.
#[export] Instance plain_dec arg : Decision (plain arg).
Proof. unfold plain. apply _. Defined.
Lemma strip_prefix_iff prefix : ∀ arg value, strip_prefix prefix arg = Some value ↔ arg = (prefix +:+ value)%string.
Proof.
  induction prefix as [|c prefix IH]; intros arg value; cbn; [split; [by intros [= ->]|by intros ->]|].
  destruct arg as [|d arg]; [done|].
  destruct (Ascii.eqb_spec c d) as [->|Hne]; [rewrite IH; split; [by intros ->|by intros [= ->]]|]. split; [done|]. by intros [= <- _].
Qed.
Lemma one_of_one arg name : one_of arg [name] = true ↔ arg = name.
Proof. unfold one_of. cbn. rewrite orb_false_r. apply String.eqb_eq. Qed.
Lemma split_loop_plain ps path : ∀ remaining args,
  Forall plain ps → split_loop path remaining (ps ++ args) = split_loop path (reverse ps ++ remaining) args.
Proof.
  induction ps as [|a ps IH]; intros remaining args Hp; [done|]. apply Forall_cons in Hp as [[Ha Hs] Hp]. cbn [app split_loop].
  rewrite Ha, Hs, IH by done. by rewrite reverse_cons, <-(assoc_L (++)).
Qed.
Lemma split_loop_found path args : ∀ remaining found rest,
  split_loop (Some path) remaining args = Ok (found, rest) → found = Some path ∧ Forall plain args ∧ rest = reverse remaining ++ args.
Proof.
  induction args as [|a args IH]; intros remaining found rest; cbn [split_loop]; [intros [= <- <-]; by rewrite app_nil_r|].
  destruct (one_of a ["--config"]) eqn:Ha; [by destruct args|]. destruct (strip_prefix "--config=" a) as [v|] eqn:Hs; [by destruct (one_of v _)|].
  intros (-> & Hp & ->)%IH. split; [done|]. split; [by constructor|]. by rewrite reverse_cons, <-(assoc_L (++)).
Qed.

(** Which arguments name a file, and which are left. *)
Lemma split_config_iff args found rest :
  split_config_arg args = Ok (found, rest) ↔
  Forall plain rest ∧
  match found with
  | None => rest = args
  | Some path => ∃ before after, rest = before ++ after ∧
      (args = before ++ "--config"%string :: path :: after ∨ path ≠ ""%string ∧ args = before ++ ("--config=" +:+ path)%string :: after)
  end.
Proof.
  unfold split_config_arg. split.
  - assert (∀ args remaining, Forall plain remaining → split_loop None remaining args = Ok (found, rest) →
      Forall plain rest ∧ match found with
      | None => rest = reverse remaining ++ args
      | Some path => ∃ before after, rest = reverse remaining ++ before ++ after ∧
          (args = before ++ "--config"%string :: path :: after ∨ path ≠ ""%string ∧ args = before ++ ("--config=" +:+ path)%string :: after)
      end) as H; [|intros Hs; by apply (H args [])].
    clear args. induction args as [|a args IH]; intros remaining Hr; cbn [split_loop].
    { intros [= <- <-]. rewrite app_nil_r. split; [by apply Forall_reverse|done]. }
    destruct (one_of a ["--config"]) eqn:Ha.
    + apply one_of_one in Ha as ->. destruct args as [|v args]; [done|]. intros (-> & Hp & ->)%split_loop_found.
      split; [apply Forall_app; by rewrite Forall_reverse|]. exists [], args. by split; [|left].
    + destruct (strip_prefix "--config=" a) as [v|] eqn:Hs.
      * apply strip_prefix_iff in Hs as ->. destruct (one_of v [""]) eqn:Hv; [done|]. intros (-> & Hp & ->)%split_loop_found.
        split; [apply Forall_app; by rewrite Forall_reverse|]. exists [], args. split; [done|]. right. split; [|done].
        intros ->. by rewrite (proj2 (one_of_one _ _)) in Hv.
      * intros H. apply IH in H as [Hp H]; [|by constructor]. split; [done|]. rewrite reverse_cons, <-(assoc_L (++)) in H. destruct found as [path|]; [|done].
        destruct H as (before & after & -> & H). exists (a :: before), after. rewrite <-(assoc_L (++)). split; [done|].
        destruct H as [->|[? ->]]; [by left|by right].
  - intros [Hp H]. destruct found as [path|].
    + destruct H as (before & after & -> & H). apply Forall_app in Hp as [Hb Ha].
      assert (split_loop (Some path) (reverse before ++ []) after = Ok (Some path, before ++ after)) as Hend.
      { rewrite <-(app_nil_r after) at 1. rewrite split_loop_plain by done. cbn. by rewrite app_nil_r, <-reverse_app, reverse_involutive. }
      destruct H as [->|[Hne ->]]; rewrite split_loop_plain by done; cbn [split_loop].
      * by rewrite (proj2 (one_of_one _ _)).
      * assert (one_of ("--config=" +:+ path) ["--config"] = false) as -> by by destruct path.
        rewrite (proj2 (strip_prefix_iff _ _ path)) by done. destruct (one_of path [""]) eqn:Hv; [by apply one_of_one in Hv|done].
    + subst rest. rewrite <-(app_nil_r args) at 1. rewrite split_loop_plain by done. cbn. by rewrite app_nil_r, reverse_involutive.
Qed.

(** C40: the configuration file is whatever [--config FILE] or [--config=FILE] names, wherever it stands; the other arguments keep their
    order, and nothing else is taken from them. Without one there is no file and the arguments stay as they are; anything else, such as a
    second file, a last [--config] without a value or an empty [--config=], is an error, and never a panic. *)
Theorem config_file_found args :
  returns (split_config_arg args) ∧
  ∀ found rest,
    split_config_arg args = Ok (found, rest) ↔
    Forall plain rest ∧
    match found with
    | None => rest = args
    | Some path => ∃ before after, rest = before ++ after ∧
        (args = before ++ "--config"%string :: path :: after ∨ path ≠ ""%string ∧ args = before ++ ("--config=" +:+ path)%string :: after)
    end.
Proof. split; [apply split_config_wp|intros; apply split_config_iff]. Qed.
