(* ===== verification/RelayCommand.v ===== *)
(** [amt relay] of [src/main.rs]: from the arguments and the configuration file to the configuration of the relay daemon. *)

From stdpp Require Import strings.
From S2P Require Import Prelude Net Effects Protocol Query Membership State Relay Text Dns Driad Pmtu Upstream Downstream Worker Metrics RelayDaemon RelayControl RelayData RelayLoop Config AddrText Options.

(** * The options *)

(** The variables that [parse_relay_config] sets from the file and changes by the arguments. *)
Record RelayOptions := mkRelayOptions {
  ro_bind : option SocketAddr;
  ro_ecn : bool;
  ro_relay_addresses : list IpAddr;
  ro_upstream_interface : option IpAddr;
  ro_upstream_interface_index : option Z;
  ro_gateway_idle_timeout : option Z;
  ro_gateway_prune_interval : Z;
  ro_path_mtu : Z;
  ro_pmtu_feedback : bool;
  ro_metrics : MetricsConfig
}.
Definition ro_set_bind (x : option SocketAddr) (o : RelayOptions) : RelayOptions :=
  mkRelayOptions x (ro_ecn o) (ro_relay_addresses o) (ro_upstream_interface o) (ro_upstream_interface_index o) (ro_gateway_idle_timeout o) (ro_gateway_prune_interval o) (ro_path_mtu o) (ro_pmtu_feedback o) (ro_metrics o).
Definition ro_set_ecn (x : bool) (o : RelayOptions) : RelayOptions :=
  mkRelayOptions (ro_bind o) x (ro_relay_addresses o) (ro_upstream_interface o) (ro_upstream_interface_index o) (ro_gateway_idle_timeout o) (ro_gateway_prune_interval o) (ro_path_mtu o) (ro_pmtu_feedback o) (ro_metrics o).
Definition ro_set_relay_addresses (x : list IpAddr) (o : RelayOptions) : RelayOptions :=
  mkRelayOptions (ro_bind o) (ro_ecn o) x (ro_upstream_interface o) (ro_upstream_interface_index o) (ro_gateway_idle_timeout o) (ro_gateway_prune_interval o) (ro_path_mtu o) (ro_pmtu_feedback o) (ro_metrics o).
Definition ro_set_upstream_interface (x : option IpAddr) (o : RelayOptions) : RelayOptions :=
  mkRelayOptions (ro_bind o) (ro_ecn o) (ro_relay_addresses o) x (ro_upstream_interface_index o) (ro_gateway_idle_timeout o) (ro_gateway_prune_interval o) (ro_path_mtu o) (ro_pmtu_feedback o) (ro_metrics o).
Definition ro_set_upstream_interface_index (x : option Z) (o : RelayOptions) : RelayOptions :=
  mkRelayOptions (ro_bind o) (ro_ecn o) (ro_relay_addresses o) (ro_upstream_interface o) x (ro_gateway_idle_timeout o) (ro_gateway_prune_interval o) (ro_path_mtu o) (ro_pmtu_feedback o) (ro_metrics o).
Definition ro_set_gateway_idle_timeout (x : option Z) (o : RelayOptions) : RelayOptions :=
  mkRelayOptions (ro_bind o) (ro_ecn o) (ro_relay_addresses o) (ro_upstream_interface o) (ro_upstream_interface_index o) x (ro_gateway_prune_interval o) (ro_path_mtu o) (ro_pmtu_feedback o) (ro_metrics o).
Definition ro_set_gateway_prune_interval (x : Z) (o : RelayOptions) : RelayOptions :=
  mkRelayOptions (ro_bind o) (ro_ecn o) (ro_relay_addresses o) (ro_upstream_interface o) (ro_upstream_interface_index o) (ro_gateway_idle_timeout o) x (ro_path_mtu o) (ro_pmtu_feedback o) (ro_metrics o).
Definition ro_set_path_mtu (x : Z) (o : RelayOptions) : RelayOptions :=
  mkRelayOptions (ro_bind o) (ro_ecn o) (ro_relay_addresses o) (ro_upstream_interface o) (ro_upstream_interface_index o) (ro_gateway_idle_timeout o) (ro_gateway_prune_interval o) x (ro_pmtu_feedback o) (ro_metrics o).
Definition ro_set_pmtu_feedback (x : bool) (o : RelayOptions) : RelayOptions :=
  mkRelayOptions (ro_bind o) (ro_ecn o) (ro_relay_addresses o) (ro_upstream_interface o) (ro_upstream_interface_index o) (ro_gateway_idle_timeout o) (ro_gateway_prune_interval o) (ro_path_mtu o) x (ro_metrics o).
Definition ro_set_metrics (x : MetricsConfig) (o : RelayOptions) : RelayOptions :=
  mkRelayOptions (ro_bind o) (ro_ecn o) (ro_relay_addresses o) (ro_upstream_interface o) (ro_upstream_interface_index o) (ro_gateway_idle_timeout o) (ro_gateway_prune_interval o) (ro_path_mtu o) (ro_pmtu_feedback o) x.
(** The rates, which only the file gives. *)
Record ControlRates := mkControlRates {
  cr_per_second : Z;
  cr_burst : Z;
  cr_global_per_second : Z;
  cr_global_burst : Z
}.
Definition control_rates (relay_file : option RelayFileConfig) : res CliError ControlRates :=
  let rate_file := relay_file ≫= f_rate_limit in
  let control_rate_per_second := default DEFAULT_CONTROL_RATE_PER_SECOND (rate_file ≫= fr_per_source_per_second) in
  let control_rate_burst := default DEFAULT_CONTROL_RATE_BURST (rate_file ≫= fr_per_source_burst) in
  let global_control_rate_per_second := default DEFAULT_GLOBAL_CONTROL_RATE_PER_SECOND (rate_file ≫= fr_global_per_second) in
  let global_control_rate_burst := default DEFAULT_GLOBAL_CONTROL_RATE_BURST (rate_file ≫= fr_global_burst) in
  if bool_decide (0 ∈ [control_rate_per_second; control_rate_burst; global_control_rate_per_second; global_control_rate_burst])
  then fails "relay rate-limit values must all be greater than 0"
  else Ok (mkControlRates control_rate_per_second control_rate_burst global_control_rate_per_second global_control_rate_burst).

Definition relay_options_from_file (file : option FileConfig) : res CliError (RelayOptions * ControlRates) :=
  let relay_file := file ≫= file_relay in
  let gateway_idle_timeout :=
    match relay_file ≫= f_gateway_idle_timeout_secs with
    | Some seconds => if seconds =? 0 then None else Some (from_secs seconds)
    | None => Some DEFAULT_GATEWAY_IDLE_TIMEOUT
    end in
  gateway_prune_interval ←
    match relay_file ≫= f_gateway_prune_interval_secs with
    | Some seconds => if seconds =? 0 then fails "relay.gateway_prune_interval_secs must not be 0" else Ok (from_secs seconds)
    | None => Ok DEFAULT_GATEWAY_PRUNE_INTERVAL
    end;
  let path_mtu := default DEFAULT_RELAY_PATH_MTU (relay_file ≫= f_path_mtu) in
  _ ← validate_path_mtu path_mtu;
  metrics ← metrics_config_from_file file;
  rates ← control_rates relay_file;
  Ok (mkRelayOptions (relay_file ≫= f_bind) (default false (relay_file ≫= f_ecn))
        (default [] (into_vec <$> (relay_file ≫= f_relay_address))) (relay_file ≫= f_upstream_interface)
        (relay_file ≫= f_upstream_interface_index) gateway_idle_timeout gateway_prune_interval path_mtu
        (default false (relay_file ≫= f_pmtu_feedback)) metrics, rates).

(** The arms of the loop over the arguments. *)
Definition relay_arm (arg : string) (o : RelayOptions) : Arm RelayOptions :=
  if one_of arg ["--bind"] then Take (λ value,
    value ← required "--bind requires an address like 0.0.0.0:2268" value;
    bind ← parsed parse_socket "--bind address" value;
    Ok (ro_set_bind (Some bind) o))
  else if one_of arg ["--relay-address"; "--advertise"] then Take (λ value,
    value ← required "--relay-address requires an IP address" value;
    addr ← parsed parse_ip "--relay-address" value;
    _ ← validate_relay_address addr "--relay-address";
    Ok (ro_set_relay_addresses (ro_relay_addresses o ++ [addr]) o))
  else if one_of arg ["--upstream-interface"] then Take (λ value,
    value ← required "--upstream-interface requires an IP address" value;
    interface ← parsed parse_ip "--upstream-interface" value;
    Ok (ro_set_upstream_interface (Some interface) o))
  else if one_of arg ["--upstream-ifindex"] then Take (λ value,
    value ← required "--upstream-ifindex requires a non-zero interface index" value;
    index ← parsed parse_u32 "--upstream-ifindex" value;
    if index =? 0 then fails "--upstream-ifindex must not be 0" else Ok (ro_set_upstream_interface_index (Some index) o))
  else if one_of arg ["--gateway-idle-timeout"] then Take (λ value,
    value ← required "--gateway-idle-timeout requires seconds, or 0 to disable pruning" value;
    seconds ← parsed parse_u64 "--gateway-idle-timeout" value;
    Ok (ro_set_gateway_idle_timeout (from_secs <$> nonzero seconds) o))
  else if one_of arg ["--gateway-prune-interval"] then Take (λ value,
    value ← required "--gateway-prune-interval requires a positive number of seconds" value;
    seconds ← parsed parse_u64 "--gateway-prune-interval" value;
    if seconds =? 0 then fails "--gateway-prune-interval must not be 0" else Ok (ro_set_gateway_prune_interval (from_secs seconds) o))
  else if one_of arg ["--path-mtu"] then Take (λ value,
    value ← required "--path-mtu requires bytes" value;
    path_mtu ← parsed parse_usize "--path-mtu" value;
    _ ← validate_path_mtu path_mtu;
    Ok (ro_set_path_mtu path_mtu o))
  else if one_of arg ["--pmtu-feedback"] then Assign (ro_set_pmtu_feedback true o)
  else if one_of arg ["--no-pmtu-feedback"] then Assign (ro_set_pmtu_feedback false o)
  else if one_of arg ["--ecn"] then Assign (ro_set_ecn true o)
  else if one_of arg ["--no-ecn"] then Assign (ro_set_ecn false o)
  else if one_of arg ["--metrics-dir"] then Take (λ value,
    value ← required "--metrics-dir requires a directory path" value;
    Ok (ro_set_metrics (set_output_dir (Some (path_buf value)) (ro_metrics o)) o))
  else if one_of arg ["--node-id"] then Take (λ value,
    value ← required "--node-id requires a value" value;
    Ok (ro_set_metrics (set_node_id value (ro_metrics o)) o))
  else if one_of arg ["--metrics-interval-ms"] then Take (λ value,
    value ← required "--metrics-interval-ms requires milliseconds" value;
    millis ← parsed parse_u64 "--metrics-interval-ms" value;
    Ok (ro_set_metrics (set_sample_interval (from_millis millis) (ro_metrics o)) o))
  else if one_of arg ["-h"; "--help"] then PrintUsage
  else Reject (WithUsage (quoted "unknown relay argument" arg)).

(** * The configuration *)

(** One [apply_limit!]. *)
Definition apply_limit (field : string) (configured : option Z) (current : Z) : res CliError Z :=
  match configured with
  | Some value => if value =? 0 then fails ("relay.limits." +:+ field +:+ " must not be 0") else Ok value
  | None => Ok current
  end.
Definition apply_relay_limits (limits : RelayLimits) (configured : RelayLimitsFileConfig) : res CliError RelayLimits :=
  a ← apply_limit "max_endpoints" (fl_max_endpoints configured) (max_endpoints limits);
  b ← apply_limit "max_endpoints_per_ip" (fl_max_endpoints_per_ip configured) (max_endpoints_per_ip limits);
  c ← apply_limit "max_groups_per_endpoint" (fl_max_groups_per_endpoint configured) (max_groups_per_endpoint limits);
  d ← apply_limit "max_sources_per_group" (fl_max_sources_per_group configured) (max_sources_per_group limits);
  e ← apply_limit "max_total_endpoint_groups" (fl_max_total_endpoint_groups configured) (max_total_endpoint_groups limits);
  f ← apply_limit "max_total_sources" (fl_max_total_sources configured) (max_total_sources limits);
  g ← apply_limit "max_upstream_subscriptions" (fl_max_upstream_subscriptions configured) (max_upstream_subscriptions limits);
  h ← apply_limit "max_records_per_report" (fl_max_records_per_report configured) (max_records_per_report limits);
  Ok (mkRelayLimits a b c d e f g h).

(** [for address in &relay_addresses]. *)
Fixpoint validate_relay_addresses (addresses : list IpAddr) : res CliError unit :=
  match addresses with
  | [] => Ok tt
  | address :: addresses => _ ← validate_relay_address address "relay.relay_address"; validate_relay_addresses addresses
  end.
Definition ip_is_ipv4 (ip : IpAddr) : bool := match ip with V4 _ => true | V6 _ => false end.
Definition default_relay_bind (relay_addresses : list IpAddr) : SocketAddr :=
  if existsb (λ a, negb (ip_is_ipv4 a)) relay_addresses && negb (existsb ip_is_ipv4 relay_addresses)
  then SocketAddrV6 Ipv6_UNSPECIFIED AMT_PORT 0 0
  else SocketAddrV4 (mkIpv4 0 0 0 0) AMT_PORT.

Section command.
(** Whether the program is built with [pmtu-feedback]; the secret that [RelayConfig::default] draws; the file reader. *)
Context (pmtu_feature : bool) (secret : RelaySecret) (load_file : string → res string FileConfig).

Definition relay_engine_config (relay_file : option RelayFileConfig) (o : RelayOptions) : res CliError RelayConfig :=
  let bind := default (default_relay_bind (ro_relay_addresses o)) (ro_bind o) in
  let c := for_bind secret bind in
  let c := mkRelayConfig (rc_bind c) (rc_advertise_ipv4 c) (rc_advertise_ipv6 c) (rc_secret c) (rc_include_gateway_address c)
    (ro_ecn o) (rc_limit c) (rc_limits c) (rc_secret_rotation_interval c) (rc_general_query c) in
  let c := foldl with_advertise_addr c (ro_relay_addresses o) in
  let rotation :=
    match relay_file ≫= f_secret_rotation_secs with
    | Some seconds => from_secs <$> nonzero seconds
    | None => rc_secret_rotation_interval c
    end in
  limits ← match relay_file ≫= f_limits with Some configured => apply_relay_limits (rc_limits c) configured | None => Ok (rc_limits c) end;
  Ok (mkRelayConfig (rc_bind c) (rc_advertise_ipv4 c) (rc_advertise_ipv6 c) (rc_secret c) (rc_include_gateway_address c)
    (rc_ecn c) (rc_limit c) limits rotation (rc_general_query c)).

Definition relay_daemon_config (file : option FileConfig) (o : RelayOptions) (rates : ControlRates) : res CliError RelayDaemonConfig :=
  _ ← validate_relay_addresses (ro_relay_addresses o);
  if ro_pmtu_feedback o && negb pmtu_feature
  then fails "PMTU feedback requires building quicast-amt with --features pmtu-feedback"
  else if ro_pmtu_feedback o && bool_decide (ro_upstream_interface o = None)
  then fails "PMTU feedback requires --upstream-interface IP"
  else
    config ← relay_engine_config (file ≫= file_relay) o;
    let relay_daemon :=
      mkRelayDaemonConfig config (mkUpstreamConfig (ro_upstream_interface o) (ro_upstream_interface_index o))
        (ro_gateway_idle_timeout o) (ro_gateway_prune_interval o) (ro_path_mtu o) (ro_pmtu_feedback o)
        (cr_per_second rates) (cr_burst rates) (cr_global_per_second rates) (cr_global_burst rates) (ro_metrics o) in
    _ ← map_err (λ '(timeout, interval), IdleTimeoutRejected timeout interval) (validate_relay_daemon relay_daemon);
    Ok relay_daemon.

Definition parse_relay_config (args : list string) : res CliError (option RelayDaemonConfig) :=
  '(config_path, remaining_args) ← split_config_arg args;
  file_config ← load_optional_config load_file config_path;
  '(options, rates) ← relay_options_from_file file_config;
  options ← arg_loop relay_arm options remaining_args;
  match options with
  | Some options => config ← relay_daemon_config file_config options rates; Ok (Some config)
  | None => Ok None
  end.
End command.

(** * What is accepted *)

(** The options stay in the ranges that the checks and the types give them. *)
Record relay_options_ok (o : RelayOptions) : Prop := {
  ok_bind : given sock_wf (ro_bind o);
  ok_addresses : Forall ip_wf (ro_relay_addresses o);
  ok_interface : given ip_wf (ro_upstream_interface o);
  ok_index : given u32 (ro_upstream_interface_index o);
  ok_idle : given positive_duration (ro_gateway_idle_timeout o);
  ok_prune : positive_duration (ro_gateway_prune_interval o);
  ok_mtu : 1280 <= ro_path_mtu o <= 65535;
  ok_metrics : metrics_ok (ro_metrics o)
}.
Definition rate_ok (n : Z) : Prop := 0 < n < 4294967296.
Definition rates_ok (r : ControlRates) : Prop :=
  rate_ok (cr_per_second r) ∧ rate_ok (cr_burst r) ∧ rate_ok (cr_global_per_second r) ∧ rate_ok (cr_global_burst r).

Lemma relay_arm_ok arg o :
  relay_options_ok o →
  match relay_arm arg o with Assign o' => relay_options_ok o' | Take use => ∀ v, wp (use v) relay_options_ok (λ _, True) | _ => True end.
Proof.
  intros Ho. destruct Ho as [H1 H2 H3 H4 H5 H6 H7 H8]. unfold relay_arm.
  repeat match goal with |- context [if one_of ?a ?l then _ else _] => destruct (one_of a l) end; try done; intros; cli_run; zbool; split; cbn;
    try done; try (by apply given_some); try (by apply from_secs_positive); try (by apply nonzero_secs); try lia.
  - apply Forall_app. split; [done|]. by apply Forall_singleton.
  - destruct H8. split; [by apply from_millis_duration|done].
Qed.

Lemma control_rates_ok file : given relay_file_wf file → wp (control_rates file) rates_ok (λ _, True).
Proof.
  intros Hf. unfold control_rates. assert (given rate_file_wf (file ≫= f_rate_limit)) as Hr by (eapply given_bind; [done|]; intros c Hc; unfold relay_file_wf, file_config_wf in Hc; by destruct_and?).
  assert (∀ (f : RateLimitFileConfig → option Z) d, rate_ok d → (∀ c, f c ∈ [fr_per_source_per_second c; fr_per_source_burst c; fr_global_per_second c; fr_global_burst c]) →
    default d ((file ≫= f_rate_limit) ≫= f) ≠ 0 → rate_ok (default d ((file ≫= f_rate_limit) ≫= f))) as Hrate.
  { intros f d Hd Hin Hne. destruct (file ≫= f_rate_limit) as [c|]; [|done]. cbn in *. destruct (f c) as [n|] eqn:Hn; [|done]. cbn in *.
    specialize (Hr c eq_refl). unfold rate_file_wf in Hr. rewrite Forall_forall in Hr. specialize (Hr _ (Hin c) n Hn). unfold u32 in Hr. unfold rate_ok. lia. }
  case_bool_decide as H0; [done|]. rewrite !not_elem_of_cons in H0. destruct H0 as (N1 & N2 & N3 & N4 & _). cbn.
  split_and!; apply Hrate; try done; intros c; set_solver.
Qed.
Lemma from_file_ok file : given file_config_wf file → wp (relay_options_from_file file) (λ '(o, rates), relay_options_ok o ∧ rates_ok rates) (λ _, True).
Proof.
  intros Hf. unfold relay_options_from_file. assert (given relay_file_wf (file ≫= file_relay)) as Hr by (eapply given_bind; [done|]; intros c Hc; unfold relay_file_wf, file_config_wf in Hc; by destruct_and?).
  generalize (metrics_from_file_ok file Hf). generalize (metrics_config_from_file file). intros metrics Hm.
  assert (∀ f : RelayFileConfig → option Z, (∀ c, f c ∈ [f_gateway_idle_timeout_secs c; f_gateway_prune_interval_secs c; f_secret_rotation_secs c; f_path_mtu c]) →
    given u64 ((file ≫= file_relay) ≫= f)) as H64.
  { intros f Hin. eapply given_bind; [done|]. intros c (_ & _ & _ & _ & Hs & _). rewrite Forall_forall in Hs. by apply Hs. }
  assert (given u64 ((file ≫= file_relay) ≫= f_gateway_prune_interval_secs)) as Hp by (apply H64; set_solver).
  assert (given u64 ((file ≫= file_relay) ≫= f_gateway_idle_timeout_secs)) as Hi by (apply H64; set_solver).
  cli_step. eapply (wp_mono _ positive_duration _ (λ _, True)); [| |done].
  { destruct (_ ≫= f_gateway_prune_interval_secs) as [n|]; [|by cbn]. destruct (Z.eqb_spec n 0); [done|]. cbn. apply from_secs_positive; [by apply Hp|done]. }
  intros prune Hprune. cli_step. cli_step. cli_step. eapply wp_mono; [exact Hm| |done]. intros m Hmet. cli_step.
  eapply wp_mono; [by apply control_rates_ok| |done]. intros rates Hrates. cbn. split; [|done]. split; cbn; try done.
  - eapply given_bind; [done|]. intros c Hc. unfold relay_file_wf in Hc. by destruct_and?.
  - destruct ((file ≫= file_relay) ≫= f_relay_address) as [a|] eqn:Ha; [|done]. cbn. apply bind_Some in Ha as (c & Hc & Ha).
    by apply (proj1 (proj2 (Hr c Hc))).
  - eapply given_bind; [done|]. intros c Hc. unfold relay_file_wf in Hc. by destruct_and?.
  - eapply given_bind; [done|]. intros c Hc. unfold relay_file_wf in Hc. by destruct_and?.
  - destruct ((file ≫= file_relay) ≫= f_gateway_idle_timeout_secs) as [n|]; [|by apply given_some].
    destruct (Z.eqb_spec n 0); [apply given_none|]. apply given_some, from_secs_positive; [by apply Hi|done].
Qed.

(** ** The configuration of the engine *)

Definition limits_positive (l : RelayLimits) : Prop :=
  Forall (λ n, 0 < n < 18446744073709551616) [max_endpoints l; max_endpoints_per_ip l; max_groups_per_endpoint l; max_sources_per_group l;
    max_total_endpoint_groups l; max_total_sources l; max_upstream_subscriptions l; max_records_per_report l].
Lemma apply_limit_ok field configured current :
  given u64 configured → 0 < current < 18446744073709551616 →
  wp (apply_limit field configured current) (λ n, 0 < n < 18446744073709551616) (λ _, True).
Proof.
  intros Hg Hc. unfold apply_limit. destruct configured as [n|]; [|done]. specialize (Hg n eq_refl). unfold u64 in Hg.
  destruct (Z.eqb_spec n 0); [done|]. cbn. lia.
Qed.
Lemma apply_relay_limits_ok limits configured :
  limits_positive limits → limits_file_wf configured → wp (apply_relay_limits limits configured) limits_positive (λ _, True).
Proof.
  unfold limits_positive, limits_file_wf. rewrite !Forall_cons. intros Hl Hc. destruct_and?. unfold apply_relay_limits.
  do 8 (wp_step; eapply wp_mono; [by apply apply_limit_ok| |done]; intros ? ?). cbn. do 8 (apply Forall_cons; split; [assumption|]). by apply Forall_nil.
Qed.

(** The addresses to advertise: the last of the family that was given, else the concrete address of the socket, else that of the loopback. *)
Definition ipv4_of (a : IpAddr) : option Ipv4Addr := match a with V4 a => Some a | V6 _ => None end.
Definition ipv6_of (a : IpAddr) : option Ipv6Addr := match a with V6 a => Some a | V4 _ => None end.
Definition concrete (bind : SocketAddr) : option IpAddr := if ip_is_unspecified (sock_ip bind) then None else Some (sock_ip bind).
Definition advertised {A} (family : IpAddr → option A) (loopback : A) (addresses : list IpAddr) (bind : SocketAddr) : A :=
  default (default loopback (concrete bind ≫= family)) (last (omap family addresses)).
Definition engine_ok (o : RelayOptions) (c : RelayConfig) : Prop :=
  sock_wf (rc_bind c) ∧ limits_positive (rc_limits c) ∧ rc_general_query c = for_amt ∧ rc_ecn c = ro_ecn o ∧
  given positive_duration (rc_secret_rotation_interval c) ∧
  rc_advertise_ipv4 c = advertised ipv4_of Ipv4_LOCALHOST (ro_relay_addresses o) (rc_bind c) ∧
  rc_advertise_ipv6 c = advertised ipv6_of Ipv6_LOCALHOST (ro_relay_addresses o) (rc_bind c).
Lemma with_advertise_fold addresses c :
  let c' := foldl with_advertise_addr c addresses in
  rc_advertise_ipv4 c' = default (rc_advertise_ipv4 c) (last (omap ipv4_of addresses)) ∧
  rc_advertise_ipv6 c' = default (rc_advertise_ipv6 c) (last (omap ipv6_of addresses)) ∧
  rc_bind c' = rc_bind c ∧ rc_limits c' = rc_limits c ∧ rc_general_query c' = rc_general_query c ∧ rc_ecn c' = rc_ecn c ∧
  rc_secret_rotation_interval c' = rc_secret_rotation_interval c.
Proof.
  induction addresses as [|a addresses IH] using rev_ind; [done|]. rewrite foldl_app, !omap_app. cbn [foldl] in *.
  destruct IH as (H4 & H6 & IH). destruct a as [a|a]; cbn; rewrite ?app_nil_r, ?last_snoc; (split; [done|]; split; [done|exact IH]).
Qed.
Lemma foldl_advertise_same addresses : ∀ c,
  rc_bind (foldl with_advertise_addr c addresses) = rc_bind c ∧ rc_ecn (foldl with_advertise_addr c addresses) = rc_ecn c.
Proof. induction addresses as [|a l IH]; intros c; [done|]. cbn [foldl]. destruct (IH (with_advertise_addr c a)) as [-> ->]. done. Qed.
Lemma default_relay_bind_wf addresses : sock_wf (default_relay_bind addresses).
Proof. unfold default_relay_bind. destruct (_ && _); decide_ok. Qed.
Lemma relay_engine_ok secret file o :
  given relay_file_wf file → relay_options_ok o → wp (relay_engine_config secret file o) (engine_ok o) (λ _, True).
Proof.
  intros Hf Ho. unfold relay_engine_config. set (bind := default _ (ro_bind o)).
  assert (sock_wf bind) as Hb by (apply given_default; [apply Ho|apply default_relay_bind_wf]).
  set (c0 := mkRelayConfig _ _ _ _ _ _ _ _ _ _).
  assert (rc_advertise_ipv4 c0 = default Ipv4_LOCALHOST (concrete bind ≫= ipv4_of) ∧ rc_advertise_ipv6 c0 = default Ipv6_LOCALHOST (concrete bind ≫= ipv6_of) ∧
    rc_bind c0 = bind ∧ rc_limits c0 = default_relay_limits ∧ rc_general_query c0 = for_amt ∧ rc_ecn c0 = ro_ecn o ∧
    rc_secret_rotation_interval c0 = Some (from_secs (2 * 60 * 60))) as (A4 & A6 & B & L & Q & E & R).
  { unfold c0, for_bind, concrete. destruct (ip_is_unspecified (sock_ip bind)); cbn; [done|]. by destruct (sock_ip bind). }
  destruct (with_advertise_fold (ro_relay_addresses o) c0) as (A4' & A6' & B' & L' & Q' & E' & R'). rewrite A4 in A4'. rewrite A6 in A6'.
  rewrite B in B'. rewrite L in L'. rewrite R in R'. revert A4' A6' B' L' Q' E' R'. generalize (foldl with_advertise_addr c0 (ro_relay_addresses o)). intros c A4' A6' B' L' Q' E' R'.
  assert (limits_positive (rc_limits c)) as Hl by (rewrite L'; unfold limits_positive; decide_ok).
  wp_step. eapply (wp_mono _ limits_positive _ (λ _, True)); [| |done].
  { destruct (file ≫= f_limits) as [x|] eqn:Hx; [|done]. apply apply_relay_limits_ok; [done|]. apply bind_Some in Hx as (f & -> & Hx).
    specialize (Hf f eq_refl). unfold relay_file_wf in Hf. destruct_and?. auto. }
  intros limits Hlim. cbn. unfold engine_ok. cbn. rewrite B', Q', E'. split_and!; try done.
  destruct (file ≫= f_secret_rotation_secs) as [n|] eqn:Hn; [|rewrite R'; by apply given_some]. apply nonzero_secs.
  apply bind_Some in Hn as (f & -> & Hn). specialize (Hf f eq_refl) as (_ & _ & _ & _ & Hs & _). rewrite !Forall_cons in Hs. destruct_and?. auto.
Qed.

(** ** The options of the command line *)

Definition relay_takes (arg : string) : bool :=
  one_of arg ["--bind"; "--relay-address"; "--advertise"; "--upstream-interface"; "--upstream-ifindex"; "--gateway-idle-timeout";
    "--gateway-prune-interval"; "--path-mtu"; "--metrics-dir"; "--node-id"; "--metrics-interval-ms"].
Lemma relay_arm_takes : takes_value relay_arm relay_takes.
Proof.
  intros arg o. destruct (relay_arm arg o) as [o'|use|e|] eqn:H; try done; unfold relay_arm in H; by_name; by simplify_eq.
Qed.

Definition flag (name : string) (arg : string) (_ : option string) : option bool := Some (String.eqb arg name).
(** The settings, each with the arguments it comes from; [law] is what is said of each. *)
Definition relay_settings (law : ∀ A, (RelayOptions → A) → list string → (string → option string → option A) → Prop) : Prop :=
  law _ ro_bind ["--bind"] (λ n v, Some <$> reads parse_socket n v) ∧
  law _ ro_ecn ["--ecn"; "--no-ecn"] (flag "--ecn") ∧
  law _ ro_upstream_interface ["--upstream-interface"] (λ n v, Some <$> reads parse_ip n v) ∧
  law _ ro_upstream_interface_index ["--upstream-ifindex"] (λ n v, Some <$> reads parse_u32 n v) ∧
  law _ ro_gateway_idle_timeout ["--gateway-idle-timeout"] (λ n v, (λ s, from_secs <$> nonzero s) <$> reads parse_u64 n v) ∧
  law _ ro_gateway_prune_interval ["--gateway-prune-interval"] (λ n v, from_secs <$> reads parse_u64 n v) ∧
  law _ ro_path_mtu ["--path-mtu"] (reads parse_usize) ∧
  law _ ro_pmtu_feedback ["--pmtu-feedback"; "--no-pmtu-feedback"] (flag "--pmtu-feedback") ∧
  law _ (mc_output_dir ∘ ro_metrics) ["--metrics-dir"] (λ _ v, (λ dir, Some (path_buf dir)) <$> v) ∧
  law _ (mc_node_id ∘ ro_metrics) ["--node-id"] (λ _ v, v) ∧
  law _ (mc_sample_interval ∘ ro_metrics) ["--metrics-interval-ms"] (λ n v, from_millis <$> reads parse_u64 n v) ∧
  law _ (mc_max_file_bytes ∘ ro_metrics) [] (λ _ _, None).
Definition named_address (t : string * option string) : option IpAddr :=
  if one_of t.1 ["--relay-address"; "--advertise"] then reads parse_ip t.1 t.2 else None.
Lemma relay_token_law o t o' :
  run_token relay_arm o t = Ok (Some o') →
  relay_settings (λ A proj names f, if one_of t.1 names then f t.1 t.2 = Some (proj o') else proj o' = proj o) ∧
  ro_relay_addresses o' = ro_relay_addresses o ++ option_list (named_address t).
Proof.
  destruct t as [name value]. unfold run_token, relay_arm. cbn [fst snd]. intros H.
  by_name; cli_inv; try done; unfold relay_settings, named_address; cbn; unfold reads; cbn;
    repeat match goal with H : _ = Some _ |- _ => rewrite H end; cbn; rewrite ?app_nil_r; by split_and!.
Qed.
Lemma relay_tokens_governed ts o o' :
  run_tokens relay_arm o ts = Ok (Some o') →
  relay_settings (λ A proj names f, governed proj names f o o' ts) ∧ ro_relay_addresses o' = ro_relay_addresses o ++ omap named_address ts.
Proof.
  intros H. split.
  - unfold relay_settings. split_and!; apply (last_mention_governs relay_arm); try done; intros ? ? ? [Hl _]%relay_token_law;
      unfold relay_settings in Hl; by destruct_and?.
  - revert o H. induction ts as [|t ts IH]; intros o; cbn [run_tokens]; [intros [= <-]; by rewrite app_nil_r|].
    destruct (run_token relay_arm o t) as [[o1|]|e| |] eqn:E; cbn; try done. intros ->%IH. apply relay_token_law in E as [_ ->].
    rewrite <-(assoc_L (++)). f_equal. cbn. by destruct (named_address t).
Qed.

(** * The properties *)

(** An accepted configuration: every number in the range of its type, and what the daemon relies on. *)
Record relay_command_ok (pmtu_feature : bool) (addresses : list IpAddr) (c : RelayDaemonConfig) : Prop := {
  rk_bind : sock_wf (rc_bind (rdc_relay c));
  rk_limits : limits_positive (rc_limits (rdc_relay c));
  rk_query : rc_general_query (rdc_relay c) = for_amt;
  rk_rotation : given positive_duration (rc_secret_rotation_interval (rdc_relay c));
  (** [addresses] are the addresses that are given to be advertised. *)
  rk_addresses : Forall (λ a, is_valid_source a = true) addresses;
  rk_ipv4 : rc_advertise_ipv4 (rdc_relay c) = advertised ipv4_of Ipv4_LOCALHOST addresses (rc_bind (rdc_relay c));
  rk_ipv6 : rc_advertise_ipv6 (rdc_relay c) = advertised ipv6_of Ipv6_LOCALHOST addresses (rc_bind (rdc_relay c));
  rk_upstream : given ip_wf (uc_interface (rdc_upstream c)) ∧ given u32 (uc_interface_index (rdc_upstream c));
  (** Gateways that answer every query are not idle. *)
  rk_idle : given (λ timeout, query_interval (query_interval_code for_amt) < timeout <= DURATION_MAX) (rdc_gateway_idle_timeout c);
  rk_prune : positive_duration (rdc_gateway_prune_interval c);
  rk_mtu : 1280 <= rdc_path_mtu c <= 65535;
  rk_feedback : rdc_pmtu_feedback c = true → pmtu_feature = true ∧ is_Some (uc_interface (rdc_upstream c));
  rk_rates : rate_ok (rdc_control_rate_per_second c) ∧ rate_ok (rdc_control_rate_burst c) ∧
    rate_ok (rdc_global_control_rate_per_second c) ∧ rate_ok (rdc_global_control_rate_burst c);
  rk_metrics : metrics_ok (rdc_metrics c)
}.

Lemma validate_relay_addresses_wp addresses :
  wp (validate_relay_addresses addresses) (λ _, Forall (λ a, is_valid_source a = true) addresses) (λ _, True).
Proof.
  induction addresses as [|a addresses IH]; cbn [validate_relay_addresses]; [by constructor|]. cli_step. cli_step.
  eapply wp_mono; [exact IH| |done]. intros [] ?. by constructor.
Qed.
Lemma relay_daemon_config_ok feature secret file o rates :
  given file_config_wf file → relay_options_ok o → rates_ok rates →
  wp (relay_daemon_config feature secret file o rates) (relay_command_ok feature (ro_relay_addresses o)) (λ _, True).
Proof.
  intros Hf Ho Hr. unfold relay_daemon_config. cli_step. eapply wp_mono; [apply validate_relay_addresses_wp| |done]. intros [] Hv.
  destruct (ro_pmtu_feedback o && negb feature) eqn:Hfeature; [done|].
  destruct (ro_pmtu_feedback o && bool_decide (ro_upstream_interface o = None)) eqn:Hface; [done|]. cli_step.
  assert (given relay_file_wf (file ≫= file_relay)) as Hrf by (eapply given_bind; [done|]; intros c [? _]; done).
  eapply wp_mono; [by apply relay_engine_ok| |done]. intros c (H1 & H2 & H3 & _ & H5 & H6 & H7). destruct Ho.
  set (rd := mkRelayDaemonConfig _ _ _ _ _ _ _ _ _ _ _). destruct (validate_relay_daemon rd) as [[]|[timeout interval]| |] eqn:Hval.
  - cbn. split; cbn; try done.
    + intros timeout Ht. specialize (ok_idle0 timeout Ht) as [_ Hmax]. unfold validate_relay_daemon in Hval. cbn in Hval. rewrite Ht, H3 in Hval.
      destruct (Z.leb_spec timeout (query_interval (query_interval_code for_amt))); [done|by split].
    + intros Hp. rewrite Hp in Hfeature, Hface. destruct feature; [|done]. split; [done|]. by destruct (ro_upstream_interface o).
  - done.
  - unfold validate_relay_daemon in Hval. repeat case_match; done.
  - unfold validate_relay_daemon in Hval. repeat case_match; done.
Qed.

(** The addresses of the file, then those of the arguments. *)
Definition addresses_given (load_file : string → res string FileConfig) (args : list string) : list IpAddr :=
  match split_config_arg args with
  | Ok (path, rest) =>
      match load_optional_config load_file path with
      | Ok file => default [] (into_vec <$> ((file ≫= file_relay) ≫= f_relay_address))
      | _ => []
      end ++ omap named_address (tokens relay_takes rest)
  | _ => []
  end.
Lemma from_file_addresses file o rates :
  relay_options_from_file file = Ok (o, rates) → ro_relay_addresses o = default [] (into_vec <$> ((file ≫= file_relay) ≫= f_relay_address)).
Proof.
  unfold relay_options_from_file. intros H. apply bind_ok_inv in H as (prune & _ & H). apply bind_ok_inv in H as ([] & _ & H).
  apply bind_ok_inv in H as (metrics & _ & H). apply bind_ok_inv in H as (r & _ & [= <- <-]). cbn. done.
Qed.

Section command_properties.
Context (pmtu_feature : bool) (secret : RelaySecret) (load_file : string → res string FileConfig).
(** The reader returns, and what it returns has the types of [src/config.rs]. *)
Hypothesis load_typed : ∀ path, wp (load_file path) file_config_wf (λ _, True).

Lemma relay_command_accepted args :
  wp (parse_relay_config pmtu_feature secret load_file args) (given (relay_command_ok pmtu_feature (addresses_given load_file args))) (λ _, True).
Proof.
  unfold parse_relay_config, addresses_given. pose proof (split_config_wp args) as Hs.
  destruct (split_config_arg args) as [[path rest]|e| |]; try done. cbn [wp mbind res_bind].
  pose proof (load_optional_wp load_file path load_typed) as Hl. destruct (load_optional_config load_file path) as [file|e| |]; try done. cbn [wp mbind res_bind] in *.
  pose proof (from_file_ok file Hl) as Hf. destruct (relay_options_from_file file) as [[o rates]|e| |] eqn:Ho; try done. cbn [wp mbind res_bind] in *.
  apply from_file_addresses in Ho. destruct Hf as [Hok Hr].
  pose proof (arg_loop_wp relay_arm relay_options_ok rest o relay_arm_ok Hok) as Ha.
  destruct (arg_loop relay_arm o rest) as [[o'|]|e| |] eqn:E; try done. cbn [wp mbind res_bind] in *.
  rewrite (arg_loop_tokens relay_arm relay_takes) in E by apply relay_arm_takes. apply relay_tokens_governed in E as [_ E]. rewrite Ho in E. rewrite <- E.
  cli_step. eapply wp_mono; [apply relay_daemon_config_ok; [done|by apply Ha|done]| |done]. intros c Hc. cbn. by apply given_some.
Qed.

(** the arguments override the file: each setting of an accepted configuration is what the last argument for it says, read as the
    type of the setting, and what the file says (or the default) when no argument names it. Addresses to advertise add up:
    those of the file, then those of the arguments, in their order. *)
Theorem arguments_override_file args c :
  parse_relay_config pmtu_feature secret load_file args = Ok (Some c) →
  ∃ path rest file o rates o',
    split_config_arg args = Ok (path, rest) ∧ load_optional_config load_file path = Ok file ∧
    relay_options_from_file file = Ok (o, rates) ∧
    relay_settings (λ A proj names f, governed proj names f o o' (tokens relay_takes rest)) ∧
    ro_relay_addresses o' = ro_relay_addresses o ++ omap named_address (tokens relay_takes rest) ∧
    rc_bind (rdc_relay c) = default (default_relay_bind (ro_relay_addresses o')) (ro_bind o') ∧ rc_ecn (rdc_relay c) = ro_ecn o' ∧
    rdc_upstream c = mkUpstreamConfig (ro_upstream_interface o') (ro_upstream_interface_index o') ∧
    rdc_gateway_idle_timeout c = ro_gateway_idle_timeout o' ∧ rdc_gateway_prune_interval c = ro_gateway_prune_interval o' ∧
    rdc_path_mtu c = ro_path_mtu o' ∧ rdc_pmtu_feedback c = ro_pmtu_feedback o' ∧ rdc_metrics c = ro_metrics o'.
Proof.
  unfold parse_relay_config. intros H. apply bind_ok_inv in H as ([path rest] & Hs & H). apply bind_ok_inv in H as (file & Hf & H).
  apply bind_ok_inv in H as ([o rates] & Ho & H). apply bind_ok_inv in H as ([o'|] & Ha & H); [|done]. apply bind_ok_inv in H as (c' & Hc & [= ->]).
  exists path, rest, file, o, rates, o'. rewrite (arg_loop_tokens relay_arm relay_takes) in Ha by apply relay_arm_takes.
  apply relay_tokens_governed in Ha as [Hg Hl]. split; [done|]. split; [done|]. split; [done|]. split; [done|]. split; [done|].
  unfold relay_daemon_config in Hc. apply bind_ok_inv in Hc as ([] & _ & Hc). destruct (_ && negb _); [done|]. destruct (_ && bool_decide _); [done|].
  apply bind_ok_inv in Hc as (engine & He & Hc). apply bind_ok_inv in Hc as ([] & _ & [= <-]). cbn.
  assert (rc_bind engine = default (default_relay_bind (ro_relay_addresses o')) (ro_bind o') ∧ rc_ecn engine = ro_ecn o') as [-> ->]; [|by split_and!].
  unfold relay_engine_config in He. apply bind_ok_inv in He as (limits & _ & [= <-]). cbn. set (bind := default _ _). set (c0 := mkRelayConfig _ _ _ _ _ _ _ _ _ _).
  assert (rc_bind c0 = bind ∧ rc_ecn c0 = ro_ecn o') as Hc0.
  { unfold c0, for_bind. by destruct (ip_is_unspecified (sock_ip bind)). }
  destruct (foldl_advertise_same (ro_relay_addresses o') c0) as [-> ->]. done.
Qed.

Lemma start_relay_returns now config : returns (start_relay now config).
Proof.
  unfold start_relay, validate_relay_daemon, new_pmtu_feedback, new_sender.
  destruct (rdc_gateway_idle_timeout config); [destruct (_ <=? _)|]; cbn; try done; destruct (rdc_pmtu_feedback config); cbn; try done;
    destruct (uc_interface (rdc_upstream config)); cbn; try done; by destruct (_ || _).
Qed.
(** An accepted configuration starts, unless path MTU feedback is asked for on an interface that has no unicast address. *)
Lemma accepted_starts addresses now config :
  relay_command_ok pmtu_feature addresses config →
  match start_relay now config with
  | Ok d => daemon_ok d
  | Err e => ∃ interface, e = FeedbackError (PInvalidLocalAddress interface) ∧ rdc_pmtu_feedback config = true ∧
      uc_interface (rdc_upstream config) = Some interface ∧ (ip_is_unspecified interface = true ∨ ip_is_multicast interface = true)
  | _ => False
  end.
Proof.
  intros Hok.
  destruct (start_relay now config) as [d|e| |] eqn:Hs.
  - eapply start_relay_ok; [| | |exact Hs].
    + pose proof (rk_limits _ _ _ Hok) as Hl. unfold limits_positive in Hl. rewrite !Forall_cons in Hl. unfold limits_wf. lia.
    + rewrite (rk_query _ _ _ Hok). decide_ok.
    + destruct (rk_upstream _ _ _ Hok) as [Hi _]. destruct (uc_interface _); [by apply Hi|done].
  - unfold start_relay in Hs. assert (validate_relay_daemon config = Ok tt) as Hv.
    { unfold validate_relay_daemon. destruct (rdc_gateway_idle_timeout config) as [t|] eqn:Ht; [|done]. rewrite (rk_query _ _ _ Hok).
      pose proof (rk_idle _ _ _ Hok t Ht) as Hi. by rewrite (proj2 (Z.leb_gt _ _)) by apply Hi. }
    rewrite Hv in Hs. cbn in Hs. unfold new_pmtu_feedback in Hs. destruct (rdc_pmtu_feedback config) eqn:Hfb; [|done]. cbn in Hs.
    destruct (uc_interface (rdc_upstream config)) as [i|] eqn:Hu; [|by destruct (rk_feedback _ _ _ Hok Hfb) as [_ [? ?]]; simplify_eq].
    cbn in Hs. unfold new_sender in Hs. destruct (ip_is_unspecified i || ip_is_multicast i) eqn:Hi; [|by cbn in Hs]. cbn in Hs. injection Hs as <-. exists i.
    apply orb_true_iff in Hi. done.
  - pose proof (start_relay_returns now config) as H. by rewrite Hs in H.
  - pose proof (start_relay_returns now config) as H. by rewrite Hs in H.
Qed.

(** C8: [amt relay] as a whole, whatever the arguments and the file: it prints the usage, fails with a message, or has a configuration
    in which every number is in its range (an MTU that fits the packets, limits and rates that are not zero, an idle timeout longer
    than the advertised query interval, path MTU feedback only where it is built in). The addresses that the file and the arguments give to be
    advertised are valid unicast addresses, and the relay advertises the last of each family; without one, it advertises the concrete address
    that it binds, of which nothing is checked, and else that of the loopback. With the configuration the
    daemon starts, unless feedback is to leave from an interface without a unicast address, and runs for any number of turns without a
    panic or a hang, with its state in order. *)
Theorem relay_command_runs hmac {W} `{!RelayWorld W} (active : W → gset UpstreamSubscription) (trace : W → list event)
    `{!RelayWorldOk active} `{!DataWorldOk active trace} `{!LoopWorldOk W} now args (w : W) turns :
  wp (parse_relay_config pmtu_feature secret load_file args)
    (given (λ config,
       relay_command_ok pmtu_feature (addresses_given load_file args) config ∧
       match start_relay now config with
       | Ok d => mwp (relay_loop hmac turns config) (λ _ '(d', _), daemon_ok d') (λ _ '(d', _), daemon_ok d') (d, w)
       | Err e => ∃ interface, e = FeedbackError (PInvalidLocalAddress interface) ∧ rdc_pmtu_feedback config = true ∧
           uc_interface (rdc_upstream config) = Some interface ∧ (ip_is_unspecified interface = true ∨ ip_is_multicast interface = true)
       | _ => False
       end)) (λ _, True).
Proof.
  eapply wp_mono; [apply relay_command_accepted| |done]. intros oc Hc config Hx. specialize (Hc config Hx). split; [done|].
  pose proof (accepted_starts _ now config Hc) as Hs. destruct (start_relay now config) as [d|e| |]; try done. by apply (relay_loop_wp hmac active trace).
Qed.
End command_properties.

(** * Witnesses *)

Definition demo_relay_file : FileConfig :=
  mkFileConfig (Some (mkRelayFile (Some (SocketAddrV4 (mkIpv4 0 0 0 0) 2268)) (Some true) (Some (One (V4 (mkIpv4 203 0 113 10))))
    (Some (V4 (mkIpv4 192 0 2 10))) None (Some 260) None None (Some 1500) None None (Some (mkRateFile (Some 5) None None None)))) None
    (Some (mkMetricsFile (Some "/tmp/heimdall"%string) (Some "relay-a"%string) (Some 250) None)).
Definition demo_load (path : string) : res string FileConfig :=
  if String.eqb path "relay.toml" then Ok demo_relay_file else Err "no such file"%string.
Definition demo_relay_args : list string :=
  ["--config"; "relay.toml"; "--path-mtu"; "1400"; "--bind"; "127.0.0.1:9999"; "--no-ecn"; "--relay-address"; "2001:db8::1"; "--path-mtu"; "1300"]%string.
Definition demo_relay_command : res CliError (option RelayDaemonConfig) :=
  parse_relay_config true (mkSecret (replicate 32 7)) demo_load demo_relay_args.
Lemma demo_load_typed path : wp (demo_load path) file_config_wf (λ _, True).
Proof. unfold demo_load. destruct (String.eqb path "relay.toml"); [|done]. cbn. decide_ok. Qed.

Definition demo_accepted : RelayDaemonConfig :=
  Eval vm_compute in match demo_relay_command with Ok (Some c) => c | _ => new_relay_daemon_config (default_relay_config (mkSecret [])) end.
Lemma demo_relay_command_eq : parse_relay_config true (mkSecret (replicate 32 7)) demo_load demo_relay_args = Ok (Some demo_accepted).
Proof. by vm_compute. Qed.
Definition demo_relay_started : RelayDaemon :=
  Eval vm_compute in match start_relay 0 demo_accepted with Ok d => d | _ => demo_daemon demo_relay ∅ end.
Lemma demo_relay_started_eq : start_relay 0 demo_accepted = Ok demo_relay_started.
Proof. by vm_compute. Qed.

Lemma mwp_daemon_ok {W E A} (m : M (RelayDaemon * W) E A) x :
  mwp m (λ _ '(d', _), daemon_ok d') (λ _ '(d', _), daemon_ok d') x → daemon_ok (m x).2.1.
Proof. unfold mwp. by destruct (m x) as [[a|e| |] [d w]]. Qed.

Lemma relay_command_runs_witness :
  (rc_bind (rdc_relay demo_accepted), rdc_path_mtu demo_accepted, rc_advertise_ipv4 (rdc_relay demo_accepted)) =
    (SocketAddrV4 (mkIpv4 127 0 0 1) 9999, 1300, mkIpv4 203 0 113 10) ∧
  relay_command_ok true [V4 (mkIpv4 203 0 113 10); V6 (mkIpv6 [32; 1; 13; 184; 0; 0; 0; 0; 0; 0; 0; 0; 0; 0; 0; 1])] demo_accepted ∧ daemon_ok (relay_loop toy_hmac 2 demo_accepted (demo_relay_started, loop_world)).2.1.
Proof.
  split; [by vm_compute|].
  destruct (wp_ok_inv _ _ _ _ (relay_command_runs true (mkSecret (replicate 32 7)) demo_load demo_load_typed toy_hmac dw_active dw_trace 0
    demo_relay_args loop_world 2) demo_relay_command_eq demo_accepted eq_refl) as [Hok Hrun].
  split; [exact Hok|]. rewrite demo_relay_started_eq in Hrun. exact (mwp_daemon_ok _ _ Hrun).
Defined.

Lemma arguments_override_file_witness :
  ∃ o o', governed ro_path_mtu ["--path-mtu"%string] (reads parse_usize) o o' (tokens relay_takes (drop 2 demo_relay_args)) ∧
    rdc_path_mtu demo_accepted = ro_path_mtu o' ∧ ro_path_mtu o' = 1300.
Proof.
  destruct (arguments_override_file _ _ _ _ _ demo_relay_command_eq) as (path & rest & file & o & rates & o' & Hs & _ & _ & Hg & _ & _ & _ & _ & _ & _ & Hm & _).
  exists o, o'. destruct Hg as (_ & _ & _ & _ & _ & _ & Hg & _).
  assert (split_config_arg demo_relay_args = Ok (Some "relay.toml"%string, drop 2 demo_relay_args)) as Hd by by vm_compute.
  rewrite Hd in Hs. injection Hs as _ <-. split; [exact Hg|]. split; [exact Hm|]. rewrite <-Hm. by vm_compute.
Defined.

(** An interface index of zero is refused as an argument, and accepted from the file. *)
Definition zero_index_file : FileConfig :=
  mkFileConfig (Some (mkRelayFile None None None None (Some 0) None None None None None None None)) None None.
Lemma file_index_zero_accepted :
  (∃ c, parse_relay_config false (mkSecret []) (λ _, Ok zero_index_file) ["--config"; "relay.toml"]%string = Ok (Some c) ∧
     uc_interface_index (rdc_upstream c) = Some 0) ∧
  parse_relay_config false (mkSecret []) (λ _, Ok zero_index_file) ["--upstream-ifindex"; "0"]%string = Err (Message "--upstream-ifindex must not be 0").
Proof. split; [|by vm_compute]. eexists. split; by vm_compute. Qed.

(** The address of the socket is advertised whatever it is, also when it is multicast; as an address to advertise it is refused. *)
Lemma multicast_bind_advertised :
  match parse_relay_config false (mkSecret []) (λ _, Err "no such file"%string) ["--bind"; "239.1.1.1:2268"]%string with
  | Ok (Some c) => rc_advertise_ipv4 (rdc_relay c) = mkIpv4 239 1 1 1
  | _ => False
  end ∧
  parse_relay_config false (mkSecret []) (λ _, Err "no such file"%string) ["--relay-address"; "239.1.1.1"]%string =
    Err (Message "--relay-address must be a unicast address").
Proof. by split; vm_compute. Qed.
