(* ===== verification/GatewayCommand.v ===== *)
(** [amt gateway] of [src/main.rs]: from the arguments and the configuration file to the configuration of the gateway daemon. *)

From stdpp Require Import strings.
From S2P Require Import Prelude Net Effects Protocol Ip Membership State Gateway LocalMembership Desired Text Dns QueryLimiter Candidates Driad Downstream Forward Upstream Worker Metrics RelayDaemon RelayControl GatewayPlane GatewayDaemon GatewayLoop GatewayRun DriadTunnel DriadRun DriadDaemon DriadDaemonRun Config AddrText Resolvers Options.

Inductive GatewayRelayDiscovery := StaticDiscovery | DriadDiscovery | AutoDiscovery.

Record GatewayDriadOptions := mkDriadOptions {
  do_resolvers : list SocketAddr;
  do_timeout : Z;
  do_attempts : Z;
  do_allow_insecure_dns : bool;
  do_max_candidates : Z;
  do_max_queries_per_window : Z;
  do_query_rate_window : Z;
  do_happy_eyeballs_delay : Z;
  do_relay_hold_down : Z;
  do_traffic_hold_down : Z;
  do_initial_traffic_timeout : Z;
  do_maximum_traffic_timeout : Z;
  do_max_source_tunnels : Z;
  do_max_concurrent_probes : Z;
  do_max_dns_workers : Z
}.
Definition do_set_resolvers (x : list SocketAddr) (o : GatewayDriadOptions) : GatewayDriadOptions :=
  mkDriadOptions x (do_timeout o) (do_attempts o) (do_allow_insecure_dns o) (do_max_candidates o) (do_max_queries_per_window o) (do_query_rate_window o) (do_happy_eyeballs_delay o) (do_relay_hold_down o) (do_traffic_hold_down o) (do_initial_traffic_timeout o) (do_maximum_traffic_timeout o) (do_max_source_tunnels o) (do_max_concurrent_probes o) (do_max_dns_workers o).
Definition do_set_timeout (x : Z) (o : GatewayDriadOptions) : GatewayDriadOptions :=
  mkDriadOptions (do_resolvers o) x (do_attempts o) (do_allow_insecure_dns o) (do_max_candidates o) (do_max_queries_per_window o) (do_query_rate_window o) (do_happy_eyeballs_delay o) (do_relay_hold_down o) (do_traffic_hold_down o) (do_initial_traffic_timeout o) (do_maximum_traffic_timeout o) (do_max_source_tunnels o) (do_max_concurrent_probes o) (do_max_dns_workers o).
Definition do_set_attempts (x : Z) (o : GatewayDriadOptions) : GatewayDriadOptions :=
  mkDriadOptions (do_resolvers o) (do_timeout o) x (do_allow_insecure_dns o) (do_max_candidates o) (do_max_queries_per_window o) (do_query_rate_window o) (do_happy_eyeballs_delay o) (do_relay_hold_down o) (do_traffic_hold_down o) (do_initial_traffic_timeout o) (do_maximum_traffic_timeout o) (do_max_source_tunnels o) (do_max_concurrent_probes o) (do_max_dns_workers o).
Definition do_set_allow_insecure_dns (x : bool) (o : GatewayDriadOptions) : GatewayDriadOptions :=
  mkDriadOptions (do_resolvers o) (do_timeout o) (do_attempts o) x (do_max_candidates o) (do_max_queries_per_window o) (do_query_rate_window o) (do_happy_eyeballs_delay o) (do_relay_hold_down o) (do_traffic_hold_down o) (do_initial_traffic_timeout o) (do_maximum_traffic_timeout o) (do_max_source_tunnels o) (do_max_concurrent_probes o) (do_max_dns_workers o).
Definition do_set_max_candidates (x : Z) (o : GatewayDriadOptions) : GatewayDriadOptions :=
  mkDriadOptions (do_resolvers o) (do_timeout o) (do_attempts o) (do_allow_insecure_dns o) x (do_max_queries_per_window o) (do_query_rate_window o) (do_happy_eyeballs_delay o) (do_relay_hold_down o) (do_traffic_hold_down o) (do_initial_traffic_timeout o) (do_maximum_traffic_timeout o) (do_max_source_tunnels o) (do_max_concurrent_probes o) (do_max_dns_workers o).
Definition do_set_max_queries_per_window (x : Z) (o : GatewayDriadOptions) : GatewayDriadOptions :=
  mkDriadOptions (do_resolvers o) (do_timeout o) (do_attempts o) (do_allow_insecure_dns o) (do_max_candidates o) x (do_query_rate_window o) (do_happy_eyeballs_delay o) (do_relay_hold_down o) (do_traffic_hold_down o) (do_initial_traffic_timeout o) (do_maximum_traffic_timeout o) (do_max_source_tunnels o) (do_max_concurrent_probes o) (do_max_dns_workers o).
Definition do_set_query_rate_window (x : Z) (o : GatewayDriadOptions) : GatewayDriadOptions :=
  mkDriadOptions (do_resolvers o) (do_timeout o) (do_attempts o) (do_allow_insecure_dns o) (do_max_candidates o) (do_max_queries_per_window o) x (do_happy_eyeballs_delay o) (do_relay_hold_down o) (do_traffic_hold_down o) (do_initial_traffic_timeout o) (do_maximum_traffic_timeout o) (do_max_source_tunnels o) (do_max_concurrent_probes o) (do_max_dns_workers o).
Definition do_set_happy_eyeballs_delay (x : Z) (o : GatewayDriadOptions) : GatewayDriadOptions :=
  mkDriadOptions (do_resolvers o) (do_timeout o) (do_attempts o) (do_allow_insecure_dns o) (do_max_candidates o) (do_max_queries_per_window o) (do_query_rate_window o) x (do_relay_hold_down o) (do_traffic_hold_down o) (do_initial_traffic_timeout o) (do_maximum_traffic_timeout o) (do_max_source_tunnels o) (do_max_concurrent_probes o) (do_max_dns_workers o).
Definition do_set_relay_hold_down (x : Z) (o : GatewayDriadOptions) : GatewayDriadOptions :=
  mkDriadOptions (do_resolvers o) (do_timeout o) (do_attempts o) (do_allow_insecure_dns o) (do_max_candidates o) (do_max_queries_per_window o) (do_query_rate_window o) (do_happy_eyeballs_delay o) x (do_traffic_hold_down o) (do_initial_traffic_timeout o) (do_maximum_traffic_timeout o) (do_max_source_tunnels o) (do_max_concurrent_probes o) (do_max_dns_workers o).
Definition do_set_traffic_hold_down (x : Z) (o : GatewayDriadOptions) : GatewayDriadOptions :=
  mkDriadOptions (do_resolvers o) (do_timeout o) (do_attempts o) (do_allow_insecure_dns o) (do_max_candidates o) (do_max_queries_per_window o) (do_query_rate_window o) (do_happy_eyeballs_delay o) (do_relay_hold_down o) x (do_initial_traffic_timeout o) (do_maximum_traffic_timeout o) (do_max_source_tunnels o) (do_max_concurrent_probes o) (do_max_dns_workers o).
Definition do_set_initial_traffic_timeout (x : Z) (o : GatewayDriadOptions) : GatewayDriadOptions :=
  mkDriadOptions (do_resolvers o) (do_timeout o) (do_attempts o) (do_allow_insecure_dns o) (do_max_candidates o) (do_max_queries_per_window o) (do_query_rate_window o) (do_happy_eyeballs_delay o) (do_relay_hold_down o) (do_traffic_hold_down o) x (do_maximum_traffic_timeout o) (do_max_source_tunnels o) (do_max_concurrent_probes o) (do_max_dns_workers o).
Definition do_set_maximum_traffic_timeout (x : Z) (o : GatewayDriadOptions) : GatewayDriadOptions :=
  mkDriadOptions (do_resolvers o) (do_timeout o) (do_attempts o) (do_allow_insecure_dns o) (do_max_candidates o) (do_max_queries_per_window o) (do_query_rate_window o) (do_happy_eyeballs_delay o) (do_relay_hold_down o) (do_traffic_hold_down o) (do_initial_traffic_timeout o) x (do_max_source_tunnels o) (do_max_concurrent_probes o) (do_max_dns_workers o).
Definition do_set_max_source_tunnels (x : Z) (o : GatewayDriadOptions) : GatewayDriadOptions :=
  mkDriadOptions (do_resolvers o) (do_timeout o) (do_attempts o) (do_allow_insecure_dns o) (do_max_candidates o) (do_max_queries_per_window o) (do_query_rate_window o) (do_happy_eyeballs_delay o) (do_relay_hold_down o) (do_traffic_hold_down o) (do_initial_traffic_timeout o) (do_maximum_traffic_timeout o) x (do_max_concurrent_probes o) (do_max_dns_workers o).
Definition do_set_max_concurrent_probes (x : Z) (o : GatewayDriadOptions) : GatewayDriadOptions :=
  mkDriadOptions (do_resolvers o) (do_timeout o) (do_attempts o) (do_allow_insecure_dns o) (do_max_candidates o) (do_max_queries_per_window o) (do_query_rate_window o) (do_happy_eyeballs_delay o) (do_relay_hold_down o) (do_traffic_hold_down o) (do_initial_traffic_timeout o) (do_maximum_traffic_timeout o) (do_max_source_tunnels o) x (do_max_dns_workers o).
Definition do_set_max_dns_workers (x : Z) (o : GatewayDriadOptions) : GatewayDriadOptions :=
  mkDriadOptions (do_resolvers o) (do_timeout o) (do_attempts o) (do_allow_insecure_dns o) (do_max_candidates o) (do_max_queries_per_window o) (do_query_rate_window o) (do_happy_eyeballs_delay o) (do_relay_hold_down o) (do_traffic_hold_down o) (do_initial_traffic_timeout o) (do_maximum_traffic_timeout o) (do_max_source_tunnels o) (do_max_concurrent_probes o) x.
Definition default_driad_options : GatewayDriadOptions :=
  mkDriadOptions [] (from_secs 1) 2 false 64 10 (from_millis 100) (from_millis 250) (from_secs (10 * 60)) (from_secs (5 * 60)) (from_secs 4)
    (from_secs 120) DEFAULT_DRIAD_MAX_SOURCE_TUNNELS DEFAULT_DRIAD_MAX_CONCURRENT_PROBES DEFAULT_DRIAD_MAX_DNS_WORKERS.
Record ResolvedGatewayRelays := mkResolvedRelays { rg_relays : list SocketAddr; rg_driad : option GatewayDriadConfig }.
Definition static_relay (relay : SocketAddr) : ResolvedGatewayRelays := mkResolvedRelays [relay] None.

(** * Values *)

Definition parse_relay_discovery (value : string) : res CliError GatewayRelayDiscovery :=
  if one_of value ["static"] then Ok StaticDiscovery
  else if one_of value ["driad"] then Ok DriadDiscovery
  else if one_of value ["auto"] then Ok AutoDiscovery
  else fails (quoted "invalid relay discovery mode" value +:+ "; expected static, driad, or auto").
Definition parse_driad_resolver (value : string) : res CliError SocketAddr :=
  match parse_socket (ascii_bytes value) with
  | Some addr => Ok addr
  | None =>
      match parse_ip (ascii_bytes value) with
      | Some addr => Ok (sock_new addr 53)
      | None => fails (quoted "invalid DRIAD resolver" value +:+ "; expected IP or IP:PORT")
      end
  end.
(** [for resolver in ..]. *)
Fixpoint parse_driad_resolvers (values : list string) (options : GatewayDriadOptions) : res CliError GatewayDriadOptions :=
  match values with
  | [] => Ok options
  | value :: values =>
      resolver ← parse_driad_resolver value;
      parse_driad_resolvers values (do_set_resolvers (do_resolvers options ++ [resolver]) options)
  end.
Definition driad_options_from_file (config : option DriadFileConfig) : res CliError GatewayDriadOptions :=
  match config with
  | None => Ok default_driad_options
  | Some config =>
      options ← parse_driad_resolvers (default [] (into_vec <$> fd_resolvers config)) default_driad_options;
      options ← match fd_timeout_ms config with
                | Some timeout_ms =>
                    if timeout_ms =? 0 then fails "gateway.driad.timeout_ms must not be 0" else Ok (do_set_timeout (from_millis timeout_ms) options)
                | None => Ok options
                end;
      options ← match fd_attempts config with
                | Some attempts =>
                    if attempts =? 0 then fails "gateway.driad.attempts must not be 0" else Ok (do_set_attempts attempts options)
                | None => Ok options
                end;
      let options := when_given (fd_allow_insecure_dns config) do_set_allow_insecure_dns options in
      let options := when_given (fd_max_candidates config) do_set_max_candidates options in
      let options := when_given (fd_max_queries_per_window config) do_set_max_queries_per_window options in
      let options := when_given (fd_query_rate_window_ms config) (λ v, do_set_query_rate_window (from_millis v)) options in
      let options := when_given (fd_happy_eyeballs_delay_ms config) (λ v, do_set_happy_eyeballs_delay (from_millis v)) options in
      let options := when_given (fd_relay_hold_down_secs config) (λ v, do_set_relay_hold_down (from_secs v)) options in
      let options := when_given (fd_traffic_hold_down_secs config) (λ v, do_set_traffic_hold_down (from_secs v)) options in
      let options := when_given (fd_initial_traffic_timeout_secs config) (λ v, do_set_initial_traffic_timeout (from_secs v)) options in
      let options := when_given (fd_maximum_traffic_timeout_secs config) (λ v, do_set_maximum_traffic_timeout (from_secs v)) options in
      let options := when_given (fd_max_source_tunnels config) do_set_max_source_tunnels options in
      let options := when_given (fd_max_concurrent_probes config) do_set_max_concurrent_probes options in
      Ok (when_given (fd_max_dns_workers config) do_set_max_dns_workers options)
  end.
(** [list.iter().find(|(_, value)| *value == 0)]. *)
Definition first_zero (values : list (string * Z)) : option string := fst <$> head (filter (λ p, p.2 = 0) values).
Definition validate_driad_options (options : GatewayDriadOptions) : res CliError unit :=
  match first_zero [("max_candidates", do_max_candidates options); ("max_queries_per_window", do_max_queries_per_window options);
      ("attempts", do_attempts options); ("max_source_tunnels", do_max_source_tunnels options);
      ("max_concurrent_probes", do_max_concurrent_probes options); ("max_dns_workers", do_max_dns_workers options)]%string with
  | Some name => fails ("gateway.driad." +:+ name +:+ " must not be 0")
  | None =>
      match first_zero [("timeout_ms", do_timeout options); ("query_rate_window_ms", do_query_rate_window options);
          ("happy_eyeballs_delay_ms", do_happy_eyeballs_delay options); ("relay_hold_down_secs", do_relay_hold_down options);
          ("traffic_hold_down_secs", do_traffic_hold_down options); ("initial_traffic_timeout_secs", do_initial_traffic_timeout options);
          ("maximum_traffic_timeout_secs", do_maximum_traffic_timeout options)]%string with
      | Some name => fails ("gateway.driad." +:+ name +:+ " must not be 0")
      | None =>
          if do_maximum_traffic_timeout options <? do_initial_traffic_timeout options
          then fails "gateway.driad.maximum_traffic_timeout_secs must be at least initial_traffic_timeout_secs"
          else Ok tt
      end
  end.

(** * The options *)

(** The variables that [parse_gateway_config] sets from the file and changes by the arguments. *)
Record GatewayOptions := mkGatewayOptions {
  go_bind : option SocketAddr;
  go_ecn : bool;
  go_relay : option SocketAddr;
  go_relay_discovery : GatewayRelayDiscovery;
  go_driad : GatewayDriadOptions;
  go_protocol : option MembershipProtocol;
  go_group : option IpAddr;
  go_source : option IpAddr;
  go_downstream : option DownstreamConfig;
  go_transparent : bool;
  go_local_interface : option IpAddr;
  go_local_ifindex : option Z;
  go_local_query_interval : option Z;
  go_local_reporter_timeout : Z;
  go_membership_refresh_interval : option Z;
  go_metrics : MetricsConfig
}.
Definition go_set_bind (x : option SocketAddr) (o : GatewayOptions) : GatewayOptions :=
  mkGatewayOptions x (go_ecn o) (go_relay o) (go_relay_discovery o) (go_driad o) (go_protocol o) (go_group o) (go_source o) (go_downstream o) (go_transparent o) (go_local_interface o) (go_local_ifindex o) (go_local_query_interval o) (go_local_reporter_timeout o) (go_membership_refresh_interval o) (go_metrics o).
Definition go_set_ecn (x : bool) (o : GatewayOptions) : GatewayOptions :=
  mkGatewayOptions (go_bind o) x (go_relay o) (go_relay_discovery o) (go_driad o) (go_protocol o) (go_group o) (go_source o) (go_downstream o) (go_transparent o) (go_local_interface o) (go_local_ifindex o) (go_local_query_interval o) (go_local_reporter_timeout o) (go_membership_refresh_interval o) (go_metrics o).
Definition go_set_relay (x : option SocketAddr) (o : GatewayOptions) : GatewayOptions :=
  mkGatewayOptions (go_bind o) (go_ecn o) x (go_relay_discovery o) (go_driad o) (go_protocol o) (go_group o) (go_source o) (go_downstream o) (go_transparent o) (go_local_interface o) (go_local_ifindex o) (go_local_query_interval o) (go_local_reporter_timeout o) (go_membership_refresh_interval o) (go_metrics o).
Definition go_set_relay_discovery (x : GatewayRelayDiscovery) (o : GatewayOptions) : GatewayOptions :=
  mkGatewayOptions (go_bind o) (go_ecn o) (go_relay o) x (go_driad o) (go_protocol o) (go_group o) (go_source o) (go_downstream o) (go_transparent o) (go_local_interface o) (go_local_ifindex o) (go_local_query_interval o) (go_local_reporter_timeout o) (go_membership_refresh_interval o) (go_metrics o).
Definition go_set_driad (x : GatewayDriadOptions) (o : GatewayOptions) : GatewayOptions :=
  mkGatewayOptions (go_bind o) (go_ecn o) (go_relay o) (go_relay_discovery o) x (go_protocol o) (go_group o) (go_source o) (go_downstream o) (go_transparent o) (go_local_interface o) (go_local_ifindex o) (go_local_query_interval o) (go_local_reporter_timeout o) (go_membership_refresh_interval o) (go_metrics o).
Definition go_set_protocol (x : option MembershipProtocol) (o : GatewayOptions) : GatewayOptions :=
  mkGatewayOptions (go_bind o) (go_ecn o) (go_relay o) (go_relay_discovery o) (go_driad o) x (go_group o) (go_source o) (go_downstream o) (go_transparent o) (go_local_interface o) (go_local_ifindex o) (go_local_query_interval o) (go_local_reporter_timeout o) (go_membership_refresh_interval o) (go_metrics o).
Definition go_set_group (x : option IpAddr) (o : GatewayOptions) : GatewayOptions :=
  mkGatewayOptions (go_bind o) (go_ecn o) (go_relay o) (go_relay_discovery o) (go_driad o) (go_protocol o) x (go_source o) (go_downstream o) (go_transparent o) (go_local_interface o) (go_local_ifindex o) (go_local_query_interval o) (go_local_reporter_timeout o) (go_membership_refresh_interval o) (go_metrics o).
Definition go_set_source (x : option IpAddr) (o : GatewayOptions) : GatewayOptions :=
  mkGatewayOptions (go_bind o) (go_ecn o) (go_relay o) (go_relay_discovery o) (go_driad o) (go_protocol o) (go_group o) x (go_downstream o) (go_transparent o) (go_local_interface o) (go_local_ifindex o) (go_local_query_interval o) (go_local_reporter_timeout o) (go_membership_refresh_interval o) (go_metrics o).
Definition go_set_downstream (x : option DownstreamConfig) (o : GatewayOptions) : GatewayOptions :=
  mkGatewayOptions (go_bind o) (go_ecn o) (go_relay o) (go_relay_discovery o) (go_driad o) (go_protocol o) (go_group o) (go_source o) x (go_transparent o) (go_local_interface o) (go_local_ifindex o) (go_local_query_interval o) (go_local_reporter_timeout o) (go_membership_refresh_interval o) (go_metrics o).
Definition go_set_transparent (x : bool) (o : GatewayOptions) : GatewayOptions :=
  mkGatewayOptions (go_bind o) (go_ecn o) (go_relay o) (go_relay_discovery o) (go_driad o) (go_protocol o) (go_group o) (go_source o) (go_downstream o) x (go_local_interface o) (go_local_ifindex o) (go_local_query_interval o) (go_local_reporter_timeout o) (go_membership_refresh_interval o) (go_metrics o).
Definition go_set_local_interface (x : option IpAddr) (o : GatewayOptions) : GatewayOptions :=
  mkGatewayOptions (go_bind o) (go_ecn o) (go_relay o) (go_relay_discovery o) (go_driad o) (go_protocol o) (go_group o) (go_source o) (go_downstream o) (go_transparent o) x (go_local_ifindex o) (go_local_query_interval o) (go_local_reporter_timeout o) (go_membership_refresh_interval o) (go_metrics o).
Definition go_set_local_ifindex (x : option Z) (o : GatewayOptions) : GatewayOptions :=
  mkGatewayOptions (go_bind o) (go_ecn o) (go_relay o) (go_relay_discovery o) (go_driad o) (go_protocol o) (go_group o) (go_source o) (go_downstream o) (go_transparent o) (go_local_interface o) x (go_local_query_interval o) (go_local_reporter_timeout o) (go_membership_refresh_interval o) (go_metrics o).
Definition go_set_local_query_interval (x : option Z) (o : GatewayOptions) : GatewayOptions :=
  mkGatewayOptions (go_bind o) (go_ecn o) (go_relay o) (go_relay_discovery o) (go_driad o) (go_protocol o) (go_group o) (go_source o) (go_downstream o) (go_transparent o) (go_local_interface o) (go_local_ifindex o) x (go_local_reporter_timeout o) (go_membership_refresh_interval o) (go_metrics o).
Definition go_set_local_reporter_timeout (x : Z) (o : GatewayOptions) : GatewayOptions :=
  mkGatewayOptions (go_bind o) (go_ecn o) (go_relay o) (go_relay_discovery o) (go_driad o) (go_protocol o) (go_group o) (go_source o) (go_downstream o) (go_transparent o) (go_local_interface o) (go_local_ifindex o) (go_local_query_interval o) x (go_membership_refresh_interval o) (go_metrics o).
Definition go_set_membership_refresh_interval (x : option Z) (o : GatewayOptions) : GatewayOptions :=
  mkGatewayOptions (go_bind o) (go_ecn o) (go_relay o) (go_relay_discovery o) (go_driad o) (go_protocol o) (go_group o) (go_source o) (go_downstream o) (go_transparent o) (go_local_interface o) (go_local_ifindex o) (go_local_query_interval o) (go_local_reporter_timeout o) x (go_metrics o).
Definition go_set_metrics (x : MetricsConfig) (o : GatewayOptions) : GatewayOptions :=
  mkGatewayOptions (go_bind o) (go_ecn o) (go_relay o) (go_relay_discovery o) (go_driad o) (go_protocol o) (go_group o) (go_source o) (go_downstream o) (go_transparent o) (go_local_interface o) (go_local_ifindex o) (go_local_query_interval o) (go_local_reporter_timeout o) (go_membership_refresh_interval o) x.
Definition DOWNSTREAM_TTL_UNSUPPORTED : string :=
  "--downstream-ttl and gateway.downstream.ttl are unsupported because raw downstream forwarding preserves the complete inner IP header; set the IPv4 TTL or IPv6 Hop Limit at the multicast source".
Definition default_downstream : DownstreamConfig := mkDownstreamConfig None None None.
(** [match seconds { Some(0) => None, Some(seconds) => .., None => default }]. *)
Definition interval_or (seconds : option Z) (default : Z) : option Z :=
  match seconds with Some seconds => from_secs <$> nonzero seconds | None => Some default end.
(** [map(f).transpose()?]. *)
Definition transpose {A B} (f : A → res CliError B) (o : option A) : res CliError (option B) :=
  match o with Some a => b ← f a; Ok (Some b) | None => Ok None end.
Definition downstream_from_file (gateway_file : option GatewayFileConfig) : res CliError (option DownstreamConfig) :=
  let downstream := if default false (gateway_file ≫= fg_no_downstream) then None else Some default_downstream in
  match gateway_file ≫= fg_downstream with
  | Some config =>
      if bool_decide (fw_ttl config = None) then
        let downstream := default default_downstream downstream in
        Ok (Some (mkDownstreamConfig (fw_interface config) (fw_interface_index config)
          (match fw_loopback config with Some loopback => Some loopback | None => dc_loopback downstream end)))
      else fails DOWNSTREAM_TTL_UNSUPPORTED
  | None => Ok downstream
  end.
(** The options, and the joins of the file. *)
Definition gateway_options_from_file (file : option FileConfig) : res CliError (GatewayOptions * list GatewayJoin) :=
  let gateway_file := file ≫= file_gateway in
  relay_discovery ← transpose parse_relay_discovery (gateway_file ≫= fg_relay_discovery);
  driad_options ← driad_options_from_file (gateway_file ≫= fg_driad);
  protocol ← transpose parse_protocol (gateway_file ≫= fg_protocol);
  let configured_joins := default [] ((λ config, (λ join, mkJoin (fj_group join) (fj_source join)) <$> fg_joins config) <$> gateway_file) in
  downstream ← downstream_from_file gateway_file;
  let local_file := gateway_file ≫= fg_local_membership in
  let transparent := default (bool_decide (is_Some local_file)) (gateway_file ≫= fg_transparent) in
  let local_query_interval :=
    interval_or (match local_file ≫= fm_query_interval_secs with Some seconds => Some seconds | None => gateway_file ≫= fg_local_query_interval_secs end) (from_secs 30) in
  let local_reporter_timeout := from_secs (default 260 (local_file ≫= fm_reporter_timeout_secs)) in
  if local_reporter_timeout =? 0 then fails "gateway.local_membership.reporter_timeout_secs must not be 0"
  else
    metrics ← metrics_config_from_file file;
    Ok (mkGatewayOptions (gateway_file ≫= fg_bind) (default false (gateway_file ≫= fg_ecn)) (gateway_file ≫= fg_relay)
          (default StaticDiscovery relay_discovery) driad_options protocol (gateway_file ≫= fg_group) (gateway_file ≫= fg_source) downstream
          transparent (local_file ≫= fm_interface) (local_file ≫= fm_interface_index) local_query_interval local_reporter_timeout
          (interval_or (gateway_file ≫= fg_membership_refresh_interval_secs) DEFAULT_MEMBERSHIP_REFRESH_INTERVAL) metrics, configured_joins).

(** [downstream.get_or_insert_with(DownstreamConfig::default)], and an assignment to a field. *)
Definition change_downstream (f : DownstreamConfig → DownstreamConfig) (o : GatewayOptions) : GatewayOptions :=
  go_set_downstream (Some (f (default default_downstream (go_downstream o)))) o.

(** The arms of the loop over the arguments. *)
Definition gateway_arm (arg : string) (o : GatewayOptions) : Arm GatewayOptions :=
  if one_of arg ["--bind"] then Take (λ value,
    value ← required "--bind requires an address like 0.0.0.0:0" value;
    bind ← parsed parse_socket "--bind address" value;
    Ok (go_set_bind (Some bind) o))
  else if one_of arg ["--relay"] then Take (λ value,
    value ← required "--relay requires an address like 198.51.100.1:2268" value;
    relay ← parsed parse_socket "--relay address" value;
    Ok (go_set_relay (Some relay) o))
  else if one_of arg ["--relay-discovery"] then Take (λ value,
    value ← required "--relay-discovery requires static, driad, or auto" value;
    discovery ← parse_relay_discovery value;
    Ok (go_set_relay_discovery discovery o))
  else if one_of arg ["--driad-resolver"] then Take (λ value,
    value ← required "--driad-resolver requires an IP address" value;
    resolver ← parse_driad_resolver value;
    Ok (go_set_driad (do_set_resolvers (do_resolvers (go_driad o) ++ [resolver]) (go_driad o)) o))
  else if one_of arg ["--driad-timeout-ms"] then Take (λ value,
    value ← required "--driad-timeout-ms requires milliseconds" value;
    millis ← parsed parse_u64 "--driad-timeout-ms" value;
    if millis =? 0 then fails "--driad-timeout-ms must not be 0"
    else Ok (go_set_driad (do_set_timeout (from_millis millis) (go_driad o)) o))
  else if one_of arg ["--driad-attempts"] then Take (λ value,
    value ← required "--driad-attempts requires a positive count" value;
    attempts ← parsed parse_usize "--driad-attempts" value;
    if attempts =? 0 then fails "--driad-attempts must not be 0"
    else Ok (go_set_driad (do_set_attempts attempts (go_driad o)) o))
  else if one_of arg ["--driad-allow-insecure-dns"] then Assign (go_set_driad (do_set_allow_insecure_dns true (go_driad o)) o)
  else if one_of arg ["--driad-max-candidates"] then Take (λ value,
    n ← parse_nonzero_usize value "--driad-max-candidates";
    Ok (go_set_driad (do_set_max_candidates n (go_driad o)) o))
  else if one_of arg ["--driad-max-queries"] then Take (λ value,
    n ← parse_nonzero_usize value "--driad-max-queries";
    Ok (go_set_driad (do_set_max_queries_per_window n (go_driad o)) o))
  else if one_of arg ["--driad-query-window-ms"] then Take (λ value,
    n ← parse_nonzero_u64 value "--driad-query-window-ms";
    Ok (go_set_driad (do_set_query_rate_window (from_millis n) (go_driad o)) o))
  else if one_of arg ["--driad-happy-eyeballs-delay-ms"] then Take (λ value,
    n ← parse_nonzero_u64 value "--driad-happy-eyeballs-delay-ms";
    Ok (go_set_driad (do_set_happy_eyeballs_delay (from_millis n) (go_driad o)) o))
  else if one_of arg ["--driad-relay-hold-down"] then Take (λ value,
    n ← parse_nonzero_u64 value "--driad-relay-hold-down";
    Ok (go_set_driad (do_set_relay_hold_down (from_secs n) (go_driad o)) o))
  else if one_of arg ["--driad-traffic-hold-down"] then Take (λ value,
    n ← parse_nonzero_u64 value "--driad-traffic-hold-down";
    Ok (go_set_driad (do_set_traffic_hold_down (from_secs n) (go_driad o)) o))
  else if one_of arg ["--driad-initial-traffic-timeout"] then Take (λ value,
    n ← parse_nonzero_u64 value "--driad-initial-traffic-timeout";
    Ok (go_set_driad (do_set_initial_traffic_timeout (from_secs n) (go_driad o)) o))
  else if one_of arg ["--driad-maximum-traffic-timeout"] then Take (λ value,
    n ← parse_nonzero_u64 value "--driad-maximum-traffic-timeout";
    Ok (go_set_driad (do_set_maximum_traffic_timeout (from_secs n) (go_driad o)) o))
  else if one_of arg ["--driad-max-source-tunnels"] then Take (λ value,
    n ← parse_nonzero_usize value "--driad-max-source-tunnels";
    Ok (go_set_driad (do_set_max_source_tunnels n (go_driad o)) o))
  else if one_of arg ["--driad-max-concurrent-probes"] then Take (λ value,
    n ← parse_nonzero_usize value "--driad-max-concurrent-probes";
    Ok (go_set_driad (do_set_max_concurrent_probes n (go_driad o)) o))
  else if one_of arg ["--driad-max-dns-workers"] then Take (λ value,
    n ← parse_nonzero_usize value "--driad-max-dns-workers";
    Ok (go_set_driad (do_set_max_dns_workers n (go_driad o)) o))
  else if one_of arg ["--ecn"] then Assign (go_set_ecn true o)
  else if one_of arg ["--no-ecn"] then Assign (go_set_ecn false o)
  else if one_of arg ["--protocol"] then Take (λ value,
    value ← required "--protocol requires igmpv3 or mldv2" value;
    protocol ← parse_protocol value;
    Ok (go_set_protocol (Some protocol) o))
  else if one_of arg ["--group"] then Take (λ value,
    value ← required "--group requires a multicast IP address" value;
    group ← parsed parse_ip "--group address" value;
    Ok (go_set_group (Some group) o))
  else if one_of arg ["--source"] then Take (λ value,
    value ← required "--source requires a source IP address" value;
    source ← parsed parse_ip "--source address" value;
    Ok (go_set_source (Some source) o))
  else if one_of arg ["--transparent"] then Assign (go_set_transparent true o)
  else if one_of arg ["--local-membership-interface"] then Take (λ value,
    value ← required "--local-membership-interface requires an IP address" value;
    interface ← parsed parse_ip "--local-membership-interface" value;
    Ok (go_set_local_interface (Some interface) o))
  else if one_of arg ["--local-membership-ifindex"] then Take (λ value,
    value ← required "--local-membership-ifindex requires a non-zero interface index" value;
    index ← parsed parse_u32 "--local-membership-ifindex" value;
    if index =? 0 then fails "--local-membership-ifindex must not be 0" else Ok (go_set_local_ifindex (Some index) o))
  else if one_of arg ["--local-query-interval"] then Take (λ value,
    value ← required "--local-query-interval requires seconds, or 0 to disable queries" value;
    seconds ← parsed parse_u64 "--local-query-interval" value;
    Ok (go_set_local_query_interval (from_secs <$> nonzero seconds) o))
  else if one_of arg ["--local-reporter-timeout"] then Take (λ value,
    value ← required "--local-reporter-timeout requires a positive number of seconds" value;
    seconds ← parsed parse_u64 "--local-reporter-timeout" value;
    if seconds =? 0 then fails "--local-reporter-timeout must not be 0" else Ok (go_set_local_reporter_timeout (from_secs seconds) o))
  else if one_of arg ["--membership-refresh-interval"] then Take (λ value,
    value ← required "--membership-refresh-interval requires seconds, or 0 to disable refreshes" value;
    seconds ← parsed parse_u64 "--membership-refresh-interval" value;
    Ok (go_set_membership_refresh_interval (from_secs <$> nonzero seconds) o))
  else if one_of arg ["--downstream-interface"] then Take (λ value,
    value ← required "--downstream-interface requires an IP address" value;
    interface ← parsed parse_ip "--downstream-interface" value;
    Ok (change_downstream (λ d, mkDownstreamConfig (Some interface) (dc_interface_index d) (dc_loopback d)) o))
  else if one_of arg ["--downstream-ifindex"] then Take (λ value,
    value ← required "--downstream-ifindex requires a non-zero interface index" value;
    index ← parsed parse_u32 "--downstream-ifindex" value;
    if index =? 0 then fails "--downstream-ifindex must not be 0"
    else Ok (change_downstream (λ d, mkDownstreamConfig (dc_interface d) (Some index) (dc_loopback d)) o))
  else if one_of arg ["--downstream-ttl"] then Reject (Message DOWNSTREAM_TTL_UNSUPPORTED)
  else if one_of arg ["--no-downstream-loopback"] then
    Assign (change_downstream (λ d, mkDownstreamConfig (dc_interface d) (dc_interface_index d) (Some false)) o)
  else if one_of arg ["--no-downstream"] then Assign (go_set_downstream None o)
  else if one_of arg ["--metrics-dir"] then Take (λ value,
    value ← required "--metrics-dir requires a directory path" value;
    Ok (go_set_metrics (set_output_dir (Some (path_buf value)) (go_metrics o)) o))
  else if one_of arg ["--node-id"] then Take (λ value,
    value ← required "--node-id requires a value" value;
    Ok (go_set_metrics (set_node_id value (go_metrics o)) o))
  else if one_of arg ["--metrics-interval-ms"] then Take (λ value,
    value ← required "--metrics-interval-ms requires milliseconds" value;
    millis ← parsed parse_u64 "--metrics-interval-ms" value;
    Ok (go_set_metrics (set_sample_interval (from_millis millis) (go_metrics o)) o))
  else if one_of arg ["-h"; "--help"] then PrintUsage
  else Reject (WithUsage (quoted "unknown gateway argument" arg)).

(** * Relays *)

(** [driad_sources_for_joins], from [sources] on. *)
Fixpoint collect_sources (joins : list GatewayJoin) (sources : gset IpAddr) : res CliError (gset IpAddr) :=
  match joins with
  | [] => Ok sources
  | join :: joins =>
      if negb (is_ssm_group (gj_group join)) then fails "DRIAD requires groups in the IPv4 or IPv6 SSM range"
      else
        match gj_source join with
        | None => fails "DRIAD relay discovery requires all configured joins to be SSM joins with a source"
        | Some source =>
            if negb (same_family (gj_group join) source) then fails "DRIAD SSM groups and sources must use the same address family"
            else if ip_is_unspecified source || ip_is_multicast source then fails "DRIAD sources must be unicast addresses"
            else collect_sources joins ({[source]} ∪ sources)
        end
  end.
Definition driad_sources_for_joins (joins : list GatewayJoin) (transparent : bool) : res CliError (gset IpAddr) :=
  if is_empty joins && negb transparent then fails "DRIAD relay discovery requires a configured SSM --group and --source"
  else collect_sources joins ∅.

Section command.
(** Whether the program is built with [driad]; [/etc/resolv.conf] as it is read; the file reader. *)
Context (driad_feature : bool) (resolv_conf : res string (list Z)) (load_file : string → res string FileConfig).

Definition resolver_config (options : GatewayDriadOptions) : res CliError DriadResolverConfig :=
  config ← (if is_empty (do_resolvers options) then map_err NoSystemResolvers (system_resolver_config resolv_conf)
            else Ok (new_resolver_config (do_resolvers options)));
  Ok (mkResolverConfig (rc_resolvers config) (do_timeout options) (do_attempts options) (do_allow_insecure_dns options)
    (do_max_candidates options) (do_max_queries_per_window options) (do_query_rate_window options)).
Definition resolve_driad_relays (joins : list GatewayJoin) (options : GatewayDriadOptions) (transparent : bool) (bind : option SocketAddr)
    (use_anycast : bool) : res CliError ResolvedGatewayRelays :=
  if is_some_and (λ bind, negb (sock_port bind =? 0)) bind
  then fails "DRIAD requires an ephemeral --bind port because each source owns an independent AMT tunnel"
  else
    sources ← driad_sources_for_joins joins transparent;
    if driad_feature then
      resolver ← resolver_config options;
      _ ← map_err ResolverRejected (validate_resolver resolver);
      let relay :=
        match sock_ip <$> bind with
        | Some (V6 _) => sock_new (V6 AMT_ANYCAST_IPV6) AMT_PORT
        | _ => sock_new (V4 AMT_ANYCAST_IPV4) AMT_PORT
        end in
      Ok (mkResolvedRelays [relay] (Some (mkGatewayDriadConfig resolver bind use_anycast (do_happy_eyeballs_delay options)
        (do_relay_hold_down options) (do_traffic_hold_down options) (do_initial_traffic_timeout options)
        (do_maximum_traffic_timeout options) (do_max_source_tunnels options) (do_max_concurrent_probes options) (do_max_dns_workers options))))
    else fails "DRIAD relay discovery requires building with --features driad".
Definition resolve_gateway_relays (relay : option SocketAddr) (discovery : GatewayRelayDiscovery) (joins : list GatewayJoin)
    (options : GatewayDriadOptions) (transparent : bool) (bind : option SocketAddr) : res CliError ResolvedGatewayRelays :=
  match discovery with
  | StaticDiscovery => ok_or (Message "gateway requires --relay ADDRESS:PORT") (static_relay <$> relay)
  | AutoDiscovery =>
      match relay with
      | Some relay => Ok (static_relay relay)
      | None => resolve_driad_relays joins options transparent bind true
      end
  | DriadDiscovery => resolve_driad_relays joins options transparent bind false
  end.

(** * The configuration *)

(** [interval.saturating_mul(2).saturating_add(Duration::from_secs(10))]. *)
Definition least_reporter_timeout (interval : Z) : Z := Z.min DURATION_MAX (Z.min DURATION_MAX (interval * 2) + from_secs 10).
Fixpoint validate_joins (protocol : MembershipProtocol) (joins : list GatewayJoin) : res CliError unit :=
  match joins with
  | [] => Ok tt
  | join :: joins =>
      _ ← validate_gateway_join (gj_group join) (gj_source join);
      if protocol_matches_address protocol (gj_group join) then validate_joins protocol joins
      else fails "configured gateway join does not match --protocol"
  end.
(** The checks on the options up to the choice of the relays: the protocol, and all the joins. *)
Definition gateway_protocol_and_joins (o : GatewayOptions) (configured_joins : list GatewayJoin) :
    res CliError (MembershipProtocol * list GatewayJoin) :=
  _ ← validate_driad_options (go_driad o);
  if bool_decide (go_group o = None) && is_empty configured_joins && negb (go_transparent o)
  then fails "gateway requires --group IP unless --transparent is set"
  else if bool_decide (is_Some (go_source o)) && bool_decide (go_group o = None) then fails "--source requires --group"
  else if go_transparent o
          && is_some_and (λ interval, go_local_reporter_timeout o <? least_reporter_timeout interval) (go_local_query_interval o)
  then fails "local reporter timeout must be at least (2 * local query interval) + 10 seconds"
  else
    _ ← match go_group o with Some group => validate_gateway_join group (go_source o) | None => Ok tt end;
    let inferred_group := match go_group o with Some group => Some group | None => gj_group <$> head configured_joins end in
    let protocol := default (match inferred_group with Some (V6 _) => Mldv2 | _ => Igmpv3 end) (go_protocol o) in
    if is_some_and (λ group, negb (protocol_matches_address protocol group)) (go_group o)
    then fails "--protocol does not match --group address family"
    else if is_some_and (λ interface, negb (protocol_matches_address protocol interface)) (go_local_interface o)
    then fails "--local-membership-interface address family must match --protocol"
    else if is_some_and (λ interface, negb (protocol_matches_address protocol interface)) (go_downstream o ≫= dc_interface)
    then fails "--downstream-interface address family must match --protocol"
    else
      _ ← match go_downstream o with
          | Some downstream => map_err DownstreamRejected (validate_options_for_protocol downstream protocol)
          | None => Ok tt
          end;
      _ ← validate_joins protocol configured_joins;
      Ok (protocol, configured_joins ++ match go_group o with Some group => [mkJoin group (go_source o)] | None => [] end).

(** [for relay in &relays]. *)
Fixpoint validate_relays (relays : list SocketAddr) : res CliError unit :=
  match relays with
  | [] => Ok tt
  | relay :: relays =>
      _ ← validate_relay_address (sock_ip relay) "gateway relay";
      if sock_port relay =? 0 then fails "gateway relay port must not be 0" else validate_relays relays
  end.
(** The relays that fit the socket, and the socket. *)
Definition gateway_bind_and_relays (bind : option SocketAddr) (relays : list SocketAddr) : res CliError (SocketAddr * SocketAddr * list SocketAddr) :=
  relays ← match bind with
           | Some bind =>
               if 1 <? len relays then
                 let relays := filter (λ relay, same_family (sock_ip bind) (sock_ip relay) = true) relays in
                 if is_empty relays then fails "gateway discovery returned no relay matching the explicit bind address family" else Ok relays
               else Ok relays
           | None => Ok relays
           end;
  _ ← validate_relays relays;
  relay ← idx relays 0;
  let bind := default (match relay with SocketAddrV6 _ _ _ _ => SocketAddrV6 Ipv6_UNSPECIFIED 0 0 0 | SocketAddrV4 _ _ => SocketAddrV4 Ipv4_UNSPECIFIED 0 end) bind in
  if negb (same_family (sock_ip bind) (sock_ip relay)) then fails "gateway bind and relay must use the same outer address family"
  else Ok (bind, relay, relays).
Definition local_config (o : GatewayOptions) (protocol : MembershipProtocol) : LocalMembershipConfig :=
  mkLocalConfig protocol
    (match go_local_interface o with Some interface => Some interface | None => go_downstream o ≫= dc_interface end)
    (match go_local_ifindex o with Some index => Some index | None => go_downstream o ≫= dc_interface_index end)
    (go_local_query_interval o) (go_local_reporter_timeout o).
Definition gateway_daemon_config (rng : draws) (o : GatewayOptions) (configured_joins : list GatewayJoin) :
    res CliError (GatewayDaemonConfig * draws) :=
  '(protocol, joins) ← gateway_protocol_and_joins o configured_joins;
  resolved ← resolve_gateway_relays (go_relay o) (go_relay_discovery o) joins (go_driad o) (go_transparent o) (go_bind o);
  '(bind, relay, relays) ← gateway_bind_and_relays (go_bind o) (rg_relays resolved);
  '(gateway, rng) ← infallible (new_gateway_config relay protocol rng);
  let gateway := with_fallback_relays (with_ecn gateway (go_ecn o)) (drop 1 relays) in
  Ok (mkGatewayDaemonConfig bind gateway joins (go_downstream o) (if go_transparent o then Some (local_config o protocol) else None)
        (go_membership_refresh_interval o) (rg_driad resolved) (go_metrics o), rng).

Definition parse_gateway_config (rng : draws) (args : list string) : res CliError (option (GatewayDaemonConfig * draws)) :=
  '(config_path, remaining_args) ← split_config_arg args;
  file_config ← load_optional_config load_file config_path;
  '(options, configured_joins) ← gateway_options_from_file file_config;
  options ← arg_loop gateway_arm options remaining_args;
  match options with
  | Some options => config ← gateway_daemon_config rng options configured_joins; Ok (Some config)
  | None => Ok None
  end.
End command.

(** * What is accepted *)

Record driad_options_ok (o : GatewayDriadOptions) : Prop := {
  od_resolvers : Forall sock_wf (do_resolvers o);
  od_attempts : u64 (do_attempts o);
  od_candidates : u64 (do_max_candidates o);
  od_queries : u64 (do_max_queries_per_window o);
  od_tunnels : u64 (do_max_source_tunnels o);
  od_probes : u64 (do_max_concurrent_probes o);
  od_workers : u64 (do_max_dns_workers o);
  od_timeout : duration (do_timeout o);
  od_window : duration (do_query_rate_window o);
  od_delay : duration (do_happy_eyeballs_delay o);
  od_hold : duration (do_relay_hold_down o);
  od_traffic_hold : duration (do_traffic_hold_down o);
  od_initial : duration (do_initial_traffic_timeout o);
  od_maximum : duration (do_maximum_traffic_timeout o)
}.
Definition downstream_ok (d : DownstreamConfig) : Prop := given ip_wf (dc_interface d) ∧ given u32 (dc_interface_index d).
Record gateway_options_ok (o : GatewayOptions) : Prop := {
  og_bind : given sock_wf (go_bind o);
  og_relay : given sock_wf (go_relay o);
  og_driad : driad_options_ok (go_driad o);
  og_group : given ip_wf (go_group o);
  og_source : given ip_wf (go_source o);
  og_downstream : given downstream_ok (go_downstream o);
  og_local_interface : given ip_wf (go_local_interface o);
  og_local_ifindex : given u32 (go_local_ifindex o);
  og_query_interval : given positive_duration (go_local_query_interval o);
  og_reporter_timeout : positive_duration (go_local_reporter_timeout o);
  og_refresh : given positive_duration (go_membership_refresh_interval o);
  og_metrics : metrics_ok (go_metrics o)
}.

Lemma parse_driad_resolver_wp value : wp (parse_driad_resolver value) sock_wf (λ _, True).
Proof.
  pose proof (parse_resolver_wf (ascii_bytes value)) as H. unfold parse_driad_resolver, parse_resolver_addr in *.
  destruct (parse_socket _); [done|]. by destruct (parse_ip _).
Qed.
Lemma parse_protocol_wp value : wp (parse_protocol value) (λ _, True) (λ _, True).
Proof. unfold parse_protocol. destruct (one_of _ _); [done|]. by destruct (one_of _ _). Qed.
Lemma parse_relay_discovery_wp value : wp (parse_relay_discovery value) (λ _, True) (λ _, True).
Proof. unfold parse_relay_discovery. do 3 (destruct (one_of _ _); [done|]). done. Qed.
Lemma change_downstream_ok f o :
  given downstream_ok (go_downstream o) → (∀ d, downstream_ok d → downstream_ok (f d)) → given downstream_ok (go_downstream (change_downstream f o)).
Proof. intros Hd Hf. apply given_some, Hf, given_default; [done|]. split; apply given_none. Qed.

Lemma gateway_arm_ok arg o :
  gateway_options_ok o →
  match gateway_arm arg o with Assign o' => gateway_options_ok o' | Take use => ∀ v, wp (use v) gateway_options_ok (λ _, True) | _ => True end.
Proof.
  intros Ho. destruct Ho as [H1 H2 HD H4 H5 H6 H7 H8 H9 H10 H11 H12]. unfold gateway_arm.
  repeat match goal with |- context [if one_of ?a ?l then _ else _] => destruct (one_of a l) end; try done; intros;
  repeat first
    [ cli_step
    | eapply wp_mono; [apply parse_driad_resolver_wp| |done]; intros ? ?
    | eapply wp_mono; [apply parse_protocol_wp| |done]; intros ? ?
    | eapply wp_mono; [apply parse_relay_discovery_wp| |done]; intros ? ? ]; zbool.
  all: split; try done; try (by apply given_some); try (by apply from_secs_positive); try (by apply nonzero_secs); try exact (given_none _).
  all: try (destruct HD; split; cbn; try done; first [by apply from_millis_duration | by apply from_secs_duration | (apply Forall_app; split; [done|by apply Forall_singleton])]).
  all: try (apply change_downstream_ok; [done|]; intros d [? ?]; split; cbn; try done; by apply given_some).
  all: destruct H12; split; cbn; try done; by apply from_millis_duration.
Qed.
Lemma when_given_ok {A B} (P : A → Prop) (I : B → Prop) setting (f : A → B → B) b :
  given P setting → (∀ a b, P a → I b → I (f a b)) → I b → I (when_given setting f b).
Proof. intros Hs Hf Hb. destruct setting as [a|]; [|done]. apply Hf; [by apply Hs|done]. Qed.
Lemma default_driad_options_ok : driad_options_ok default_driad_options.
Proof. split; cbn; try by apply (bool_decide_unpack _). all: unfold duration; cbn; lia. Qed.
Lemma parse_driad_resolvers_ok values : ∀ options,
  driad_options_ok options → wp (parse_driad_resolvers values options) driad_options_ok (λ _, True).
Proof.
  induction values as [|v values IH]; intros options Ho; cbn [parse_driad_resolvers]; [done|]. wp_step.
  eapply wp_mono; [apply parse_driad_resolver_wp| |done]. intros a Ha. apply IH. destruct Ho. split; cbn; try done.
  apply Forall_app. split; [done|]. by apply Forall_singleton.
Qed.
Lemma driad_options_from_file_ok config : given driad_file_wf config → wp (driad_options_from_file config) driad_options_ok (λ _, True).
Proof.
  intros Hc. unfold driad_options_from_file. destruct config as [c|]; [|apply default_driad_options_ok]. specialize (Hc c eq_refl).
  unfold driad_file_wf in Hc. rewrite !Forall_cons in Hc. destruct Hc as (Hc1 & Hc2 & Hc3 & Hc4 & Hc5 & Hc6 & Hc7 & Hc8 & Hc9 & Hc10 & Hc11 & Hc12 & Hc13 & _).
  wp_step. eapply wp_mono; [apply parse_driad_resolvers_ok, default_driad_options_ok| |done]. intros o1 Ho1.
  wp_step. eapply (wp_mono _ driad_options_ok _ (λ _, True)); [| |done].
  { destruct (fd_timeout_ms c) as [n|]; [|done]. destruct (n =? 0); [done|]. destruct Ho1. split; cbn; try done. by apply from_millis_duration, Hc1. }
  intros o2 Ho2. wp_step. eapply (wp_mono _ driad_options_ok _ (λ _, True)); [| |done].
  { destruct (fd_attempts c) as [n|]; [|done]. destruct (n =? 0); [done|]. destruct Ho2. split; cbn; try done. by apply Hc2. }
  intros o3 Ho3. cbn [wp].
  repeat (eapply when_given_ok; [eassumption|intros n o Hn Ho; destruct Ho; split; cbn; try done; first [by apply from_millis_duration|by apply from_secs_duration]|]).
  eapply (when_given_ok (λ _, True)); [by intros ?| |done]. intros b o _ Ho. destruct Ho. by split.
Qed.
Lemma transpose_wp {A B} (f : A → res CliError B) o : (∀ a, wp (f a) (λ _, True) (λ _, True)) → wp (transpose f o) (λ _, True) (λ _, True).
Proof. intros Hf. unfold transpose. destruct o as [a|]; [|done]. specialize (Hf a). by destruct (f a). Qed.
Lemma interval_or_ok seconds d : given u64 seconds → positive_duration d → given positive_duration (interval_or seconds d).
Proof. intros Hs Hd. unfold interval_or. destruct seconds as [n|]; [by apply nonzero_secs, Hs|by apply given_some]. Qed.
Lemma downstream_from_file_ok file : given gateway_file_wf file → wp (downstream_from_file file) (given downstream_ok) (λ _, True).
Proof.
  intros Hf. unfold downstream_from_file. assert (downstream_ok default_downstream) as Hd by (split; apply given_none).
  destruct (file ≫= fg_downstream) as [c|] eqn:Hc.
  - case_bool_decide; [|done]. cbn. apply given_some. apply bind_Some in Hc as (f & -> & Hc).
    specialize (Hf f eq_refl) as (_ & _ & _ & _ & Hw & _). specialize (Hw c Hc) as (? & ? & _). by split.
  - destruct (default false _); cbn; [apply given_none|by apply given_some].
Qed.
Lemma gateway_from_file_ok file :
  given file_config_wf file →
  wp (gateway_options_from_file file) (λ '(o, joins), gateway_options_ok o ∧ Forall join_wf joins) (λ _, True).
Proof.
  intros Hf. unfold gateway_options_from_file.
  assert (given gateway_file_wf (file ≫= file_gateway)) as Hg by (eapply given_bind; [done|]; intros c (_ & ? & _); done).
  generalize (metrics_from_file_ok file Hf). generalize (metrics_config_from_file file). intros metrics Hm.
  revert Hg. generalize (file ≫= file_gateway). intros g Hg. clear Hf file.
  wp_step. eapply wp_mono; [apply transpose_wp, parse_relay_discovery_wp| |done]. intros discovery _.
  wp_step. eapply wp_mono; [apply driad_options_from_file_ok; eapply given_bind; [done|]; intros c (_ & _ & _ & _ & _ & _ & _ & ? & _); done| |done].
  intros driad Hdriad. wp_step. eapply wp_mono; [apply transpose_wp, parse_protocol_wp| |done]. intros protocol _.
  wp_step. eapply wp_mono; [by apply downstream_from_file_ok| |done]. intros downstream Hdown. cbv zeta.
  assert (given (λ l, given ip_wf (fm_interface l) ∧ given u32 (fm_interface_index l) ∧
    Forall (given u64) [fm_query_interval_secs l; fm_reporter_timeout_secs l]) (g ≫= fg_local_membership)) as Hl
    by (eapply given_bind; [done|]; intros c (_ & _ & _ & _ & _ & ? & _); done).
  assert (Forall (λ f : GatewayFileConfig → option Z, given u64 (g ≫= f)) [fg_local_query_interval_secs; fg_membership_refresh_interval_secs]) as Hs.
  { rewrite !Forall_cons, Forall_nil. split_and!; [..|done]; (eapply given_bind; [done|]; intros c (_ & _ & _ & _ & _ & _ & Hs & _);
      rewrite !Forall_cons in Hs; by destruct_and?). }
  rewrite !Forall_cons in Hs. destruct Hs as (Hs1 & Hs2 & _).
  revert Hl. generalize (g ≫= fg_local_membership). intros l Hl.
  assert (given u64 (l ≫= fm_query_interval_secs) ∧ given u64 (l ≫= fm_reporter_timeout_secs)) as [Hl1 Hl2].
  { split; (eapply given_bind; [done|]; intros c (_ & _ & Hx); rewrite !Forall_cons in Hx; by destruct_and?). }
  destruct (Z.eqb_spec (from_secs (default 260 (l ≫= fm_reporter_timeout_secs))) 0) as [|Hne]; [done|].
  wp_step. eapply wp_mono; [exact Hm| |done]. intros m Hmet. cbn. split; [split; cbn; try done|].
  - eapply given_bind; [done|]. by intros c (? & _).
  - eapply given_bind; [done|]. by intros c (_ & ? & _).
  - eapply given_bind; [done|]. by intros c (_ & _ & ? & _).
  - eapply given_bind; [done|]. by intros c (_ & _ & _ & ? & _).
  - eapply given_bind; [done|]. by intros c (? & _).
  - eapply given_bind; [done|]. by intros c (_ & ? & _).
  - apply interval_or_ok; [|by apply (bool_decide_unpack _)]. by destruct (l ≫= fm_query_interval_secs).
  - assert (u64 (default 260 (l ≫= fm_reporter_timeout_secs))) as Hu by (by apply given_default).
    apply from_secs_positive; [done|]. intros H0. by rewrite H0 in Hne.
  - apply interval_or_ok; [done|by apply (bool_decide_unpack _)].
  - destruct g as [c|]; cbn; [|done]. specialize (Hg c eq_refl) as (_ & _ & _ & _ & _ & _ & _ & _ & Hj). apply Forall_fmap.
    eapply Forall_impl; [exact Hj|]. intros j [? Hsrc]. split; [done|]. cbn. destruct (fj_source j); [by apply Hsrc|done].
Qed.

(** ** The configuration *)

(** A join the gateway can carry, and one that its source's relay can be found for. *)
Definition join_ok (protocol : MembershipProtocol) (j : GatewayJoin) : Prop :=
  join_wf j ∧ is_amt_forwardable_group (gj_group j) = true ∧ protocol_matches_address protocol (gj_group j) = true ∧
  given (λ s, same_family (gj_group j) s = true ∧ is_valid_source s = true) (gj_source j).
Definition join_discoverable (j : GatewayJoin) : Prop :=
  is_ssm_group (gj_group j) = true ∧ ∃ s, gj_source j = Some s ∧ same_family (gj_group j) s = true ∧
  ip_is_unspecified s = false ∧ ip_is_multicast s = false.
Definition local_settings_ok (protocol : MembershipProtocol) (l : LocalMembershipConfig) : Prop :=
  lc_protocol l = protocol ∧ given (λ i, ip_wf i ∧ protocol_matches_address protocol i = true) (lc_interface l) ∧
  given u32 (lc_interface_index l) ∧ positive_duration (lc_reporter_timeout l) ∧
  given (λ interval, positive_duration interval ∧ least_reporter_timeout interval <= lc_reporter_timeout l) (lc_query_interval l).

(** An accepted configuration. *)
Record gateway_command_ok (driad_feature : bool) (c : GatewayDaemonConfig) : Prop := {
  gk_relay : sock_wf (gc_relay (gdc_gateway c)) ∧ is_valid_source (sock_ip (gc_relay (gdc_gateway c))) = true ∧ sock_port (gc_relay (gdc_gateway c)) ≠ 0;
  gk_bind : sock_wf (gdc_bind c) ∧ same_family (sock_ip (gdc_bind c)) (sock_ip (gc_relay (gdc_gateway c))) = true;
  gk_nonces : nonce_ok (gc_discovery_nonce (gdc_gateway c)) ∧ nonce_ok (gc_request_nonce (gdc_gateway c));
  gk_joins : Forall (join_ok (gc_protocol (gdc_gateway c))) (gdc_joins c);
  gk_asks : gdc_joins c ≠ [] ∨ is_Some (gdc_local_membership c);
  gk_downstream : given (λ d, downstream_ok d ∧ validate_options_for_protocol d (gc_protocol (gdc_gateway c)) = Ok tt) (gdc_downstream c);
  gk_local : given (local_settings_ok (gc_protocol (gdc_gateway c))) (gdc_local_membership c);
  gk_refresh : given positive_duration (gdc_membership_refresh_interval c);
  (** With DRIAD each join has a source of its own, and the settings pass the daemon's checks. *)
  gk_driad : given (λ d, driad_feature = true ∧ validate_gateway_driad d = Ok tt ∧ u64 (gdr_max_source_tunnels d) ∧
    given (λ b, b = gdc_bind c) (gdr_bind d) ∧ Forall join_discoverable (gdc_joins c)) (gdc_driad c);
  gk_metrics : metrics_ok (gdc_metrics c)
}.

Lemma validate_gateway_join_wp group source :
  wp (validate_gateway_join group source)
    (λ _, is_amt_forwardable_group group = true ∧ given (λ s, same_family group s = true ∧ is_valid_source s = true) source) (λ _, True).
Proof.
  unfold validate_gateway_join. destruct (is_amt_forwardable_group group); [|done]. cbn [negb].
  destruct (is_some_and _ source) eqn:Hs; [done|]. cbn. split; [done|]. intros s ->. cbn in Hs. zbool. done.
Qed.
Lemma validate_joins_wp protocol joins :
  Forall join_wf joins → wp (validate_joins protocol joins) (λ _, Forall (join_ok protocol) joins) (λ _, True).
Proof.
  induction 1 as [|j joins Hj _ IH]; cbn [validate_joins]; [by constructor|]. wp_step. eapply wp_mono; [apply validate_gateway_join_wp| |done].
  intros [] [Ha Hs]. destruct (protocol_matches_address protocol (gj_group j)) eqn:Hp; [|done]. eapply wp_mono; [exact IH| |done]. intros [] ?. by constructor.
Qed.
Lemma first_zero_none values : first_zero values = None → Forall (λ p, p.2 ≠ 0) values.
Proof.
  unfold first_zero. intros H. apply Forall_forall. intros p Hp H0. assert (p ∈ filter (λ p : string * Z, p.2 = 0) values) as Hin by by apply list_elem_of_filter.
  destruct (filter _ values); [by apply not_elem_of_nil in Hin|done].
Qed.
(** The checks on the options of DRIAD are those of the daemon and of the resolver. *)
Definition driad_options_positive (o : GatewayDriadOptions) : Prop :=
  Forall (λ n, n ≠ 0) [do_max_candidates o; do_max_queries_per_window o; do_attempts o; do_max_source_tunnels o; do_max_concurrent_probes o;
    do_max_dns_workers o; do_timeout o; do_query_rate_window o; do_happy_eyeballs_delay o; do_relay_hold_down o; do_traffic_hold_down o;
    do_initial_traffic_timeout o; do_maximum_traffic_timeout o] ∧
  do_initial_traffic_timeout o <= do_maximum_traffic_timeout o.
Lemma validate_driad_options_wp o : wp (validate_driad_options o) (λ _, driad_options_positive o) (λ _, True).
Proof.
  unfold validate_driad_options. destruct (first_zero _) eqn:H1; [done|]. destruct (first_zero (("timeout_ms"%string, _) :: _)) eqn:H2; [done|].
  apply first_zero_none in H1, H2. rewrite !Forall_cons in H1. rewrite !Forall_cons in H2. cbn in H1, H2. destruct_and?.
  destruct (Z.ltb_spec (do_maximum_traffic_timeout o) (do_initial_traffic_timeout o)); [done|]. cbn. split; [|done].
  repeat (apply Forall_cons; split; [done|]). by apply Forall_nil.
Qed.

(** The joins that go through, and the rest of the checks on the options. *)
Record options_accepted (o : GatewayOptions) (protocol : MembershipProtocol) (joins : list GatewayJoin) : Prop := {
  oa_joins : Forall (join_ok protocol) joins;
  oa_asks : joins ≠ [] ∨ go_transparent o = true;
  oa_driad : driad_options_positive (go_driad o);
  oa_downstream : given (λ d, downstream_ok d ∧ validate_options_for_protocol d protocol = Ok tt) (go_downstream o);
  oa_local : go_transparent o = true → local_settings_ok protocol (local_config o protocol)
}.
Lemma gateway_protocol_and_joins_ok o configured :
  gateway_options_ok o → Forall join_wf configured →
  wp (gateway_protocol_and_joins o configured) (λ '(protocol, joins), options_accepted o protocol joins) (λ _, True).
Proof.
  intros Ho Hj. unfold gateway_protocol_and_joins. wp_step. eapply wp_mono; [apply validate_driad_options_wp| |done]. intros [] Hd.
  destruct (bool_decide (go_group o = None) && is_empty configured && negb (go_transparent o)) eqn:Hasks; [done|].
  destruct (bool_decide (is_Some (go_source o)) && _); [done|]. destruct (go_transparent o && _) eqn:Htimeout; [done|].
  wp_step. eapply (wp_mono _ (λ _, given (λ g, is_amt_forwardable_group g = true ∧ given (λ s, same_family g s = true ∧ is_valid_source s = true) (go_source o)) (go_group o)) _ (λ _, True)); [| |done].
  { destruct (go_group o) as [g|]; [|apply given_none]. eapply wp_mono; [apply validate_gateway_join_wp| |done]. intros [] ?. by apply given_some. }
  intros [] Hgroup. cbv zeta. set (protocol := default _ (go_protocol o)).
  destruct (is_some_and _ (go_group o)) eqn:Hg; [done|]. destruct (is_some_and _ (go_local_interface o)) eqn:Hli; [done|].
  destruct (is_some_and _ (go_downstream o ≫= dc_interface)) eqn:Hdi; [done|].
  wp_step. eapply (wp_mono _ (λ _, given (λ d, validate_options_for_protocol d protocol = Ok tt) (go_downstream o)) _ (λ _, True)); [| |done].
  { destruct (go_downstream o) as [d|]; [|apply given_none]. destruct (validate_options_for_protocol d protocol) as [[]|e| |] eqn:Hv; try done; [by apply given_some|..];
      unfold validate_options_for_protocol, validate_options_for_family in Hv; repeat case_match; done. }
  intros [] Hdown. wp_step. eapply wp_mono; [by apply validate_joins_wp| |done]. intros [] Hjoins. cbn. split.
  - apply Forall_app. split; [done|]. destruct (go_group o) as [g|] eqn:Eg; [|done]. apply Forall_singleton. destruct (Hgroup g eq_refl) as [? ?].
    cbn in Hg. zbool. split_and!; try done. split; cbn; [by apply (og_group o Ho)|]. destruct (go_source o) eqn:Es; [|done]. by apply (og_source o Ho).
  - destruct (go_transparent o); [by right|left]. rewrite andb_true_r in Hasks. destruct (go_group o); [by destruct configured|]. by destruct configured.
  - done.
  - intros d Ed. split; [by apply (og_downstream o Ho)|by apply Hdown].
  - intros Ht. rewrite Ht in Htimeout. cbn in Htimeout. split; [done|]. split; [|split; [|split; [exact (og_reporter_timeout o Ho)|]]].
    + intros i. cbn. destruct (go_local_interface o) as [i'|] eqn:Ei.
      * intros [= ->]. cbn in Hli. zbool. split; [by apply (og_local_interface o Ho)|done].
      * intros Hi. rewrite Hi in Hdi. cbn in Hdi. zbool. split; [|done]. apply bind_Some in Hi as (d & Ed & Hi). by apply (proj1 (og_downstream o Ho d Ed)).
    + intros i. cbn. destruct (go_local_ifindex o) as [i'|] eqn:Ei.
      * intros [= ->]. by apply (og_local_ifindex o Ho).
      * intros (d & Ed & Hi)%bind_Some. by apply (proj2 (og_downstream o Ho d Ed)).
    + cbn. intros interval Hi. split; [by apply (og_query_interval o Ho)|]. rewrite Hi in Htimeout. cbn in Htimeout. by zbool.
Qed.

Lemma collect_sources_wp joins : ∀ sources,
  wp (collect_sources joins sources) (λ _, Forall join_discoverable joins) (λ _, True).
Proof.
  induction joins as [|j joins IH]; intros sources; cbn [collect_sources]; [by constructor|].
  destruct (is_ssm_group (gj_group j)) eqn:Hg; [|done]. cbn [negb]. destruct (gj_source j) as [s|] eqn:Hs; [|done].
  destruct (same_family (gj_group j) s) eqn:Hf; [|done]. cbn [negb]. destruct (ip_is_unspecified s || ip_is_multicast s) eqn:Hu; [done|].
  apply orb_false_iff in Hu as [? ?]. eapply wp_mono; [apply IH| |done]. intros X HX. constructor; [|done]. split; [done|]. by exists s.
Qed.
Lemma driad_sources_wp joins transparent : wp (driad_sources_for_joins joins transparent) (λ _, Forall join_discoverable joins) (λ _, True).
Proof. unfold driad_sources_for_joins. destruct (_ && _); [done|]. apply collect_sources_wp. Qed.

Section accepted.
Context (driad_feature : bool) (resolv_conf : res string (list Z)) (load_file : string → res string FileConfig).
(** The readers return, and a configuration has the types of [src/config.rs]. *)
Hypothesis resolv_conf_returns : returns resolv_conf.
Hypothesis load_typed : ∀ path, wp (load_file path) file_config_wf (λ _, True).

Lemma resolver_config_wp o :
  wp (resolver_config resolv_conf o)
    (λ c, rc_timeout c = do_timeout o ∧ rc_attempts c = do_attempts o ∧ rc_max_candidates c = do_max_candidates o ∧
      rc_max_queries_per_window c = do_max_queries_per_window o ∧ rc_query_rate_window c = do_query_rate_window o) (λ _, True).
Proof.
  unfold resolver_config. wp_step. destruct (is_empty (do_resolvers o)); [|done]. wp_step. unfold system_resolver_config. wp_step.
  eapply wp_mono; [by apply system_resolvers_wf| |done]. by intros rs _.
Qed.
Lemma resolve_driad_wp joins o transparent bind anycast :
  driad_options_ok o → driad_options_positive o →
  wp (resolve_driad_relays driad_feature resolv_conf joins o transparent bind anycast)
    (λ r, ∃ relay driad, r = mkResolvedRelays [relay] (Some driad) ∧ sock_wf relay ∧ driad_feature = true ∧ validate_gateway_driad driad = Ok tt ∧
       u64 (gdr_max_source_tunnels driad) ∧ gdr_bind driad = bind ∧ Forall join_discoverable joins) (λ _, True).
Proof.
  intros Ho [Hp Hlt]. rewrite !Forall_cons in Hp. unfold resolve_driad_relays. destruct (is_some_and _ bind) eqn:Hb; [done|].
  wp_step. eapply wp_mono; [apply driad_sources_wp| |done]. intros sources Hj. destruct driad_feature; [|done].
  wp_step. eapply wp_mono; [apply resolver_config_wp| |done]. intros c Hc. wp_step. wp_step.
  destruct (validate_resolver c) as [[]|e| |] eqn:Hv; [|done|unfold validate_resolver in Hv; repeat case_match; done..]. cbn.
  eexists _, _. split; [done|]. split; [destruct (sock_ip <$> bind) as [[]|]; decide_ok|]. split; [done|]. split; [|by destruct Ho].
  unfold validate_gateway_driad. cbn. rewrite Hv. cbn. rewrite Hb. destruct_and?.
  repeat match goal with H : ?x ≠ 0 |- context [?x =? 0] => rewrite (proj2 (Z.eqb_neq x 0) H) end. cbn. by rewrite (proj2 (Z.ltb_ge _ _)).
Qed.
(** What the relays are: a given one, or an anycast address with the settings of DRIAD. *)
Definition relays_resolved (o : GatewayOptions) (joins : list GatewayJoin) (r : ResolvedGatewayRelays) : Prop :=
  ∃ relay, rg_relays r = [relay] ∧ sock_wf relay ∧
  given (λ d, driad_feature = true ∧ validate_gateway_driad d = Ok tt ∧ u64 (gdr_max_source_tunnels d) ∧ gdr_bind d = go_bind o ∧
    Forall join_discoverable joins) (rg_driad r) ∧
  (rg_driad r = None → go_relay o = Some relay).
Lemma resolve_gateway_wp o joins :
  gateway_options_ok o → driad_options_positive (go_driad o) →
  wp (resolve_gateway_relays driad_feature resolv_conf (go_relay o) (go_relay_discovery o) joins (go_driad o) (go_transparent o) (go_bind o))
    (relays_resolved o joins) (λ _, True).
Proof.
  intros Ho Hp. assert (∀ anycast, wp (resolve_driad_relays driad_feature resolv_conf joins (go_driad o) (go_transparent o) (go_bind o) anycast)
    (relays_resolved o joins) (λ _, True)) as Hd.
  { intros anycast. eapply wp_mono; [by apply resolve_driad_wp; [apply (og_driad o Ho)|]| |done]. intros r (relay & d & -> & Hr & Hx). exists relay.
    split_and!; try done. by apply given_some. }
  assert (∀ relay, go_relay o = Some relay → relays_resolved o joins (static_relay relay)) as Hs.
  { intros relay Hr. exists relay. split_and!; try done. by apply (og_relay o Ho). }
  unfold resolve_gateway_relays. destruct (go_relay_discovery o); [|apply Hd|].
  - destruct (go_relay o) as [relay|]; [|done]. by apply Hs.
  - destruct (go_relay o) as [relay|]; [by apply Hs|apply Hd].
Qed.
Lemma bind_and_relays_wp bind relay :
  given sock_wf bind → sock_wf relay →
  wp (gateway_bind_and_relays bind [relay])
    (λ '(b, r, rs), r = relay ∧ rs = [relay] ∧ is_valid_source (sock_ip relay) = true ∧ sock_port relay ≠ 0 ∧ sock_wf b ∧
       same_family (sock_ip b) (sock_ip relay) = true ∧ given (λ x, x = b) bind) (λ _, True).
Proof.
  intros Hb Hr. unfold gateway_bind_and_relays. wp_step.
  assert (∀ m : res CliError (list SocketAddr), m = Ok [relay] → wp m (λ rs, rs = [relay]) (λ _, True)) as Hm by by intros m ->.
  eapply (wp_mono _ (λ rs, rs = [relay]) _ (λ _, True)); [by destruct bind; apply Hm| |done]. intros rs ->. cbn [validate_relays].
  wp_step. wp_step. eapply wp_mono; [by apply (validate_address_wp _ _ (λ _, True))| |done]. intros [] Hv.
  destruct (Z.eqb_spec (sock_port relay) 0); [done|]. cbn [wp]. wp_step. change (idx [relay] 0) with (Ok relay : res CliError SocketAddr). cbn [wp].
  match goal with |- context [negb (same_family (sock_ip ?x) _)] => set (b := x) end.
  assert (sock_wf b) as Hbw by (apply given_default; [done|]; destruct relay; decide_ok).
  destruct (same_family (sock_ip b) (sock_ip relay)) eqn:Hf; [|done]. cbn. split_and!; try done. by intros x ->.
Qed.

(** The random source gives the two nonces that [GatewayConfig::new] draws. *)
Definition nonces_drawn (rng : draws) : Prop :=
  draws_wf rng ∧ ∃ n1 rng1 n2 rng2, random_nonce (E:=GatewayError) rng = Ok (n1, rng1) ∧ random_nonce (E:=GatewayError) rng1 = Ok (n2, rng2).

Lemma gateway_daemon_config_ok rng o configured :
  nonces_drawn rng → gateway_options_ok o → Forall join_wf configured →
  wp (gateway_daemon_config driad_feature resolv_conf rng o configured)
    (λ '(c, rng'), gateway_command_ok driad_feature c ∧ draws_wf rng') (λ _, True).
Proof.
  intros (Hrng & n1 & rng1 & n2 & rng2 & H1 & H2) Ho Hj. unfold gateway_daemon_config. wp_step. eapply wp_mono; [by apply gateway_protocol_and_joins_ok| |done].
  intros [protocol joins] Ha. wp_step. eapply wp_mono; [apply resolve_gateway_wp; [done|apply (oa_driad _ _ _ Ha)]| |done].
  intros resolved (relay & Hrel & Hrw & Hdriad & _). rewrite Hrel. wp_step. eapply wp_mono; [by apply bind_and_relays_wp; [apply (og_bind o Ho)|]| |done].
  intros [[bind r] rs] (-> & -> & Hv & Hport & Hbw & Hfam & Hsame). unfold new_gateway_config. rewrite H1. cbn [mbind res_bind]. rewrite H2. cbn.
  destruct (random_nonce_ok _ _ _ Hrng H1) as [Hn1 Hrng1]. destruct (random_nonce_ok _ _ _ Hrng1 H2) as [Hn2 Hrng2]. split; [|done].
  destruct Ha as [A1 A2 A3 A4 A5]. split; cbn; try done.
  - destruct A2 as [?|Ht]; [by left|right]. by rewrite Ht.
  - intros l. destruct (go_transparent o); [intros [= <-]; by apply A5|done].
  - apply (og_refresh o Ho).
  - intros d Hd. destruct (Hdriad d Hd) as (? & ? & ? & Hb & ?). rewrite Hb. by split_and!.
  - apply (og_metrics o Ho).
Qed.
Lemma parse_gateway_config_ok rng args :
  nonces_drawn rng →
  wp (parse_gateway_config driad_feature resolv_conf load_file rng args)
    (given (λ '(c, rng'), gateway_command_ok driad_feature c ∧ draws_wf rng')) (λ _, True).
Proof.
  intros Hrng. unfold parse_gateway_config. cli_step. eapply wp_mono; [apply split_config_wp| |done]. intros [path rest] _.
  cli_step. eapply wp_mono; [by apply load_optional_wp| |done]. intros file Hf. cli_step. eapply wp_mono; [by apply gateway_from_file_ok| |done].
  intros [o joins] [Ho Hj]. cli_step. eapply wp_mono; [by apply (arg_loop_wp gateway_arm gateway_options_ok), Ho; apply gateway_arm_ok| |done].
  intros [o'|] Ho'; [|by apply given_none]. specialize (Ho' o' eq_refl). cli_step. eapply wp_mono; [by apply gateway_daemon_config_ok| |done].
  intros [c rng'] Hc. cbn. by apply given_some.
Qed.
End accepted.

(** ** The options of the command line *)

Definition gateway_takes (arg : string) : bool :=
  one_of arg ["--bind"; "--relay"; "--relay-discovery"; "--driad-resolver"; "--driad-timeout-ms"; "--driad-attempts"; "--driad-max-candidates";
    "--driad-max-queries"; "--driad-query-window-ms"; "--driad-happy-eyeballs-delay-ms"; "--driad-relay-hold-down"; "--driad-traffic-hold-down";
    "--driad-initial-traffic-timeout"; "--driad-maximum-traffic-timeout"; "--driad-max-source-tunnels"; "--driad-max-concurrent-probes";
    "--driad-max-dns-workers"; "--protocol"; "--group"; "--source"; "--local-membership-interface"; "--local-membership-ifindex";
    "--local-query-interval"; "--local-reporter-timeout"; "--membership-refresh-interval"; "--downstream-interface"; "--downstream-ifindex";
    "--metrics-dir"; "--node-id"; "--metrics-interval-ms"].
Lemma gateway_arm_takes : takes_value gateway_arm gateway_takes.
Proof.
  intros arg o. destruct (gateway_arm arg o) as [o'|use|e|] eqn:H; try done; unfold gateway_arm in H; by_name; by simplify_eq.
Qed.
Definition option_of {A} (m : res CliError A) : option A := match m with Ok a => Some a | _ => None end.
Definition off (name : string) : bool := String.eqb name "--no-downstream".
(** The settings, each with the arguments it comes from; [law] is what is said of each. [--no-downstream] clears every setting of the
    downstream, which any other of its arguments turns on again. *)
Definition gateway_settings (law : ∀ A, (GatewayOptions → A) → list string → (string → option string → option A) → Prop) : Prop :=
  law _ go_bind ["--bind"] (λ n v, Some <$> reads parse_socket n v) ∧
  law _ go_ecn ["--ecn"; "--no-ecn"] (λ n _, Some (String.eqb n "--ecn")) ∧
  law _ go_relay ["--relay"] (λ n v, Some <$> reads parse_socket n v) ∧
  law _ go_relay_discovery ["--relay-discovery"] (λ _ v, v ≫= λ v, option_of (parse_relay_discovery v)) ∧
  law _ go_protocol ["--protocol"] (λ _ v, Some <$> (v ≫= λ v, option_of (parse_protocol v))) ∧
  law _ go_group ["--group"] (λ n v, Some <$> reads parse_ip n v) ∧
  law _ go_source ["--source"] (λ n v, Some <$> reads parse_ip n v) ∧
  law _ go_transparent ["--transparent"] (λ _ _, Some true) ∧
  law _ go_local_interface ["--local-membership-interface"] (λ n v, Some <$> reads parse_ip n v) ∧
  law _ go_local_ifindex ["--local-membership-ifindex"] (λ n v, Some <$> reads parse_u32 n v) ∧
  law _ go_local_query_interval ["--local-query-interval"] (λ n v, (λ s, from_secs <$> nonzero s) <$> reads parse_u64 n v) ∧
  law _ go_local_reporter_timeout ["--local-reporter-timeout"] (λ n v, from_secs <$> reads parse_u64 n v) ∧
  law _ go_membership_refresh_interval ["--membership-refresh-interval"] (λ n v, (λ s, from_secs <$> nonzero s) <$> reads parse_u64 n v) ∧
  law _ (λ o, bool_decide (is_Some (go_downstream o)))
    ["--downstream-interface"; "--downstream-ifindex"; "--no-downstream-loopback"; "--no-downstream"] (λ n _, Some (negb (off n))) ∧
  law _ (λ o, go_downstream o ≫= dc_interface) ["--downstream-interface"; "--no-downstream"]
    (λ n v, if off n then Some None else Some <$> reads parse_ip n v) ∧
  law _ (λ o, go_downstream o ≫= dc_interface_index) ["--downstream-ifindex"; "--no-downstream"]
    (λ n v, if off n then Some None else Some <$> reads parse_u32 n v) ∧
  law _ (λ o, go_downstream o ≫= dc_loopback) ["--no-downstream-loopback"; "--no-downstream"]
    (λ n _, if off n then Some None else Some (Some false)) ∧
  law _ (mc_output_dir ∘ go_metrics) ["--metrics-dir"] (λ _ v, (λ dir, Some (path_buf dir)) <$> v) ∧
  law _ (mc_node_id ∘ go_metrics) ["--node-id"] (λ _ v, v) ∧
  law _ (mc_sample_interval ∘ go_metrics) ["--metrics-interval-ms"] (λ n v, from_millis <$> reads parse_u64 n v).
Definition driad_settings (law : ∀ A, (GatewayDriadOptions → A) → list string → (string → option string → option A) → Prop) : Prop :=
  law _ do_timeout ["--driad-timeout-ms"] (λ n v, from_millis <$> reads parse_u64 n v) ∧
  law _ do_attempts ["--driad-attempts"] (reads parse_usize) ∧
  law _ do_allow_insecure_dns ["--driad-allow-insecure-dns"] (λ _ _, Some true) ∧
  law _ do_max_candidates ["--driad-max-candidates"] (reads parse_usize) ∧
  law _ do_max_queries_per_window ["--driad-max-queries"] (reads parse_usize) ∧
  law _ do_query_rate_window ["--driad-query-window-ms"] (λ n v, from_millis <$> reads parse_u64 n v) ∧
  law _ do_happy_eyeballs_delay ["--driad-happy-eyeballs-delay-ms"] (λ n v, from_millis <$> reads parse_u64 n v) ∧
  law _ do_relay_hold_down ["--driad-relay-hold-down"] (λ n v, from_secs <$> reads parse_u64 n v) ∧
  law _ do_traffic_hold_down ["--driad-traffic-hold-down"] (λ n v, from_secs <$> reads parse_u64 n v) ∧
  law _ do_initial_traffic_timeout ["--driad-initial-traffic-timeout"] (λ n v, from_secs <$> reads parse_u64 n v) ∧
  law _ do_maximum_traffic_timeout ["--driad-maximum-traffic-timeout"] (λ n v, from_secs <$> reads parse_u64 n v) ∧
  law _ do_max_source_tunnels ["--driad-max-source-tunnels"] (reads parse_usize) ∧
  law _ do_max_concurrent_probes ["--driad-max-concurrent-probes"] (reads parse_usize) ∧
  law _ do_max_dns_workers ["--driad-max-dns-workers"] (reads parse_usize).
Definition named_resolver (t : string * option string) : option SocketAddr :=
  if one_of t.1 ["--driad-resolver"] then t.2 ≫= λ v, option_of (parse_driad_resolver v) else None.
Lemma option_of_ok {A} (m : res CliError A) a : m = Ok a → option_of m = Some a.
Proof. by intros ->. Qed.
Lemma gateway_token_law o t o' :
  run_token gateway_arm o t = Ok (Some o') →
  gateway_settings (λ A proj names f, if one_of t.1 names then f t.1 t.2 = Some (proj o') else proj o' = proj o) ∧
  driad_settings (λ A proj names f, if one_of t.1 names then f t.1 t.2 = Some (proj (go_driad o')) else proj (go_driad o') = proj (go_driad o)) ∧
  do_resolvers (go_driad o') = do_resolvers (go_driad o) ++ option_list (named_resolver t).
Proof.
  destruct t as [name value]. unfold run_token, gateway_arm. cbn [fst snd]. intros H.
  by_name; cli_inv; try done; unfold gateway_settings, driad_settings, named_resolver; cbn; unfold reads; cbn;
    repeat match goal with H : _ = Some _ |- _ => rewrite H | H : _ = Ok _ |- _ => apply option_of_ok in H end; cbn; rewrite ?app_nil_r;
    split_and!; try done; by destruct (go_downstream o).
Qed.
Lemma gateway_tokens_governed ts o o' :
  run_tokens gateway_arm o ts = Ok (Some o') →
  gateway_settings (λ A proj names f, governed proj names f o o' ts) ∧
  driad_settings (λ A proj names f, governed (proj ∘ go_driad) names f o o' ts) ∧
  do_resolvers (go_driad o') = do_resolvers (go_driad o) ++ omap named_resolver ts.
Proof.
  intros H. split_and!.
  - unfold gateway_settings. split_and!; apply (last_mention_governs gateway_arm); try done; intros ? ? ? [Hl _]%gateway_token_law;
      unfold gateway_settings in Hl; by destruct_and?.
  - unfold driad_settings. split_and!; apply (last_mention_governs gateway_arm); try done; intros ? ? ? [_ [Hl _]]%gateway_token_law;
      unfold driad_settings in Hl; by destruct_and?.
  - revert o H. induction ts as [|t ts IH]; intros o; cbn [run_tokens]; [intros [= <-]; by rewrite app_nil_r|].
    destruct (run_token gateway_arm o t) as [[o1|]|e| |] eqn:E; cbn; try done. intros ->%IH. apply gateway_token_law in E as (_ & _ & ->).
    rewrite <-(assoc_L (++)). f_equal. cbn. by destruct (named_resolver t).
Qed.

(** What the options make of the daemon's configuration. *)
Record configured (o : GatewayOptions) (joins : list GatewayJoin) (c : GatewayDaemonConfig) : Prop := {
  cg_bind : given (λ bind, gdc_bind c = bind) (go_bind o);
  cg_ecn : gc_ecn (gdc_gateway c) = go_ecn o;
  cg_protocol : given (λ protocol, gc_protocol (gdc_gateway c) = protocol) (go_protocol o);
  cg_joins : gdc_joins c = joins ++ option_list ((λ group, mkJoin group (go_source o)) <$> go_group o);
  cg_downstream : gdc_downstream c = go_downstream o;
  cg_refresh : gdc_membership_refresh_interval c = go_membership_refresh_interval o;
  cg_metrics : gdc_metrics c = go_metrics o;
  cg_transparent : is_Some (gdc_local_membership c) ↔ go_transparent o = true;
  cg_local : given (λ l, lc_query_interval l = go_local_query_interval o ∧ lc_reporter_timeout l = go_local_reporter_timeout o ∧
    given (λ i, lc_interface l = Some i) (go_local_interface o) ∧ given (λ i, lc_interface_index l = Some i) (go_local_ifindex o))
    (gdc_local_membership c);
  (** A relay that is named is used, unless discovery is asked for. *)
  cg_relay : given (λ relay, go_relay_discovery o ≠ DriadDiscovery → gc_relay (gdc_gateway c) = relay ∧ gdc_driad c = None) (go_relay o);
  cg_discovery : go_relay_discovery o = DriadDiscovery → is_Some (gdc_driad c);
  cg_driad : given (λ d,
    rc_timeout (gdr_resolver d) = do_timeout (go_driad o) ∧ rc_attempts (gdr_resolver d) = do_attempts (go_driad o) ∧
    rc_allow_insecure_dns (gdr_resolver d) = do_allow_insecure_dns (go_driad o) ∧ rc_max_candidates (gdr_resolver d) = do_max_candidates (go_driad o) ∧
    rc_max_queries_per_window (gdr_resolver d) = do_max_queries_per_window (go_driad o) ∧
    rc_query_rate_window (gdr_resolver d) = do_query_rate_window (go_driad o) ∧
    gdr_happy_eyeballs_delay d = do_happy_eyeballs_delay (go_driad o) ∧ gdr_relay_hold_down d = do_relay_hold_down (go_driad o) ∧
    gdr_traffic_hold_down d = do_traffic_hold_down (go_driad o) ∧ gdr_initial_traffic_timeout d = do_initial_traffic_timeout (go_driad o) ∧
    gdr_maximum_traffic_timeout d = do_maximum_traffic_timeout (go_driad o) ∧ gdr_max_source_tunnels d = do_max_source_tunnels (go_driad o) ∧
    gdr_max_concurrent_probes d = do_max_concurrent_probes (go_driad o) ∧ gdr_max_dns_workers d = do_max_dns_workers (go_driad o)) (gdc_driad c)
}.
Lemma protocol_and_joins_inv o configured_joins protocol joins :
  gateway_protocol_and_joins o configured_joins = Ok (protocol, joins) →
  given (λ p, protocol = p) (go_protocol o) ∧ joins = configured_joins ++ option_list ((λ group, mkJoin group (go_source o)) <$> go_group o).
Proof.
  unfold gateway_protocol_and_joins. intros H. apply bind_ok_inv in H as ([] & _ & H). do 3 (case_match; [done|]). apply bind_ok_inv in H as ([] & _ & H).
  do 3 (case_match; [done|]). apply bind_ok_inv in H as ([] & _ & H). apply bind_ok_inv in H as ([] & _ & [= <- <-]).
  split; [by intros p ->|by destruct (go_group o)].
Qed.
Lemma driad_relays_inv feature resolv_conf joins options transparent bind use_anycast resolved :
  resolve_driad_relays feature resolv_conf joins options transparent bind use_anycast = Ok resolved →
  ∃ d resolvers, rg_driad resolved = Some d ∧
    gdr_resolver d = mkResolverConfig resolvers (do_timeout options) (do_attempts options) (do_allow_insecure_dns options)
      (do_max_candidates options) (do_max_queries_per_window options) (do_query_rate_window options) ∧
    d = mkGatewayDriadConfig (gdr_resolver d) bind use_anycast (do_happy_eyeballs_delay options)
      (do_relay_hold_down options) (do_traffic_hold_down options) (do_initial_traffic_timeout options)
      (do_maximum_traffic_timeout options) (do_max_source_tunnels options) (do_max_concurrent_probes options) (do_max_dns_workers options).
Proof.
  unfold resolve_driad_relays. intros H. case_match; [done|]. apply bind_ok_inv in H as (sources & _ & H). destruct feature; [|done].
  apply bind_ok_inv in H as (resolver & Hr & H). apply bind_ok_inv in H as ([] & _ & [= <-]). unfold resolver_config in Hr.
  apply bind_ok_inv in Hr as (c & _ & [= <-]). by eexists _, _.
Qed.
Lemma bind_and_relays_inv bind relays b relay relays' :
  gateway_bind_and_relays bind relays = Ok (b, relay, relays') → given (λ x, b = x) bind ∧ (∀ r, relays = [r] → relay = r).
Proof.
  unfold gateway_bind_and_relays. intros H. apply bind_ok_inv in H as (rs & Hrs & H). apply bind_ok_inv in H as ([] & _ & H).
  apply bind_ok_inv in H as (r & Hr & H). case_match; [done|]. injection H as <- <- <-. split; [by intros x ->|]. intros r' ->.
  assert (rs = [r']) as -> by (destruct bind; by injection Hrs). by injection Hr.
Qed.
Lemma daemon_configured feature resolv_conf rng o joins c rng' :
  gateway_daemon_config feature resolv_conf rng o joins = Ok (c, rng') → configured o joins c.
Proof.
  unfold gateway_daemon_config. intros H. apply bind_ok_inv in H as ([protocol js] & [Hp ->]%protocol_and_joins_inv & H).
  apply bind_ok_inv in H as (resolved & Hres & H). apply bind_ok_inv in H as ([[bind relay] relays] & [Hb Hrel]%bind_and_relays_inv & H).
  apply bind_ok_inv in H as ([g rng1] & Hg & [= <- <-]).
  assert (gc_relay g = relay ∧ gc_protocol g = protocol) as [Hgr Hgp].
  { destruct (new_gateway_config relay protocol rng) as [[g' rng2]|e| |] eqn:E; try done. injection Hg as <- <-. unfold new_gateway_config in E.
    apply bind_ok_inv in E as ([n1 r1] & _ & E). by apply bind_ok_inv in E as ([n2 r2] & _ & [= <- _]). }
  assert (∀ r, resolved = static_relay r → relay = r ∧ rg_driad resolved = None) as Hstat by (intros r ->; split; [by apply Hrel|done]).
  split; cbn; try done.
  - intros p Hx. rewrite Hgp. by apply Hp.
  - destruct (go_transparent o); [by split; [|by eexists]|]. by split; [intros []|].
  - intros l. destruct (go_transparent o); [|done]. intros [= <-]. unfold local_config. cbn. split_and!; try done; by intros i ->.
  - intros r Hr Hd. rewrite Hgr. apply Hstat. unfold resolve_gateway_relays in Hres. rewrite Hr in Hres.
    destruct (go_relay_discovery o); [by injection Hres|done|by injection Hres].
  - intros Hd. unfold resolve_gateway_relays in Hres. rewrite Hd in Hres. apply driad_relays_inv in Hres as (d & ? & -> & _). by eexists.
  - intros d Hd. assert (∃ anycast, resolve_driad_relays feature resolv_conf (joins ++ option_list ((λ group, mkJoin group (go_source o)) <$> go_group o))
      (go_driad o) (go_transparent o) (go_bind o) anycast = Ok resolved) as [anycast H].
    { unfold resolve_gateway_relays in Hres. destruct (go_relay_discovery o), (go_relay o) as [r|]; cbn in Hres; try done; try (by eexists);
        destruct (Hstat r); congruence. }
    apply driad_relays_inv in H as (d' & resolvers & Hd' & Hr & Hc). assert (d' = d) as -> by congruence. rewrite Hc, Hr. by split_and!.
Qed.

(** * The properties *)


(** C9: [amt gateway] as a whole, whatever the arguments and the file: it prints the usage, fails with a message, or has a configuration
    whose parts fit together: a unicast relay with a port, a socket of the relay's family, joins that AMT can carry in the family of the
    protocol, local queries that the reporters outlive, and with DRIAD settings that the daemon accepts and joins that name their source.
    Started with it, either daemon runs for any number of turns without a panic or a hang, with its state in order, and ends
    only for the reasons it gives; with DRIAD this needs delays and hold-downs that leave an instant when they are added to the clock, which
    the command does not check. *)
Theorem gateway_command_runs driad_feature resolv_conf load_file rng args {C X W V} `{!RawContext C X} `{!GatewayWorld W}
    `{!DriadWorld V} `{!DriadLoopWorld V} opened published_packets `{!RawContextLaws opened published_packets}
    (logs : V → Logs) `{!DriadWorldOk logs} `{!DriadLoopWorldOk logs} (sent : W → list (list Z * SocketAddr)) `{!GatewayWorldOk sent} t (context : C) (w : W) (v : V) turns :
  returns resolv_conf → (∀ path, wp (load_file path) file_config_wf (λ _, True)) → nonces_drawn rng → sent w = [] →
  wp (parse_gateway_config driad_feature resolv_conf load_file rng args)
    (given (λ '(config, rng'),
       gateway_command_ok driad_feature config ∧
       match gdc_driad config with
       | None => ∀ d : GatewayDaemon C X, start_gateway t context rng' config = Ok d →
           mwp (gateway_loop turns config) (λ _ '(d', w'), gateway_daemon_ok opened sent (gdc_joins config) d' w') (λ e _, ends e) (d, w)
       | Some driad => durations_fit driad → ∀ d : DriadDaemon C X, start_driad t context rng' config driad = Ok d →
           mwp (run_driad_gateway turns config driad)
             (λ _ '(d', v'), driad_ok opened (gc_protocol (gdc_gateway config)) (gdc_joins config) driad (logs v') d') (λ e _, driad_ends e) (d, v)
       end)) (λ _, True).
Proof.
  intros Hr Hl Hn Hw. eapply wp_mono; [by apply parse_gateway_config_ok| |done]. intros oc Hoc [config rng'] Hx. destruct (Hoc _ Hx) as [Hok Hrng]. split; [done|].
  assert (Forall join_wf (gdc_joins config)) as Hj by (eapply Forall_impl; [apply (gk_joins _ _ Hok)|]; by intros j [? _]).
  assert (∀ local, gdc_local_membership config = Some local → from_option ip_wf True (lc_interface local)) as Hi.
  { intros local E. destruct (gk_local _ _ Hok local E) as (_ & Hi & _). destruct (lc_interface local); [by apply Hi|done]. }
  destruct (gdc_driad config) as [driad|] eqn:Hd.
  - intros Hfit d Hs. destruct (gk_driad _ _ Hok driad Hd) as (_ & _ & [Hlim _] & _).
    eapply mwp_mono; [by eapply (run_driad_wp opened published_packets logs)| |done]. by intros stopped [d2 w2] [? _].
  - intros d Hs. destruct (gk_nonces _ _ Hok) as [[? _] [? _]]. apply (gateway_loop_wp opened published_packets sent (gdc_joins config) Hj); [done|].
    by eapply (start_gateway_ok opened published_packets).
Qed.

(** Resolvers are the exception: those of the file stay, before those of the arguments. *)
Lemma resolvers_add_up driad_feature resolv_conf load_file rng args result :
  parse_gateway_config driad_feature resolv_conf load_file rng args = Ok (Some result) →
  ∃ path rest file o joins o',
    split_config_arg args = Ok (path, rest) ∧ load_optional_config load_file path = Ok file ∧ gateway_options_from_file file = Ok (o, joins) ∧
    do_resolvers (go_driad o') = do_resolvers (go_driad o) ++ omap named_resolver (tokens gateway_takes rest) ∧
    gateway_daemon_config driad_feature resolv_conf rng o' joins = Ok result.
Proof.
  unfold parse_gateway_config. intros H. apply bind_ok_inv in H as ([path rest] & Hs & H). apply bind_ok_inv in H as (file & Hf & H).
  apply bind_ok_inv in H as ([o joins] & Ho & H). apply bind_ok_inv in H as ([o'|] & Ha & H); [|done]. apply bind_ok_inv in H as (c & Hc & [= <-]).
  rewrite (arg_loop_tokens gateway_arm gateway_takes) in Ha by apply gateway_arm_takes.
  apply gateway_tokens_governed in Ha as (_ & _ & H3). exists path, rest, file, o, joins, o'. by split_and!.
Qed.

(** * Witnesses *)

(** A file that lists a resolver. *)
Definition demo_gateway_file : FileConfig :=
  mkFileConfig None (Some (mkGatewayFile None None None (Some "driad"%string) None None None None (Some true) None None None None
    (Some (mkDriadFile (Some (One "127.0.0.53:53"%string)) (Some 500) None None None None None None None None None None None None None))
    [mkJoinFile (V4 (mkIpv4 232 1 2 3)) (Some (V4 (mkIpv4 192 0 2 10)))])) None.
Definition demo_gateway_load (path : string) : res string FileConfig :=
  if String.eqb path "gateway.toml" then Ok demo_gateway_file else Err "no such file"%string.
Definition demo_draws : draws := [Some 11; Some 0; Some 12].
Definition demo_resolv_conf : res string (list Z) := Err "no such file"%string.
Definition demo_static_args : list string :=
  ["--relay"; "203.0.113.10:2268"; "--group"; "232.1.2.3"; "--source"; "192.0.2.10"; "--no-downstream"]%string.
Definition demo_driad_args : list string :=
  ["--config=gateway.toml"; "--driad-resolver"; "127.0.0.1"; "--driad-timeout-ms"; "250"; "--downstream-ifindex"; "2"; "--no-downstream";
   "--downstream-interface"; "127.0.0.1"]%string.
Definition demo_gateway_command (args : list string) : res CliError (option (GatewayDaemonConfig * draws)) :=
  parse_gateway_config true demo_resolv_conf demo_gateway_load demo_draws args.
Lemma demo_gateway_load_typed path : wp (demo_gateway_load path) file_config_wf (λ _, True).
Proof. unfold demo_gateway_load. destruct (String.eqb path "gateway.toml"); [|done]. cbn. decide_ok. Qed.
Lemma demo_draws_ok : nonces_drawn demo_draws.
Proof.
  split; [|by exists 11, [Some 0; Some 12], 12, []]. do 3 (apply Forall_cons; split; [by intros n [= <-]|]). by apply Forall_nil.
Qed.

Definition no_config : GatewayDaemonConfig := new_gateway_daemon_config (SocketAddrV4 Ipv4_UNSPECIFIED 0) Gateway.demo_config.
Definition demo_static_accepted : GatewayDaemonConfig :=
  Eval vm_compute in match demo_gateway_command demo_static_args with Ok (Some (c, _)) => c | _ => no_config end.
Definition demo_driad_accepted : GatewayDaemonConfig :=
  Eval vm_compute in match demo_gateway_command demo_driad_args with Ok (Some (c, _)) => c | _ => no_config end.
Lemma demo_static_eq : parse_gateway_config true demo_resolv_conf demo_gateway_load demo_draws demo_static_args = Ok (Some (demo_static_accepted, [])).
Proof. by vm_compute. Qed.
Lemma demo_driad_eq : parse_gateway_config true demo_resolv_conf demo_gateway_load demo_draws demo_driad_args = Ok (Some (demo_driad_accepted, [])).
Proof. by vm_compute. Qed.

Lemma gateway_command_runs_witness :
  gc_relay (gdc_gateway demo_static_accepted) = SocketAddrV4 (mkIpv4 203 0 113 10) 2268 ∧ gateway_command_ok true demo_static_accepted ∧
  (gdc_driad demo_static_accepted = None ∧ ∀ d : GatewayDaemon demo_raw string, start_gateway 0 (mkDemoRaw ∅ []) [] demo_static_accepted = Ok d →
     mwp (gateway_loop 2 demo_static_accepted) (λ _ '(d', w'), gateway_daemon_ok dr_opened gq_sent (gdc_joins demo_static_accepted) d' w')
       (λ e _, ends e) (d, demo_gateway_world)) ∧
  gateway_command_ok true demo_driad_accepted ∧ match gdc_driad demo_driad_accepted with Some driad => durations_fit driad | None => False end.
Proof.
  split; [by vm_compute|].
  destruct (wp_ok_inv _ _ _ _ (gateway_command_runs true demo_resolv_conf demo_gateway_load demo_draws demo_static_args (X:=string) dr_opened dr_sent dq_logs gq_sent 0 (mkDemoRaw ∅ [])
    demo_gateway_world demo_answering_world 2 ltac:(done) demo_gateway_load_typed demo_draws_ok ltac:(done)) demo_static_eq _ eq_refl) as [Hok Hrun].
  split; [exact Hok|]. split; [split; [by vm_compute|exact Hrun]|].
  destruct (wp_ok_inv _ _ _ _ (gateway_command_runs true demo_resolv_conf demo_gateway_load demo_draws demo_driad_args (X:=string) dr_opened dr_sent dq_logs gq_sent 0 (mkDemoRaw ∅ [])
    demo_gateway_world demo_answering_world 2 ltac:(done) demo_gateway_load_typed demo_draws_ok ltac:(done)) demo_driad_eq _ eq_refl) as [Hok' _].
  split; [exact Hok'|]. cbn [gdc_driad demo_driad_accepted]. split_and!; apply Z.leb_le; by vm_compute.
Defined.


(** A hold-down of any number of seconds of 64 bits is accepted, also one that no [Instant] can be advanced by: the first relay that is
    held down ends the daemon with a panic. *)
Lemma hold_down_unbounded :
  match demo_gateway_command (demo_driad_args ++ ["--driad-relay-hold-down"%string; "18446744073709551615"%string]) with
  | Ok (Some (c, _)) => gdr_relay_hold_down <$> gdc_driad c = Some (from_secs 18446744073709551615)
  | _ => False
  end ∧
  (hold_candidate (mkCandidate (demo_selection 1) SourceDns) (demo_relay_addr 1) (from_secs 18446744073709551615)
     ((demo_tunnel false, demo_plane), demo_driad_world)).1 = Panic.
Proof. by split; vm_compute. Qed.
