(* ===== verification/CommandLine.v ===== *)
(** [run] of [src/main.rs]: the command that the arguments name. [main] collects the arguments
    (with [env::args], which panics on one that is not Unicode, before [run] is called), prints the error of [run] and fails, or succeeds;
    the usage is a text. *)

From stdpp Require Import strings.
From S2P Require Import Prelude Net Gateway Relay Metrics RelayDaemon GatewayDaemon Config Options RelayCommand GatewayCommand.

(** What is done: the usage printed, or a daemon run with its configuration. *)
Inductive Command :=
| Usage
| RunRelay (config : RelayDaemonConfig)
| RunGateway (config : GatewayDaemonConfig) (rng : draws).

Section run.
Context (pmtu_feature driad_feature : bool) (secret : RelaySecret) (resolv_conf : res string (list Z)) (load_file : string → res string FileConfig).

Definition run (rng : draws) (args : list string) : res CliError Command :=
  match args with
  | [] => Ok Usage
  | command :: args =>
      if one_of command ["relay"] then
        config ← parse_relay_config pmtu_feature secret load_file args;
        Ok (match config with Some config => RunRelay config | None => Usage end)
      else if one_of command ["gateway"] then
        config ← parse_gateway_config driad_feature resolv_conf load_file rng args;
        Ok (match config with Some (config, rng) => RunGateway config rng | None => Usage end)
      else if one_of command ["-h"; "--help"; "help"] then Ok Usage
      else Err (WithUsage (quoted "unknown command" command))
  end.

Hypothesis resolv_conf_returns : returns resolv_conf.
Hypothesis load_typed : ∀ path, wp (load_file path) file_config_wf (λ _, True).

(** With two nonces to draw, [run] returns for all strings, any file it reads and any resolver configuration: the usage is printed, it ends
    with an error, or the daemon of the command is run with a configuration that was checked; a daemon is run only when its command comes
    first. *)
Theorem command_line_safe rng args :
  nonces_drawn rng →
  wp (run rng args)
    (λ command,
       match command with
       | Usage => True
       | RunRelay config => relay_command_ok pmtu_feature (addresses_given load_file (drop 1 args)) config ∧ head args = Some "relay"%string
       | RunGateway config rng' => gateway_command_ok driad_feature config ∧ draws_wf rng' ∧ head args = Some "gateway"%string
       end) (λ _, True).
Proof.
  intros Hn. unfold run. destruct args as [|command args]; [done|]. destruct (one_of command ["relay"]) eqn:Hr.
  - apply one_of_one in Hr as ->. wp_step. eapply wp_mono; [by apply relay_command_accepted| |done].
    intros [c|] Hc; [|done]. cbn. split; [by apply Hc|done].
  - destruct (one_of command ["gateway"]) eqn:Hg; [|by destruct (one_of command ["-h"; "--help"; "help"])]. apply one_of_one in Hg as ->. wp_step.
    eapply wp_mono; [by apply parse_gateway_config_ok| |done]. intros [[c rng']|] Hc; [|done]. cbn. destruct (Hc _ eq_refl). by split_and!.
Qed.
End run.

Definition demo_either_load (path : string) : res string FileConfig :=
  match demo_load path with Err _ => demo_gateway_load path | r => r end.
Lemma demo_either_typed path : wp (demo_either_load path) file_config_wf (λ _, True).
Proof.
  unfold demo_either_load. pose proof (demo_load_typed path) as H. destruct (demo_load path); try done. apply demo_gateway_load_typed.
Qed.
Lemma demo_run_gateway :
  run true true (mkSecret (replicate 32 7)) demo_resolv_conf demo_either_load demo_draws ("gateway"%string :: demo_driad_args) = Ok (RunGateway demo_driad_accepted []).
Proof. by vm_compute. Qed.
Lemma demo_run_relay :
  run true true (mkSecret (replicate 32 7)) demo_resolv_conf demo_either_load demo_draws ("relay"%string :: demo_relay_args) = Ok (RunRelay demo_accepted).
Proof. by vm_compute. Qed.

Lemma command_line_safe_witness : gateway_command_ok true demo_driad_accepted ∧
  relay_command_ok true [V4 (mkIpv4 203 0 113 10); V6 (mkIpv6 [32; 1; 13; 184; 0; 0; 0; 0; 0; 0; 0; 0; 0; 0; 0; 1])] demo_accepted.
Proof.
  assert (returns demo_resolv_conf) as Hr by done. split.
  - exact (proj1 (wp_ok_inv _ _ _ _ (command_line_safe true true (mkSecret (replicate 32 7)) _ _ Hr demo_either_typed _ _ demo_draws_ok) demo_run_gateway)).
  - exact (proj1 (wp_ok_inv _ _ _ _ (command_line_safe true true (mkSecret (replicate 32 7)) _ _ Hr demo_either_typed _ _ demo_draws_ok) demo_run_relay)).
Defined.
